(* ===== verification/_CoqProject ===== *)
-Q . S2P
Prelude.v
RustColl.v
RustStr.v
Paths.v
Os.v
Traces.v
Generated.v
Graph.v
Failure.v
State.v
Log.v
Boundary.v
Schedule.v
Control.v
Watchdog.v
Vcs.v
Integration.v
Lifecycle.v
Finalize.v
Recovery.v
Lock.v
Authority.v
Allocation.v
Dispatch.v
Vendoring.v
Modelcheck.v
Kdl.v
TableReader.v
Workflow.v
FsStore.v
StoreSafety.v
Validation.v
Closure.v
StateRoot.v
Staleness.v
Repair.v
RpcOrder.v
RpcStream.v
Roles.v
ContextPolicy.v
Checkpoint.v
CheckpointData.v
Json.v
EvidenceTypes.v
Evidence.v
EvidenceSafety.v
Prompt.v
Transcript.v
Planning.v
PlanningSafety.v
TaskInput.v
TaskAnchors.v
ModelBoundary.v
AuthorityFiles.v
AuthoritySafety.v
AuthorityWriters.v
AuthorityReaders.v
WorkMapV2.v
WorkMapSafety.v
AgentSpec.v
WorkMapCarrier.v
WorkMapAdmission.v
