(* ===== verification/Prelude.v ===== *)
(** * The core of autopilot: a verification development

    Autopilot drives coding agents through a run: a task is planned, the
    approved plan is split into lanes, agents work in worktrees, their work is
    validated, integrated and finally published.  The Rust workspace has a pure
    kernel ([src/kernel]), the drivers that act on files, git and agents
    ([src/drivers]), a code generator ([src/codegen]) and a checker of the
    workflow data ([src/modelcheck]).  This library models the kernel, the
    checker and the drivers listed below, definition by definition, and proves
    what makes them correct.  Every definition that models code is executable.

    ** How the source is represented

    - Integers are [Z] with their width written out: [checked_add],
      [saturating_add], [wrapping_mul] take the largest value of the type.
    - [Result] is [result], with [?] as the bind of a monad; a panic is [None].
    - A [String] is its UTF-8 bytes ([RustStr]); a [BTreeMap] or [BTreeSet] is
      a [gmap] or [gset], iterated in key order ([RustColl]); a [Vec] is a list.
    - Code that calls the operating system is a tree of requests ([Os]): the
      answers are not assumed, so a theorem about every branch holds for every
      behaviour of git, of the file system and of other processes.  [Traces]
      has the runs of a tree as traces of requests with their answers, for
      properties of what was answered and when; [run] executes the tree on a
      concrete world for the witnesses.
    - Several processes over one directory are a step relation ([Lock],
      [StoreSafety]): any interleaving, failing requests, and death between any
      two requests.
    - Loops and recursions that are not structural have fuel, and theorems
      show what happens when it is enough (below).

    ** Files, sources and theorems

    Shared: [Prelude] (results, guards, integers, tactics [inv_res], [inv_ok],
    [to_prop]), [RustColl] (stable sort, ordered iteration), [RustStr]
    (strings), [Paths] ([std::path] and the confinement helpers), [Os]
    (requests, [wp]), [Traces] (runs with answers, [exec]), [Graph] (the two graph searches of the sources),
    [Generated] (contract types of [kernel/src/generated/mod.rs]).

    The kernel.
    - [State]: [state.rs], [fold.rs].  The fold of a log refines an abstract
      ledger; the byte encoding of a state is injective; a log folds without
      issues just when it is chained.
    - [Log]: [log.rs].  A replay from a cache equals the fold of the log; the
      planned rows make a clean log.
    - [Schedule]: [schedule.rs].  The dispatch order is the sorted ready items
      under the cap and the pressure.
    - [Boundary]: [boundary.rs].  A boundary moves to enforcing and never back.
    - [Failure]: [failure.rs], [effect.rs].

    The event store.  [FsStore] is [drivers/src/fs/cache.rs];
    [StoreSafety] shows that concurrent appends are linearizable: at every
    moment the log is the initial rows followed by those of completed appends.

    One run and its files.
    - [StateRoot]: [state_root/mod.rs].  Run ids identify their inputs; what a
      reservation leaves behind.
    - [Recovery], [Lock]: [recovery/mod.rs].  Restart decisions; at most one
      live process holds an assignment lock; a stale lock is reclaimed once.
    - [Vcs], [Integration], [Lifecycle], [Finalize]: the modules of the same
      names.  Git runs only in directories of the owner that were resolved
      before, and on the package's references; the release of a candidate is a
      compare-and-swap after checks that passed; a close publishes last, after
      steps that succeeded, and refuses unsafe deletions; the outcome of a
      reconciliation.

    Work: [Authority], [Allocation], [Vendoring], [Dispatch] are
    [allocation/mod.rs], [allocation/vendoring_v2.rs], [dispatch/mod.rs].  An
    accepted allocation respects authority, capacity and order; an accepted
    approved plan has disjoint path authority, acyclic dependencies and one
    closure unit.

    Attested evidence: [EvidenceTypes] has the records and what serde writes
    of them, [Json] the canonical form that hashes are taken of, [Evidence]
    [evidence/mod.rs].  [EvidenceSafety] shows what an ingress may touch and
    accept under any behaviour of the file system, that admissible evidence is
    accepted when the machine cooperates, that issued records are sealed and
    fit each other, and that revisions are fresh.

    Judging work: [Validation], [Closure], [Staleness] (with conflicts), [Repair]
    (with the hand-off) are the drivers of those names: when a round is
    accepted, how long a repair may go on, what becomes stale, which edges a
    changed contract reopens.

    Agents.
    - [Roles]: [roles/], [roster/mod.rs]; [ContextPolicy]: [context/].  The
      shipped registries are accepted and fit each other; only subscription
      routes of the roster pass; budgets are exact on machine widths.
    - [Control], [Watchdog]: [control/], [watchdog/], [bgtasks/].  A background
      launch is admitted just when the package issued it.
    - [RpcOrder], [RpcStream]: [runner/rpc.rs] and its modules.  Responses
      match requests, events come in the order of the tables, records do not
      depend on how the pipe is cut, the child's environment is closed.

    Hand-offs: [Checkpoint] is [checkpoint/mod.rs]: the policy reader and its
    checks, when a hand-off is accepted, which context decision the usage of a
    session gives (on binary64 numbers); [CheckpointData] is the shipped policy.

    The workflow documents: [Kdl] is [codegen/src/kdl_read.rs] over the tree of
    a KDL parser, [TableReader] is [codegen/src/table.rs] and the entry
    point [run_path] of [modelcheck/src/lib.rs]; the exit code is characterised
    for every document.

    Prompts and transcripts: [Prompt] is [contract_authority.rs] and
    [prompt/mod.rs]; quoted data cannot end its fence, and a prompt is rendered
    only from a registered role.  [Transcript] is [transcript/mod.rs]; the mode
    table is one-way, and an id of two dots writes outside the store.

    Planning: [Planning] is the scheduling part of [planning/mod.rs]: the policy
    text, waves, assignments, barriers and [next_planning_wave].
    [PlanningSafety] proves which waves are accepted, that an outcome is what it
    says, and that every run of planning is bounded and settles; the steps of a
    run are what the runner may record between two calls.


    [TaskInput] is the task documents of [planning/mod.rs]: the three header
    lines, the classes, the authority set and the reading of a pack of files;
    a document is read exactly from its text and a pack only from below its
    root.  [TaskAnchors] is the section anchors a document offers and the
    registry of them.  [ModelBoundary] is the acceptance of what the planning
    agents submit (atoms, dossiers, questions, work maps, plan reviews) and the
    atom registry file; each boundary accepts exactly the sound submissions.

    Authority files: [AuthorityFiles] is the Unix part of [runner/mod.rs] that
    reads and writes run authority: a path is opened name by name without
    following a link, read within a limit, and created once through a private
    name that is filled, synced and linked.  [AuthoritySafety] is a file system
    with names, files and descriptors and the rules every writer keeps;
    [AuthorityWriters] runs any number of them at once, with any interleaving
    and failures, and proves what a success means and that no published name is
    lost or changed; [AuthorityReaders] proves what a reader returns while
    others do anything at all to the file system.

    Work maps of version 2: [WorkMapV2] is the checks and conversions of
    [planning/work_map_v2.rs].  [WorkMapSafety] proves that the check of the
    shape ends and what a map that passes has, that a recovery is exactly a
    change of objectives that is declared, and that conversion never fails.
    [AgentSpec] is the specifications of agent runs, terminal routes, paths and
    carrier bindings of the runner; [WorkMapCarrier] is the carriers a map
    arrives in and its admission.  [WorkMapAdmission] proves which routes carry
    a map, that planner and runner choose the same, what a verified carrier
    agrees with, and what an admitted map is.

    The workflow checker: [Modelcheck] is [modelcheck/src/lib.rs]; it reports
    a violation just when the specification of its rules is violated.
    [Workflow] is the shipped document, on which its theorems are run.

    ** Fuel

    - [Graph.dfs] and [collect]: one more than the number of nodes with
      successors bounds the depth, shown in [Graph]; the users pass it.
    - [Paths.probe_real] walks up a path: its length is enough.
    - The line readers ([Roles.blocks_from], [ContextPolicy.policy_lines],
      [registry_lines]) take at least a line a step: the number of lines.
    - [RpcStream.read_all]: more than the bytes of the stream, as each record
      consumes a byte.
    - [StateRoot.base32_drain]: the pending bits; [RustStr.show_uint]: twenty
      digits, enough for 64 bits.
    - [Modelcheck.reach] and the gates: the number of states, with a theorem
      that the search has then closed.
    - [Lock]: the source's own limit of a thousand attempts.
    - [Allocation.dependency_depth] is unbounded in the source: a theorem shows
      the depth it computes when dependencies are acyclic, and another that
      validation returns, with fuel for one more step than there are units,
      unless an assigned unit leads to a dependency cycle, when no fuel is
      enough.

    ** Parameters

    Code outside the repository is an argument: SHA-256 (assumed injective only
    where a theorem says so), the JSON and UTF-8 decoders, the values of the
    KDL parser, the process probe, answers of the operating system, the
    [{:?}] text of values, the linker's table of boundaries.  Every theorem
    with a hypothesis about one has a witness at a concrete function.

    ** Not modelled

    - [seam/mod.rs], [runner/child.rs] and the rest of [runner/mod.rs]: the
      command loop and the supervision of children compose the modules above
      with files, processes and JSON; [runner/validation_authority.rs],
      [runner/materializer_v4.rs], [runner/package_proof_v2.rs] and
      [seam/approved_plan_v2.rs] assemble and compare documents of that loop.
    - The Windows variants of the file operations.
    - Most of [kernel/src/generated/mod.rs], which declares types and their
      serde names; the other generated tables are data.
    - The emitter of [codegen] (Rust text), [kernel/macros], [sim], [clock], [entropy],
      [bin]: build tools, test doubles and thin system calls.
    - The TypeScript host and extensions. *)

From stdpp Require Export base tactics option list numbers strings gmap sorting.
From Stdlib Require Export ZArith Lia.
#[global] Open Scope Z_scope.
#[global] Open Scope list_scope.

(** ** Results: Rust's [Result<A, E>] *)

Inductive result (E A : Type) : Type :=
| Ok (a : A)
| Err (e : E).
Arguments Ok {E A} a.
Arguments Err {E A} e.

Definition result_bind {E A B} (f : A → result E B) (r : result E A) : result E B :=
  match r with Ok a => f a | Err e => Err e end.
#[global] Instance result_mbind {E} : MBind (result E) := λ A B, @result_bind E A B.
#[global] Instance result_mret {E} : MRet (result E) := λ A, @Ok E A.
#[global] Instance result_fmap {E} : FMap (result E) :=
  λ A B f r, match r with Ok a => Ok (f a) | Err e => Err e end.

(** [map_err]: change the error, keep the value. *)
Definition map_err {E F A} (f : E → F) (r : result E A) : result F A :=
  match r with Ok a => Ok a | Err e => Err (f e) end.

(** [Option::ok_or]. *)
Definition ok_or {E A} (o : option A) (e : E) : result E A :=
  match o with Some a => Ok a | None => Err e end.

(** An early return with [e] when the condition does not hold. *)
Definition ensure {E} (b : bool) (e : E) : result E unit :=
  if b then Ok tt else Err e.

(** [for x in l { f(x)?; }] *)
Fixpoint for_each {E A} (f : A → result E unit) (l : list A) : result E unit :=
  match l with
  | [] => Ok tt
  | x :: l' => match f x with Ok _ => for_each f l' | Err e => Err e end
  end.

(** [let mut s = s0; for x in l { s = f(s, x)?; }] *)
Fixpoint fold_res {E A S} (f : S → A → result E S) (s : S) (l : list A) : result E S :=
  match l with
  | [] => Ok s
  | x :: l' => match f s x with Ok s' => fold_res f s' l' | Err e => Err e end
  end.

(** [iter.map(f).collect::<Result<Vec<_>, _>>()] *)
Fixpoint collect_res {E A B} (f : A → result E B) (l : list A) : result E (list B) :=
  match l with
  | [] => Ok []
  | x :: l' =>
      match f x with
      | Ok b => match collect_res f l' with Ok bs => Ok (b :: bs) | Err e => Err e end
      | Err e => Err e
      end
  end.

(** [iter.any(p)], [iter.all(p)], [iter.find(p)] over a list. *)
Definition any {A} (p : A → bool) (l : list A) : bool := existsb p l.
Definition all {A} (p : A → bool) (l : list A) : bool := forallb p l.
Definition find_first {A} (p : A → bool) (l : list A) : option A := List.find p l.

Declare Scope rust_scope.
Delimit Scope rust_scope with rust.
Notation "x =s y" := (bool_decide (x = y)) (at level 70, no associativity) : rust_scope.
#[global] Open Scope rust_scope.

Create HintDb autopilot.
Create Rewrite HintDb autopilot.

Section Results.
Context {E A B S : Type}.

Lemma bind_ok (r : result E A) (f : A → result E B) b :
  (r ≫= f) = Ok b ↔ ∃ a, r = Ok a ∧ f a = Ok b.
Proof. destruct r; cbn; naive_solver. Qed.

Lemma bind_err (r : result E A) (f : A → result E B) e :
  (r ≫= f) = Err e ↔ r = Err e ∨ ∃ a, r = Ok a ∧ f a = Err e.
Proof. destruct r; cbn; naive_solver. Qed.

Lemma ensure_ok (b : bool) (e : E) u : ensure b e = Ok u ↔ b = true.
Proof. destruct b, u; cbn; naive_solver. Qed.

Lemma ensure_err (b : bool) (e e' : E) : ensure b e = Err e' ↔ b = false ∧ e = e'.
Proof. destruct b; cbn; naive_solver. Qed.

Lemma ok_or_ok (o : option A) (e : E) a : ok_or o e = Ok a ↔ o = Some a.
Proof. destruct o; cbn; naive_solver. Qed.

Lemma ok_or_err (o : option A) (e e' : E) : ok_or o e = Err e' ↔ o = None ∧ e = e'.
Proof. destruct o; cbn; naive_solver. Qed.

Lemma map_err_ok {F} (f : E → F) (r : result E A) a : map_err f r = Ok a ↔ r = Ok a.
Proof. destruct r; cbn; naive_solver. Qed.

Lemma for_each_ok (f : A → result E unit) l u :
  for_each f l = Ok u ↔ Forall (λ x, f x = Ok tt) l.
Proof.
  destruct u. induction l as [|x l IH]; cbn; [naive_solver|].
  rewrite Forall_cons. destruct (f x) as [[]|]; naive_solver.
Qed.

(** The loop stops at the first element whose body fails, with its error. *)
Lemma for_each_err (f : A → result E unit) l e :
  for_each f l = Err e ↔
  ∃ l1 x l2, l = l1 ++ x :: l2 ∧ Forall (λ y, f y = Ok tt) l1 ∧ f x = Err e.
Proof.
  induction l as [|x l IH]; cbn.
  { split; [done|]. intros ([|] & ? & ? & ? & _); done. }
  destruct (f x) as [[]|e'] eqn:Hx.
  - rewrite IH. split.
    + intros (l1 & y & l2 & -> & ? & ?). exists (x :: l1), y, l2. by rewrite Forall_cons.
    + intros ([|z l1] & y & l2 & ? & Hl1 & Hy); simplify_list_eq; [congruence|].
      apply Forall_cons in Hl1 as [_ ?]. by exists l1, y, l2.
  - split.
    + intros [= ->]. by exists [], x, l.
    + intros ([|z l1] & y & l2 & ? & Hl1 & Hy); simplify_list_eq; [congruence|].
      apply Forall_cons in Hl1 as [? _]. congruence.
Qed.

Lemma collect_res_ok (f : A → result E B) l bs :
  collect_res f l = Ok bs ↔ Forall2 (λ x b, f x = Ok b) l bs.
Proof.
  revert bs. induction l as [|x l IH]; intros bs; cbn.
  { split; [intros [= <-]; constructor | intros H; by inversion H]. }
  split.
  - destruct (f x) eqn:?; [|done]. destruct (collect_res f l) eqn:?; [|done].
    intros [= <-]. constructor; [done|]. by apply IH.
  - intros H. inversion H as [|? b ? bs' Hx Hl]; subst. apply IH in Hl.
    by rewrite Hx, Hl.
Qed.

Lemma collect_res_is_ok (f : A → result E B) l :
  (∃ bs, collect_res f l = Ok bs) ↔ ∀ x, x ∈ l → ∃ b, f x = Ok b.
Proof.
  induction l as [|x l IH]; cbn; [split; [set_solver|by exists []]|]. split.
  - intros [bs Hbs]. destruct (f x) as [b|] eqn:Hx; [|done].
    destruct (collect_res f l) as [bs'|]; [|done]. intros y [->|Hy]%elem_of_cons; [eauto|]. apply IH; eauto.
  - intros H. destruct (H x) as [b ->]; [by left|].
    destruct (proj2 IH) as [bs ->]; [|eauto]. intros y Hy. apply H. by right.
Qed.

Lemma fold_res_app (f : S → A → result E S) s l k :
  fold_res f s (l ++ k) = fold_res f s l ≫= λ s', fold_res f s' k.
Proof.
  revert s. induction l as [|x l IH]; intros s; cbn; [done|]. destruct (f s x); [apply IH|done].
Qed.

(** A loop invariant for [fold_res]: it is preserved by every iteration
    that does not fail. *)
Lemma fold_res_inv (f : S → A → result E S) (P : list A → S → Prop) s0 l s :
  P [] s0 →
  (∀ done x s s', P done s → x ∈ l → f s x = Ok s' → P (done ++ [x]) s') →
  fold_res f s0 l = Ok s → P l s.
Proof.
  intros H0 Hstep. change l with ([] ++ l) at 2.
  assert (Hin : ∀ x, x ∈ l → x ∈ l) by done. revert Hin. generalize l at 1 3 4 as k.
  generalize (@nil A) as acc, s0, H0. clear s0 H0.
  intros acc s0 H0 k. revert acc s0 H0. induction k as [|x k IH]; intros acc s0 H0 Hin; cbn.
  { intros [= <-]. by rewrite app_nil_r. }
  destruct (f s0 x) as [s1|] eqn:Hx; [|done]. intros Hk.
  rewrite cons_middle, app_assoc. eapply IH; [|set_solver|done].
  eapply Hstep; [done| |done]. apply Hin. set_solver.
Qed.
End Results.

(** A guard that returned: its condition is false. *)
Lemma guard_ok {E A} (b : bool) (e : E) (k : result E A) a :
  (if b then Err e else k) = Ok a ↔ b = false ∧ k = Ok a.
Proof. destruct b; naive_solver. Qed.

Lemma any_spec {A} (p : A → bool) l : any p l = true ↔ ∃ x, x ∈ l ∧ p x = true.
Proof. unfold any. rewrite existsb_exists. by setoid_rewrite list_elem_of_In. Qed.

Lemma any_false {A} (p : A → bool) l : any p l = false ↔ ∀ x, x ∈ l → p x = false.
Proof.
  rewrite <- not_true_iff_false, any_spec. setoid_rewrite <- not_true_iff_false. naive_solver.
Qed.

Lemma all_spec {A} (p : A → bool) l : all p l = true ↔ ∀ x, x ∈ l → p x = true.
Proof. unfold all. rewrite forallb_forall. by setoid_rewrite list_elem_of_In. Qed.

Lemma find_first_some {A} (p : A → bool) l x :
  find_first p l = Some x → x ∈ l ∧ p x = true.
Proof. intros H%List.find_some. by rewrite list_elem_of_In. Qed.

Lemma find_first_none {A} (p : A → bool) l :
  find_first p l = None ↔ ∀ x, x ∈ l → p x = false.
Proof.
  split.
  - intros H x Hx. apply (List.find_none _ _ H). by apply list_elem_of_In.
  - intros H. unfold find_first. induction l as [|y l IH]; cbn; [done|].
    rewrite H by set_solver. apply IH. set_solver.
Qed.

Lemma filter_all {A} (P : A → Prop) `{!∀ x, Decision (P x)} (l : list A) :
  (∀ x, x ∈ l → P x) → filter P l = l.
Proof.
  induction l as [|x l IH]; intros Hl; [done|]. rewrite filter_cons_True by (apply Hl; set_solver).
  f_equal. apply IH. set_solver.
Qed.

(** The proof steps the components repeat: take a monadic computation that
    returned apart, and read boolean guards as propositions. *)
Ltac inv_res :=
  repeat match goal with
    | H : (_ ≫= _) = Ok _ |- _ => apply bind_ok in H as (? & ? & ?)
    | H : ensure _ _ = Ok _ |- _ => apply ensure_ok in H
    | H : ensure _ _ = Err _ |- _ => apply ensure_err in H as [? ?]
    | H : ok_or _ _ = Ok _ |- _ => apply ok_or_ok in H
    | H : map_err _ _ = Ok _ |- _ => apply map_err_ok in H
    | H : Ok _ = Ok _ |- _ => injection H as H
    | H : Ok _ = Err _ |- _ => discriminate H
    | H : Err _ = Ok _ |- _ => discriminate H
    end; simplify_eq.

Ltac to_prop :=
  repeat match goal with
    | H : bool_decide _ = true |- _ => apply bool_decide_eq_true in H
    | H : bool_decide _ = false |- _ => apply bool_decide_eq_false in H
    | H : _ && _ = true |- _ => apply andb_true_iff in H as [? ?]
    | H : _ || _ = false |- _ => apply orb_false_iff in H as [? ?]
    | H : negb _ = true |- _ => apply negb_true_iff in H
    | H : negb _ = false |- _ => apply negb_false_iff in H
    | H : (_ =? _) = true |- _ => apply Z.eqb_eq in H
    | H : (_ =? _) = false |- _ => apply Z.eqb_neq in H
    | H : (_ <? _) = true |- _ => apply Z.ltb_lt in H
    | H : (_ <? _) = false |- _ => apply Z.ltb_ge in H
    | H : (_ <=? _) = true |- _ => apply Z.leb_le in H
    | H : (_ <=? _) = false |- _ => apply Z.leb_gt in H
    end.

(** Take a chain of checks that returned apart. *)
Ltac inv_ok :=
  repeat first [progress inv_res
    | match goal with H : (if _ then Err _ else _) = Ok _ |- _ => apply guard_ok in H as [? ?] end];
  to_prop.

(** ** Machine integers: unsigned values of a width as [Z] *)

Definition u8_max : Z := 255.
Definition u16_max : Z := 65535.
Definition u32_max : Z := 4294967295.
Definition u64_max : Z := 18446744073709551615.
(** The targets the package ships for are 64-bit. *)
Definition usize_max : Z := u64_max.

Definition in_range (max z : Z) : Prop := 0 ≤ z ≤ max.
Definition in_rangeb (max z : Z) : bool := (0 <=? z) && (z <=? max).

Definition checked_add (max a b : Z) : option Z :=
  if a + b <=? max then Some (a + b) else None.
Definition saturating_add (max a b : Z) : Z := Z.min max (a + b).
Definition saturating_sub (a b : Z) : Z := Z.max 0 (a - b).
Definition saturating_mul (max a b : Z) : Z := Z.min max (a * b).
Definition wrapping_add (max a b : Z) : Z := (a + b) mod (max + 1).
Definition wrapping_mul (max a b : Z) : Z := (a * b) mod (max + 1).
(** [div_ceil] of unsigned integers, for a positive divisor. *)
Definition div_ceil (a b : Z) : Z := (a + (b - 1)) / b.

Lemma checked_add_some max a b c : checked_add max a b = Some c ↔ c = a + b ∧ a + b ≤ max.
Proof. unfold checked_add. destruct (Z.leb_spec (a + b) max); naive_solver lia. Qed.

Lemma checked_add_none max a b : checked_add max a b = None ↔ max < a + b.
Proof. unfold checked_add. destruct (Z.leb_spec (a + b) max); naive_solver lia. Qed.

(** [v.len()] of a vector. *)
Definition zlen {A} (l : list A) : Z := Z.of_nat (length l).

Lemma zlen_nonneg {A} (l : list A) : 0 ≤ zlen l.
Proof. unfold zlen. lia. Qed.
Lemma zlen_app {A} (l k : list A) : zlen (l ++ k) = zlen l + zlen k.
Proof. unfold zlen. rewrite length_app. lia. Qed.
Lemma zlen_cons {A} (x : A) l : zlen (x :: l) = 1 + zlen l.
Proof. unfold zlen. cbn. lia. Qed.
Lemma zlen_nil {A} : zlen (@nil A) = 0.
Proof. done. Qed.
#[export] Hint Rewrite @zlen_app @zlen_cons @zlen_nil : autopilot.
