(* ===== verification/RustColl.v ===== *)
(** * The collections the program uses

    [slice::sort_by] as a stable sort, the comparators it is called with
    ([cmp], [then_with], keys), and the ordered iteration of [BTreeMap] and
    [BTreeSet].  A map or set is stdpp's [gmap]/[gset]; iterating it is
    sorting its bindings by key, which is what a B-tree iterates in. *)

From S2P Require Import Prelude.

(** ** Comparators *)

(** The law a comparison function has to obey for [sort_by]: it is total and
    transitive. *)
Class TotalCmp {A} (cmp : A → A → comparison) : Prop := {
  cmp_opp : ∀ x y, cmp y x = CompOpp (cmp x y);
  cmp_trans : ∀ x y z, cmp x y ≠ Gt → cmp y z ≠ Gt → cmp x z ≠ Gt;
}.

Arguments cmp_opp {A} cmp {_} x y.
Arguments cmp_trans {A} cmp {_} x y z _ _.

Definition cmp_le {A} (cmp : A → A → comparison) (x y : A) : Prop := cmp x y ≠ Gt.

(** [Ordering::then_with] *)
Definition then_with (c d : comparison) : comparison :=
  match c with Eq => d | _ => c end.

Definition cmp_then {A} (c d : A → A → comparison) (x y : A) : comparison :=
  then_with (c x y) (d x y).
(** compare by a key *)
Definition cmp_on {A B} (key : A → B) (c : B → B → comparison) (x y : A) : comparison :=
  c (key x) (key y).
(** [right.cmp(&left)] *)
Definition cmp_rev {A} (c : A → A → comparison) (x y : A) : comparison := c y x.

Section TotalCmp.
Context {A : Type} (cmp : A → A → comparison) `{!TotalCmp cmp}.

Lemma cmp_refl x : cmp x x = Eq.
Proof. pose proof (cmp_opp cmp x x) as H. destruct (cmp x x); done. Qed.

Lemma cmp_gt_le x y : cmp x y = Gt → cmp_le cmp y x.
Proof. unfold cmp_le. rewrite (cmp_opp cmp x y). by intros ->. Qed.

Lemma cmp_eq_sym x y : cmp x y = Eq → cmp y x = Eq.
Proof. rewrite (cmp_opp cmp x y). by intros ->. Qed.

Lemma cmp_eq_compat_l x y z : cmp x y = Eq → cmp x z = cmp y z.
Proof.
  intros Hxy. pose proof (cmp_eq_sym _ _ Hxy) as Hyx.
  pose proof (cmp_trans cmp y x z) as H1. pose proof (cmp_trans cmp x y z) as H2.
  pose proof (cmp_trans cmp z x y) as H3. pose proof (cmp_trans cmp z y x) as H4.
  rewrite (cmp_opp cmp x z), (cmp_opp cmp y z), Hxy, ?Hyx in *.
  destruct (cmp x z), (cmp y z); naive_solver.
Qed.

#[global] Instance cmp_le_trans : Transitive (cmp_le cmp).
Proof. intros x y z. apply (cmp_trans cmp). Qed.
#[global] Instance cmp_le_refl : Reflexive (cmp_le cmp).
Proof. intros x. unfold cmp_le. by rewrite cmp_refl. Qed.
End TotalCmp.

#[global] Instance Z_compare_total : TotalCmp Z.compare.
Proof. split; [intros; by rewrite Z.compare_antisym | intros ???; rewrite !Z.compare_le_iff; lia]. Qed.

Lemma string_compare_antisym s t : String.compare t s = CompOpp (String.compare s t).
Proof. apply String.compare_antisym. Qed.

Lemma string_compare_le s t : String.compare s t ≠ Gt ↔ String.le s t.
Proof. unfold String.le, String.leb. destruct (String.compare s t); naive_solver. Qed.

#[global] Instance string_compare_total : TotalCmp String.compare.
Proof.
  split; [intros; apply string_compare_antisym|].
  intros x y z. rewrite !string_compare_le. apply (transitivity (R := String.le)).
Qed.

#[global] Instance cmp_on_total {A B} (key : A → B) c `{!TotalCmp c} : TotalCmp (cmp_on key c).
Proof. split; unfold cmp_on; [intros; apply (cmp_opp c) | intros x y z; apply (cmp_trans c)]. Qed.

#[global] Instance cmp_rev_total {A} (c : A → A → comparison) `{!TotalCmp c} : TotalCmp (cmp_rev c).
Proof. split; unfold cmp_rev; [intros; apply (cmp_opp c) | intros x y z ??; by apply (cmp_trans c z y x)]. Qed.

#[global] Instance cmp_then_total {A} (c d : A → A → comparison) `{!TotalCmp c, !TotalCmp d} :
  TotalCmp (cmp_then c d).
Proof.
  split; unfold cmp_then, then_with.
  - intros x y. rewrite (cmp_opp c x y). destruct (c x y); cbn; [apply (cmp_opp d)|done..].
  - intros x y z H1 H2.
    destruct (c x y) eqn:Hxy; [| |done].
    + rewrite (cmp_eq_compat_l c x y z Hxy). destruct (c y z); [|done..]. by apply (cmp_trans d x y z).
    + assert (Hxz : c x z = Lt); [|by rewrite Hxz].
      destruct (c y z) eqn:Hyz; [| |done].
      * rewrite (cmp_opp c z x), <- (cmp_eq_compat_l c y z x Hyz), <- (cmp_opp c y x), Hxy. done.
      * pose proof (cmp_trans c x y z) as Ht. rewrite Hxy, Hyz in Ht.
        destruct (c x z) eqn:Hxz; [|done|naive_solver].
        rewrite (cmp_eq_compat_l c x z y Hxz) in Hxy.
        rewrite (cmp_opp c y z), Hyz in Hxy. done.
Qed.

#[global] Typeclasses Opaque cmp_on cmp_rev cmp_then.

(** ** [sort_by]: a stable sort *)

Section SortBy.
Context {A : Type} (cmp : A → A → comparison).

Fixpoint insert_by (x : A) (l : list A) : list A :=
  match l with
  | [] => [x]
  | y :: l' => match cmp x y with Gt => y :: insert_by x l' | _ => x :: l end
  end.

Definition sort_by (l : list A) : list A := foldr insert_by [] l.

Lemma insert_by_perm x l : insert_by x l ≡ₚ x :: l.
Proof.
  induction l as [|y l IH]; cbn; [done|]. destruct (cmp x y); [done..|].
  rewrite IH. constructor.
Qed.

Lemma sort_by_perm l : sort_by l ≡ₚ l.
Proof. induction l as [|x l IH]; cbn; [done|]. by rewrite insert_by_perm, IH. Qed.

Lemma elem_of_sort_by x l : x ∈ sort_by l ↔ x ∈ l.
Proof. by rewrite sort_by_perm. Qed.

Lemma length_sort_by l : length (sort_by l) = length l.
Proof. apply Permutation_length, sort_by_perm. Qed.

Context `{!TotalCmp cmp}.

Lemma insert_by_sorted x l :
  StronglySorted (cmp_le cmp) l → StronglySorted (cmp_le cmp) (insert_by x l).
Proof.
  induction 1 as [|y l Hl IH Hy]; cbn; [repeat constructor|].
  destruct (cmp x y) eqn:Hxy.
  1,2: constructor; [by constructor|]; constructor; [unfold cmp_le; by rewrite Hxy|].
  1,2: eapply Forall_impl; [exact Hy|]; intros z Hz; eapply (cmp_trans cmp x y z); [by rewrite Hxy|done].
  constructor; [done|]. rewrite insert_by_perm. constructor; [by apply cmp_gt_le|done].
Qed.

Lemma sort_by_sorted l : StronglySorted (cmp_le cmp) (sort_by l).
Proof. induction l; cbn; [constructor|]. by apply insert_by_sorted. Qed.

(** Elements that compare equal keep their relative order. *)
Lemma insert_by_stable z x l :
  StronglySorted (cmp_le cmp) l →
  filter (λ y, cmp z y = Eq) (insert_by x l) = filter (λ y, cmp z y = Eq) (x :: l).
Proof.
  induction 1 as [|y l Hl IH Hy]; [done|]. cbn [insert_by].
  destruct (cmp x y) eqn:Hxy; [done..|].
  rewrite !filter_cons, IH. rewrite filter_cons.
  destruct (decide (cmp z x = Eq)) as [Hzx|], (decide (cmp z y = Eq)) as [Hzy|]; [|done..].
  rewrite <- (cmp_eq_compat_l cmp z x y Hzx) in Hxy. congruence.
Qed.

Lemma sort_by_stable z l :
  filter (λ y, cmp z y = Eq) (sort_by l) = filter (λ y, cmp z y = Eq) l.
Proof.
  induction l as [|x l IH]; [done|]. cbn [sort_by foldr].
  rewrite insert_by_stable by apply sort_by_sorted. rewrite !filter_cons.
  unfold sort_by in IH. by rewrite IH.
Qed.

(** Two inputs that are permutations of each other sort to the same list
    when elements that compare equal are equal. *)
Lemma sort_by_perm_unique l k :
  l ≡ₚ k → (∀ x y, x ∈ l → y ∈ l → cmp x y = Eq → x = y) → sort_by l = sort_by k.
Proof.
  intros Hlk Hinj.
  apply (StronglySorted_unique_strong (cmp_le cmp)); [|apply sort_by_sorted..|by rewrite !sort_by_perm].
  intros x y Hx Hy H1 H2. rewrite elem_of_sort_by in Hx, Hy. rewrite <- Hlk in Hy.
  apply Hinj; [done..|]. unfold cmp_le in *. rewrite (cmp_opp cmp x y) in H2.
  destruct (cmp x y); done.
Qed.

Lemma sort_by_sorted_id l : StronglySorted (cmp_le cmp) l → sort_by l = l.
Proof.
  induction 1 as [|x l Hl IH Hx]; [done|]. cbn [sort_by foldr].
  unfold sort_by in IH. rewrite IH. destruct l as [|y l]; [done|]. cbn.
  apply Forall_cons in Hx as [Hx _]. unfold cmp_le in Hx. by destruct (cmp x y).
Qed.
End SortBy.

(** ** [Vec::dedup] *)

Fixpoint dedup {A} `{EqDecision A} (l : list A) : list A :=
  match l with
  | x :: l' => match l' with
               | y :: _ => if decide (x = y) then dedup l' else x :: dedup l'
               | [] => [x]
               end
  | [] => []
  end.

Lemma elem_of_dedup {A} `{EqDecision A} (l : list A) x : x ∈ dedup l ↔ x ∈ l.
Proof.
  induction l as [|y l IH]; [done|]. destruct l as [|z l]; [done|].
  change (dedup (y :: z :: l)) with (if decide (y = z) then dedup (z :: l) else y :: dedup (z :: l)).
  case_decide; subst; set_solver.
Qed.

(** Sorting and then dropping repetitions lists the elements once, in order. *)
Lemma dedup_sorted (l : list string) :
  StronglySorted (cmp_le String.compare) l → StronglySorted (λ x y, String.compare x y = Lt) (dedup l).
Proof.
  induction 1 as [|x l Hl IH Hx]; [constructor|]. destruct l as [|y l]; [repeat constructor|].
  change (dedup (x :: y :: l)) with (if decide (x = y) then dedup (y :: l) else x :: dedup (y :: l)).
  case_decide as Hxy; [done|]. constructor; [done|].
  apply Forall_forall. intros z Hz. rewrite elem_of_dedup in Hz.
  assert (cmp_le String.compare x z) as Hxz by (rewrite Forall_forall in Hx; by apply Hx).
  unfold cmp_le in Hxz. destruct (String.compare x z) eqn:Hc; [|done|congruence]. apply String.compare_eq_iff in Hc as ->.
  exfalso. apply Hxy. apply Forall_cons in Hx as [Hzy _].
  assert (cmp_le String.compare y z) as Hyz.
  { apply elem_of_cons in Hz as [->|Hz]; [reflexivity|].
    apply StronglySorted_inv in Hl as [_ Hl]. rewrite Forall_forall in Hl. by apply Hl. }
  unfold cmp_le in *. rewrite (string_compare_antisym z y) in Hyz.
  destruct (String.compare z y) eqn:Hc; try done. by apply String.compare_eq_iff in Hc.
Qed.

Lemma strictly_sorted_NoDup (l : list string) :
  StronglySorted (λ x y, String.compare x y = Lt) l → NoDup l.
Proof.
  induction 1 as [|x l Hl IH Hx]; constructor; [|done]. intros Hin.
  rewrite Forall_forall in Hx. specialize (Hx x Hin). by rewrite (cmp_refl String.compare) in Hx.
Qed.

(** A list without repetitions in order is determined by its elements. *)
Lemma strictly_sorted_unique (l k : list string) :
  StronglySorted (λ x y, String.compare x y = Lt) l → StronglySorted (λ x y, String.compare x y = Lt) k →
  (∀ x, x ∈ l ↔ x ∈ k) → l = k.
Proof.
  intros Hl Hk Hlk. apply (StronglySorted_unique_strong (λ x y, String.compare x y = Lt)); [|done..|].
  - intros x y _ _ H1 H2. by rewrite (string_compare_antisym x y), H1 in H2.
  - apply NoDup_Permutation; auto using strictly_sorted_NoDup.
Qed.

(** ** Ordered iteration of [BTreeSet<String>] and [BTreeMap<String, V>] *)

Definition btree_set (s : gset string) : list string := sort_by String.compare (elements s).
Definition btree_map {V} (m : gmap string V) : list (string * V) :=
  sort_by (cmp_on fst String.compare) (map_to_list m).
Definition btree_keys {V} (m : gmap string V) : list string := (btree_map m).*1.
Definition btree_values {V} (m : gmap string V) : list V := (btree_map m).*2.

Lemma elem_of_btree_set x s : x ∈ btree_set s ↔ x ∈ s.
Proof. unfold btree_set. by rewrite elem_of_sort_by, elem_of_elements. Qed.

Lemma NoDup_btree_set s : NoDup (btree_set s).
Proof. unfold btree_set. rewrite sort_by_perm. apply NoDup_elements. Qed.

Lemma elem_of_btree_map {V} (m : gmap string V) k v : (k, v) ∈ btree_map m ↔ m !! k = Some v.
Proof. unfold btree_map. by rewrite elem_of_sort_by, elem_of_map_to_list. Qed.

Lemma btree_map_perm {V} (m : gmap string V) : btree_map m ≡ₚ map_to_list m.
Proof. apply sort_by_perm. Qed.

Lemma btree_map_inj {V} (m n : gmap string V) : btree_map m = btree_map n → m = n.
Proof.
  intros H. apply map_eq. intros k. apply option_eq. intros v.
  by rewrite <- !elem_of_btree_map, H.
Qed.

Lemma elem_of_btree_keys {V} (m : gmap string V) k : k ∈ btree_keys m ↔ is_Some (m !! k).
Proof.
  unfold btree_keys. rewrite list_elem_of_fmap. split.
  - intros ([k' v] & -> & H). apply elem_of_btree_map in H. by eexists.
  - intros [v H]. exists (k, v). by rewrite elem_of_btree_map.
Qed.

Lemma elem_of_btree_values {V} (m : gmap string V) v : v ∈ btree_values m ↔ ∃ k, m !! k = Some v.
Proof.
  unfold btree_values. rewrite list_elem_of_fmap. split.
  - intros ([k v'] & -> & H). apply elem_of_btree_map in H. by eexists.
  - intros [k H]. exists (k, v). by rewrite elem_of_btree_map.
Qed.

#[export] Hint Rewrite @elem_of_btree_set @elem_of_btree_map @elem_of_btree_keys
  @elem_of_btree_values @elem_of_sort_by @length_sort_by : autopilot.
