(* ===== verification/RustStr.v ===== *)
(** * The string operations the program uses

    A Rust [&str]/[String] is its UTF-8 bytes, so it is a [string] here (a
    sequence of bytes); [==] and [cmp] are byte-wise, as in Rust.  Operations
    that work on characters ([trim], [split_whitespace]) recognise the UTF-8
    encodings of the characters of the Unicode property White_Space. *)

From S2P Require Import Prelude.
From Stdlib Require Export Ascii.
From Stdlib Require Import String.
Export (notations) String.

#[global] Open Scope stdpp_scope.
#[global] Open Scope Z_scope.

#[global] Arguments String.append : simpl nomatch.

(** A byte of a string as a [u8]. *)
Definition code (a : ascii) : Z := Z.of_N (N_of_ascii a).
Definition chr (z : Z) : ascii := ascii_of_N (Z.to_N z).

Definition as_bytes (s : string) : list Z := map code (list_ascii_of_string s).
(** [s.len()] *)
Definition str_len (s : string) : Z := Z.of_nat (String.length s).
Definition is_empty (s : string) : bool := s =s "".

Fixpoint str_rev_app (s acc : string) : string :=
  match s with "" => acc | String a s' => str_rev_app s' (String a acc) end.
Definition str_rev (s : string) : string := str_rev_app s "".

(** [s.strip_prefix(p)] *)
Fixpoint strip_prefix (p s : string) : option string :=
  match p, s with
  | "", _ => Some s
  | String a p', String b s' => if ascii_dec a b then strip_prefix p' s' else None
  | _, _ => None
  end.
Definition starts_with (p s : string) : bool := bool_decide (is_Some (strip_prefix p s)).

(** [s.split_once(p)] for a nonempty [p]: the first occurrence. *)
Fixpoint split_once (p s : string) : option (string * string) :=
  match strip_prefix p s with
  | Some rest => Some ("", rest)
  | None =>
      match s with
      | "" => None
      | String a s' => (λ '(l, r), (String a l, r)) <$> split_once p s'
      end
  end.

(** [s.contains(p)] *)
Fixpoint contains (p s : string) : bool :=
  starts_with p s ||
  match s with "" => false | String _ s' => contains p s' end.

(** [s.split(c)] for a one-byte separator *)
Fixpoint split_char (c : ascii) (s : string) : list string :=
  match s with
  | "" => [""]
  | String a s' =>
      if ascii_dec a c then "" :: split_char c s'
      else match split_char c s' with
           | [] => [String a ""]
           | w :: ws => String a w :: ws
           end
  end.

Definition LF : ascii := chr 10.
Definition CR : ascii := chr 13.

Fixpoint strip_cr (s : string) : string :=
  match s with
  | "" => ""
  | String a "" => if ascii_dec a CR then "" else s
  | String a s' => String a (strip_cr s')
  end.

(** [s.lines()]: pieces ended by a line feed, without it and without one
    carriage return before it; a final piece without line feed is kept as it
    is unless it is empty. *)
Fixpoint lines_of (pieces : list string) : list string :=
  match pieces with
  | [] => []
  | [last] => if is_empty last then [] else [last]
  | p :: ps => strip_cr p :: lines_of ps
  end.
Definition lines (s : string) : list string := lines_of (split_char LF s).

(** Unicode White_Space, by the number of bytes of its encoding. *)
Definition ws1 (a : Z) : bool := ((9 <=? a) && (a <=? 13)) || (a =? 32).
Definition ws2 (a b : Z) : bool := (a =? 194) && ((b =? 133) || (b =? 160)).
Definition ws3 (a b c : Z) : bool :=
  ((a =? 225) && (b =? 154) && (c =? 128)) ||
  ((a =? 226) && (b =? 128) &&
     (((128 <=? c) && (c <=? 138)) || (c =? 168) || (c =? 169) || (c =? 175))) ||
  ((a =? 226) && (b =? 129) && (c =? 159)) ||
  ((a =? 227) && (b =? 128) && (c =? 128)).

(** One white-space character at the front, and the rest. *)
Definition strip_ws (s : string) : option string :=
  match s with
  | "" => None
  | String a s1 =>
      if ws1 (code a) then Some s1 else
      match s1 with
      | "" => None
      | String b s2 =>
          if ws2 (code a) (code b) then Some s2 else
          match s2 with
          | "" => None
          | String c s3 => if ws3 (code a) (code b) (code c) then Some s3 else None
          end
      end
  end.
(** One white-space character at the end of a string given in reverse. *)
Definition strip_ws_rev (s : string) : option string :=
  match s with
  | "" => None
  | String a s1 =>
      if ws1 (code a) then Some s1 else
      match s1 with
      | "" => None
      | String b s2 =>
          if ws2 (code b) (code a) then Some s2 else
          match s2 with
          | "" => None
          | String c s3 => if ws3 (code c) (code b) (code a) then Some s3 else None
          end
      end
  end.

Fixpoint strip_while (step : string → option string) (fuel : nat) (s : string) : string :=
  match fuel with
  | O => s
  | S fuel' => match step s with Some s' => strip_while step fuel' s' | None => s end
  end.

(** [trim_start], [trim_end], [trim]: every step of the loop removes at least
    one byte, so the length of the string is enough fuel. *)
Definition trim_start (s : string) : string := strip_while strip_ws (String.length s) s.
Definition trim_end (s : string) : string :=
  str_rev (strip_while strip_ws_rev (String.length s) (str_rev s)).
Definition trim (s : string) : string := trim_end (trim_start s).

(** [value.trim().is_empty()] *)
Definition blank (s : string) : bool := is_empty (trim s).

(** [s.split_whitespace()] *)
Fixpoint words_from (fuel : nat) (cur s : string) : list string :=
  let flush := if is_empty cur then [] else [str_rev cur] in
  match fuel with
  | O => flush
  | S fuel' =>
      match s with
      | "" => flush
      | String a s' =>
          match strip_ws s with
          | Some rest => flush ++ words_from fuel' "" rest
          | None => words_from fuel' (String a cur) s'
          end
      end
  end.
Definition split_whitespace (s : string) : list string :=
  words_from (S (String.length s)) "" s.

(** Characters *)
Definition is_ascii_digit (a : ascii) : bool := (48 <=? code a) && (code a <=? 57).
Definition is_ascii_alpha (a : ascii) : bool :=
  ((65 <=? code a) && (code a <=? 90)) || ((97 <=? code a) && (code a <=? 122)).
Definition is_ascii_alphanumeric (a : ascii) : bool := is_ascii_digit a || is_ascii_alpha a.
Definition str_all (p : ascii → bool) (s : string) : bool := forallb p (list_ascii_of_string s).

Definition lower_byte (a : ascii) : ascii :=
  if (65 <=? code a) && (code a <=? 90) then chr (code a + 32) else a.
Fixpoint to_ascii_lowercase (s : string) : string :=
  match s with "" => "" | String a s' => String (lower_byte a) (to_ascii_lowercase s') end.

(** [s.parse::<uN>()]: an optional plus sign, then at least one decimal digit,
    with a value that fits the width. *)
Fixpoint digits_value (acc : Z) (s : string) : option Z :=
  match s with
  | "" => Some acc
  | String a s' => if is_ascii_digit a then digits_value (acc * 10 + (code a - 48)) s' else None
  end.
Definition parse_uint (max : Z) (s : string) : option Z :=
  let digits := match strip_prefix "+" s with Some d => d | None => s end in
  if is_empty digits then None else
  match digits_value 0 digits with
  | Some v => if v <=? max then Some v else None
  | None => None
  end.

(** [value.to_string()] of an unsigned integer *)
Fixpoint digits_of (fuel : nat) (v : Z) (acc : string) : string :=
  match fuel with
  | O => acc
  | S fuel' =>
      let acc' := String (chr (48 + v mod 10)) acc in
      if v <? 10 then acc' else digits_of fuel' (v / 10) acc'
  end.
(** Twenty digits are enough for a [u64]. *)
Definition show_uint (v : Z) : string := digits_of 20 v "".

(** [parts.join(sep)] *)
Fixpoint join (sep : string) (parts : list string) : string :=
  match parts with
  | [] => ""
  | [p] => p
  | p :: ps => (p +:+ sep +:+ join sep ps)%stdpp
  end.

(** ** Lemmas *)

Lemma code_range a : 0 ≤ code a ≤ 255.
Proof. unfold code. pose proof (N_ascii_bounded a). lia. Qed.

Lemma code_inj a b : code a = code b → a = b.
Proof.
  unfold code. intros H%N2Z.inj. rewrite <- (ascii_N_embedding a), <- (ascii_N_embedding b).
  by rewrite H.
Qed.

Lemma code_chr z : 0 ≤ z ≤ 255 → code (chr z) = z.
Proof. intros. unfold code, chr. rewrite N_ascii_embedding; lia. Qed.

Lemma strip_prefix_spec p s r : strip_prefix p s = Some r ↔ s = (p +:+ r)%stdpp.
Proof.
  revert s. induction p as [|a p IH]; intros s; cbn; [naive_solver|].
  destruct s as [|b s]; [done|]. destruct (ascii_dec a b) as [->|Hne].
  - rewrite IH. naive_solver.
  - split; [done|]. intros [= -> _]. done.
Qed.

Lemma strip_prefix_app p r : strip_prefix p (p +:+ r)%stdpp = Some r.
Proof. by apply strip_prefix_spec. Qed.

Lemma starts_with_spec p s : starts_with p s = true ↔ ∃ r, s = (p +:+ r)%stdpp.
Proof.
  unfold starts_with. rewrite bool_decide_eq_true. unfold is_Some.
  by setoid_rewrite strip_prefix_spec.
Qed.

Lemma contains_spec p s : contains p s = true ↔ ∃ l r, s = (l +:+ p +:+ r)%stdpp.
Proof.
  induction s as [|a s IH]; cbn [contains].
  - rewrite orb_true_iff, starts_with_spec. split.
    + intros [[r Hr]|]; [by exists "", r|done].
    + intros ([|] & r & Hr); [left; by exists r|done].
  - rewrite orb_true_iff, starts_with_spec, IH. split.
    + intros [[r Hr]|(l & r & ->)]; [by exists "", r|by exists (String a l), r].
    + intros ([|b l] & r & Hr); [left; by exists r|].
      right. injection Hr as -> ->. by exists l, r.
Qed.

Lemma str_app_assoc (s t u : string) : ((s +:+ t) +:+ u = s +:+ (t +:+ u))%stdpp.
Proof. induction s; cbn; congruence. Qed.

Lemma str_app_nil (s : string) : (s +:+ "" = s)%stdpp.
Proof. induction s; cbn; congruence. Qed.

Lemma str_length_app (s t : string) :
  String.length (s +:+ t)%stdpp = (String.length s + String.length t)%nat.
Proof. induction s; cbn; congruence. Qed.

Lemma as_bytes_app s t : as_bytes (s +:+ t)%stdpp = as_bytes s ++ as_bytes t.
Proof. induction s; cbn; [done|]. by f_equal. Qed.

Lemma as_bytes_length s : zlen (as_bytes s) = str_len s.
Proof.
  unfold as_bytes, zlen, str_len. rewrite length_map. f_equal.
  induction s as [|a s IH]; cbn; [done|]. by rewrite IH.
Qed.

Lemma as_bytes_inj s t : as_bytes s = as_bytes t → s = t.
Proof.
  revert t. induction s as [|a s IH]; intros [|b t]; cbn; [done..|].
  intros [= ?%code_inj ?]. f_equal; auto.
Qed.

Lemma as_bytes_range s : Forall (in_range u8_max) (as_bytes s).
Proof.
  unfold as_bytes. apply Forall_forall. intros z Hz%list_elem_of_fmap.
  destruct Hz as (a & -> & _). apply code_range.
Qed.

Lemma split_char_nonnil c s : split_char c s ≠ [].
Proof. destruct s; cbn; [done|]. repeat case_match; done. Qed.

(** A piece with no separator in it, then the separator, then the rest. *)
Lemma split_char_app c s t :
  str_all (λ a, negb (bool_decide (a = c))) s = true →
  split_char c (s +:+ String c t)%stdpp = s :: split_char c t.
Proof.
  induction s as [|a s IH]; cbn; intros H.
  - by destruct (ascii_dec c c).
  - apply andb_true_iff in H as [Ha Hs]. rewrite IH by done.
    destruct (ascii_dec a c) as [->|]; [|done]. by rewrite bool_decide_true in Ha.
Qed.

(** The pieces of a split contain no separator and join to the text again;
    joining pieces without separator and splitting gives the pieces back. *)
Definition lacks (c : ascii) (s : string) : Prop :=
  str_all (λ a, negb (bool_decide (a = c))) s = true.

Lemma split_char_no_sep c s : lacks c s → split_char c s = [s].
Proof.
  unfold lacks. induction s as [|a s IH]; cbn; [done|]. intros [Ha Hs]%andb_true_iff.
  rewrite IH by done. destruct (ascii_dec a c) as [->|]; [|done]. by rewrite bool_decide_true in Ha.
Qed.

Lemma split_char_lacks c s : Forall (lacks c) (split_char c s).
Proof.
  induction s as [|a s IH]; cbn; [by repeat constructor|].
  destruct (ascii_dec a c) as [->|Hne]; [by constructor|].
  destruct (split_char c s) as [|w ws]; inversion IH; subst; constructor; try done.
  - unfold lacks. cbn. by rewrite bool_decide_false.
  - unfold lacks in *. cbn. rewrite bool_decide_false by done. done.
Qed.

Lemma join_split_char c s : join (String c "") (split_char c s) = s.
Proof.
  induction s as [|a s IH]; cbn; [done|]. pose proof (split_char_nonnil c s) as Hne.
  destruct (ascii_dec a c) as [->|].
  - destruct (split_char c s) as [|w ws]; [done|]. rewrite <- IH. done.
  - destruct (split_char c s) as [|w ws]; [done|]. rewrite <- IH. by destruct ws.
Qed.

Lemma split_join c parts :
  parts ≠ [] → Forall (lacks c) parts → split_char c (join (String c "") parts) = parts.
Proof.
  intros Hne H. induction H as [|p parts Hp Hps IH]; [done|]. destruct parts as [|q parts].
  - by apply split_char_no_sep.
  - change (join (String c "") (p :: q :: parts))
      with (p +:+ String c (join (String c "") (q :: parts)))%stdpp.
    rewrite split_char_app by done. f_equal. by apply IH.
Qed.

Lemma split_char_join c s parts :
  parts ≠ [] →
  split_char c s = parts ↔ s = join (String c "") parts ∧ Forall (lacks c) parts.
Proof.
  intros Hne. split.
  - intros <-. by rewrite join_split_char; split; [|apply split_char_lacks].
  - intros [-> ?]. by apply split_join.
Qed.

#[export] Hint Rewrite str_app_assoc str_app_nil as_bytes_app as_bytes_length : autopilot.

(** *** Printing and parsing unsigned integers *)

Lemma digit_chr d : 0 ≤ d < 10 → is_ascii_digit (chr (48 + d)) = true ∧ code (chr (48 + d)) - 48 = d.
Proof. intros. unfold is_ascii_digit. rewrite code_chr by lia. lia. Qed.

Lemma digits_of_value fuel v acc :
  0 ≤ v < 10 ^ Z.of_nat fuel → (0 < fuel)%nat →
  ∃ k, 0 ≤ k ∧ ∀ a, digits_value a (digits_of fuel v acc) = digits_value (a * 10 ^ k + v) acc.
Proof.
  revert v acc. induction fuel as [|fuel IH]; intros v acc Hv Hf; [lia|]. cbn [digits_of].
  assert (0 ≤ v mod 10 < 10) as Hm by (apply Z.mod_pos_bound; lia).
  destruct (digit_chr _ Hm) as [Hd Hc].
  destruct (Z.ltb_spec v 10).
  - exists 1. split; [lia|]. intros a. cbn [digits_value]. rewrite Hd, Hc. f_equal.
    rewrite Z.mod_small by lia. lia.
  - assert (Hp : 10 ^ Z.of_nat (S fuel) = 10 * 10 ^ Z.of_nat fuel)
      by (rewrite Nat2Z.inj_succ, Z.pow_succ_r; lia).
    assert (fuel ≠ 0%nat) by (intros ->; rewrite Hp in Hv; cbn in Hv; lia).
    destruct (IH (v / 10) (String (chr (48 + v mod 10)) acc)) as (k & Hk & HIH); [|lia|].
    { split; [apply Z.div_pos; lia|]. apply Z.div_lt_upper_bound; lia. }
    exists (k + 1). split; [lia|]. intros a. rewrite HIH. cbn [digits_value]. rewrite Hd, Hc. f_equal.
    rewrite Z.pow_add_r by lia. pose proof (Z.div_mod v 10). lia.
Qed.

Lemma digits_of_all fuel v acc :
  0 ≤ v → str_all is_ascii_digit acc = true → str_all is_ascii_digit (digits_of fuel v acc) = true.
Proof.
  revert v acc. induction fuel as [|fuel IH]; intros v acc Hv Ha; cbn [digits_of]; [done|].
  assert (str_all is_ascii_digit (String (chr (48 + v mod 10)) acc) = true) as Hs.
  { cbn. unfold str_all in Ha. rewrite Ha, andb_true_r. apply digit_chr, Z.mod_pos_bound. lia. }
  destruct (v <? 10); [done|]. apply IH; [apply Z.div_pos; lia|done].
Qed.

Lemma digits_of_nonempty fuel v acc : acc ≠ "" ∨ (0 < fuel)%nat → digits_of fuel v acc ≠ "".
Proof.
  revert v acc. induction fuel as [|fuel IH]; intros v acc H; cbn [digits_of]; [by destruct H; [|lia]|].
  destruct (v <? 10); [done|]. apply IH. by left.
Qed.

Lemma show_uint_digits v : 0 ≤ v → str_all is_ascii_digit (show_uint v) = true.
Proof. intros. by apply digits_of_all. Qed.

Lemma show_uint_nonempty v : show_uint v ≠ "".
Proof. apply digits_of_nonempty. right. lia. Qed.

Lemma parse_show_uint max v :
  0 ≤ v ≤ max → max ≤ u64_max → parse_uint max (show_uint v) = Some v.
Proof.
  intros Hv Hmax. unfold parse_uint.
  pose proof (show_uint_digits v ltac:(lia)) as Hd. pose proof (show_uint_nonempty v) as Hn.
  assert (strip_prefix "+" (show_uint v) = None) as ->.
  { destruct (strip_prefix "+" (show_uint v)) as [r|] eqn:Hs; [|done].
    apply strip_prefix_spec in Hs. rewrite Hs in Hd. discriminate Hd. }
  unfold is_empty. rewrite bool_decide_false by done.
  destruct (digits_of_value 20 v "") as (k & _ & Hk); [|lia|].
  { split; [lia|]. unfold u64_max in Hmax. assert (10 ^ Z.of_nat 20 = 100000000000000000000) by done. lia. }
  unfold show_uint. rewrite Hk. cbn [digits_value]. rewrite Z.mul_0_l, Z.add_0_l.
  destruct (Z.leb_spec v max); [done|lia].
Qed.

(** [trim] cannot make a number of a text that starts with a letter. *)
Lemma str_rev_app_rev s acc : String.list_ascii_of_string (str_rev_app s acc) =
  rev (String.list_ascii_of_string s) ++ String.list_ascii_of_string acc.
Proof.
  revert acc. induction s as [|a s IH]; intros acc; cbn; [done|].
  rewrite IH. cbn. by rewrite <- app_assoc.
Qed.

Lemma str_rev_list s :
  String.list_ascii_of_string (str_rev s) = rev (String.list_ascii_of_string s).
Proof. unfold str_rev. rewrite str_rev_app_rev. cbn. by rewrite app_nil_r. Qed.

Lemma strip_ws_rev_suffix s s' :
  strip_ws_rev s = Some s' →
  ∃ k, String.list_ascii_of_string s = k ++ String.list_ascii_of_string s'.
Proof.
  intros H. destruct s as [|a [|b [|c s]]]; cbn in H; repeat case_match; simplify_eq; cbn.
  all: first [by exists [a] | by exists [a; b] | by exists [a; b; c]].
Qed.

Lemma strip_while_suffix fuel s :
  ∃ k, String.list_ascii_of_string s =
       k ++ String.list_ascii_of_string (strip_while strip_ws_rev fuel s).
Proof.
  revert s. induction fuel as [|fuel IH]; intros s; cbn; [by exists []|].
  destruct (strip_ws_rev s) as [s'|] eqn:H; [|by exists []].
  apply strip_ws_rev_suffix in H as [k Hk]. destruct (IH s') as [k' Hk'].
  exists (k ++ k'). by rewrite <- app_assoc, <- Hk'.
Qed.

(** [trim_end] keeps a prefix. *)
Lemma trim_end_prefix s : ∃ k,
  String.list_ascii_of_string s = String.list_ascii_of_string (trim_end s) ++ k.
Proof.
  unfold trim_end. destruct (strip_while_suffix (String.length s) (str_rev s)) as [k Hk].
  exists (rev k). rewrite str_rev_list. rewrite str_rev_list in Hk.
  apply (f_equal (@rev ascii)) in Hk. by rewrite rev_involutive, rev_app_distr in Hk.
Qed.

Lemma parse_uint_letter max a s :
  ws1 (code a) = false → code a < 128 → is_ascii_digit a = false → a ≠ "+"%char →
  parse_uint max (trim (String a s)) = None.
Proof.
  intros Hw Ha Hd Hp.
  assert (trim_start (String a s) = String a s) as Hts.
  { unfold trim_start. cbn. rewrite Hw.
    assert (∀ b, ws2 (code a) b = false) as H2 by (intros; unfold ws2; lia).
    assert (∀ b c, ws3 (code a) b c = false) as H3 by (intros; unfold ws3; lia).
    destruct s as [|b [|c s]]; rewrite ?H2, ?H3; done. }
  unfold trim. rewrite Hts. destruct (trim_end_prefix (String a s)) as [k Hk].
  destruct (trim_end (String a s)) as [|a' t]; [done|]. cbn in Hk. injection Hk as <- Hk.
  unfold parse_uint. assert (strip_prefix "+" (String a t) = None) as ->.
  { cbn [strip_prefix]. destruct (ascii_dec "+"%char a) as [<-|]; done. }
  cbn. by rewrite Hd.
Qed.

(** *** Characters that do not occur *)

Lemma lacks_cons c a s : lacks c (String a s) ↔ a ≠ c ∧ lacks c s.
Proof. unfold lacks. cbn. rewrite andb_true_iff, negb_true_iff, bool_decide_eq_false. done. Qed.

Lemma lacks_nil c : lacks c "".
Proof. done. Qed.

Lemma lacks_app c s t : lacks c (s +:+ t)%stdpp ↔ lacks c s ∧ lacks c t.
Proof.
  induction s as [|a s IH]; cbn [String.append]; [pose proof (lacks_nil c); tauto|].
  rewrite !lacks_cons, IH. tauto.
Qed.

Lemma contains_char_lacks c s : contains (String c "") s = false ↔ lacks c s.
Proof.
  induction s as [|a s IH]; cbn [contains]; [by split|].
  rewrite orb_false_iff, IH, lacks_cons. unfold starts_with. rewrite bool_decide_eq_false.
  cbn. destruct (ascii_dec c a) as [->|Hne].
  - split; [intros [H _]; exfalso; apply H; by eexists|naive_solver].
  - split; [naive_solver|]. intros [_ ?]. split; [|done]. intros [? ?]. discriminate.
Qed.

Lemma strip_cr_lacks s : lacks CR s → strip_cr s = s.
Proof.
  induction s as [|a s IH]; [done|]. rewrite lacks_cons. intros [Ha Hs].
  change (strip_cr (String a s)) with
    (match s with "" => if ascii_dec a CR then "" else String a s | _ => String a (strip_cr s) end).
  rewrite IH by done. destruct s; [|done]. by destruct (ascii_dec a CR).
Qed.

(** One line, and a first line followed by more text. *)
Lemma lines_one s : lacks LF s → s ≠ "" → lines s = [s].
Proof.
  intros Hs Hne. unfold lines. rewrite split_char_no_sep by done. cbn.
  unfold is_empty. by rewrite bool_decide_false.
Qed.

Lemma lines_cons s t :
  lacks LF s → lacks CR s → lines (s +:+ String LF t)%stdpp = s :: lines t.
Proof.
  intros Hl Hc. unfold lines. rewrite split_char_app by done.
  destruct (split_char LF t) eqn:H; [by apply split_char_nonnil in H|].
  change (strip_cr s :: lines_of (s0 :: l) = s :: lines_of (s0 :: l)). by rewrite strip_cr_lacks.
Qed.

Lemma digits_lack c s : is_ascii_digit c = false → str_all is_ascii_digit s = true → lacks c s.
Proof.
  intros Hc. unfold lacks, str_all. rewrite !forallb_forall. intros H a Ha. specialize (H a Ha).
  apply negb_true_iff, bool_decide_eq_false. intros ->. congruence.
Qed.

(** ** Characters *)

(** [chars()]: a character starts at every byte that is not a UTF-8
    continuation byte. *)
Definition continuation (a : ascii) : bool := (128 <=? code a) && (code a <? 192).
Fixpoint chars_count (s : string) : Z :=
  match s with
  | "" => 0
  | String a s' => (if continuation a then 0 else 1) + chars_count s'
  end.
(** [chars().take(n)]: up to the byte that starts character [n]. *)
Fixpoint chars_take (n : nat) (s : string) : string :=
  match s with
  | "" => ""
  | String a s' =>
      if continuation a then String a (chars_take n s')
      else match n with O => "" | S n' => String a (chars_take n' s') end
  end.

Lemma chars_count_app s t : chars_count (s +:+ t) = chars_count s + chars_count t.
Proof. induction s as [|a s IH]; cbn; [done|]. rewrite IH. lia. Qed.

Lemma chars_count_nonneg s : 0 ≤ chars_count s.
Proof. induction s as [|a s IH]; cbn; [done|]. destruct (continuation a); lia. Qed.

Lemma chars_take_count n s : chars_count (chars_take n s) ≤ Z.of_nat n.
Proof.
  revert n. induction s as [|a s IH]; intros n; cbn; [lia|].
  destruct (continuation a) eqn:Hc; cbn; rewrite ?Hc; [apply IH|].
  destruct n as [|n]; cbn; rewrite ?Hc; [lia|]. specialize (IH n). lia.
Qed.

Lemma cut_chars_bound max s :
  0 < max → chars_count (if chars_count s <=? max then s else chars_take (Z.to_nat (max - 1)) s +:+ "…") ≤ max.
Proof.
  intros Hm. destruct (Z.leb_spec (chars_count s) max); [done|].
  rewrite chars_count_app. change (chars_count "…") with 1. pose proof (chars_take_count (Z.to_nat (max - 1)) s). lia.
Qed.

(** [to_string] of a signed integer of at most 64 bits *)
Definition show_int (v : Z) : string := if v <? 0 then "-" +:+ show_uint (- v) else show_uint v.
