(* ===== verification/Paths.v ===== *)
(** * Paths

    What [std::path] of a Unix target does with the paths of the program, and
    the lexical [clean] and [owned] that [drivers/src/vcs/mod.rs],
    [integration/mod.rs] and [lifecycle/mod.rs] share.  A [PathBuf] is the
    list of its components: comparison, [strip_prefix] and [parent] work on
    components in Rust too. *)

From S2P Require Import Prelude RustStr.

Inductive Component := RootDir | CurDir | ParentDir | Normal (name : string).
#[global] Instance Component_eq_dec : EqDecision Component.
Proof. solve_decision. Defined.

Abbreviation path := (list Component) (only parsing).

Definition SLASH : ascii := chr 47.

(** [Path::components]: repeated separators and inner dots vanish; a leading
    dot of a relative path stays. *)
Definition component_of (piece : string) : list Component :=
  if is_empty piece then [] else
  if piece =s "." then [] else
  if piece =s ".." then [ParentDir] else [Normal piece].

Definition components (s : string) : path :=
  let pieces := split_char SLASH s in
  (if starts_with "/" s then [RootDir]
   else match pieces with p :: _ => if p =s "." then [CurDir] else [] | [] => [] end)
  ++ (pieces ≫= component_of).

Definition is_absolute (p : path) : bool :=
  match p with RootDir :: _ => true | _ => false end.

(** [PathBuf::push] of one component, [PathBuf::join], [Path::parent]. *)
Definition push (out : path) (c : Component) : path :=
  match c with RootDir => [RootDir] | _ => out ++ [c] end.

Definition path_join (base p : path) : path :=
  if is_absolute p then p else
  match base with [] => p | _ => base ++ filter (λ c, c ≠ CurDir) p end.

(** [into_os_string] of a path put together from components. *)
Definition component_str (c : Component) : string :=
  match c with RootDir => "/" | CurDir => "." | ParentDir => ".." | Normal name => name end.
Definition to_os (p : path) : string :=
  match p with
  | RootDir :: rest => "/" +:+ join "/" (map component_str rest)
  | _ => join "/" (map component_str p)
  end.

Definition parent (p : path) : option path :=
  match last p with
  | None | Some RootDir => None
  | Some _ => Some (removelast p)
  end.

Fixpoint strip_path_prefix (base p : path) : option path :=
  match base, p with
  | [], _ => Some p
  | b :: base', c :: p' => if decide (b = c) then strip_path_prefix base' p' else None
  | _, [] => None
  end.

(** One turn of the loop of [clean]: [out.pop()] fails at the root and on the
    empty path. *)
Definition clean_step (out : path) (part : Component) : path :=
  match part with
  | CurDir => out
  | ParentDir => match parent out with Some up => up | None => push out ParentDir end
  | other => push out other
  end.
Definition clean (p : path) : path := fold_left clean_step p [].

(** [owned]: the cleaned path, when it is below the owner directory. *)
Definition owned_candidate (owner p : path) : path :=
  if is_absolute p then clean p else clean (path_join owner p).
Definition owned_lexical (owner p : path) : option path :=
  let candidate := owned_candidate owner p in
  _ ← strip_path_prefix owner candidate; Some candidate.

(** ** Lexical meaning *)

(** The names from the root to the place an absolute path denotes: a parent
    step goes up one level and stays at the root. *)
Fixpoint resolve_from (stack : list string) (p : path) : list string :=
  match p with
  | [] => rev stack
  | RootDir :: p' => resolve_from [] p'
  | CurDir :: p' => resolve_from stack p'
  | ParentDir :: p' => resolve_from (tail stack) p'
  | Normal name :: p' => resolve_from (name :: stack) p'
  end.
Definition resolve (p : path) : list string := resolve_from [] p.

(** What [clean] makes of an absolute path: the root, at most one parent step
    (above the root), names. *)
Definition cleaned (out : path) (stack : list string) : Prop :=
  out = RootDir :: map Normal (rev stack) ∨
  out = RootDir :: ParentDir :: map Normal (rev stack).

Lemma strip_path_prefix_spec base p rest :
  strip_path_prefix base p = Some rest ↔ p = base ++ rest.
Proof.
  revert p. induction base as [|b base IH]; intros [|c p]; cbn; [naive_solver..|].
  destruct (decide (b = c)) as [->|]; [rewrite IH|]; naive_solver.
Qed.

Lemma parent_cleaned root names n :
  (root = [RootDir] ∨ root = [RootDir; ParentDir]) →
  parent (root ++ map Normal (names ++ [n])) = Some (root ++ map Normal names).
Proof.
  intros Hr. unfold parent. rewrite map_app, app_assoc. cbn. rewrite last_snoc.
  by rewrite removelast_last.
Qed.

Lemma clean_step_cleaned out stack c :
  cleaned out stack → is_absolute [c] = false →
  cleaned (clean_step out c)
    (match c with ParentDir => tail stack | Normal n => n :: stack | _ => stack end).
Proof.
  intros Hc Ha. destruct c as [| | |n]; [done|done|..]; cbn [clean_step].
  - destruct stack as [|n stack]; cbn [tail].
    + destruct Hc as [->| ->]; cbn; [by right|by left].
    + destruct Hc as [->| ->]; cbn [rev].
      * pose proof (parent_cleaned [RootDir] (rev stack) n) as Hp. cbn [app] in Hp.
        rewrite Hp by auto. by left.
      * pose proof (parent_cleaned [RootDir; ParentDir] (rev stack) n) as Hp. cbn [app] in Hp.
        rewrite Hp by auto. by right.
  - cbn. destruct Hc as [->| ->]; [left|right]; cbn; by rewrite map_app.
Qed.

Lemma resolve_names stack names : resolve_from stack (map Normal names) = rev stack ++ names.
Proof.
  revert stack. induction names as [|n names IH]; intros stack; cbn; [by rewrite app_nil_r|].
  rewrite IH. cbn. by rewrite <- app_assoc.
Qed.

Lemma resolve_cleaned out stack : cleaned out stack → resolve out = rev stack.
Proof. intros [->| ->]; unfold resolve; cbn; by rewrite resolve_names. Qed.

Lemma clean_from_cleaned p out stack :
  cleaned out stack → ∃ stack', cleaned (fold_left clean_step p out) stack' ∧
    rev stack' = resolve_from stack p.
Proof.
  revert out stack. induction p as [|c p IH]; intros out stack Hc; [by exists stack|].
  cbn [fold_left]. destruct (decide (c = RootDir)) as [->|Hne].
  - apply (IH [RootDir] []). by left.
  - destruct (IH (clean_step out c) (match c with ParentDir => tail stack | Normal n => n :: stack | _ => stack end))
      as (st & ? & Hst).
    { apply clean_step_cleaned; [done|]. by destruct c. }
    exists st. split; [done|]. rewrite Hst. by destruct c.
Qed.

Lemma clean_absolute p :
  is_absolute p = true → ∃ stack, cleaned (clean p) stack ∧ rev stack = resolve p.
Proof.
  destruct p as [|[] p]; try done. intros _. apply (clean_from_cleaned p [RootDir] []). by left.
Qed.

Lemma map_normal_inj a b : map Normal a = map Normal b → a = b.
Proof. revert b. induction a; intros [|? ?]; cbn; [done..|]. intros [= -> ?]. f_equal. auto. Qed.

Lemma map_normal_app l a b : map Normal l = a ++ b → ∃ n, b = map Normal n.
Proof.
  revert l. induction a as [|c a IH]; intros l; [eauto|].
  destruct l; [done|]. intros [= _ ?]. eauto.
Qed.

(** A cleaned path that extends a cleaned directory extends it by names. *)
Lemma cleaned_extends base rest stk stack :
  cleaned (base ++ rest) stack → cleaned base stk → stk ≠ [] →
  ∃ below, rest = map Normal below ∧ rev stack = rev stk ++ below.
Proof.
  intros Hc Hb Hne. unfold cleaned in Hb.
  assert (rev stk ≠ []) as Hr by (intros H; apply Hne; by rewrite <- (rev_involutive stk), H).
  destruct (rev stk) as [|n names]; [done|].
  assert (∀ l, map Normal l = map Normal (n :: names) ++ rest →
            ∃ below, rest = map Normal below ∧ l = (n :: names) ++ below) as Hext.
  { intros l H. destruct (map_normal_app _ _ _ H) as [below ->]. exists below. split; [done|].
    rewrite <- map_app in H. by apply map_normal_inj in H. }
  destruct Hb as [->| ->], Hc as [H|H]; cbn in H; [injection H as H|discriminate| |injection H as H].
  - by apply Hext.
  - by destruct (rev stack).
  - by apply Hext.
Qed.

(** The same for an owner that was cleaned when the driver was made. *)
Lemma owned_names o p candidate :
  is_absolute o = true → resolve o ≠ [] → owned_lexical (clean o) p = Some candidate →
  ∃ names, candidate = clean o ++ map Normal names.
Proof.
  intros Ho Hne H. unfold owned_lexical in H. apply bind_Some in H as (rest & Hrest & [= <-]).
  apply strip_path_prefix_spec in Hrest.
  destruct (clean_absolute o Ho) as (stk & Hc & Hstk).
  assert (is_absolute (clean o) = true) as Habs by (destruct Hc as [->| ->]; done).
  assert (∃ q, owned_candidate (clean o) p = clean q ∧ is_absolute q = true) as (q & Hq & Hqa).
  { unfold owned_candidate. destruct (is_absolute p) eqn:Hp; [by exists p|].
    exists (path_join (clean o) p). split; [done|]. unfold path_join. rewrite Hp.
    destruct Hc as [->| ->]; done. }
  destruct (clean_absolute q Hqa) as (stack & Hcq & _). rewrite <- Hq, Hrest in Hcq.
  destruct (cleaned_extends _ _ _ _ Hcq Hc) as (names & -> & _); [|by exists names].
  intros ->. by apply Hne.
Qed.

(** C26. [owned] never leaves the owner: for an owner directory given by an
    absolute cleaned path (other than the root), the path it returns is the
    owner followed by plain names only, and it denotes the same place as the
    path that was asked for (parent steps resolved); so a request that
    denotes a place outside the owner is refused. *)
Theorem owned_stays_inside (names : list string) (p candidate : path) :
  let owner := RootDir :: map Normal names in
  names ≠ [] →
  owned_lexical owner p = Some candidate →
  ∃ below, candidate = owner ++ map Normal below ∧
    resolve candidate = names ++ below ∧
    resolve candidate = resolve (path_join owner p).
Proof.
  intros owner Hne H. unfold owned_lexical in H. apply bind_Some in H as (rest & Hrest & [= <-]).
  apply strip_path_prefix_spec in Hrest.
  assert (owned_candidate owner p = clean (path_join owner p)) as Hjoin.
  { unfold owned_candidate, path_join. by destruct (is_absolute p). }
  assert (is_absolute (path_join owner p) = true) as Habs.
  { unfold path_join. by destruct (is_absolute p) eqn:?. }
  rewrite Hjoin in *. destruct (clean_absolute _ Habs) as (stack & Hc & Hres).
  assert (cleaned owner (rev names)) as Ho by (left; by rewrite rev_involutive).
  rewrite Hrest in Hc. destruct (cleaned_extends _ _ _ _ Hc Ho) as (below & -> & Hst).
  { intros H. by apply Hne, rev_inj. }
  exists below. rewrite Hrest. split; [done|].
  rewrite rev_involutive in Hst. rewrite (resolve_cleaned _ _ Hc). by rewrite Hst, <- Hres.
Qed.

Lemma owned_stays_inside_witness :
  ∃ below, components "/srv/own/b" = components "/srv/own" ++ map Normal below.
Proof.
  destruct (owned_stays_inside ["srv"; "own"] (components "a/.././b") (components "/srv/own/b"))
    as (below & Hb & _).
  - discriminate.
  - vm_compute. reflexivity.
  - exists below. exact Hb.
Defined.

(** Of a relative path that starts with several parent steps, [clean] loses
    parent steps in pairs: the second one removes the first. *)
Example clean_drops_leading_parents : clean (components "../../x") = components "x".
Proof. vm_compute. reflexivity. Qed.
