(* ===== verification/Os.v ===== *)
(** * Programs that talk to the operating system

    The drivers run [git] and read and write files.  Such code is translated to
    a [prog]: a tree of requests to the operating system, branching on the
    answer, that ends in a Rust [Result].  Nothing is assumed about answers, so
    a fact proved for every branch ([wp]) holds for every behaviour of the file
    system, of [git] and of processes running at the same time; [run] executes
    a program against a concrete world. *)

From S2P Require Import Prelude RustStr Paths.

Inductive ErrorKind := NotFound | AlreadyExists | InvalidInput | OtherKind.
#[global] Instance ErrorKind_eq_dec : EqDecision ErrorKind.
Proof. solve_decision. Defined.

Record io_error := { io_kind : ErrorKind; io_message : string }.

(** The error numbers that descriptor-relative code tells apart ([rustix]). *)
Inductive Errno := ENOENT | EEXIST | ELOOP | ENOTDIR | EOther.
#[global] Instance Errno_eq_dec : EqDecision Errno.
Proof. solve_decision. Defined.
Record errno := { en_code : Errno; en_message : string }.

Inductive request :=
| Canonicalize (p : path)
| CreateDirAll (p : path)
| ReadFile (p : path)
| ReadLink (p : path)
| WriteFile (p : path) (content : string)
| CreateNew (p : path)
| OpenCreate (p : path)
| OpenTruncate (p : path)
| WriteHandle (handle : nat) (content : string)
| SyncHandle (handle : nat)
| SyncDir (p : path)
| SetHandleMode (handle : nat) (mode : Z)
| TryLock (handle : nat)
| Sleep (millis : Z)
| SetMode (p : path) (mode : Z)
| Rename (from to : path)
| RemoveFile (p : path)
| RemoveDirAll (p : path)
| Spawn (dir : path) (program : string) (args : list string)
| PathExists (p : path)
| SymlinkMeta (p : path)
| OpenRead (p : path)
| ReadToEnd (handle : nat)
| ReadExact (handle : nat) (count : Z)
| HandleMeta (handle : nat)
| ReadDir (p : path)
| CurrentDir
| EnvVar (name : string)
| Now
(** Requests relative to an open directory; none follows a symbolic link. *)
| OpenRoot
| OpenDirAt (dir : nat) (name : string)
| MakeDirAt (dir : nat) (name : string) (mode : Z)
| OpenFileAt (dir : nat) (name : string)
| CreateFileAt (dir : nat) (name : string) (mode : Z)
| LinkAt (from_dir : nat) (from : string) (to_dir : nat) (to : string)
| UnlinkAt (dir : nat) (name : string)
| ReadTake (handle : nat) (limit : Z)
(** The next value of a counter shared by the threads of a process. *)
| FetchAdd.

(** What is used of [fs::Metadata]. *)
Record metadata := { md_symlink : bool; md_file : bool; md_dir : bool; md_nlink : Z; md_len : Z; md_mode : Z }.

(** The output of a process that could be started: whether it succeeded and
    its standard output, when that is UTF-8. *)
Record output := { succeeded : bool; stdout : option string }.

Definition answer (q : request) : Type :=
  match q with
  | Canonicalize _ | ReadLink _ => result io_error path
  | ReadFile _ => result io_error string
  | CreateNew _ | OpenCreate _ | OpenTruncate _ => result io_error nat
  | TryLock _ => result io_error bool (* [false]: another open file has the lock *)
  | Spawn _ _ _ => result io_error output
  | PathExists _ => bool
  | SymlinkMeta _ | HandleMeta _ => result io_error metadata
  | OpenRead _ => result io_error nat
  | ReadToEnd _ | ReadExact _ _ => result io_error string
  | ReadDir _ => result io_error (list (result io_error path))
  | CurrentDir => result io_error path
  | EnvVar _ => option string
  | Now => option Z (* milliseconds since the epoch, unless the clock is before it *)
  | OpenRoot => result io_error nat
  | OpenDirAt _ _ | OpenFileAt _ _ | CreateFileAt _ _ _ => result errno nat
  | MakeDirAt _ _ _ | LinkAt _ _ _ _ | UnlinkAt _ _ => result errno unit
  | ReadTake _ _ => result io_error string
  | FetchAdd => Z
  | _ => result io_error unit
  end.

(** The answer of a failing request; those that cannot fail answer nothing. *)
Definition fail (q : request) (e : io_error) : answer q :=
  match q return answer q with
  | PathExists _ => false
  | EnvVar _ => None
  | Now => None
  | OpenDirAt _ _ | OpenFileAt _ _ | CreateFileAt _ _ _ => Err {| en_code := EOther; en_message := io_message e |}
  | MakeDirAt _ _ _ | LinkAt _ _ _ _ | UnlinkAt _ _ => Err {| en_code := EOther; en_message := io_message e |}
  | FetchAdd => 0
  | _ => Err e
  end.
Definition refuse (q : request) : answer q := fail q {| io_kind := OtherKind; io_message := "" |}.

Inductive prog (E A : Type) : Type :=
| Ret (r : result E A)
| Call (q : request) (k : answer q → prog E A).
Arguments Ret {E A} r.
Arguments Call {E A} q k.

Fixpoint prog_bind {E A B} (f : A → prog E B) (p : prog E A) : prog E B :=
  match p with
  | Ret (Ok a) => f a
  | Ret (Err e) => Ret (Err e)
  | Call q k => Call q (λ a, prog_bind f (k a))
  end.
#[global] Instance prog_mbind {E} : MBind (prog E) := λ A B, @prog_bind E A B.
#[global] Instance prog_mret {E} : MRet (prog E) := λ A a, Ret (Ok a).

Fixpoint prog_map_err {E F A} (f : E → F) (p : prog E A) : prog F A :=
  match p with
  | Ret (Ok a) => Ret (Ok a)
  | Ret (Err e) => Ret (Err (f e))
  | Call q k => Call q (λ a, prog_map_err f (k a))
  end.

(** [match p { Ok(a) => .., Err(e) => .. }] *)
Fixpoint prog_match {E F A B} (p : prog E A) (f : result E A → prog F B) : prog F B :=
  match p with
  | Ret r => f r
  | Call q k => Call q (λ a, prog_match (k a) f)
  end.

(** One request; [ask f q] maps its error and is followed by [?]. *)
Definition os {E} (q : request) : prog E (answer q) := Call q (λ a, Ret (Ok a)).

Definition create_dir_all {E} (f : io_error → E) (p : path) : prog E unit :=
  Call (CreateDirAll p) (λ a, Ret (map_err f a)).
Definition write_file {E} (f : io_error → E) (p : path) (content : string) : prog E unit :=
  Call (WriteFile p content) (λ a, Ret (map_err f a)).
Definition remove_dir_all {E} (f : io_error → E) (p : path) : prog E unit :=
  Call (RemoveDirAll p) (λ a, Ret (map_err f a)).
Definition canonicalize {E} (f : io_error → E) (p : path) : prog E path :=
  Call (Canonicalize p) (λ a, Ret (map_err f a)).

(** [for x in l { f(x)?; }] with effects *)
Fixpoint prog_for {E A} (f : A → prog E unit) (l : list A) : prog E unit :=
  match l with
  | [] => Ret (Ok tt)
  | x :: l' => prog_bind (λ _, prog_for f l') (f x)
  end.

(** [Command::new("git").current_dir(dir).args(args).output()], its status
    checked and its output decoded; [e] is the error of all three failures. *)
Definition git_output {E} (e : E) (dir : path) (args : list string) : prog E string :=
  Call (Spawn dir "git" args) (λ a, Ret
    match a with
    | Err _ => Err e
    | Ok out => if succeeded out then ok_or (stdout out) e else Err e
    end).

(** ** Every branch *)

(** Every request a program can make satisfies [P] and every result it can
    end with satisfies [Q]. *)
Fixpoint wp {E A} (P : request → Prop) (Q : result E A → Prop) (p : prog E A) : Prop :=
  match p with
  | Ret r => Q r
  | Call q k => P q ∧ ∀ a, wp P Q (k a)
  end.

Lemma wp_mono {E A} (P P' : request → Prop) (Q Q' : result E A → Prop) p :
  (∀ q, P q → P' q) → (∀ r, Q r → Q' r) → wp P Q p → wp P' Q' p.
Proof. intros HP HQ. induction p; cbn; naive_solver. Qed.

Lemma wp_bind {E A B} P (Q : result E B → Prop) (f : A → prog E B) p :
  wp P (λ r, match r with Ok a => wp P Q (f a) | Err e => Q (Err e) end) p →
  wp P Q (p ≫= f).
Proof.
  intros H. induction p as [[a|e]|q k IH]; cbn in *; [done..|].
  destruct H as [? H]. split; [done|]. intros a. apply IH, H.
Qed.

(** A step whose own requests and results are known. *)
Lemma wp_seq {E A B} (P' P : request → Prop) (Q' : result E A → Prop) (Q : result E B → Prop) p (f : A → prog E B) :
  wp P' Q' p → (∀ q, P' q → P q) → (∀ e, Q (Err e)) → (∀ a, Q' (Ok a) → wp P Q (f a)) → wp P Q (p ≫= f).
Proof.
  intros Hp HP He Hf. apply wp_bind. eapply wp_mono, Hp; [done|]. intros [a|e] HQ; auto.
Qed.

(** A pure step. *)
Lemma wp_lift {E A B} P (Q : result E B → Prop) (r : result E A) (f : A → prog E B) :
  (∀ e, Q (Err e)) → (∀ a, r = Ok a → wp P Q (f a)) → wp P Q (Ret r ≫= f).
Proof. intros He Hf. destruct r as [a|e]; cbn; [by apply Hf|apply He]. Qed.

(** One request. *)
Lemma wp_ask {E A B} P (Q : result E B → Prop) q (g : answer q → result E A) (f : A → prog E B) :
  P q → (∀ e, Q (Err e)) → (∀ a b, g a = Ok b → wp P Q (f b)) → wp P Q (Call q (λ a, Ret (g a)) ≫= f).
Proof.
  intros HP He Hf. apply wp_bind. split; [done|]. intros a. cbn. destruct (g a) as [b|e] eqn:Hg; [by eapply Hf|apply He].
Qed.

Lemma wp_map_err {E F A} P (Q : result F A → Prop) (f : E → F) (p : prog E A) :
  wp P (λ r, Q (map_err f r)) p → wp P Q (prog_map_err f p).
Proof.
  intros H. induction p as [[a|e]|q k IH]; cbn in *; [done..|].
  destruct H as [? H]. split; [done|]. intros a. apply IH, H.
Qed.

Lemma wp_match {E F A B} P (Q : result F B → Prop) (p : prog E A) f :
  wp P (λ r, wp P Q (f r)) p → wp P Q (prog_match p f).
Proof.
  intros H. induction p as [r|q k IH]; cbn in *; [done|].
  destruct H as [? H]. split; [done|]. intros a. apply IH, H.
Qed.

Lemma wp_for {E A} P (Q : result E unit → Prop) (f : A → prog E unit) l :
  Q (Ok tt) → (∀ e, Q (Err e)) → Forall (λ x, wp P Q (f x)) l → wp P Q (prog_for f l).
Proof.
  intros HQ HE H. induction H as [|x l Hx _ IH]; cbn; [done|].
  apply wp_bind. eapply wp_mono, Hx; [done|]. intros [[]|]; done.
Qed.

Lemma wp_git {E} P (Q : result E string → Prop) e dir args :
  P (Spawn dir "git" args) → Q (Err e) → (∀ s, Q (Ok s)) → wp P Q (git_output e dir args).
Proof.
  intros HP He Ho. cbn. split; [done|]. intros [[[] [s|]]|]; cbn; auto.
Qed.

(** ** Execution against a world *)

Definition handler (W : Type) := W → ∀ q : request, W * answer q.

(** The final world, the requests made, in order, and the result. *)
Fixpoint run {W E A} (h : handler W) (w : W) (p : prog E A) : W * list request * result E A :=
  match p with
  | Ret r => (w, [], r)
  | Call q k =>
      let '(w1, a) := h w q in
      let '(w2, qs, r) := run h w1 (k a) in
      (w2, q :: qs, r)
  end.

Lemma wp_run {W E A} (h : handler W) w P (Q : result E A → Prop) p :
  wp P Q p → Forall P (run h w p).1.2 ∧ Q (run h w p).2.
Proof.
  revert w. induction p as [r|q k IH]; intros w H; cbn in *; [by split|].
  destruct H as [Hq Hk]. destruct (h w q) as [w1 a]. specialize (IH a w1 (Hk a)).
  destruct (run h w1 (k a)) as [[w2 qs] r]. cbn in *. destruct IH. split; [by constructor|done].
Qed.

Lemma run_bind {W E A B} (h : handler W) w (p : prog E A) (f : A → prog E B) :
  run h w (p ≫= f) =
    match run h w p with
    | (w1, qs, Ok a) => let '(w2, qs', r) := run h w1 (f a) in (w2, qs ++ qs', r)
    | (w1, qs, Err e) => (w1, qs, Err e)
    end.
Proof.
  revert w. induction p as [[a|e]|q k IH]; intros w; cbn.
  - by destruct (run h w (f a)) as [[??] ?].
  - done.
  - destruct (h w q) as [w1 a]. change (prog_bind f (k a)) with (k a ≫= f). rewrite IH.
    destruct (run h w1 (k a)) as [[w2 qs] [b|e]]; [|done].
    by destruct (run h w2 (f b)) as [[??] ?].
Qed.

(** [for x in l { out.push(f(x)?); }] with effects *)
Fixpoint prog_collect {E A B} (f : A → prog E B) (l : list A) : prog E (list B) :=
  match l with
  | [] => Ret (Ok [])
  | x :: l' => prog_bind (λ b, prog_bind (λ bs, Ret (Ok (b :: bs))) (prog_collect f l')) (f x)
  end.

(** About results alone. *)
Lemma wp_any {E A} (p : prog E A) : wp (λ _, True) (λ _, True) p.
Proof. induction p; cbn; auto. Qed.

Lemma wp_bind_any {E A B} (Q : result E B → Prop) (p : prog E A) f :
  (∀ e, Q (Err e)) → (∀ a, wp (λ _, True) Q (f a)) → wp (λ _, True) Q (p ≫= f).
Proof. intros He Hf. apply wp_bind. eapply wp_mono, wp_any; [done|]. intros [a|e] _; auto. Qed.
