(* ===== verification/Traces.v ===== *)
(** * Traces of programs

    What a program of [Os.v] did and what it was answered, event by event.  A
    property that depends on answers (a check that passed, a write that
    succeeded, a path found to lie inside a directory) is stated about the
    traces a program can leave, [exec]; every run leaves one ([run_exec]). *)

From S2P Require Import Prelude RustStr Paths Os.

(** A request with the answer it got. *)
Inductive ioevent := Ev (q : request) (a : answer q).
Definition trace := list ioevent.

Definition ev_request (e : ioevent) : request := let 'Ev q _ := e in q.

(** [p] can make the requests of [t], answered as [t] says, and end in [r]. *)
Fixpoint exec {E A} (p : prog E A) (t : trace) (r : result E A) : Prop :=
  match p with
  | Ret r' => t = [] ∧ r = r'
  | Call q k => ∃ a t', t = Ev q a :: t' ∧ exec (k a) t' r
  end.

(** Every run leaves a trace: its requests, in order, and its result. *)
Lemma run_exec {W E A} (h : handler W) w (p : prog E A) :
  ∃ t, exec p t (run h w p).2 ∧ map ev_request t = (run h w p).1.2.
Proof.
  revert w. induction p as [r|q k IH]; intros w; cbn; [by exists []|].
  destruct (h w q) as [w1 a]. destruct (IH a w1) as (t & He & Ht).
  destruct (run h w1 (k a)) as [[w2 qs] r]. cbn in *. exists (Ev q a :: t). cbn. rewrite Ht. eauto.
Qed.

(** ** Composition *)

Lemma exec_bind {E A B} (p : prog E A) (f : A → prog E B) t r :
  exec (p ≫= f) t r ↔
  (∃ e, exec p t (Err e) ∧ r = Err e) ∨
  (∃ a t1 t2, t = t1 ++ t2 ∧ exec p t1 (Ok a) ∧ exec (f a) t2 r).
Proof.
  revert t. induction p as [[a|e]|q k IH]; intros t; cbn.
  - split; [intros H; right; by exists a, [], t|].
    intros [(e & [_ ?] & _)|(a' & t1 & t2 & -> & [-> [= ->]] & Hf)]; [done|exact Hf].
  - split; [intros [-> ->]; left; by exists e|].
    intros [(e' & [-> [= ->]] & ->)|(a' & t1 & t2 & -> & [_ ?] & _)]; done.
  - change (prog_bind f) with (λ p : prog E A, p ≫= f). cbn beta. setoid_rewrite IH. split.
    + intros (a & t' & -> & [(e & He & ->)|(b & t1 & t2 & -> & H1 & H2)]); [left; eauto 10|].
      right. exists b, (Ev q a :: t1), t2. eauto 10.
    + intros [(e & (a & t' & -> & H) & ->)|(b & t1 & t2 & -> & (a & t' & -> & H1) & H2)].
      * exists a, t'. split; [done|]. left. eauto.
      * exists a, (t' ++ t2). split; [done|]. right. eauto 10.
Qed.

Lemma exec_map_err {E F A} (f : E → F) (p : prog E A) t r :
  exec (prog_map_err f p) t r ↔ ∃ r', exec p t r' ∧ r = map_err f r'.
Proof.
  revert t. induction p as [[a|e]|q k IH]; intros t; cbn.
  - naive_solver.
  - naive_solver.
  - setoid_rewrite IH. naive_solver.
Qed.

Lemma exec_match {E F A B} (p : prog E A) (f : result E A → prog F B) t r :
  exec (prog_match p f) t r ↔ ∃ r' t1 t2, t = t1 ++ t2 ∧ exec p t1 r' ∧ exec (f r') t2 r.
Proof.
  revert t. induction p as [r'|q k IH]; intros t; cbn.
  - split; [intros H; by exists r', [], t|]. by intros (? & t1 & t2 & -> & [-> ->] & H).
  - setoid_rewrite IH. split.
    + intros (a & t' & -> & r' & t1 & t2 & -> & H1 & H2). exists r', (Ev q a :: t1), t2. eauto 10.
    + intros (r' & t1 & t2 & -> & (a & t' & -> & H1) & H2). exists a, (t' ++ t2). eauto 10.
Qed.

Lemma exec_lift {E A B} (x : result E A) (f : A → prog E B) t r :
  exec (Ret x ≫= f) t r →
  (∃ e, x = Err e ∧ t = [] ∧ r = Err e) ∨ (∃ a, x = Ok a ∧ exec (f a) t r).
Proof. destruct x as [a|e]; cbn; [by eauto|]. intros [-> ->]. eauto. Qed.

(** One request whose answer is turned into a result. *)
Lemma exec_ask {E A} q (g : answer q → result E A) t r :
  exec (Call q (λ a, Ret (g a))) t r ↔ ∃ a, t = [Ev q a] ∧ r = g a.
Proof.
  cbn. split; [intros (a & t' & -> & -> & ->); eauto|]. intros (a & -> & ->). eauto.
Qed.

(** A loop that ended in success did every turn, in order. *)
Lemma exec_for_ok {E A} (R : A → trace → Prop) (f : A → prog E unit) l t :
  (∀ x t, exec (f x) t (Ok tt) → R x t) →
  exec (prog_for f l) t (Ok tt) → ∃ ts, t = concat ts ∧ Forall2 R l ts.
Proof.
  intros HR. revert t. induction l as [|x l IH]; intros t; cbn [prog_for]; [intros [-> _]; by exists []|].
  change (prog_bind ?g ?p) with (p ≫= g). intros [(e & _ & ?)|([] & t1 & t2 & -> & H1 & H2)]%exec_bind; [done|].
  destruct (IH _ H2) as (ts & -> & Hts). exists (t1 :: ts). split; [done|]. constructor; auto.
Qed.

Lemma exec_collect_ok {E A B} (R : A → B → trace → Prop) (f : A → prog E B) l t bs :
  (∀ x b t, exec (f x) t (Ok b) → R x b t) →
  exec (prog_collect f l) t (Ok bs) →
  ∃ ts, t = concat ts ∧ Forall2 (λ x '(b, u), R x b u) l (zip bs ts) ∧ length ts = length bs.
Proof.
  intros HR. revert t bs. induction l as [|x l IH]; intros t bs; cbn [prog_collect].
  { intros [-> [= ->]]. by exists []. }
  change (prog_bind ?g ?p) with (p ≫= g). intros [(e & _ & ?)|(b & t1 & t2 & -> & H1 & H2)]%exec_bind; [done|].
  change (prog_bind ?g ?p) with (p ≫= g) in H2.
  apply exec_bind in H2 as [(e & _ & ?)|(bs' & t3 & t4 & -> & H3 & [-> [= ->]])]; [done|].
  destruct (IH _ _ H3) as (ts & -> & Hts & Hl). exists (t1 :: ts). cbn. rewrite app_nil_r, Hl.
  split_and!; [done|constructor; auto|done].
Qed.

(** ** Requests alone *)

Lemma wp_exec {E A} P (Q : result E A → Prop) (p : prog E A) t r :
  wp P Q p → exec p t r → Forall (λ e, P (ev_request e)) t ∧ Q r.
Proof.
  revert t. induction p as [r'|q k IH]; intros t; cbn; [intros ? [-> ->]; done|].
  intros [Hq Hk] (a & t' & -> & He). destruct (IH a t' (Hk a) He). split; [by constructor|done].
Qed.

(** ** Successful commands *)

(** [git] ran with these arguments in [dir], succeeded and printed [out]. *)
Definition git_ok (dir : path) (args : list string) (out : string) : ioevent :=
  Ev (Spawn dir "git" args) (Ok {| succeeded := true; stdout := Some out |}).

Lemma exec_git {E} (e : E) dir args t r :
  exec (git_output e dir args) t r →
  (∃ out, t = [git_ok dir args out] ∧ r = Ok out) ∨
  (∃ a, t = [Ev (Spawn dir "git" args) a] ∧ r = Err e ∧
        ∀ out, a ≠ Ok {| succeeded := true; stdout := Some out |}).
Proof.
  intros (a & -> & ->)%exec_ask. destruct a as [[[] [out|]]|x]; cbn; [left; by exists out|..];
    right; (eexists; split_and!; [reflexivity..|intros; discriminate]).
Qed.

Lemma exec_git_then {E A} (e : E) dir args (f : string → prog E A) t r :
  exec (git_output e dir args ≫= f) t r →
  (∃ a, t = [Ev (Spawn dir "git" args) a] ∧ r = Err e) ∨
  (∃ out t', t = git_ok dir args out :: t' ∧ exec (f out) t' r).
Proof.
  intros [(e' & [(out & _ & ?)|(a & -> & [= ->] & _)]%exec_git & ->)|
          (out' & t1 & t2 & -> & [(out & -> & [= ->])|(a & _ & ? & _)]%exec_git & Hf)]%exec_bind;
    [done|eauto|right; eauto|done].
Qed.

(** ** What every request of a trace finds in its past *)

(** [P] holds of each request and the events before it; [past] is what came
    before the trace. *)
Fixpoint guarded (P : trace → request → Prop) (past t : trace) : Prop :=
  match t with
  | [] => True
  | e :: t' => P past (ev_request e) ∧ guarded P (past ++ [e]) t'
  end.

Lemma guarded_at P past before e after :
  guarded P past (before ++ e :: after) → P (past ++ before) (ev_request e).
Proof.
  revert past. induction before as [|x before IH]; intros past; cbn; [rewrite app_nil_r; by intros []|].
  intros [_ H]. apply IH in H. by rewrite <- app_assoc in H.
Qed.

(** Every branch, with its past: [P] holds of every request and the events
    before it, [Q] of the whole trace and the result. *)
Fixpoint wph {E A} (P : trace → request → Prop) (Q : trace → result E A → Prop) (past : trace)
    (p : prog E A) : Prop :=
  match p with
  | Ret r => Q past r
  | Call q k => P past q ∧ ∀ a, wph P Q (past ++ [Ev q a]) (k a)
  end.

Lemma wph_mono {E A} P (Q Q' : trace → result E A → Prop) past p :
  (∀ t r, Q (past ++ t) r → Q' (past ++ t) r) → wph P Q past p → wph P Q' past p.
Proof.
  revert past. induction p as [r|q k IH]; intros past HQ; cbn.
  - specialize (HQ [] r). rewrite app_nil_r in HQ. exact HQ.
  - intros [Hq Hk]. split; [done|]. intros a. apply IH, Hk. intros t r. rewrite <- app_assoc. apply HQ.
Qed.

Lemma wph_bind {E A B} P (Q : trace → result E B → Prop) past (f : A → prog E B) p :
  wph P (λ t r, match r with Ok a => wph P Q t (f a) | Err e => Q t (Err e) end) past p →
  wph P Q past (p ≫= f).
Proof.
  revert past. induction p as [[a|e]|q k IH]; intros past H; cbn in *; [done..|].
  destruct H as [? H]. split; [done|]. intros a. apply IH, H.
Qed.

Lemma wph_exec {E A} P (Q : trace → result E A → Prop) past p t r :
  wph P Q past p → exec p t r → guarded P past t ∧ Q (past ++ t) r.
Proof.
  revert past t. induction p as [r'|q k IH]; intros past t; cbn.
  - intros H [-> ->]. by rewrite app_nil_r.
  - intros [Hq Hk] (a & t' & -> & He). destruct (IH a _ _ (Hk a) He) as [Hg HQ].
    rewrite <- app_assoc in HQ. by split.
Qed.

(** Steps whose result does not matter to what follows but for the events
    they add. *)
Lemma wph_then {E A B} P (Q : trace → result E B → Prop) past (p : prog E A) (f : A → prog E B) :
  wph P (λ _ _, True) past p → (∀ t e, Q t (Err e)) → (∀ t a, wph P Q (past ++ t) (f a)) →
  wph P Q past (p ≫= f).
Proof.
  intros Hp He Hf. apply wph_bind. eapply wph_mono, Hp. intros t [a|e] _; auto.
Qed.

(** ** Assumptions on answers *)

(** Every answer of a trace is as [A] says, given the events before it. *)
Fixpoint answered_as (A : trace → ∀ q, answer q → Prop) (past t : trace) : Prop :=
  match t with
  | [] => True
  | Ev q a :: t' => A past q a ∧ answered_as A (past ++ [Ev q a]) t'
  end.

(** Every run in which the answers are as [A] says ends in [Q]. *)
Fixpoint wpa {E X} (A : trace → ∀ q, answer q → Prop) (Q : result E X → Prop) (past : trace) (p : prog E X) : Prop :=
  match p with
  | Ret r => Q r
  | Call q k => ∀ a, A past q a → wpa A Q (past ++ [Ev q a]) (k a)
  end.

Lemma wpa_exec {E X} A (Q : result E X → Prop) past p t r :
  wpa A Q past p → exec p t r → answered_as A past t → Q r.
Proof.
  revert past t. induction p as [r'|q k IH]; intros past t; cbn; [intros H [-> ->] _; exact H|].
  intros H (a & t' & -> & He) [Ha Ht]. eapply IH; [by apply H|exact He|exact Ht].
Qed.

(** A step that succeeds. *)
Lemma wpa_seq {E X Y} A (Q' : X → Prop) (Q : result E Y → Prop) past (f : X → prog E Y) p :
  wpa A (λ r, ∃ x, r = Ok x ∧ Q' x) past p → (∀ t x, Q' x → wpa A Q (past ++ t) (f x)) →
  wpa A Q past (p ≫= f).
Proof.
  revert past. induction p as [[x|e]|q k IH]; intros past Hp Hf; cbn in *.
  - destruct Hp as (x' & [= ->] & Hx). specialize (Hf [] x' Hx). by rewrite app_nil_r in Hf.
  - by destruct Hp as (x' & ? & _).
  - intros a Ha. apply IH; [by apply Hp|]. intros t x Hx. rewrite <- app_assoc. by apply Hf.
Qed.

Lemma wpa_ask {E X Y} A (Q' : X → Prop) (Q : result E Y → Prop) past q (g : answer q → result E X) (f : X → prog E Y) :
  (∀ a, A past q a → ∃ x, g a = Ok x ∧ Q' x) → (∀ t x, Q' x → wpa A Q (past ++ t) (f x)) →
  wpa A Q past (Call q (λ a, Ret (g a)) ≫= f).
Proof. intros Hg Hf. apply (wpa_seq A Q'); [|done]. cbn. auto. Qed.

Lemma wpa_lift {E X Y} A (Q : result E Y → Prop) past (r : result E X) (f : X → prog E Y) x :
  r = Ok x → wpa A Q past (f x) → wpa A Q past (Ret r ≫= f).
Proof. by intros ->. Qed.

(** The run of a machine whose answers are as [A] says; [I] relates its state to
    the events so far. *)
Lemma answered_run {W E X} (h : handler W) A (I : trace → W → Prop) past w (p : prog E X) :
  (∀ past w q, I past w → A past q (h w q).2 ∧ I (past ++ [Ev q (h w q).2]) (h w q).1) → I past w →
  ∃ t, exec p t (run h w p).2 ∧ answered_as A past t.
Proof.
  intros Hstep. revert past w. induction p as [r|q k IH]; intros past w Hi; cbn; [by exists []|].
  destruct (Hstep past w q Hi) as [Ha Hi']. destruct (h w q) as [w1 a]. cbn in *.
  destruct (IH a (past ++ [Ev q a]) w1 Hi') as (t & He & Ht).
  destruct (run h w1 (k a)) as [[w2 qs] r]. exists (Ev q a :: t). cbn in *. split; [eauto|done].
Qed.
