(* ===== verification/Generated.v ===== *)
(** * The contract types the code generator emits

    Records and enums of [kernel/src/generated/mod.rs] that the modelled
    components exchange.  The one-field string newtypes ([Id], [Ref],
    [EventKind], [Digest], [Path], ...; all [serde(transparent)] over [String]
    with derived comparison) are [string]. *)

From S2P Require Import Prelude.

Abbreviation Id := string (only parsing).
Abbreviation Ref := string (only parsing).
Abbreviation EventKind := string (only parsing).
Abbreviation Digest := string (only parsing).
Abbreviation Path := string (only parsing).

(** [serde_json::Value] (of the numbers, the integers the program writes). *)
Inductive Value :=
| VNull
| VBool (b : bool)
| VNumber (z : Z)
| VString (s : string)
| VArray (items : list Value)
| VObject (fields : list (string * Value)).

(** Event log rows and the cache header. *)
Record EventRow := {
  ev_sequence : Z;
  ev_previous_revision : Z;
  ev_new_revision : Z;
  ev_kind : EventKind;
  ev_artifact_refs : list Ref;
}.

Record StateCache := { sc_sequence : Z; sc_state_hash : Digest }.

(** Background actions. *)
Inductive ActionKind :=
| LaunchBackground | ReadFailureLog | ReconcileBackground
| RequestOperator | ReturnIdle | StopBackground.

Record BackgroundActionBgRun := {
  bg_name : string;
  bg_command : string;
  bg_is_agent : bool;
  bg_timeout_seconds : option Z;
  bg_notify_on_completion : bool;
  bg_trigger_on_completion : bool;
}.

Record BackgroundAction := {
  ba_action_id : Id;
  ba_assignment_id : Id;
  ba_kind : ActionKind;
  ba_bg_run : BackgroundActionBgRun;
  ba_run_revision : Z;
  ba_expires_at : option string;
  ba_supersession_state : string;
}.

(** Control frames. *)
Record ControlFrameTrigger := { ct_kind : string; ct_refs : list Ref }.

Record ControlFrameCounts := {
  cc_implementers : Z;
  cc_validators : Z;
  cc_fixers : Z;
  cc_deterministic_jobs : Z;
  cc_queued_candidates : Z;
}.

Record ControlFrame := {
  cf_schema : string;
  cf_frame_id : string;
  cf_run_id : string;
  cf_run_revision : Z;
  cf_trigger : ControlFrameTrigger;
  cf_counts : ControlFrameCounts;
  cf_observations : list Value;
  cf_actions : list BackgroundAction;
  cf_next_watchdog_at : option string;
  cf_return_to_idle : bool;
}.

(** Validation verdicts and findings. *)
Inductive CriterionVerdict := CV_BLOCKED | CV_FAIL | CV_PASS.
Inductive ForwardVerdict := FV_BLOCKED | FV_FORWARDBLOCKED | FV_FORWARDREADY.
Inductive ClosureVerdict := ClV_BLOCKED | ClV_NEEDSFIX | ClV_PASS.
Inductive FindingEffect := Advisory | ClosureBlockingForwardSafe | ForwardBlocking.

Record CriterionResult := {
  cr_criterion_id : Id;
  cr_verdict : CriterionVerdict;
  cr_evidence_refs : list Ref;
  cr_finding_refs : list Ref;
  cr_covered_paths : list Path;
  cr_semantic_surface_ids : list Id;
  cr_forward_edge_ids : list Id;
}.

Record ValidationVerdict := {
  vv_assignment_id : Id;
  vv_validation_scope : string;
  vv_exact_commit : string;
  vv_exact_tree : string;
  vv_forward_verdict : option ForwardVerdict;
  vv_closure_verdict : option ClosureVerdict;
  vv_criterion_results : list CriterionResult;
  vv_finding_refs : list Ref;
}.

Record Finding := {
  fi_finding_id : Id;
  fi_effect : FindingEffect;
  fi_summary : string;
  fi_detail : string;
  fi_criterion_ids : list Id;
  fi_edge_ids : list Id;
  fi_evidence_refs : list Ref;
  fi_covered_paths : list Path;
  fi_semantic_surface_ids : list Id;
}.

#[global] Instance EventRow_eq_dec : EqDecision EventRow.
Proof. solve_decision. Defined.
#[global] Instance ActionKind_eq_dec : EqDecision ActionKind.
Proof. solve_decision. Defined.
#[global] Instance BackgroundActionBgRun_eq_dec : EqDecision BackgroundActionBgRun.
Proof. solve_decision. Defined.
#[global] Instance BackgroundAction_eq_dec : EqDecision BackgroundAction.
Proof. solve_decision. Defined.
#[global] Instance CriterionVerdict_eq_dec : EqDecision CriterionVerdict.
Proof. solve_decision. Defined.
#[global] Instance ForwardVerdict_eq_dec : EqDecision ForwardVerdict.
Proof. solve_decision. Defined.
#[global] Instance FindingEffect_eq_dec : EqDecision FindingEffect.
Proof. solve_decision. Defined.
