(* ===== verification/Graph.v ===== *)
(** * Graph searches

    Two searches the sources write out in several places, over a function that
    gives the successors of a node or fails: a depth-first search that rejects
    cycles, with the nodes on the current path and the finished ones, and a
    search with a stack that collects what can be reached.  Both have fuel; the
    lemmas show how much is enough when only finitely many nodes have
    successors. *)

From S2P Require Import Prelude RustColl.

Section Graph.
Context {E : Type} (on_cycle : string → E) (succ : string → result E (list string)).

Abbreviation search_state := (gset string * gset string)%type (only parsing).
Abbreviation search_result := (option (result E (gset string * gset string))) (only parsing).

(** The loop over the successors, and what follows it. *)
Fixpoint dfs_children (rec : string → search_state → search_result) (node : string)
    (next : list string) (acc : search_state) : search_result :=
  match next with
  | [] => Some (Ok (acc.1 ∖ {[node]}, {[node]} ∪ acc.2))
  | child :: next' =>
      match rec child acc with
      | Some (Ok acc') => dfs_children rec node next' acc'
      | other => other
      end
  end.

(** A finished node is done; a node on the path closes a cycle; otherwise the
    node goes on the path and its successors are visited. *)
Fixpoint dfs (fuel : nat) (node : string) (acc : search_state) : search_result :=
  match fuel with
  | O => None
  | S fuel' =>
      let '(visiting, finished) := acc in
      if bool_decide (node ∈ finished) then Some (Ok acc)
      else if bool_decide (node ∈ visiting) then Some (Err (on_cycle node))
      else match succ node with
           | Err e => Some (Err e)
           | Ok next => dfs_children (dfs fuel') node next ({[node]} ∪ visiting, finished)
           end
  end.

Fixpoint dfs_all (fuel : nat) (nodes : list string) (acc : search_state) : search_result :=
  match nodes with
  | [] => Some (Ok acc)
  | node :: nodes' =>
      match dfs fuel node acc with
      | Some (Ok acc') => dfs_all fuel nodes' acc'
      | other => other
      end
  end.

(** [while let Some(id) = todo.pop()]; the stack's top is the head of the list. *)
Fixpoint collect (fuel : nat) (found : gset string) (todo : list string) : option (result E (gset string)) :=
  match fuel with
  | O => None
  | S fuel' =>
      match todo with
      | [] => Some (Ok found)
      | id :: todo' =>
          if bool_decide (id ∈ found) then collect fuel' found todo'
          else match succ id with
               | Err e => Some (Err e)
               | Ok next => collect fuel' ({[id]} ∪ found) (reverse next ++ todo')
               end
      end
  end.

(** ** Edges, cycles and what a visit does *)

Definition edge (a b : string) : Prop := ∃ next, succ a = Ok next ∧ b ∈ next.

(** Finished nodes have successors, which are finished too, and no cycle. *)
Definition finished_ok (finished : gset string) : Prop :=
  (∀ a, a ∈ finished → ∃ next, succ a = Ok next ∧ ∀ b, b ∈ next → b ∈ finished) ∧
  (∀ a, a ∈ finished → ¬ tc edge a a).

Lemma finished_empty : finished_ok ∅.
Proof. split; set_solver. Qed.

Lemma finished_step finished a b : finished_ok finished → a ∈ finished → edge a b → b ∈ finished.
Proof.
  intros [Hc _] Ha (next & Hn & Hb). destruct (Hc a Ha) as (n & Hn' & H). rewrite Hn in Hn'. simplify_eq. auto.
Qed.

Lemma finished_closed finished a b :
  finished_ok finished → a ∈ finished → tc edge a b → b ∈ finished.
Proof. intros Hok Ha Hab. induction Hab; eauto using finished_step. Qed.

(** An error names a node on a cycle, or is the error of a node without
    successors. *)
Definition explained (e : E) : Prop := (∃ a, e = on_cycle a ∧ tc edge a a) ∨ ∃ a, succ a = Err e.

Definition visited (node : string) (visiting finished : gset string) (r : search_result) : Prop :=
  match r with
  | None => False
  | Some (Err e) => explained e
  | Some (Ok (visiting', finished')) =>
      visiting' = visiting ∧ finished ⊆ finished' ∧ node ∈ finished' ∧
      finished_ok finished' ∧ visiting ## finished'
  end.

(** Only the nodes of [keys] have a successor. *)
Context (keys : gset string) (edge_keys : ∀ a b, edge a b → a ∈ keys).

Definition path_to (visiting : gset string) (node : string) : Prop :=
  visiting ⊆ keys ∧ ∀ a, a ∈ visiting → tc edge a node.

Lemma path_to_child visiting node child :
  path_to visiting node → edge node child → path_to ({[node]} ∪ visiting) child.
Proof.
  intros [Hdom Hpath] Hedge. split; [apply edge_keys in Hedge as ?; set_solver|].
  intros a [->%elem_of_singleton|Ha]%elem_of_union; [by apply tc_once|eapply tc_r; eauto].
Qed.

Lemma dfs_children_spec rec node visiting all next :
  (∀ child vis fin, vis = {[node]} ∪ visiting → path_to vis child → finished_ok fin → vis ## fin →
     visited child vis fin (rec child (vis, fin))) →
  path_to visiting node → node ∉ visiting → succ node = Ok all → next ⊆ all →
  ∀ fin,
  (∀ child, child ∈ all → child ∈ next ∨ child ∈ fin) →
  finished_ok fin → {[node]} ∪ visiting ## fin →
  visited node visiting fin (dfs_children rec node next ({[node]} ∪ visiting, fin)).
Proof.
  intros Hrec Hpath Hnode Hsucc. induction next as [|child next IH]; intros Hnext fin Hrest Hfin Hdisj.
  - cbn. split_and!; [set_solver..| |set_solver]. destruct (id Hfin) as [Hc Hac]. split.
    + intros a [->%elem_of_singleton|Ha]%elem_of_union.
      * exists all. split; [done|]. intros b Hb. destruct (Hrest b Hb); set_solver.
      * destruct (Hc a Ha) as (n & ? & Hn). exists n. set_solver.
    + intros a [->%elem_of_singleton|Ha]%elem_of_union; [|by apply Hac]. intros Hcyc.
      assert (node ∈ fin); [|set_solver].
      assert (∃ c, edge node c ∧ (c = node ∨ tc edge c node)) as (c & (n & Hn & Hnc) & Hcn).
      { inversion Hcyc; eauto. }
      rewrite Hsucc in Hn. simplify_eq. destruct (Hrest c Hnc) as [?|Hcf]; [set_solver|].
      destruct Hcn as [->|Hcn]; [done|]. by eapply finished_closed.
  - cbn [dfs_children].
    assert (path_to ({[node]} ∪ visiting) child) as Hpc.
    { apply path_to_child; [done|]. exists all. set_solver. }
    pose proof (Hrec child _ fin eq_refl Hpc Hfin Hdisj) as Hv.
    destruct (rec child ({[node]} ∪ visiting, fin)) as [[[vis' fin']|e]|]; [|done|done].
    destruct Hv as (-> & Hsub & Hin & Hok & Hd).
    pose proof (IH ltac:(set_solver) fin') as IH'. unfold visited in IH'.
    destruct (dfs_children rec node next _) as [[[v2 f2]|e]|]; cbn.
    + destruct IH' as (-> & Hsub' & ? & ? & ?); [|done|done|].
      { intros c Hc. destruct (Hrest c Hc); set_solver. }
      split_and!; [done|set_solver|done|done|done].
    + apply IH'; [|done|done]. intros c Hc. destruct (Hrest c Hc); set_solver.
    + apply IH'; [|done|done]. intros c Hc. destruct (Hrest c Hc); set_solver.
Qed.

Lemma dfs_spec fuel node visiting fin :
  path_to visiting node → finished_ok fin → visiting ## fin →
  (size keys + 1 < size visiting + fuel)%nat →
  visited node visiting fin (dfs fuel node (visiting, fin)).
Proof.
  revert node visiting fin. induction fuel as [|fuel IH]; intros node visiting fin Hp Hfin Hd Hf.
  { exfalso. destruct Hp as [Hdom _]. apply subseteq_size in Hdom. lia. }
  cbn [dfs]. case_bool_decide as Hin; [cbn; set_solver|].
  case_bool_decide as Hvis; [left; exists node; split; [done|]; by apply Hp|].
  destruct (succ node) as [next|e] eqn:Hs; [|right; by exists node].
  apply dfs_children_spec with next; [|done|done|done|done|auto|done|set_solver].
  intros child vis fin' -> Hpc Hfin' Hd'. apply IH; [done..|].
  rewrite size_union by set_solver. rewrite size_singleton. lia.
Qed.

Definition dfs_fuel : nat := S (S (size keys)).

Lemma dfs_all_spec nodes fin :
  finished_ok fin →
  match dfs_all dfs_fuel nodes (∅, fin) with
  | None => False
  | Some (Err e) => explained e
  | Some (Ok (_, fin')) => fin ⊆ fin' ∧ finished_ok fin' ∧ ∀ n, n ∈ nodes → n ∈ fin'
  end.
Proof.
  revert fin. induction nodes as [|node nodes IH]; intros fin Hfin; cbn [dfs_all]; [set_solver|].
  pose proof (dfs_spec dfs_fuel node ∅ fin) as Hv.
  destruct (dfs _ node (∅, fin)) as [[[vis' fin']|e]|].
  - destruct Hv as (-> & Hsub & Hin & Hok & _); [split; set_solver|done|set_solver|unfold dfs_fuel; lia|].
    specialize (IH fin' Hok). destruct (dfs_all _ nodes _) as [[[v2 f2]|e]|]; [|done|done].
    destruct IH as (? & ? & ?). set_solver.
  - apply Hv; [split; set_solver|done|set_solver|unfold dfs_fuel; lia].
  - apply Hv; [split; set_solver|done|set_solver|unfold dfs_fuel; lia].
Qed.

End Graph.

(** ** The stack search *)

Section Collect.
Context {E : Type} (succ : string → result E (list string)).
Context (keys : gset string) (edge_keys : ∀ a b, edge succ a b → a ∈ keys).

Definition out_degree (a : string) : nat := match succ a with Ok next => length next | Err _ => O end.
Definition pending (found : gset string) : nat :=
  sum_list_with out_degree (elements (keys ∖ found)).

Lemma out_degree_keys a : a ∉ keys → out_degree a = O.
Proof.
  intros Ha. unfold out_degree. destruct (succ a) as [[|b next]|] eqn:Hs; [done| |done].
  destruct Ha. apply (edge_keys a b). exists (b :: next). set_solver.
Qed.

Lemma sum_list_with_perm {A} (f : A → nat) l k : l ≡ₚ k → sum_list_with f l = sum_list_with f k.
Proof. induction 1; cbn; lia. Qed.

Lemma pending_visit found a : a ∉ found → (out_degree a + pending ({[a]} ∪ found) = pending found)%nat.
Proof.
  intros Ha. unfold pending. destruct (decide (a ∈ keys)) as [Hk|Hk].
  - assert (keys ∖ found = {[a]} ∪ (keys ∖ ({[a]} ∪ found))) as Heq.
    { apply set_eq. intros x. destruct (decide (x = a)) as [->|]; set_solver. }
    rewrite Heq. rewrite (sum_list_with_perm _ (elements ({[a]} ∪ _)) (a :: elements (keys ∖ ({[a]} ∪ found))));
      [done|]. apply elements_union_singleton. set_solver.
  - rewrite out_degree_keys by done. cbn. f_equal. f_equal. set_solver.
Qed.

(** The nodes that can be reached from one of [todo] without going through
    [found]. *)
Lemma collect_spec fuel found todo :
  (length todo + pending found < fuel)%nat →
  (∀ a b, a ∈ found → edge succ a b → b ∈ found ∨ b ∈ todo) →
  match collect succ fuel found todo with
  | None => False
  | Some (Err e) => ∃ a, succ a = Err e
  | Some (Ok out) => found ⊆ out ∧ (∀ a, a ∈ todo → a ∈ out) ∧ (∀ a b, a ∈ out → edge succ a b → b ∈ out) ∧
      ∀ b, b ∈ out → b ∈ found ∨ ∃ a, a ∈ todo ∧ rtc (edge succ) a b
  end.
Proof.
  revert found todo. induction fuel as [|fuel IH]; intros found todo Hf Hinv; [lia|]. cbn [collect].
  destruct todo as [|a todo]; [set_solver|]. cbn in Hf. case_bool_decide as Hin.
  - specialize (IH found todo). destruct (collect succ fuel found todo) as [[out|e]|].
    + destruct IH as (? & ? & ? & Hreach); [lia|set_solver|]. split_and!; [done|set_solver|done|].
      intros b Hb. destruct (Hreach b Hb) as [|(c & ? & ?)]; [by left|right; exists c; set_solver].
    + apply IH; [lia|set_solver].
    + apply IH; [lia|set_solver].
  - destruct (succ a) as [next|e] eqn:Hs; [|by exists a].
    assert (∀ b, edge succ a b ↔ b ∈ next) as Hnext.
    { intros b. split; [|by exists next]. intros (n & Hn & ?). rewrite Hs in Hn. by simplify_eq. }
    specialize (IH ({[a]} ∪ found) (reverse next ++ todo)).
    assert (length (reverse next ++ todo) + pending ({[a]} ∪ found) < fuel)%nat as Hfuel.
    { pose proof (pending_visit found a Hin) as Hp. unfold out_degree in Hp. rewrite Hs in Hp.
      rewrite length_app, length_reverse. lia. }
    assert (∀ c b, c ∈ {[a]} ∪ found → edge succ c b → b ∈ {[a]} ∪ found ∨ b ∈ reverse next ++ todo) as Hinv'.
    { intros c b [->%elem_of_singleton|Hc]%elem_of_union Hcb; rewrite elem_of_app, elem_of_reverse.
      - apply Hnext in Hcb. auto.
      - destruct (Hinv c b Hc Hcb); set_solver. }
    destruct (collect succ fuel _ _) as [[out|e]|]; [|by apply IH|by apply IH].
    destruct (IH Hfuel Hinv') as (? & ? & ? & Hreach). split_and!; [set_solver|set_solver|done|].
    intros b Hb. destruct (Hreach b Hb) as [Hx|(c & Hc & Hcb)].
    + apply elem_of_union in Hx as [->%elem_of_singleton|?]; [|by left]. right. exists a. split; [by left|done].
    + rewrite elem_of_app, elem_of_reverse in Hc. right. destruct Hc as [Hc|Hc]; [|exists c; set_solver].
      exists a. split; [by left|]. eapply rtc_l; [by apply Hnext|done].
Qed.

Definition collect_fuel (todo : list string) : nat := S (length todo + pending ∅).

End Collect.
