(* ===== verification/Failure.v ===== *)
(** * Failure classes, supervision and kernel effects

    [kernel/src/failure.rs] and [kernel/src/effect.rs]: the closed failure
    vocabulary every driver reports in, what the supervisor does with it, and
    the effects the kernel asks the host for. *)

From S2P Require Import Prelude Generated.

Inductive RetryPolicy := Immediate | Backoff | AfterRestart.
Inductive RecoveryRoute := Tier1 | Tier2 | Tier3.
Inductive OperatorDecision := SupplyCapability | ChooseAfterExhaustion | ReissueDecision.
Inductive HardBoundary :=
| OutOfScopeWrite | AgentVersionMutation | RemoteOrDestructiveNetwork | SecretMaterialAccess
| UnissuedBackgroundLaunch | MeteredFrontierRoute | UnsafeCleanup | EvidenceThreateningMutation.

Inductive Failure :=
| Transient (retry : RetryPolicy)
| Recoverable (route : RecoveryRoute)
| Paused (needs : OperatorDecision)
| Unsafe (boundary : HardBoundary).

Inductive ProcessDisposition := ProcessContinue.
Inductive OperationDisposition := OperationContinue | Halt (boundary : HardBoundary).
Inductive EvidenceDisposition := Preserve.

Record Supervision := {
  process : ProcessDisposition;
  operation : OperationDisposition;
  evidence : EvidenceDisposition;
}.

Definition continue_with_evidence : Supervision :=
  {| process := ProcessContinue; operation := OperationContinue; evidence := Preserve |}.

Definition supervision (f : Failure) : Supervision :=
  match f with
  | Transient _ => continue_with_evidence
  | Recoverable _ => continue_with_evidence
  | Paused _ => continue_with_evidence
  | Unsafe boundary =>
      {| process := ProcessContinue; operation := Halt boundary; evidence := Preserve |}
  end.

Definition failure_of_boundary (b : HardBoundary) : Failure := Unsafe b.

(** [effect.rs]; the operator message is its bytes. *)
Inductive Effect :=
| EffLaunchBackground (action : BackgroundAction)
| EffReconcileBackground (id : Id)
| EffReadFailureLog (id : Id)
| EffStopBackground (id : Id)
| EffRequestOperator (message : list Z)
| EffReturnIdle.

#[global] Instance RetryPolicy_eq_dec : EqDecision RetryPolicy.
Proof. solve_decision. Defined.
#[global] Instance RecoveryRoute_eq_dec : EqDecision RecoveryRoute.
Proof. solve_decision. Defined.
#[global] Instance OperatorDecision_eq_dec : EqDecision OperatorDecision.
Proof. solve_decision. Defined.
#[global] Instance HardBoundary_eq_dec : EqDecision HardBoundary.
Proof. solve_decision. Defined.
#[global] Instance Failure_eq_dec : EqDecision Failure.
Proof. solve_decision. Defined.
#[global] Instance Effect_eq_dec : EqDecision Effect.
Proof. solve_decision. Defined.

(** An operation halts exactly for an unsafe failure, at its own boundary. *)
Lemma supervision_halts f b : operation (supervision f) = Halt b ↔ f = Unsafe b.
Proof. destruct f; cbn; naive_solver. Qed.
