(* ===== verification/State.v ===== *)
(** * The event-sourced run state

    [kernel/src/state.rs] and [kernel/src/fold.rs]: the state a run's event
    log folds to, how one row is applied, the byte encoding of the state and
    its hash.

    A row is accepted when it continues the log: its sequence number is the
    next one and its previous revision is the current one.  Any other row is
    counted as rejected and leaves an issue; a gap also moves the sequence
    forward.  The abstract reading of a log is [ledger] below: the position
    (sequence, revision) it leaves and the rows it accepts. *)

From S2P Require Import Prelude RustColl RustStr Generated.

Inductive StateIssueKind :=
| SequenceGap | SequenceRegression | SequenceOverflow | RevisionMismatch | CounterOverflow.

Record StateIssue := {
  si_at : Z;
  si_kind : StateIssueKind;
  si_expected : Z;
  si_actual : Z;
}.

Record State := {
  st_sequence : Z;
  st_revision : Z;
  st_rows : Z;
  st_accepted : Z;
  st_rejected : Z;
  st_kinds : gmap string Z;
  st_refs : gmap string Z;
  st_issues : list StateIssue;
}.

#[global] Instance StateIssueKind_eq_dec : EqDecision StateIssueKind.
Proof. solve_decision. Defined.
#[global] Instance StateIssue_eq_dec : EqDecision StateIssue.
Proof. solve_decision. Defined.
#[global] Instance State_eq_dec : EqDecision State.
Proof. solve_decision. Defined.

Definition EMPTY : State := {|
  st_sequence := 0; st_revision := 0; st_rows := 0; st_accepted := 0; st_rejected := 0;
  st_kinds := ∅; st_refs := ∅; st_issues := [];
|}.

(** ** Updates *)

Definition set_sequence (n : Z) (s : State) : State :=
  {| st_sequence := n; st_revision := st_revision s; st_rows := st_rows s;
     st_accepted := st_accepted s; st_rejected := st_rejected s;
     st_kinds := st_kinds s; st_refs := st_refs s; st_issues := st_issues s |}.
Definition set_revision (n : Z) (s : State) : State :=
  {| st_sequence := st_sequence s; st_revision := n; st_rows := st_rows s;
     st_accepted := st_accepted s; st_rejected := st_rejected s;
     st_kinds := st_kinds s; st_refs := st_refs s; st_issues := st_issues s |}.
Definition set_kinds (m : gmap string Z) (s : State) : State :=
  {| st_sequence := st_sequence s; st_revision := st_revision s; st_rows := st_rows s;
     st_accepted := st_accepted s; st_rejected := st_rejected s;
     st_kinds := m; st_refs := st_refs s; st_issues := st_issues s |}.
Definition set_refs (m : gmap string Z) (s : State) : State :=
  {| st_sequence := st_sequence s; st_revision := st_revision s; st_rows := st_rows s;
     st_accepted := st_accepted s; st_rejected := st_rejected s;
     st_kinds := st_kinds s; st_refs := m; st_issues := st_issues s |}.
Definition set_issues (l : list StateIssue) (s : State) : State :=
  {| st_sequence := st_sequence s; st_revision := st_revision s; st_rows := st_rows s;
     st_accepted := st_accepted s; st_rejected := st_rejected s;
     st_kinds := st_kinds s; st_refs := st_refs s; st_issues := l |}.
Definition push_issue (i : StateIssue) (s : State) : State :=
  set_issues (st_issues s ++ [i]) s.

Inductive Counter := Rows | Accepted | Rejected.

Definition counter (c : Counter) (s : State) : Z :=
  match c with Rows => st_rows s | Accepted => st_accepted s | Rejected => st_rejected s end.
Definition set_counter (c : Counter) (n : Z) (s : State) : State :=
  {| st_sequence := st_sequence s; st_revision := st_revision s;
     st_rows := match c with Rows => n | _ => st_rows s end;
     st_accepted := match c with Accepted => n | _ => st_accepted s end;
     st_rejected := match c with Rejected => n | _ => st_rejected s end;
     st_kinds := st_kinds s; st_refs := st_refs s; st_issues := st_issues s |}.

(** [bump]: the new value of the slot, and whether it was incremented. *)
Definition bump (value : Z) : Z * bool :=
  match checked_add u64_max value 1 with
  | Some next => (next, true)
  | None => (value, false)
  end.

Definition note_count (state : State) (c : Counter) (at_ : Z) : State :=
  let '(slot, ok) := bump (counter c state) in
  let state := set_counter c slot state in
  if negb ok
  then push_issue {| si_at := at_; si_kind := CounterOverflow;
                     si_expected := u64_max; si_actual := slot |} state
  else state.

Definition note_key (m : gmap string Z) (key : string) (at_ : Z) (issues : list StateIssue)
  : gmap string Z * list StateIssue :=
  let entry := default 0 (m !! key) in
  let '(slot, ok) := bump entry in
  let m := <[key := slot]> m in
  if negb ok
  then (m, issues ++ [{| si_at := at_; si_kind := CounterOverflow;
                         si_expected := u64_max; si_actual := u64_max |}])
  else (m, issues).

(** The sequence check of [apply]: the state after it, and [row_ok]. *)
Definition check_sequence (state : State) (event : EventRow) : State * bool :=
  match checked_add u64_max (st_sequence state) 1 with
  | Some expected =>
      if ev_sequence event =? expected then (state, true)
      else if expected <? ev_sequence event then
        (set_sequence (ev_sequence event)
           (push_issue {| si_at := ev_sequence event; si_kind := SequenceGap;
                          si_expected := expected; si_actual := ev_sequence event |} state), false)
      else
        (push_issue {| si_at := ev_sequence event; si_kind := SequenceRegression;
                       si_expected := expected; si_actual := ev_sequence event |} state, false)
  | None =>
      (push_issue {| si_at := ev_sequence event; si_kind := SequenceOverflow;
                     si_expected := u64_max; si_actual := ev_sequence event |} state, false)
  end.

Definition check_revision (state : State) (event : EventRow) (row_ok : bool) : State * bool :=
  if negb (ev_previous_revision event =? st_revision state)
  then (push_issue {| si_at := ev_sequence event; si_kind := RevisionMismatch;
                      si_expected := st_revision state;
                      si_actual := ev_previous_revision event |} state, false)
  else (state, row_ok).

Definition note_kind (state : State) (event : EventRow) : State :=
  let '(m, issues) :=
    note_key (st_kinds state) (ev_kind event) (ev_sequence event) (st_issues state) in
  set_issues issues (set_kinds m state).

Definition note_ref (at_ : Z) (state : State) (reference : Ref) : State :=
  let '(m, issues) := note_key (st_refs state) reference at_ (st_issues state) in
  set_issues issues (set_refs m state).

Definition apply (state : State) (event : EventRow) : State :=
  let state := note_count state Rows (ev_sequence event) in
  let '(state, row_ok) := check_sequence state event in
  let '(state, row_ok) := check_revision state event row_ok in
  if row_ok : bool then
    let state := set_sequence (ev_sequence event) state in
    let state := set_revision (ev_new_revision event) state in
    let state := note_count state Accepted (ev_sequence event) in
    let state := note_kind state event in
    fold_left (note_ref (ev_sequence event)) (ev_artifact_refs event) state
  else note_count state Rejected (ev_sequence event).

(** [state::fold_events] and [fold::fold_all]: the fold from the empty state. *)
Definition fold_events (events : list EventRow) : State := fold_left apply events EMPTY.
Definition fold_all (events : list EventRow) : State := fold_left apply events EMPTY.

(** ** Encoding and hash *)

Definition to_be_bytes (value : Z) : list Z :=
  map (λ i, Z.land (Z.shiftr value (8 * i)) 255) [7; 6; 5; 4; 3; 2; 1; 0].
Definition push_u64 (out : list Z) (value : Z) : list Z := out ++ to_be_bytes value.
Definition push_str (out : list Z) (value : string) : list Z :=
  push_u64 out (str_len value) ++ as_bytes value.

Definition issue_code (k : StateIssueKind) : Z :=
  match k with
  | SequenceGap => 1 | SequenceRegression => 2 | SequenceOverflow => 3
  | RevisionMismatch => 4 | CounterOverflow => 5
  end.
Definition encode_issue (out : list Z) (i : StateIssue) : list Z :=
  let out := push_u64 out (si_at i) in
  let out := out ++ [issue_code (si_kind i)] in
  let out := push_u64 out (si_expected i) in
  push_u64 out (si_actual i).

Definition encode_entry (out : list Z) (entry : string * Z) : list Z :=
  push_u64 (push_str out entry.1) entry.2.

Definition encode (s : State) (out : list Z) : list Z :=
  let out := push_u64 out (st_sequence s) in
  let out := push_u64 out (st_revision s) in
  let out := push_u64 out (st_rows s) in
  let out := push_u64 out (st_accepted s) in
  let out := push_u64 out (st_rejected s) in
  let out := push_u64 out (Z.of_nat (size (st_kinds s))) in
  let out := fold_left encode_entry (btree_map (st_kinds s)) out in
  let out := push_u64 out (Z.of_nat (size (st_refs s))) in
  let out := fold_left encode_entry (btree_map (st_refs s)) out in
  let out := push_u64 out (zlen (st_issues s)) in
  fold_left encode_issue (st_issues s) out.

Definition hex_table : string := "0123456789abcdef".
Definition hex_digit (n : Z) : ascii := default (chr 0) (String.list_ascii_of_string hex_table !! Z.to_nat n).
Definition hex (bytes : list Z) : string :=
  String.string_of_list_ascii
    (concat (map (λ b, [hex_digit (Z.shiftr b 4); hex_digit (Z.land b 15)]) bytes)).

(** The digest function (crate [sha2]) is a parameter. *)
Definition state_hash (sha256 : list Z → list Z) (s : State) : Digest :=
  hex (sha256 (encode s [])).

(** ** The abstract reading of a log *)

(** How often a key occurs; a key that does not occur has no entry. *)
Definition occ (k : string) (l : list string) : Z := zlen (filter (λ x, x = k) l).
Definition tally (k : string) (l : list string) : option Z :=
  if occ k l =? 0 then None else Some (occ k l).

(** One row read at a position (sequence, revision). *)
Definition ledger_step (p : Z * Z) (e : EventRow) : (Z * Z) * bool :=
  if (ev_sequence e =? p.1 + 1) && (ev_previous_revision e =? p.2) && (p.1 <? u64_max)
  then ((p.1 + 1, ev_new_revision e), true)
  else ((if (p.1 <? u64_max) && (p.1 + 1 <? ev_sequence e) then ev_sequence e else p.1, p.2), false).

Fixpoint ledger (p : Z * Z) (events : list EventRow) : (Z * Z) * list EventRow :=
  match events with
  | [] => (p, [])
  | e :: es =>
      let '(p', ok) := ledger_step p e in
      let '(q, acc) := ledger p' es in
      (q, if ok : bool then e :: acc else acc)
  end.

(** The rows continue the log from a position, each one the next. *)
Fixpoint chained (p : Z * Z) (events : list EventRow) : Prop :=
  match events with
  | [] => True
  | e :: es =>
      ev_sequence e = p.1 + 1 ∧ ev_previous_revision e = p.2 ∧ p.1 < u64_max ∧
      chained (p.1 + 1, ev_new_revision e) es
  end.

(** The number of counter increments a log can cause. *)
Definition log_weight (events : list EventRow) : Z :=
  zlen events + zlen (concat (ev_artifact_refs <$> events)).

Definition tallies (m : gmap string Z) (l : list string) : Prop := ∀ k, m !! k = tally k l.

Lemma occ_app k l l' : occ k (l ++ l') = occ k l + occ k l'.
Proof. unfold occ. by rewrite filter_app, zlen_app. Qed.

Lemma occ_one j k : occ j [k] = if decide (k = j) then 1 else 0.
Proof. unfold occ. rewrite filter_cons, filter_nil. by destruct (decide (k = j)). Qed.

Lemma occ_le k l : 0 ≤ occ k l ≤ zlen l.
Proof.
  unfold occ, zlen. pose proof (length_filter (λ x, x = k) l). lia.
Qed.

Lemma note_key_tallies m l k at_ issues :
  tallies m l → zlen l < u64_max →
  ∃ m', note_key m k at_ issues = (m', issues) ∧ tallies m' (l ++ [k]).
Proof.
  intros Hm Hl. unfold note_key.
  assert (Hk : default 0 (m !! k) = occ k l).
  { rewrite Hm. unfold tally. by destruct (Z.eqb_spec (occ k l) 0) as [->|]. }
  rewrite Hk. pose proof (occ_le k l). unfold bump, checked_add.
  destruct (Z.leb_spec (occ k l + 1) u64_max); [|lia]. cbn.
  eexists; split; [done|]. intros j. unfold tally. rewrite occ_app, occ_one.
  destruct (decide (k = j)) as [->|Hne].
  - rewrite lookup_insert_eq. cbn. destruct (Z.eqb_spec (occ j l + 1) 0); [lia|done].
  - rewrite lookup_insert_ne by done. cbn. rewrite Z.add_0_r. apply Hm.
Qed.

Lemma note_refs_tallies refs at_ : ∀ s l,
  tallies (st_refs s) l → zlen l + zlen refs ≤ u64_max →
  ∃ m', fold_left (note_ref at_) refs s = set_refs m' s ∧ tallies m' (l ++ refs).
Proof.
  induction refs as [|k refs IH]; intros s l Hs Hl; autorewrite with autopilot in *.
  { exists (st_refs s). rewrite app_nil_r. by destruct s. }
  pose proof (zlen_nonneg refs).
  destruct (note_key_tallies (st_refs s) l k at_ (st_issues s)) as (m & Hm & Ht); [done|lia|].
  destruct (IH (set_refs m s) (l ++ [k])) as (m' & Hf & Ht'); [done|autorewrite with autopilot; lia|].
  exists m'. rewrite <- app_assoc in Ht'. split; [|done].
  cbn [fold_left]. unfold note_ref at 2. rewrite Hm.
  replace (set_issues (st_issues s) (set_refs m s)) with (set_refs m s) by by destruct s.
  rewrite Hf. by destruct s.
Qed.

(** The state [s] reads the log prefix of [n] rows of which [acc] were
    accepted, ending at position [p]. *)
Record agrees (s : State) (p : Z * Z) (n : Z) (acc : list EventRow) : Prop := {
  ag_pos : (st_sequence s, st_revision s) = p;
  ag_rows : st_rows s = n;
  ag_accepted : st_accepted s = zlen acc;
  ag_rejected : st_rejected s = n - zlen acc;
  ag_kinds : tallies (st_kinds s) (ev_kind <$> acc);
  ag_refs : tallies (st_refs s) (concat (ev_artifact_refs <$> acc));
  ag_issues : st_issues s = [] ↔ zlen acc = n;
  ag_le : zlen acc ≤ n;
}.

Lemma note_count_fits s c at_ :
  counter c s < u64_max → note_count s c at_ = set_counter c (counter c s + 1) s.
Proof.
  intros H. unfold note_count, bump, checked_add.
  by destruct (Z.leb_spec (counter c s + 1) u64_max); [|lia].
Qed.

Lemma app_snoc_ne {A} (l : list A) x : l ++ [x] ≠ [].
Proof. by destruct l. Qed.

(** A row that is not the next one: the checks push an issue and move the
    position as the ledger says. *)
Lemma checks_reject s e p' :
  ledger_step (st_sequence s, st_revision s) e = (p', false) →
  let '(s1, ok1) := check_sequence s e in
  let '(s2, ok2) := check_revision s1 e ok1 in
  ok2 = false ∧ (st_sequence s2, st_revision s2) = p' ∧ st_issues s2 ≠ [] ∧
  st_rows s2 = st_rows s ∧ st_accepted s2 = st_accepted s ∧ st_rejected s2 = st_rejected s ∧
  st_kinds s2 = st_kinds s ∧ st_refs s2 = st_refs s.
Proof.
  unfold ledger_step, check_sequence, check_revision, checked_add. cbn. intros H.
  destruct (Z.leb_spec (st_sequence s + 1) u64_max) as [Hle|Hgt];
    destruct (Z.eqb_spec (ev_sequence e) (st_sequence s + 1)) as [Heq|Hne];
    destruct (Z.ltb_spec (st_sequence s) u64_max); try lia; cbn in *;
    destruct (Z.eqb_spec (ev_previous_revision e) (st_revision s)) as [Hr|Hr]; cbn in *; try done;
    try (destruct (Z.ltb_spec (st_sequence s + 1) (ev_sequence e)); cbn in *; try lia);
    simplify_eq; rewrite ?(proj2 (Z.eqb_eq _ _) Hr), ?(proj2 (Z.eqb_neq _ _) Hr); cbn;
    split_and!; try done; by apply app_snoc_ne.
Qed.

Lemma checks_accept s e p' :
  ledger_step (st_sequence s, st_revision s) e = (p', true) →
  check_sequence s e = (s, true) ∧ check_revision s e true = (s, true) ∧
  p' = (ev_sequence e, ev_new_revision e).
Proof.
  unfold ledger_step, check_sequence, check_revision, checked_add. cbn.
  destruct (Z.eqb_spec (ev_sequence e) (st_sequence s + 1)) as [Heq|]; [|done].
  destruct (Z.eqb_spec (ev_previous_revision e) (st_revision s)) as [Hr|]; [|done].
  destruct (Z.ltb_spec (st_sequence s) u64_max); [|done]. cbn. intros [= <-].
  destruct (Z.leb_spec (st_sequence s + 1) u64_max); [|lia].
  rewrite <- Heq, Z.eqb_refl. by rewrite Heq.
Qed.

Lemma apply_agrees s p n acc e :
  agrees s p n acc →
  n + 1 + zlen (concat (ev_artifact_refs <$> acc)) + zlen (ev_artifact_refs e) ≤ u64_max →
  let '(p', ok) := ledger_step p e in
  agrees (apply s e) p' (n + 1) (if ok : bool then acc ++ [e] else acc).
Proof.
  intros [Hp Hrows Hacc Hrej Hkinds Hrefs Hiss Hle] Hw. subst p.
  pose proof (zlen_nonneg acc). pose proof (zlen_nonneg (concat (ev_artifact_refs <$> acc))).
  pose proof (zlen_nonneg (ev_artifact_refs e)).
  unfold apply. rewrite note_count_fits by (cbn; lia). cbn [counter].
  set (s0 := set_counter Rows (st_rows s + 1) s).
  change (st_sequence s, st_revision s) with (st_sequence s0, st_revision s0).
  destruct (ledger_step _ e) as [p' []] eqn:Hstep.
  - apply checks_accept in Hstep as (-> & -> & ->).
    set (s1 := set_revision _ (set_sequence _ s0)).
    rewrite (note_count_fits s1 Accepted) by (cbn; lia).
    set (s2 := set_counter Accepted _ s1). unfold note_kind.
    destruct (note_key_tallies (st_kinds s2) (ev_kind <$> acc) (ev_kind e) (ev_sequence e)
                (st_issues s2)) as (m & -> & Hm).
    { exact Hkinds. } { unfold zlen in *. rewrite length_fmap. lia. }
    set (s3 := set_issues _ _).
    destruct (note_refs_tallies (ev_artifact_refs e) (ev_sequence e) s3
                (concat (ev_artifact_refs <$> acc))) as (m' & -> & Hm'); [exact Hrefs|lia|].
    split; cbn; autorewrite with autopilot; try lia; try done.
    + by rewrite fmap_app.
    + by rewrite fmap_app, concat_app; cbn; rewrite app_nil_r.
    + rewrite Hiss. lia.
  - apply checks_reject in Hstep. destruct (check_sequence s0 e) as [s1 ok1].
    destruct (check_revision s1 e ok1) as [s2 ok2].
    destruct Hstep as (-> & <- & Hne & Hr & Ha & Hj & Hk & Hf).
    rewrite note_count_fits by (cbn; rewrite Hj; cbn; lia).
    split; cbn; rewrite ?Hr, ?Ha, ?Hj, ?Hk, ?Hf; cbn; try done; try lia.
    split; [done|lia].
Qed.

Lemma agrees_empty : agrees EMPTY (0, 0) 0 [].
Proof. split; try done; by intros k. Qed.

(** Folding from a state that agrees with a prefix reads the rest of the log
    as the ledger does. *)
Lemma fold_agrees events : ∀ s p n acc,
  agrees s p n acc →
  n + zlen events + zlen (concat (ev_artifact_refs <$> acc))
    + zlen (concat (ev_artifact_refs <$> events)) ≤ u64_max →
  let '(q, acc') := ledger p events in
  agrees (fold_left apply events s) q (n + zlen events) (acc ++ acc').
Proof.
  induction events as [|e es IH]; intros s p n acc Hs Hw; cbn.
  { rewrite app_nil_r. autorewrite with autopilot. by rewrite Z.add_0_r. }
  autorewrite with autopilot in Hw. rewrite fmap_cons in Hw. cbn [concat] in Hw.
  autorewrite with autopilot in *.
  pose proof (zlen_nonneg es). pose proof (zlen_nonneg (concat (ev_artifact_refs <$> es))).
  pose proof (zlen_nonneg (ev_artifact_refs e)).
  pose proof (apply_agrees s p n acc e Hs ltac:(lia)) as Hstep.
  destruct (ledger_step p e) as [p' ok].
  specialize (IH (apply s e) p' (n + 1) _ Hstep).
  destruct (ledger p' es) as [q acc'].
  replace (n + (1 + zlen es)) with (n + 1 + zlen es) by lia.
  destruct ok.
  - rewrite <- app_assoc in IH. apply IH. rewrite fmap_app, concat_app. cbn. rewrite app_nil_r.
    autorewrite with autopilot. lia.
  - apply IH. lia.
Qed.

Lemma fold_events_agrees events :
  log_weight events ≤ u64_max →
  let '(q, acc) := ledger (0, 0) events in agrees (fold_events events) q (zlen events) acc.
Proof.
  intros Hw. pose proof (fold_agrees events EMPTY (0, 0) 0 [] agrees_empty) as H.
  unfold log_weight in Hw. apply H.
  change (0 + zlen events + 0 + zlen (concat (ev_artifact_refs <$> events)) ≤ u64_max). lia.
Qed.

Lemma ledger_all_accepted events : ∀ p,
  zlen (ledger p events).2 = zlen events ↔ chained p events.
Proof.
  assert (Hle : ∀ es p, zlen (ledger p es).2 ≤ zlen es).
  { induction es as [|e es IH]; intros p; cbn; [done|].
    destruct (ledger_step p e) as [p' []]; specialize (IH p'); destruct (ledger p' es);
      cbn in *; autorewrite with autopilot; lia. }
  induction events as [|e es IH]; intros p; cbn; [done|].
  unfold ledger_step. specialize (Hle es).
  destruct (Z.eqb_spec (ev_sequence e) (p.1 + 1)) as [Hs|];
    destruct (Z.eqb_spec (ev_previous_revision e) p.2) as [Hr|];
    destruct (Z.ltb_spec p.1 u64_max); cbn.
  1: { specialize (IH (p.1 + 1, ev_new_revision e)).
       destruct (ledger _ es) as [q acc]; cbn in *. autorewrite with autopilot.
       rewrite <- IH. intuition lia. }
  all: match goal with |- context [ledger ?q ?rest] =>
         specialize (Hle q); destruct (ledger q rest) as [? acc] end; cbn in *;
       autorewrite with autopilot; intuition lia.
Qed.

(** ** The encoding is unambiguous *)

(** No encoding of a valid value is a proper prefix of another one. *)
Class PrefixFree {A} (P : A → Prop) (f : A → list Z) : Prop :=
  prefix_free x y r r' : P x → P y → f x ++ r = f y ++ r' → x = y ∧ r = r'.

Definition u64 (z : Z) : Prop := in_range u64_max z.

Record valid_issue (i : StateIssue) : Prop := {
  vi_at : u64 (si_at i);
  vi_expected : u64 (si_expected i);
  vi_actual : u64 (si_actual i);
}.
Definition valid_entry (e : string * Z) : Prop := u64 (str_len e.1) ∧ u64 e.2.

(** What the Rust types guarantee of every state: the numbers are [u64]s, and
    so are the lengths of its strings, maps and vectors. *)
Record valid_state (s : State) : Prop := {
  vs_sequence : u64 (st_sequence s);
  vs_revision : u64 (st_revision s);
  vs_rows : u64 (st_rows s);
  vs_accepted : u64 (st_accepted s);
  vs_rejected : u64 (st_rejected s);
  vs_kinds_len : u64 (Z.of_nat (size (st_kinds s)));
  vs_kinds : map_Forall (λ k v, valid_entry (k, v)) (st_kinds s);
  vs_refs_len : u64 (Z.of_nat (size (st_refs s)));
  vs_refs : map_Forall (λ k v, valid_entry (k, v)) (st_refs s);
  vs_issues_len : u64 (zlen (st_issues s));
  vs_issues : Forall valid_issue (st_issues s);
}.

Lemma div_mod_eq_256 a b : a mod 256 = b mod 256 → a / 256 = b / 256 → a = b.
Proof. pose proof (Z.div_mod a 256 ltac:(lia)). pose proof (Z.div_mod b 256 ltac:(lia)). lia. Qed.

Lemma byte_at v i : 0 ≤ i → Z.land (Z.shiftr v (8 * i)) 255 = (v / 2 ^ (8 * i)) mod 256.
Proof.
  intros. change 255 with (Z.ones 8). by rewrite Z.land_ones, Z.shiftr_div_pow2 by lia.
Qed.

Lemma shift_div v i : 0 ≤ i → v / 2 ^ (8 * i) / 256 = v / 2 ^ (8 * (i + 1)).
Proof.
  intros. rewrite Z.div_div by lia. f_equal. replace (8 * (i + 1)) with (8 * i + 8) by lia.
  by rewrite Z.pow_add_r by lia.
Qed.

Lemma to_be_bytes_inj v w : u64 v → u64 w → to_be_bytes v = to_be_bytes w → v = w.
Proof.
  intros Hv Hw H. unfold to_be_bytes in H. cbn [map] in H. rewrite !byte_at in H by lia.
  injection H as H7 H6 H5 H4 H3 H2 H1 H0.
  assert (Htop : ∀ x, u64 x → x / 2 ^ (8 * 8) = 0).
  { intros x Hx. apply Z.div_small. unfold u64, in_range, u64_max in Hx. lia. }
  assert (Hstep : ∀ i, 0 ≤ i → (v / 2 ^ (8 * i)) mod 256 = (w / 2 ^ (8 * i)) mod 256 →
            v / 2 ^ (8 * (i + 1)) = w / 2 ^ (8 * (i + 1)) → v / 2 ^ (8 * i) = w / 2 ^ (8 * i)).
  { intros i Hi Hm Hd. apply div_mod_eq_256; [done|]. by rewrite !shift_div. }
  assert (H8 : v / 2 ^ (8 * (7 + 1)) = w / 2 ^ (8 * (7 + 1))) by (change (7 + 1) with 8; by rewrite !Htop).
  apply Hstep in H8; [|lia|done]. change 7 with (6 + 1) in H8 at 1 2.
  apply Hstep in H8; [|lia|done]. change 6 with (5 + 1) in H8 at 1 2.
  apply Hstep in H8; [|lia|done]. change 5 with (4 + 1) in H8 at 1 2.
  apply Hstep in H8; [|lia|done]. change 4 with (3 + 1) in H8 at 1 2.
  apply Hstep in H8; [|lia|done]. change 3 with (2 + 1) in H8 at 1 2.
  apply Hstep in H8; [|lia|done]. change 2 with (1 + 1) in H8 at 2 4.
  apply Hstep in H8; [|lia|done]. change 1 with (0 + 1) in H8 at 1 2.
  apply Hstep in H8; [|lia|done]. by rewrite !Z.div_1_r in H8.
Qed.

#[global] Instance to_be_bytes_prefix_free : PrefixFree u64 to_be_bytes.
Proof.
  intros v w r r' Hv Hw H. apply app_inj_1 in H as [H ->]; [|done].
  split; [by apply to_be_bytes_inj|done].
Qed.

Definition str_bytes (s : string) : list Z := to_be_bytes (str_len s) ++ as_bytes s.
Definition entry_bytes (e : string * Z) : list Z := str_bytes e.1 ++ to_be_bytes e.2.
Definition issue_bytes (i : StateIssue) : list Z :=
  to_be_bytes (si_at i) ++ [issue_code (si_kind i)] ++
  to_be_bytes (si_expected i) ++ to_be_bytes (si_actual i).

#[global] Instance str_bytes_prefix_free : PrefixFree (λ s, u64 (str_len s)) str_bytes.
Proof.
  intros s t r r' Hs Ht H. unfold str_bytes in H. rewrite <- !app_assoc in H.
  apply prefix_free in H as [Hlen H]; [|done..].
  apply app_inj_1 in H as [?%as_bytes_inj ->]; [done|].
  apply Nat2Z.inj. fold (zlen (as_bytes s)) (zlen (as_bytes t)). by rewrite !as_bytes_length.
Qed.

#[global] Instance entry_bytes_prefix_free : PrefixFree valid_entry entry_bytes.
Proof.
  intros [k v] [k' v'] r r' [??] [??] E. unfold entry_bytes in E. rewrite <- !app_assoc in E.
  apply (prefix_free (f := str_bytes)) in E as [Hk E]; [|done..].
  apply prefix_free in E as [Hv ->]; [|done..]. cbn in *. by subst.
Qed.

#[global] Instance issue_bytes_prefix_free : PrefixFree valid_issue issue_bytes.
Proof.
  intros [a k x v] [a' k' x' v'] r r' [???] [???] E. unfold issue_bytes in E.
  rewrite <- !app_assoc in E. cbn [si_at si_kind si_expected si_actual] in *.
  apply prefix_free in E as [-> E]; [|done..].
  apply (app_inj_1 [_] [_]) in E as [[= Hk] E]; [|done].
  apply prefix_free in E as [-> E]; [|done..]. apply prefix_free in E as [-> ->]; [|done..].
  by destruct k, k'.
Qed.

(** A counted sequence of encodings can be read back. *)
Lemma concat_prefix_free {A} (P : A → Prop) f `{!PrefixFree P f} (l k : list A) r r' :
  Forall P l → Forall P k → length l = length k →
  concat (f <$> l) ++ r = concat (f <$> k) ++ r' → l = k ∧ r = r'.
Proof.
  intros Hl. revert k. induction Hl as [|x l Hx Hl IH]; intros [|y k] Hk Hlen H; try done.
  apply Forall_cons in Hk as [Hy Hk]. rewrite !fmap_cons in H. cbn [concat] in H.
  rewrite <- !app_assoc in H. apply prefix_free in H as [-> H]; [|done..].
  apply IH in H as [-> ->]; naive_solver.
Qed.

Lemma fold_left_concat {A B} (f : A → list B) (step : list B → A → list B) l out :
  (∀ o x, step o x = o ++ f x) → fold_left step l out = out ++ concat (f <$> l).
Proof.
  intros Hstep. revert out. induction l as [|x l IH]; intros out; cbn; [by rewrite app_nil_r|].
  by rewrite IH, Hstep, <- app_assoc.
Qed.

Lemma encode_entry_app out e : encode_entry out e = out ++ entry_bytes e.
Proof. unfold encode_entry, push_str, push_u64, entry_bytes, str_bytes. by rewrite <- !app_assoc. Qed.

Lemma encode_issue_app out i : encode_issue out i = out ++ issue_bytes i.
Proof. unfold encode_issue, push_u64, issue_bytes. by rewrite <- !app_assoc. Qed.

Definition state_bytes (s : State) : list Z :=
  to_be_bytes (st_sequence s) ++ to_be_bytes (st_revision s) ++ to_be_bytes (st_rows s) ++
  to_be_bytes (st_accepted s) ++ to_be_bytes (st_rejected s) ++
  to_be_bytes (Z.of_nat (size (st_kinds s))) ++ concat (entry_bytes <$> btree_map (st_kinds s)) ++
  to_be_bytes (Z.of_nat (size (st_refs s))) ++ concat (entry_bytes <$> btree_map (st_refs s)) ++
  to_be_bytes (zlen (st_issues s)) ++ concat (issue_bytes <$> st_issues s).

Lemma encode_app s out : encode s out = out ++ state_bytes s.
Proof.
  unfold encode, push_u64, state_bytes.
  rewrite !(fold_left_concat entry_bytes encode_entry) by apply encode_entry_app.
  rewrite (fold_left_concat issue_bytes encode_issue) by apply encode_issue_app.
  by rewrite <- !app_assoc.
Qed.

Lemma length_btree_map {V} (m : gmap string V) : length (btree_map m) = size m.
Proof. unfold btree_map. by rewrite length_sort_by, length_map_to_list. Qed.

Lemma valid_entries (m : gmap string Z) :
  map_Forall (λ k v, valid_entry (k, v)) m → Forall valid_entry (btree_map m).
Proof.
  intros H. apply Forall_forall. intros [k v] Hin%elem_of_btree_map. by apply H.
Qed.

(** A counted map encodes unambiguously. *)
Lemma btree_prefix_free (m n : gmap string Z) r r' :
  u64 (Z.of_nat (size m)) → u64 (Z.of_nat (size n)) →
  map_Forall (λ k v, valid_entry (k, v)) m → map_Forall (λ k v, valid_entry (k, v)) n →
  to_be_bytes (Z.of_nat (size m)) ++ concat (entry_bytes <$> btree_map m) ++ r =
  to_be_bytes (Z.of_nat (size n)) ++ concat (entry_bytes <$> btree_map n) ++ r' →
  m = n ∧ r = r'.
Proof.
  intros Hm Hn Vm Vn H. apply prefix_free in H as [Hlen%Nat2Z.inj H]; [|done..].
  apply (concat_prefix_free valid_entry) in H as [?%btree_map_inj ->];
    [done|apply _|by apply valid_entries..|by rewrite !length_btree_map].
Qed.

Lemma state_bytes_inj s t : valid_state s → valid_state t → state_bytes s = state_bytes t → s = t.
Proof.
  intros [] [] E. unfold state_bytes in E.
  do 5 (apply prefix_free in E as [? E]; [|done..]).
  apply btree_prefix_free in E as [? E]; [|done..].
  apply btree_prefix_free in E as [? E]; [|done..].
  apply prefix_free in E as [Hlen%Nat2Z.inj E]; [|done..].
  rewrite <- (app_nil_r (concat (_ <$> st_issues s))), <- (app_nil_r (concat (_ <$> st_issues t))) in E.
  apply (concat_prefix_free valid_issue) in E as [? _]; [|apply _|done..].
  destruct s, t; cbn in *; by subst.
Qed.

(** ** Properties *)

(** C2. Folding an event log computes its ledger: the state ends at the
    position (sequence, revision) the accepted rows lead to, [rows] counts all
    rows, [accepted] and [rejected] split them, and [kinds] and [refs] map
    exactly the kinds and artifact references of the accepted rows to their
    number of occurrences.  The bound says that no [u64] counter can overflow. *)
Theorem fold_refines_ledger (events : list EventRow) :
  log_weight events ≤ u64_max →
  let s := fold_events events in
  let '(p, acc) := ledger (0, 0) events in
  (st_sequence s, st_revision s) = p ∧
  st_rows s = zlen events ∧ st_accepted s = zlen acc ∧ st_rejected s = zlen events - zlen acc ∧
  (∀ k, st_kinds s !! k = tally k (ev_kind <$> acc)) ∧
  (∀ r, st_refs s !! r = tally r (concat (ev_artifact_refs <$> acc))).
Proof.
  intros Hw s. pose proof (fold_events_agrees events Hw) as H.
  destruct (ledger (0, 0) events) as [p acc]. by destruct H.
Qed.

(** C29. A log folds to a state without issues exactly when every row continues
    it: the sequence numbers are 1, 2, 3, ... and every row names the revision
    the row before it left. *)
Theorem fold_clean_iff_chained (events : list EventRow) :
  log_weight events ≤ u64_max →
  st_issues (fold_events events) = [] ↔ chained (0, 0) events.
Proof.
  intros Hw. pose proof (fold_events_agrees events Hw) as H.
  rewrite <- ledger_all_accepted. destruct (ledger (0, 0) events) as [p acc].
  apply (ag_issues _ _ _ _ H).
Qed.

(** C28. The byte encoding that is hashed determines the state: two valid states
    with the same encoding are equal. *)
Theorem encode_injective (s t : State) :
  valid_state s → valid_state t → encode s [] = encode t [] → s = t.
Proof. rewrite !encode_app. apply state_bytes_inj. Qed.

(** *** Witnesses *)

Definition demo_row (seq prev new : Z) (kind : string) (refs : list string) : EventRow :=
  {| ev_sequence := seq; ev_previous_revision := prev; ev_new_revision := new;
     ev_kind := kind; ev_artifact_refs := refs |}.
Definition demo_log : list EventRow :=
  [demo_row 1 0 1 "issued" ["a"]; demo_row 3 1 2 "issued" ["b"]; demo_row 4 1 2 "done" ["a"; "b"]].

Lemma fold_refines_ledger_witness :
  log_weight demo_log ≤ u64_max ∧ st_accepted (fold_events demo_log) = 2 ∧
  st_refs (fold_events demo_log) !! "a" = tally "a" ["a"; "a"; "b"].
Proof.
  assert (Hw : log_weight demo_log ≤ u64_max) by (vm_compute; discriminate).
  pose proof (fold_refines_ledger demo_log Hw) as H.
  split; [exact Hw|]. split; [apply H|]. apply H.
Defined.

Lemma fold_clean_iff_chained_witness :
  st_issues (fold_events [demo_row 1 0 1 "issued" []; demo_row 2 1 2 "done" ["a"]]) = [].
Proof.
  apply fold_clean_iff_chained; [vm_compute; discriminate|].
  repeat split; vm_compute; reflexivity.
Defined.

Lemma encode_injective_witness :
  valid_state EMPTY ∧ fold_events [] = EMPTY.
Proof.
  assert (HE : valid_state EMPTY).
  { split;
      lazymatch goal with
      | |- u64 _ => split; vm_compute; discriminate
      | |- Forall _ _ => constructor
      | |- _ => apply map_Forall_empty
      end. }
  split; [exact HE|]. apply encode_injective; [exact HE|exact HE|vm_compute; reflexivity].
Defined.
