(* ===== verification/Log.v ===== *)
(** * Appending to the event log and replaying it from a cache

    [kernel/src/log.rs]: the row planned for the next append, the cache image
    of a state, and the replay that starts from a cache only after it has
    checked it against the log. *)

From S2P Require Import Prelude RustColl RustStr Generated State.

Record CacheImage := { ci_state : State; ci_cache : StateCache }.

Inductive LogEffect :=
| Append (row : EventRow)
| Store (image : CacheImage).

Inductive AppendRefusal := RefusedSequenceOverflow | RefusedRevisionOverflow.

Inductive AppendPlan :=
| Write (effect : LogEffect)
| Refused (why : AppendRefusal).

Inductive ReplayUse := Full | Cache.

Record Replay := { rp_state : State; rp_used : ReplayUse }.

Definition plan_append (state : State) (kind : EventKind) (artifact_refs : list Ref) : AppendPlan :=
  match checked_add u64_max (st_sequence state) 1 with
  | None => Refused RefusedSequenceOverflow
  | Some sequence =>
      match checked_add u64_max (st_revision state) 1 with
      | None => Refused RefusedRevisionOverflow
      | Some new_revision =>
          Write (Append {| ev_sequence := sequence;
                           ev_previous_revision := st_revision state;
                           ev_new_revision := new_revision;
                           ev_kind := kind;
                           ev_artifact_refs := artifact_refs |})
      end
  end.

Section Replay.
(** SHA-256 (crate [sha2]). *)
Variable sha256 : list Z → list Z.

Definition image_of (state : State) : CacheImage :=
  {| ci_state := state;
     ci_cache := {| sc_sequence := st_sequence state;
                    sc_state_hash := state_hash sha256 state |} |}.
Definition cache_image (state : State) : LogEffect := Store (image_of state).

Definition verified_replay (events : list EventRow) (image : CacheImage) : option State :=
  if negb (st_sequence (ci_state image) =? sc_sequence (ci_cache image)) then None else
  if negb (state_hash sha256 (ci_state image) =s sc_state_hash (ci_cache image)) then None else
  (* [usize::try_from] of a [u64] cannot fail on a 64-bit target *)
  if zlen events <? st_rows (ci_state image) then None else
  let row_count := Z.to_nat (st_rows (ci_state image)) in
  let prefix := fold_all (take row_count events) in
  if negb (prefix =s ci_state image)
     || negb (state_hash sha256 prefix =s sc_state_hash (ci_cache image))
  then None
  else Some (fold_left apply (drop row_count events) (ci_state image)).

Definition replay (events : list EventRow) (cache : option CacheImage) : Replay :=
  match cache with
  | Some image =>
      match verified_replay events image with
      | Some state => {| rp_state := state; rp_used := Cache |}
      | None => {| rp_state := fold_all events; rp_used := Full |}
      end
  | None => {| rp_state := fold_all events; rp_used := Full |}
  end.

Lemma verified_replay_sound events image s :
  verified_replay events image = Some s → s = fold_all events.
Proof.
  unfold verified_replay. remember (Z.to_nat (st_rows (ci_state image))) as n eqn:Hn. clear Hn.
  repeat (case_match; [done|]). intros [= <-]. to_prop.
  match goal with H : fold_all _ = ci_state image |- _ => rewrite <- H end.
  unfold fold_all. rewrite <- fold_left_app. by rewrite take_drop.
Qed.

(** C1. A cache is disposable: whatever image is found beside the log (stale,
    damaged, of another run, or none), replay returns the state the whole
    log folds to. *)
Theorem replay_is_fold (events : list EventRow) (cache : option CacheImage) :
  rp_state (replay events cache) = fold_all events.
Proof.
  unfold replay. destruct cache as [image|]; [|done].
  destruct (verified_replay events image) eqn:H; [|done].
  by apply verified_replay_sound in H.
Qed.

(** The cache is used when it is good: the image stored after any prefix
    of the log is accepted, so replay folds only the remaining rows. *)
Theorem replay_uses_cache (prefix rest : list EventRow) :
  log_weight prefix ≤ u64_max →
  ∃ image, cache_image (fold_all prefix) = Store image ∧
  replay (prefix ++ rest) (Some image) =
  {| rp_state := fold_left apply rest (fold_all prefix); rp_used := Cache |}.
Proof.
  intros Hw. pose proof (fold_events_agrees prefix Hw) as H.
  destruct (ledger (0, 0) prefix) as [p acc]. apply ag_rows in H.
  change (fold_events prefix) with (fold_all prefix) in H.
  eexists; split; [done|]. unfold replay, verified_replay, image_of. cbn. rewrite Z.eqb_refl, H. cbn.
  rewrite bool_decide_true by done. cbn. pose proof (zlen_nonneg rest).
  destruct (Z.ltb_spec (zlen (prefix ++ rest)) (zlen prefix)) as [Hlt|_].
  { rewrite zlen_app in Hlt. lia. }
  unfold zlen. rewrite Nat2Z.id, take_app_length, drop_app_length.
  by rewrite !bool_decide_true.
Qed.
End Replay.

(** ** Building a log by planned appends *)

Definition request : Type := EventKind * list Ref.

(** Every append is planned against the fold of the log so far. *)
Fixpoint append_all (log : list EventRow) (reqs : list request) : result AppendRefusal (list EventRow) :=
  match reqs with
  | [] => Ok log
  | (kind, refs) :: reqs' =>
      match plan_append (fold_all log) kind refs with
      | Write (Append row) => append_all (log ++ [row]) reqs'
      | Write (Store _) => append_all log reqs'
      | Refused why => Err why
      end
  end.

Definition requests_weight (reqs : list request) : Z := zlen reqs + zlen (concat reqs.*2).

(** A log of planned rows: chained, at position (n, n) after n rows. *)
Record planned (log : list EventRow) : Prop := {
  pl_chained : chained (0, 0) log;
  pl_pos : (ledger (0, 0) log).1 = (zlen log, zlen log);
}.

Lemma ledger_snoc p log e :
  ledger p (log ++ [e]) =
  let '(q, acc) := ledger p log in
  let '(q', ok) := ledger_step q e in (q', if ok : bool then acc ++ [e] else acc).
Proof.
  revert p. induction log as [|x log IH]; intros p; cbn.
  { by destruct (ledger_step p e) as [? []]. }
  destruct (ledger_step p x) as [p' []]; rewrite IH; destruct (ledger p' log) as [q acc];
    by destruct (ledger_step q e) as [? []].
Qed.

Lemma chained_snoc log e : ∀ p,
  chained p log → chained (ledger p log).1 [e] → chained p (log ++ [e]).
Proof.
  induction log as [|x log IH]; intros p; cbn; [done|].
  intros (Hs & Hr & Hb & Hc). unfold ledger_step.
  rewrite (proj2 (Z.eqb_eq _ _) Hs), (proj2 (Z.eqb_eq _ _) Hr), (proj2 (Z.ltb_lt _ _) Hb). cbn.
  specialize (IH _ Hc). destruct (ledger _ log) as [q acc]. cbn. intros He. naive_solver.
Qed.

Lemma log_weight_snoc log e :
  log_weight (log ++ [e]) = log_weight log + 1 + zlen (ev_artifact_refs e).
Proof.
  unfold log_weight. rewrite fmap_app, concat_app, !zlen_app. cbn. rewrite app_nil_r.
  rewrite zlen_cons, zlen_nil. lia.
Qed.

Lemma fold_planned_pos log :
  planned log → log_weight log ≤ u64_max →
  st_sequence (fold_all log) = zlen log ∧ st_revision (fold_all log) = zlen log.
Proof.
  intros [_ Hpos] Hw. pose proof (fold_events_agrees log Hw) as H.
  destruct (ledger (0, 0) log) as [q acc]. cbn in Hpos. subst.
  apply ag_pos in H. injection H. done.
Qed.

(** The planned row continues a planned log. *)
Lemma plan_append_planned log kind refs :
  planned log → log_weight log + 1 + zlen refs ≤ u64_max →
  ∃ row, plan_append (fold_all log) kind refs = Write (Append row) ∧
    ev_kind row = kind ∧ ev_artifact_refs row = refs ∧ planned (log ++ [row]).
Proof.
  intros Hp Hw. pose proof (zlen_nonneg refs).
  assert (Hlen : zlen log ≤ log_weight log).
  { unfold log_weight. pose proof (zlen_nonneg (concat (ev_artifact_refs <$> log))). lia. }
  destruct (fold_planned_pos log Hp ltac:(lia)) as [Hs Hr].
  unfold plan_append, checked_add. rewrite Hs, Hr.
  destruct (Z.leb_spec (zlen log + 1) u64_max); [|lia].
  eexists; split_and!; [done..|]. destruct Hp as [Hc Hpos]. split.
  - apply chained_snoc; [done|]. rewrite Hpos. cbn. repeat split; lia.
  - rewrite ledger_snoc. destruct (ledger (0, 0) log) as [q acc]. cbn in Hpos. subst q.
    unfold ledger_step. cbn. rewrite !Z.eqb_refl.
    rewrite (proj2 (Z.ltb_lt (zlen log) u64_max)) by lia. cbn. rewrite zlen_app. done.
Qed.

Lemma append_all_planned reqs : ∀ log,
  planned log → log_weight log + requests_weight reqs ≤ u64_max →
  ∃ log', append_all log reqs = Ok log' ∧ planned log' ∧
    zlen log' = zlen log + zlen reqs ∧ log_weight log' ≤ u64_max ∧
    map (λ e, (ev_kind e, ev_artifact_refs e)) log' =
      map (λ e, (ev_kind e, ev_artifact_refs e)) log ++ reqs.
Proof.
  induction reqs as [|[kind refs] reqs IH]; intros log Hp Hw; cbn [append_all].
  { exists log. rewrite app_nil_r. change (requests_weight []) with 0 in Hw. change (zlen []) with 0.
    split_and!; (done || lia). }
  unfold requests_weight in Hw. cbn [fmap list_fmap concat snd] in Hw.
  rewrite zlen_cons, zlen_app in Hw.
  pose proof (zlen_nonneg reqs). pose proof (zlen_nonneg (concat reqs.*2)).
  destruct (plan_append_planned log kind refs Hp ltac:(lia)) as (row & -> & Hk & Hr & Hp').
  destruct (IH (log ++ [row]) Hp') as (log' & -> & ? & Hlen & Hw' & Hmap).
  { rewrite log_weight_snoc, Hr. unfold requests_weight. lia. }
  exists log'. rewrite Hlen, Hmap, map_app, zlen_app, <- app_assoc, !zlen_cons. cbn [map app].
  rewrite Hk, Hr, zlen_nil. split_and!; (done || lia).
Qed.

(** A log that is only written through [plan_append], each append planned
    against the fold of the log so far, is never refused below the [u64]
    bounds, holds exactly the requested kinds and references in order, and
    folds to a state without issues whose sequence and revision are the number
    of rows. *)
Theorem planned_log_is_clean (reqs : list request) :
  requests_weight reqs ≤ u64_max →
  ∃ log, append_all [] reqs = Ok log ∧
    map (λ e, (ev_kind e, ev_artifact_refs e)) log = reqs ∧
    st_issues (fold_all log) = [] ∧ st_rejected (fold_all log) = 0 ∧
    st_sequence (fold_all log) = zlen reqs ∧ st_revision (fold_all log) = zlen reqs.
Proof.
  intros Hw. destruct (append_all_planned reqs []) as (log & Hlog & Hp & Hlen & Hwl & Hmap).
  { done. } { exact Hw. }
  exists log. destruct (fold_planned_pos log Hp Hwl) as [-> ->].
  pose proof (fold_events_agrees log Hwl) as Hag. destruct Hp as [Hc _].
  apply ledger_all_accepted in Hc. destruct (ledger (0, 0) log) as [q acc]. cbn in Hc.
  rewrite zlen_nil in Hlen. pose proof (ag_rejected _ _ _ _ Hag) as Hrej.
  pose proof (proj2 (ag_issues _ _ _ _ Hag) Hc) as Hi. unfold fold_all, fold_events in *.
  split_and!; (done || lia).
Qed.

(** *** Witnesses *)

Lemma replay_uses_cache_witness :
  ∃ image, replay (λ bytes, take 4 bytes) (demo_log ++ [demo_row 5 2 3 "done" []]) (Some image) =
    {| rp_state := fold_left apply [demo_row 5 2 3 "done" []] (fold_all demo_log); rp_used := Cache |}.
Proof.
  destruct (replay_uses_cache (λ bytes, take 4 bytes) demo_log [demo_row 5 2 3 "done" []])
    as (image & _ & H); [vm_compute; discriminate|].
  exists image. exact H.
Defined.

Lemma planned_log_is_clean_witness :
  ∃ log, append_all [] [("issued", ["a"]); ("done", ["a"; "b"])] = Ok log ∧
    st_sequence (fold_all log) = 2.
Proof.
  destruct (planned_log_is_clean [("issued", ["a"]); ("done", ["a"; "b"])]) as (log & H);
    [vm_compute; discriminate|].
  exists log. split; [apply H | apply H].
Defined.
