(* ===== verification/Boundary.v ===== *)
(** * Acceptance boundaries

    [kernel/src/boundary.rs] and [boundary_runtime] of
    [drivers/src/roles/kdl.rs]: a boundary either records or enforces.  At run
    time it may move from recording to enforcing and never back. *)

From S2P Require Import Prelude.

Inductive Producer :=
| PModel | PVersionControl | POperator | PFilesystem | PProvider | PBackgroundTask | PPackage | PHost.

Inductive BoundaryMode := Record_ | Enforce.

Record Rejection := {
  rj_boundary_id : string;
  rj_expected : string;
  rj_actual : string;
  rj_producer_visible : bool;
}.

Record BoundaryDescriptor := {
  bd_id : string;
  bd_producer : Producer;
  bd_admits : string;
  bd_mode : BoundaryMode;
}.

(** A [&'static BoundaryDescriptor]: the static's address and its contents. *)
Record StaticRef := { sr_addr : nat; sr_descriptor : BoundaryDescriptor }.

#[global] Instance Producer_eq_dec : EqDecision Producer.
Proof. solve_decision. Defined.
#[global] Instance BoundaryMode_eq_dec : EqDecision BoundaryMode.
Proof. solve_decision. Defined.
#[global] Instance Rejection_eq_dec : EqDecision Rejection.
Proof. solve_decision. Defined.
#[global] Instance BoundaryDescriptor_eq_dec : EqDecision BoundaryDescriptor.
Proof. solve_decision. Defined.

Definition from_registered (d : BoundaryDescriptor) (actual : string) : Rejection :=
  {| rj_boundary_id := bd_id d; rj_expected := bd_admits d;
     rj_actual := actual; rj_producer_visible := true |}.

Record BoundaryRuntime := { br_descriptor : StaticRef; br_mode : BoundaryMode }.

Inductive BoundaryTransitionError := EnforceToRecordRefused (id : string).
Inductive BoundaryRegistrationError := NotRegistered (id : string).

Definition runtime_id (r : BoundaryRuntime) : string := bd_id (sr_descriptor (br_descriptor r)).

Definition flip_to_enforce (r : BoundaryRuntime) : BoundaryRuntime :=
  {| br_descriptor := br_descriptor r; br_mode := Enforce |}.

Definition flip_to_record (r : BoundaryRuntime) : result BoundaryTransitionError unit :=
  match br_mode r with
  | Record_ => Ok tt
  | Enforce => Err (EnforceToRecordRefused (runtime_id r))
  end.

Definition reject (r : BoundaryRuntime) (actual : string) : result Rejection unit :=
  match br_mode r with
  | Record_ => Ok tt
  | Enforce => Err (from_registered (sr_descriptor (br_descriptor r)) actual)
  end.

(** The slice of registered boundaries is filled by the linker: a parameter. *)
Section Registry.
Variable BOUNDARIES : list StaticRef.

Definition is_registered (d : StaticRef) : bool :=
  any (λ registered, Nat.eqb (sr_addr registered) (sr_addr d)) BOUNDARIES.

Definition boundary_by_id (id : string) : option StaticRef :=
  find_first (λ d, bd_id (sr_descriptor d) =s id) BOUNDARIES.

Definition runtime_new (d : StaticRef) : result BoundaryRegistrationError BoundaryRuntime :=
  if is_registered d
  then Ok {| br_descriptor := d; br_mode := bd_mode (sr_descriptor d) |}
  else Err (NotRegistered (bd_id (sr_descriptor d))).

(** [boundary_runtime]: [None] is the panic. *)
Definition boundary_runtime (id : string) : option BoundaryRuntime :=
  d ← boundary_by_id id;
  match runtime_new d with Ok r => Some r | Err _ => None end.

Lemma boundary_runtime_some id r :
  boundary_runtime id = Some r → runtime_id r = id ∧ br_mode r = bd_mode (sr_descriptor (br_descriptor r)).
Proof.
  unfold boundary_runtime. intros (d & Hd & Hr)%bind_Some.
  apply find_first_some in Hd as [_ Hid]. to_prop.
  unfold runtime_new in Hr. destruct (is_registered d); simplify_eq. done.
Qed.

Lemma boundary_runtime_registered id d :
  d ∈ BOUNDARIES → bd_id (sr_descriptor d) = id → is_Some (boundary_runtime id).
Proof.
  intros Hin Hid. unfold boundary_runtime, boundary_by_id.
  destruct (find_first _ BOUNDARIES) as [d'|] eqn:Hf.
  - apply find_first_some in Hf as [Hin' _]. cbn. unfold runtime_new, is_registered.
    assert (any (λ registered, Nat.eqb (sr_addr registered) (sr_addr d')) BOUNDARIES = true) as ->.
    { apply any_spec. exists d'. by rewrite Nat.eqb_refl. }
    by eexists.
  - rewrite find_first_none in Hf. specialize (Hf d Hin). to_prop. done.
Qed.
End Registry.

(** [boundary_runtime(ID).reject(actual)] for a boundary that the
    [acceptance_boundary] macro declares with descriptor [d]: what the runtime
    of a linked registry answers (see [reject_declared_correct]). *)
Definition reject_declared (d : BoundaryDescriptor) (actual : string) : result Rejection unit :=
  match bd_mode d with
  | Record_ => Ok tt
  | Enforce => Err (from_registered d actual)
  end.

Lemma reject_declared_correct BOUNDARIES (s : StaticRef) actual :
  s ∈ BOUNDARIES → NoDup (map (bd_id ∘ sr_descriptor) BOUNDARIES) →
  ∃ r, boundary_runtime BOUNDARIES (bd_id (sr_descriptor s)) = Some r ∧
       reject r actual = reject_declared (sr_descriptor s) actual.
Proof.
  intros Hin Hnd. unfold boundary_runtime, boundary_by_id.
  destruct (find_first _ BOUNDARIES) as [d|] eqn:Hf.
  2:{ rewrite find_first_none in Hf. specialize (Hf s Hin). to_prop. done. }
  apply find_first_some in Hf as [Hd Hid]. to_prop.
  assert (d = s) as ->.
  { clear actual. induction BOUNDARIES as [|x l IH]; [set_solver|]. cbn in Hnd.
    apply NoDup_cons in Hnd as [Hx Hnd]. apply elem_of_cons in Hin as [->|Hin], Hd as [->|Hd]; auto.
    - exfalso. apply Hx. apply list_elem_of_fmap. exists d. by split.
    - exfalso. apply Hx. apply list_elem_of_fmap. exists s. by split. }
  cbn. unfold runtime_new, is_registered.
  assert (any (λ registered, Nat.eqb (sr_addr registered) (sr_addr s)) BOUNDARIES = true) as ->.
  { apply any_spec. exists s. by rewrite Nat.eqb_refl. }
  eexists; split; [done|]. done.
Qed.

(** ** Runs of a boundary *)

Inductive boundary_op := OpFlipToEnforce | OpFlipToRecord | OpReject (actual : string).
Inductive boundary_answer :=
| AnsDone
| AnsFlip (r : result BoundaryTransitionError unit)
| AnsReject (r : result Rejection unit).

Definition boundary_step (r : BoundaryRuntime) (op : boundary_op) : BoundaryRuntime * boundary_answer :=
  match op with
  | OpFlipToEnforce => (flip_to_enforce r, AnsDone)
  | OpFlipToRecord => (r, AnsFlip (flip_to_record r))
  | OpReject actual => (r, AnsReject (reject r actual))
  end.

Fixpoint boundary_run (r : BoundaryRuntime) (ops : list boundary_op)
  : BoundaryRuntime * list boundary_answer :=
  match ops with
  | [] => (r, [])
  | op :: ops' =>
      let '(r', a) := boundary_step r op in
      let '(r'', answers) := boundary_run r' ops' in
      (r'', a :: answers)
  end.

(** Enforcement is one-way: from an enforcing boundary, whatever operations
    follow, the boundary keeps enforcing, every attempt to go back to recording
    is refused with its id, and every rejected value produces a rejection that
    carries the boundary's id, the text of what it admits and the value, and is
    visible to the producer. *)
Theorem enforce_is_one_way (r : BoundaryRuntime) (ops : list boundary_op) :
  br_mode r = Enforce →
  let '(r', answers) := boundary_run r ops in
  r' = r ∧
  Forall2 (λ op a,
    match op with
    | OpFlipToEnforce => a = AnsDone
    | OpFlipToRecord => a = AnsFlip (Err (EnforceToRecordRefused (runtime_id r)))
    | OpReject actual =>
        a = AnsReject (Err {| rj_boundary_id := runtime_id r;
                              rj_expected := bd_admits (sr_descriptor (br_descriptor r));
                              rj_actual := actual; rj_producer_visible := true |})
    end) ops answers.
Proof.
  intros Hm. induction ops as [|op ops IH]; cbn; [by split; [|constructor]|].
  assert (Hstep : (boundary_step r op).1 = r).
  { destruct op; cbn; [|done..]. unfold flip_to_enforce. destruct r; cbn in *. by subst. }
  destruct (boundary_step r op) as [r' a] eqn:Hs. cbn in Hstep. subst r'.
  destruct (boundary_run r ops) as [r'' answers]. destruct IH as [-> IH].
  split; [done|]. constructor; [|done].
  destruct op; cbn in Hs; unfold flip_to_record, reject in Hs; rewrite ?Hm in Hs; by simplify_eq.
Qed.

Lemma enforce_is_one_way_witness :
  let d := {| sr_addr := 0; sr_descriptor :=
    {| bd_id := "b.v1"; bd_producer := PPackage; bd_admits := "x"; bd_mode := Enforce |} |} in
  let r := {| br_descriptor := d; br_mode := Enforce |} in
  (boundary_run r [OpFlipToRecord; OpFlipToEnforce; OpFlipToRecord]).1 = r.
Proof.
  intros d r. pose proof (enforce_is_one_way r [OpFlipToRecord; OpFlipToEnforce; OpFlipToRecord]
                            eq_refl) as H.
  apply H.
Defined.
