(* ===== verification/Schedule.v ===== *)
(** * Dispatch order

    [kernel/src/schedule.rs]: which work items are launched, in which order,
    under a parallelism cap for one capacity class and under resource
    pressure. *)

From S2P Require Import Prelude RustColl.

Definition DEFAULT_PARALLEL_CAP : Z := 8.
Definition GIB : Z := 1024 * 1024 * 1024.
Definition STORAGE_FLOOR_BYTES : Z := 5 * GIB.
Definition MEMORY_FLOOR_BYTES : Z := 2 * GIB.

Inductive PressurePolicy := DelayWhenPressed | PermitWhenPressed.

Record ReadinessFacts := {
  predecessor_gates_met : bool;
  blockers_clear : bool;
  unit_free : bool;
  base_ready : bool;
  route_ready : bool;
  preflight_passed : bool;
}.

Definition all_met (f : ReadinessFacts) : bool :=
  predecessor_gates_met f && blockers_clear f && unit_free f && base_ready f &&
  route_ready f && preflight_passed f.

Record ResourceFacts := {
  free_storage_bytes : Z;
  projected_storage_bytes : Z;
  available_memory_bytes : Z;
  physical_memory_bytes : Z;
}.

Definition storage_floor (projected : Z) : Z :=
  Z.max STORAGE_FLOOR_BYTES (saturating_mul u64_max projected 2).
Definition memory_floor (physical : Z) : Z := Z.max MEMORY_FLOOR_BYTES (physical / 10).

Definition pressed (r : ResourceFacts) : bool :=
  (free_storage_bytes r <? storage_floor (projected_storage_bytes r)) ||
  (available_memory_bytes r <? memory_floor (physical_memory_bytes r)).

Record WorkItem := {
  wi_id : string;
  wi_capacity_class : string;
  wi_launch_wave : Z;
  wi_remaining_dependency_path : Z;
  wi_unit_order : Z;
  wi_readiness : ReadinessFacts;
  wi_pressure_policy : PressurePolicy;
}.

Record SchedulePolicy := { parallel_cap : Z; capped_class : string }.

Definition with_default_cap (capped_class : string) : SchedulePolicy :=
  {| parallel_cap := DEFAULT_PARALLEL_CAP; capped_class := capped_class |}.

Record ScheduleView := {
  sv_policy : SchedulePolicy;
  sv_active_capped : Z;
  sv_resources : ResourceFacts;
  sv_items : list WorkItem;
}.

Definition compare_items : WorkItem → WorkItem → comparison :=
  cmp_then (cmp_on wi_launch_wave Z.compare)
    (cmp_then (cmp_rev (cmp_on wi_remaining_dependency_path Z.compare))
       (cmp_then (cmp_on wi_unit_order Z.compare)
          (cmp_on wi_id String.compare))).

Definition resources_allow (policy : PressurePolicy) (resources : ResourceFacts) : bool :=
  match policy with
  | DelayWhenPressed => negb (pressed resources)
  | PermitWhenPressed => true
  end.

(** One turn of the selection loop: the open slots and the ids so far. *)
Definition select_step (capped_class : string) (acc : Z * list string) (item : WorkItem)
  : Z * list string :=
  let '(capped_open, selected) := acc in
  if wi_capacity_class item =s capped_class then
    if capped_open =? 0 then (capped_open, selected)
    else (capped_open - 1, selected ++ [wi_id item])
  else (capped_open, selected ++ [wi_id item]).

Definition eligible (view : ScheduleView) (item : WorkItem) : bool :=
  all_met (wi_readiness item) && resources_allow (wi_pressure_policy item) (sv_resources view).

Definition dispatch_order (view : ScheduleView) : list string :=
  let ordered := sort_by compare_items (filter (λ item, eligible view item = true) (sv_items view)) in
  let capped_open := saturating_sub (parallel_cap (sv_policy view)) (sv_active_capped view) in
  (fold_left (select_step (capped_class (sv_policy view))) ordered (capped_open, [])).2.

(** ** What is selected *)

(** The free slots of the capped class. *)
Definition open_slots (view : ScheduleView) : Z :=
  saturating_sub (parallel_cap (sv_policy view)) (sv_active_capped view).
Definition capped (view : ScheduleView) (item : WorkItem) : Prop :=
  wi_capacity_class item = capped_class (sv_policy view).
#[global] Instance capped_dec view item : Decision (capped view item).
Proof. unfold capped. apply _. Defined.

#[global] Instance compare_items_total : TotalCmp compare_items.
Proof. unfold compare_items. apply _. Qed.

Lemma select_spec view (items : list WorkItem) : ∀ (n : nat) acc,
  ∃ sel, (fold_left (select_step (capped_class (sv_policy view))) items (Z.of_nat n, acc)).2
           = acc ++ map wi_id sel ∧
    sel `sublist_of` items ∧
    filter (capped view) sel = take n (filter (capped view) items) ∧
    filter (λ i, ¬ capped view i) sel = filter (λ i, ¬ capped view i) items.
Proof.
  induction items as [|i items IH]; intros n acc; cbn [fold_left].
  { exists []. rewrite app_nil_r. by destruct n. }
  unfold select_step at 2. destruct (decide (capped view i)) as [Hc|Hc].
  - unfold capped in Hc. rewrite bool_decide_true by done. destruct n as [|n].
    + destruct (Z.eqb_spec (Z.of_nat 0) 0); [|lia].
      destruct (IH 0%nat acc) as (sel & -> & ? & H1 & H2). exists sel. rewrite !filter_cons. rewrite decide_True, decide_False by (auto; tauto).
      split_and!; [done| by constructor | by rewrite H1 | done].
    + destruct (Z.eqb_spec (Z.of_nat (S n)) 0); [lia|].
      replace (Z.of_nat (S n) - 1) with (Z.of_nat n) by lia.
      destruct (IH n (acc ++ [wi_id i])) as (sel & -> & ? & H1 & H2).
      exists (i :: sel). rewrite <- app_assoc. rewrite !filter_cons.
      rewrite !(decide_True (P := capped view i)), !(decide_False (P := ¬ capped view i)) by tauto.
      cbn. rewrite H1, H2. split_and!; [done | by constructor | done..].
  - unfold capped in Hc. rewrite bool_decide_false by done.
    destruct (IH n (acc ++ [wi_id i])) as (sel & -> & ? & H1 & H2).
    exists (i :: sel). rewrite <- app_assoc, !filter_cons.
    rewrite !(decide_False (P := capped view i)), !(decide_True (P := ¬ capped view i)) by done.
    rewrite H1, H2. split_and!; [done | by constructor | done..].
Qed.

Definition ordered (view : ScheduleView) : list WorkItem :=
  sort_by compare_items (filter (λ item, eligible view item = true) (sv_items view)).

Lemma dispatch_select view :
  ∃ sel, dispatch_order view = map wi_id sel ∧ sel `sublist_of` ordered view ∧
    filter (capped view) sel = take (Z.to_nat (open_slots view)) (filter (capped view) (ordered view)) ∧
    filter (λ i, ¬ capped view i) sel = filter (λ i, ¬ capped view i) (ordered view).
Proof.
  destruct (select_spec view (ordered view) (Z.to_nat (open_slots view)) []) as (sel & H & ?).
  exists sel. rewrite Z2Nat.id in H by (unfold open_slots, saturating_sub; lia). done.
Qed.

Lemma StronglySorted_sublist {A} (R : relation A) l k :
  l `sublist_of` k → StronglySorted R k → StronglySorted R l.
Proof.
  induction 1 as [|x l k Hlk IH|x l k Hlk IH]; intros Hs; [done|..];
    apply StronglySorted_inv in Hs as [Hs Hx]; [|by apply IH].
  constructor; [by apply IH|]. rewrite Forall_forall in *. intros y Hy.
  apply Hx. by eapply elem_of_sublist.
Qed.

Lemma ordered_sorted view : StronglySorted (cmp_le compare_items) (ordered view).
Proof. apply sort_by_sorted, _. Qed.

Lemma elem_of_ordered view i : i ∈ ordered view ↔ i ∈ sv_items view ∧ eligible view i = true.
Proof. unfold ordered. rewrite elem_of_sort_by, list_elem_of_filter. tauto. Qed.

(** C13. Dispatch is safe and greedy.  The launched ids belong to items of the
    view that are ready and allowed under the current resource pressure, in
    the order of wave, longest remaining path, unit order and id; together
    with the active ones the launched items of the capped class stay within
    the cap; and an eligible item is passed over only if it belongs to the
    capped class, every free slot is taken, and each slot is taken by an item
    that comes before it in that order. *)
Theorem dispatch_order_correct (view : ScheduleView) :
  ∃ sel, dispatch_order view = map wi_id sel ∧
    StronglySorted (cmp_le compare_items) sel ∧
    (∀ i, i ∈ sel → i ∈ sv_items view ∧ all_met (wi_readiness i) = true ∧
       resources_allow (wi_pressure_policy i) (sv_resources view) = true) ∧
    zlen (filter (capped view) sel) + sv_active_capped view ≤
      Z.max (parallel_cap (sv_policy view)) (sv_active_capped view) ∧
    (∀ i, i ∈ sv_items view → eligible view i = true → i ∉ sel →
       capped view i ∧ zlen (filter (capped view) sel) = open_slots view ∧
       ∀ j, j ∈ sel → capped view j → cmp_le compare_items j i).
Proof.
  destruct (dispatch_select view) as (sel & Hd & Hsub & Hcap & Hun). exists sel.
  pose proof (StronglySorted_sublist _ _ _ Hsub (ordered_sorted view)) as Hsorted.
  assert (Hopen : 0 ≤ open_slots view) by (unfold open_slots, saturating_sub; lia).
  split_and!; [done|done|..].
  - intros i Hi. eapply elem_of_sublist in Hi; [|done].
    apply elem_of_ordered in Hi as [? He]. unfold eligible in He. to_prop. done.
  - rewrite Hcap. unfold zlen. rewrite length_take.
    unfold open_slots, saturating_sub in *. lia.
  - intros i Hi He Hni. assert (Ho : i ∈ ordered view) by by apply elem_of_ordered.
    assert (Hci : capped view i).
    { apply dec_stable. intros Hc. apply Hni.
      assert (Hin : i ∈ filter (λ i, ¬ capped view i) (ordered view)) by by apply list_elem_of_filter.
      rewrite <- Hun in Hin. by apply list_elem_of_filter in Hin as [_ ?]. }
    set (n := Z.to_nat (open_slots view)) in *. set (F := filter (capped view) (ordered view)) in *.
    assert (HiF : i ∈ take n F ++ drop n F) by (rewrite take_drop; by apply list_elem_of_filter).
    apply elem_of_app in HiF as [HiF|HiF].
    { rewrite <- Hcap in HiF. apply list_elem_of_filter in HiF as [_ ?]. done. }
    split_and!; [done|..].
    + rewrite Hcap. unfold zlen. rewrite length_take.
      assert (n < length F)%nat; [|unfold n in *; lia].
      apply dec_stable. intros Hge. rewrite drop_ge in HiF by lia. set_solver.
    + intros j Hj Hcj.
      assert (HjF : j ∈ take n F) by (rewrite <- Hcap; by apply list_elem_of_filter).
      eapply StronglySorted_app_1_elem_of; [|exact HjF|exact HiF]. rewrite take_drop.
      apply (StronglySorted_sublist _ _ (ordered view)); [apply sublist_filter|apply ordered_sorted].
Qed.

Lemma compare_items_eq_id i j : compare_items i j = Eq → wi_id i = wi_id j.
Proof.
  unfold compare_items, cmp_then, then_with, cmp_on, cmp_rev.
  repeat (case_match; try done). apply String.compare_eq_iff.
Qed.

(** The dispatch order does not depend on the order in which the items are
    listed, when their ids are distinct. *)
Theorem dispatch_order_permutation (view view' : ScheduleView) :
  NoDup (map wi_id (sv_items view)) →
  sv_policy view' = sv_policy view → sv_active_capped view' = sv_active_capped view →
  sv_resources view' = sv_resources view → sv_items view' ≡ₚ sv_items view →
  dispatch_order view' = dispatch_order view.
Proof.
  intros Hnd Hp Ha Hr Hi. unfold dispatch_order. rewrite Hp, Ha.
  assert (He : ∀ i, eligible view' i = eligible view i) by (intros; unfold eligible; by rewrite Hr).
  f_equal. f_equal. apply sort_by_perm_unique; [apply _|..].
  - rewrite (list_filter_iff (λ i, eligible view' i = true) (λ i, eligible view i = true))
      by (intros; by rewrite He). by rewrite Hi.
  - intros x y [_ Hx]%list_elem_of_filter [_ Hy]%list_elem_of_filter Heq%compare_items_eq_id.
    rewrite Hi in Hx, Hy. clear -Hnd Hx Hy Heq.
    apply list_elem_of_lookup in Hx as [a Hx], Hy as [b Hy].
    assert (a = b) as <-; [|congruence].
    apply (NoDup_lookup (map wi_id (sv_items view)) a b (wi_id x)); [done|..];
      change (map wi_id) with (fmap (M := list) wi_id); rewrite list_lookup_fmap;
      [by rewrite Hx | by rewrite Hy, Heq].
Qed.

(** *** Witness *)

Definition demo_ready : ReadinessFacts :=
  {| predecessor_gates_met := true; blockers_clear := true; unit_free := true;
     base_ready := true; route_ready := true; preflight_passed := true |}.
Definition demo_item (id : string) (wave path : Z) : WorkItem :=
  {| wi_id := id; wi_capacity_class := "implementer"; wi_launch_wave := wave;
     wi_remaining_dependency_path := path; wi_unit_order := 0;
     wi_readiness := demo_ready; wi_pressure_policy := PermitWhenPressed |}.
Definition demo_view (items : list WorkItem) : ScheduleView :=
  {| sv_policy := {| parallel_cap := 3; capped_class := "implementer" |};
     sv_active_capped := 1;
     sv_resources := {| free_storage_bytes := 0; projected_storage_bytes := 0;
                        available_memory_bytes := 0; physical_memory_bytes := 0 |};
     sv_items := items |}.

Lemma dispatch_order_permutation_witness :
  dispatch_order (demo_view [demo_item "c" 1 9; demo_item "a" 1 0; demo_item "b" 0 0]) = ["b"; "c"].
Proof.
  rewrite (dispatch_order_permutation
             (demo_view [demo_item "a" 1 0; demo_item "b" 0 0; demo_item "c" 1 9]));
    [vm_compute; reflexivity | | reflexivity | reflexivity | reflexivity |].
  - repeat constructor; set_solver.
  - cbn. apply (Permutation_cons_append [_; _] _).
Defined.
