(* ===== verification/Control.v ===== *)
(** * The control vertical

    [drivers/src/control/mod.rs]: the package's control data and its block
    parser, control frames, and the guard that admits a [bg_run] call only when
    it is exactly the live launch action the package issued. *)

From S2P Require Import Prelude RustStr Generated Failure Boundary.

(** ** Block data *)

(** [clean]: the text before a comment, trimmed. *)
Definition clean_line (line : string) : string :=
  match split_once "//" line with
  | Some (before_comment, _) => trim before_comment
  | None => trim line
  end.

Definition DQUOTE : ascii := chr 34.

(** [quoted]: the loop over the characters, with the text collected so far in
    the open quote (in reverse). *)
Fixpoint quoted_from (open : option string) (text : string) : list string :=
  match text with
  | "" => []
  | String c text' =>
      if ascii_dec c DQUOTE then
        match open with
        | Some buf => str_rev buf :: quoted_from None text'
        | None => quoted_from (Some "") text'
        end
      else
        match open with
        | Some buf => quoted_from (Some (String c buf)) text'
        | None => quoted_from None text'
        end
  end.
Definition quoted (text : string) : list string := quoted_from None text.

Definition parse_values (text : string) : list string :=
  match quoted text with
  | [] => [trim text]
  | values => values
  end.

Record DataBlock := { db_id : string; db_fields : gmap string (list string) }.

Definition one (fields : gmap string (list string)) (key : string) : result string string :=
  ok_or (fields !! key ≫= head) ("missing " +:+ key).

(** Where the two nested loops of [data_blocks] are: between blocks, or in the
    block [head id] with the fields read so far. *)
Inductive block_state :=
| Between
| Inside (head id : string) (fields : gmap string (list string)).

Fixpoint data_blocks_from (kind : string) (st : block_state) (line_no : Z) (rest : list string)
  : result string (list DataBlock) :=
  match rest with
  | [] =>
      match st with
      | Between => Ok []
      | Inside head id _ => Err (head +:+ " " +:+ id +:+ ": missing close")
      end
  | raw :: rest' =>
      let line := clean_line raw in
      match st with
      | Between =>
          if is_empty line then data_blocks_from kind Between (line_no + 1) rest' else
          match split_once " " line with
          | None => Err ("line " +:+ show_uint (line_no + 1) +:+ ": expected block")
          | Some (head, after) =>
              match quoted after with
              | [] => Err ("line " +:+ show_uint (line_no + 1) +:+ ": missing id")
              | id :: _ => data_blocks_from kind (Inside head id ∅) (line_no + 1) rest'
              end
          end
      | Inside head id fields =>
          if line =s "}" then
            blocks ← data_blocks_from kind Between (line_no + 1) rest';
            Ok (if head =s kind then {| db_id := id; db_fields := fields |} :: blocks else blocks)
          else if is_empty line || negb (head =s kind) then
            data_blocks_from kind st (line_no + 1) rest'
          else
            match split_once " " line with
            | None => Err ("line " +:+ show_uint (line_no + 1) +:+ ": missing value")
            | Some (key, after) =>
                data_blocks_from kind (Inside head id (<[key := parse_values after]> fields))
                  (line_no + 1) rest'
            end
      end
  end.

Definition data_blocks_in (text kind : string) : result string (list DataBlock) :=
  data_blocks_from kind Between 0 (lines text).

(** [data/control.kdl].  The double quote is written as a back quote here. *)
Fixpoint kdl (text : string) : string :=
  match text with
  | "" => ""
  | String c text' => String (if ascii_dec c (chr 96) then DQUOTE else c) (kdl text')
  end.

Definition CONTROL_KDL : string := kdl
"// D76 §6.1/§6.2 thin control vertical data.
// Rust code consumes these rows; kernel types remain generated from contracts.kdl.

action_kind `launch-background` {
    effect `LaunchBackground`
}

action_kind `reconcile-background` {
    effect `ReconcileBackground`
}

action_kind `read-failure-log` {
    effect `ReadFailureLog`
}

action_kind `stop-background` {
    effect `StopBackground`
}

action_kind `request-operator` {
    effect `RequestOperator`
}

action_kind `return-idle` {
    effect `ReturnIdle`
}

timeout `focused-command` {
    duration `30m`
}

timeout `integration` {
    duration `30m`
}

timeout `final-suite` {
    duration `4h`
}

timeout `cooperative-handoff-checkpoint` {
    duration `2m`
}

watchdog `heartbeat` {
    minutes `25`
    command `autopilot-heartbeat-wait --minutes 25`
    display_name `autopilot heartbeat wait`
    isAgent `#false`
    notifyOnCompletion `#true`
    triggerOnCompletion `#false`
}
".

Definition data_blocks (kind : string) : result string (list DataBlock) :=
  data_blocks_in CONTROL_KDL kind.

(** ** Policy *)

Inductive ControlError := CMalformed (what : string) | CMissing (what : string).

Record ControlPolicy := {
  action_kinds : list string;
  focused_timeout : string;
  integration_timeout : string;
  final_suite_timeout : string;
  handoff_timeout : string;
}.

Definition timeout (id : string) : result ControlError string :=
  blocks ← map_err CMalformed (data_blocks "timeout");
  match find_first (λ block, db_id block =s id) blocks with
  | Some block => map_err CMalformed (one (db_fields block) "duration")
  | None => Err (CMissing id)
  end.

Definition control_package : result ControlError ControlPolicy :=
  blocks ← map_err CMalformed (data_blocks "action_kind");
  let kinds := map db_id blocks in
  if negb (zlen kinds =? 6) then Err (CMalformed "six action kinds required") else
  focused ← timeout "focused-command";
  integration ← timeout "integration";
  final ← timeout "final-suite";
  handoff ← timeout "cooperative-handoff-checkpoint";
  Ok {| action_kinds := kinds; focused_timeout := focused; integration_timeout := integration;
        final_suite_timeout := final; handoff_timeout := handoff |}.

(** ** Frames *)

Inductive TaskStatus := Completed | Failed | Interrupted.
Inductive ControlObservation := BackgroundTask (task_id : Id) (status : TaskStatus).

Record FrameInput := {
  fr_frame_id : string;
  fr_run_id : string;
  fr_run_revision : Z;
  fr_trigger_kind : string;
  fr_trigger_refs : list Ref;
  fr_counts : ControlFrameCounts;
  fr_observations : list ControlObservation;
  fr_actions : list BackgroundAction;
  fr_next_watchdog_at : option string;
}.

Definition observation_value (observation : ControlObservation) : Value :=
  match observation with
  | BackgroundTask task_id status =>
      VObject [("kind", VString "background-task"); ("task_id", VString task_id);
               ("status", VString match status with
                                  | Completed => "completed"
                                  | Failed => "failed"
                                  | Interrupted => "interrupted"
                                  end)]
  end.

Definition build_frame (input : FrameInput) : ControlFrame :=
  {| cf_schema := "autopilot.control_frame.v1";
     cf_frame_id := fr_frame_id input;
     cf_run_id := fr_run_id input;
     cf_run_revision := fr_run_revision input;
     cf_trigger := {| ct_kind := fr_trigger_kind input; ct_refs := fr_trigger_refs input |};
     cf_counts := fr_counts input;
     cf_observations := map observation_value (fr_observations input);
     cf_actions := fr_actions input;
     cf_next_watchdog_at := fr_next_watchdog_at input;
     cf_return_to_idle := match fr_actions input with [] => true | _ => false end |}.

(** ** The background-run guard *)

Inductive GuardOutcome :=
| Accepted (action : BackgroundAction) (effect : Effect)
| Duplicate (action : BackgroundAction).

Inductive GuardRejection :=
| Mismatch (valid : BackgroundAction)
| GuardUnsafe (failure : Failure).

Record ToolResultBinding := { tb_action_id : Id; tb_assignment_id : Id; tb_task_id : Id }.
Inductive BindError := UnknownAction (id : Id).

Record BgRunGuard := { issued : list BackgroundAction; consumed_assignments : gset string }.

Definition guard_new (issued : list BackgroundAction) : BgRunGuard :=
  {| issued := issued; consumed_assignments := ∅ |}.

Definition live_launch (g : BgRunGuard) : option BackgroundAction :=
  find_first (λ action, (ba_kind action =s LaunchBackground) &&
                        (ba_supersession_state action =s "live")) (issued g).

Definition bg_run_exact : BoundaryDescriptor :=
  {| bd_id := "control.bg-run-exact.v1"; bd_producer := PPackage;
     bd_admits := "A parent bg_run call must byte-match exactly one live package-issued launch action bg_run object. Package-issued actions retain durable completion notification and prohibit parent-turn triggering. Unissued launches are Unsafe(UnissuedBackgroundLaunch).";
     bd_mode := Enforce |}.

Definition admit_exact_bg_run (action : BackgroundAction) (call : BackgroundActionBgRun)
  : result Rejection BackgroundAction :=
  (if negb (bg_notify_on_completion (ba_bg_run action)) ||
      bg_trigger_on_completion (ba_bg_run action)
   then reject_declared bg_run_exact "unsafe package completion profile" else Ok tt) ≫= λ _,
  (if negb (ba_bg_run action =s call)
   then reject_declared bg_run_exact "bg_run call did not match the live issued action"
   else Ok tt) ≫= λ _,
  Ok action.

Definition guard_admit (g : BgRunGuard) (call : BackgroundActionBgRun)
  : BgRunGuard * result GuardRejection GuardOutcome :=
  match live_launch g with
  | None => (g, Err (GuardUnsafe (failure_of_boundary UnissuedBackgroundLaunch)))
  | Some action =>
      match admit_exact_bg_run action call with
      | Err _ => (g, Err (Mismatch action))
      | Ok _ =>
          if bool_decide (ba_assignment_id action ∈ consumed_assignments g)
          then (g, Ok (Duplicate action))
          else ({| issued := issued g;
                   consumed_assignments := {[ba_assignment_id action]} ∪ consumed_assignments g |},
                Ok (Accepted action (EffLaunchBackground action)))
      end
  end.

Definition bind_task (g : BgRunGuard) (action_id task_id : Id)
  : result BindError ToolResultBinding :=
  ok_or ((λ action, {| tb_action_id := ba_action_id action;
                       tb_assignment_id := ba_assignment_id action;
                       tb_task_id := task_id |})
           <$> find_first (λ action, ba_action_id action =s action_id) (issued g))
    (UnknownAction action_id).

Definition effect_for (action : BackgroundAction) : Effect :=
  match ba_kind action with
  | LaunchBackground => EffLaunchBackground action
  | ReconcileBackground => EffReconcileBackground (ba_action_id action)
  | ReadFailureLog => EffReadFailureLog (ba_action_id action)
  | StopBackground => EffStopBackground (ba_action_id action)
  | RequestOperator => EffRequestOperator (as_bytes (bg_command (ba_bg_run action)))
  | ReturnIdle => EffReturnIdle
  end.

(** ** What the guard admits *)

(** A session of calls, in order, with the guard's answers. *)
Fixpoint run_guard (g : BgRunGuard) (calls : list BackgroundActionBgRun)
  : BgRunGuard * list (result GuardRejection GuardOutcome) :=
  match calls with
  | [] => (g, [])
  | call :: calls' =>
      let '(g1, answer) := guard_admit g call in
      let '(g2, answers) := run_guard g1 calls' in (g2, answer :: answers)
  end.

(** The package's completion profile: notify, never trigger a parent turn. *)
Definition safe_profile (run : BackgroundActionBgRun) : bool :=
  bg_notify_on_completion run && negb (bg_trigger_on_completion run).

(** What the guard promises: an unissued launch is unsafe; a call is accepted
    when it is the live issued one, for the first time; a repetition is a
    duplicate; anything else is answered with the valid action. *)
Definition guard_promise (live : option BackgroundAction) (earlier : list BackgroundActionBgRun)
    (call : BackgroundActionBgRun) : result GuardRejection GuardOutcome :=
  match live with
  | None => Err (GuardUnsafe (Unsafe UnissuedBackgroundLaunch))
  | Some action =>
      if safe_profile (ba_bg_run action) && (call =s ba_bg_run action) then
        if bool_decide (call ∈ earlier) then Ok (Duplicate action)
        else Ok (Accepted action (effect_for action))
      else Err (Mismatch action)
  end.

Lemma live_launch_spec g action :
  live_launch g = Some action →
  action ∈ issued g ∧ ba_kind action = LaunchBackground ∧ ba_supersession_state action = "live".
Proof. intros [? ?]%find_first_some. to_prop. done. Qed.

Lemma admit_exact_spec action call :
  (admit_exact_bg_run action call = Ok action ∧
     safe_profile (ba_bg_run action) && (call =s ba_bg_run action) = true) ∨
  ((∃ r, admit_exact_bg_run action call = Err r) ∧
     safe_profile (ba_bg_run action) && (call =s ba_bg_run action) = false).
Proof.
  unfold admit_exact_bg_run, safe_profile.
  destruct (bg_notify_on_completion _), (bg_trigger_on_completion _); cbn; eauto.
  destruct (decide (ba_bg_run action = call)) as [<-|Hne].
  - rewrite !bool_decide_true by done. eauto.
  - rewrite !bool_decide_false by congruence. cbn. eauto.
Qed.

Lemma admit_issued g call : issued (guard_admit g call).1 = issued g.
Proof. unfold guard_admit. repeat case_match; done. Qed.

(** The guard's state as the calls so far determine it. *)
Definition guard_inv (action : BackgroundAction) (g : BgRunGuard)
    (earlier : list BackgroundActionBgRun) : Prop :=
  safe_profile (ba_bg_run action) = true →
  (ba_assignment_id action ∈ consumed_assignments g ↔ ba_bg_run action ∈ earlier).

Lemma admit_promise g earlier call :
  (∀ action, live_launch g = Some action → guard_inv action g earlier) →
  (guard_admit g call).2 = guard_promise (live_launch g) earlier call ∧
  (∀ action, live_launch g = Some action → guard_inv action (guard_admit g call).1 (earlier ++ [call])).
Proof.
  intros Hinv. unfold guard_admit, guard_promise.
  destruct (live_launch g) as [action|] eqn:Hl; [|done].
  specialize (Hinv action eq_refl). unfold guard_inv in *.
  apply live_launch_spec in Hl as (_ & Hk & _).
  destruct (admit_exact_spec action call) as [[-> Hc]|[[r ->] Hc]]; rewrite Hc.
  - to_prop. subst call.
    destruct (decide (ba_bg_run action ∈ earlier)) as [Hin|Hin].
    + rewrite !bool_decide_true by tauto. split; [done|]. intros ? [= <-] _. set_solver.
    + rewrite !bool_decide_false by tauto. unfold effect_for. rewrite Hk. split; [done|].
      intros ? [= <-] _. cbn. set_solver.
  - split; [done|]. intros ? [= <-] Hs. rewrite Hs in Hc. cbn in Hc. to_prop.
    cbn. rewrite Hinv by done. set_solver.
Qed.

Lemma run_guard_promise g earlier calls n call :
  (∀ action, live_launch g = Some action → guard_inv action g earlier) →
  calls !! n = Some call →
  (run_guard g calls).2 !! n = Some (guard_promise (live_launch g) (earlier ++ take n calls) call).
Proof.
  revert g earlier n. induction calls as [|c calls IH]; intros g earlier n Hinv Hn; [done|].
  cbn [run_guard]. pose proof (admit_promise g earlier c Hinv) as [Ha Hinv'].
  pose proof (admit_issued g c) as Hi. destruct (guard_admit g c) as [g1 a]. cbn in *.
  assert (live_launch g1 = live_launch g) as Hl by (unfold live_launch; by rewrite Hi).
  destruct (run_guard g1 calls) as [g2 as'] eqn:Hr. destruct n as [|n]; cbn in *.
  - injection Hn as ->. rewrite app_nil_r. by rewrite Ha.
  - specialize (IH g1 (earlier ++ [c]) n). rewrite Hr, Hl in IH. cbn in IH.
    rewrite <- app_assoc in IH. by apply IH.
Qed.

(** The guard's answer to the n-th call of any session: [Unsafe] when the
    package issued no live launch; [Mismatch] with the valid action when the
    call is not exactly that action's [bg_run] object or the action's
    completion profile is unsafe; otherwise [Accepted] (with the effect of the
    issued action) if no earlier call of the session was the same, and
    [Duplicate] if one was.  So an issued launch starts at most once. *)
Theorem guard_keeps_promise (actions : list BackgroundAction) (calls : list BackgroundActionBgRun)
    (n : nat) (call : BackgroundActionBgRun) :
  calls !! n = Some call →
  (run_guard (guard_new actions) calls).2 !! n =
    Some (guard_promise (live_launch (guard_new actions)) (take n calls) call).
Proof.
  intros Hn. apply (run_guard_promise _ [] _ _ _); [|done].
  intros action _ _. cbn. set_solver.
Qed.

(** The package's control data parses: six action kinds in the declared
    order and the four timeouts. *)
Theorem control_package_ok :
  control_package = Ok
    {| action_kinds := ["launch-background"; "reconcile-background"; "read-failure-log";
                        "stop-background"; "request-operator"; "return-idle"];
       focused_timeout := "30m"; integration_timeout := "30m";
       final_suite_timeout := "4h"; handoff_timeout := "2m" |}.
Proof. vm_compute. reflexivity. Qed.

(** *** Witness *)

Definition demo_run : BackgroundActionBgRun :=
  {| bg_name := "implementer"; bg_command := "pi run"; bg_is_agent := true;
     bg_timeout_seconds := Some 1800; bg_notify_on_completion := true;
     bg_trigger_on_completion := false |}.
Definition demo_action : BackgroundAction :=
  {| ba_action_id := "action-1"; ba_assignment_id := "assign-1"; ba_kind := LaunchBackground;
     ba_bg_run := demo_run; ba_run_revision := 7; ba_expires_at := None;
     ba_supersession_state := "live" |}.

Lemma guard_keeps_promise_witness :
  (run_guard (guard_new [demo_action]) [demo_run; demo_run]).2 !! 1%nat =
    Some (Ok (Duplicate demo_action)).
Proof.
  rewrite (guard_keeps_promise [demo_action] [demo_run; demo_run] 1 demo_run) by reflexivity.
  vm_compute. reflexivity.
Defined.
