(* ===== verification/Watchdog.v ===== *)
(** * The heartbeat watchdog and the background-task prerequisite

    [drivers/src/watchdog/mod.rs] arms the heartbeat background task from the
    package's control data; [drivers/src/bgtasks/mod.rs] refuses to mutate
    anything while the background-task capability is incomplete. *)

From S2P Require Import Prelude RustStr Generated Failure Boundary Control.

Module Watchdog.

Record WatchdogConfig := {
  minutes : Z;
  command : string;
  display_name : string;
  is_agent : bool;
  notify_on_completion : bool;
  trigger_on_completion : bool;
}.

Inductive WatchdogError := Malformed (what : string) | Missing (what : string).

Definition flag (fields : gmap string (list string)) (key : string) : result WatchdogError bool :=
  value ← map_err Malformed (one fields key);
  if value =s "#true" then Ok true
  else if value =s "#false" then Ok false
  else Err (Malformed (key +:+ ": " +:+ value)).

Definition watchdog_package : result WatchdogError WatchdogConfig :=
  blocks ← map_err Malformed (data_blocks "watchdog");
  block ← ok_or (find_first (λ block, db_id block =s "heartbeat") blocks)
            (Missing "watchdog heartbeat");
  let fields := db_fields block in
  minutes_text ← map_err Malformed (one fields "minutes");
  minutes ← ok_or (parse_uint u32_max minutes_text) (Malformed "watchdog minutes");
  command ← map_err Malformed (one fields "command");
  display_name ← map_err Malformed (one fields "display_name");
  is_agent ← flag fields "isAgent";
  notify ← flag fields "notifyOnCompletion";
  trigger ← flag fields "triggerOnCompletion";
  Ok {| minutes := minutes; command := command; display_name := display_name;
        is_agent := is_agent; notify_on_completion := notify; trigger_on_completion := trigger |}.

Definition arm_action (c : WatchdogConfig) (active_work already_armed : bool)
    (action_id : Id) (run_revision : Z) : option BackgroundAction :=
  if negb active_work || already_armed then None else
  Some {| ba_assignment_id := "watchdog-heartbeat";
          ba_action_id := action_id;
          ba_kind := LaunchBackground;
          ba_bg_run := {| bg_name := display_name c; bg_command := command c;
                          bg_is_agent := is_agent c;
                          bg_timeout_seconds := Some (saturating_mul u32_max (minutes c) 60);
                          bg_notify_on_completion := notify_on_completion c;
                          bg_trigger_on_completion := trigger_on_completion c |};
          ba_run_revision := run_revision;
          ba_expires_at := None;
          ba_supersession_state := "live" |}.

Record WatchdogTurn := { effects : list Effect }.

Definition completed_turn (c : WatchdogConfig) (work_remains : bool) (next_action_id : Id)
    (run_revision : Z) : WatchdogTurn :=
  {| effects := EffReconcileBackground "watchdog-heartbeat" ::
       match arm_action c work_remains false next_action_id run_revision with
       | Some action => [EffLaunchBackground action]
       | None => []
       end |}.

Definition has_semantic_authority (_ : WatchdogTurn) : bool := false.

(** The heartbeat action that the package's own configuration arms, for any
    action id and run revision, is one the background-run guard accepts exactly
    once: its first exact call launches it, with the timeout of twenty-five
    minutes in seconds, and an exact repetition is a duplicate. *)
Theorem armed_heartbeat_is_admitted :
  ∃ config, watchdog_package = Ok config ∧
    ∀ action_id run_revision,
      ∃ action, arm_action config true false action_id run_revision = Some action ∧
        bg_timeout_seconds (ba_bg_run action) = Some 1500 ∧
        (run_guard (guard_new [action]) [ba_bg_run action; ba_bg_run action]).2 =
          [Ok (Accepted action (EffLaunchBackground action)); Ok (Duplicate action)].
Proof.
  eexists. split; [vm_compute; reflexivity|]. intros id rev.
  eexists. split; [reflexivity|]. split; [reflexivity|].
  vm_compute. reflexivity.
Qed.

End Watchdog.

Module Bgtasks.

Inductive BgCapability := Run | Status | Logs | Kill.

(** [api_version], [run], ... of [BgCapabilities]; the generated
    [BackgroundCapabilities] it is read from has the same fields, the last one
    under the JSON key [kill]. *)
Record BgCapabilities := {
  api_version : Z;
  run : bool;
  run_is_agent : bool;
  run_completion_trigger : bool;
  status : bool;
  logs : bool;
  logs_bounded : bool;
  stop : bool;
}.

Definition complete : BgCapabilities :=
  {| api_version := 1; run := true; run_is_agent := true; run_completion_trigger := true;
     status := true; logs := true; logs_bounded := true; stop := true |}.

Definition INSTALL : string :=
  "Missing pi-background-tasks 2.1.4 event API. Install/enable the paired package, then reload/restart Pi.".

Record BgPrereqError := {
  capability : BgCapability;
  instruction : string;
  failure : Failure;
  diagnostic : option string;
}.

Definition unavailable (caps : BgCapabilities) : option BgCapability :=
  if negb (api_version caps =? 1) || negb (run caps) || negb (run_is_agent caps) ||
     negb (run_completion_trigger caps) then Some Run
  else if negb (status caps) then Some Status
  else if negb (logs caps) || negb (logs_bounded caps) then Some Logs
  else if negb (stop caps) then Some Kill
  else None.

Definition MAX : Z := 240.

Definition bound_diagnostic (value : string) : string :=
  let normalized := join " " (split_whitespace value) in
  if chars_count normalized <=? MAX then normalized
  else chars_take (Z.to_nat (MAX - 1)) normalized +:+ "…".

(** The mutation is an action on a world [W]; it runs only on the last
    branch. *)
Definition require_before_mutation {W T} (caps : BgCapabilities) (diag : option string)
    (mutate : W → W * T) (w : W) : W * result BgPrereqError T :=
  match unavailable caps with
  | Some capability =>
      (w, Err {| capability := capability; instruction := INSTALL;
                 failure := Paused SupplyCapability;
                 diagnostic := bound_diagnostic <$> diag |})
  | None => let '(w', t) := mutate w in (w', Ok t)
  end.

(** [{:?}] of a capability. *)
Definition capability_debug (c : BgCapability) : string :=
  match c with Run => "Run" | Status => "Status" | Logs => "Logs" | Kill => "Kill" end.

Definition pause_status (error : BgPrereqError) : string :=
  "Paused/SupplyCapability:" +:+ capability_debug (capability error) +:+ ":" +:+ instruction error +:+
  match diagnostic error with
  | Some d => ":diagnostic=" +:+ d
  | None => ""
  end.

Lemma unavailable_none caps : unavailable caps = None ↔ caps = complete.
Proof.
  destruct caps as [v [] [] [] [] [] [] []]; unfold unavailable, complete; cbn;
    destruct (Z.eqb_spec v 1); cbn; split; congruence.
Qed.

Lemma bound_diagnostic_bound value : chars_count (bound_diagnostic value) ≤ MAX.
Proof. by apply (cut_chars_bound MAX). Qed.

(** Nothing is mutated while a background-task capability is missing: the
    mutation runs exactly when the capability record is the complete one;
    otherwise the world is unchanged and the error pauses for the operator to
    supply the capability, with a diagnostic of at most 240 characters. *)
Theorem mutation_needs_capabilities {W T} caps diag (mutate : W → W * T) (w : W) :
  (caps = complete →
     require_before_mutation caps diag mutate w = ((mutate w).1, Ok (mutate w).2)) ∧
  (caps ≠ complete →
     ∃ e, require_before_mutation caps diag mutate w = (w, Err e) ∧
       failure e = Paused SupplyCapability ∧
       operation (supervision (failure e)) = OperationContinue ∧
       ∀ d, diagnostic e = Some d → chars_count d ≤ 240).
Proof.
  unfold require_before_mutation. split.
  - intros ->. cbn. by destruct (mutate w).
  - intros Hne. destruct (unavailable caps) as [c|] eqn:Hu.
    + eexists. split_and!; [done..|]. cbn. destruct diag as [d|]; cbn; [|done].
      intros ? [= <-]. apply bound_diagnostic_bound.
    + by apply unavailable_none in Hu.
Qed.

Lemma mutation_needs_capabilities_witness :
  ∃ e, require_before_mutation
         {| api_version := 1; run := true; run_is_agent := true; run_completion_trigger := true;
            status := true; logs := true; logs_bounded := false; stop := true |}
         (Some "event API missing") (λ n : nat, (S n, tt)) 0%nat = (0%nat, Err e).
Proof.
  destruct (proj2 (mutation_needs_capabilities
                     {| api_version := 1; run := true; run_is_agent := true;
                        run_completion_trigger := true; status := true; logs := true;
                        logs_bounded := false; stop := true |}
                     (Some "event API missing") (λ n : nat, (S n, tt)) 0%nat)) as (e & He & _).
  - discriminate.
  - by exists e.
Defined.

End Bgtasks.
