(* ===== verification/Vcs.v ===== *)
(** * Version control

    [drivers/src/vcs/mod.rs]: the only way the package runs [git].  Paths are
    confined to an owner directory, reference updates to the package's own
    reference namespaces, and there is no operation that reaches a remote. *)

From S2P Require Import Prelude RustStr Paths Os Traces Failure.

Definition transient_output : Failure := Transient Backoff.
Definition transient {X : Type} (_error : X) : Failure := transient_output.
Definition recoverable : Failure := Recoverable Tier1.
Definition unsafe_boundary (boundary : HardBoundary) : Failure := Unsafe boundary.

(** ** References the package may update *)

Definition valid_attempt (value : string) : bool :=
  match strip_prefix "a" value with
  | Some n => negb (is_empty n) && str_all is_ascii_digit n
  | None => false
  end.

Definition allowed_ref (name : string) : bool :=
  match strip_prefix "refs/autopilot/results/" name with
  | Some rest =>
      let parts := split_char SLASH rest in
      (zlen parts =? 2) && all (λ part, negb (is_empty part)) parts
  | None =>
      match strip_prefix "refs/heads/autopilot/run/" name with
      | None => false
      | Some rest =>
          match split_char SLASH rest with
          | [run; kind] => (kind =s "main") && negb (is_empty run)
          | [run; kind; item; attempt] =>
              ((kind =s "lane") || (kind =s "repair")) &&
              (negb (is_empty run) && negb (is_empty item) && valid_attempt attempt)
          | [run; kind; item] =>
              (kind =s "integration") && (negb (is_empty run) && negb (is_empty item))
          | _ => false
          end
      end
  end.

(** ** Sparse profiles *)

Definition guard_fragment (item : string) : result Failure unit :=
  let p := components item in
  if is_absolute p then Err (unsafe_boundary OutOfScopeWrite)
  else for_each (λ part, ensure (negb (part =s ParentDir)) (unsafe_boundary OutOfScopeWrite)) p.

Definition same_fragment (a b : string) : bool := clean (components a) =s clean (components b).

(** ** The driver *)

Record GitVcs := { owner : path }.

Definition vcs_new (owner : path) : GitVcs := {| owner := clean owner |}.

Definition vcs_git (dir : path) (args : list string) : prog Failure string :=
  git_output transient_output dir args.

(** The loop of [owned]: the nearest existing ancestor of the candidate must
    really be below the owner.  [fuel] bounds the number of parents. *)
Fixpoint probe_real (fuel : nat) (real_owner probe : path) : prog Failure unit :=
  Call (Canonicalize probe) (λ a,
    match a with
    | Ok real =>
        Ret (match strip_path_prefix real_owner real with
             | Some _ => Ok tt
             | None => Err (unsafe_boundary OutOfScopeWrite)
             end)
    | Err error =>
        if io_kind error =s NotFound then
          match parent probe, fuel with
          | Some up, S fuel' => probe_real fuel' real_owner up
          | Some _, O => Ret (Err transient_output)
          | None, _ => Ret (Err transient_output)
          end
        else Ret (Err (transient error))
    end).

Definition owned (v : GitVcs) (p : path) : prog Failure path :=
  real_owner ← canonicalize transient (owner v);
  match owned_lexical (owner v) p with
  | None => Ret (Err (unsafe_boundary OutOfScopeWrite))
  | Some candidate =>
      probe_real (length candidate) real_owner candidate ≫= λ _, Ret (Ok candidate)
  end.

Definition apply_profile (root : path) (profile : list string) : prog Failure unit :=
  match profile with
  | [] => Ret (Err recoverable)
  | _ =>
      Ret (for_each guard_fragment profile) ≫= λ _,
      vcs_git root (["sparse-checkout"; "set"; "--no-cone"; "--"] ++ profile) ≫= λ _,
      Ret (Ok tt)
  end.

Definition read_tip (v : GitVcs) (source : path) (name : string) : prog Failure string :=
  source ← owned v source;
  out ← vcs_git source ["rev-parse"; "--verify"; name];
  Ret (Ok (trim out)).

Definition stage_all (v : GitVcs) (root : path) : prog Failure unit :=
  root ← owned v root;
  vcs_git root ["add"; "-A"] ≫= λ _, Ret (Ok tt).

Definition snapshot (v : GitVcs) (root : path) (message : string) : prog Failure string :=
  root ← owned v root;
  vcs_git root ["commit"; "-m"; message] ≫= λ _, read_tip v root "HEAD".

Definition is_limited (v : GitVcs) (root : path) : prog Failure bool :=
  root ← owned v root;
  out ← vcs_git root ["config"; "--bool"; "core.sparseCheckout"];
  Ret (Ok (trim out =s "true")).

Definition swap (v : GitVcs) (source : path) (name new old : string) : prog Failure unit :=
  if negb (allowed_ref name) then Ret (Err (unsafe_boundary OutOfScopeWrite)) else
  source ← owned v source;
  vcs_git source ["update-ref"; name; new; old] ≫= λ _, Ret (Ok tt).

Definition prepare (v : GitVcs) (root source : path) (point : string) (profile : list string)
  : prog Failure unit :=
  root ← owned v root;
  source ← owned v source;
  (match parent root with
   | Some up => create_dir_all transient up
   | None => Ret (Ok tt)
   end) ≫= λ _,
  vcs_git source ["worktree"; "add"; "--detach"; "--no-checkout"; to_os root; point] ≫= λ _,
  vcs_git root ["sparse-checkout"; "init"; "--no-cone"] ≫= λ _,
  apply_profile root profile ≫= λ _,
  vcs_git root ["checkout"; "--detach"; point] ≫= λ _,
  Ret (Ok tt).

Definition materialize (v : GitVcs) (root : path) (profile required : list string)
  : prog Failure unit :=
  root ← owned v root;
  Ret (for_each (λ item,
         guard_fragment item ≫= λ _,
         ensure (any (λ entry, same_fragment entry item) profile) recoverable) required) ≫= λ _,
  apply_profile root profile.

Definition init_fixture (v : GitVcs) (source : path) : prog Failure string :=
  source ← owned v source;
  create_dir_all transient source ≫= λ _,
  vcs_git source ["init"; "-b"; "main"] ≫= λ _,
  vcs_git source ["config"; "user.email"; "package@example.invalid"] ≫= λ _,
  vcs_git source ["config"; "user.name"; "Autopilot Package"] ≫= λ _,
  write_file transient (path_join source (components "keep.txt")) ("keep" +:+ String LF "") ≫= λ _,
  create_dir_all transient (path_join source (components "hidden")) ≫= λ _,
  write_file transient (path_join source (components "hidden/secret.txt"))
    ("secret" +:+ String LF "") ≫= λ _,
  stage_all v source ≫= λ _,
  snapshot v source "seed".

Definition fetch (_ : GitVcs) : result Failure unit :=
  Err (unsafe_boundary RemoteOrDestructiveNetwork).
Definition push_remote (_ : GitVcs) : result Failure unit :=
  Err (unsafe_boundary RemoteOrDestructiveNetwork).
Definition mutate_remote (_ : GitVcs) : result Failure unit :=
  Err (unsafe_boundary RemoteOrDestructiveNetwork).
Definition mutate_as_agent (_ : GitVcs) : result Failure unit :=
  Err (unsafe_boundary AgentVersionMutation).

(** ** The references that may be updated *)

(** The shapes of the package's references. *)
Inductive package_ref : string → Prop :=
| result_ref ws run : ws ≠ "" → run ≠ "" → lacks SLASH ws → lacks SLASH run →
    package_ref ("refs/autopilot/results/" +:+ ws +:+ "/" +:+ run)
| main_ref run : run ≠ "" → lacks SLASH run →
    package_ref ("refs/heads/autopilot/run/" +:+ run +:+ "/main")
| attempt_ref run kind item digits :
    kind = "lane" ∨ kind = "repair" → run ≠ "" → item ≠ "" → digits ≠ "" →
    lacks SLASH run → lacks SLASH item → str_all is_ascii_digit digits = true →
    package_ref ("refs/heads/autopilot/run/" +:+ run +:+ "/" +:+ kind +:+ "/" +:+ item +:+ "/a" +:+ digits)
| integration_ref run item : run ≠ "" → item ≠ "" → lacks SLASH run → lacks SLASH item →
    package_ref ("refs/heads/autopilot/run/" +:+ run +:+ "/integration/" +:+ item).

Lemma is_empty_false s : is_empty s = false ↔ s ≠ "".
Proof. unfold is_empty. apply bool_decide_eq_false. Qed.

Lemma valid_attempt_spec value :
  valid_attempt value = true ↔
  ∃ digits, value = "a" +:+ digits ∧ digits ≠ "" ∧ str_all is_ascii_digit digits = true.
Proof.
  unfold valid_attempt. destruct (strip_prefix "a" value) as [n|] eqn:H.
  - apply strip_prefix_spec in H as ->. rewrite andb_true_iff, negb_true_iff, is_empty_false.
    split; [naive_solver|]. intros (d & Hd & ? & ?). injection Hd as ->. done.
  - split; [done|]. intros (d & -> & _). by rewrite strip_prefix_app in H.
Qed.

Lemma digits_lack_slash s : str_all is_ascii_digit s = true → lacks SLASH s.
Proof.
  unfold lacks, str_all. rewrite !forallb_forall. intros H a Ha. specialize (H a Ha).
  apply negb_true_iff, bool_decide_eq_false. intros ->. by vm_compute in H.
Qed.

Lemma slash_str : String SLASH "" = "/".
Proof. reflexivity. Qed.

Lemma split_slash s parts :
  parts ≠ [] → split_char SLASH s = parts ↔ s = join "/" parts ∧ Forall (lacks SLASH) parts.
Proof. apply (split_char_join SLASH). Qed.

Lemma allowed_ref_sound name : allowed_ref name = true → package_ref name.
Proof.
  unfold allowed_ref. destruct (strip_prefix "refs/autopilot/results/" name) as [rest|] eqn:H.
  - apply strip_prefix_spec in H as ->. intros [Hl Ha]%andb_true_iff. rewrite all_spec in Ha. to_prop.
    destruct (split_char SLASH rest) as [|ws [|run [|]]] eqn:Hs; cbn in Hl; try done.
    2:{ unfold zlen in Hl. cbn in Hl. lia. }
    apply split_slash in Hs as [-> Hf]; [|done].
    apply Forall_cons in Hf as [? Hf]. apply Forall_cons in Hf as [? _]. cbn [join].
    constructor; try done; apply is_empty_false, negb_true_iff, Ha; set_solver.
  - clear H. destruct (strip_prefix "refs/heads/autopilot/run/" name) as [rest|] eqn:H; [|done].
    apply strip_prefix_spec in H as ->.
    destruct (split_char SLASH rest) as [|run [|kind [|item [|att [|]]]]] eqn:Hs; try done;
      apply split_slash in Hs as [-> Hf]; try done; rewrite !Forall_cons in Hf;
      rewrite ?andb_true_iff, ?orb_true_iff, ?bool_decide_eq_true, ?negb_true_iff, ?is_empty_false;
      cbn [join].
    + intros [-> ?]. constructor; naive_solver.
    + intros [-> [? ?]]. constructor; naive_solver.
    + intros [Hk [[? ?] (digits & -> & ? & ?)%valid_attempt_spec]].
      change ("/" +:+ "a" +:+ digits) with ("/a" +:+ digits). constructor; naive_solver.
Qed.

Lemma allowed_ref_complete name : package_ref name → allowed_ref name = true.
Proof.
  unfold allowed_ref. intros [ws run ? ? ? ?|run ? ?|run kind item digits Hk ? ? ? ? ? Hd|run item ? ? ? ?].
  - rewrite strip_prefix_app.
    assert (split_char SLASH (ws +:+ "/" +:+ run) = [ws; run]) as ->.
    { apply split_slash; [done|]. by repeat constructor. }
    cbn. rewrite !(proj2 (is_empty_false _)) by done. done.
  - assert (split_char SLASH (run +:+ "/main") = [run; "main"]) as Hs.
    { apply split_slash; [done|]. by repeat constructor. }
    rewrite strip_prefix_app, Hs. cbn. by rewrite (proj2 (is_empty_false _)).
  - assert (split_char SLASH (run +:+ "/" +:+ kind +:+ "/" +:+ item +:+ "/a" +:+ digits)
            = [run; kind; item; "a" +:+ digits]) as Hs.
    { apply split_slash; [done|]. split; [done|]. apply digits_lack_slash in Hd.
      destruct Hk as [->| ->]; repeat constructor; done. }
    rewrite strip_prefix_app, Hs. rewrite !(proj2 (is_empty_false _)) by done.
    rewrite (proj2 (valid_attempt_spec _)) by eauto.
    destruct Hk as [->| ->]; reflexivity.
  - assert (split_char SLASH (run +:+ "/integration/" +:+ item) = [run; "integration"; item]) as Hs.
    { apply split_slash; [done|]. by repeat constructor. }
    rewrite strip_prefix_app, Hs. cbn. by rewrite !(proj2 (is_empty_false _)).
Qed.

(** ** What the driver can do *)

(** What must have been found before [dir] is used: the owner really is
    [real_owner], and the nearest ancestor of [dir] that exists (the longer
    ones were not found) really lies at or below it. *)
Definition vetted (base : path) (past : trace) (dir : path) : Prop :=
  ∃ real_owner probe rest,
    Ev (Canonicalize base) (Ok real_owner) ∈ past ∧
    Ev (Canonicalize probe) (Ok (real_owner ++ rest)) ∈ past ∧
    probe `prefix_of` dir ∧
    ∀ c mid, probe ++ c :: mid `prefix_of` dir → ∃ e,
      Ev (Canonicalize (probe ++ c :: mid)) (Err e) ∈ past ∧ io_kind e = NotFound.

(** A directory of the owner: plain names below it, vetted. *)
Definition own_dir (base : path) (past : trace) (dir : path) : Prop :=
  (∃ names, dir = base ++ map Normal names) ∧ vetted base past dir.

(** The [git] subcommands the driver runs: none of them talks to a remote. *)
Definition local_subcommand (args : list string) : Prop :=
  ∃ sub rest, args = sub :: rest ∧
    sub ∈ ["init"; "config"; "worktree"; "sparse-checkout"; "checkout"; "rev-parse"; "add";
           "commit"; "update-ref"].

(** What may be requested, given what was answered before. *)
Definition confined (base : path) (past : trace) (q : request) : Prop :=
  match q with
  | Canonicalize _ => True
  | Spawn dir program args =>
      program = "git" ∧ own_dir base past dir ∧ local_subcommand args ∧
      (head args = Some "update-ref" →
         ∃ name new old, args = ["update-ref"; name; new; old] ∧ package_ref name) ∧
      (head args = Some "worktree" →
         ∃ root point, args = ["worktree"; "add"; "--detach"; "--no-checkout"; to_os root; point] ∧
           own_dir base past root)
  | WriteFile p _ => ∃ dir names, own_dir base past dir ∧ p = dir ++ map Normal names
  | CreateDirAll p =>
      ∃ dir, own_dir base past dir ∧ ((∃ names, p = dir ++ map Normal names) ∨ parent dir = Some p)
  | _ => False
  end.

(** The driver's operations. *)
Inductive vcs_op :=
| OpInitFixture (source : path)
| OpPrepare (root source : path) (point : string) (profile : list string)
| OpMaterialize (root : path) (profile required : list string)
| OpReadTip (source : path) (name : string)
| OpIsLimited (root : path)
| OpStageAll (root : path)
| OpSnapshot (root : path) (message : string)
| OpSwap (source : path) (name new old : string)
| OpFetch | OpPush | OpMutateRemote | OpMutateAsAgent.

Definition ignore {A} (p : prog Failure A) : prog Failure unit := p ≫= λ _, Ret (Ok tt).

Definition vcs_do (v : GitVcs) (op : vcs_op) : prog Failure unit :=
  match op with
  | OpInitFixture source => ignore (init_fixture v source)
  | OpPrepare root source point profile => prepare v root source point profile
  | OpMaterialize root profile required => materialize v root profile required
  | OpReadTip source name => ignore (read_tip v source name)
  | OpIsLimited root => ignore (is_limited v root)
  | OpStageAll root => stage_all v root
  | OpSnapshot root message => ignore (snapshot v root message)
  | OpSwap source name new old => swap v source name new old
  | OpFetch => Ret (fetch v)
  | OpPush => Ret (push_remote v)
  | OpMutateRemote => Ret (mutate_remote v)
  | OpMutateAsAgent => Ret (mutate_as_agent v)
  end.

Lemma own_dir_later base past t dir : own_dir base past dir → own_dir base (past ++ t) dir.
Proof.
  intros [Hn (ro & probe & rest & H1 & H2 & Hp & H3)]. split; [done|]. exists ro, probe, rest.
  split_and!; [set_solver..|]. intros c mid Hm. destruct (H3 c mid Hm) as (e & ? & ?).
  exists e. split; [set_solver|done].
Qed.
#[local] Hint Resolve own_dir_later : autopilot.

Lemma parent_snoc p up : parent p = Some up → ∃ c, p = up ++ [c].
Proof.
  unfold parent. destruct (last p) as [c|] eqn:Hl; [|done]. apply last_Some in Hl as [l ->].
  rewrite removelast_last. destruct c; intros [= <-]; eauto.
Qed.

(** *** The traces of [owned] *)

(** The probing loop that succeeds found the nearest existing ancestor. *)
Lemma exec_probe fuel real p t :
  exec (probe_real fuel real p) t (Ok tt) →
  ∃ probe rest, Ev (Canonicalize probe) (Ok (real ++ rest)) ∈ t ∧ probe `prefix_of` p ∧
    ∀ c mid, probe ++ c :: mid `prefix_of` p → ∃ e,
      Ev (Canonicalize (probe ++ c :: mid)) (Err e) ∈ t ∧ io_kind e = NotFound.
Proof.
  revert p t. induction fuel as [|fuel IH]; intros p t; cbn [probe_real exec];
    intros (a & t' & -> & H); destruct a as [real'|e]; cbn in H.
  1,3: destruct H as [-> H]; destruct (strip_path_prefix real real') as [rest|] eqn:Hs; [|done];
    apply strip_path_prefix_spec in Hs as ->; exists p, rest; (split_and!; [set_solver|done|]);
    intros c mid Hl%prefix_length; rewrite length_app in Hl; cbn in Hl; lia.
  { destruct (bool_decide _), (parent p); naive_solver. }
  destruct (bool_decide _) eqn:Hk; [|naive_solver]. apply bool_decide_eq_true in Hk.
  destruct (parent p) as [up|] eqn:Hp; [|naive_solver]. apply parent_snoc in Hp as [x ->].
  destruct (IH _ _ H) as (probe & rest & Hin & [k ->] & Hmid).
  exists probe, rest. split_and!; [set_solver|rewrite <- app_assoc; by eexists|].
  intros c mid [l Hl].
  destruct l as [|y l _] using rev_ind.
  - rewrite app_nil_r in Hl. rewrite <- Hl. exists e. split; [set_solver|done].
  - rewrite app_assoc in Hl. apply app_inj_tail in Hl as [Hl _].
    destruct (Hmid c mid) as (e' & ? & ?); [by exists l|]. exists e'. split; [set_solver|done].
Qed.

Lemma exec_owned v p t c :
  exec (owned v p) t (Ok c) → owned_lexical (owner v) p = Some c ∧ vetted (owner v) t c.
Proof.
  intros [(e & _ & ?)|(ro & t1 & t2 & -> & (a & -> & Ha)%exec_ask & H)]%exec_bind; [done|].
  destruct a as [ro'|]; [|done]. injection Ha as ->.
  destruct (owned_lexical (owner v) p) as [c'|]; [|by destruct H].
  apply exec_bind in H as [(e & _ & ?)|([] & t3 & t4 & -> & H & [-> [= ->]])]; [done|].
  apply exec_probe in H as (probe & rest & Hin & Hp & Hmid). split; [done|].
  exists ro', probe, rest. split_and!; [set_solver..|].
  intros x mid Hm. destruct (Hmid x mid Hm) as (e & ? & ?). exists e. split; [set_solver|done].
Qed.

Definition is_canonicalize (q : request) : Prop := ∃ p, q = Canonicalize p.

Lemma wp_probe fuel real probe : wp is_canonicalize (λ _, True) (probe_real fuel real probe).
Proof.
  revert probe. induction fuel as [|fuel IH]; intros probe; cbn; (split; [by eexists|]);
    intros [real'|e]; cbn; try done; destruct (bool_decide _); cbn; try done;
    destruct (parent probe); cbn; done.
Qed.

Lemma wp_owned v p : wp is_canonicalize (λ _, True) (owned v p).
Proof.
  unfold owned. apply wp_bind. cbn. split; [by eexists|]. intros [real|e]; cbn; [|done].
  destruct (owned_lexical _ _); [|done].
  apply wp_bind. eapply wp_mono, wp_probe; [done|]. by intros [|].
Qed.

(** Resolving a path only asks where things are. *)
Definition lookups (t : trace) : Prop := Forall (λ e, is_canonicalize (ev_request e)) t.

Lemma owned_lookups v p t r : exec (owned v p) t r → lookups t.
Proof. intros H. by destruct (wp_exec _ _ _ _ _ (wp_owned v p) H). Qed.

(** A tip that was read: where, and from what output. *)
Lemma exec_read_tip v source name t tip :
  exec (read_tip v source name) t (Ok tip) →
  ∃ pre dir out, t = pre ++ [git_ok dir ["rev-parse"; "--verify"; name] out] ∧ lookups pre ∧
    owned_lexical (owner v) source = Some dir ∧ tip = trim out.
Proof.
  intros [(e & _ & ?)|(dir & t1 & t2 & -> & H & Hg)]%exec_bind; [done|].
  pose proof (owned_lookups _ _ _ _ H) as Hl. apply exec_owned in H as [Ho _].
  apply exec_git_then in Hg as [(a & _ & ?)|(out & t' & -> & [-> [= ->]])]; [done|]. eauto 10.
Qed.

Section Confinement.
Context (o : path) (Ho : is_absolute o = true) (Hne : resolve o ≠ []).
Let v := vcs_new o.
Let base := clean o.
Let done_ {A} : trace → result Failure A → Prop := λ _ _, True.

Lemma wph_lookups {A} (Q : trace → result Failure A → Prop) past (p : prog Failure A) :
  wp is_canonicalize (λ _, True) p → (∀ t r, exec p t r → Q (past ++ t) r) → wph (confined base) Q past p.
Proof.
  revert past. induction p as [r|q k IH]; intros past; cbn.
  - intros _ H. specialize (H [] r). rewrite app_nil_r in H. auto.
  - intros [[p ->] Hk] H. split; [done|]. intros a. apply IH; [apply Hk|].
    intros t r Ht. rewrite <- app_assoc. apply H. eauto.
Qed.

Lemma wph_owned {A} past p (f : path → prog Failure A) :
  (∀ t c, own_dir base (past ++ t) c → wph (confined base) done_ (past ++ t) (f c)) →
  wph (confined base) done_ past (c ← owned v p; f c).
Proof.
  intros Hf. apply wph_bind, wph_lookups; [apply wp_owned|].
  intros t [c|e] Ht; [|done]. apply exec_owned in Ht as [Hl (ro & probe & rest & H1 & H2 & Hp & H3)].
  apply Hf. split; [by eapply owned_names|]. exists ro, probe, rest. split_and!; [set_solver..|].
  intros x mid Hm. destruct (H3 x mid Hm) as (e & ? & ?). exists e. split; [set_solver|done].
Qed.

Lemma wph_git {A} past dir args (f : string → prog Failure A) :
  confined base past (Spawn dir "git" args) →
  (∀ t s, wph (confined base) done_ (past ++ t) (f s)) →
  wph (confined base) done_ past (s ← vcs_git dir args; f s).
Proof.
  intros Hd Hf. apply wph_then; [|done|done]. by split.
Qed.

Lemma confined_git past dir args :
  own_dir base past dir → local_subcommand args →
  head args ≠ Some "update-ref" → head args ≠ Some "worktree" →
  confined base past (Spawn dir "git" args).
Proof. intros ? ? Hu Hw. split_and!; [done..| |]; intros ?; congruence. Qed.
End Confinement.

Ltac local_sub := eexists _, _; split; [reflexivity | set_solver].
Ltac vcs_step :=
  match goal with
  | |- wph _ _ _ (owned _ _ ≫= _) => apply wph_owned; [assumption..|]; intros ? ? ?
  | |- wph _ _ _ (vcs_git _ _ ≫= _) =>
      apply wph_git; [apply confined_git; [auto 12 with autopilot | local_sub | discriminate | discriminate] | intros ? ?]
  | |- wph _ _ _ (Ret (Ok _)) => exact I
  | |- wph _ _ _ (Ret (Err _)) => exact I
  end.

Section Operations.
Context (o : path) (Ho : is_absolute o = true) (Hne : resolve o ≠ []).
Let v := vcs_new o.
Let base := clean o.
Let all_confined {A} past (p : prog Failure A) := wph (confined base) (λ _ _, True) past p.

Lemma wph_apply_profile past root profile : own_dir base past root → all_confined past (apply_profile root profile).
Proof.
  intros Hr. unfold apply_profile, all_confined. destruct profile as [|x profile]; [done|].
  apply wph_then; [done..|]. intros ? ?. repeat vcs_step.
Qed.

Lemma wph_read_tip past source name : all_confined past (read_tip v source name).
Proof. unfold read_tip, all_confined. repeat vcs_step. Qed.

Lemma wph_stage_all past root : all_confined past (stage_all v root).
Proof. unfold stage_all, all_confined. repeat vcs_step. Qed.

Lemma wph_snapshot past root message : all_confined past (snapshot v root message).
Proof. unfold snapshot, all_confined. repeat vcs_step. apply wph_read_tip. Qed.

Lemma wph_is_limited past root : all_confined past (is_limited v root).
Proof. unfold is_limited, all_confined. repeat vcs_step. Qed.

Lemma wph_swap past source name new old : all_confined past (swap v source name new old).
Proof.
  unfold swap, all_confined. destruct (allowed_ref name) eqn:Ha; cbn [negb]; [|done].
  vcs_step. apply wph_git; [|intros; exact I]. apply allowed_ref_sound in Ha.
  split_and!; [done|done|local_sub|eauto 6|discriminate].
Qed.

Lemma wph_prepare past root source point profile : all_confined past (prepare v root source point profile).
Proof.
  unfold prepare, all_confined. do 2 vcs_step. apply wph_then; [|done|].
  { destruct (parent _) eqn:Hp; [|done]. split; [|done]. eexists. eauto with autopilot. }
  intros ? ?. apply wph_git.
  { split_and!; [done|auto with autopilot|local_sub|discriminate|]. intros _. eexists _, _. eauto with autopilot. }
  intros ? ?. vcs_step. apply wph_then; [apply wph_apply_profile; auto with autopilot|done|].
  intros ? ?. repeat vcs_step.
Qed.

Lemma wph_materialize past root profile required : all_confined past (materialize v root profile required).
Proof.
  unfold materialize, all_confined. vcs_step. apply wph_then; [done..|]. intros ? ?.
  apply wph_apply_profile. auto with autopilot.
Qed.

Lemma wph_unit_call {A} past q (g : answer q → result Failure unit) (k : prog Failure A) :
  confined base past q → (∀ t, all_confined (past ++ t) k) →
  all_confined past (Call q (λ a, Ret (g a)) ≫= λ _, k).
Proof. intros Hq Hk. apply wph_then; [by split|done|]. intros t _. apply Hk. Qed.

(** Files of the fixture: plain names below the source directory. *)
Lemma own_join past dir s names :
  own_dir base past dir → components s = map Normal names →
  path_join dir (components s) = dir ++ map Normal names.
Proof.
  intros [[n ->] _] Hs. unfold path_join. rewrite Hs.
  assert (is_absolute (map Normal names) = false) as -> by (by destruct names).
  assert (filter (λ c, c ≠ CurDir) (map Normal names) = map Normal names) as Hf.
  { clear Hs. induction names as [|x names IH]; [done|]. cbn [map]. rewrite filter_cons_True by done. by f_equal. }
  destruct (clean_absolute o Ho) as (stk & [H|H] & _); unfold base; rewrite H, Hf; done.
Qed.

Lemma wph_init_fixture past source : all_confined past (init_fixture v source).
Proof.
  unfold init_fixture, all_confined. vcs_step.
  apply wph_unit_call; [eexists; split; [eassumption|left; exists []; by rewrite app_nil_r]|]. intros ?.
  unfold all_confined. do 3 vcs_step.
  assert (∀ past dir s names, own_dir base past dir → components s = map Normal names →
            ∃ d n, own_dir base past d ∧ path_join dir (components s) = d ++ map Normal n) as Hfile.
  { intros. eexists _, _. split; [eassumption|]. by eapply own_join. }
  apply wph_unit_call; [apply (Hfile _ _ _ ["keep.txt"]); auto 12 with autopilot|intros ?].
  apply wph_unit_call; [|intros ?].
  { destruct (Hfile (((((past ++ t) ++ t0) ++ t1) ++ t2) ++ t3) c "hidden" ["hidden"])
      as (d & n & ? & ?); [auto 12 with autopilot|done|]. eexists. split; [apply own_dir_later|]; eauto. }
  apply wph_unit_call; [apply (Hfile _ _ _ ["hidden"; "secret.txt"]); auto 12 with autopilot|intros ?].
  apply wph_then; [apply wph_stage_all|done|intros ? ?; apply wph_snapshot].
Qed.

Lemma wph_ignore {A} past (p : prog Failure A) : all_confined past p → all_confined past (ignore p).
Proof. intros H. by apply wph_then. Qed.

Lemma wph_vcs_do op : all_confined [] (vcs_do v op).
Proof.
  destruct op; cbn [vcs_do]; [|..|exact I|exact I|exact I|exact I].
  - apply wph_ignore, wph_init_fixture.
  - apply wph_prepare.
  - apply wph_materialize.
  - apply wph_ignore, wph_read_tip.
  - apply wph_ignore, wph_is_limited.
  - apply wph_stage_all.
  - apply wph_ignore, wph_snapshot.
  - apply wph_swap.
Qed.
End Operations.

(** C25. Whatever the file system, [git] and other processes answer, every
    request an operation of the version-control driver makes is confined to
    the owner directory (given by an absolute path other than the root): a
    process is [git] with a subcommand that does not talk to a remote, started
    in a directory that is the owner followed by plain names and that was
    vetted earlier in the same trace (the owner resolved, and the nearest
    ancestor that exists resolved to a place at or below it, every longer one
    being absent); a reference update names one of the package's references, a
    worktree is added at such a directory, and files and directories are
    written at such a directory, below it by plain names, or are its parent. *)
Theorem vcs_is_confined (o : path) (op : vcs_op) (past : trace) (e : ioevent) (later : trace)
    (r : result Failure unit) :
  is_absolute o = true → resolve o ≠ [] →
  exec (vcs_do (vcs_new o) op) (past ++ e :: later) r →
  confined (clean o) past (ev_request e).
Proof.
  intros Ho Hne H. destruct (wph_exec _ _ [] _ _ _ (wph_vcs_do o Ho Hne op) H) as [Hg _].
  by apply guarded_at in Hg.
Qed.

(** A path that does not exist yet below an owner that is reached through a
    symbolic link: the parent is found and resolved. *)
Lemma vcs_is_confined_witness :
  let absent := {| io_kind := NotFound; io_message := "" |} in
  let past := [Ev (Canonicalize (components "/own")) (Ok (components "/real/own"));
               Ev (Canonicalize (components "/own/b")) (Err absent);
               Ev (Canonicalize (components "/own")) (Ok (components "/real/own"))] in
  confined (components "/own") past (Spawn (components "/own/b") "git" ["add"; "-A"]).
Proof.
  intros absent past.
  apply (vcs_is_confined (components "/x/../own") (OpStageAll (components "a/../b")) past
           (git_ok (components "/own/b") ["add"; "-A"] "") [] (Ok tt)).
  - reflexivity.
  - vm_compute. discriminate.
  - cbn. do 3 (eexists _, _; split; [reflexivity|]; cbn). eexists _, []. split; [reflexivity|]. cbn. done.
Defined.

(** The reference check admits exactly the package's references: results
    of a workstream's run, and the main, lane, repair and integration branches
    of a run. *)
Theorem allowed_ref_exact (name : string) : allowed_ref name = true ↔ package_ref name.
Proof. split; [apply allowed_ref_sound | apply allowed_ref_complete]. Qed.
