(* ===== verification/Integration.v ===== *)
(** * Integration of accepted work

    [drivers/src/integration/mod.rs]: the serialized queue of candidates and
    the integrator that merges a candidate in a scratch worktree, checks it and
    moves the run's main reference by compare-and-swap. *)

From S2P Require Import Prelude RustColl RustStr Paths Os Traces Failure Vcs.

Inductive CandidateKind := ReleasedContractRepair | ForwardRelease | ClosureRepair | FinalTargetSync.

Record CandidateRequest := {
  candidate_id : string;
  enqueue_sequence : Z;
  kind : CandidateKind;
  candidate_tip : string;
}.

Record PreparedCandidate := {
  pc_request : CandidateRequest;
  old_tip : string;
  new_tip : string;
  tree : string;
  changed_paths : list string;
}.

Record CheckCommand := { program : string; args : list string }.
Record SuccessorWorktree := { sw_root : path; base_tip : string }.
Record DeliveryLifecycle := { forward_integrated : bool; closed : bool }.

Inductive IntegrationError :=
| EmptyQueue | SerializedBusy | UnsafePath | Git
| FocusedCheckFailed (what : string) | Ancestry | Tree | Diff.

Definition final_result_allowed (d : DeliveryLifecycle) : bool := forward_integrated d && closed d.

(** ** The queue *)

Definition priority (k : CandidateKind) : Z :=
  match k with
  | ReleasedContractRepair => 0
  | ForwardRelease => 1
  | ClosureRepair => 2
  | FinalTargetSync => 3
  end.

Definition compare_candidates : CandidateRequest → CandidateRequest → comparison :=
  cmp_then (cmp_on (λ r, priority (kind r)) Z.compare)
    (cmp_then (cmp_on enqueue_sequence Z.compare) (cmp_on candidate_id String.compare)).

Record IntegrationQueue := { items : list CandidateRequest; active : bool }.
Definition queue_default : IntegrationQueue := {| items := []; active := false |}.

Definition enqueue (q : IntegrationQueue) (request : CandidateRequest) : IntegrationQueue :=
  {| items := sort_by compare_candidates (items q ++ [request]); active := active q |}.

Definition start_next (q : IntegrationQueue)
  : IntegrationQueue * result IntegrationError CandidateRequest :=
  if active q then (q, Err SerializedBusy) else
  match items q with
  | [] => (q, Err EmptyQueue)
  | first :: rest => ({| items := rest; active := true |}, Ok first)
  end.

Definition complete_active (q : IntegrationQueue) : IntegrationQueue :=
  {| items := items q; active := false |}.

(** ** The integrator *)

Record ReleaseIntegrator := {
  ri_owner : path;
  ri_source : path;
  run_main_ref : string;
  ri_vcs : GitVcs;
}.

Definition integrator_new (owner source : path) (run_main_ref : string) : ReleaseIntegrator :=
  let owner := clean owner in
  {| ri_owner := owner; ri_source := clean source; run_main_ref := run_main_ref;
     ri_vcs := vcs_new owner |}.

Definition map_failure (error : Failure) : IntegrationError :=
  match error with
  | Unsafe OutOfScopeWrite => UnsafePath
  | Recoverable Tier1 => Git
  | Transient Backoff => Git
  | _ => Git
  end.

Definition integration_owned (i : ReleaseIntegrator) (p : path) : prog IntegrationError path :=
  Ret (ok_or (owned_lexical (ri_owner i) p) UnsafePath).

Definition integration_git (dir : path) (args : list string) : prog IntegrationError string :=
  git_output Git dir args.

Definition diff_paths (raw : string) : list string := lines raw.

Definition run_focused_check (root : path) (check : CheckCommand) : prog IntegrationError unit :=
  if is_empty (program check) then Ret (Err (FocusedCheckFailed "empty-program")) else
  Call (Spawn root (program check) (args check)) (λ a, Ret
    match a with
    | Err _ => Err (FocusedCheckFailed (program check))
    | Ok out => if succeeded out then Ok tt else Err (FocusedCheckFailed (program check))
    end).
Definition run_focused_checks (root : path) (checks : list CheckCommand)
  : prog IntegrationError unit := prog_for (run_focused_check root) checks.

Definition verify_merge (root : path) (old_tip candidate_tip new_tip tree : string)
  : prog IntegrationError unit :=
  integration_git root ["merge-base"; "--is-ancestor"; old_tip; new_tip] ≫= λ _,
  integration_git root ["merge-base"; "--is-ancestor"; candidate_tip; new_tip] ≫= λ _,
  head_tree ← integration_git root ["rev-parse"; "HEAD^{tree}"];
  if negb (trim head_tree =s tree) then Ret (Err Tree) else
  diff_a ← integration_git root ["diff"; "--name-only"; old_tip; new_tip];
  diff_b ← integration_git root ["diff"; "--name-only"; old_tip; "HEAD"];
  if negb (diff_paths diff_a =s diff_paths diff_b) then Ret (Err Diff) else
  Ret (Ok tt).

Definition prepare_release (i : ReleaseIntegrator) (request : CandidateRequest)
    (worktree_root : path) (checks : list CheckCommand)
  : prog IntegrationError PreparedCandidate :=
  source ← integration_owned i (ri_source i);
  root ← integration_owned i worktree_root;
  old_tip ← prog_map_err map_failure (read_tip (ri_vcs i) source (run_main_ref i));
  integration_git source ["worktree"; "add"; "--detach"; to_os root; old_tip] ≫= λ _,
  integration_git root ["merge"; "--no-ff"; "--no-commit"; candidate_tip request] ≫= λ _,
  prog_map_err map_failure
    (snapshot (ri_vcs i) root ("autopilot release " +:+ candidate_id request)) ≫= λ _,
  run_focused_checks root checks ≫= λ _,
  new_tip ← integration_git root ["rev-parse"; "HEAD"];
  tree ← integration_git root ["rev-parse"; "HEAD^{tree}"];
  verify_merge root old_tip (candidate_tip request) (trim new_tip) (trim tree) ≫= λ _,
  changed ← integration_git root ["diff"; "--name-only"; old_tip; trim new_tip];
  match diff_paths changed with
  | [] => Ret (Err Diff)
  | changed_paths =>
      Ret (Ok {| pc_request := request; old_tip := old_tip; new_tip := trim new_tip;
                 tree := trim tree; changed_paths := changed_paths |})
  end.

Definition cas_release (i : ReleaseIntegrator) (prepared : PreparedCandidate)
  : prog IntegrationError unit :=
  source ← integration_owned i (ri_source i);
  prog_map_err map_failure
    (swap (ri_vcs i) source (run_main_ref i) (new_tip prepared) (old_tip prepared)).

Definition merge_and_cas (i : ReleaseIntegrator) (request : CandidateRequest)
    (worktree_root : path) (checks : list CheckCommand)
  : prog IntegrationError PreparedCandidate :=
  prepared ← prepare_release i request worktree_root checks;
  cas_release i prepared ≫= λ _, Ret (Ok prepared).

Definition prepare_successor (i : ReleaseIntegrator) (root : path) (profile : list string)
  : prog IntegrationError SuccessorWorktree :=
  source ← integration_owned i (ri_source i);
  root ← integration_owned i root;
  base_tip ← prog_map_err map_failure (read_tip (ri_vcs i) source (run_main_ref i));
  prog_map_err map_failure (prepare (ri_vcs i) root source base_tip profile) ≫= λ _,
  Ret (Ok {| sw_root := root; base_tip := base_tip |}).

(** ** The queue serializes and never loses a candidate *)

Inductive queue_op := OpEnqueue (r : CandidateRequest) | OpStart | OpComplete.

(** The queue after a sequence of operations, what was put in and what was
    started, in order. *)
Record queue_history := {
  qh_queue : IntegrationQueue;
  qh_enqueued : list CandidateRequest;
  qh_started : list CandidateRequest;
}.

Definition queue_step (s : queue_history) (op : queue_op) : queue_history :=
  match op with
  | OpEnqueue r =>
      {| qh_queue := enqueue (qh_queue s) r; qh_enqueued := qh_enqueued s ++ [r];
         qh_started := qh_started s |}
  | OpStart =>
      match start_next (qh_queue s) with
      | (q, Ok r) => {| qh_queue := q; qh_enqueued := qh_enqueued s; qh_started := qh_started s ++ [r] |}
      | (q, Err _) => {| qh_queue := q; qh_enqueued := qh_enqueued s; qh_started := qh_started s |}
      end
  | OpComplete =>
      {| qh_queue := complete_active (qh_queue s); qh_enqueued := qh_enqueued s;
         qh_started := qh_started s |}
  end.
Definition queue_run (ops : list queue_op) : queue_history :=
  fold_left queue_step ops {| qh_queue := queue_default; qh_enqueued := []; qh_started := [] |}.

Definition queue_inv (s : queue_history) : Prop :=
  StronglySorted (cmp_le compare_candidates) (items (qh_queue s)) ∧
  qh_started s ++ items (qh_queue s) ≡ₚ qh_enqueued s.

#[global] Instance compare_candidates_total : TotalCmp compare_candidates.
Proof. unfold compare_candidates. apply _. Qed.

Lemma queue_step_inv s op : queue_inv s → queue_inv (queue_step s op).
Proof.
  intros [Hs Hp]. destruct op as [r| |]; cbn.
  - split; cbn; [apply (sort_by_sorted _)|]. rewrite sort_by_perm. by rewrite app_assoc, Hp.
  - unfold start_next. destruct (active (qh_queue s)); cbn; [by split|].
    destruct (items (qh_queue s)) as [|x l] eqn:Hi; cbn.
    + split; cbn; [by rewrite Hi|by rewrite Hi].
    + split; cbn; [by apply StronglySorted_inv in Hs as [? _]|]. by rewrite <- app_assoc.
  - by split.
Qed.

Lemma queue_run_snoc ops op : queue_run (ops ++ [op]) = queue_step (queue_run ops) op.
Proof. unfold queue_run. by rewrite fold_left_app. Qed.

Lemma queue_run_inv ops : queue_inv (queue_run ops).
Proof.
  induction ops as [|op ops IH] using rev_ind; [by repeat constructor|].
  rewrite queue_run_snoc. by apply queue_step_inv.
Qed.

(** C32. The integration queue is serial and loses nothing: after any sequence
    of operations the started and the waiting candidates together are exactly
    the enqueued ones; a start is refused while a candidate is active or when
    nothing waits, and otherwise hands out a waiting candidate that no other
    waiting one precedes by kind priority, then enqueue sequence, then id, and
    makes the queue busy until the active candidate completes. *)
Theorem integration_queue_serial (ops : list queue_op) :
  let s := queue_run ops in
  qh_started s ++ items (qh_queue s) ≡ₚ qh_enqueued s ∧
  match (start_next (qh_queue s)).2 with
  | Ok r =>
      active (qh_queue s) = false ∧ active (start_next (qh_queue s)).1 = true ∧
      items (qh_queue s) ≡ₚ r :: items (start_next (qh_queue s)).1 ∧
      ∀ x, x ∈ items (qh_queue s) → cmp_le compare_candidates r x
  | Err SerializedBusy => active (qh_queue s) = true
  | Err e => e = EmptyQueue ∧ items (qh_queue s) = []
  end.
Proof.
  intros s. destruct (queue_run_inv ops) as [Hs Hp]. split; [done|].
  fold s in Hs, Hp. unfold start_next. destruct (active (qh_queue s)) eqn:Ha; cbn; [done|].
  destruct (items (qh_queue s)) as [|x l] eqn:Hi; cbn; [done|].
  split_and!; [done..|]. intros y [->|Hy]%elem_of_cons.
  - reflexivity.
  - apply StronglySorted_inv in Hs as [_ Hall]. rewrite Forall_forall in Hall. by apply Hall.
Qed.

(** ** A release moves main only after every check *)

Definition is_update_ref (q : request) : Prop :=
  ∃ dir rest, q = Spawn dir "git" ("update-ref" :: rest).

(** The commands the plan asks for are the only ones that are not the
    integrator's own. *)
Definition check_request (root : path) (c : CheckCommand) : request := Spawn root (program c) (args c).
Definition quiet (root : path) (checks : list CheckCommand) (q : request) : Prop :=
  is_update_ref q → q ∈ map (check_request root) checks.

(** A focused check ran in the worktree and succeeded. *)
Definition check_passed (root : path) (c : CheckCommand) (e : ioevent) : Prop :=
  program c ≠ "" ∧ ∃ out, e = Ev (check_request root c) (Ok {| succeeded := true; stdout := out |}).

(** Everything that happened before the compare-and-swap, with the answers:
    main was read in [dir] and was at the old tip; a worktree was added there,
    the candidate merged and committed; every focused check passed, in order;
    then the worktree's head is the new tip, with the prepared tree, both the
    old tip and the candidate's tip are ancestors of it, the tree and the
    changed paths read again are the same, and the paths are the prepared ones.
    Between these only paths are resolved. *)
Definition checked (i : ReleaseIntegrator) (req : CandidateRequest) (source root : path)
    (checks : list CheckCommand) (prepared : PreparedCandidate) (past : trace) : Prop :=
  let old := old_tip prepared in
  let new := new_tip prepared in
  ∃ l1 l2 l3 l4 ran dir wt main added merged committed head head_out tree1 anc1 anc2 tree2 diff_a diff_b changed,
    past =
      l1 ++ [git_ok dir ["rev-parse"; "--verify"; run_main_ref i] main;
             git_ok source ["worktree"; "add"; "--detach"; to_os root; old] added;
             git_ok root ["merge"; "--no-ff"; "--no-commit"; candidate_tip req] merged]
      ++ l2 ++ [git_ok wt ["commit"; "-m"; "autopilot release " +:+ candidate_id req] committed]
      ++ l3 ++ [head]
      ++ ran
      ++ [git_ok root ["rev-parse"; "HEAD"] head_out;
          git_ok root ["rev-parse"; "HEAD^{tree}"] tree1;
          git_ok root ["merge-base"; "--is-ancestor"; old; new] anc1;
          git_ok root ["merge-base"; "--is-ancestor"; candidate_tip req; new] anc2;
          git_ok root ["rev-parse"; "HEAD^{tree}"] tree2;
          git_ok root ["diff"; "--name-only"; old; new] diff_a;
          git_ok root ["diff"; "--name-only"; old; "HEAD"] diff_b;
          git_ok root ["diff"; "--name-only"; old; new] changed]
      ++ l4 ∧
    lookups l1 ∧ lookups l2 ∧ lookups l3 ∧ lookups l4 ∧
    (∃ d out, head = git_ok d ["rev-parse"; "--verify"; "HEAD"] out) ∧
    owned_lexical (owner (ri_vcs i)) root = Some wt ∧
    Forall2 (check_passed root) checks ran ∧
    trim main = old ∧ trim head_out = new ∧
    trim tree1 = tree prepared ∧ trim tree2 = tree prepared ∧
    lines diff_a = lines diff_b ∧ lines changed = changed_paths prepared ∧ changed_paths prepared ≠ [].

Section Quiet.
Context (root : path) (checks : list CheckCommand).
Let Quiet := quiet root checks.

Lemma quiet_spawn dir program sub rest : sub ≠ "update-ref" → Quiet (Spawn dir program (sub :: rest)).
Proof. intros Hs (d & r & H). congruence. Qed.
Lemma quiet_canonicalize q : is_canonicalize q → Quiet q.
Proof. intros [p ->] (d & r & H). discriminate. Qed.

Lemma wp_quiet_then {E A B} (p : prog E A) (f : A → prog E B) :
  wp Quiet (λ _, True) p → (∀ a, wp Quiet (λ _, True) (f a)) → wp Quiet (λ _, True) (p ≫= f).
Proof. intros H Hf. apply wp_bind. eapply wp_mono, H; [done|]. intros [|]; done. Qed.

Lemma wp_quiet_git {E A} (e : E) dir sub rest (f : string → prog E A) :
  sub ≠ "update-ref" → (∀ s, wp Quiet (λ _, True) (f s)) →
  wp Quiet (λ _, True) (git_output e dir (sub :: rest) ≫= f).
Proof. intros Hs Hf. apply wp_quiet_then; [|done]. by apply wp_git; [apply quiet_spawn|..]. Qed.

Lemma wp_quiet_owned v p : wp Quiet (λ _, True) (owned v p).
Proof. eapply wp_mono, wp_owned; [apply quiet_canonicalize|done]. Qed.

Lemma wp_quiet_read_tip v source name : wp Quiet (λ _, True) (read_tip v source name).
Proof. apply wp_quiet_then; [apply wp_quiet_owned|]. intros c. by apply wp_quiet_git. Qed.

Lemma wp_quiet_snapshot v dir message : wp Quiet (λ _, True) (snapshot v dir message).
Proof.
  apply wp_quiet_then; [apply wp_quiet_owned|]. intros c. apply wp_quiet_git; [done|].
  intros _. apply wp_quiet_read_tip.
Qed.

Lemma wp_quiet_vcs {A B} (p : prog Failure A) (f : A → prog IntegrationError B) :
  wp Quiet (λ _, True) p → (∀ a, wp Quiet (λ _, True) (f a)) →
  wp Quiet (λ _, True) (prog_map_err map_failure p ≫= f).
Proof. intros Hp Hf. apply wp_quiet_then; [|done]. by apply wp_map_err. Qed.

Lemma wp_quiet_checks : wp Quiet (λ _, True) (run_focused_checks root checks).
Proof.
  apply wp_for; [done|done|]. apply Forall_forall. intros c Hc. unfold run_focused_check.
  destruct (is_empty (program c)); [done|]. split; [|done]. intros _. apply list_elem_of_fmap. by exists c.
Qed.

Lemma wp_quiet_verify old candidate new tr : wp Quiet (λ _, True) (verify_merge root old candidate new tr).
Proof.
  unfold verify_merge. repeat (apply wp_quiet_git; [done|]; intros ?). case_match; [done|].
  repeat (apply wp_quiet_git; [done|]; intros ?). by case_match.
Qed.

Lemma wp_quiet_prepare i req worktree_root :
  owned_lexical (ri_owner i) worktree_root = Some root →
  wp Quiet (λ _, True) (prepare_release i req worktree_root checks).
Proof.
  intros Hroot. unfold prepare_release, integration_owned. rewrite Hroot.
  apply wp_quiet_then; [done|]. intros source. apply wp_lift; [done|]. intros ? [= <-].
  apply wp_quiet_vcs; [apply wp_quiet_read_tip|]. intros old.
  do 2 (apply wp_quiet_git; [done|]; intros ?).
  apply wp_quiet_vcs; [apply wp_quiet_snapshot|]. intros _.
  apply wp_quiet_then; [apply wp_quiet_checks|]. intros _.
  do 2 (apply wp_quiet_git; [done|]; intros ?).
  apply wp_quiet_then; [apply wp_quiet_verify|]. intros _.
  apply wp_quiet_git; [done|]. intros changed. by destruct (diff_paths changed).
Qed.
End Quiet.

(** *** The traces of the driver's steps *)

Lemma exec_snapshot v root message t tip :
  exec (snapshot v root message) t (Ok tip) →
  ∃ l1 l2 wt d committed out,
    t = l1 ++ [git_ok wt ["commit"; "-m"; message] committed]
      ++ l2 ++ [git_ok d ["rev-parse"; "--verify"; "HEAD"] out] ∧
    lookups l1 ∧ lookups l2 ∧ owned_lexical (owner v) root = Some wt.
Proof.
  intros [(e & _ & ?)|(wt & t1 & t2 & -> & H & Hg)]%exec_bind; [done|].
  pose proof (owned_lookups _ _ _ _ H) as Hl. apply exec_owned in H as [Ho _].
  apply exec_git_then in Hg as [(a & _ & ?)|(out & t' & -> & Ht)]; [done|].
  apply exec_read_tip in Ht as (pre & dir & out' & -> & Hpre & _).
  exists t1, pre, wt, dir, out, out'. auto.
Qed.

Lemma exec_checks root checks t :
  exec (run_focused_checks root checks) t (Ok tt) → Forall2 (check_passed root) checks t.
Proof.
  intros H. apply (exec_for_ok (λ c u, ∃ e, u = [e] ∧ check_passed root c e)) in H as (ts & -> & Hts).
  - induction Hts as [|c u checks ts (e & -> & He) _ IH]; cbn; constructor; auto.
  - clear. intros c t. unfold run_focused_check, is_empty. case_bool_decide; [by intros []|].
    intros (a & -> & Ha)%exec_ask. destruct a as [[[] out]|]; try discriminate.
    eexists. split; [done|]. split; [done|]. by exists out.
Qed.

Lemma exec_verify root old candidate new tr t :
  exec (verify_merge root old candidate new tr) t (Ok tt) →
  ∃ anc1 anc2 tree2 diff_a diff_b,
    t = [git_ok root ["merge-base"; "--is-ancestor"; old; new] anc1;
         git_ok root ["merge-base"; "--is-ancestor"; candidate; new] anc2;
         git_ok root ["rev-parse"; "HEAD^{tree}"] tree2;
         git_ok root ["diff"; "--name-only"; old; new] diff_a;
         git_ok root ["diff"; "--name-only"; old; "HEAD"] diff_b] ∧
    trim tree2 = tr ∧ lines diff_a = lines diff_b.
Proof.
  intros H. unfold verify_merge in H.
  apply exec_git_then in H as [(? & _ & ?)|(anc1 & t1 & -> & H)]; [done|].
  apply exec_git_then in H as [(? & _ & ?)|(anc2 & t2 & -> & H)]; [done|].
  apply exec_git_then in H as [(? & _ & ?)|(tree2 & t3 & -> & H)]; [done|].
  case_bool_decide as Ht; [|by destruct H]. cbn [negb] in H.
  apply exec_git_then in H as [(? & _ & ?)|(da & t4 & -> & H)]; [done|].
  apply exec_git_then in H as [(? & _ & ?)|(db & t5 & -> & H)]; [done|].
  case_bool_decide as Hd; [|by destruct H]. cbn [negb] in H. destruct H as [-> _].
  eauto 10.
Qed.

Lemma exec_prepare i req worktree_root root checks t prepared :
  owned_lexical (ri_owner i) worktree_root = Some root →
  exec (prepare_release i req worktree_root checks) t (Ok prepared) →
  pc_request prepared = req ∧
  ∃ source, owned_lexical (ri_owner i) (ri_source i) = Some source ∧
    ∀ l4, lookups l4 → checked i req source root checks prepared (t ++ l4).
Proof.
  intros Hroot H. unfold prepare_release, integration_owned in H. rewrite Hroot in H.
  apply exec_lift in H as [(? & _ & _ & ?)|(source & Hs & H)]; [done|].
  apply exec_lift in H as [(? & _ & _ & ?)|(? & [= <-] & H)]; [done|].
  apply exec_bind in H as [(? & _ & ?)|(old & t1 & t2 & -> & H1 & H)]; [done|].
  apply exec_map_err in H1 as ([old'|] & H1 & [= ->]).
  apply exec_read_tip in H1 as (l1 & dir & main & -> & Hl1 & _ & ->).
  apply exec_git_then in H as [(? & _ & ?)|(added & t3 & -> & H)]; [done|].
  apply exec_git_then in H as [(? & _ & ?)|(merged & t4 & -> & H)]; [done|].
  apply exec_bind in H as [(? & _ & ?)|(snap & t5 & t6 & -> & H5 & H)]; [done|].
  apply exec_map_err in H5 as ([snap'|] & H5 & [= ->]).
  apply exec_snapshot in H5 as (l2 & l3 & wt & d & committed & out & -> & Hl2 & Hl3 & Hwt).
  apply exec_bind in H as [(? & _ & ?)|([] & ran & t8 & -> & H7%exec_checks & H)]; [done|].
  apply exec_git_then in H as [(? & _ & ?)|(head_out & t9 & -> & H)]; [done|].
  apply exec_git_then in H as [(? & _ & ?)|(tree1 & t10 & -> & H)]; [done|].
  apply exec_bind in H as [(? & _ & ?)|([] & t11 & t12 & -> & H11 & H)]; [done|].
  apply exec_verify in H11 as (anc1 & anc2 & tree2 & da & db & -> & Ht & Hd).
  apply exec_git_then in H as [(? & _ & ?)|(changed & t13 & -> & H)]; [done|].
  unfold diff_paths in H. destruct (lines changed) as [|c cs] eqn:Hch; destruct H as [-> [= ->]].
  split; [done|]. exists source.
  split; [unfold ok_or in Hs; destruct (owned_lexical _ (ri_source i)); congruence|].
  intros l4 Hl4. unfold checked. cbn [old_tip new_tip tree changed_paths].
  exists l1, l2, l3, l4, ran, dir, wt, main, added, merged, committed,
    (git_ok d ["rev-parse"; "--verify"; "HEAD"] out), head_out, tree1, anc1, anc2, tree2, da, db, changed.
  split; [by repeat (rewrite <- !app_assoc; cbn [app])|]. split_and!; eauto.
Qed.

Definition cas_request (i : ReleaseIntegrator) (dir : path) (prepared : PreparedCandidate) : request :=
  Spawn dir "git" ["update-ref"; run_main_ref i; new_tip prepared; old_tip prepared].

(** [git] made the update. *)
Definition answered_ok (a : result io_error output) : Prop :=
  ∃ out, a = Ok {| succeeded := true; stdout := Some out |}.

Lemma exec_cas i prepared t r :
  exec (cas_release i prepared) t r →
  (∃ pre dir a, t = pre ++ [Ev (cas_request i dir prepared) a] ∧ lookups pre ∧
     package_ref (run_main_ref i) ∧
     (r = Ok tt ∧ answered_ok a ∨ r = Err Git ∧ ¬ answered_ok a)) ∨
  (lookups t ∧ ∃ e, r = Err e).
Proof.
  intros [(e & _ & -> & ->)|(source & _ & H)]%exec_lift; [right; split; [constructor|eauto]|].
  apply exec_map_err in H as (r' & H & ->). unfold swap in H.
  destruct (allowed_ref (run_main_ref i)) eqn:Ha; cbn [negb] in H.
  2:{ destruct H as [-> ->]. right. split; [constructor|by eexists]. }
  apply allowed_ref_sound in Ha.
  apply exec_bind in H as [(e & H%owned_lookups & ->)|(dir & t1 & t2 & -> & H%owned_lookups & Hg)].
  { right. split; [done|by eexists]. }
  apply exec_bind in Hg as [(e & Hg & ->)|(out & t3 & t4 & -> & Hg & [-> ->])];
    apply exec_git in Hg as [(out' & -> & He)|(a & -> & He & Hno)]; try discriminate; left;
    exists t1, dir; eexists; (split; [reflexivity|]); (split_and!; [done..|]).
  - right. injection He as ->. split; [done|]. intros [out ->]. by apply (Hno out).
  - left. split; [done|]. by exists out'.
Qed.

(** C14. A release moves the run's main reference last and only after its
    checks passed: in every run of [merge_and_cas] in a worktree below the
    owner, whatever [git] and the checks answer, either no reference update of
    the integrator is requested and the result is an error, or the last request
    is one compare-and-swap of the run's main reference (a package reference)
    from the old tip to the new one, the result is the prepared candidate
    exactly when [git] reports success, and before it, in order: main was at
    the old tip; the candidate was merged into it in the worktree and committed;
    every focused check ran there and succeeded; the worktree's head was the new
    tip with the prepared tree; [git] confirmed that the old tip and the
    candidate's tip are ancestors of it; and the tree and the changed paths,
    read again, agreed and are the ones reported, with at least one path. *)
Theorem release_is_checked_cas (i : ReleaseIntegrator) (req : CandidateRequest)
    (worktree_root root : path) (checks : list CheckCommand) (t : trace)
    (r : result IntegrationError PreparedCandidate) :
  owned_lexical (ri_owner i) worktree_root = Some root →
  exec (merge_and_cas i req worktree_root checks) t r →
  (∃ past dir source prepared a, t = past ++ [Ev (cas_request i dir prepared) a] ∧
     package_ref (run_main_ref i) ∧ pc_request prepared = req ∧
     owned_lexical (ri_owner i) (ri_source i) = Some source ∧
     checked i req source root checks prepared past ∧
     Forall (λ e, quiet root checks (ev_request e)) past ∧
     (r = Ok prepared ∧ answered_ok a ∨ r = Err Git ∧ ¬ answered_ok a)) ∨
  (Forall (λ e, quiet root checks (ev_request e)) t ∧ ∃ e, r = Err e).
Proof.
  intros Hroot H. pose proof (wp_quiet_prepare root checks i req _ Hroot) as Hq.
  assert (∀ l, lookups l → Forall (λ e, quiet root checks (ev_request e)) l) as Hl.
  { intros l Hl. eapply Forall_impl; [exact Hl|]. intros e. apply quiet_canonicalize. }
  apply exec_bind in H as [(e & H & ->)|(prepared & t1 & t2 & -> & H1 & H)].
  { right. destruct (wp_exec _ _ _ _ _ Hq H). eauto. }
  destruct (wp_exec _ _ _ _ _ Hq H1) as [Hq1 _].
  destruct (exec_prepare _ _ _ _ _ _ _ Hroot H1) as (Hreq & source & Hs & Hc).
  apply exec_bind in H as [(e & H & ->)|([] & t3 & t4 & -> & H & [-> ->])];
    apply exec_cas in H as [(pre & dir & a & -> & Hpre & Hp & Hr)|[Ht [e' He]]].
  - left. exists (t1 ++ pre), dir, source, prepared, a.
    split_and!; [by rewrite app_assoc|done..|by apply Hc|by apply Forall_app; auto|naive_solver].
  - right. split; [apply Forall_app; auto|eauto].
  - left. exists (t1 ++ pre), dir, source, prepared, a.
    split_and!; [by rewrite app_nil_r, app_assoc|done..|by apply Hc|by apply Forall_app; auto|naive_solver].
  - done.
Qed.

(** The prepared candidate carries the request it was prepared for. *)
Lemma prepare_release_request i req worktree_root checks :
  wp (λ _, True) (λ r, ∀ prepared, r = Ok prepared → pc_request prepared = req)
    (prepare_release i req worktree_root checks).
Proof.
  unfold prepare_release. repeat (apply wp_bind_any; [done|intros ?]).
  case_match; cbn; [done|]. by intros ? [= <-].
Qed.

Lemma merge_and_cas_request i req worktree_root checks :
  wp (λ _, True) (λ r, ∀ prepared, r = Ok prepared → pc_request prepared = req)
    (merge_and_cas i req worktree_root checks).
Proof.
  apply wp_bind. eapply wp_mono, prepare_release_request; [done|].
  intros [prepared|e] H; [|done]. apply wp_bind_any; [done|]. intros _ ? [= <-]. auto.
Qed.

(** *** Witness: a world in which [git] answers every command. *)

Definition demo_git (args : list string) : string :=
  match args with
  | "diff" :: _ => "src/lib.rs"
  | _ => "tip-1"
  end.
Definition demo_handler : handler unit := λ w q,
  match q return unit * answer q with
  | Canonicalize p => (w, Ok p)
  | ReadLink _ => (w, Err {| io_kind := InvalidInput; io_message := "" |})
  | ReadFile _ => (w, Ok "")
  | CreateNew _ | OpenCreate _ | OpenTruncate _ => (w, Ok 0%nat)
  | TryLock _ => (w, Ok true)
  | Spawn _ _ args => (w, Ok {| succeeded := true; stdout := Some (demo_git args) |})
  | CreateDirAll _ | WriteFile _ _ | WriteHandle _ _ | SyncHandle _ | SyncDir _ | SetHandleMode _ _ | Sleep _ | SetMode _ _
  | Rename _ _ | RemoveFile _ | RemoveDirAll _ => (w, Ok tt)
  | other => (w, refuse other)
  end.
Definition demo_integrator : ReleaseIntegrator :=
  integrator_new (components "/own") (components "/own/repo") "refs/heads/autopilot/run/r1/main".
Definition demo_request : CandidateRequest :=
  {| candidate_id := "c1"; enqueue_sequence := 1; kind := ForwardRelease; candidate_tip := "tip-c" |}.

Definition demo_check : CheckCommand := {| program := "cargo"; args := ["test"] |}.

Lemma release_is_checked_cas_witness :
  ∃ t source prepared past,
    exec (merge_and_cas demo_integrator demo_request (components "wt") [demo_check]) t (Ok prepared) ∧
    checked demo_integrator demo_request source (components "/own/wt") [demo_check] prepared past.
Proof.
  destruct (run_exec demo_handler tt (merge_and_cas demo_integrator demo_request (components "wt") [demo_check]))
    as (t & Ht & _).
  assert (∃ p, (run demo_handler tt (merge_and_cas demo_integrator demo_request (components "wt") [demo_check])).2 = Ok p)
    as [p Hp] by (eexists; vm_compute; reflexivity).
  rewrite Hp in Ht.
  destruct (release_is_checked_cas demo_integrator demo_request (components "wt")
              (components "/own/wt") [demo_check] t (Ok p)) as [H|H].
  - vm_compute. reflexivity.
  - exact Ht.
  - destruct H as (past & dir & source & prepared & a & _ & _ & _ & _ & Hc & _ & [[Hr _]|[Hr _]]); [|discriminate].
    injection Hr as <-. exists t, source, p, past. split; [exact Ht|exact Hc].
  - destruct H as [_ [e He]]. discriminate.
Defined.
