(* ===== verification/Lifecycle.v ===== *)
(** * Closing and aborting a run

    [drivers/src/lifecycle/mod.rs]: a close removes the artifacts that are
    proven safe, archives the protected evidence and publishes the result
    reference; an abort archives and deletes nothing. *)

From S2P Require Import Prelude RustStr Paths Os Traces Failure Vcs.

Definition ZERO : string := "0000000000000000000000000000000000000000".

Record ProtectedEvidence := { pe_name : string; pe_bytes : string }.

Inductive CleanupArtifact := PackageWorktree (p : path) | TempRef (name : string).
Record CleanupProof := { artifact : CleanupArtifact; proven_safe : bool }.

Record CloseRequest := {
  cl_workstream : string;
  cl_run_id : string;
  final_tip : string;
  target_ref : string;
  cl_evidence : list ProtectedEvidence;
  cleanup : list CleanupProof;
}.

Record AbortRequest := {
  ab_workstream : string;
  ab_run_id : string;
  reason : string;
  ab_evidence : list ProtectedEvidence;
}.

Record LifecycleReport := {
  lr_result_ref : option string;
  archive_dir : path;
  watchdog_stopped : bool;
  removed : list string;
}.

Inductive LifecycleError := UnsafeCleanup_ | UnsafePath_ | Git_ | Io | TargetMoved.

Record LocalLifecycle := {
  ll_owner : path;
  ll_source : path;
  archive_root : path;
  ll_vcs : GitVcs;
}.

Definition lifecycle_new (owner source archive_root : path) : LocalLifecycle :=
  let owner := clean owner in
  {| ll_source := clean source; archive_root := clean archive_root;
     ll_vcs := vcs_new owner; ll_owner := owner |}.

Definition lifecycle_map_failure (error : Failure) : LifecycleError :=
  match error with
  | Unsafe OutOfScopeWrite => UnsafePath_
  | _ => Git_
  end.

Definition lifecycle_owned (l : LocalLifecycle) (p : path) : result LifecycleError path :=
  ok_or (owned_lexical (ll_owner l) p) UnsafePath_.

Definition lifecycle_git (l : LocalLifecycle) (args : list string) : prog LifecycleError string :=
  git_output Git_ (ll_source l) args.

Definition io {X : Type} (_ : X) : LifecycleError := Io.

Definition archive_one (l : LocalLifecycle) (dir : path) (item : ProtectedEvidence)
  : prog LifecycleError unit :=
  dst ← Ret (lifecycle_owned l (path_join dir (components (pe_name item))));
  write_file io dst (pe_bytes item).

Definition archive (l : LocalLifecycle) (workstream run_id outcome : string)
    (evidence : list ProtectedEvidence) : prog LifecycleError path :=
  dir ← Ret (lifecycle_owned l
               (path_join (path_join (archive_root l) (components workstream)) (components run_id)));
  create_dir_all io dir ≫= λ _,
  write_file io (path_join dir (components "outcome.txt")) outcome ≫= λ _,
  prog_for (archive_one l dir) evidence ≫= λ _,
  Ret (Ok dir).

(** The first loop of [close]: every cleanup item is proven safe, and is a
    worktree below the owner or a temporary package reference. *)
Definition admit_cleanup (l : LocalLifecycle) (proof : CleanupProof)
  : result LifecycleError CleanupArtifact :=
  if negb (proven_safe proof) then Err UnsafeCleanup_ else
  match artifact proof with
  | PackageWorktree p => p' ← lifecycle_owned l p; Ok (PackageWorktree p')
  | TempRef name =>
      match strip_prefix "refs/autopilot/tmp/" name with
      | Some _ => Ok (TempRef name)
      | None => Err UnsafeCleanup_
      end
  end.

(** The second loop: the removals. *)
Definition remove_artifact (l : LocalLifecycle) (a : CleanupArtifact) : prog LifecycleError string :=
  match a with
  | PackageWorktree p => remove_dir_all io p ≫= λ _, Ret (Ok (to_os p))
  | TempRef name => lifecycle_git l ["update-ref"; "-d"; name] ≫= λ _, Ret (Ok name)
  end.

Definition close (l : LocalLifecycle) (request : CloseRequest)
  : prog LifecycleError LifecycleReport :=
  target_before ← prog_map_err lifecycle_map_failure
                    (read_tip (ll_vcs l) (ll_source l) (target_ref request));
  let result_ref := "refs/autopilot/results/" +:+ cl_workstream request +:+ "/" +:+ cl_run_id request in
  todo ← Ret (collect_res (admit_cleanup l) (cleanup request));
  removed ← prog_collect (remove_artifact l) todo;
  target_after ← prog_map_err lifecycle_map_failure
                   (read_tip (ll_vcs l) (ll_source l) (target_ref request));
  if negb (target_after =s target_before) then Ret (Err TargetMoved) else
  dir ← archive l (cl_workstream request) (cl_run_id request) "closed" (cl_evidence request);
  prog_match (swap (ll_vcs l) (ll_source l) result_ref (final_tip request) ZERO) (λ r,
    match r with
    | Err error => remove_dir_all io dir ≫= λ _, Ret (Err (lifecycle_map_failure error))
    | Ok _ => Ret (Ok {| lr_result_ref := Some result_ref; archive_dir := dir;
                         watchdog_stopped := true; removed := removed |})
    end).

Definition abort (l : LocalLifecycle) (request : AbortRequest)
  : prog LifecycleError LifecycleReport :=
  dir ← archive l (ab_workstream request) (ab_run_id request) "aborted" (ab_evidence request);
  write_file io (path_join dir (components "abort-reason.txt")) (reason request) ≫= λ _,
  Ret (Ok {| lr_result_ref := None; archive_dir := dir; watchdog_stopped := true; removed := [] |}).

(** ** Cleanup is all or nothing, publication is last *)

(** Requests that change nothing. *)
Definition reads_only (q : request) : Prop :=
  match q with
  | Canonicalize _ | ReadFile _ | ReadLink _ => True
  | Spawn _ program args => program = "git" ∧ head args = Some "rev-parse"
  | _ => False
  end.

Lemma lookups_read q : is_canonicalize q → reads_only q.
Proof. by intros [p ->]. Qed.

Lemma wp_reads_read_tip v source name : wp reads_only (λ _, True) (read_tip v source name).
Proof.
  unfold read_tip. apply wp_bind. eapply wp_mono, wp_owned; [apply lookups_read|]. intros [c|] _; [|done].
  apply wp_bind. by apply wp_git.
Qed.

(** A close with one cleanup item that is not proven safe, is a worktree
    outside the owner or a reference outside [refs/autopilot/tmp/] fails before
    it changes anything: every request it made only reads. *)
Theorem close_refuses_unsafe_cleanup (l : LocalLifecycle) (request : CloseRequest)
    (proof : CleanupProof) (e : LifecycleError) {W} (h : handler W) (w : W) :
  proof ∈ cleanup request → admit_cleanup l proof = Err e →
  let '(_, qs, r) := run h w (close l request) in
  Forall reads_only qs ∧ ∃ e', r = Err e'.
Proof.
  intros Hin Hbad.
  assert (∃ e', collect_res (admit_cleanup l) (cleanup request) = Err e') as [e' He'].
  { destruct (collect_res (admit_cleanup l) (cleanup request)) as [bs|e'] eqn:Hc; [|by eexists].
    apply collect_res_ok in Hc. apply list_elem_of_lookup in Hin as [n Hn].
    destruct (Forall2_lookup_l _ _ _ _ _ Hc Hn) as (b & _ & Hb). congruence. }
  assert (wp reads_only (λ r, ∃ e', r = Err e') (close l request)) as H.
  { unfold close. apply wp_bind, wp_map_err. eapply wp_mono, wp_reads_read_tip; [done|].
    intros [tip|e2] _; cbn [map_err]; [|by eexists]. cbv zeta. rewrite He'. by eexists. }
  destruct (wp_run h w _ _ _ H) as [Hqs Hr].
  by destruct (run h w (close l request)) as [[w' qs] r].
Qed.

(** *** Success *)

(** Requests that take something away or move a reference. *)
Definition destructive (q : request) : Prop :=
  match q with
  | RemoveFile _ | RemoveDirAll _ | Rename _ _ => True
  | Spawn _ program args => ¬ (program = "git" ∧ head args = Some "rev-parse")
  | _ => False
  end.

(** The removal of a cleanup item, done, and the name it is reported by. *)
Definition removal_done (l : LocalLifecycle) (a : CleanupArtifact) (name : string) (e : ioevent) : Prop :=
  match a with
  | PackageWorktree p => e = Ev (RemoveDirAll p) (Ok tt) ∧ name = to_os p
  | TempRef n => (∃ out, e = git_ok (ll_source l) ["update-ref"; "-d"; n] out) ∧ name = n
  end.

(** An evidence item, written to its place below the owner. *)
Definition archived_item (l : LocalLifecycle) (dir : path) (item : ProtectedEvidence) (e : ioevent) : Prop :=
  ∃ dst, lifecycle_owned l (path_join dir (components (pe_name item))) = Ok dst ∧
    e = Ev (WriteFile dst (pe_bytes item)) (Ok tt).

(** The whole trace of a successful close, with the answers: the target is
    read; every admitted cleanup item is removed; the target is read again and
    has not moved; the archive is written; the result reference is created. *)
Definition closed_trace (l : LocalLifecycle) (req : CloseRequest) (report : LifecycleReport)
    (t : trace) : Prop :=
  let ref := "refs/autopilot/results/" +:+ cl_workstream req +:+ "/" +:+ cl_run_id req in
  let dir := archive_dir report in
  ∃ todo removals writes l1 l2 l3 src before after published,
    t = l1 ++ [git_ok src ["rev-parse"; "--verify"; target_ref req] before]
        ++ removals
        ++ l2 ++ [git_ok src ["rev-parse"; "--verify"; target_ref req] after;
                  Ev (CreateDirAll dir) (Ok tt);
                  Ev (WriteFile (path_join dir (components "outcome.txt")) "closed") (Ok tt)]
        ++ writes
        ++ l3 ++ [git_ok src ["update-ref"; ref; final_tip req; ZERO] published] ∧
    lookups l1 ∧ lookups l2 ∧ lookups l3 ∧
    owned_lexical (owner (ll_vcs l)) (ll_source l) = Some src ∧
    collect_res (admit_cleanup l) (cleanup req) = Ok todo ∧
    Forall2 (λ a '(name, e), removal_done l a name e) todo (zip (removed report) removals) ∧
    length removals = length (removed report) ∧
    trim after = trim before ∧
    lifecycle_owned l (path_join (path_join (archive_root l) (components (cl_workstream req)))
                         (components (cl_run_id req))) = Ok dir ∧
    Forall2 (archived_item l dir) (cl_evidence req) writes ∧
    package_ref ref ∧ lr_result_ref report = Some ref.

Lemma exec_remove l a t name :
  exec (remove_artifact l a) t (Ok name) → ∃ e, t = [e] ∧ removal_done l a name e.
Proof.
  destruct a as [p|n]; cbn [remove_artifact].
  - intros [(e & _ & ?)|([] & t1 & t2 & -> & (b & -> & Hb)%exec_ask & [-> [= ->]])]%exec_bind; [done|].
    destruct b as [[]|]; [|done]. eexists. by split.
  - intros [(b & _ & ?)|(out & t' & -> & [-> [= ->]])]%exec_git_then; [done|].
    eexists. split; [done|]. split; [by exists out|done].
Qed.

Lemma exec_removals l todo t names :
  exec (prog_collect (remove_artifact l) todo) t (Ok names) →
  Forall2 (λ a '(name, e), removal_done l a name e) todo (zip names t) ∧ length t = length names.
Proof.
  intros H. apply (exec_collect_ok (λ a name u, ∃ e, u = [e] ∧ removal_done l a name e)) in H
    as (ts & -> & Hts & Hl); [|intros; by apply exec_remove].
  revert names ts Hts Hl. induction todo as [|a todo IH]; intros [|n names] [|u ts] Hts Hl; try done;
    cbn in *; try (by inversion Hts).
  apply Forall2_cons in Hts as [(e & -> & He) Hts]. injection Hl as Hl.
  destruct (IH _ _ Hts Hl) as [IH1 IH2]. cbn. split; [by constructor|by f_equal].
Qed.

Lemma exec_archive l ws run_id outcome evidence t dir :
  exec (archive l ws run_id outcome evidence) t (Ok dir) →
  ∃ writes, t = Ev (CreateDirAll dir) (Ok tt)
                :: Ev (WriteFile (path_join dir (components "outcome.txt")) outcome) (Ok tt) :: writes ∧
    lifecycle_owned l (path_join (path_join (archive_root l) (components ws)) (components run_id)) = Ok dir ∧
    Forall2 (archived_item l dir) evidence writes.
Proof.
  intros [(e & _ & _ & ?)|(d & Hd & H)]%exec_lift; [done|].
  apply exec_bind in H as [(e & _ & ?)|([] & t1 & t2 & -> & (a & -> & Ha)%exec_ask & H)]; [done|].
  destruct a as [[]|]; [|done].
  apply exec_bind in H as [(e & _ & ?)|([] & t3 & t4 & -> & (b & -> & Hb)%exec_ask & H)]; [done|].
  destruct b as [[]|]; [|done].
  apply exec_bind in H as [(e & _ & ?)|([] & t5 & t6 & -> & H & [-> [= ->]])]; [done|].
  rewrite app_nil_r. exists t5. split_and!; [done..|].
  apply (exec_for_ok (λ item u, ∃ e, u = [e] ∧ archived_item l d item e)) in H as (ts & -> & Hts).
  - induction Hts as [|c u items ts (e & -> & He) _ IH]; cbn; constructor; auto.
  - clear. intros item t [(e & _ & _ & ?)|(dst & Hd & (a & -> & Ha)%exec_ask)]%exec_lift; [done|].
    destruct a as [[]|]; [|done]. eexists. split; [done|]. by exists dst.
Qed.

Lemma exec_swap_ok v source name new old t :
  exec (swap v source name new old) t (Ok tt) →
  ∃ pre dir out, t = pre ++ [git_ok dir ["update-ref"; name; new; old] out] ∧ lookups pre ∧
    owned_lexical (owner v) source = Some dir ∧ package_ref name.
Proof.
  unfold swap. destruct (allowed_ref name) eqn:Ha; cbn [negb]; [|by intros []]. apply allowed_ref_sound in Ha.
  intros [(e & _ & ?)|(dir & t1 & t2 & -> & H & Hg)]%exec_bind; [done|].
  pose proof (owned_lookups _ _ _ _ H) as Hl. apply exec_owned in H as [Ho _].
  apply exec_git_then in Hg as [(a & _ & ?)|(out & t' & -> & [-> _])]; [done|]. eauto 10.
Qed.

(** C24. A close that succeeds has done everything in order, and each step was
    answered with success: the target reference was read; the cleanup items
    were all admitted, removed one by one and are the ones reported; the target
    was read again and is at the same tip; the archive directory, the outcome
    and every protected evidence item were written below the owner; and last
    the result reference (a package reference, reported) was created at the
    final tip (its old value is zero).  Apart from resolving paths nothing else
    is requested: nothing else is removed and no other reference is moved. *)
Theorem close_publishes_last (l : LocalLifecycle) (req : CloseRequest)
    (report : LifecycleReport) (t : trace) :
  exec (close l req) t (Ok report) → closed_trace l req report t.
Proof.
  intros [(e & _ & ?)|(before & t1 & t2 & -> & H1 & H)]%exec_bind; [done|]. cbv zeta in H.
  apply exec_map_err in H1 as ([?|] & H1 & [= ->]).
  apply exec_read_tip in H1 as (l1 & src & out1 & -> & Hl1 & Hsrc & ->).
  apply exec_lift in H as [(e & _ & _ & ?)|(todo & Htodo & H)]; [done|].
  apply exec_bind in H as [(e & _ & ?)|(names & t3 & t4 & -> & [Hrem Hlen]%exec_removals & H)]; [done|].
  apply exec_bind in H as [(e & _ & ?)|(after & t5 & t6 & -> & H5 & H)]; [done|].
  apply exec_map_err in H5 as ([?|] & H5 & [= ->]).
  apply exec_read_tip in H5 as (l2 & src2 & out2 & -> & Hl2 & Hsrc2 & ->).
  assert (src2 = src) as -> by congruence.
  case_bool_decide as Htip; [|by destruct H]. cbn [negb] in H.
  apply exec_bind in H as [(e & _ & ?)|(dir & t7 & t8 & -> & H7 & H)]; [done|].
  apply exec_archive in H7 as (writes & -> & Hdir & Hwrites).
  apply exec_match in H as (r & t9 & t10 & -> & H9 & H). destruct r as [[]|e].
  2:{ apply exec_bind in H as [(e' & _ & ?)|([] & ? & ? & _ & _ & [_ ?])]; done. }
  destruct H as [-> [= ->]].
  apply exec_swap_ok in H9 as (l3 & src3 & out3 & -> & Hl3 & Hsrc3 & Hp).
  assert (src3 = src) as -> by congruence.
  exists todo, t3, writes, l1, l2, l3, src, out1, out2, out3. cbn [archive_dir removed lr_result_ref].
  split; [by repeat (rewrite <- ?app_assoc, ?app_nil_r; cbn [app])|]. split_and!; done.
Qed.

Definition demo_world : handler unit := λ w q,
  match q return unit * answer q with
  | Canonicalize p => (w, Ok p)
  | ReadLink _ => (w, Err {| io_kind := InvalidInput; io_message := "" |})
  | ReadFile _ => (w, Ok "")
  | CreateNew _ | OpenCreate _ | OpenTruncate _ => (w, Ok 0%nat)
  | TryLock _ => (w, Ok true)
  | Spawn _ _ _ => (w, Ok {| succeeded := true; stdout := Some "tip" |})
  | CreateDirAll _ | WriteFile _ _ | WriteHandle _ _ | SyncHandle _ | SyncDir _
  | SetHandleMode _ _ | Sleep _ | SetMode _ _ | Rename _ _ | RemoveFile _ | RemoveDirAll _ => (w, Ok tt)
  | other => (w, refuse other)
  end.
Definition demo_lifecycle : LocalLifecycle :=
  lifecycle_new (components "/own") (components "/own/repo") (components "/own/arch").
Definition demo_close (cleanup : list CleanupProof) : CloseRequest :=
  {| cl_workstream := "ws"; cl_run_id := "r1"; final_tip := "f"; target_ref := "refs/heads/main";
     cl_evidence := [{| pe_name := "ledger.json"; pe_bytes := "{}" |}]; cleanup := cleanup |}.

Lemma close_refuses_unsafe_cleanup_witness :
  let req := demo_close [{| artifact := TempRef "refs/heads/main"; proven_safe := true |}] in
  let '(_, qs, r) := run demo_world tt (close demo_lifecycle req) in
  Forall reads_only qs ∧ ∃ e, r = Err e.
Proof.
  apply (close_refuses_unsafe_cleanup demo_lifecycle _
           {| artifact := TempRef "refs/heads/main"; proven_safe := true |} UnsafeCleanup_).
  - set_solver.
  - reflexivity.
Defined.

Lemma close_publishes_last_witness :
  let req := demo_close [{| artifact := PackageWorktree (components "wt/one"); proven_safe := true |};
                         {| artifact := TempRef "refs/autopilot/tmp/x"; proven_safe := true |}] in
  ∃ t report, exec (close demo_lifecycle req) t (Ok report) ∧
    closed_trace demo_lifecycle req report t ∧ removed report = ["/own/wt/one"; "refs/autopilot/tmp/x"].
Proof.
  intros req. destruct (run_exec demo_world tt (close demo_lifecycle req)) as (t & Ht & _).
  assert (∃ r, (run demo_world tt (close demo_lifecycle req)).2 = Ok r ∧
            removed r = ["/own/wt/one"; "refs/autopilot/tmp/x"]) as (r & Hr & Hrem)
    by (eexists; split; vm_compute; reflexivity).
  rewrite Hr in Ht. exists t, r. split; [exact Ht|]. split; [|exact Hrem].
  apply (close_publishes_last demo_lifecycle req r t). exact Ht.
Defined.

(** An abort deletes nothing and moves no reference: every request it makes
    creates a directory or writes a file. *)
Theorem abort_deletes_nothing (l : LocalLifecycle) (req : AbortRequest) {W} (h : handler W) (w : W) :
  Forall (λ q, ¬ destructive q) (run h w (abort l req)).1.2.
Proof.
  apply (wp_run h w (λ q, ¬ destructive q) (λ _, True)).
  assert (∀ A B (p : prog LifecycleError A) (k : A → prog LifecycleError B),
            wp (λ q, ¬ destructive q) (λ _, True) p → (∀ a, wp (λ q, ¬ destructive q) (λ _, True) (k a)) →
            wp (λ q, ¬ destructive q) (λ _, True) (p ≫= k)) as Hthen.
  { intros A B p k Hp Hk. apply wp_bind. eapply wp_mono, Hp; [done|]. by intros [|]. }
  apply Hthen.
  - apply Hthen; [done|]. intros dir. apply Hthen; [split; [by intros []|done]|]. intros _.
    apply Hthen; [split; [by intros []|done]|]. intros _. apply Hthen; [|done].
    apply wp_for; [done..|]. apply Forall_forall. intros item _. apply Hthen; [done|].
    intros dst. split; [by intros []|done].
  - intros dir. apply Hthen; [split; [by intros []|done]|done].
Qed.
