(* ===== verification/Finalize.v ===== *)
(** * Finalization

    [drivers/src/finalize/mod.rs]: synchronisation with a moved target and the
    gate a run passes before its result is final. *)

From S2P Require Import Prelude RustStr Paths Os Failure Vcs Integration Control.

(** ** Target synchronisation *)

Record TargetSyncOutcome := { target_tip : string; integrated : option PreparedCandidate }.

Record TargetSyncer := {
  ts_source : path;
  ts_target_ref : string;
  ts_vcs : GitVcs;
  ts_integrator : ReleaseIntegrator;
}.

Definition syncer_new (owner source : path) (run_main_ref target_ref : string) : TargetSyncer :=
  {| ts_vcs := vcs_new owner; ts_integrator := integrator_new owner source run_main_ref;
     ts_source := source; ts_target_ref := target_ref |}.

Definition git_error (_ : Failure) : IntegrationError := Git.

Definition reconcile (s : TargetSyncer) (recorded_target_base : string) (worktree_root : path)
    (checks : list CheckCommand) : prog IntegrationError TargetSyncOutcome :=
  target_tip ← prog_map_err git_error (read_tip (ts_vcs s) (ts_source s) (ts_target_ref s));
  if target_tip =s recorded_target_base
  then Ret (Ok {| target_tip := target_tip; integrated := None |})
  else
    prepared ← merge_and_cas (ts_integrator s)
                 {| candidate_id := "target-sync"; enqueue_sequence := 0;
                    kind := FinalTargetSync; candidate_tip := target_tip |}
                 worktree_root checks;
    after ← prog_map_err git_error (read_tip (ts_vcs s) (ts_source s) (ts_target_ref s));
    if negb (after =s target_tip) then Ret (Err Git)
    else Ret (Ok {| target_tip := target_tip; integrated := Some prepared |}).

(** ** The final gate *)

Inductive RiskLevel := Low | Medium | High | Critical.

Record BughunterTriggers := {
  implementation_lanes : Z;
  risk : RiskLevel;
  protected_security_data_or_migration : bool;
  semantic_conflict_resolution : bool;
  operator_required : bool;
}.

Definition required (t : BughunterTriggers) : bool :=
  (1 <? implementation_lanes t) ||
  match risk t with High | Critical => true | _ => false end ||
  protected_security_data_or_migration t ||
  semantic_conflict_resolution t ||
  operator_required t.

Record TipEvidence := { te_tip : string; te_passed : bool }.

Record FinalGateInput := {
  final_tip : string;
  every_unit_closed : bool;
  no_mandatory_findings : bool;
  no_stale_required_proof : bool;
  no_active_or_unknown_jobs : bool;
  attributable_integrated_diff : bool;
  final_commands : TipEvidence;
  full_suite : TipEvidence;
  final_validator : TipEvidence;
  bughunter : option TipEvidence;
  triggers : BughunterTriggers;
}.

Inductive FinalCondition :=
| UnitsClosed | MandatoryFindings | RequiredProofFresh | JobsTerminal | AttributableDiff
| FinalCommands | FullSuite | FinalValidator | RequiredBughunter.

Record FinalVerificationPass := { fp_tip : string; bughunter_required : bool }.

Definition ALL : list FinalCondition :=
  [UnitsClosed; MandatoryFindings; RequiredProofFresh; JobsTerminal; AttributableDiff;
   FinalCommands; FullSuite; FinalValidator; RequiredBughunter].

Definition condition_id (c : FinalCondition) : string :=
  match c with
  | UnitsClosed => "units-closed"
  | MandatoryFindings => "mandatory-findings-zero"
  | RequiredProofFresh => "required-proof-fresh"
  | JobsTerminal => "jobs-terminal"
  | AttributableDiff => "attributable-integrated-diff"
  | FinalCommands => "final-commands-exact-tip"
  | FullSuite => "full-suite-exact-tip"
  | FinalValidator => "final-validator-exact-tip"
  | RequiredBughunter => "required-bughunter-exact-tip"
  end.

Definition require (value : bool) (condition : FinalCondition) : result FinalCondition unit :=
  if value then Ok tt else Err condition.

Definition evidence_current (evidence : TipEvidence) (tip : string) : bool :=
  te_passed evidence && (te_tip evidence =s tip).

Definition verify_final_gate (input : FinalGateInput) : result FinalCondition FinalVerificationPass :=
  require (every_unit_closed input) UnitsClosed ≫= λ _,
  require (no_mandatory_findings input) MandatoryFindings ≫= λ _,
  require (no_stale_required_proof input) RequiredProofFresh ≫= λ _,
  require (no_active_or_unknown_jobs input) JobsTerminal ≫= λ _,
  require (attributable_integrated_diff input) AttributableDiff ≫= λ _,
  require (evidence_current (final_commands input) (final_tip input)) FinalCommands ≫= λ _,
  require (evidence_current (full_suite input) (final_tip input)) FullSuite ≫= λ _,
  require (evidence_current (final_validator input) (final_tip input)) FinalValidator ≫= λ _,
  let bughunter_required := required (triggers input) in
  (if bughunter_required then
     require match bughunter input with
             | Some evidence => evidence_current evidence (final_tip input)
             | None => false
             end RequiredBughunter
   else Ok tt) ≫= λ _,
  Ok {| fp_tip := final_tip input; bughunter_required := bughunter_required |}.

(** [data/finalization.kdl].  The double quote is written as a back quote here. *)
Definition FINALIZATION_KDL : string := kdl
"schema `autopilot.finalization.v1`
version 1

gate `final-verification` {
    condition `units-closed` doc=`Every approved unit is closed.`
    condition `mandatory-findings-zero` doc=`No mandatory finding remains outstanding.`
    condition `required-proof-fresh` doc=`No required proof is stale at the final tip.`
    condition `jobs-terminal` doc=`No active or unknown implementation, validation, fix, or integration job remains.`
    condition `attributable-integrated-diff` doc=`The integrated diff is attributable to accepted candidates.`
    condition `final-commands-exact-tip` evidence=`tip-bound` doc=`Plan final_commands passed at the proposed result tip.`
    condition `full-suite-exact-tip` evidence=`tip-bound` doc=`The full suite passed only at the exact final tip.`
    condition `final-validator-exact-tip` evidence=`tip-bound` doc=`The final independent Validator passed at the exact final tip.`
    condition `required-bughunter-exact-tip` evidence=`tip-bound` doc=`Bughunter passed at the exact final tip when mandatory.`
    condition `active-evidence-receipts` evidence=`autopilot.evidence_acceptance_receipt.v1` doc=`Every finalization-selected evidence receipt is active and non-superseded.`
    condition `closed-evidence-envelope` evidence=`autopilot.evidence_envelope_manifest.v1` doc=`The finalization evidence envelope is closed and current.`
}

bughunter `mandatory` {
    trigger `multiple-implementation-lanes`
    trigger `high-critical-risk`
    trigger `protected-security-data-migration`
    trigger `semantic-conflict-resolution`
    trigger `operator-requirement`
}

archive `close` result_ref=`refs/autopilot/results/<workstream>/<run-id>` retention=`indefinite` {
    policy `archive-protected-evidence`
    policy `stop-watchdog`
    policy `remove-proven-safe-package-worktrees`
    policy `remove-proven-safe-temp-refs`
    boundary `no-push`
    boundary `no-land`
    boundary `no-target-move`
    boundary `no-operator-checkout-write`
}

archive `abort` retention=`preserve-work-refs-evidence` {
    policy `archive-aborted-outcome`
    policy `stop-run-owned-background-tasks`
    boundary `no-merge`
    boundary `delete-nothing`
}
".

Definition finalization_data_covers_gate : bool :=
  all (λ condition, contains (condition_id condition) FINALIZATION_KDL) ALL.

(** ** What the gate demands *)

(** The meaning of each condition. *)
Definition condition_holds (input : FinalGateInput) (c : FinalCondition) : bool :=
  match c with
  | UnitsClosed => every_unit_closed input
  | MandatoryFindings => no_mandatory_findings input
  | RequiredProofFresh => no_stale_required_proof input
  | JobsTerminal => no_active_or_unknown_jobs input
  | AttributableDiff => attributable_integrated_diff input
  | FinalCommands => evidence_current (final_commands input) (final_tip input)
  | FullSuite => evidence_current (full_suite input) (final_tip input)
  | FinalValidator => evidence_current (final_validator input) (final_tip input)
  | RequiredBughunter =>
      negb (required (triggers input)) ||
      match bughunter input with
      | Some evidence => evidence_current evidence (final_tip input)
      | None => false
      end
  end.

(** The final gate passes exactly when all nine conditions hold, the tip
    evidence (commands, suite, validator, and the bughunter where a trigger
    makes it mandatory) being for the final tip itself, and then reports that
    tip; otherwise it names the first condition, in the declared order, that
    does not hold. *)
Theorem final_gate_exact (input : FinalGateInput) :
  verify_final_gate input =
    match find_first (λ c, negb (condition_holds input c)) ALL with
    | Some c => Err c
    | None => Ok {| fp_tip := final_tip input; bughunter_required := required (triggers input) |}
    end.
Proof.
  unfold verify_final_gate, find_first, ALL, require. cbn [List.find condition_holds].
  repeat (case_match; cbn [negb mbind result_mbind result_bind orb] in *; try done; simplify_eq).
Qed.

(** Every condition of the gate is declared in the package's finalization
    data. *)
Theorem finalization_data_declares_gate : finalization_data_covers_gate = true.
Proof. vm_compute. reflexivity. Qed.

(** ** A moved target is merged before the result *)

Definition sync_outcome (base : string) (outcome : TargetSyncOutcome) : Prop :=
  match integrated outcome with
  | None => target_tip outcome = base
  | Some prepared =>
      target_tip outcome ≠ base ∧ candidate_tip (pc_request prepared) = target_tip outcome ∧
      kind (pc_request prepared) = FinalTargetSync
  end.

Lemma reconcile_post s base worktree_root checks :
  wp (λ _, True) (λ r, ∀ outcome, r = Ok outcome → sync_outcome base outcome)
    (reconcile s base worktree_root checks).
Proof.
  unfold reconcile. apply wp_bind_any; [done|]. intros tip.
  destruct (decide (tip = base)) as [->|Hne].
  - rewrite bool_decide_true by done. by intros ? [= <-].
  - rewrite bool_decide_false by done. apply wp_bind. eapply wp_mono, merge_and_cas_request; [done|].
    intros [prepared|e] H; [|done]. specialize (H prepared eq_refl).
    apply wp_bind_any; [done|]. intros after. case_match; [done|].
    intros ? [= <-]. split; [done|]. by rewrite H.
Qed.

(** Target synchronisation: when it returns, the reported tip is the
    target's tip as last read; nothing was integrated exactly when that tip is
    the recorded base, and otherwise the integrated candidate is the target's
    tip itself. *)
Theorem reconcile_outcome (s : TargetSyncer) (base : string) (worktree_root : path)
    (checks : list CheckCommand) (outcome : TargetSyncOutcome) {W} (h : handler W) (w w' : W)
    (qs : list request) :
  run h w (reconcile s base worktree_root checks) = (w', qs, Ok outcome) →
  sync_outcome base outcome.
Proof.
  intros Hrun.
  pose proof (wp_run h w (λ _, True) (λ r, ∀ outcome, r = Ok outcome → sync_outcome base outcome) _
                (reconcile_post s base worktree_root checks)) as [_ H].
  rewrite Hrun in H. by apply H.
Qed.

Definition demo_syncer : TargetSyncer :=
  syncer_new (components "/own") (components "/own/repo") "refs/heads/autopilot/run/r1/main" "refs/heads/main".

Lemma reconcile_outcome_witness :
  ∃ prepared, (run demo_handler tt (reconcile demo_syncer "tip-0" (components "wt") [])).2 =
                Ok {| target_tip := "tip-1"; integrated := Some prepared |} ∧
    candidate_tip (pc_request prepared) = "tip-1".
Proof.
  eexists. split; [vm_compute; reflexivity|].
  eapply (reconcile_outcome demo_syncer "tip-0" (components "wt") []
            {| target_tip := "tip-1"; integrated := Some _ |} demo_handler tt tt _).
  vm_compute. reflexivity.
Defined.
