(* ===== verification/Recovery.v ===== *)
(** * Restart recovery and the assignment lock

    [drivers/src/recovery/mod.rs]: what a restart does with the artifacts and
    the lock it finds, what an interrupted integration needs, and the lock file
    that keeps an assignment to one process. *)

From S2P Require Import Prelude RustStr Paths Os Generated State.

(** ** Restart *)

Record ResultArtifact := {
  ra_result_ref : Ref;
  ra_event_ref : Ref;
  ra_commit_ref : Ref;
  ra_evidence_refs : list Ref;
}.

Inductive LockState :=
| LockFree | LockHeldByLive (pid : Z) | LockHeldByDead (pid : Z) | LockDegraded (reason : string).

Record RestartInput := {
  ri_assignment_id : Id;
  ri_event_refs : list Ref;
  ri_git_refs : list Ref;
  ri_create_once_refs : list Ref;
  ri_checkpoint_refs : list Ref;
  ri_result : option ResultArtifact;
  ri_lock : LockState;
}.

Inductive RestartDecision :=
| ResumeWithNewBgRun (assignment_id : Id)
| VisibleWait (assignment_id : Id) (holder_pid : Z)
| RestartDegraded (assignment_id : Id) (reason : string)
| AcceptResult (result_ref : Ref)
| RejectResult (assignment_id : Id) (reason : string).

Inductive IntegrationCrashDecision := CasNeeded | AlreadyAccepted | Conflict.

Definition contains_ref (values : list Ref) (needle : Ref) : bool :=
  any (λ value, value =s needle) values.

(** The first loop of [validate_refs], with the references already passed. *)
Fixpoint validate_create_once (event_refs seen refs : list Ref) : result string unit :=
  match refs with
  | [] => Ok tt
  | artifact :: refs' =>
      if any (λ s, s =s artifact) seen then Err ("duplicate-create-once:" +:+ artifact)
      else if negb (contains_ref event_refs artifact)
      then Err ("create-once-without-event:" +:+ artifact)
      else validate_create_once event_refs (seen ++ [artifact]) refs'
  end.

(** The check of the recorded result. *)
Definition validate_result (input : RestartInput) : result string unit :=
  match ri_result input with
  | None => Ok tt
  | Some r =>
      match ra_evidence_refs r with
      | [] => Err ("result-without-evidence:" +:+ ra_result_ref r)
      | _ =>
          if negb (contains_ref (ri_event_refs input) (ra_event_ref r))
          then Err ("result-without-event:" +:+ ra_result_ref r)
          else if negb (contains_ref (ri_git_refs input) (ra_commit_ref r))
          then Err ("result-without-git:" +:+ ra_result_ref r)
          else Ok tt
      end
  end.

Definition validate_refs (input : RestartInput) : result string unit :=
  validate_create_once (ri_event_refs input) [] (ri_create_once_refs input) ≫= λ _,
  for_each (λ checkpoint,
    ensure (contains_ref (ri_event_refs input) checkpoint)
      ("checkpoint-without-event:" +:+ checkpoint)) (ri_checkpoint_refs input) ≫= λ _,
  validate_result input.

Definition reconcile_restart (input : RestartInput) : RestartDecision :=
  match validate_refs input with
  | Err reason => RejectResult (ri_assignment_id input) reason
  | Ok _ =>
      match ri_result input with
      | Some r => AcceptResult (ra_result_ref r)
      | None =>
          match ri_lock input with
          | LockFree | LockHeldByDead _ => ResumeWithNewBgRun (ri_assignment_id input)
          | LockHeldByLive pid => VisibleWait (ri_assignment_id input) pid
          | LockDegraded reason => RestartDegraded (ri_assignment_id input) reason
          end
      end
  end.

Definition replay_after_crash (events : list EventRow) : State := fold_events events.

Definition reconcile_integration_crash (old_tip expected_new_tip current_tip : string)
  : IntegrationCrashDecision :=
  if current_tip =s expected_new_tip then AlreadyAccepted
  else if current_tip =s old_tip then CasNeeded
  else Conflict.

(** What a restart may trust: artifacts written once, each recorded by an
    event; checkpoints recorded by an event; a result with evidence, its event
    and its commit. *)
Definition consistent (input : RestartInput) : Prop :=
  NoDup (ri_create_once_refs input) ∧
  (∀ a, a ∈ ri_create_once_refs input → a ∈ ri_event_refs input) ∧
  (∀ c, c ∈ ri_checkpoint_refs input → c ∈ ri_event_refs input) ∧
  (∀ r, ri_result input = Some r →
     ra_evidence_refs r ≠ [] ∧ ra_event_ref r ∈ ri_event_refs input ∧
     ra_commit_ref r ∈ ri_git_refs input).

Lemma contains_ref_spec values needle : contains_ref values needle = true ↔ needle ∈ values.
Proof.
  unfold contains_ref. rewrite any_spec. setoid_rewrite bool_decide_eq_true. naive_solver.
Qed.

Lemma contains_ref_false values needle : contains_ref values needle = false ↔ needle ∉ values.
Proof. rewrite <- not_true_iff_false. by rewrite contains_ref_spec. Qed.

Lemma validate_create_once_ok event_refs seen refs :
  validate_create_once event_refs seen refs = Ok tt ↔
  NoDup refs ∧ (∀ a, a ∈ refs → (a ∉ seen) ∧ a ∈ event_refs).
Proof.
  revert seen. induction refs as [|a refs IH]; intros seen; cbn [validate_create_once].
  { split; [|done]. intros _. split; [constructor|set_solver]. }
  change (any (λ s, s =s a) seen) with (contains_ref seen a).
  destruct (contains_ref seen a) eqn:Hs.
  { apply contains_ref_spec in Hs. split; [done|]. intros [_ H]. specialize (H a). set_solver. }
  apply contains_ref_false in Hs. destruct (contains_ref event_refs a) eqn:He; cbn [negb].
  - apply contains_ref_spec in He. rewrite IH, NoDup_cons. set_solver.
  - apply contains_ref_false in He. split; [done|]. intros [_ H]. specialize (H a). set_solver.
Qed.

Lemma validate_result_ok input :
  validate_result input = Ok tt ↔
  ∀ r, ri_result input = Some r →
    ra_evidence_refs r ≠ [] ∧ ra_event_ref r ∈ ri_event_refs input ∧
    ra_commit_ref r ∈ ri_git_refs input.
Proof.
  unfold validate_result. destruct (ri_result input) as [r|]; [|naive_solver].
  transitivity (ra_evidence_refs r ≠ [] ∧ ra_event_ref r ∈ ri_event_refs input ∧
                ra_commit_ref r ∈ ri_git_refs input); [|naive_solver].
  rewrite <- !contains_ref_spec.
  destruct (ra_evidence_refs r), (contains_ref (ri_event_refs input) _),
    (contains_ref (ri_git_refs input) _); cbn; naive_solver.
Qed.

Lemma validate_refs_ok input : validate_refs input = Ok tt ↔ consistent input.
Proof.
  unfold validate_refs, consistent. rewrite bind_ok. setoid_rewrite bind_ok.
  setoid_rewrite for_each_ok. setoid_rewrite validate_result_ok. setoid_rewrite ensure_ok.
  setoid_rewrite Forall_forall. setoid_rewrite contains_ref_spec. split.
  - intros ([] & H1%validate_create_once_ok & [] & H2 & H3). set_solver.
  - intros (H1 & H2 & H3 & H4). exists tt. split; [apply validate_create_once_ok; set_solver|].
    by exists tt.
Qed.

(** The restart decision: a result is accepted, work resumed or a live
    holder waited for only when the artifacts are consistent (written once,
    each with its event; a result with evidence, event and commit), otherwise
    the result is rejected; with consistent artifacts a recorded result is
    accepted whatever the lock, and without one a free or dead lock resumes, a
    live one waits for its holder and a degraded one is reported. *)
Theorem restart_decision_exact (input : RestartInput) :
  (consistent input →
     reconcile_restart input =
       match ri_result input, ri_lock input with
       | Some r, _ => AcceptResult (ra_result_ref r)
       | None, LockFree | None, LockHeldByDead _ => ResumeWithNewBgRun (ri_assignment_id input)
       | None, LockHeldByLive pid => VisibleWait (ri_assignment_id input) pid
       | None, LockDegraded reason => RestartDegraded (ri_assignment_id input) reason
       end) ∧
  (¬ consistent input → ∃ reason, reconcile_restart input = RejectResult (ri_assignment_id input) reason).
Proof.
  rewrite <- validate_refs_ok. unfold reconcile_restart. split.
  - intros ->. by destruct (ri_result input), (ri_lock input).
  - destruct (validate_refs input) as [[]|reason]; [done|]. eauto.
Qed.

Lemma restart_decision_exact_witness :
  reconcile_restart
    {| ri_assignment_id := "a1"; ri_event_refs := ["e1"]; ri_git_refs := ["g1"];
       ri_create_once_refs := ["e1"]; ri_checkpoint_refs := [];
       ri_result := Some {| ra_result_ref := "r1"; ra_event_ref := "e1"; ra_commit_ref := "g1";
                            ra_evidence_refs := ["v1"] |};
       ri_lock := LockHeldByLive 7 |} = AcceptResult "r1".
Proof.
  apply (proj1 (restart_decision_exact
    {| ri_assignment_id := "a1"; ri_event_refs := ["e1"]; ri_git_refs := ["g1"];
       ri_create_once_refs := ["e1"]; ri_checkpoint_refs := [];
       ri_result := Some {| ra_result_ref := "r1"; ra_event_ref := "e1"; ra_commit_ref := "g1";
                            ra_evidence_refs := ["v1"] |};
       ri_lock := LockHeldByLive 7 |})).
  split_and!; cbn; [repeat constructor; set_solver | set_solver | set_solver |].
  intros ? [= <-]. cbn. set_solver.
Defined.
