(* ===== verification/Lock.v ===== *)
(** * The assignment lock file

    [FileAssignmentLock] of [drivers/src/recovery/mod.rs]: a lock file created
    exclusively, reclaimed when its recorded holder is gone.  The programs are
    requests to the operating system (file [Os]); the interleavings of any
    number of processes over one file system are a step relation. *)

From S2P Require Import Prelude RustStr Paths Os.

(** [std::str::from_utf8] succeeds: well-formed UTF-8. *)
Definition cont (y : Z) : bool := (128 <=? y) && (y <=? 191).
Fixpoint utf8_valid (s : string) : bool :=
  match s with
  | "" => true
  | String a s1 =>
      let x := code a in
      if x <=? 127 then utf8_valid s1 else
      match s1 with
      | "" => false
      | String b s2 =>
          let y := code b in
          if (194 <=? x) && (x <=? 223) then cont y && utf8_valid s2 else
          match s2 with
          | "" => false
          | String c s3 =>
              let z := code c in
              if x =? 224 then (160 <=? y) && (y <=? 191) && cont z && utf8_valid s3
              else if x =? 237 then (128 <=? y) && (y <=? 159) && cont z && utf8_valid s3
              else if (225 <=? x) && (x <=? 239) then cont y && cont z && utf8_valid s3 else
              match s3 with
              | "" => false
              | String d s4 =>
                  let u := code d in
                  if x =? 240 then (144 <=? y) && (y <=? 191) && cont z && cont u && utf8_valid s4
                  else if x =? 244 then (128 <=? y) && (y <=? 143) && cont z && cont u && utf8_valid s4
                  else if (241 <=? x) && (x <=? 243)
                  then cont y && cont z && cont u && utf8_valid s4
                  else false
              end
          end
      end
  end.

(** The message of a failed [parse::<u32>()]: the first problem from the left. *)
Fixpoint int_error_from (acc : Z) (s : string) : string :=
  match s with
  | "" => "number too large to fit in target type"
  | String a s' =>
      if negb (is_ascii_digit a) then "invalid digit found in string"
      else if u32_max <? acc * 10 + (code a - 48) then "number too large to fit in target type"
      else int_error_from (acc * 10 + (code a - 48)) s'
  end.
Definition int_error (s : string) : string :=
  if is_empty s then "cannot parse integer from empty string"
  else match strip_prefix "+" s with
       | Some "" => "invalid digit found in string"
       | Some digits => int_error_from 0 digits
       | None => int_error_from 0 s
       end.

(** [ProcessProbe]: whether a process lives and when it was born. *)
Record ProcessProbe := {
  is_live : Z → bool;
  birth_identity : Z → result string (option string);
}.
(** The trait's default [birth_identity]. *)
Definition default_birth_identity (live : Z → bool) (pid : Z) : result string (option string) :=
  if live pid then Ok (Some ("live-pid:" +:+ show_uint pid)) else Ok None.

Record FileAssignmentLock := { fl_path : path; fl_pid : Z; fl_birth : string }.

Inductive LockAcquire :=
| Acquired (lock : FileAssignmentLock)
| HeldByLive (pid : Z)
| Degraded (reason : string).

Record StoredLock := { sl_pid : Z; sl_birth : option string; sl_bytes : string }.

Section Lock.
Variable probe : ProcessProbe.
(** The text of a [Utf8Error] for these bytes. *)
Variable utf8_error : string → string.

(** ** The lock's text *)

(** [write!(file, "pid={pid}\nbirth={}\n", ..)]: the writes it makes. *)
Definition lock_pieces (pid : Z) (birth : string) : list string :=
  ["pid="; show_uint pid; String LF "birth="; birth; String LF ""].

Definition lock_line (acc : option Z * option string) (line : string)
  : result string (option Z * option string) :=
  match strip_prefix "pid=" line with
  | Some value =>
      match parse_uint u32_max value with
      | Some pid => Ok (Some pid, acc.2)
      | None => Err ("lock-pid:" +:+ int_error value)
      end
  | None =>
      match strip_prefix "birth=" line with
      | Some value => if is_empty value then Err "lock-birth-empty" else Ok (acc.1, Some value)
      | None => if negb (is_empty line) then Err ("lock-field:" +:+ line) else Ok acc
      end
  end.

Definition parse_lock (bytes : string) : result string StoredLock :=
  if negb (utf8_valid bytes) then Err ("lock-utf8:" +:+ utf8_error bytes) else
  match parse_uint u32_max (trim bytes) with
  | Some pid => Ok {| sl_pid := pid; sl_birth := None; sl_bytes := bytes |}
  | None =>
      found ← fold_res lock_line (None, None) (lines bytes);
      pid ← ok_or found.1 "lock-pid-missing";
      Ok {| sl_pid := pid; sl_birth := found.2; sl_bytes := bytes |}
  end.

(** ** The programs *)

Definition message (prefix : string) (e : io_error) : string := prefix +:+ io_message e.

Definition current_birth_identity (pid : Z) : result string string :=
  found ← birth_identity probe pid;
  match found with
  | None => Err ("lock-owner-identity-unavailable:" +:+ show_uint pid)
  | Some identity =>
      if is_empty identity || contains (String LF "") identity || contains (String CR "") identity
      then Err ("lock-owner-identity-invalid:" +:+ show_uint pid)
      else Ok identity
  end.

Definition live_holder_matches (lock : StoredLock) : result string bool :=
  if negb (is_live probe (sl_pid lock)) then Ok false else
  match sl_birth lock with
  | None => Err ("lock-missing-birth-identity:" +:+ show_uint (sl_pid lock))
  | Some recorded =>
      found ← birth_identity probe (sl_pid lock);
      match found with
      | Some current => Ok (current =s recorded)
      | None => Err ("lock-holder-identity-unavailable:" +:+ show_uint (sl_pid lock))
      end
  end.

Definition create_new_error (e : io_error) : string :=
  if io_kind e =s AlreadyExists then "occupied" else message "lock-create:" e.

Definition open_new (p : path) : prog string nat :=
  Call (CreateNew p) (λ a, Ret (map_err create_new_error a)).
Definition open_new_lock (p : path) : prog string nat :=
  match parent p with
  | Some up => create_dir_all (message "lock-dir:") up ≫= λ _, open_new p
  | None => open_new p
  end.

Definition write_piece (file : nat) (piece : string) : prog string unit :=
  Call (WriteHandle file piece) (λ a, Ret (map_err (message "lock-write:") a)).
Definition write_lock (file : nat) (pid : Z) (birth : string) : prog string unit :=
  prog_for (write_piece file) (lock_pieces pid birth).

Definition create_lock_with_identity (p : path) (pid : Z) (birth : string) : prog string string :=
  file ← open_new_lock p;
  write_lock file pid birth ≫= λ _, Ret (Ok birth).

(** [create_lock] once the file is open: the owner's identity, or the file is
    removed again. *)
Definition create_rest (p : path) (pid : Z) (file : nat) : prog string string :=
  match current_birth_identity pid with
  | Err reason =>
      Call (RemoveFile p) (λ a, Ret
        match a with
        | Err error => Err ("lock-owner-identity-cleanup:" +:+ reason +:+ ":" +:+ io_message error)
        | Ok _ => Err reason
        end)
  | Ok birth => write_lock file pid birth ≫= λ _, Ret (Ok birth)
  end.
Definition create_lock (p : path) (pid : Z) : prog string string :=
  file ← open_new_lock p; create_rest p pid file.

Definition read_lock (p : path) : prog string StoredLock :=
  Call (ReadFile p) (λ a, Ret
    match a with
    | Err e => Err (message "lock-open:" e)
    | Ok bytes => parse_lock bytes
    end).

Definition evidence_path (p : path) : option path :=
  (λ up, path_join up (components "stale-lock-evidence")) <$> parent p.

Definition preserve_stale_lock (p : path) (bytes : string) : prog string unit :=
  match evidence_path p with
  | None => Ret (Err "stale-lock-evidence-parent")
  | Some evidence =>
      Call (CreateNew evidence) (λ a,
        match a with
        | Err e => Ret (Err (message "stale-lock-evidence-create:" e))
        | Ok file =>
            Call (WriteHandle file bytes) (λ b, Ret (map_err (message "stale-lock-evidence-write:") b))
        end)
  end.

Definition done_ (r : LockAcquire) : prog string LockAcquire := Ret (Ok r).

(** The steps of [reclaim_stale_lock]: preserve, remove, create again. *)
Definition after_recreate (p : path) (pid : Z) (r : result string string) : prog string LockAcquire :=
  match r with
  | Ok birth => done_ (Acquired {| fl_path := p; fl_pid := pid; fl_birth := birth |})
  | Err reason => done_ (Degraded reason)
  end.
Definition remove_and_recreate (p : path) (pid : Z) (birth : string) : prog string LockAcquire :=
  Call (RemoveFile p) (λ a,
    match a with
    | Err e => done_ (Degraded (message "stale-lock-remove-failed:" e))
    | Ok _ => prog_match (create_lock_with_identity p pid birth) (after_recreate p pid)
    end).
Definition after_preserve (p : path) (pid : Z) (birth : string) (r : result string unit)
  : prog string LockAcquire :=
  match r with
  | Err reason => done_ (Degraded reason)
  | Ok _ => remove_and_recreate p pid birth
  end.
Definition reclaim_stale_lock (p : path) (pid : Z) (birth : string) (stale_bytes : string)
  : prog string LockAcquire :=
  prog_match (preserve_stale_lock p stale_bytes) (after_preserve p pid birth).

Definition held_lock (p : path) (pid : Z) : prog string LockAcquire :=
  prog_match (read_lock p) (λ r,
    match r with
    | Err reason => done_ (Degraded reason)
    | Ok lock =>
        match live_holder_matches lock with
        | Ok true => done_ (HeldByLive (sl_pid lock))
        | Ok false =>
            match current_birth_identity pid with
            | Ok birth => reclaim_stale_lock p pid birth (sl_bytes lock)
            | Err reason => done_ (Degraded reason)
            end
        | Err reason => done_ (Degraded reason)
        end
    end).

Definition lock_path (root : path) (assignment_id : string) : path :=
  path_join root (components (assignment_id +:+ ".lock")).

Definition after_create (p : path) (pid : Z) (r : result string string) : prog string LockAcquire :=
  match r with
  | Ok birth => done_ (Acquired {| fl_path := p; fl_pid := pid; fl_birth := birth |})
  | Err reason => if reason =s "occupied" then held_lock p pid else done_ (Degraded reason)
  end.

Definition acquire (root : path) (assignment_id : string) (pid : Z) : prog string LockAcquire :=
  let p := lock_path root assignment_id in
  prog_match (create_lock p pid) (after_create p pid).

Definition release (lock : FileAssignmentLock) : prog string unit :=
  Call (RemoveFile (fl_path lock)) (λ a, Ret (map_err (message "lock-release:") a)).
End Lock.

(** ** A lock that a live process is writing is never taken for a stale one *)

Section Safety.
Variable probe : ProcessProbe.
Variable utf8_error : string → string.

(** The probe knows the process: it lives and has a printable identity. *)
Definition known (pid : Z) : Prop :=
  in_range u32_max pid ∧ is_live probe pid = true ∧
  ∃ birth, current_birth_identity probe pid = Ok birth.

(** The text after the first [k] writes of [write_lock]. *)
Definition lock_text (pid : Z) (birth : string) (k : nat) : string :=
  foldr String.append "" (take k (lock_pieces pid birth)).

Lemma current_birth_identity_ok pid birth :
  current_birth_identity probe pid = Ok birth →
  birth_identity probe pid = Ok (Some birth) ∧ birth ≠ "" ∧ lacks LF birth ∧ lacks CR birth.
Proof.
  unfold current_birth_identity. intros (found & Hb & H)%bind_ok. destruct found as [b|]; [|done].
  destruct (is_empty b || _ || _) eqn:Hc; [done|]. injection H as ->. to_prop.
  split; [done|]. split; [by unfold is_empty in *; to_prop|]. by rewrite <- !contains_char_lacks.
Qed.

(** *** The lines of a lock's text *)

Definition pid_line (pid : Z) : string := "pid=" +:+ show_uint pid.
Definition birth_line (birth : string) : string := "birth=" +:+ birth.

Lemma pid_line_lacks c pid :
  in_range u32_max pid → is_ascii_digit c = false → lacks c "pid=" → lacks c (pid_line pid).
Proof.
  intros [? ?] Hc Hp. apply lacks_app. split; [done|]. by apply digits_lack, show_uint_digits.
Qed.

Lemma lock_line_pid acc pid :
  in_range u32_max pid → lock_line acc (pid_line pid) = Ok (Some pid, acc.2).
Proof.
  intros [? ?]. unfold lock_line, pid_line. rewrite strip_prefix_app.
  rewrite parse_show_uint; [done|unfold u32_max in *; lia|by vm_compute].
Qed.

Lemma lock_line_birth acc birth : birth ≠ "" → lock_line acc (birth_line birth) = Ok (acc.1, Some birth).
Proof.
  intros Hb. unfold lock_line, birth_line.
  change (strip_prefix "pid=" ("birth=" +:+ birth)) with (@None string). cbv iota.
  rewrite strip_prefix_app. unfold is_empty. by rewrite bool_decide_false.
Qed.

Lemma lock_text_steps pid birth :
  lock_text pid birth 0 = "" ∧ lock_text pid birth 1 = "pid=" ∧
  lock_text pid birth 2 = pid_line pid ∧
  lock_text pid birth 3 = pid_line pid +:+ String LF "birth=" ∧
  lock_text pid birth 4 = pid_line pid +:+ String LF (birth_line birth) ∧
  lock_text pid birth 5 = pid_line pid +:+ String LF (birth_line birth +:+ String LF "").
Proof.
  unfold lock_text, lock_pieces, pid_line, birth_line. cbn [take foldr].
  split_and!; rewrite ?str_app_nil, ?str_app_assoc; reflexivity.
Qed.

Lemma parse_lock_text pid birth bytes lock :
  in_range u32_max pid → birth ≠ "" → lacks LF birth → lacks CR birth →
  (∃ k, bytes = lock_text pid birth k) → parse_lock utf8_error bytes = Ok lock →
  sl_pid lock = pid ∧ (sl_birth lock = None ∨ sl_birth lock = Some birth).
Proof.
  intros Hr Hb Hl Hc [k ->]. assert (Hp : ∀ c, c = LF ∨ c = CR → lacks c (pid_line pid)).
  { intros c Hcc. apply pid_line_lacks; [done|by destruct Hcc as [->| ->]..]. }
  assert (Hbl : ∀ c, c = LF ∨ c = CR → lacks c birth → lacks c (birth_line birth)).
  { intros c Hcc ?. apply lacks_app. split; [by destruct Hcc as [->| ->]|done]. }
  unfold parse_lock. destruct (negb _); [done|].
  assert (parse_uint u32_max (trim (lock_text pid birth k)) = None) as ->.
  { destruct k as [|k]; [done|]. by apply parse_uint_letter. }
  assert (k ≤ 4 ∨ lock_text pid birth k = lock_text pid birth 5)%nat as Hk.
  { destruct (decide (k ≤ 4)%nat); [by left|right]. unfold lock_text. by rewrite !take_ge by (cbn; lia). }
  destruct (lock_text_steps pid birth) as (H0 & H1 & H2 & H3 & H4 & H5).
  assert (Hcase : ∀ bs, bs = [] ∨ bs = [birth_line birth] →
    fold_res lock_line (None, None) (pid_line pid :: bs) =
      Ok (Some pid, match bs with [] => None | _ => Some birth end)).
  { intros bs [->| ->]; cbn [fold_res]; rewrite lock_line_pid by done; [done|].
    rewrite lock_line_birth by done. done. }
  assert (lines (birth_line birth) = [birth_line birth]) as Hlb.
  { apply lines_one; [by auto|discriminate]. }
  destruct Hk as [Hk|Hk].
  - destruct k as [|[|[|[|[|k]]]]]; [..|lia]; rewrite ?H0, ?H1, ?H2, ?H3, ?H4.
    + discriminate.
    + discriminate.
    + rewrite lines_one, (Hcase []) by (auto; discriminate). intros [= <-]. cbn. auto.
    + rewrite lines_cons by auto. cbn [fold_res]. rewrite lock_line_pid by done. discriminate.
    + rewrite lines_cons by auto. rewrite Hlb, (Hcase [_]) by auto. intros [= <-]. cbn. auto.
  - rewrite Hk, H5. rewrite !lines_cons by auto. change (lines "") with (@nil string).
    rewrite (Hcase [_]) by auto. intros [= <-]. cbn. auto.
Qed.

Lemma live_text_not_stale pid birth k lock :
  known pid → current_birth_identity probe pid = Ok birth →
  parse_lock utf8_error (lock_text pid birth k) = Ok lock →
  live_holder_matches probe lock ≠ Ok false.
Proof.
  intros (Hr & Hlive & _) Hb Hp. apply current_birth_identity_ok in Hb as (Hid & Hne & Hl & Hc).
  destruct (parse_lock_text pid birth _ lock Hr Hne Hl Hc (ex_intro _ k eq_refl) Hp) as [Hpid Hbirth].
  unfold live_holder_matches. rewrite Hpid, Hlive. cbn [negb].
  destruct Hbirth as [->| ->]; [done|]. rewrite Hid. cbn. by rewrite bool_decide_true.
Qed.
End Safety.

(** ** Processes over one file system *)

(** Names lead to files; a handle is the file itself. *)
Record fs := { names : path → option nat; data : nat → string; next : nat }.

Definition set_name (s : fs) (p : path) (v : option nat) : fs :=
  {| names := λ q, if decide (q = p) then v else names s q; data := data s; next := next s |}.
Definition set_data (s : fs) (h : nat) (c : string) : fs :=
  {| names := names s; data := λ g, if decide (g = h) then c else data s g; next := next s |}.

(** A new empty file under a name. *)
Definition created (s : fs) (p : path) : fs :=
  {| names := λ q, if decide (q = p) then Some (next s) else names s q;
     data := λ g, if decide (g = next s) then "" else data s g;
     next := S (next s) |}.
Arguments created : simpl never.
Arguments set_name : simpl never.
Arguments set_data : simpl never.

(** What a request does when it succeeds. *)
Definition fs_do (s : fs) (q : request) : option (fs * answer q) :=
  match q return option (fs * answer q) with
  | CreateDirAll _ => Some (s, Ok tt)
  | CreateNew p =>
      match names s p with
      | Some _ => None
      | None => Some (created s p, Ok (next s))
      end
  | WriteHandle h c => Some (set_data s h (data s h +:+ c), Ok tt)
  | ReadFile p => h ← names s p; Some (s, Ok (data s h))
  | RemoveFile p => _ ← names s p; Some (set_name s p None, Ok tt)
  | _ => None
  end.

(** A request succeeds, or fails for whatever reason and changes nothing. *)
Definition fs_step (s : fs) (q : request) (a : answer q) (s' : fs) : Prop :=
  fs_do s q = Some (s', a) ∨ ∃ e, a = fail q e ∧ s' = s.

Definition pstep {E A} (s : fs) (p : prog E A) (s' : fs) (p' : prog E A) : Prop :=
  match p with
  | Ret _ => False
  | Call q k => ∃ a, fs_step s q a s' ∧ p' = k a
  end.

(** A process tries to acquire, holds, and then releases. *)
Inductive proc :=
| Trying (p : prog string LockAcquire)
| Holding (lock : FileAssignmentLock)
| Finished.

Inductive proc_step (s : fs) : proc → fs → proc → Prop :=
| step_try p s' p' : pstep s p s' p' → proc_step s (Trying p) s' (Trying p')
| step_hold lock : proc_step s (Trying (Ret (Ok (Acquired lock)))) s (Holding lock)
| step_give_up r : (∀ lock, r ≠ Ok (Acquired lock)) → proc_step s (Trying (Ret r)) s Finished
| step_release lock s' p' : pstep s (release lock) s' p' → proc_step s (Holding lock) s' Finished.

Definition system : Type := fs * list proc.

Inductive system_step : system → system → Prop :=
| system_step_intro s ps i p s' p' :
    ps !! i = Some p → proc_step s p s' p' → system_step (s, ps) (s', <[i := p']> ps).

(** The process has the lock: [acquire] answered so, or it holds it. *)
Definition has_lock (p : proc) : Prop :=
  match p with
  | Trying (Ret (Ok (Acquired _))) => True
  | Holding _ => True
  | _ => False
  end.

Section Mutex.
Variable probe : ProcessProbe.
Variable utf8_error : string → string.
Variables (root : path) (assignment_id : string) (up : path).
Let L : path := lock_path root assignment_id.
Let Ev : path := path_join up (components "stale-lock-evidence").
Hypothesis L_parent : parent L = Some up.
Hypothesis L_not_evidence : L ≠ Ev.

(** The file the lock's name leads to at the start. *)
Variable h0 : option nat.

(** *** Where an acquiring process can be *)

Inductive point :=
| PStart | PCreate
| PWrite (again : bool) (h k : nat)
| PRead
| PEvidence (bytes : string)
| PEvWrite (h : nat) (bytes : string)
| PRemove | PStart2 | PCreate2
| PEnd (r : LockAcquire).

Definition writes (pid : Z) (birth : string) (h k : nat) : prog string string :=
  prog_for (write_piece h) (drop k (lock_pieces pid birth)) ≫= λ _, Ret (Ok birth).

Definition at_point (pid : Z) (birth : string) (pc : point) : prog string LockAcquire :=
  match pc with
  | PStart => acquire probe utf8_error root assignment_id pid
  | PCreate =>
      prog_match (h ← open_new L; create_rest probe L pid h) (after_create probe utf8_error L pid)
  | PWrite again h k =>
      prog_match (writes pid birth h k)
        (if again then after_recreate L pid else after_create probe utf8_error L pid)
  | PRead => held_lock probe utf8_error L pid
  | PEvidence bytes => reclaim_stale_lock L pid birth bytes
  | PEvWrite h bytes =>
      prog_match (Call (WriteHandle h bytes) (λ a, Ret (map_err (message "stale-lock-evidence-write:") a)))
        (after_preserve L pid birth)
  | PRemove => remove_and_recreate L pid birth
  | PStart2 => prog_match (create_lock_with_identity L pid birth) (after_recreate L pid)
  | PCreate2 =>
      prog_match (h ← open_new L; write_lock h pid birth ≫= λ _, Ret (Ok birth)) (after_recreate L pid)
  | PEnd r => done_ r
  end.

Definition ident (pid : Z) (birth : string) : Prop :=
  known probe pid ∧ current_birth_identity probe pid = Ok birth.

(** What a process knows of the file system at a point. *)
Definition stale (s : fs) : Prop := names s L = h0 ∧ is_Some h0.
Definition removing (s : fs) : Prop := is_Some (names s Ev) ∧ stale s.
Definition owns (s : fs) (pid : Z) (birth : string) (h k : nat) : Prop :=
  names s L = Some h ∧ Some h ≠ h0 ∧ data s h = lock_text pid birth k.

Inductive ghost := GTry (pid : Z) (birth : string) (pc : point) | GHold (pid : Z) (birth : string) (h : nat) | GDone.

Definition ghost_ok (s : fs) (g : ghost) : Prop :=
  match g with
  | GTry pid birth pc =>
      ident pid birth ∧
      match pc with
      | PWrite _ h k => (k ≤ 5)%nat ∧ owns s pid birth h k
      | PEvidence _ => names s Ev = None → stale s
      | PEvWrite h _ => removing s ∧ Some h ≠ h0
      | PRemove => removing s
      | PEnd r => ∀ lock, r ≠ Acquired lock
      | _ => True
      end
  | GHold pid birth h => ident pid birth ∧ owns s pid birth h 5
  | GDone => True
  end.

(** Owners of the lock file and removers of a stale one are unique. *)
Inductive role := Owner | Remover.
Definition role_of (g : ghost) : option role :=
  match g with
  | GTry _ _ (PWrite _ _ _) | GHold _ _ _ => Some Owner
  | GTry _ _ (PEvWrite _ _) | GTry _ _ PRemove => Some Remover
  | _ => None
  end.

Definition proc_at (p : proc) (g : ghost) : Prop :=
  match p, g with
  | Trying p, GTry pid birth pc => p = at_point pid birth pc
  | Holding lock, GHold _ _ _ => fl_path lock = L
  | Finished, GDone => True
  | _, _ => False
  end.

(** The lock's file is the initial one, or what a known process wrote of its
    lock text. *)
Definition lock_file_ok (s : fs) : Prop :=
  (∀ h, h0 = Some h → (h < next s)%nat) ∧
  ∀ h, names s L = Some h → (h < next s)%nat ∧
    (Some h = h0 ∨ ∃ pid birth k, ident pid birth ∧ data s h = lock_text pid birth k).

Record inv (s : fs) (ps : list proc) (gs : list ghost) : Prop := {
  inv_file : lock_file_ok s;
  inv_procs : Forall2 proc_at ps gs;
  inv_ghosts : ∀ i g, gs !! i = Some g → ghost_ok s g;
  inv_roles : ∀ i j gi gj r, gs !! i = Some gi → gs !! j = Some gj →
    role_of gi = Some r → role_of gj = Some r → i = j;
}.

(** *** One step of one process *)

(** The moves of a process, with what each does to the file system. *)
Inductive move (s : fs) : ghost → fs → ghost → Prop :=
| m_quiet g g' : role_of g' = None → (ghost_ok s g → ghost_ok s g') → move s g s g'
| m_create pid birth pc again :
    names s L = None →
    move s (GTry pid birth pc) (created s L) (GTry pid birth (PWrite again (next s) 0))
| m_evidence pid birth bytes :
    names s Ev = None →
    move s (GTry pid birth (PEvidence bytes)) (created s Ev) (GTry pid birth (PEvWrite (next s) bytes))
| m_write pid birth again h k :
    (k < 5)%nat →
    move s (GTry pid birth (PWrite again h k))
      (set_data s h (lock_text pid birth (S k))) (GTry pid birth (PWrite again h (S k)))
| m_evwrite pid birth h bytes c :
    move s (GTry pid birth (PEvWrite h bytes)) (set_data s h c) (GTry pid birth PRemove)
| m_remove pid birth :
    move s (GTry pid birth PRemove) (set_name s L None) (GTry pid birth PStart2)
| m_hold pid birth again h :
    move s (GTry pid birth (PWrite again h 5)) s (GHold pid birth h)
| m_release pid birth h :
    move s (GHold pid birth h) (set_name s L None) GDone.

Lemma message_not_occupied prefix e :
  String.get 0 prefix ≠ Some "o"%char → prefix ≠ "" → bool_decide (message prefix e = "occupied") = false.
Proof.
  intros Hp Hne. apply bool_decide_eq_false. unfold message. destruct prefix as [|a prefix]; [done|].
  cbn. intros [= -> _]. done.
Qed.

(** A failed request ends the attempt, or (the file exists) leads to a look at
    the holder. *)
Lemma fail_create_ok s pid birth e :
  ident pid birth → ∃ pc, after_create probe utf8_error L pid (Err (create_new_error e)) = at_point pid birth pc ∧
    role_of (GTry pid birth pc) = None ∧ ghost_ok s (GTry pid birth pc).
Proof.
  intros Hid. unfold create_new_error. destruct (bool_decide (io_kind e = AlreadyExists)).
  - by exists PRead.
  - exists (PEnd (Degraded (message "lock-create:" e))). unfold after_create.
    rewrite message_not_occupied by done. done.
Qed.

Ltac quiet_move pid birth pc := exists (GTry pid birth pc); split; [apply m_quiet; [done|]; intros [? ?]; done|].

Lemma try_start s pid birth s' p' :
  ident pid birth → pstep s (at_point pid birth PStart) s' p' →
  ∃ g', move s (GTry pid birth PStart) s' g' ∧ proc_at (Trying p') g'.
Proof.
  intros Hid. cbn [at_point]. unfold acquire, create_lock, open_new_lock. fold L. rewrite L_parent.
  intros (a & [[= <- <-]|(e & -> & ->)] & ->).
  - quiet_move pid birth PCreate. reflexivity.
  - quiet_move pid birth (PEnd (Degraded (message "lock-dir:" e))). 
    change (after_create probe utf8_error L pid (Err (message "lock-dir:" e)) =
            done_ (Degraded (message "lock-dir:" e))).
    unfold after_create. by rewrite message_not_occupied.
Qed.

Lemma try_create s pid birth s' p' :
  ident pid birth → pstep s (at_point pid birth PCreate) s' p' →
  ∃ g', move s (GTry pid birth PCreate) s' g' ∧ proc_at (Trying p') g'.
Proof.
  intros Hid (a & [H|(e & -> & ->)] & ->).
  - cbn in H. destruct (names s L) eqn:HL; [done|]. injection H as <- <-.
    exists (GTry pid birth (PWrite false (next s) 0)). split; [by apply m_create|].
    cbn. unfold create_rest. destruct Hid as [_ ->]. reflexivity.
  - destruct (fail_create_ok s pid birth e Hid) as (pc & Hpc & Hr & Hok).
    exists (GTry pid birth pc). split; [by apply m_quiet|]. exact Hpc.
Qed.

Lemma try_write s pid birth again h k s' p' :
  ident pid birth → (k ≤ 5)%nat → owns s pid birth h k →
  pstep s (at_point pid birth (PWrite again h k)) s' p' →
  ∃ g', move s (GTry pid birth (PWrite again h k)) s' g' ∧ proc_at (Trying p') g'.
Proof.
  intros Hid Hk (_ & _ & Hd) Hstep. assert (k < 5)%nat as Hk5.
  { destruct (decide (k = 5)%nat) as [->|]; [|lia]. by destruct again. }
  assert (∃ piece, drop k (lock_pieces pid birth) = piece :: drop (S k) (lock_pieces pid birth) ∧
            lock_text pid birth (S k) = lock_text pid birth k +:+ piece) as (piece & Hdrop & Htext).
  { unfold lock_text. destruct k as [|[|[|[|[|k]]]]]; [..|lia]; eexists; (split; [reflexivity|]);
      cbn [lock_pieces take foldr]; by rewrite ?str_app_nil, ?str_app_assoc. }
  unfold at_point, writes in Hstep. rewrite Hdrop in Hstep.
  destruct Hstep as (a & [H|(e & -> & ->)] & ->).
  - injection H as <- <-. exists (GTry pid birth (PWrite again h (S k))). split; [|reflexivity].
    rewrite Hd, <- Htext. by apply m_write.
  - quiet_move pid birth (PEnd (Degraded (message "lock-write:" e))).
    destruct again; [reflexivity|].
    change (after_create probe utf8_error L pid (Err (message "lock-write:" e)) =
            done_ (Degraded (message "lock-write:" e))).
    unfold after_create. by rewrite message_not_occupied.
Qed.

Lemma try_read s pid birth s' p' :
  ident pid birth → lock_file_ok s → pstep s (at_point pid birth PRead) s' p' →
  ∃ g', move s (GTry pid birth PRead) s' g' ∧ proc_at (Trying p') g'.
Proof.
  intros Hid [_ Hfile] (a & [H|(e & -> & ->)] & ->).
  2:{ by quiet_move pid birth (PEnd (Degraded (message "lock-open:" e))). }
  cbn in H. destruct (names s L) as [h|] eqn:HL; [|done]. injection H as <- <-.
  destruct (Hfile h eq_refl) as [_ Hh]. cbn.
  destruct (parse_lock utf8_error (data s h)) as [lock|reason] eqn:Hp; cbn.
  2:{ by quiet_move pid birth (PEnd (Degraded reason)). }
  destruct (live_holder_matches probe lock) as [[]|reason] eqn:Hm.
  - by quiet_move pid birth (PEnd (HeldByLive (sl_pid lock))).
  - assert (stale s) as Hst.
    { unfold stale. rewrite HL. destruct Hh as [<-|(pid' & b' & k & [Hk Hb] & Hd)]; [by eauto|].
      exfalso. rewrite Hd in Hp. by apply (live_text_not_stale probe utf8_error pid' b' k lock). }
    exists (GTry pid birth (PEvidence (sl_bytes lock))). split.
    + apply m_quiet; [done|]. intros [? _]. split; [done|]. by intros _.
    + cbn. destruct Hid as [_ ->]. reflexivity.
  - by quiet_move pid birth (PEnd (Degraded reason)).
Qed.

Lemma try_reclaim s pid birth pc s' p' :
  ident pid birth → ghost_ok s (GTry pid birth pc) →
  pc = PRemove ∨ pc = PStart2 ∨ pc = PCreate2 ∨ (∃ bytes, pc = PEvidence bytes) ∨ (∃ h bytes, pc = PEvWrite h bytes) →
  pstep s (at_point pid birth pc) s' p' →
  ∃ g', move s (GTry pid birth pc) s' g' ∧ proc_at (Trying p') g'.
Proof.
  intros Hid Hok [->|[->|[->|[[bytes ->]|(h & bytes & ->)]]]]; cbn [at_point].
  - intros (a & [H|(e & -> & ->)] & ->).
    + cbn in H. destruct (names s L) eqn:HL; [|done]. injection H as <- <-.
      exists (GTry pid birth PStart2). split; [apply m_remove|reflexivity].
    + by quiet_move pid birth (PEnd (Degraded (message "stale-lock-remove-failed:" e))).
  - unfold create_lock_with_identity, open_new_lock. rewrite L_parent.
    intros (a & [[= <- <-]|(e & -> & ->)] & ->).
    + by quiet_move pid birth PCreate2.
    + by quiet_move pid birth (PEnd (Degraded (message "lock-dir:" e))).
  - intros (a & [H|(e & -> & ->)] & ->).
    + cbn in H. destruct (names s L) eqn:HL; [done|]. injection H as <- <-.
      exists (GTry pid birth (PWrite true (next s) 0)). split; [by apply m_create|reflexivity].
    + by quiet_move pid birth (PEnd (Degraded (create_new_error e))).
  - unfold reclaim_stale_lock, preserve_stale_lock, evidence_path. rewrite L_parent. cbn [fmap option_fmap option_map].
    fold Ev. intros (a & [H|(e & -> & ->)] & ->).
    + cbn in H. destruct (names s Ev) eqn:HE; [done|]. injection H as <- <-.
      exists (GTry pid birth (PEvWrite (next s) bytes)). split; [by apply m_evidence|reflexivity].
    + by quiet_move pid birth (PEnd (Degraded (message "stale-lock-evidence-create:" e))).
  - intros (a & [H|(e & -> & ->)] & ->).
    + injection H as <- <-. exists (GTry pid birth PRemove). split; [apply m_evwrite|reflexivity].
    + by quiet_move pid birth (PEnd (Degraded (message "stale-lock-evidence-write:" e))).
Qed.

Lemma proc_moves s p s' p' g :
  lock_file_ok s → ghost_ok s g → proc_at p g → proc_step s p s' p' →
  ∃ g', move s g s' g' ∧ proc_at p' g'.
Proof.
  intros Hf Hok Hat Hstep. destruct Hstep as [p s' p' Hp|lock|r Hr|lock s' p' Hp].
  - destruct g as [pid birth pc| |]; [|done|done]. cbn in Hat. subst p. destruct Hok as [Hid Hok].
    destruct pc; [by apply try_start|by apply try_create|destruct Hok; by apply try_write|
                  by apply try_read|by eapply try_reclaim; eauto 10 ..|done].
  - destruct g as [pid birth pc| |]; [|done|done]. cbn in Hat. destruct Hok as [Hid Hok].
    destruct pc as [| |again h k| | | | | | |r]; try (cbn in Hat; discriminate).
    + cbn in Hat. unfold acquire, create_lock, open_new_lock in Hat. fold L in Hat. by rewrite L_parent in Hat.
    + destruct Hok as [Hk _]. destruct k as [|[|[|[|[|[|k]]]]]]; [discriminate..| |lia].
      exists (GHold pid birth h). split; [apply m_hold|].
      cbn in Hat. destruct again; by injection Hat as ->.
    + cbn in Hat. unfold reclaim_stale_lock, preserve_stale_lock, evidence_path in Hat.
      by rewrite L_parent in Hat.
    + cbn in Hat. unfold create_lock_with_identity, open_new_lock in Hat. by rewrite L_parent in Hat.
    + injection Hat as <-. by destruct (Hok lock).
  - exists GDone. split; [|done]. by apply m_quiet.
  - destruct g as [|pid birth h|]; [done| |done]. cbn in Hat, Hp. rewrite Hat in Hp.
    destruct Hp as (a & [H|(e & -> & ->)] & ->); exists GDone; (split; [|done]).
    + cbn in H. destruct (names s L); [|done]. injection H as <- <-. apply m_release.
    + by apply m_quiet.
Qed.

(** *** The moves keep the invariant *)

Lemma move_lock_file s g s' g' : lock_file_ok s → ghost_ok s g → move s g s' g' → lock_file_ok s'.
Proof.
  intros [Hh0 Hf] Hok Hm. destruct Hm as [| pid birth pc again HL|pid birth bytes HE|pid birth again h k Hk|
                                            pid birth h bytes c|pid birth|pid birth again h|pid birth h];
    [done| | | | | |done|]; split; unfold created, set_name, set_data; cbn.
  - intros h ?%Hh0. lia.
  - intros h. rewrite decide_True by done. intros [= <-]. split; [lia|]. right.
    destruct Hok as [Hid _]. exists pid, birth, 0%nat. by rewrite decide_True.
  - intros h ?%Hh0. lia.
  - intros h. rewrite decide_False by done. intros H. destruct (Hf h H) as [? Hd].
    split; [lia|]. by rewrite decide_False by lia.
  - done.
  - intros h' H. destruct (Hf h' H) as [? Hd]. split; [done|].
    destruct (decide (h' = h)) as [->|]; [|done]. right. destruct Hok as [Hid _]. by exists pid, birth, (S k).
  - done.
  - intros h' H. destruct (Hf h' H) as [? Hd]. split; [done|].
    destruct Hok as [_ [[_ [HL _]] Hne]]. rewrite decide_False; [done|]. intros ->. apply Hne. by rewrite <- HL.
  - done.
  - intros h. by rewrite decide_True.
  - done.
  - intros h'. by rewrite decide_True.
Qed.

(** The move keeps what the moving process knows. *)
Lemma move_self s g s' g' : lock_file_ok s → ghost_ok s g → move s g s' g' → ghost_ok s' g'.
Proof.
  intros [Hh0 Hf] Hok Hm. destruct Hm as [| pid birth pc again HL|pid birth bytes HE|pid birth again h k Hk|
                                            pid birth h bytes c|pid birth|pid birth again h|pid birth h];
    [by auto|..]; unfold created, set_name, set_data.
  - destruct Hok as [Hid _]. split; [done|]. split; [lia|]. split_and!; cbn.
    + by rewrite decide_True.
    + intros H. specialize (Hh0 (next s) (eq_sym H)). lia.
    + by rewrite decide_True.
  - destruct Hok as [Hid [HL Hs]]; [done|]. split; [done|]. split.
    + split; cbn; [rewrite decide_True by done; by eexists|]. split; [|done]. cbn. by rewrite decide_False.
    + intros H. specialize (Hh0 (next s) (eq_sym H)). lia.
  - destruct Hok as [Hid (_ & HL & Hne & _)]. split; [done|]. split; [lia|]. split_and!; cbn; [done|done|].
    by rewrite decide_True.
  - destruct Hok as [Hid [Hr _]]. by split.
  - destruct Hok as [Hid _]. by split.
  - destruct Hok as [Hid [_ Ho]]. by split.
  - done.
Qed.

Lemma created_same s p : names (created s p) p = Some (next s).
Proof. unfold created. cbn. by rewrite decide_True. Qed.
Lemma created_other s p q : q ≠ p → names (created s p) q = names s q.
Proof. intros. unfold created. cbn. by rewrite decide_False. Qed.
Lemma created_data s p h : h ≠ next s → data (created s p) h = data s h.
Proof. intros. unfold created. cbn. by rewrite decide_False. Qed.
Lemma set_name_other s p v q : q ≠ p → names (set_name s p v) q = names s q.
Proof. intros. unfold set_name. cbn. by rewrite decide_False. Qed.

(** Who can know what: an owner excludes a stale lock. *)
Lemma owns_not_stale s pid birth h k : owns s pid birth h k → ¬ stale s.
Proof. intros (HL & Hne & _) [Hs _]. congruence. Qed.

(** What a process other than the mover knows depends on the lock's name, the
    evidence's name and, for an owner, on the lock's file. *)
Lemma ghost_ok_frame s s' x :
  (∀ pid birth h k, role_of x = Some Owner → owns s pid birth h k → owns s' pid birth h k) →
  (role_of x = Some Remover → removing s → removing s') →
  ((names s Ev = None → stale s) → (names s' Ev = None → stale s')) →
  ghost_ok s x → ghost_ok s' x.
Proof.
  intros Ho Hr He. destruct x as [pid birth pc|pid birth h|]; cbn; [|naive_solver|done].
  intros [Hid Hx]. split; [done|].
  destruct pc; try done; [destruct Hx; split; [done|]; by apply Ho|by auto|destruct Hx; split; by auto|by auto].
Qed.

(** And what every other process knows. *)
Lemma move_other s g s' g' x :
  lock_file_ok s → ghost_ok s g → move s g s' g' →
  (∀ r, role_of g = Some r → role_of x ≠ Some r) → ghost_ok s x → ghost_ok s' x.
Proof.
  intros [Hh0 Hf] Hok Hm Hrole.
  destruct Hm as [| pid birth pc again HL|pid birth bytes HE|pid birth again h k Hk|
                  pid birth h bytes c|pid birth|pid birth again h|pid birth h];
    [done| | | | | |done|]; apply ghost_ok_frame.
  - intros ???? _ (H & _). congruence.
  - intros _ [_ [H [? ?]]]. congruence.
  - intros H HE. rewrite created_other in HE by done. destruct (H HE) as [? [? ?]]. congruence.
  - intros ???? _ (H & ? & ?). destruct (Hf _ H) as [Hlt _].
    split_and!; [by rewrite created_other|done|]. by rewrite created_data by lia.
  - intros _ [[? H] _]. congruence.
  - intros _ H. by rewrite created_same in H.
  - intros ???? Hr. by destruct (Hrole Owner).
  - done.
  - done.
  - intros ???? _ Ho. by apply owns_not_stale in Ho as []; apply Hok.
  - done.
  - done.
  - intros ???? _ Ho. by apply owns_not_stale in Ho as []; apply Hok.
  - intros Hr. by destruct (Hrole Remover).
  - intros _ H. rewrite set_name_other in H by done. destruct Hok as [_ [[? ?] _]]. congruence.
  - intros ???? Hr. by destruct (Hrole Owner).
  - intros _ [_ Hs]. destruct Hok as [_ Ho]. by apply owns_not_stale in Ho.
  - intros H HE. rewrite set_name_other in HE by done. destruct Hok as [_ Ho].
    by apply owns_not_stale in Ho as []; apply H.
Qed.

Lemma move_role s g s' g' r :
  move s g s' g' → role_of g' = Some r →
  role_of g = Some r ∨ (r = Owner ∧ names s L = None) ∨ (r = Remover ∧ names s Ev = None).
Proof. destruct 1; cbn; naive_solver. Qed.

Lemma owner_has_name s x : ghost_ok s x → role_of x = Some Owner → names s L ≠ None.
Proof.
  destruct x as [pid birth []|pid birth h|]; cbn; try done.
  - intros (_ & _ & HL & _) _. congruence.
  - intros (_ & HL & _) _. congruence.
Qed.

Lemma remover_has_evidence s x : ghost_ok s x → role_of x = Some Remover → names s Ev ≠ None.
Proof.
  destruct x as [pid birth []|pid birth h|]; cbn; try done.
  - intros (_ & [[? HE] _] & _) _. congruence.
  - intros (_ & [? HE] & _) _. congruence.
Qed.

Lemma move_inv s ps gs i p p' g s' g' :
  inv s ps gs → ps !! i = Some p → gs !! i = Some g → move s g s' g' → proc_at p' g' →
  inv s' (<[i := p']> ps) (<[i := g']> gs).
Proof.
  intros [Hf Hps Hgs Hroles] Hp Hg Hm Hat. pose proof (Hgs i g Hg) as Hok.
  assert (i < length gs)%nat as Hi by (by eapply lookup_lt_Some).
  assert (∀ j x, j ≠ i → gs !! j = Some x → ∀ r, role_of g' = Some r → role_of x ≠ Some r) as Hnew.
  { intros j x Hne Hj r Hr Hx. destruct (move_role s g s' g' r Hm Hr) as [Hg'|[[-> HL]|[-> HE]]].
    - apply Hne. by eapply Hroles.
    - by apply (owner_has_name s x (Hgs j x Hj)).
    - by apply (remover_has_evidence s x (Hgs j x Hj)). }
  split.
  - by eapply move_lock_file.
  - by apply Forall2_insert.
  - intros j x. destruct (decide (i = j)) as [<-|Hne].
    + rewrite list_lookup_insert_eq by done. intros [= <-]. by eapply move_self.
    + rewrite list_lookup_insert_ne by done. intros Hj. eapply move_other; [done..| |by eapply Hgs].
      intros r Hr Hx. apply Hne. by eapply Hroles.
  - intros j k gj gk r. destruct (decide (i = j)) as [<-|Hj], (decide (i = k)) as [<-|Hk]; [done|..].
    + rewrite list_lookup_insert_eq, list_lookup_insert_ne by done. intros [= <-] Hgk Hr Hr'.
      exfalso. by eapply (Hnew k gk).
    + rewrite list_lookup_insert_eq, list_lookup_insert_ne by done. intros Hgj [= <-] Hr Hr'.
      exfalso. by eapply (Hnew j gj).
    + rewrite !list_lookup_insert_ne by done. apply Hroles.
Qed.

(** *** Reachable systems *)

Lemma step_inv s ps s' ps' gs :
  inv s ps gs → system_step (s, ps) (s', ps') → ∃ gs', inv s' ps' gs'.
Proof.
  intros Hinv Hstep. inversion Hstep as [? ? i p ? p' Hp Hps]; subst.
  destruct (Forall2_lookup_l _ _ _ _ _ (inv_procs _ _ _ Hinv) Hp) as (g & Hg & Hat).
  destruct (proc_moves s p s' p' g) as (g' & Hm & Hat');
    [by apply Hinv|by eapply inv_ghosts|done|done|].
  exists (<[i := g']> gs). by eapply move_inv.
Qed.

Lemma reachable_inv s ps s' ps' gs :
  inv s ps gs → rtc system_step (s, ps) (s', ps') → ∃ gs', inv s' ps' gs'.
Proof.
  intros Hinv Hr. remember (s, ps) as c eqn:Hc. remember (s', ps') as c' eqn:Hc'.
  revert s ps gs Hinv Hc. induction Hr as [c|c [s1 ps1] c' Hstep Hr IH]; intros s ps gs Hinv ->.
  - injection Hc' as <- <-. by exists gs.
  - destruct (step_inv _ _ _ _ _ Hinv Hstep) as [gs1 Hinv1]. by eapply IH.
Qed.

(** A process that has the lock is an owner. *)
Lemma has_lock_owner s p g : ghost_ok s g → proc_at p g → has_lock p → role_of g = Some Owner.
Proof.
  intros Hok Hat Hl. destruct p as [p|lock|]; [|by destruct g|done].
  destruct g as [pid birth pc| |]; [|done|done]. cbn in Hat. subst p. destruct Hok as [_ Hok].
  destruct pc as [| |again h k| | | | | | |r]; try (by cbn in Hl); try done.
  - cbn in Hl. unfold acquire, create_lock, open_new_lock in Hl. fold L in Hl. by rewrite L_parent in Hl.
  - cbn in Hl. unfold reclaim_stale_lock, preserve_stale_lock, evidence_path in Hl. by rewrite L_parent in Hl.
  - cbn in Hl. unfold create_lock_with_identity, open_new_lock in Hl. by rewrite L_parent in Hl.
  - cbn in Hl. destruct r; [by destruct (Hok lock)|done|done].
Qed.

Lemma initial_inv s pids :
  names s L = h0 → (∀ h, h0 = Some h → (h < next s)%nat) →
  Forall (known probe) pids →
  ∃ gs, inv s (map (λ pid, Trying (acquire probe utf8_error root assignment_id pid)) pids) gs.
Proof.
  intros HL Hn Hk.
  assert (∃ births, Forall2 ident pids births) as [births Hb].
  { induction Hk as [|pid pids Hk _ [births IH]]; [by exists []|].
    pose proof Hk as (_ & _ & birth & Hbirth). exists (birth :: births). by constructor. }
  exists (zip_with (λ pid birth, GTry pid birth PStart) pids births). split.
  - split; [done|]. intros h Hh. split; [apply Hn; congruence|]. left. congruence.
  - clear Hk. induction Hb; cbn; constructor; done.
  - intros i g Hg. apply lookup_zip_with_Some in Hg as (pid & birth & -> & Hp & Hbi).
    split; [|done]. by eapply Forall2_lookup_lr.
  - intros i j gi gj r Hg _ Hr. exfalso.
    apply lookup_zip_with_Some in Hg as (pid & birth & -> & _). done.
Qed.
End Mutex.

(** C4. Mutual exclusion of the assignment lock.  Any number of processes, all
    known to the probe (alive, with a valid identity), acquire, hold and release
    the lock of one assignment; their requests interleave in any order over one
    file system in which any request may also fail; at the start the lock file
    may be absent or be anything, in particular a stale lock.  Then at no time
    do two of them have the lock. *)
Theorem lock_mutual_exclusion (probe : ProcessProbe) (utf8_error : string → string)
    (root : path) (assignment_id : string) (pids : list Z) (s s' : fs) (ps : list proc)
    (i j : nat) (pi pj : proc) :
  let L := lock_path root assignment_id in
  (∃ up, parent L = Some up ∧ L ≠ path_join up (components "stale-lock-evidence")) →
  (∀ h, names s L = Some h → (h < next s)%nat) →
  Forall (known probe) pids →
  rtc system_step (s, map (λ pid, Trying (acquire probe utf8_error root assignment_id pid)) pids) (s', ps) →
  ps !! i = Some pi → ps !! j = Some pj → has_lock pi → has_lock pj → i = j.
Proof.
  intros L (up & Hup & Hne) Hn Hk Hr Hi Hj Hli Hlj.
  destruct (initial_inv probe utf8_error root assignment_id up (names s L) s pids eq_refl Hn Hk)
    as [gs0 Hinv0].
  destruct (reachable_inv probe utf8_error root assignment_id up Hup Hne _ _ _ _ _ _ Hinv0 Hr) as [gs [_ Hps Hgs Hroles]].
  destruct (Forall2_lookup_l _ _ _ _ _ Hps Hi) as (gi & Hgi & Hai).
  destruct (Forall2_lookup_l _ _ _ _ _ Hps Hj) as (gj & Hgj & Haj).
  eapply Hroles; [done|done|..]; eapply has_lock_owner; eauto.
Qed.

Definition demo_probe : ProcessProbe :=
  {| is_live := λ pid, 100 <? pid; birth_identity := default_birth_identity (λ pid, 100 <? pid) |}.
Definition demo_fs : fs := {| names := λ _, None; data := λ _, ""; next := 0 |}.

Lemma known_demo pid : pid = 101 ∨ pid = 102 → known demo_probe pid.
Proof.
  intros [->| ->]; (split; [by vm_compute|]; split; [done|]; eexists; vm_compute; reflexivity).
Qed.

(** One process runs alone for up to [n] requests, all of which succeed. *)
Fixpoint drive {A} (n : nat) (s : fs) (p : prog string A) : fs * prog string A :=
  match n, p with
  | S n', Call q k =>
      match fs_do s q with
      | Some (s', a) => drive n' s' (k a)
      | None => (s, p)
      end
  | _, _ => (s, p)
  end.

Lemma drive_steps n s p ps i :
  ps !! i = Some (Trying p) →
  rtc system_step (s, ps) ((drive n s p).1, <[i := Trying (drive n s p).2]> ps).
Proof.
  revert s p ps. induction n as [|n IH]; intros s p ps Hi; cbn.
  { rewrite list_insert_id by done. by destruct p. }
  destruct p as [r|q k]; [by rewrite list_insert_id|].
  destruct (fs_do s q) as [[s' a]|] eqn:Hd; [|by rewrite list_insert_id].
  eapply rtc_l.
  - eapply system_step_intro; [done|]. apply step_try. exists a. split; [by left|done].
  - pose proof (IH s' (k a) (<[i := Trying (k a)]> ps)) as IH'.
    rewrite list_insert_insert_eq in IH'. apply IH', list_lookup_insert_eq. by eapply lookup_lt_Some.
Qed.

Definition demo_try (pid : Z) : prog string LockAcquire :=
  acquire demo_probe id (components "/run") "a1" pid.

Lemma lock_mutual_exclusion_witness :
  ∃ s' ps p0 p1,
    rtc system_step
      (demo_fs, [Trying (demo_try 101); Trying (demo_try 102)]) (s', ps) ∧
    ps !! 0%nat = Some p0 ∧ has_lock p0 ∧ ps !! 1%nat = Some p1 ∧ (has_lock p1 → False).
Proof.
  eexists _, _, _, _. split_and!.
  - apply (drive_steps 7 demo_fs (demo_try 101) _ 0). reflexivity.
  - reflexivity.
  - vm_compute. exact I.
  - reflexivity.
  - intros H1. assert (0%nat = 1%nat) as Hc; [|discriminate Hc].
    refine (lock_mutual_exclusion demo_probe id (components "/run") "a1" [101; 102] demo_fs _ _
             0 1 _ _ _ _ _ 
             (drive_steps 7 demo_fs (demo_try 101) [Trying (demo_try 101); Trying (demo_try 102)] 0 eq_refl) eq_refl eq_refl _ H1).
    + exists (components "/run"). split; [reflexivity|]. vm_compute. discriminate.
    + intros h H. discriminate H.
    + repeat constructor; apply known_demo; auto.
    + vm_compute. exact I.
Defined.

(** ** One process alone *)

(** A file system that fails a request only when it must. *)
Definition fs_error (q : request) : io_error :=
  match q with
  | CreateNew _ => {| io_kind := AlreadyExists; io_message := "File exists (os error 17)" |}
  | _ => {| io_kind := NotFound; io_message := "No such file or directory (os error 2)" |}
  end.
Definition fs_handler : handler fs := λ s q,
  match fs_do s q with
  | Some r => r
  | None => (s, fail q (fs_error q))
  end.

Lemma run_call {E A} s q (k : answer q → prog E A) s' a :
  fs_handler s q = (s', a) →
  (run fs_handler s (Call q k)).1.1 = (run fs_handler s' (k a)).1.1 ∧
  (run fs_handler s (Call q k)).2 = (run fs_handler s' (k a)).2.
Proof. intros H. cbn. rewrite H. by destruct (run fs_handler s' (k a)) as [[??]?]. Qed.

(** The outcome of a program run alone: the file system and the result. *)
Definition outcome {E A} (s : fs) (p : prog E A) : fs * result E A :=
  ((run fs_handler s p).1.1, (run fs_handler s p).2).

Lemma outcome_ret {E A} s (r : result E A) : outcome s (Ret r) = (s, r).
Proof. done. Qed.
Lemma outcome_call {E A} s q (k : answer q → prog E A) :
  outcome s (Call q k) = outcome (fs_handler s q).1 (k (fs_handler s q).2).
Proof.
  unfold outcome. destruct (fs_handler s q) as [s' a] eqn:H.
  by destruct (run_call s q k s' a H) as [-> ->].
Qed.

Lemma outcome_match {E F A B} s (p : prog E A) (f : result E A → prog F B) :
  outcome s (prog_match p f) = outcome (outcome s p).1 (f (outcome s p).2).
Proof.
  revert s. induction p as [r|q k IH]; intros s; [done|].
  cbn [prog_match]. rewrite !outcome_call. apply IH.
Qed.

Lemma outcome_bind {E A B} s (p : prog E A) (f : A → prog E B) :
  outcome s (p ≫= f) =
    match (outcome s p).2 with
    | Ok a => outcome (outcome s p).1 (f a)
    | Err e => ((outcome s p).1, Err e)
    end.
Proof.
  revert s. induction p as [[a|e]|q k IH]; intros s; [done..|].
  change (Call q k ≫= f) with (Call q (λ a, k a ≫= f)). rewrite !outcome_call. apply IH.
Qed.

Lemma str_app_empty s t : s +:+ (t +:+ "") = s +:+ t.
Proof. by rewrite str_app_nil. Qed.

(** The writes append the pieces, in order, to the file. *)
Lemma outcome_writes s h pieces :
  ∃ s', outcome s (prog_for (write_piece h) pieces) = (s', Ok tt) ∧
    names s' = names s ∧ next s' = next s ∧
    data s' h = foldl String.append (data s h) pieces ∧
    ∀ g, g ≠ h → data s' g = data s g.
Proof.
  revert s. induction pieces as [|piece pieces IH]; intros s; cbn [prog_for]; [by exists s|].
  destruct (IH (set_data s h (data s h +:+ piece))) as (s' & Hs & Hn & Hx & Hd & Ho).
  exists s'. change (prog_bind ?f ?p) with (p ≫= f). rewrite outcome_bind.
  change (outcome s (write_piece h piece)) with (set_data s h (data s h +:+ piece), Ok (E := string) tt).
  cbn [fst snd]. rewrite Hs, Hn, Hx, Hd. unfold set_data. cbn. rewrite decide_True by done.
  split_and!; [done..|]. intros g Hg. rewrite Ho by done. unfold set_data. cbn. by rewrite decide_False.
Qed.

Lemma lock_text_foldl pid birth : foldl String.append "" (lock_pieces pid birth) = lock_text pid birth 5.
Proof. unfold lock_text, lock_pieces. cbn [take foldl foldr]. by rewrite !str_app_assoc, str_app_nil. Qed.

(** A new lock file with the owner's text in it. *)
Lemma outcome_create_again s p pid birth :
  names s p = None →
  ∃ s', outcome s (create_lock_with_identity p pid birth) = (s', Ok birth) ∧
    names s' = names (created s p) ∧ data s' (next s) = lock_text pid birth 5 ∧
    ∀ g, g ≠ next s → data s' g = data s g.
Proof.
  intros Hp. destruct (outcome_writes (created s p) (next s) (lock_pieces pid birth))
    as (s' & Hs & Hn & _ & Hd & Ho).
  exists s'. unfold create_lock_with_identity. rewrite outcome_bind.
  assert (outcome s (open_new_lock p) = (created s p, Ok (next s))) as ->.
  { assert (outcome s (open_new p) = (created s p, Ok (next s))) as Hopen.
    { unfold open_new. rewrite outcome_call. unfold fs_handler. cbn [fs_do]. by rewrite Hp. }
    unfold open_new_lock. destruct (parent p); [|done].
    rewrite outcome_bind. exact Hopen. }
  cbn [fst snd]. unfold write_lock. rewrite outcome_bind, Hs. cbn [fst snd].
  split_and!; [done|done| |].
  - rewrite Hd, <- lock_text_foldl. unfold created. cbn. by rewrite decide_True.
  - intros g Hg. rewrite Ho by done. by apply created_data.
Qed.

Section Reclaim.
Context (probe : ProcessProbe) (utf8_error : string → string).
Context (root : path) (assignment_id : string) (up : path) (pid : Z) (birth : string).
Let L : path := lock_path root assignment_id.
Let Ev : path := path_join up (components "stale-lock-evidence").
Hypothesis L_parent : parent L = Some up.
Hypothesis L_not_evidence : L ≠ Ev.
Hypothesis identity : current_birth_identity probe pid = Ok birth.

(** The lock file names a holder that is not alive. *)
Definition stale_file (s : fs) (h : nat) : Prop :=
  names s L = Some h ∧ ∃ lock, parse_lock utf8_error (data s h) = Ok lock ∧ is_live probe (sl_pid lock) = false.

Lemma parse_lock_bytes bytes lock : parse_lock utf8_error bytes = Ok lock → sl_bytes lock = bytes.
Proof.
  unfold parse_lock. destruct (negb _); [done|]. destruct (parse_uint _ _); [by intros [= <-]|].
  intros (found & _ & H)%bind_ok. apply bind_ok in H as (p & _ & [= <-]). done.
Qed.

Lemma acquire_stale s h :
  stale_file s h →
  outcome s (acquire probe utf8_error root assignment_id pid) =
    outcome s (reclaim_stale_lock L pid birth (data s h)).
Proof.
  intros (HL & lock & Hp & Hdead). unfold acquire. fold L. rewrite outcome_match.
  assert (outcome s (create_lock probe L pid) = (s, Err "occupied")) as ->.
  { unfold create_lock, open_new_lock. rewrite L_parent, !outcome_bind. cbn [fst snd].
    change (outcome s (create_dir_all (message "lock-dir:") up)) with (s, Ok (E := string) tt).
    cbn [fst snd]. unfold open_new. rewrite outcome_call. unfold fs_handler. cbn [fs_do].
    by rewrite HL. }
  cbn [fst snd after_create]. rewrite bool_decide_true by done.
  unfold held_lock. rewrite outcome_match.
  assert (outcome s (read_lock utf8_error L) = (s, Ok lock)) as ->.
  { unfold read_lock. rewrite outcome_call. unfold fs_handler. cbn [fs_do]. rewrite HL. cbn.
    by rewrite Hp. }
  cbn [fst snd]. unfold live_holder_matches. rewrite Hdead. cbn [negb]. rewrite identity.
  by rewrite (parse_lock_bytes _ _ Hp).
Qed.

Lemma reclaim_blocked s bytes :
  is_Some (names s Ev) →
  ∃ reason, outcome s (reclaim_stale_lock L pid birth bytes) = (s, Ok (Degraded reason)).
Proof.
  intros [e He]. unfold reclaim_stale_lock. rewrite outcome_match.
  unfold preserve_stale_lock, evidence_path. rewrite L_parent. cbn [fmap option_fmap option_map].
  fold Ev. rewrite outcome_call. unfold fs_handler. cbn [fs_do]. rewrite He. cbn. eauto.
Qed.

Lemma reclaim_succeeds s h bytes :
  names s L = Some h → names s Ev = None → (h < next s)%nat →
  ∃ s' l e, outcome s (reclaim_stale_lock L pid birth bytes) =
      (s', Ok (Acquired {| fl_path := L; fl_pid := pid; fl_birth := birth |})) ∧
    names s' L = Some l ∧ data s' l = lock_text pid birth 5 ∧
    names s' Ev = Some e ∧ data s' e = bytes.
Proof.
  intros HL HE Hh. unfold reclaim_stale_lock. rewrite outcome_match.
  set (s1 := created s Ev). set (s2 := set_data s1 (next s) (data s1 (next s) +:+ bytes)).
  assert (outcome s (preserve_stale_lock L bytes) = (s2, Ok tt)) as ->.
  { unfold preserve_stale_lock, evidence_path. rewrite L_parent. cbn [fmap option_fmap option_map].
    fold Ev. rewrite outcome_call. unfold fs_handler. cbn [fs_do]. rewrite HE. cbn [fst snd].
    reflexivity. }
  cbn [fst snd after_preserve]. unfold remove_and_recreate. rewrite outcome_call.
  unfold fs_handler. cbn [fs_do].
  assert (names s2 L = Some h) as HL2 by (unfold s2, s1, set_data; cbn [names]; by rewrite created_other).
  rewrite HL2. cbn [mbind option_bind fst snd]. set (s3 := set_name s2 L None).
  destruct (outcome_create_again s3 L pid birth) as (s' & Hs & Hn & Hd & Ho).
  { unfold s3, set_name. cbn. by rewrite decide_True. }
  rewrite outcome_match, Hs. cbn [fst snd].
  exists s', (next s3), (next s). split; [reflexivity|]. rewrite Hn, created_same, Hd.
  split_and!; [done|done| |].
  - rewrite created_other by done. unfold s3. rewrite set_name_other by done.
    unfold s2, set_data. cbn [names]. apply created_same.
  - rewrite Ho; [|unfold s3, s2, s1, set_name, set_data, created; cbn; lia].
    unfold s3, set_name, s2, set_data. cbn [data]. rewrite decide_True by done.
    unfold s1, created. cbn [data]. by rewrite decide_True by done.
Qed.
End Reclaim.

(** C34. Reclaiming a stale lock.  When the lock file of an assignment names a
    process that is not alive, a process acquiring alone gets the lock exactly
    if no stale-lock evidence exists in the lock directory yet: then the stale
    bytes are preserved as evidence and the lock file holds the new owner's
    text; if evidence exists already (of any assignment of that directory), the
    attempt is degraded and nothing changes. *)
Theorem stale_lock_reclaimed_once (probe : ProcessProbe) (utf8_error : string → string)
    (root : path) (assignment_id : string) (up : path) (pid : Z) (birth : string) (s : fs) (h : nat) :
  let L := lock_path root assignment_id in
  let Ev := path_join up (components "stale-lock-evidence") in
  parent L = Some up → L ≠ Ev → current_birth_identity probe pid = Ok birth →
  stale_file probe utf8_error root assignment_id s h → (h < next s)%nat →
  let '(s', r) := outcome s (acquire probe utf8_error root assignment_id pid) in
  match names s Ev with
  | None =>
      r = Ok (Acquired {| fl_path := L; fl_pid := pid; fl_birth := birth |}) ∧
      (∃ l, names s' L = Some l ∧ data s' l = lock_text pid birth 5) ∧
      (∃ e, names s' Ev = Some e ∧ data s' e = data s h)
  | Some _ => s' = s ∧ ∃ reason, r = Ok (Degraded reason)
  end.
Proof.
  intros L Ev Hup Hne Hid Hst Hh.
  rewrite (acquire_stale probe utf8_error root assignment_id up pid birth Hup Hid s h Hst).
  destruct (names s Ev) as [e|] eqn:HE.
  - destruct (reclaim_blocked root assignment_id up pid birth Hup s (data s h)) as [reason ->]; [by eexists|].
    eauto.
  - destruct (reclaim_succeeds root assignment_id up pid birth Hup Hne s h (data s h))
      as (s' & l & e & -> & ? & ? & ? & ?); [by apply Hst|done|done|]. eauto 10.
Qed.

(** The lock directory with a stale lock of process 7, with and without
    evidence of an earlier reclaim. *)
Definition demo_stale_fs (evidence : option nat) : fs :=
  {| names := λ p, if decide (p = components "/run/a1.lock") then Some 0%nat
                   else if decide (p = components "/run/stale-lock-evidence") then evidence else None;
     data := λ _, "7"; next := 2 |}.

Lemma stale_lock_reclaimed_once_witness :
  (∃ lock, (outcome (demo_stale_fs None) (demo_try 101)).2 = Ok (Acquired lock)) ∧
  (∃ reason, (outcome (demo_stale_fs (Some 1%nat)) (demo_try 101)).2 = Ok (Degraded reason)).
Proof.
  assert (∀ ev, stale_file demo_probe id (components "/run") "a1" (demo_stale_fs ev) 0) as Hst.
  { intros ev. split; [reflexivity|]. eexists. split; [vm_compute; reflexivity|reflexivity]. }
  pose proof (λ ev, stale_lock_reclaimed_once demo_probe id (components "/run") "a1" (components "/run")
    101 "live-pid:101" (demo_stale_fs ev) 0 eq_refl) as H.
  split.
  - specialize (H None). unfold demo_try. destruct (outcome _ _) as [s' r].
    destruct H as [-> _]; [by vm_compute|by vm_compute|apply Hst|cbn; lia|]. by eexists.
  - specialize (H (Some 1%nat)). unfold demo_try. destruct (outcome _ _) as [s' r].
    destruct H as [_ [reason ->]]; [by vm_compute|by vm_compute|apply Hst|cbn; lia|]. by eexists.
Defined.
