(* ===== verification/Authority.v ===== *)
(** * File and command authority of plan units

    The first half of [drivers/src/allocation/mod.rs] and the path predicates of
    [drivers/src/allocation/vendoring_v2.rs]: which exact files a unit may
    write, what its commands may generate, and which package checks it owns. *)

From S2P Require Import Prelude RustColl RustStr Paths Generated.

(** ** Paths *)

Definition forbidden_char (a : ascii) : bool :=
  bool_decide (code a ∈ [0; 92; 42; 63; 91; 93; 123; 125]).

Definition approved_path_is_safe (raw : Path) : bool :=
  negb (is_empty raw) &&
  (trim raw =s raw) &&
  negb (existsb forbidden_char (String.list_ascii_of_string raw)) &&
  negb (is_absolute (components raw)) &&
  all (λ component, negb (is_empty component) && negb (component =s ".") &&
                    negb (component =s "..") && negb (component =s ".git") &&
                    negb (component =s ".pi")) (split_char SLASH raw) &&
  all (λ c, match c with Normal _ => true | _ => false end) (components raw).

Definition path_authority_collides (left right : string) : bool :=
  (left =s right) ||
  match strip_prefix right left with Some suffix => starts_with "/" suffix | None => false end ||
  match strip_prefix left right with Some suffix => starts_with "/" suffix | None => false end.

(** ** Exact file authority *)

(** [descendant[..separator]] for every separator, from the left. *)
Fixpoint ancestors (s : string) : list string :=
  match s with
  | "" => []
  | String a s' => (if ascii_dec a SLASH then [""] else []) ++ map (String a) (ancestors s')
  end.

Definition reject_ancestor_file_authority (paths : gset string) : result string unit :=
  for_each (λ descendant,
    for_each (λ ancestor,
      ensure (negb (bool_decide (ancestor ∈ paths)))
        ("file authority path " +:+ ancestor +:+ " is an ancestor/prefix of exact file " +:+ descendant))
      (ancestors descendant)) (btree_set paths).

(** The loop that collects distinct safe paths. *)
Definition collect_safe (message : string) : gset string → Path → result string (gset string) :=
  λ exact p,
    if negb (approved_path_is_safe p) || bool_decide (p ∈ exact)
    then Err (message +:+ p) else Ok ({[p]} ∪ exact).

Definition validate_exact_unit_file_authority (paths : list Path) : result string unit :=
  match paths with
  | [] => Err "unit file authority must enumerate at least one exact regular-file destination"
  | _ =>
      exact ← fold_res (collect_safe "unsafe, duplicate, or non-exact regular-file destination: ") ∅ paths;
      reject_ancestor_file_authority exact
  end.

Definition validate_exact_plan_file_union (paths : list Path) : result string unit :=
  let exact : gset string := list_to_set paths in
  if bool_decide (exact = ∅) then Err "plan file authority is empty"
  else reject_ancestor_file_authority exact.

(** ** Command effects *)

Inductive CommandEffect := DeclaredPredictable | NoEffect | UnknownGenerated.
Inductive CommandEffectHandling := BlockIfCreated | ExactCleanupBeforeScopeGate | HandlingNone | RunIsolated.

Record PlanUnitCommand := {
  puc_command : string;
  puc_expected : string;
  puc_effect : CommandEffect;
  puc_generated_paths : list Path;
  puc_handling : CommandEffectHandling;
  puc_scope_preservation : string;
}.

Definition command_generated_path_is_safe (p : Path) : bool := approved_path_is_safe p.

Definition validate_command_effect_authority_parts (command expected scope_preservation : string)
    (effect : CommandEffect) (generated_paths : list Path) (handling : CommandEffectHandling)
  : result string unit :=
  if blank command || blank expected || blank scope_preservation
  then Err "command, expected, and scope_preservation must be nonempty" else
  fold_res (collect_safe "unsafe or duplicate generated path in command authority: ") ∅ generated_paths ≫= λ _,
  (match generated_paths with
   | [] => Ok tt
   | _ => validate_exact_plan_file_union generated_paths
   end) ≫= λ _,
  match effect, handling, generated_paths with
  | NoEffect, HandlingNone, [] => Ok tt
  | NoEffect, _, _ =>
      Err "no-effect command authority requires empty generated_paths and none handling"
  | DeclaredPredictable, HandlingNone, _ =>
      Err "declared-predictable command authority requires non-none handling"
  | DeclaredPredictable, _, [] =>
      Err "declared-predictable command authority requires exact generated_paths"
  | DeclaredPredictable, _, _ => Ok tt
  | UnknownGenerated, RunIsolated, [] => Ok tt
  | UnknownGenerated, _, _ =>
      Err "unknown-generated command authority requires empty generated_paths and run-isolated handling"
  end.

Definition validate_plan_unit_command_effect_authority (c : PlanUnitCommand) : result string unit :=
  validate_command_effect_authority_parts (puc_command c) (puc_expected c) (puc_scope_preservation c)
    (puc_effect c) (puc_generated_paths c) (puc_handling c).

Record ValidationContextCommand := {
  vcc_command_id : Id;
  vcc_command : string;
  vcc_expected : string;
  vcc_effect : CommandEffect;
  vcc_generated_paths : list Path;
  vcc_handling : CommandEffectHandling;
  vcc_scope_preservation : string;
  vcc_evidence_ref : Ref;
}.

Definition validate_validation_context_command_effect_authority (c : ValidationContextCommand)
  : result string unit :=
  if blank (vcc_command_id c) then Err "validation context command_id must be nonempty" else
  validate_command_effect_authority_parts (vcc_command c) (vcc_expected c) (vcc_scope_preservation c)
    (vcc_effect c) (vcc_generated_paths c) (vcc_handling c).

(** ** Package checks *)

Inductive PackageCheckKind := CleanExactPackageTip.
Record PlanUnitPackageCheck := {
  pck_check_id : Id;
  pck_kind : PackageCheckKind;
  pck_criterion_ordinals : list Z;
  pck_expected : string;
}.

Definition package_check_step (criterion_count : Z) (ids : gset string) (check : PlanUnitPackageCheck)
  : result string (gset string) :=
  let ordinals : gset Z := list_to_set (pck_criterion_ordinals check) in
  if blank (pck_check_id check) || blank (pck_expected check) ||
     bool_decide (pck_check_id check ∈ ids) ||
     bool_decide (ordinals = ∅) ||
     negb (Z.of_nat (size ordinals) =? zlen (pck_criterion_ordinals check)) ||
     any (λ ordinal, (ordinal =? 0) || (criterion_count <? ordinal)) (elements ordinals)
  then Err "package checks require unique nonempty ids, expectations, and in-range 1-based criterion ordinals"
  else Ok ({[pck_check_id check]} ∪ ids).

Definition validate_plan_unit_package_checks (checks : list PlanUnitPackageCheck)
    (criterion_count : Z) : result string unit :=
  fold_res (package_check_step criterion_count) ∅ checks ≫= λ _, Ok tt.

Definition validate_package_check_closure_authority (units : list (Id * list Path * bool))
  : result string unit :=
  for_each (λ '(unit_id, files, _),
    map_err (λ error, "package-check unit " +:+ unit_id +:+ " has invalid exact file authority: " +:+ error)
      (validate_exact_unit_file_authority files)) units ≫= λ _,
  validate_exact_plan_file_union (units ≫= λ '(_, files, _), files) ≫= λ _,
  let all_files : gset string := list_to_set (units ≫= λ '(_, files, _), files) in
  for_each (λ '(unit_id, files, owns_package_check),
    if negb owns_package_check then Ok tt else
    let missing := btree_set (all_files ∖ list_to_set files) in
    match missing with
    | [] => Ok tt
    | _ => Err ("package-check closure unit " +:+ unit_id +:+ " lacks plan file authority: " +:+
                join "," missing)
    end) units.

(** ** No authorised file is a directory of another *)

(** [ancestor] is a directory on the way to [descendant]. *)
Definition above (ancestor descendant : string) : Prop :=
  ∃ rest, descendant = ancestor +:+ "/" +:+ rest.

Lemma elem_of_ancestors d a : a ∈ ancestors d ↔ above a d.
Proof.
  revert a. induction d as [|c d IH]; intros a; cbn [ancestors].
  { split; [set_solver|]. intros [rest H]. by destruct a. }
  rewrite elem_of_app, list_elem_of_fmap. split.
  - intros [H|(b & -> & Hb%IH)].
    + destruct (ascii_dec c SLASH) as [->|]; [|set_solver]. apply list_elem_of_singleton in H as ->.
      by exists d.
    + destruct Hb as [rest ->]. by exists rest.
  - intros [rest H]. destruct a as [|b a].
    + injection H as -> ->. left. by destruct (ascii_dec _ _); [set_solver|].
    + injection H as -> ->. right. exists a. split; [done|]. apply IH. by exists rest.
Qed.

Lemma collides_above a b : path_authority_collides a b = true ↔ a = b ∨ above a b ∨ above b a.
Proof.
  assert (∀ x y, match strip_prefix x y with Some suffix => starts_with "/" suffix | None => false end = true
                 ↔ above x y) as H.
  { intros x y. destruct (strip_prefix x y) as [r|] eqn:Hs.
    - apply strip_prefix_spec in Hs as ->. rewrite starts_with_spec. split.
      + intros [r' ->]. by exists r'.
      + intros [r' Hr]. exists r'. clear -Hr. induction x as [|c x IH]; [done|]. injection Hr. auto.
    - split; [done|]. intros [r ->]. by rewrite strip_prefix_app in Hs. }
  unfold path_authority_collides. rewrite !orb_true_iff, !H, bool_decide_eq_true. tauto.
Qed.

Lemma reject_ancestor_ok (paths : gset string) :
  reject_ancestor_file_authority paths = Ok tt ↔ ∀ a d, a ∈ paths → d ∈ paths → ¬ above a d.
Proof.
  unfold reject_ancestor_file_authority. rewrite for_each_ok, Forall_forall.
  setoid_rewrite for_each_ok. setoid_rewrite Forall_forall. setoid_rewrite ensure_ok.
  setoid_rewrite elem_of_btree_set. setoid_rewrite elem_of_ancestors.
  setoid_rewrite negb_true_iff. setoid_rewrite bool_decide_eq_false. naive_solver.
Qed.

Lemma no_collision_above (paths : list Path) (S : gset string) :
  (∀ x, x ∈ S ↔ x ∈ paths) →
  (∀ a d, a ∈ S → d ∈ S → ¬ above a d) ↔
  (∀ p q, p ∈ paths → q ∈ paths → p ≠ q → path_authority_collides p q = false).
Proof.
  intros HS. setoid_rewrite <- not_true_iff_false. setoid_rewrite collides_above.
  setoid_rewrite HS. split.
  - intros H p q Hp Hq Hne [?|[Ha|Ha]]; [done|..]; by eapply H in Ha.
  - intros H a d Ha Hd Hab. destruct (decide (a = d)) as [->|Hne]; [|by eapply (H a d); auto].
    destruct Hab as [r Hr]. apply (f_equal String.length) in Hr.
    rewrite str_length_app in Hr. cbn in Hr. lia.
Qed.

Lemma plan_file_union_ok (paths : list Path) :
  validate_exact_plan_file_union paths = Ok tt ↔
  paths ≠ [] ∧ ∀ p q, p ∈ paths → q ∈ paths → p ≠ q → path_authority_collides p q = false.
Proof.
  unfold validate_exact_plan_file_union. case_bool_decide as He.
  - split; [done|]. intros [Hne _]. exfalso. destruct paths as [|p paths]; [done|]. set_solver.
  - rewrite reject_ancestor_ok. rewrite (no_collision_above paths) by set_solver.
    split; [|naive_solver]. intros H. split; [by intros ->|done].
Qed.

(** The union of the plan's files is accepted exactly when it is not empty
    and no two different files collide: none is equal to, or a directory above,
    another. *)
Theorem plan_file_union_exact (paths : list Path) :
  validate_exact_plan_file_union paths = Ok tt ↔
  paths ≠ [] ∧ ∀ p q, p ∈ paths → q ∈ paths → p ≠ q → path_authority_collides p q = false.
Proof. apply plan_file_union_ok. Qed.

(** ** What unit files and commands may be *)

Lemma collect_safe_ok msg (seen : gset string) paths out :
  fold_res (collect_safe msg) seen paths = Ok out ↔
  NoDup paths ∧ Forall (λ p, approved_path_is_safe p = true ∧ p ∉ seen) paths ∧
  out = list_to_set paths ∪ seen.
Proof.
  revert seen out. induction paths as [|p paths IH]; intros seen out; cbn [fold_res].
  { split; [intros [= <-]; split_and!; [constructor|done|set_solver]|]. intros (_ & _ & ->). f_equal. set_solver. }
  unfold collect_safe at 1. destruct (approved_path_is_safe p) eqn:Hs; cbn [negb orb].
  2:{ split; [done|]. intros (_ & H & _). apply Forall_cons in H as [[? _] _]. congruence. }
  case_bool_decide as Hin.
  { split; [done|]. intros (_ & H & _). by apply Forall_cons in H as [[_ ?] _]. }
  rewrite IH, NoDup_cons, !Forall_forall. cbn [list_to_set].
  split.
  - intros (Hnd & Hf & ->). split_and!; [|done| |set_solver].
    + intros Hp. destruct (Hf p Hp) as [_ Hn]. set_solver.
    + intros x [->|Hx]%elem_of_cons; [done|]. destruct (Hf x Hx). set_solver.
  - intros ([Hp Hnd] & Hf & ->). split_and!; [done| |set_solver].
    intros x Hx. destruct (Hf x) as [? ?]; [set_solver|]. split; [done|].
    intros [->%elem_of_singleton|?]%elem_of_union; done.
Qed.

(** A set of exact files: safe, listed once, none above another. *)
Definition exact_files (paths : list Path) : Prop :=
  NoDup paths ∧ Forall (λ p, approved_path_is_safe p = true) paths ∧
  ∀ p q, p ∈ paths → q ∈ paths → p ≠ q → path_authority_collides p q = false.

Lemma unit_file_authority_ok paths :
  validate_exact_unit_file_authority paths = Ok tt ↔ paths ≠ [] ∧ exact_files paths.
Proof.
  unfold validate_exact_unit_file_authority, exact_files. destruct paths as [|p paths]; [naive_solver|].
  set (l := p :: paths). rewrite bind_ok. setoid_rewrite collect_safe_ok.
  split.
  - intros (out & (Hnd & Hs & ->) & H). pose proof (proj1 (reject_ancestor_ok _) H) as Hr. split; [done|].
    split_and!; [done| |].
    + eapply Forall_impl; [exact Hs|]. by intros x [? _].
    + eapply no_collision_above, Hr. set_solver.
  - intros (_ & Hnd & Hs & Hc). exists (list_to_set l ∪ ∅). split; [split_and!; [done| |done]|].
    + eapply Forall_impl; [exact Hs|]. intros x ?. split; [done|set_solver].
    + apply reject_ancestor_ok. eapply no_collision_above, Hc. set_solver.
Qed.

(** The admitted combinations of effect, handling and generated paths. *)
Definition effect_admitted (effect : CommandEffect) (handling : CommandEffectHandling)
    (generated : list Path) : Prop :=
  match effect with
  | NoEffect => handling = HandlingNone ∧ generated = []
  | DeclaredPredictable => handling ≠ HandlingNone ∧ generated ≠ []
  | UnknownGenerated => handling = RunIsolated ∧ generated = []
  end.

(** A command's declared effects are accepted exactly when its texts are not
    blank, its generated paths are safe, distinct and none is above another,
    and effect, handling and paths fit: nothing generated and no handling for
    no effect; exact paths and some handling for a predictable one; isolation
    and no paths for an unknown one. *)
Theorem command_effect_exact (command expected scope : string) (effect : CommandEffect)
    (generated : list Path) (handling : CommandEffectHandling) :
  validate_command_effect_authority_parts command expected scope effect generated handling = Ok tt ↔
  blank command = false ∧ blank expected = false ∧ blank scope = false ∧
  exact_files generated ∧ effect_admitted effect handling generated.
Proof.
  unfold validate_command_effect_authority_parts.
  destruct (blank command); [naive_solver|]. destruct (blank expected); [naive_solver|].
  destruct (blank scope); [naive_solver|]. cbn [orb].
  assert ((∃ out, fold_res (collect_safe "unsafe or duplicate generated path in command authority: ") ∅ generated = Ok out)
          ∧ (generated = [] ∨ validate_exact_plan_file_union generated = Ok tt) ↔ exact_files generated) as Hf.
  { setoid_rewrite collect_safe_ok. rewrite plan_file_union_ok. unfold exact_files.
    assert (Forall (λ p, approved_path_is_safe p = true ∧ p ∉ (∅ : gset string)) generated ↔
            Forall (λ p, approved_path_is_safe p = true) generated) as Hfa.
    { apply Forall_iff. set_solver. }
    setoid_rewrite Hfa. destruct (decide (generated = [])) as [->|]; [|naive_solver].
    split; [|naive_solver]. intros _. split_and!; [constructor|done|set_solver]. }
  transitivity (exact_files generated ∧ effect_admitted effect handling generated); [|naive_solver].
  rewrite <- Hf. clear Hf. rewrite bind_ok. setoid_rewrite bind_ok.
  destruct generated as [|p generated]; cbn [fold_res].
  - destruct effect, handling; cbn; naive_solver.
  - set (l := p :: generated).
    assert (effect_admitted effect handling l ↔ effect = DeclaredPredictable ∧ handling ≠ HandlingNone) as ->.
    { destruct effect; cbn; naive_solver. }
    split.
    + intros (out & Ho & [] & Hu & Hm). split; [split; [by exists out|by right]|].
      by destruct effect, handling.
    + intros [[[out Ho] [?|Hu]] [-> Hh]]; [done|]. exists out. split; [done|]. exists tt. split; [done|].
      by destruct handling.
Qed.

(** Package-check closure is accepted exactly when every unit has its own
    exact, nonempty file authority, the files of all units together do not
    collide, and each unit that owns a package check may write every file of
    the plan. *)
Theorem package_check_closure_exact (units : list (Id * list Path * bool)) :
  let all_files := units ≫= λ '(_, files, _), files in
  validate_package_check_closure_authority units = Ok tt ↔
  (∀ id files own, (id, files, own) ∈ units → files ≠ [] ∧ exact_files files) ∧
  validate_exact_plan_file_union all_files = Ok tt ∧
  (∀ id files, (id, files, true) ∈ units → ∀ p, p ∈ all_files → p ∈ files).
Proof.
  intros all_files. unfold validate_package_check_closure_authority. fold all_files.
  rewrite bind_ok. setoid_rewrite bind_ok. setoid_rewrite for_each_ok. setoid_rewrite Forall_forall.
  split.
  - intros ([] & H1 & [] & H2 & H3). split_and!; [|done|].
    + intros id files own Hin. specialize (H1 _ Hin). cbn in H1. rewrite map_err_ok in H1.
      by apply unit_file_authority_ok.
    + intros id files Hin p Hp. specialize (H3 _ Hin). cbn in H3.
      destruct (btree_set _) as [|x l] eqn:Hb; [|done].
      apply dec_stable. intros Hnp.
      assert (p ∈ btree_set (list_to_set all_files ∖ list_to_set files : gset string)) as Hx.
      { apply elem_of_btree_set. set_solver. }
      rewrite Hb in Hx. set_solver.
  - intros (H1 & H2 & H3). exists tt. split.
    { intros [[id files] own] Hin. cbn. apply map_err_ok, unit_file_authority_ok. by eapply H1. }
    exists tt. split; [done|]. intros [[id files] own] Hin. destruct own; [|done]. cbn.
    destruct (btree_set _) as [|x l] eqn:Hb; [done|]. exfalso.
    assert (x ∈ btree_set (list_to_set all_files ∖ list_to_set files : gset string)) as Hx
      by (rewrite Hb; set_solver).
    apply elem_of_btree_set in Hx. specialize (H3 _ _ Hin x). set_solver.
Qed.
