(* ===== verification/Allocation.v ===== *)
(** * Allocation of plan units to lanes

    The second half of [drivers/src/allocation/mod.rs]: a submitted allocation
    is checked against the approved units (authority, assignment, capacity,
    ordering) and turned into canonical lanes; and [drivers/src/dispatch/mod.rs],
    which schedules them.

    Two functions of the source recurse on a graph: [visit] and
    [dependency_depth].  Here they take fuel and answer [None] without it. *)

From S2P Require Import Prelude RustColl RustStr Paths Os Generated Graph Failure Boundary Schedule Vcs Authority.

Inductive PlanUnitKind := Implementation.
Record ApprovedCriterion := { ac_id : Id; ac_text : string }.

Record ApprovedUnit := {
  au_id : Id;
  au_kind : PlanUnitKind;
  au_objective : string;
  au_operator_order : Z;
  au_decisions : list Id;
  au_criteria : list Id;
  au_criterion_text : list ApprovedCriterion;
  au_dependencies : list Id;
  au_predecessor_forward_criteria : list Id;
  au_downstream_release_edges : list Id;
  au_files : list Path;
  au_commands : list PlanUnitCommand;
  au_package_checks : list PlanUnitPackageCheck;
}.

Record AllocationLaneProposal := {
  lp_lane_id : Id;
  lp_objective : string;
  lp_ordered_unit_ids : list Id;
  lp_rationale : string;
  lp_delivery_boundary : string;
  lp_predecessor_forward_criteria : list Id;
  lp_downstream_release_edges : list Id;
  lp_context_family_id : Id;
  lp_context_estimate : Z;
  lp_focused_tests : list string;
  lp_launch_wave : Z;
  lp_continue_existing_logical_lane : option bool;
}.

Record FutureUnit := { fu_unit_id : Id; fu_reason : string }.

Record AllocationSubmission := {
  as_lanes : list AllocationLaneProposal;
  as_future_units : list FutureUnit;
  as_authority_echo : list ApprovedUnit;
  as_ownership_claims : list string;
  as_overlap_blocks : list string;
}.

Record AllocationPolicy := { ap_parallel_cap : Z; ap_active_implementers : Z }.

Record CanonicalLane := {
  cl_proposal : AllocationLaneProposal;
  cl_remaining_dependency_path : Z;
  cl_first_operator_order : Z;
  cl_capacity_class : string;
}.

Record CanonicalAllocation := { ca_lanes : list CanonicalLane; ca_future_units : list FutureUnit }.

Inductive AllocationError :=
| WrongLaneCount (actual : Z)
| MissingUnit (id : Id) | DuplicateUnit (id : Id) | UnknownUnit (id : Id)
| FutureWithoutReason (id : Id) | AuthorityChanged (id : Id)
| PredecessorGateChanged (id : Id) | DownstreamEdgeChanged (id : Id)
| UnitOrderCreatesCycle (id : Id) | LaneCycle (lane : string)
| ParallelCapExceeded | ConcurrentUnit (id : Id) | InventedOwnership (what : string).

#[global] Instance CommandEffect_eq_dec : EqDecision CommandEffect.
Proof. solve_decision. Defined.
#[global] Instance CommandEffectHandling_eq_dec : EqDecision CommandEffectHandling.
Proof. solve_decision. Defined.
#[global] Instance PlanUnitCommand_eq_dec : EqDecision PlanUnitCommand.
Proof. solve_decision. Defined.
#[global] Instance PackageCheckKind_eq_dec : EqDecision PackageCheckKind.
Proof. solve_decision. Defined.
#[global] Instance PlanUnitPackageCheck_eq_dec : EqDecision PlanUnitPackageCheck.
Proof. solve_decision. Defined.
#[global] Instance PlanUnitKind_eq_dec : EqDecision PlanUnitKind.
Proof. solve_decision. Defined.
#[global] Instance ApprovedCriterion_eq_dec : EqDecision ApprovedCriterion.
Proof. solve_decision. Defined.
#[global] Instance ApprovedUnit_eq_dec : EqDecision ApprovedUnit.
Proof. solve_decision. Defined.

Definition IMPLEMENTER_CAPACITY : string := "implementer".

(** ** Checks against the approved units *)

(** [units.iter().map(|unit| (unit.id, unit)).collect()]: a later unit with the
    same id replaces an earlier one. *)
Definition by_id (units : list ApprovedUnit) : gmap string ApprovedUnit :=
  fold_left (λ m u, <[au_id u := u]> m) units ∅.

Definition unit_of (approved : gmap string ApprovedUnit) (id : Id) : result AllocationError ApprovedUnit :=
  ok_or (approved !! id) (UnknownUnit id).

Definition set (ids : list Id) : gset string := list_to_set ids.

Definition reject_ownership (s : AllocationSubmission) : result AllocationError unit :=
  match as_ownership_claims s with
  | claim :: _ => Err (InventedOwnership claim)
  | [] =>
      match as_overlap_blocks s with
      | block :: _ => Err (InventedOwnership block)
      | [] => Ok tt
      end
  end.

Definition validate_approved_unit_authority (units : list ApprovedUnit) : result AllocationError unit :=
  for_each (λ u,
    for_each (λ command,
      map_err (λ _, AuthorityChanged (au_id u)) (validate_plan_unit_command_effect_authority command))
      (au_commands u)) units.

Definition compare_authority (approved echo : list ApprovedUnit) : result AllocationError unit :=
  if negb (zlen approved =? zlen echo) then Err (AuthorityChanged "unit-set") else
  let actual := by_id echo in
  for_each (λ u, ensure (actual !! au_id u =s Some u) (AuthorityChanged (au_id u))) approved.

(** *** Assignment *)

Abbreviation assignment := (gmap string (string * Z)) (only parsing).

(** The body of the two loops of [assignment_map]: the units seen, where, and
    the active ones. *)
Definition assign_unit (approved : gmap string ApprovedUnit) (lane : AllocationLaneProposal)
    (acc : assignment * gset string) (entry : Z * Id)
  : result AllocationError (assignment * gset string) :=
  let '(seen, active) := acc in
  let '(index, unit_id) := entry in
  if bool_decide (approved !! unit_id = None) then Err (UnknownUnit unit_id)
  else if bool_decide (is_Some (seen !! unit_id)) then Err (DuplicateUnit unit_id)
  else if bool_decide (unit_id ∈ active) then Err (ConcurrentUnit unit_id)
  else Ok (<[unit_id := (lp_lane_id lane, index)]> seen, {[unit_id]} ∪ active).

(** [iter().enumerate()] *)
Fixpoint enumerate_from {A} (i : Z) (l : list A) : list (Z * A) :=
  match l with [] => [] | x :: l' => (i, x) :: enumerate_from (i + 1) l' end.
Definition enumerate {A} (l : list A) : list (Z * A) := enumerate_from 0 l.

Definition assignment_map (lanes : list AllocationLaneProposal) (approved : gmap string ApprovedUnit)
  : result AllocationError assignment :=
  acc ← fold_res (λ acc lane,
          fold_res (assign_unit approved lane) acc (enumerate (lp_ordered_unit_ids lane)))
          (∅, ∅) lanes;
  Ok acc.1.

Definition future_step (approved : gmap string ApprovedUnit) (assigned : assignment)
    (future_ids : gset string) (item : FutureUnit) : result AllocationError (gset string) :=
  if blank (fu_reason item) then Err (FutureWithoutReason (fu_unit_id item))
  else if bool_decide (approved !! fu_unit_id item = None) then Err (UnknownUnit (fu_unit_id item))
  else if bool_decide (is_Some (assigned !! fu_unit_id item)) ||
          bool_decide (fu_unit_id item ∈ future_ids)
  then Err (DuplicateUnit (fu_unit_id item))
  else Ok ({[fu_unit_id item]} ∪ future_ids).

Definition validate_future_units (approved : gmap string ApprovedUnit) (assigned : assignment)
    (future : list FutureUnit) : result AllocationError unit :=
  future_ids ← fold_res (future_step approved assigned) ∅ future;
  for_each (λ id, ensure (bool_decide (is_Some (assigned !! id)) || bool_decide (id ∈ future_ids))
                    (MissingUnit id)) (btree_keys approved).

(** *** Lane contents *)

Definition lane_units (lane : AllocationLaneProposal) (approved : gmap string ApprovedUnit)
  : result AllocationError (list ApprovedUnit) :=
  collect_res (unit_of approved) (lp_ordered_unit_ids lane).

Definition validate_lane_content (lanes : list AllocationLaneProposal)
    (approved : gmap string ApprovedUnit) : result AllocationError unit :=
  for_each (λ lane,
    units ← lane_units lane approved;
    let expected_gates := set (units ≫= au_predecessor_forward_criteria) in
    let expected_edges := set (units ≫= au_downstream_release_edges) in
    if negb (set (lp_predecessor_forward_criteria lane) =s expected_gates)
    then Err (PredecessorGateChanged (lp_lane_id lane))
    else if negb (set (lp_downstream_release_edges lane) =s expected_edges)
    then Err (DownstreamEdgeChanged (lp_lane_id lane))
    else Ok tt) lanes.

Definition is_new_lane (lane : AllocationLaneProposal) : bool :=
  negb (lp_continue_existing_logical_lane lane =s Some true).

Definition validate_capacity (lanes : list AllocationLaneProposal) (policy : AllocationPolicy)
  : result AllocationError unit :=
  let new_lanes := zlen (filter (λ lane, is_new_lane lane = true) lanes) in
  if ap_parallel_cap policy <? saturating_add usize_max (ap_active_implementers policy) new_lanes
  then Err ParallelCapExceeded else Ok tt.

(** *** Ordering *)

Abbreviation lane_graph := (gmap string (gset string)) (only parsing).

Definition wave_by_lane (lanes : list AllocationLaneProposal) : gmap string Z :=
  fold_left (λ m lane, <[lp_lane_id lane := lp_launch_wave lane]> m) lanes ∅.

Definition required_wave (waves : gmap string Z) (lane : string) : result AllocationError Z :=
  ok_or (waves !! lane) (LaneCycle lane).

(** [graph.entry(from).or_default().insert(to)] *)
Definition add_edge (graph : lane_graph) (from to : string) : lane_graph :=
  <[from := {[to]} ∪ default ∅ (graph !! from)]> graph.

Definition order_dependency (waves : gmap string Z) (assigned : assignment)
    (id lane_id : string) (index : Z) (graph : lane_graph) (dep : Id)
  : result AllocationError lane_graph :=
  match assigned !! dep with
  | None => Ok graph
  | Some (dep_lane, dep_index) =>
      if (dep_lane =s lane_id) && (index <=? dep_index) then Err (UnitOrderCreatesCycle id) else
      if dep_lane =s lane_id then Ok graph else
      dep_wave ← required_wave waves dep_lane;
      lane_wave ← required_wave waves lane_id;
      if lane_wave <? dep_wave then Err (LaneCycle lane_id)
      else Ok (add_edge graph dep_lane lane_id)
  end.

Definition order_unit (waves : gmap string Z) (approved : gmap string ApprovedUnit)
    (assigned : assignment) (graph : lane_graph) (entry : string * (string * Z))
  : result AllocationError lane_graph :=
  let '(id, (lane_id, index)) := entry in
  current ← unit_of approved id;
  fold_res (order_dependency waves assigned id lane_id index) graph (au_dependencies current).

(** [visit]: the depth-first search of [Graph] over the successors of a lane. *)
Definition next_lanes (graph : lane_graph) (node : string) : result AllocationError (list string) :=
  Ok (btree_set (default ∅ (graph !! node))).

Definition visit (fuel : nat) (graph : lane_graph) (node : string) (acc : gset string * gset string)
  : option (result AllocationError (gset string * gset string)) :=
  dfs LaneCycle (next_lanes graph) fuel node acc.

(** The nodes on the path of the search are distinct keys of the graph, so the
    recursion is at most one deeper than the number of keys. *)
Definition cycle_fuel (graph : lane_graph) : nat := dfs_fuel (dom graph).

Definition reject_cycle (graph : lane_graph) : option (result AllocationError unit) :=
  match dfs_all LaneCycle (next_lanes graph) (cycle_fuel graph) (btree_keys graph) (∅, ∅) with
  | Some (Ok _) => Some (Ok tt)
  | Some (Err e) => Some (Err e)
  | None => None
  end.

Definition ordering_graph (lanes : list AllocationLaneProposal) (approved : gmap string ApprovedUnit)
    (assigned : assignment) : result AllocationError lane_graph :=
  fold_res (order_unit (wave_by_lane lanes) approved assigned) ∅ (btree_map assigned).

Definition validate_ordering (lanes : list AllocationLaneProposal) (approved : gmap string ApprovedUnit)
    (assigned : assignment) : option (result AllocationError unit) :=
  match ordering_graph lanes approved assigned with
  | Err e => Some (Err e)
  | Ok graph => reject_cycle graph
  end.

(** ** Canonical lanes *)

(** [dependency_depth]: the length of the longest dependency chain from a unit.
    The recursion has no bound in the source. *)
Fixpoint deepest (depth : Id → option (result AllocationError Z)) (best : Z) (deps : list Id)
  : option (result AllocationError Z) :=
  match deps with
  | [] => Some (Ok best)
  | dep :: deps' =>
      match depth dep with
      | Some (Ok d) => deepest depth (Z.max best (saturating_add u32_max d 1)) deps'
      | other => other
      end
  end.
Fixpoint dependency_depth (fuel : nat) (approved : gmap string ApprovedUnit) (id : Id)
  : option (result AllocationError Z) :=
  match fuel with
  | O => None
  | S fuel' =>
      match unit_of approved id with
      | Err e => Some (Err e)
      | Ok u => deepest (dependency_depth fuel' approved) 0 (au_dependencies u)
      end
  end.

(** [.map(dependency_depth).collect::<Result<Vec<_>, _>>()] *)
Fixpoint depths (fuel : nat) (approved : gmap string ApprovedUnit) (ids : list Id)
  : option (result AllocationError (list Z)) :=
  match ids with
  | [] => Some (Ok [])
  | id :: ids' =>
      match dependency_depth fuel approved id with
      | Some (Ok d) =>
          match depths fuel approved ids' with
          | Some (Ok ds) => Some (Ok (d :: ds))
          | other => other
          end
      | Some (Err e) => Some (Err e)
      | None => None
      end
  end.

(** [iter().min()] and [iter().max()] *)
Definition list_min (l : list Z) : option Z :=
  match l with [] => None | x :: l' => Some (fold_left Z.min l' x) end.
Definition list_max (l : list Z) : option Z :=
  match l with [] => None | x :: l' => Some (fold_left Z.max l' x) end.

Definition canonical_lane (fuel : nat) (approved : gmap string ApprovedUnit)
    (proposal : AllocationLaneProposal) : option (result AllocationError CanonicalLane) :=
  match orders ← collect_res (λ id, u ← unit_of approved id; Ok (au_operator_order u))
                   (lp_ordered_unit_ids proposal);
        ok_or (list_min orders) (MissingUnit (lp_lane_id proposal)) with
  | Err e => Some (Err e)
  | Ok first_operator_order =>
      match depths fuel approved (lp_ordered_unit_ids proposal) with
      | None => None
      | Some (Err e) => Some (Err e)
      | Some (Ok ds) =>
          match list_max ds with
          | None => Some (Err (MissingUnit (lp_lane_id proposal)))
          | Some remaining =>
              Some (Ok {| cl_proposal := proposal; cl_remaining_dependency_path := remaining;
                          cl_first_operator_order := first_operator_order;
                          cl_capacity_class := IMPLEMENTER_CAPACITY |})
          end
      end
  end.

Fixpoint canonical_lanes (fuel : nat) (approved : gmap string ApprovedUnit)
    (lanes : list AllocationLaneProposal) : option (result AllocationError (list CanonicalLane)) :=
  match lanes with
  | [] => Some (Ok [])
  | lane :: lanes' =>
      match canonical_lane fuel approved lane with
      | Some (Ok c) =>
          match canonical_lanes fuel approved lanes' with
          | Some (Ok cs) => Some (Ok (c :: cs))
          | other => other
          end
      | Some (Err e) => Some (Err e)
      | None => None
      end
  end.

(** Everything before the ordering check. *)
Definition checked_assignment (approved : list ApprovedUnit) (s : AllocationSubmission)
    (policy : AllocationPolicy) : result AllocationError assignment :=
  reject_ownership s ≫= λ _,
  validate_approved_unit_authority approved ≫= λ _,
  validate_approved_unit_authority (as_authority_echo s) ≫= λ _,
  (if negb ((1 <=? zlen (as_lanes s)) && (zlen (as_lanes s) <=? 6))
   then Err (WrongLaneCount (zlen (as_lanes s))) else Ok tt) ≫= λ _,
  compare_authority approved (as_authority_echo s) ≫= λ _,
  lane_by_unit ← assignment_map (as_lanes s) (by_id approved);
  validate_future_units (by_id approved) lane_by_unit (as_future_units s) ≫= λ _,
  validate_lane_content (as_lanes s) (by_id approved) ≫= λ _,
  validate_capacity (as_lanes s) policy ≫= λ _,
  Ok lane_by_unit.

Definition validate_allocation (fuel : nat) (approved : list ApprovedUnit) (s : AllocationSubmission)
    (policy : AllocationPolicy) : option (result AllocationError CanonicalAllocation) :=
  match checked_assignment approved s policy with
  | Err e => Some (Err e)
  | Ok lane_by_unit =>
      match validate_ordering (as_lanes s) (by_id approved) lane_by_unit with
      | None => None
      | Some (Err e) => Some (Err e)
      | Some (Ok _) =>
          match canonical_lanes fuel (by_id approved) (as_lanes s) with
          | None => None
          | Some (Err e) => Some (Err e)
          | Some (Ok lanes) =>
              Some (Ok {| ca_lanes := lanes; ca_future_units := as_future_units s |})
          end
      end
  end.

(** ** The cycle check is exact *)

Definition edge (graph : lane_graph) (a b : string) : Prop :=
  ∃ next, graph !! a = Some next ∧ b ∈ next.
Definition acyclic (graph : lane_graph) : Prop := ∀ a, ¬ tc (edge graph) a a.

Lemma edge_next_lanes graph a b : Graph.edge (next_lanes graph) a b ↔ edge graph a b.
Proof.
  unfold Graph.edge, next_lanes, edge. split.
  - intros (next & [= <-] & Hb%elem_of_btree_set). destruct (graph !! a) as [n|]; [|set_solver]. eauto.
  - intros (next & Hg & Hb). rewrite Hg. eexists. split; [done|]. by apply elem_of_btree_set.
Qed.

Lemma tc_next_lanes graph a b : tc (Graph.edge (next_lanes graph)) a b ↔ tc (edge graph) a b.
Proof. split; apply (tc_congruence (λ x, x)); intros ? ?; apply edge_next_lanes. Qed.

Lemma edge_from_key graph a b : edge graph a b → a ∈ dom graph.
Proof. intros (next & Hg & _). by eapply elem_of_dom_2. Qed.

Lemma reject_cycle_spec (graph : lane_graph) :
  match reject_cycle graph with
  | None => False
  | Some (Ok _) => acyclic graph
  | Some (Err e) => ∃ lane, e = LaneCycle lane ∧ tc (edge graph) lane lane
  end.
Proof.
  assert (∀ a b, Graph.edge (next_lanes graph) a b → a ∈ dom graph) as Hkeys.
  { intros a b Hab%edge_next_lanes. by eapply edge_from_key. }
  pose proof (dfs_all_spec LaneCycle _ _ Hkeys (btree_keys graph) ∅ (finished_empty _)) as H.
  unfold reject_cycle, cycle_fuel.
  destruct (dfs_all _ _ _ _ _) as [[[vis fin]|e]|]; [| |done].
  - destruct H as (_ & [_ Hacyclic] & Hall). intros a Hcyc. apply (Hacyclic a); [|by apply tc_next_lanes].
    apply Hall, elem_of_btree_keys, elem_of_dom. inversion Hcyc; by eapply edge_from_key.
  - destruct H as [(a & -> & Hcyc%tc_next_lanes)|(a & Ha)]; [eauto|done].
Qed.

(** The lane cycle check terminates and is exact: it accepts a lane graph
    exactly when the graph has no cycle, and a lane it names otherwise is on
    one. *)
Theorem reject_cycle_exact (graph : lane_graph) :
  match reject_cycle graph with
  | None => False
  | Some (Ok _) => acyclic graph
  | Some (Err e) => ∃ lane, e = LaneCycle lane ∧ tc (edge graph) lane lane
  end.
Proof. apply reject_cycle_spec. Qed.

(** ** What an accepted allocation is *)

(** The assigned units with their places, in submission order. *)
Definition placements (lanes : list AllocationLaneProposal) : list (string * (string * Z)) :=
  lanes ≫= λ lane, map (λ '(i, id), (id, (lp_lane_id lane, i))) (enumerate (lp_ordered_unit_ids lane)).

Definition assigned_ids (lanes : list AllocationLaneProposal) : list string :=
  lanes ≫= lp_ordered_unit_ids.

Lemma enumerate_from_snd {A} i (l : list A) : map snd (enumerate_from i l) = l.
Proof. revert i. induction l as [|x l IH]; intros i; cbn; [done|]. by rewrite IH. Qed.

Lemma placements_ids lanes : map fst (placements lanes) = assigned_ids lanes.
Proof.
  unfold placements, assigned_ids. induction lanes as [|lane lanes IH]; cbn; [done|].
  rewrite map_app. cbn in IH. rewrite IH. f_equal. rewrite map_map.
  rewrite <- (enumerate_from_snd 0 (lp_ordered_unit_ids lane)) at 2. apply map_ext. by intros [].
Qed.

Section Assignment.
Variable approved : gmap string ApprovedUnit.

(** The loops of [assignment_map] as one. *)
Definition assign_placed (acc : assignment * gset string) (e : string * (string * Z))
  : result AllocationError (assignment * gset string) :=
  let '(seen, active) := acc in
  if bool_decide (approved !! e.1 = None) then Err (UnknownUnit e.1)
  else if bool_decide (is_Some (seen !! e.1)) then Err (DuplicateUnit e.1)
  else if bool_decide (e.1 ∈ active) then Err (ConcurrentUnit e.1)
  else Ok (<[e.1 := e.2]> seen, {[e.1]} ∪ active).

Lemma assign_flat lanes acc :
  fold_res (λ acc lane, fold_res (assign_unit approved lane) acc (enumerate (lp_ordered_unit_ids lane))) acc lanes
  = fold_res assign_placed acc (placements lanes).
Proof.
  revert acc. induction lanes as [|lane lanes IH]; intros acc; cbn [fold_res]; [done|].
  change (placements (lane :: lanes)) with
    (map (λ '(i, id), (id, (lp_lane_id lane, i))) (enumerate (lp_ordered_unit_ids lane)) ++ placements lanes).
  rewrite fold_res_app.
  assert (∀ l acc, fold_res (assign_unit approved lane) acc l =
            fold_res assign_placed acc (map (λ '(i, id), (id, (lp_lane_id lane, i))) l)) as H.
  { induction l as [|[i id] l IHl]; intros [seen active]; cbn [fold_res map]; [done|].
    unfold assign_unit, assign_placed at 1. cbn [fst snd]. repeat (case_match; try done; auto). }
  rewrite H. destruct (fold_res assign_placed acc _); cbn; [apply IH|done].
Qed.

Lemma assignment_map_ok lanes m :
  assignment_map lanes approved = Ok m →
  NoDup (assigned_ids lanes) ∧
  (∀ id place, m !! id = Some place ↔ (id, place) ∈ placements lanes) ∧
  (∀ id, id ∈ assigned_ids lanes → is_Some (approved !! id)).
Proof.
  unfold assignment_map. rewrite assign_flat, <- placements_ids.
  intros ([seen active] & Hf & [= <-])%bind_ok.
  refine (fold_res_inv assign_placed (λ done acc,
      NoDup (map fst done) ∧
      (∀ id place, acc.1 !! id = Some place ↔ (id, place) ∈ done) ∧
      (∀ id, id ∈ map fst done → is_Some (approved !! id))) _ _ _ _ _ Hf).
  - cbn. split_and!; [constructor| |set_solver]. intros. rewrite lookup_empty. set_solver.
  - intros done [id place] [seen' active'] acc' (Hnd & Hm & Ha) _. unfold assign_placed. cbn [fst snd].
    case_bool_decide as Hk; [discriminate|]. case_bool_decide as Hs; [discriminate|].
    case_bool_decide; [discriminate|]. intros [= <-]. cbn [fst snd] in *.
    assert (id ∉ map fst done) as Hid.
    { intros ([id' p'] & -> & Hin)%list_elem_of_fmap. apply Hs. exists p'. by apply Hm. }
    rewrite map_app. cbn [map fst]. split_and!.
    + apply NoDup_app. split_and!; [done|set_solver|]. apply NoDup_singleton.
    + intros id' place'. rewrite elem_of_app, list_elem_of_singleton, <- Hm.
      destruct (decide (id' = id)) as [->|Hne].
      * rewrite lookup_insert_eq. split; [intros [= ->]; by right|].
        intros [Hx|[= ->]]; [|done]. exfalso. apply Hs. by rewrite Hx.
      * rewrite lookup_insert_ne by done. naive_solver.
    + intros x [Hx| ->%list_elem_of_singleton]%elem_of_app; [by apply Ha|].
      destruct (approved !! id); [eauto|done].
Qed.

Lemma validate_future_ok assigned future :
  validate_future_units approved assigned future = Ok tt →
  let ids := map fu_unit_id future in
  NoDup ids ∧ (∀ id, id ∈ ids → is_Some (approved !! id) ∧ assigned !! id = None) ∧
  (∀ id, is_Some (approved !! id) → is_Some (assigned !! id) ∨ id ∈ ids).
Proof.
  intros (future_ids & Hf & Hall)%bind_ok ids. apply for_each_ok in Hall. rewrite Forall_forall in Hall.
  assert (NoDup ids ∧ (∀ id, id ∈ ids → is_Some (approved !! id) ∧ assigned !! id = None) ∧
          (∀ id, id ∈ future_ids ↔ id ∈ ids)) as (Hnd & Hin & Heq).
  { refine (fold_res_inv (future_step approved assigned) (λ done acc,
        NoDup (map fu_unit_id done) ∧
        (∀ id, id ∈ map fu_unit_id done → is_Some (approved !! id) ∧ assigned !! id = None) ∧
        (∀ id, id ∈ acc ↔ id ∈ map fu_unit_id done)) _ _ _ _ _ Hf).
    - cbn. split_and!; [constructor|set_solver|set_solver].
    - intros done item acc acc' (Hnd & Hin & Heq) _. unfold future_step.
      destruct (blank _); [done|]. case_bool_decide as Hk; [done|].
      case_bool_decide as Ha; [done|]. case_bool_decide as Hd; [done|]. cbn [orb]. intros [= <-].
      rewrite map_app. cbn [map]. rewrite Heq in Hd. split_and!.
      + apply NoDup_app. split_and!; [done|set_solver|]. apply NoDup_singleton.
      + intros id [Hid| ->%list_elem_of_singleton]%elem_of_app; [by apply Hin|].
        split; [by destruct (approved !! _)|by apply eq_None_not_Some].
      + set_solver. }
  split_and!; [done|done|]. intros id Hid. specialize (Hall id).
  rewrite elem_of_btree_keys, ensure_ok, orb_true_iff, !bool_decide_eq_true, Heq in Hall. auto.
Qed.
End Assignment.

(** *** Ordering *)

Section Ordering.
Context (waves : gmap string Z) (approved : gmap string ApprovedUnit) (assigned : assignment).

(** The place of a dependency respects the place of the unit. *)
Definition respects (graph : lane_graph) (lane : string) (index : Z) (dep : Id) : Prop :=
  ∀ dep_lane dep_index, assigned !! dep = Some (dep_lane, dep_index) →
    (dep_lane = lane ∧ dep_index < index) ∨
    (dep_lane ≠ lane ∧ edge graph dep_lane lane ∧
     ∃ dw lw, waves !! dep_lane = Some dw ∧ waves !! lane = Some lw ∧ dw ≤ lw).

Definition extends (g g' : lane_graph) : Prop := ∀ a b, edge g a b → edge g' a b.

Lemma edge_add g from to a b :
  edge (add_edge g from to) a b ↔ edge g a b ∨ (a = from ∧ b = to).
Proof.
  unfold add_edge, edge. destruct (decide (a = from)) as [->|Hne].
  - rewrite lookup_insert_eq. split.
    + intros (next & [= <-] & Hb). destruct (g !! from) as [old|]; cbn in Hb; [|set_solver].
      apply elem_of_union in Hb as [->%elem_of_singleton|Hb]; [by right|left; eauto].
    + intros [(next & -> & Hb)|[_ ->]]; eexists; (split; [done|]); set_solver.
  - rewrite lookup_insert_ne by done. split; [by left|]. by intros [?|[? _]].
Qed.

Lemma respects_mono g g' lane index dep : extends g g' → respects g lane index dep → respects g' lane index dep.
Proof. intros He Hr dl di Hd. destruct (Hr dl di Hd) as [?|(? & ? & ?)]; [by left|right; eauto]. Qed.

Lemma order_dependency_ok id lane index g dep g' :
  order_dependency waves assigned id lane index g dep = Ok g' →
  extends g g' ∧ respects g' lane index dep.
Proof.
  unfold order_dependency, respects. destruct (assigned !! dep) as [[dl di]|]; [|intros [= <-]; split; [by intros ? ?|by intros ? ?]].
  destruct (decide (dl = lane)) as [->|Hne].
  - rewrite bool_decide_true by done. cbn [andb]. destruct (Z.leb_spec index di); [done|].
    intros [= <-]. split; [by intros ? ?|]. intros ? ? [= <- <-]. auto.
  - rewrite bool_decide_false by done. cbn [andb]. unfold required_wave.
    intros (dw & Hdw & H)%bind_ok. apply bind_ok in H as (lw & Hlw & H).
    apply ok_or_ok in Hdw, Hlw. destruct (Z.ltb_spec lw dw); [done|]. injection H as <-.
    split; [intros a b Hab; apply edge_add; auto|]. intros ? ? [= <- <-]. right.
    split; [done|]. split; [apply edge_add; auto|]. by exists dw, lw.
Qed.

Lemma order_unit_ok g id lane index g' :
  order_unit waves approved assigned g (id, (lane, index)) = Ok g' →
  extends g g' ∧ ∃ u, approved !! id = Some u ∧ ∀ dep, dep ∈ au_dependencies u → respects g' lane index dep.
Proof.
  unfold order_unit. intros (u & Hu & Hf)%bind_ok. apply ok_or_ok in Hu.
  assert (extends g g' ∧ ∀ dep, dep ∈ au_dependencies u → respects g' lane index dep) as [? ?]; [|eauto].
  refine (fold_res_inv (order_dependency waves assigned id lane index)
    (λ done acc, extends g acc ∧ ∀ dep, dep ∈ done → respects acc lane index dep) _ _ _ _ _ Hf).
  - split; [by intros ? ?|set_solver].
  - intros done dep acc acc' [He Hr] _ Hstep. apply order_dependency_ok in Hstep as [He' Hd].
    split; [by intros a b ?%He; apply He'|].
    intros x [Hx| ->%list_elem_of_singleton]%elem_of_app; [|done]. eapply respects_mono; eauto.
Qed.

Lemma ordering_ok g' :
  fold_res (order_unit waves approved assigned) ∅ (btree_map assigned) = Ok g' →
  ∀ id lane index u dep, assigned !! id = Some (lane, index) → approved !! id = Some u →
    dep ∈ au_dependencies u → respects g' lane index dep.
Proof.
  intros Hf id lane index u dep Ha Hu Hd.
  assert (∀ id lane index, (id, (lane, index)) ∈ btree_map assigned →
            ∃ u, approved !! id = Some u ∧ ∀ dep, dep ∈ au_dependencies u → respects g' lane index dep) as H.
  { refine (fold_res_inv (order_unit waves approved assigned)
      (λ done acc, ∀ id lane index, (id, (lane, index)) ∈ done →
         ∃ u, approved !! id = Some u ∧ ∀ dep, dep ∈ au_dependencies u → respects acc lane index dep)
      _ _ _ _ _ Hf).
    - set_solver.
    - intros done [id' [lane' index']] acc acc' IH _ Hstep.
      apply order_unit_ok in Hstep as [He (u' & Hu' & Hr)].
      intros i l x [Hx|[= -> -> ->]%list_elem_of_singleton]%elem_of_app; [|eauto].
      destruct (IH i l x Hx) as (u2 & ? & ?). exists u2. split; [done|].
      intros. eapply respects_mono; eauto. }
  apply elem_of_btree_map in Ha. destruct (H id lane index Ha) as (u' & Hu' & Hr).
  rewrite Hu in Hu'. injection Hu' as <-. auto.
Qed.

(** [a] is an assigned dependency of the assigned unit [b]. *)
Definition depends_on (b a : string) : Prop :=
  is_Some (assigned !! a) ∧ is_Some (assigned !! b) ∧
  ∃ u, approved !! b = Some u ∧ a ∈ au_dependencies u.

Lemma depends_path g a b la ia lb ib :
  (∀ id lane index u dep, assigned !! id = Some (lane, index) → approved !! id = Some u →
     dep ∈ au_dependencies u → respects g lane index dep) →
  tc (λ x y, depends_on y x) a b →
  assigned !! a = Some (la, ia) → assigned !! b = Some (lb, ib) →
  (la = lb ∧ ia < ib) ∨ tc (edge g) la lb.
Proof.
  intros Hr Hab. revert la ia. induction Hab as [a b Hab|a c b Hac Hcb IH]; intros la ia Ha Hb.
  - destruct Hab as (_ & _ & u & Hu & Hd).
    destruct (Hr b lb ib u a Hb Hu Hd la ia Ha) as [[-> ?]|(_ & He & _)]; [by left|].
    right. by apply tc_once.
  - destruct Hac as (_ & [[lc ic] Hc] & u & Hu & Hd).
    destruct (Hr c lc ic u a Hc Hu Hd la ia Ha) as [[-> ?]|(_ & He & _)];
      destruct (IH lc ic Hc Hb) as [[-> ?]|?]; [left; split; [done|lia]|by right|right; by apply tc_once|].
    right. eapply tc_l; eauto.
Qed.
End Ordering.

Lemma by_id_lookup units id : is_Some (by_id units !! id) ↔ id ∈ map au_id units.
Proof.
  unfold by_id. induction units as [|u units IH] using rev_ind; cbn.
  { rewrite lookup_empty. split; [by intros [? ?]|set_solver]. }
  rewrite fold_left_app, map_app. cbn. destruct (decide (id = au_id u)) as [->|Hne].
  - rewrite lookup_insert_eq. split; [set_solver|by eexists].
  - rewrite lookup_insert_ne by done. rewrite IH. set_solver.
Qed.

Lemma canonical_lanes_proposals fuel approved lanes cs :
  canonical_lanes fuel approved lanes = Some (Ok cs) → map cl_proposal cs = lanes.
Proof.
  revert cs. induction lanes as [|lane lanes IH]; intros cs; cbn; [by intros [= <-]|].
  destruct (canonical_lane fuel approved lane) as [[c|e]|] eqn:Hc; [|done..].
  destruct (canonical_lanes fuel approved lanes) as [[cs'|e]|]; [|done..].
  intros [= <-]. cbn. f_equal; [|by apply IH]. clear -Hc.
  unfold canonical_lane in Hc. repeat case_match; simplify_eq; done.
Qed.

(** What the plan is owed by an accepted allocation. *)
Record sound_allocation (approved : list ApprovedUnit) (s : AllocationSubmission)
    (policy : AllocationPolicy) (alloc : CanonicalAllocation) : Prop := {
  sa_lane_count : 1 ≤ zlen (as_lanes s) ≤ 6;
  sa_once : NoDup (assigned_ids (as_lanes s) ++ map fu_unit_id (as_future_units s));
  sa_all : ∀ id, id ∈ assigned_ids (as_lanes s) ++ map fu_unit_id (as_future_units s)
                 ↔ id ∈ map au_id approved;
  sa_capacity : in_range usize_max (ap_parallel_cap policy) → ap_parallel_cap policy < usize_max →
    ap_active_implementers policy + zlen (filter (λ l, is_new_lane l = true) (as_lanes s))
      ≤ ap_parallel_cap policy;
  sa_no_deadlock : ∃ m, (∀ id place, m !! id = Some place ↔ (id, place) ∈ placements (as_lanes s)) ∧
    ∀ id, ¬ tc (λ a b, depends_on (by_id approved) m b a) id id;
  sa_lanes : map cl_proposal (ca_lanes alloc) = as_lanes s;
  sa_future : ca_future_units alloc = as_future_units s;
}.

(** C7. An accepted allocation is sound: it has one to six lanes, every approved
    unit is in exactly one lane position or listed once as a future unit and
    nothing else is, the new lanes fit under the parallel cap together with the
    active implementers, and the dependencies among the assigned units have no
    cycle, so every assigned unit can eventually run; the canonical lanes are
    the submitted ones. *)
Theorem accepted_allocation_sound (fuel : nat) (approved : list ApprovedUnit)
    (s : AllocationSubmission) (policy : AllocationPolicy) (alloc : CanonicalAllocation) :
  validate_allocation fuel approved s policy = Some (Ok alloc) →
  sound_allocation approved s policy alloc.
Proof.
  unfold validate_allocation. destruct (checked_assignment approved s policy) as [m|] eqn:Hc; [|done].
  destruct (validate_ordering (as_lanes s) (by_id approved) m) as [[[]|]|] eqn:Ho; [|done..].
  destruct (canonical_lanes fuel (by_id approved) (as_lanes s)) as [[cs|]|] eqn:Hcl; [|done..].
  intros [= <-]. unfold checked_assignment in Hc. inv_res.
  repeat match goal with x : () |- _ => destruct x end.
  match goal with H : (if negb ?b then _ else _) = Ok _ |- _ => destruct b eqn:Hcount; [|done] end. to_prop.
  match goal with H : assignment_map _ _ = Ok _ |- _ => apply assignment_map_ok in H as (Hnd & Hm & Hap) end.
  match goal with H : validate_future_units _ _ _ = Ok _ |- _ => apply validate_future_ok in H as (Hfn & Hfa & Hfall) end.
  match goal with H : validate_capacity _ _ = Ok _ |- _ => rename H into Hcap end.
  assert (∀ id, is_Some (m !! id) ↔ id ∈ assigned_ids (as_lanes s)) as Hdom.
  { intros id. rewrite <- placements_ids, list_elem_of_fmap. split.
    - intros [place Hp]. exists (id, place). split; [done|]. by apply Hm.
    - intros ([id' place] & -> & Hin). exists place. by apply Hm. }
  split; cbn.
  - lia.
  - apply NoDup_app. split_and!; [done| |done]. intros id Hid Hf.
    destruct (Hfa id Hf) as [_ Hnone]. apply Hdom in Hid as [? ?]. congruence.
  - intros id. rewrite elem_of_app, <- by_id_lookup. split.
    + intros [Hid|Hid]; [by apply Hap|by apply Hfa].
    + intros Hid. destruct (Hfall id Hid) as [?|?]; [left; by apply Hdom|by right].
  - intros Hr Hlt. unfold validate_capacity, saturating_add in Hcap.
    destruct (Z.ltb_spec (ap_parallel_cap policy) (Z.min usize_max (ap_active_implementers policy +
      zlen (filter (λ lane, is_new_lane lane = true) (as_lanes s))))); [done|]. lia.
  - exists m. split; [done|]. intros id Hcyc. unfold validate_ordering, ordering_graph in Ho.
    destruct (fold_res _ ∅ (btree_map m)) as [g|] eqn:Hg; [|done].
    pose proof (reject_cycle_spec g) as Hex. rewrite Ho in Hex.
    pose proof (ordering_ok _ _ _ _ Hg) as Hr.
    assert (is_Some (m !! id)) as [[l i] Hi].
    { inversion Hcyc as [? ? Hd|? ? ? Hd]; by destruct Hd as (? & _). }
    destruct (depends_path _ _ _ g id id l i l i Hr Hcyc Hi Hi) as [[_ ?]|Hl]; [lia|].
    by apply Hex in Hl.
  - by eapply canonical_lanes_proposals.
  - done.
Qed.

(** ** Dependency depth *)

Section Depth.
Variable approved : gmap string ApprovedUnit.

(** A chain of [k] dependency steps from a unit. *)
Inductive chain : string → Z → Prop :=
| chain_here id : chain id 0
| chain_step id u dep k : approved !! id = Some u → dep ∈ au_dependencies u → chain dep k → chain id (1 + k).

Lemma chain_nonneg id k : chain id k → 0 ≤ k.
Proof. induction 1; lia. Qed.

Lemma deepest_ok depth best deps d :
  deepest depth best deps = Some (Ok d) →
  best ≤ d ∧ (d = best ∨ ∃ dep k, dep ∈ deps ∧ depth dep = Some (Ok k) ∧ d = saturating_add u32_max k 1) ∧
  ∀ dep, dep ∈ deps → ∃ k, depth dep = Some (Ok k) ∧ saturating_add u32_max k 1 ≤ d.
Proof.
  revert best. induction deps as [|dep deps IH]; intros best; cbn.
  { intros [= <-]. split_and!; [lia|by left|set_solver]. }
  destruct (depth dep) as [[k|]|] eqn:Hk; [|done..].
  intros (Hb & Hd & Hall)%IH. split_and!; [lia| |].
  - destruct Hd as [->|(dep' & k' & Hin & ? & ?)]; [|right; exists dep', k'; set_solver].
    destruct (Z.max_spec best (saturating_add u32_max k 1)) as [[_ ->]|[_ ->]]; [|by left].
    right. exists dep, k. set_solver.
  - intros x [->|Hx]%elem_of_cons; [exists k; split; [done|lia]|by apply Hall].
Qed.

Lemma depth_bounds fuel id d :
  dependency_depth fuel approved id = Some (Ok d) → 0 ≤ d ∧ d ≤ u32_max.
Proof.
  revert id d. induction fuel as [|fuel IH]; intros id d; cbn; [done|].
  destruct (unit_of approved id) as [u|]; [|done]. intros (H0 & Hd & _)%deepest_ok.
  split; [done|]. destruct Hd as [->|(dep & k & _ & Hk & ->)]; [by vm_compute|].
  unfold saturating_add. lia.
Qed.

(** The depth is the length of the longest chain, up to saturation. *)
Lemma depth_is_longest fuel id d :
  dependency_depth fuel approved id = Some (Ok d) →
  chain id d ∧ ∀ k, chain id k → Z.min u32_max k ≤ d.
Proof.
  revert id d. induction fuel as [|fuel IH]; intros id d; cbn; [done|].
  destruct (unit_of approved id) as [u|] eqn:Hu; [|done]. apply ok_or_ok in Hu.
  intros (H0 & Hd & Hall)%deepest_ok. split.
  - destruct Hd as [->|(dep & k & Hin & Hk & ->)]; [constructor|].
    pose proof (depth_bounds _ _ _ Hk) as Hb. apply IH in Hk as [Hc _].
    unfold saturating_add. destruct (Z.min_spec u32_max (k + 1)) as [[? ->]|[? ->]].
    + replace u32_max with (1 + (u32_max - 1)) by lia. replace k with u32_max in Hc by lia.
      assert (∀ n, chain dep n → ∀ m, 0 ≤ m ≤ n → chain dep m) as Hshort.
      { clear. induction 1 as [|id u dep k ? ? ? IH]; intros m Hm; [replace m with 0 by lia; constructor|].
        destruct (decide (m = 0)) as [->|]; [constructor|]. replace m with (1 + (m - 1)) by lia.
        econstructor; [done..|]. apply IH. lia. }
      econstructor; [done..|]. apply (Hshort _ Hc). unfold u32_max. lia.
    + replace (k + 1) with (1 + k) by lia. by econstructor.
  - intros k Hk. destruct Hk as [|id u' dep k Hu' Hin Hk]; [unfold u32_max; lia|].
    rewrite Hu in Hu'. injection Hu' as <-. destruct (Hall dep Hin) as (k' & Hk' & Hle).
    apply IH in Hk' as [_ Hmax]. specialize (Hmax k Hk). unfold saturating_add in Hle.
    pose proof (chain_nonneg _ _ Hk). lia.
Qed.

(** It is found whenever the dependencies of approved units are approved and
    decrease some rank, with fuel above the rank. *)
Lemma depth_terminates (rank : string → nat) fuel id :
  (∀ id u dep, approved !! id = Some u → dep ∈ au_dependencies u →
     is_Some (approved !! dep) ∧ (rank dep < rank id)%nat) →
  is_Some (approved !! id) → (rank id < fuel)%nat →
  ∃ d, dependency_depth fuel approved id = Some (Ok d).
Proof.
  intros Hrank. revert id. induction fuel as [|fuel IH]; intros id [u Hu] Hf; [lia|]. cbn.
  unfold unit_of. rewrite Hu. cbn [ok_or].
  assert (∀ deps best, (∀ dep, dep ∈ deps → dep ∈ au_dependencies u) →
            ∃ d, deepest (dependency_depth fuel approved) best deps = Some (Ok d)) as H.
  { induction deps as [|dep deps IHd]; intros best Hin; cbn; [by eexists|].
    destruct (Hrank id u dep Hu) as [Ha Hr]; [set_solver|].
    destruct (IH dep Ha) as [d ->]; [lia|]. apply IHd. set_solver. }
  by apply H.
Qed.
End Depth.

(** The dependency depth of a unit: when the dependencies of the approved
    units are approved units and have no cycle (they decrease a rank), the
    computation returns, and its value is the length of the longest chain of
    dependencies from the unit, saturated at the largest [u32]. *)
Theorem dependency_depth_longest (approved : gmap string ApprovedUnit) (rank : string → nat)
    (id : string) (fuel : nat) :
  (∀ id u dep, approved !! id = Some u → dep ∈ au_dependencies u →
     is_Some (approved !! dep) ∧ (rank dep < rank id)%nat) →
  is_Some (approved !! id) → (rank id < fuel)%nat →
  ∃ d, dependency_depth fuel approved id = Some (Ok d) ∧
    chain approved id d ∧ ∀ k, chain approved id k → Z.min u32_max k ≤ d.
Proof.
  intros Hrank Hid Hf. destruct (depth_terminates approved rank fuel id Hrank Hid Hf) as [d Hd].
  exists d. split; [done|]. by eapply depth_is_longest.
Qed.

(** *** Witnesses and an allocation without end *)

Definition demo_unit (id : string) (deps : list string) : ApprovedUnit :=
  {| au_id := id; au_kind := Implementation; au_objective := "objective"; au_operator_order := 1;
     au_decisions := []; au_criteria := []; au_criterion_text := []; au_dependencies := deps;
     au_predecessor_forward_criteria := []; au_downstream_release_edges := []; au_files := [];
     au_commands := []; au_package_checks := [] |}.
Definition demo_lane (id : string) (units : list string) (wave : Z) : AllocationLaneProposal :=
  {| lp_lane_id := id; lp_objective := "objective"; lp_ordered_unit_ids := units; lp_rationale := "";
     lp_delivery_boundary := ""; lp_predecessor_forward_criteria := []; lp_downstream_release_edges := [];
     lp_context_family_id := "family"; lp_context_estimate := 10; lp_focused_tests := [];
     lp_launch_wave := wave; lp_continue_existing_logical_lane := None |}.
Definition demo_submission (units : list ApprovedUnit) (lanes : list AllocationLaneProposal)
    (future : list FutureUnit) : AllocationSubmission :=
  {| as_lanes := lanes; as_future_units := future; as_authority_echo := units;
     as_ownership_claims := []; as_overlap_blocks := [] |}.
Definition demo_policy : AllocationPolicy := {| ap_parallel_cap := 8; ap_active_implementers := 2 |}.

Definition demo_units : list ApprovedUnit := [demo_unit "u1" []; demo_unit "u2" ["u1"]; demo_unit "u3" ["u2"]].
Definition demo_good : AllocationSubmission :=
  demo_submission demo_units [demo_lane "l1" ["u1"] 0; demo_lane "l2" ["u2"] 1]
    [{| fu_unit_id := "u3"; fu_reason := "later" |}].

Lemma accepted_allocation_sound_witness :
  ∃ alloc, validate_allocation 4 demo_units demo_good demo_policy = Some (Ok alloc) ∧
    sound_allocation demo_units demo_good demo_policy alloc.
Proof.
  eexists. split; [vm_compute; reflexivity|].
  apply (accepted_allocation_sound 4). vm_compute. reflexivity.
Defined.

Definition demo_rank (id : string) : nat :=
  if decide (id = "u3") then 2%nat else if decide (id = "u2") then 1%nat else 0%nat.

Lemma dependency_depth_longest_witness :
  ∃ d, dependency_depth 3 (by_id demo_units) "u3" = Some (Ok d) ∧ chain (by_id demo_units) "u3" d.
Proof.
  destruct (dependency_depth_longest (by_id demo_units) demo_rank "u3" 3) as (d & Hd & Hc & _).
  - intros id u dep Hu. unfold by_id in Hu. cbn in Hu.
    apply lookup_insert_Some in Hu as [[<- <-]|[_ Hu]];
      [intros ->%list_elem_of_singleton; split; [by eexists|vm_compute; lia]|].
    apply lookup_insert_Some in Hu as [[<- <-]|[_ Hu]];
      [intros ->%list_elem_of_singleton; split; [by eexists|vm_compute; lia]|].
    apply lookup_insert_Some in Hu as [[<- <-]|[_ Hu]]; [cbn; set_solver|].
    by rewrite lookup_empty in Hu.
  - by eexists.
  - vm_compute. lia.
  - by exists d.
Defined.

(** Two future units that depend on each other, and an assigned unit that
    depends on one of them. *)
Definition cyclic_units : list ApprovedUnit :=
  [demo_unit "u1" ["f1"]; demo_unit "f1" ["f2"]; demo_unit "f2" ["f1"]].
Definition cyclic_submission : AllocationSubmission :=
  demo_submission cyclic_units [demo_lane "l1" ["u1"] 0]
    [{| fu_unit_id := "f1"; fu_reason := "later" |}; {| fu_unit_id := "f2"; fu_reason := "later" |}].

(** *** When the depth is found *)

Section Returns.
Variable approved : gmap string ApprovedUnit.

Definition depends (id dep : string) : Prop :=
  ∃ u, approved !! id = Some u ∧ dep ∈ au_dependencies u.

(** Dependencies of approved units are approved units. *)
Definition closed_under_dependencies : Prop := ∀ id dep, depends id dep → is_Some (approved !! dep).

(** Following dependencies from [id] one can come to a unit that depends on
    itself, over one or more steps. *)
Definition reaches_cycle (id : string) : Prop := ∃ c, rtc depends id c ∧ tc depends c c.

Context (Hclosed : closed_under_dependencies).

Lemma deepest_none depth best deps :
  (∀ dep e, dep ∈ deps → depth dep ≠ Some (Err e)) →
  (∀ e, deepest depth best deps ≠ Some (Err e)) ∧
  (deepest depth best deps = None ↔ ∃ dep, dep ∈ deps ∧ depth dep = None).
Proof.
  revert best. induction deps as [|dep deps IH]; intros best Hok; cbn; [split; [done|set_solver]|].
  assert (∀ e, depth dep ≠ Some (Err e)) as Hd by (intros e; apply Hok; set_solver).
  destruct (depth dep) as [[d|e]|] eqn:Hdep; [|by destruct (Hd e)|].
  - destruct (IH (Z.max best (saturating_add u32_max d 1))) as [IH1 IH2]; [set_solver|]. split; [done|].
    rewrite IH2. split; [set_solver|]. intros (x & [->|Hx]%elem_of_cons & Hn); [congruence|eauto].
  - split; [done|]. split; [|done]. intros _. exists dep. set_solver.
Qed.

Lemma depth_not_err fuel id e : is_Some (approved !! id) → dependency_depth fuel approved id ≠ Some (Err e).
Proof using Hclosed.
  revert id e. induction fuel as [|fuel IH]; intros id e [u Hu]; [done|]. cbn. unfold unit_of. rewrite Hu. cbn.
  apply deepest_none. intros dep e' Hin. apply IH, (Hclosed id). by exists u.
Qed.

Lemma depth_none fuel id : is_Some (approved !! id) →
  dependency_depth (S fuel) approved id = None ↔ ∃ dep, depends id dep ∧ dependency_depth fuel approved dep = None.
Proof using Hclosed.
  intros [u Hu]. cbn. unfold unit_of, depends. rewrite Hu. cbn.
  destruct (deepest_none (dependency_depth fuel approved) 0 (au_dependencies u)) as [_ ->]; [|naive_solver].
  intros dep e Hin. apply depth_not_err, (Hclosed id). by exists u.
Qed.

(** On the way to a cycle no fuel is enough, *)
Lemma cycle_diverges fuel id : reaches_cycle id → dependency_depth fuel approved id = None.
Proof using Hclosed.
  revert id. induction fuel as [|fuel IH]; intros id (c & Hrtc & Htc); [done|].
  assert (∃ dep, depends id dep ∧ reaches_cycle dep) as (dep & Hd & Hr).
  { destruct Hrtc as [x|x dep c Hd Hrtc]; [|by exists dep; split; [|exists c]].
    assert (depends x x ∨ ∃ y, depends x y ∧ tc depends y x) as [Hd|(y & Hd & Hy)]
      by (inversion Htc; eauto); [by exists x; split; [|exists x]|].
    exists y. split; [done|]. exists x. split; [by apply tc_rtc|done]. }
  apply depth_none; [destruct Hd as (u & Hu & _); by eexists|]. eauto.
Qed.

(** and elsewhere one more than the number of units is: running out of fuel
    leaves a path of dependencies as long as the fuel. *)
Lemma depth_path fuel id : is_Some (approved !! id) → dependency_depth fuel approved id = None →
  ∃ l, length l = fuel ∧ StronglySorted (tc depends) l ∧
    Forall (λ x, rtc depends id x ∧ is_Some (approved !! x)) l ∧ (∀ x, x ∈ l → x = id ∨ tc depends id x).
Proof using Hclosed.
  revert id. induction fuel as [|fuel IH]; intros id Hid Hn; [exists []; by repeat constructor; set_solver|].
  apply depth_none in Hn as (dep & Hd & Hn); [|done].
  destruct (IH dep (Hclosed _ _ Hd) Hn) as (l & Hl & Hs & Hf & Hx).
  assert (∀ x, x ∈ l → tc depends id x) as Htc.
  { intros x [->|H]%Hx; [by apply tc_once|by eapply tc_l]. }
  exists (id :: l). split_and!.
  - cbn. by rewrite Hl.
  - constructor; [done|]. by apply Forall_forall.
  - constructor; [done|]. eapply Forall_impl; [exact Hf|]. intros x [Hr Ha]. split; [by eapply rtc_l|done].
  - intros x [->|H]%elem_of_cons; [by left|right; auto].
Qed.

Lemma sorted_dup (l : list string) : StronglySorted (tc depends) l → NoDup l ∨ ∃ c, c ∈ l ∧ tc depends c c.
Proof.
  induction 1 as [|x l Hs IH Hx]; [by left; constructor|]. rewrite Forall_forall in Hx.
  destruct IH as [IH|(c & ? & ?)]; [|right; exists c; set_solver].
  destruct (decide (x ∈ l)) as [Hin|Hin]; [right; exists x; split; [set_solver|auto]|left; by constructor].
Qed.

Lemma acyclic_returns fuel id :
  is_Some (approved !! id) → ¬ reaches_cycle id → (size approved < fuel)%nat →
  ∃ d, dependency_depth fuel approved id = Some (Ok d).
Proof using Hclosed.
  intros Hid Hno Hf. pose proof (depth_not_err fuel id) as Herr.
  destruct (dependency_depth fuel approved id) as [[d|e]|] eqn:Hd; [eauto|by destruct (Herr e Hid)|].
  exfalso. destruct (depth_path fuel id Hid Hd) as (l & Hl & Hs & Hall & _). rewrite Forall_forall in Hall.
  destruct (sorted_dup l Hs) as [Hnd|(c & Hc & Htc)].
  - assert (l ⊆+ elements (dom approved)) as Hsub%submseteq_length.
    { apply NoDup_submseteq; [done|]. intros x Hx. apply elem_of_elements, elem_of_dom. by apply Hall. }
    change (length (elements (dom approved))) with (size (dom approved)) in Hsub. rewrite size_dom in Hsub. lia.
  - apply Hno. exists c. split; [by apply Hall|done].
Qed.

(** *** Lanes *)

Lemma depths_none fuel ids : Forall (λ id, is_Some (approved !! id)) ids → Exists reaches_cycle ids →
  depths fuel approved ids = None.
Proof using Hclosed.
  intros Hall. induction Hall as [|id ids Hid _ IH]; intros Hex; [by inversion Hex|]. cbn.
  pose proof (depth_not_err fuel id) as Herr.
  destruct (dependency_depth fuel approved id) as [[d|e]|] eqn:Hd; [|by destruct (Herr e Hid)|done].
  apply Exists_cons in Hex as [Hc|Hex]; [by rewrite cycle_diverges in Hd|]. by rewrite IH.
Qed.

Lemma depths_ok fuel ids :
  Forall (λ id, is_Some (approved !! id) ∧ ¬ reaches_cycle id) ids → (size approved < fuel)%nat →
  ∃ ds, depths fuel approved ids = Some (Ok ds) ∧ length ds = length ids.
Proof using Hclosed.
  intros Hall Hf. induction Hall as [|id ids [Hid Hno] _ (ds & IH & Hl)]; cbn; [by exists []|].
  destruct (acyclic_returns fuel id Hid Hno Hf) as [d ->]. rewrite IH. exists (d :: ds). cbn. by rewrite Hl.
Qed.

(** The first part of [canonical_lane] is found for every lane with units. *)
Lemma orders_found ids e : ids ≠ [] → Forall (λ id, is_Some (approved !! id)) ids →
  ∃ o, (orders ← collect_res (λ id, u ← unit_of approved id; Ok (au_operator_order u)) ids;
        ok_or (list_min orders) e) = Ok o.
Proof.
  intros Hne Hall.
  assert (∃ os, collect_res (λ id, u ← unit_of approved id; Ok (au_operator_order u)) ids = Ok os ∧
            length os = length ids) as (os & Hos & Hl).
  { clear Hne. induction Hall as [|id ids [u Hu] _ (os & IH & Hl)]; [by exists []|].
    exists (au_operator_order u :: os). cbn [collect_res]. unfold unit_of at 1. rewrite Hu. cbn. rewrite IH. cbn. by rewrite Hl. }
  rewrite Hos. cbn. destruct os; [by destruct ids|]. by eexists.
Qed.

Lemma canonical_lane_none fuel lane :
  lp_ordered_unit_ids lane ≠ [] → Forall (λ id, is_Some (approved !! id)) (lp_ordered_unit_ids lane) →
  Exists reaches_cycle (lp_ordered_unit_ids lane) → canonical_lane fuel approved lane = None.
Proof using Hclosed.
  intros Hne Hall Hex. unfold canonical_lane.
  destruct (orders_found _ (MissingUnit (lp_lane_id lane)) Hne Hall) as [o ->]. by rewrite depths_none.
Qed.

Lemma canonical_lane_ok fuel lane :
  lp_ordered_unit_ids lane ≠ [] →
  Forall (λ id, is_Some (approved !! id) ∧ ¬ reaches_cycle id) (lp_ordered_unit_ids lane) →
  (size approved < fuel)%nat → ∃ c, canonical_lane fuel approved lane = Some (Ok c).
Proof using Hclosed.
  intros Hne Hall Hf. unfold canonical_lane.
  destruct (orders_found (lp_ordered_unit_ids lane) (MissingUnit (lp_lane_id lane)) Hne) as [o ->].
  { eapply Forall_impl; [exact Hall|]. by intros ? []. }
  destruct (depths_ok fuel _ Hall Hf) as (ds & -> & Hl). destruct ds; [by destruct (lp_ordered_unit_ids lane)|].
  by eexists.
Qed.

(** A lane whose units reach no cycle may also need more fuel. *)
Lemma canonical_lane_not_err fuel lane e :
  lp_ordered_unit_ids lane ≠ [] → Forall (λ id, is_Some (approved !! id)) (lp_ordered_unit_ids lane) →
  canonical_lane fuel approved lane ≠ Some (Err e).
Proof using Hclosed.
  intros Hne Hall. unfold canonical_lane.
  destruct (orders_found _ (MissingUnit (lp_lane_id lane)) Hne Hall) as [o ->].
  assert (match depths fuel approved (lp_ordered_unit_ids lane) with
          | Some (Ok ds) => length ds = length (lp_ordered_unit_ids lane) | Some (Err _) => False | None => True end) as H.
  { clear Hne. induction Hall as [|id ids Hid _ IH]; cbn; [done|]. pose proof (depth_not_err fuel id) as Herr.
    destruct (dependency_depth fuel approved id) as [[d|e']|]; [|by destruct (Herr e' Hid)|done].
    destruct (depths fuel approved ids) as [[ds|]|]; cbn; [by f_equal|done|done]. }
  destruct (depths fuel approved (lp_ordered_unit_ids lane)) as [[ds|]|]; [|done|done].
  destruct ds; [by destruct (lp_ordered_unit_ids lane)|done].
Qed.

Definition known_lane (lane : AllocationLaneProposal) : Prop :=
  lp_ordered_unit_ids lane ≠ [] ∧ Forall (λ id, is_Some (approved !! id)) (lp_ordered_unit_ids lane).

Lemma canonical_lanes_none fuel lanes : Forall known_lane lanes →
  Exists reaches_cycle (assigned_ids lanes) → canonical_lanes fuel approved lanes = None.
Proof using Hclosed.
  intros Hall. induction Hall as [|lane lanes [Hne Hk] _ IH]; intros Hex; [by inversion Hex|]. cbn.
  change (assigned_ids (lane :: lanes)) with (lp_ordered_unit_ids lane ++ assigned_ids lanes) in Hex.
  apply Exists_app in Hex as [Hex|Hex]; [by rewrite canonical_lane_none|].
  pose proof (canonical_lane_not_err fuel lane) as Herr.
  destruct (canonical_lane fuel approved lane) as [[c|e]|]; [by rewrite IH|by destruct (Herr e)|done].
Qed.

Lemma canonical_lanes_ok fuel lanes : Forall known_lane lanes →
  Forall (λ id, ¬ reaches_cycle id) (assigned_ids lanes) → (size approved < fuel)%nat →
  ∃ cs, canonical_lanes fuel approved lanes = Some (Ok cs).
Proof using Hclosed.
  intros Hall Hno Hf. induction Hall as [|lane lanes [Hne Hk] _ IH]; cbn; [by eexists|].
  change (assigned_ids (lane :: lanes)) with (lp_ordered_unit_ids lane ++ assigned_ids lanes) in Hno.
  apply Forall_app in Hno as [Hno1 Hno2].
  destruct (canonical_lane_ok fuel lane Hne) as [c ->]; [by apply Forall_and|done|].
  destruct (IH Hno2) as [cs ->]. by eexists.
Qed.
End Returns.

Lemma checked_assignment_known approved s policy m :
  checked_assignment approved s policy = Ok m →
  ∀ id, id ∈ assigned_ids (as_lanes s) → is_Some (by_id approved !! id).
Proof.
  unfold checked_assignment. intros Hc. inv_res.
  match goal with H : assignment_map _ _ = Ok _ |- _ => apply assignment_map_ok in H as (_ & _ & Hap) end.
  exact Hap.
Qed.

(** C35. When an allocation is answered at all.  Let the dependencies of the
    approved units be approved units, and let a submission with no empty lane
    pass every check up to and including the check of lane cycles.  If some
    assigned unit leads, over its dependencies, to a unit that depends on
    itself (a cycle through some future unit, whose dependencies the checks do
    not look at), the computation of the dependency depth never returns: no
    amount of fuel gives a result.  If none does, the allocation is accepted,
    with fuel for one more step than there are units. *)
Theorem allocation_returns_unless_cyclic (approved : list ApprovedUnit) (s : AllocationSubmission)
    (policy : AllocationPolicy) (m : assignment) :
  closed_under_dependencies (by_id approved) →
  Forall (λ lane, lp_ordered_unit_ids lane ≠ []) (as_lanes s) →
  checked_assignment approved s policy = Ok m →
  validate_ordering (as_lanes s) (by_id approved) m = Some (Ok tt) →
  (Exists (reaches_cycle (by_id approved)) (assigned_ids (as_lanes s)) →
     ∀ fuel, validate_allocation fuel approved s policy = None) ∧
  (Forall (λ id, ¬ reaches_cycle (by_id approved) id) (assigned_ids (as_lanes s)) →
     ∀ fuel, (size (by_id approved) < fuel)%nat →
     ∃ alloc, validate_allocation fuel approved s policy = Some (Ok alloc)).
Proof.
  intros Hclosed Hne Hc Ho. pose proof (checked_assignment_known _ _ _ _ Hc) as Hk.
  assert (Forall (known_lane (by_id approved)) (as_lanes s)) as Hlanes.
  { rewrite Forall_forall in *. intros lane Hl. split; [auto|]. apply Forall_forall. intros id Hid.
    apply Hk, list_elem_of_bind. eauto. }
  split.
  - intros Hex fuel. unfold validate_allocation. by rewrite Hc, Ho, canonical_lanes_none.
  - intros Hno fuel Hf. unfold validate_allocation. rewrite Hc, Ho.
    destruct (canonical_lanes_ok _ Hclosed fuel _ Hlanes Hno Hf) as [cs ->]. by eexists.
Qed.

(** The submission above passes every check and is never answered. *)
Lemma allocation_returns_unless_cyclic_witness :
  (∀ fuel, validate_allocation fuel cyclic_units cyclic_submission demo_policy = None) ∧
  ∃ m, checked_assignment cyclic_units cyclic_submission demo_policy = Ok m ∧
    validate_ordering (as_lanes cyclic_submission) (by_id cyclic_units) m = Some (Ok tt).
Proof.
  assert (∃ m, checked_assignment cyclic_units cyclic_submission demo_policy = Ok m ∧
            validate_ordering (as_lanes cyclic_submission) (by_id cyclic_units) m = Some (Ok tt)) as (m & Hc & Ho)
    by (eexists; split; vm_compute; reflexivity).
  split; [|by exists m].
  apply (allocation_returns_unless_cyclic cyclic_units cyclic_submission demo_policy m).
  - intros id dep (u & Hu & Hd). unfold by_id in Hu. cbn in Hu.
    repeat (apply lookup_insert_Some in Hu as [[<- <-]|[_ Hu]];
      [apply list_elem_of_singleton in Hd as ->; by eexists|]).
    by rewrite lookup_empty in Hu.
  - by repeat constructor.
  - exact Hc.
  - exact Ho.
  - left. exists "f1". split.
    + apply rtc_once. exists (demo_unit "u1" ["f1"]). split; [reflexivity|left].
    + apply (tc_l _ "f1" "f2" "f1"); [|apply tc_once].
      * exists (demo_unit "f1" ["f2"]). split; [reflexivity|left].
      * exists (demo_unit "f2" ["f1"]). split; [reflexivity|left].
Defined.
