(* ===== verification/Dispatch.v ===== *)
(** * Dispatch of allocated lanes

    [drivers/src/dispatch/mod.rs]: canonical lanes and their readiness facts
    become a schedule view; the selected lanes get a worktree at the current tip
    of the run's main reference. *)

From S2P Require Import Prelude RustColl RustStr Paths Os Generated Failure Schedule Vcs Authority Allocation.

Record LaneReadiness := {
  lr_lane_id : Id;
  lr_predecessor_gates_met : bool;
  lr_blockers_clear : bool;
  lr_unit_free : bool;
  lr_route_ready : bool;
  lr_preflight_passed : bool;
  lr_pressure_delay : bool;
}.

Record DispatchInput := {
  di_lanes : list CanonicalLane;
  di_readiness : list LaneReadiness;
  di_active_implementers : Z;
  di_parallel_cap : Z;
  di_resources : ResourceFacts;
}.

Record LaneLaunch := { ll_lane_id : Id; ll_base_commit : string; ll_worktree : path }.

Definition readiness_by_lane (input : DispatchInput) : gmap string LaneReadiness :=
  fold_left (λ m item, <[lr_lane_id item := item]> m) (di_readiness input) ∅.

Definition work_item (lane : CanonicalLane) (facts : LaneReadiness) : WorkItem :=
  {| wi_id := lp_lane_id (cl_proposal lane);
     wi_capacity_class := cl_capacity_class lane;
     wi_launch_wave := lp_launch_wave (cl_proposal lane);
     wi_remaining_dependency_path := cl_remaining_dependency_path lane;
     wi_unit_order := cl_first_operator_order lane;
     wi_readiness := {| predecessor_gates_met := lr_predecessor_gates_met facts;
                        blockers_clear := lr_blockers_clear facts;
                        unit_free := lr_unit_free facts;
                        base_ready := true;
                        route_ready := lr_route_ready facts;
                        preflight_passed := lr_preflight_passed facts |};
     wi_pressure_policy := if lr_pressure_delay facts then DelayWhenPressed else PermitWhenPressed |}.

Definition dispatch_view (input : DispatchInput) : ScheduleView :=
  {| sv_policy := {| parallel_cap := di_parallel_cap input; capped_class := IMPLEMENTER_CAPACITY |};
     sv_active_capped := di_active_implementers input;
     sv_resources := di_resources input;
     sv_items := omap (λ lane, work_item lane <$>
                        readiness_by_lane input !! lp_lane_id (cl_proposal lane)) (di_lanes input) |}.

Definition select_ready_lanes (input : DispatchInput) : list Id := dispatch_order (dispatch_view input).

Definition launch_lane (vcs : GitVcs) (source worktree_root : path) (run_main_ref : string)
    (sparse_profile : list string) (lane : Id) : prog Failure LaneLaunch :=
  base_commit ← read_tip vcs source run_main_ref;
  let worktree := path_join worktree_root (components lane) in
  prepare vcs worktree source base_commit sparse_profile ≫= λ _,
  Ret (Ok {| ll_lane_id := lane; ll_base_commit := base_commit; ll_worktree := worktree |}).

Definition launch_lanes (vcs : GitVcs) (source worktree_root : path) (run_main_ref : string)
    (selected : list Id) (sparse_profile : list string) : prog Failure (list LaneLaunch) :=
  prog_collect (launch_lane vcs source worktree_root run_main_ref sparse_profile) selected.

(** ** Selection respects readiness and the cap *)

Lemma work_item_of input i :
  i ∈ sv_items (dispatch_view input) →
  ∃ lane facts, lane ∈ di_lanes input ∧ i = work_item lane facts ∧
    readiness_by_lane input !! lp_lane_id (cl_proposal lane) = Some facts.
Proof.
  cbn. rewrite list_elem_of_omap. intros (lane & Hin & Hi).
  destruct (readiness_by_lane input !! lp_lane_id (cl_proposal lane)) as [facts|] eqn:Hf; [|done].
  injection Hi as <-. eauto.
Qed.

(** A lane that may be launched now. *)
Definition launchable (input : DispatchInput) (lane : CanonicalLane) : Prop :=
  ∃ facts, readiness_by_lane input !! lp_lane_id (cl_proposal lane) = Some facts ∧
    lr_predecessor_gates_met facts = true ∧ lr_blockers_clear facts = true ∧
    lr_unit_free facts = true ∧ lr_route_ready facts = true ∧ lr_preflight_passed facts = true ∧
    (lr_pressure_delay facts = true → pressed (di_resources input) = false).

Lemma eligible_launchable input lane facts :
  readiness_by_lane input !! lp_lane_id (cl_proposal lane) = Some facts →
  eligible (dispatch_view input) (work_item lane facts) = true → launchable input lane.
Proof.
  intros Hf He. exists facts. split; [done|]. unfold eligible, all_met, resources_allow in He. cbn in He.
  to_prop. split_and!; try done. intros Hd. rewrite Hd in *. by to_prop.
Qed.

(** Dispatch of canonical lanes (all of the implementer class): every
    selected id is the id of an allocated lane whose readiness facts all hold
    and which is not delayed under resource pressure, and the selected lanes
    together with the active implementers stay within the parallel cap (or the
    active ones alone exceed it and nothing is selected). *)
Theorem selected_lanes_ready (input : DispatchInput) :
  Forall (λ lane, cl_capacity_class lane = IMPLEMENTER_CAPACITY) (di_lanes input) →
  (∀ id, id ∈ select_ready_lanes input →
     ∃ lane, lane ∈ di_lanes input ∧ lp_lane_id (cl_proposal lane) = id ∧ launchable input lane) ∧
  zlen (select_ready_lanes input) + di_active_implementers input ≤
    Z.max (di_parallel_cap input) (di_active_implementers input).
Proof.
  intros Hclass. unfold select_ready_lanes.
  destruct (dispatch_select (dispatch_view input)) as (sel & -> & Hsub & Hcap & _).
  assert (∀ i, i ∈ sel → ∃ lane facts, lane ∈ di_lanes input ∧ i = work_item lane facts ∧
            readiness_by_lane input !! lp_lane_id (cl_proposal lane) = Some facts ∧
            eligible (dispatch_view input) i = true) as Hsel.
  { intros i Hi. eapply elem_of_sublist in Hi; [|done]. apply elem_of_ordered in Hi as [Hi He].
    apply work_item_of in Hi as (lane & facts & ? & ? & ?). eauto 10. }
  split.
  - intros id (i & -> & Hi)%list_elem_of_fmap. destruct (Hsel i Hi) as (lane & facts & ? & -> & ? & ?).
    exists lane. split_and!; [done|done|]. by eapply eligible_launchable.
  - assert (filter (capped (dispatch_view input)) sel = sel) as Hall.
    { apply filter_all. intros i Hi. destruct (Hsel i Hi) as (lane & facts & Hl & -> & _).
      rewrite Forall_forall in Hclass. by apply Hclass. }
    assert (zlen (map wi_id sel) = zlen sel) as -> by (unfold zlen; by rewrite length_map).
    rewrite Hall in Hcap. rewrite Hcap. unfold zlen. rewrite length_take.
    unfold open_slots, saturating_sub. cbn. lia.
Qed.

(** *** Launching *)

Lemma collect_launches vcs source worktree_root main profile selected :
  wp (λ _, True) (λ r, ∀ launches, r = Ok launches →
        map ll_lane_id launches = selected ∧
        Forall (λ l, ll_worktree l = path_join worktree_root (components (ll_lane_id l))) launches)
    (launch_lanes vcs source worktree_root main selected profile).
Proof.
  unfold launch_lanes. induction selected as [|lane selected IH]; cbn [prog_collect].
  { intros ? [= <-]. done. }
  change (prog_bind ?f ?p) with (p ≫= f). apply wp_bind.
  eapply (wp_mono _ _ (λ r, ∀ l, r = Ok l → ll_lane_id l = lane ∧
            ll_worktree l = path_join worktree_root (components lane))); [done| |].
  2:{ unfold launch_lane. do 2 (apply wp_bind_any; [done|intros ?]). by intros ? [= <-]. }
  intros [l|e] Hl; [|done]. destruct (Hl l eq_refl) as [Hid Hw].
  change (prog_bind ?f ?p) with (p ≫= f). apply wp_bind. eapply wp_mono, IH; [done|].
  intros [ls|e] Hls; [|done]. destruct (Hls ls eq_refl) as [<- Hall].
  intros ? [= <-]. cbn. split; [by rewrite Hid|]. constructor; [by rewrite Hid|done].
Qed.

Lemma selected_lanes_ready_witness :
  let input := {| di_lanes := [{| cl_proposal := demo_lane "l1" ["u1"] 0; cl_remaining_dependency_path := 0;
                                  cl_first_operator_order := 1; cl_capacity_class := "implementer" |}];
                  di_readiness := [{| lr_lane_id := "l1"; lr_predecessor_gates_met := true;
                                      lr_blockers_clear := true; lr_unit_free := true;
                                      lr_route_ready := true; lr_preflight_passed := true;
                                      lr_pressure_delay := false |}];
                  di_active_implementers := 7; di_parallel_cap := 8;
                  di_resources := {| free_storage_bytes := 0; projected_storage_bytes := 0;
                                     available_memory_bytes := 0; physical_memory_bytes := 0 |} |} in
  select_ready_lanes input = ["l1"] ∧ zlen (select_ready_lanes input) + 7 ≤ 8.
Proof.
  intros input. split; [vm_compute; reflexivity|].
  apply (selected_lanes_ready input). by repeat constructor.
Defined.
