(* ===== verification/Vendoring.v ===== *)
(** * Approved authority with vendored files

    [drivers/src/allocation/vendoring_v2.rs]: the closure algorithm that an
    approved plan of version 2 has to pass before lanes are allocated.  Each
    unit owns exact files, may vendor files from immutable origins, and one
    closure unit proves the package. *)

From S2P Require Import Prelude RustColl RustStr Paths Generated Graph Authority Allocation.

Definition APPROVED_VENDOR_BINDINGS_V2_MAX : Z := 128.
Definition APPROVED_PACKAGE_PROOFS_V2_MAX : Z := 256.

Record ApprovedVendorBindingV2 := {
  vb_binding_id : Id;
  vb_origin_path : Path;
  vb_destination : Path;
}.

Inductive PackageProofKindV2 := CleanExactPackageTip | VendoredBytesMatchOrigin.
#[global] Instance PackageProofKindV2_eq_dec : EqDecision PackageProofKindV2.
Proof. solve_decision. Defined.

Record ApprovedPackageProofV2 := {
  pp_proof_id : Id;
  pp_kind : PackageProofKindV2;
  pp_criterion_ordinals : list Z;
  pp_expected : string;
  pp_vendor_binding_ids : list Id;
}.

Record ApprovedUnitVendoringV2 := {
  uv_unit_id : Id;
  uv_provenance_manifest_destination : option Path;
  uv_vendor_bindings : list ApprovedVendorBindingV2;
}.

Record ApprovedUnitPackageAuthorityV2 := {
  pa_unit_id : Id;
  pa_package_scope_files : list Path;
  pa_package_proofs : list ApprovedPackageProofV2;
}.

(** ** Texts, ids and paths *)

Definition is_ascii (s : string) : bool := str_all (λ a, code a <? 128) s.
(** [char::is_control] on an ASCII character. *)
Definition is_control (a : ascii) : bool := (code a <? 32) || (code a =? 127).
Definition has_control (s : string) : bool := negb (str_all (λ a, negb (is_control a)) s).

Definition validate_v2_text (value : string) (maximum : Z) (label : string) : result string unit :=
  if blank value || (maximum <? str_len value) || negb (is_ascii value) || has_control value
  then Err (label +:+ " must be nonempty ASCII/control-free and at most " +:+ show_uint maximum +:+
            " UTF-8 bytes")
  else Ok tt.

Definition validate_v2_unit_id (id : Id) (label : string) : result string unit := validate_v2_text id 242 label.
Definition validate_v2_id (id : Id) (label : string) : result string unit := validate_v2_text id 256 label.

Definition validate_v2_path (p : Path) (label : string) : result string unit :=
  if (4096 <? str_len p) || negb (is_ascii p) || has_control p || negb (approved_path_is_safe p)
  then Err (label +:+ " is not an ASCII, control-free exact normalized path")
  else Ok tt.

Definition validate_free_text (value : string) (maximum : Z) (label : string) : result string unit :=
  if blank value || (maximum <? str_len value)
  then Err (label +:+ " must be nonempty and at most " +:+ show_uint maximum +:+ " UTF-8 bytes")
  else Ok tt.

(** The loop that collects distinct items, each checked first. *)
Definition collect_distinct (check : string → result string unit) (message : string → string)
    (seen : gset string) (x : string) : result string (gset string) :=
  match check x with
  | Err e => Err e
  | Ok _ => if bool_decide (x ∈ seen) then Err (message x) else Ok ({[x]} ∪ seen)
  end.

Definition validate_exact_v2_paths (paths : list Path) (allow_empty : bool) (label : string)
  : result string unit :=
  if (paths =s []) && negb allow_empty then Err (label +:+ " authority must not be empty")
  else if 256 <? zlen paths then Err (label +:+ " authority exceeds 256 exact paths")
  else
    exact ← fold_res (collect_distinct (λ p, validate_v2_path p label)
                        (λ p, label +:+ " has duplicate exact path " +:+ p)) ∅ paths;
    for_each (λ p,
      for_each (λ ancestor,
        ensure (negb (bool_decide (ancestor ∈ exact)))
          (label +:+ " has same-unit ancestor authority " +:+ ancestor +:+ " and " +:+ p))
        (ancestors p)) (btree_set exact).

Definition validate_id_list (ids : list Id) (minimum : Z) (label : string) : result string unit :=
  if (zlen ids <? minimum) || (256 <? zlen ids) then Err (label +:+ " cardinality is malformed")
  else
    fold_res (collect_distinct (λ id, validate_v2_id id label)
                (λ id, label +:+ " contains duplicate id " +:+ id)) ∅ ids ≫= λ _, Ok tt.

(** [items.windows(2).any(p)] *)
Fixpoint windows_any {A} (p : A → A → bool) (items : list A) : bool :=
  match items with
  | a :: ((b :: _) as rest) => p a b || windows_any p rest
  | _ => false
  end.

(** [a.as_bytes() >= b.as_bytes()] *)
Definition bytes_ge (a b : string) : bool :=
  match String.compare a b with Lt => false | _ => true end.

Definition validate_canonical_path_order (paths : list Path) (label : string) : result string unit :=
  if windows_any bytes_ge paths then Err (label +:+ " are not in canonical byte order") else Ok tt.

Definition validate_canonical_proof_order (proofs : list ApprovedPackageProofV2) : result string unit :=
  if windows_any (λ a b, bytes_ge (pp_proof_id a) (pp_proof_id b)) proofs
  then Err "package proofs are not in canonical proof-id byte order"
  else
    for_each (λ proof,
      if windows_any (λ a b, b <=? a) (pp_criterion_ordinals proof)
      then Err ("proof " +:+ pp_proof_id proof +:+ " criterion ordinals are not canonical")
      else if windows_any bytes_ge (pp_vendor_binding_ids proof)
      then Err ("proof " +:+ pp_proof_id proof +:+ " binding ids are not canonical")
      else Ok tt) proofs.

Definition validate_proof (proof : ApprovedPackageProofV2) (criterion_count : Z) : result string unit :=
  _ ← validate_v2_id (pp_proof_id proof) "package proof id";
  _ ← validate_free_text (pp_expected proof) 4096 "package proof expected";
  let ordinals := pp_criterion_ordinals proof in
  let binding_ids := pp_vendor_binding_ids proof in
  if (ordinals =s []) || (256 <? zlen ordinals)
     || negb (Z.of_nat (size (list_to_set ordinals : gset Z)) =? zlen ordinals)
     || any (λ ordinal, (ordinal =? 0) || (criterion_count <? ordinal)) ordinals
  then Err ("proof " +:+ pp_proof_id proof +:+ " has duplicate, zero, or out-of-range criterion ordinal")
  else if (APPROVED_VENDOR_BINDINGS_V2_MAX <? zlen binding_ids)
     || negb (Z.of_nat (size (list_to_set binding_ids : gset string)) =? zlen binding_ids)
  then Err ("proof " +:+ pp_proof_id proof +:+ " has duplicate or excessive vendor binding ids")
  else
    _ ← for_each (λ id, validate_v2_id id "proof binding id") binding_ids;
    if bool_decide (pp_kind proof = CleanExactPackageTip) && negb (binding_ids =s [])
    then Err ("clean package proof " +:+ pp_proof_id proof +:+ " must have empty vendor binding ids")
    else Ok tt.

(** ** Units *)

Definition criterion_id_of (unit_id : Id) (ordinal : Z) : Id :=
  "AC-" +:+ unit_id +:+ "-" +:+ show_uint ordinal.

Definition check_criterion (u : ApprovedUnit) (entry : Z * (Id * ApprovedCriterion)) : result string unit :=
  let '(ordinal, (criterion_id, criterion)) := entry in
  let expected := criterion_id_of (au_id u) (ordinal + 1) in
  if negb (criterion_id =s expected) || negb (ac_id criterion =s expected)
  then Err ("unit " +:+ au_id u +:+ " has derived criterion id drift")
  else
    _ ← validate_v2_id criterion_id "derived criterion id";
    validate_free_text (ac_text criterion) 4096 "criterion text".

Definition check_dependency (u : ApprovedUnit) (units_by_id : gmap string ApprovedUnit)
    (seen : gset string) (dependency : Id) : result string (gset string) :=
  _ ← validate_v2_unit_id dependency "dependency id";
  if (dependency =s au_id u) || negb (bool_decide (is_Some (units_by_id !! dependency)))
     || bool_decide (dependency ∈ seen)
  then Err ("unit " +:+ au_id u +:+ " has duplicate, self, or unknown dependency")
  else Ok ({[dependency]} ∪ seen).

Definition check_command (command : PlanUnitCommand) : result string unit :=
  _ ← validate_free_text (puc_command command) (16 * 1024) "command";
  _ ← validate_free_text (puc_expected command) 4096 "command expected";
  _ ← validate_free_text (puc_scope_preservation command) 4096 "command scope preservation";
  if 256 <? zlen (puc_generated_paths command) then Err "command generated path count exceeds 256"
  else
    _ ← validate_exact_v2_paths (puc_generated_paths command) true "command generated path";
    validate_plan_unit_command_effect_authority command.

Definition validate_common_approved_unit (u : ApprovedUnit) (index : Z)
    (units_by_id : gmap string ApprovedUnit) : result string unit :=
  _ ← validate_v2_unit_id (au_id u) "unit id";
  order ← (if index + 1 <=? 4294967295 then Ok (index + 1) else Err "V2 operator order overflow");
  if negb (bool_decide (au_kind u = Implementation)) || negb (au_operator_order u =? order)
     || negb (au_package_checks u =s [])
  then Err ("malformed V2 implementation unit " +:+ au_id u)
  else
    _ ← validate_free_text (au_objective u) 4096 "unit objective";
    _ ← validate_id_list (au_decisions u) 1 "unit atom links";
    if (au_criteria u =s []) || (256 <? zlen (au_criteria u))
       || negb (zlen (au_criteria u) =? zlen (au_criterion_text u))
    then Err ("unit " +:+ au_id u +:+ " has malformed V2 criteria")
    else
      _ ← for_each (check_criterion u) (enumerate (zip (au_criteria u) (au_criterion_text u)));
      if 256 <? zlen (au_dependencies u) then Err ("unit " +:+ au_id u +:+ " has too many dependencies")
      else
        _ ← fold_res (check_dependency u units_by_id) ∅ (au_dependencies u);
        let expected_predecessors := map (λ d, "unit-complete:" +:+ d) (au_dependencies u) in
        let expected_release := ["unit:" +:+ au_id u] in
        if negb (au_predecessor_forward_criteria u =s expected_predecessors)
           || negb (au_downstream_release_edges u =s expected_release)
        then Err ("unit " +:+ au_id u +:+ " has derived dependency authority drift")
        else
          _ ← for_each (λ id, validate_v2_id id "derived dependency authority id")
                (expected_predecessors ++ expected_release);
          _ ← validate_exact_v2_paths (au_files u) false "unit file";
          if (au_commands u =s []) || (256 <? zlen (au_commands u))
          then Err ("unit " +:+ au_id u +:+ " has malformed V2 commands")
          else for_each check_command (au_commands u).

(** ** Ownership, vendoring rows and package rows *)

(** A path and the unit it belongs to. *)
Abbreviation owned_path := (Id * string)%type.

Definition own_file (u : ApprovedUnit) (owner_files : list owned_path) (file : Path)
  : result string (list owned_path) :=
  _ ← for_each (λ '(prior_owner, prior),
        if (file =s prior) || path_authority_collides file prior
        then Err ("V2 implementation ownership collision " +:+ file +:+ " (unit " +:+ au_id u +:+
                  ") and " +:+ prior +:+ " (unit " +:+ prior_owner +:+ ")")
        else Ok tt) owner_files;
  Ok (owner_files ++ [(au_id u, file)]).

Definition own_unit (units_by_id : gmap string ApprovedUnit) (owner_files : list owned_path)
    (entry : Z * ApprovedUnit) : result string (list owned_path) :=
  let '(index, u) := entry in
  _ ← validate_common_approved_unit u index units_by_id;
  fold_res (own_file u) owner_files (au_files u).

(** The collections the loop over the vendoring rows fills. *)
Record VendorTables := {
  vt_vendor_rows : gset string;
  vt_binding_ids : gset string;
  vt_total_vendor_bindings : Z;
  vt_destinations : list owned_path;
  vt_manifests : list owned_path;
  vt_origins : list owned_path;
}.

Definition bind_manifest (u : ApprovedUnit) (row : ApprovedUnitVendoringV2) (manifests : list owned_path)
  : result string (list owned_path) :=
  match uv_vendor_bindings row, uv_provenance_manifest_destination row with
  | [], None => Ok manifests
  | [], Some _ => Err "empty vendor bindings require null manifest destination"
  | _, None => Err "nonempty vendor bindings require a manifest destination"
  | _, Some manifest =>
      _ ← validate_v2_path manifest "provenance manifest destination";
      if negb (bool_decide (manifest ∈ au_files u))
      then Err ("unit " +:+ au_id u +:+ " manifest destination is not an exact implementation file")
      else if any (λ '(_, other), other =s manifest) manifests
      then Err ("duplicate provenance manifest destination " +:+ manifest)
      else Ok (manifests ++ [(au_id u, manifest)])
  end.

(** [prior > current] on (destination, origin, id) bytes. *)
Definition triple_gt (a b : ApprovedVendorBindingV2) : bool :=
  match then_with (String.compare (vb_destination a) (vb_destination b))
          (then_with (String.compare (vb_origin_path a) (vb_origin_path b))
             (String.compare (vb_binding_id a) (vb_binding_id b))) with
  | Gt => true
  | _ => false
  end.

Definition vendor_step (u : ApprovedUnit) (acc : option ApprovedVendorBindingV2 * VendorTables)
    (b : ApprovedVendorBindingV2) : result string (option ApprovedVendorBindingV2 * VendorTables) :=
  let '(previous, t) := acc in
  _ ← validate_v2_id (vb_binding_id b) "vendor binding id";
  _ ← validate_v2_path (vb_origin_path b) "vendor origin path";
  _ ← validate_v2_path (vb_destination b) "vendor destination";
  if bool_decide (vb_binding_id b ∈ vt_binding_ids t)
  then Err ("duplicate vendor binding id " +:+ vb_binding_id b)
  else if negb (bool_decide (vb_destination b ∈ au_files u))
  then Err ("unit " +:+ au_id u +:+ " vendor destination is not an exact implementation file")
  else if match previous with Some prior => triple_gt prior b | None => false end
  then Err "vendor bindings are not in canonical destination/origin/id byte order"
  else if any (λ '(_, other), other =s vb_destination b) (vt_destinations t)
  then Err ("duplicate vendor destination " +:+ vb_destination b)
  else Ok (Some b,
    {| vt_vendor_rows := vt_vendor_rows t;
       vt_binding_ids := {[vb_binding_id b]} ∪ vt_binding_ids t;
       vt_total_vendor_bindings := vt_total_vendor_bindings t;
       vt_destinations := vt_destinations t ++ [(au_id u, vb_destination b)];
       vt_manifests := vt_manifests t;
       vt_origins := vt_origins t ++ [(au_id u, vb_origin_path b)] |}).

(** One vendoring row, with the unit at the same index. *)
Definition vendor_row (units_by_id : gmap string ApprovedUnit) (t : VendorTables)
    (entry : ApprovedUnitVendoringV2 * ApprovedUnit) : result string VendorTables :=
  let '(row, at_index) := entry in
  if negb (uv_unit_id row =s au_id at_index)
  then Err "V2 vendoring rows must be in exact unit operator order"
  else
    _ ← validate_v2_unit_id (uv_unit_id row) "vendoring unit id";
    u ← ok_or (units_by_id !! uv_unit_id row) ("vendoring row names unknown unit " +:+ uv_unit_id row);
    if bool_decide (uv_unit_id row ∈ vt_vendor_rows t)
    then Err ("duplicate vendoring row for unit " +:+ uv_unit_id row)
    else if APPROVED_VENDOR_BINDINGS_V2_MAX <? zlen (uv_vendor_bindings row)
    then Err ("vendoring binding count exceeds " +:+ show_uint APPROVED_VENDOR_BINDINGS_V2_MAX)
    else
      total ← ok_or (checked_add 18446744073709551615 (vt_total_vendor_bindings t)
                       (zlen (uv_vendor_bindings row))) "total V2 vendor binding count overflow";
      manifests ← bind_manifest u row (vt_manifests t);
      r ← fold_res (vendor_step u)
            (None, {| vt_vendor_rows := {[uv_unit_id row]} ∪ vt_vendor_rows t;
                      vt_binding_ids := vt_binding_ids t;
                      vt_total_vendor_bindings := total;
                      vt_destinations := vt_destinations t;
                      vt_manifests := manifests;
                      vt_origins := vt_origins t |}) (uv_vendor_bindings row);
      Ok r.2.

Abbreviation owned_proof := (Id * ApprovedPackageProofV2)%type.

Definition package_row (units_by_id : gmap string ApprovedUnit) (acc : gset string * list owned_proof)
    (entry : ApprovedUnitPackageAuthorityV2 * ApprovedUnit)
  : result string (gset string * list owned_proof) :=
  let '(package_rows, proofs) := acc in
  let '(row, at_index) := entry in
  if negb (pa_unit_id row =s au_id at_index)
  then Err "V2 package-authority rows must be in exact unit operator order"
  else
    _ ← validate_v2_unit_id (pa_unit_id row) "package-authority unit id";
    u ← ok_or (units_by_id !! pa_unit_id row) ("package-authority row names unknown unit " +:+ pa_unit_id row);
    if bool_decide (pa_unit_id row ∈ package_rows)
    then Err ("duplicate package-authority row for unit " +:+ pa_unit_id row)
    else
      _ ← validate_exact_v2_paths (pa_package_scope_files row) true "package scope file";
      _ ← validate_canonical_path_order (pa_package_scope_files row) "package scope files";
      _ ← validate_canonical_proof_order (pa_package_proofs row);
      if APPROVED_PACKAGE_PROOFS_V2_MAX <? zlen (pa_package_proofs row)
      then Err ("package proof count exceeds " +:+ show_uint APPROVED_PACKAGE_PROOFS_V2_MAX)
      else
        _ ← for_each (λ proof, validate_proof proof (zlen (au_criterion_text u))) (pa_package_proofs row);
        Ok ({[pa_unit_id row]} ∪ package_rows,
            proofs ++ map (λ proof, (pa_unit_id row, proof)) (pa_package_proofs row)).

(** ** The dependency graph *)

Definition unit_dependencies (units_by_id : gmap string ApprovedUnit) (message : Id → string) (id : Id)
  : result string (list Id) :=
  match units_by_id !! id with
  | Some u => Ok (au_dependencies u)
  | None => Err (message id)
  end.

Definition cycle_message (id : Id) : string := "approved V2 dependency cycle at " +:+ id.
Definition graph_succ (units : list ApprovedUnit) : Id → result string (list Id) :=
  unit_dependencies (by_id units) (λ id, "approved V2 unknown unit " +:+ id).

(** [visit] from every unit.  The path of a search consists of distinct units. *)
Definition validate_approved_graph (units : list ApprovedUnit) : option (result string unit) :=
  match dfs_all cycle_message (graph_succ units) (dfs_fuel (dom (by_id units))) (map au_id units) (∅, ∅) with
  | Some (Ok _) => Some (Ok tt)
  | Some (Err e) => Some (Err e)
  | None => None
  end.

Definition reach_succ (u : ApprovedUnit) (units : list ApprovedUnit) : Id → result string (list Id) :=
  unit_dependencies (by_id units)
    (λ id, "unit " +:+ au_id u +:+ " depends on unknown unit " +:+ id).

(** Every unit is expanded at most once. *)
Definition transitive_dependencies (u : ApprovedUnit) (units : list ApprovedUnit)
  : option (result string (gset string)) :=
  collect (reach_succ u units)
    (collect_fuel (reach_succ u units) (dom (by_id units)) (au_dependencies u)) ∅
    (reverse (au_dependencies u)).

(** ** The closure unit *)

Definition owner_leaves (units : list ApprovedUnit) : list Path := units ≫= au_files.

Definition vendor_proof_check (global_binding_ids : gset string)
    (vendor_proofs : list ApprovedPackageProofV2) : result string unit :=
  match bool_decide (global_binding_ids = ∅), vendor_proofs with
  | true, [] => Ok tt
  | true, _ => Err "vendor proof exists without global vendor bindings"
  | false, [proof] =>
      let ids : gset string := list_to_set (pp_vendor_binding_ids proof) in
      if negb (bool_decide (ids = global_binding_ids))
         || negb (Z.of_nat (size ids) =? zlen (pp_vendor_binding_ids proof))
      then Err "global vendor proof binding ids must exactly equal all vendor bindings"
      else Ok tt
  | false, _ => Err "global vendor bindings require exactly one vendor proof on closure unit"
  end.

(** The rest of the check for the one closure row, which is the first row with
    the closure unit's id. *)
Definition validate_closure_row (units : list ApprovedUnit) (package_rows : list ApprovedUnitPackageAuthorityV2)
    (global_binding_ids : gset string) (closure : ApprovedUnitPackageAuthorityV2) (closure_unit : ApprovedUnit)
  : option (result string unit) :=
  let closure_id := pa_unit_id closure in
  if negb (bool_decide ((list_to_set (pa_package_scope_files closure) : gset string) =
                        list_to_set (owner_leaves units)))
  then Some (Err "closure package scope must exactly equal global implementation owner leaves")
  else if any (λ row, negb (pa_unit_id row =s closure_id) && negb (pa_package_scope_files row =s [])) package_rows
  then Some (Err "every nonclosure package scope must be empty")
  else
    match transitive_dependencies closure_unit units with
    | None => None
    | Some (Err e) => Some (Err e)
    | Some (Ok reachable) =>
        if any (λ u, negb (au_id u =s closure_id) && negb (bool_decide (au_id u ∈ reachable))) units
        then Some (Err ("closure unit " +:+ closure_id +:+ " does not transitively depend on every other unit"))
        else Some (vendor_proof_check global_binding_ids
          (filter (λ proof, pp_kind proof = VendoredBytesMatchOrigin) (pa_package_proofs closure)))
    end.

(** [None] is the panic of an [expect] as well as fuel. *)
Definition validate_closure (units : list ApprovedUnit) (package_rows : list ApprovedUnitPackageAuthorityV2)
    (proofs : list owned_proof) (global_binding_ids : gset string) : option (result string unit) :=
  if (bool_decide (length proofs = 0%nat)) && bool_decide (global_binding_ids = ∅) then
    if any (λ row, negb (pa_package_scope_files row =s [])) package_rows
    then Some (Err "zero-closure V2 maps require every package scope to be empty")
    else Some (Ok tt)
  else
    match map pa_unit_id (List.filter (λ row, negb (bool_decide (length (pa_package_proofs row) = 0%nat))) package_rows) with
    | [closure_id] =>
        match find_first (λ row, pa_unit_id row =s closure_id) package_rows,
              find_first (λ u, au_id u =s closure_id) units with
        | Some closure, Some closure_unit =>
            validate_closure_row units package_rows global_binding_ids closure closure_unit
        | _, _ => None
        end
    | _ => Some (Err "proof or vendor binding requires exactly one closure unit")
    end.

(** ** Collisions *)

Definition collides_any (p : string) (others : list owned_path) : bool :=
  any (λ '(_, other), path_authority_collides p other) others.

Definition generated_paths (units : list ApprovedUnit) : list owned_path :=
  units ≫= λ u, au_commands u ≫= λ command, map (λ p, (au_id u, p)) (puc_generated_paths command).

Definition owner_files_of (units : list ApprovedUnit) : list owned_path :=
  units ≫= λ u, map (λ file, (au_id u, file)) (au_files u).

(** The first loop; [skip(index + 1)] is the rest of the list. *)
Fixpoint check_generated (owner_files : list owned_path) (generated : list owned_path) : result string unit :=
  match generated with
  | [] => Ok tt
  | (_, p) :: rest =>
      if collides_any p owner_files
      then Err ("command generated path " +:+ p +:+ " overlaps implementation owner authority")
      else if collides_any p rest
      then Err ("command generated path " +:+ p +:+ " overlaps another generated path")
      else check_generated owner_files rest
  end.

(** [for (_, other) in others { if collides(p, other) { return Err(..) } }] *)
Definition reject_collisions (p : string) (others : list owned_path) (message : string → string)
  : result string unit :=
  for_each (λ '(_, other), if path_authority_collides p other then Err (message other) else Ok tt) others.

Definition check_unit_collisions (destinations manifests origins : list owned_path) (u : ApprovedUnit)
  : result string unit :=
  _ ← for_each (λ command,
        for_each (λ generated,
          _ ← validate_v2_path generated "command generated path";
          if collides_any generated (origins ++ destinations ++ manifests)
          then Err ("command generated path " +:+ generated +:+
                    " overlaps Core-owned vendor, manifest, or origin path")
          else Ok tt) (puc_generated_paths command)) (au_commands u);
  for_each (λ file,
    _ ← reject_collisions file origins
          (λ origin, "ordinary file " +:+ file +:+ " collides with immutable origin " +:+ origin);
    for_each (λ '(owner, destination),
      if path_authority_collides file destination && negb (owner =s au_id u)
      then Err ("unit " +:+ au_id u +:+ " claims Core-owned destination or manifest " +:+ file +:+
                " owned by unit " +:+ owner)
      else Ok tt) (destinations ++ manifests)) (au_files u).

Definition validate_core_and_origin_collisions (units : list ApprovedUnit)
    (package_rows : list ApprovedUnitPackageAuthorityV2) (destinations manifests origins : list owned_path)
  : result string unit :=
  _ ← check_generated (owner_files_of units) (generated_paths units);
  _ ← for_each (check_unit_collisions destinations manifests origins) units;
  _ ← for_each (λ row, for_each (λ file, reject_collisions file origins
        (λ origin, "package scope file " +:+ file +:+ " collides with immutable origin " +:+ origin))
        (pa_package_scope_files row)) package_rows;
  _ ← for_each (λ '(_, destination),
        _ ← reject_collisions destination origins
              (λ origin, "vendor destination " +:+ destination +:+ " collides with origin " +:+ origin);
        reject_collisions destination manifests
          (λ manifest, "vendor destination " +:+ destination +:+ " collides with provenance manifest " +:+ manifest))
        destinations;
  for_each (λ '(_, manifest), reject_collisions manifest origins
    (λ origin, "provenance manifest " +:+ manifest +:+ " collides with origin " +:+ origin)) manifests.

(** ** The whole check *)

Definition distinct_proof (proof_ids : gset string) (p : owned_proof) : result string (gset string) :=
  if bool_decide (pp_proof_id p.2 ∈ proof_ids)
  then Err ("duplicate package proof id " +:+ pp_proof_id p.2)
  else Ok ({[pp_proof_id p.2]} ∪ proof_ids).

Definition empty_tables : VendorTables :=
  {| vt_vendor_rows := ∅; vt_binding_ids := ∅; vt_total_vendor_bindings := 0; vt_destinations := [];
     vt_manifests := []; vt_origins := [] |}.

(** The part of [validate_approved_v2_authority] before the graph is looked at. *)
Definition authority_tables (units : list ApprovedUnit) (vendoring : list ApprovedUnitVendoringV2)
    (package_authority : list ApprovedUnitPackageAuthorityV2)
  : result string (VendorTables * list owned_proof) :=
  if negb ((1 <=? zlen units) && (zlen units <=? 256))
  then Err ("V2 unit count must be 1..=256, got " +:+ show_uint (zlen units))
  else if negb (zlen vendoring =? zlen units) || negb (zlen package_authority =? zlen units)
  then Err "V2 vendoring and package-authority tables must each have one row per unit"
  else
    let units_by_id := by_id units in
    if negb (Z.of_nat (size units_by_id) =? zlen units) then Err "approved V2 units have duplicate ids"
    else
      _ ← fold_res (own_unit units_by_id) [] (enumerate units);
      t ← fold_res (vendor_row units_by_id) empty_tables (zip vendoring units);
      if negb (Z.of_nat (size (vt_vendor_rows t)) =? zlen units)
      then Err "vendoring rows are not one-to-one with approved units"
      else if APPROVED_VENDOR_BINDINGS_V2_MAX <? vt_total_vendor_bindings t
      then Err ("total vendor bindings exceeds " +:+ show_uint APPROVED_VENDOR_BINDINGS_V2_MAX)
      else
        r ← fold_res (package_row units_by_id) (∅, []) (zip package_authority units);
        if negb (Z.of_nat (size r.1) =? zlen units)
        then Err "package-authority rows are not one-to-one with approved units"
        else if APPROVED_PACKAGE_PROOFS_V2_MAX <? zlen r.2
        then Err ("total package proofs exceeds " +:+ show_uint APPROVED_PACKAGE_PROOFS_V2_MAX)
        else
          _ ← fold_res distinct_proof ∅ r.2;
          Ok (t, r.2).

Definition validate_approved_v2_authority (units : list ApprovedUnit) (vendoring : list ApprovedUnitVendoringV2)
    (package_authority : list ApprovedUnitPackageAuthorityV2) : option (result string unit) :=
  match authority_tables units vendoring package_authority with
  | Err e => Some (Err e)
  | Ok (t, proofs) =>
      match validate_approved_graph units with
      | None => None
      | Some (Err e) => Some (Err e)
      | Some (Ok _) =>
          match validate_closure units package_authority proofs (vt_binding_ids t) with
          | None => None
          | Some (Err e) => Some (Err e)
          | Some (Ok _) =>
              Some (validate_core_and_origin_collisions units package_authority
                      (vt_destinations t) (vt_manifests t) (vt_origins t))
          end
      end
  end.

(** ** A plan that passes *)

Definition v2_command (p : list Path) : PlanUnitCommand :=
  {| puc_command := "cargo test"; puc_expected := "all tests pass";
     puc_effect := match p with [] => NoEffect | _ => DeclaredPredictable end;
     puc_generated_paths := p;
     puc_handling := match p with [] => HandlingNone | _ => ExactCleanupBeforeScopeGate end;
     puc_scope_preservation := "writes nothing else" |}.

Definition v2_unit (id : Id) (order : Z) (deps : list Id) (files : list Path) (generated : list Path) : ApprovedUnit :=
  {| au_id := id; au_kind := Implementation; au_objective := "deliver"; au_operator_order := order;
     au_decisions := ["D-1"]; au_criteria := [criterion_id_of id 1];
     au_criterion_text := [{| ac_id := criterion_id_of id 1; ac_text := "it works" |}];
     au_dependencies := deps; au_predecessor_forward_criteria := map (λ d, "unit-complete:" +:+ d) deps;
     au_downstream_release_edges := ["unit:" +:+ id]; au_files := files;
     au_commands := [v2_command generated]; au_package_checks := [] |}.

Definition v2_units : list ApprovedUnit :=
  [v2_unit "U1" 1 [] ["vendor/a.c"; "vendor/PROVENANCE"] []; v2_unit "U2" 2 ["U1"] ["src/lib.rs"] ["out/report"]].
Definition v2_vendoring : list ApprovedUnitVendoringV2 :=
  [{| uv_unit_id := "U1"; uv_provenance_manifest_destination := Some "vendor/PROVENANCE";
      uv_vendor_bindings := [{| vb_binding_id := "B1"; vb_origin_path := "third_party/a.c";
                                vb_destination := "vendor/a.c" |}] |};
   {| uv_unit_id := "U2"; uv_provenance_manifest_destination := None; uv_vendor_bindings := [] |}].
Definition v2_packages : list ApprovedUnitPackageAuthorityV2 :=
  [{| pa_unit_id := "U1"; pa_package_scope_files := []; pa_package_proofs := [] |};
   {| pa_unit_id := "U2"; pa_package_scope_files := ["src/lib.rs"; "vendor/PROVENANCE"; "vendor/a.c"];
      pa_package_proofs := [{| pp_proof_id := "P1"; pp_kind := VendoredBytesMatchOrigin;
        pp_criterion_ordinals := [1]; pp_expected := "bytes are equal"; pp_vendor_binding_ids := ["B1"] |}] |}].

Example v2_plan_accepted : validate_approved_v2_authority v2_units v2_vendoring v2_packages = Some (Ok tt).
Proof. vm_compute. reflexivity. Qed.

(** ** Readings of the checks *)

(** Two paths that do not collide: different, and none above the other. *)
Definition apart (p q : string) : Prop := path_authority_collides p q = false.

Lemma apart_sym p q : apart p q ↔ apart q p.
Proof. unfold apart. rewrite <- !not_true_iff_false, !collides_above. naive_solver. Qed.

Lemma apart_ne p q : apart p q → p ≠ q.
Proof. unfold apart. rewrite <- not_true_iff_false, collides_above. naive_solver. Qed.

(** Every position of the list is apart from every other. *)
Definition all_apart (l : list string) : Prop := ForallOrdPairs apart l.

Lemma all_apart_NoDup l : all_apart l → NoDup l.
Proof.
  induction 1 as [|p l Hp _ IH]; constructor; [|done].
  intros Hin. rewrite Forall_forall in Hp. by apply (apart_ne p p); [apply Hp|].
Qed.

Lemma all_apart_elem l p q : all_apart l → p ∈ l → q ∈ l → p ≠ q → apart p q.
Proof.
  induction 1 as [|x l Hx _ IH]; [set_solver|]. rewrite Forall_forall in Hx.
  intros [->|Hp]%elem_of_cons [->|Hq]%elem_of_cons Hne; [done|by apply Hx|apply apart_sym; by apply Hx|auto].
Qed.

Lemma all_apart_snoc l p : all_apart l → Forall (apart p) l → all_apart (l ++ [p]).
Proof.
  induction 1 as [|x l Hx Hl IH]; intros Hp; cbn; [by repeat constructor|].
  apply Forall_cons in Hp as [H1 H2]. constructor; [|by apply IH].
  apply Forall_app. split; [done|]. constructor; [by apply apart_sym|done].
Qed.

Lemma reject_collisions_ok p others message u :
  reject_collisions p others message = Ok u → Forall (apart p) others.*2.
Proof.
  unfold reject_collisions. rewrite for_each_ok, Forall_fmap. intros H. eapply Forall_impl; [exact H|].
  intros [o other]. cbn. unfold apart. by destruct (path_authority_collides p other).
Qed.

Lemma collides_any_false p others : collides_any p others = false ↔ Forall (apart p) others.*2.
Proof.
  unfold collides_any. rewrite any_false, Forall_fmap, Forall_forall. split.
  - intros H [o other] Hin. exact (H _ Hin).
  - intros H [o other] Hin. exact (H _ Hin).
Qed.

Lemma collect_distinct_ok check message seen l out :
  fold_res (collect_distinct check message) seen l = Ok out →
  NoDup l ∧ Forall (λ x, check x = Ok tt ∧ x ∉ seen) l ∧ out = list_to_set l ∪ seen.
Proof.
  revert seen. induction l as [|x l IH]; intros seen; cbn.
  { intros [= <-]. split_and!; [constructor|constructor|set_solver]. }
  unfold collect_distinct at 1. destruct (check x) as [[]|] eqn:Hc; [|done].
  case_bool_decide as Hin; [done|]. intros (Hn & Hf & ->)%IH. rewrite Forall_forall in Hf. split_and!.
  - constructor; [|done]. intros Hx. destruct (Hf x Hx). set_solver.
  - constructor; [done|]. apply Forall_forall. intros y Hy. destruct (Hf y Hy). set_solver.
  - set_solver.
Qed.

Lemma v2_path_ok p label u : validate_v2_path p label = Ok u → approved_path_is_safe p = true.
Proof. unfold validate_v2_path. intros H. inv_ok. done. Qed.

Lemma exact_v2_paths_ok paths allow_empty label u :
  validate_exact_v2_paths paths allow_empty label = Ok u →
  exact_files paths ∧ zlen paths ≤ 256 ∧ (allow_empty = false → paths ≠ []).
Proof.
  unfold validate_exact_v2_paths. destruct u. intros H.
  apply guard_ok in H as [He H]. apply guard_ok in H as [Hlen H]. apply bind_ok in H as (exact & Hx & H).
  apply collect_distinct_ok in Hx as (Hn & Hf & ->).
  assert (∀ a d, a ∈ paths → d ∈ paths → ¬ above a d) as Habove.
  { intros a d Ha Hd Hab. rewrite for_each_ok, Forall_forall in H.
    specialize (H d ltac:(apply elem_of_btree_set; set_solver)). rewrite for_each_ok, Forall_forall in H.
    specialize (H a (proj2 (elem_of_ancestors d a) Hab)). apply ensure_ok in H. to_prop. set_solver. }
  split_and!; [split_and!; [done| |]|to_prop; lia|].
  - eapply Forall_impl; [exact Hf|]. intros p [Hp _]. by eapply v2_path_ok.
  - apply (no_collision_above paths (list_to_set paths)); set_solver.
  - intros -> ->. done.
Qed.

Lemma size_list_to_set_NoDup `{Countable A} (l : list A) :
  size (list_to_set l : gset A) = length l → NoDup l.
Proof.
  induction l as [|x l IH]; cbn; [constructor|]. intros Hs.
  assert (∀ k : list A, (size (list_to_set k : gset A) ≤ length k)%nat) as Hle.
  { induction k as [|y k IHk]; cbn; [done|]. pose proof (size_union_alt {[y]} (list_to_set k : gset A)) as Hu.
    rewrite size_singleton in Hu. rewrite Hu.
    assert (size ((list_to_set k : gset A) ∖ {[y]}) ≤ size (list_to_set k : gset A))%nat
      by (apply subseteq_size; set_solver). lia. }
  destruct (decide (x ∈ l)) as [Hx|Hx].
  - exfalso. assert ({[x]} ∪ list_to_set l = (list_to_set l : gset A)) as Heq by set_solver.
    rewrite Heq in Hs. specialize (Hle l). lia.
  - constructor; [done|]. apply IH. rewrite size_union in Hs by set_solver. rewrite size_singleton in Hs. lia.
Qed.

Lemma str_snoc_inj c s s' t t' :
  lacks c t → lacks c t' → s +:+ String c t = s' +:+ String c t' → s = s' ∧ t = t'.
Proof.
  intros Ht Ht'. revert s'. induction s as [|a s IH]; intros [|b s']; cbn; intros Heq.
  - by injection Heq.
  - injection Heq as -> ->. exfalso. apply lacks_app in Ht as [_ Ht]. by apply lacks_cons in Ht as [? _].
  - injection Heq as -> <-. exfalso. apply lacks_app in Ht' as [_ Ht']. by apply lacks_cons in Ht' as [? _].
  - injection Heq as -> Heq. destruct (IH s' Heq) as [-> ->]. done.
Qed.

Lemma criterion_id_inj id id' k k' :
  0 ≤ k ≤ u64_max → 0 ≤ k' ≤ u64_max → criterion_id_of id k = criterion_id_of id' k' → id = id' ∧ k = k'.
Proof.
  intros Hk Hk' Heq. unfold criterion_id_of in Heq. injection Heq as Heq.
  assert (∀ v, 0 ≤ v → lacks (ascii_of_nat 45) (show_uint v)) as Hl.
  { intros v Hv. apply digits_lack; [done|]. by apply show_uint_digits. }
  destruct (str_snoc_inj (ascii_of_nat 45) id id' (show_uint k) (show_uint k')) as [-> Hs];
    [apply Hl; lia..|exact Heq|].
  split; [done|]. assert (Some k = Some k') as [= ->]; [|done].
  rewrite <- (parse_show_uint u64_max k), <- (parse_show_uint u64_max k'), Hs by lia. done.
Qed.

(** *** Units *)

Lemma elem_of_enumerate_from {A} (l : list A) z0 z x :
  (z, x) ∈ enumerate_from z0 l ↔ ∃ i, z = z0 + Z.of_nat i ∧ l !! i = Some x.
Proof.
  revert z0. induction l as [|y l IH]; intros z0; cbn.
  { split; [set_solver|]. intros (i & _ & ?). done. }
  rewrite elem_of_cons, IH. split.
  - intros [[= -> ->]|(i & -> & Hi)]; [exists O|exists (S i)]; (split; [lia|done]).
  - intros ([|i] & -> & Hi); [left; cbn in Hi; simplify_eq; f_equal; lia|right]. exists i. split; [lia|done].
Qed.

Lemma elem_of_enumerate {A} (l : list A) z x :
  (z, x) ∈ enumerate l ↔ ∃ i, z = Z.of_nat i ∧ l !! i = Some x.
Proof. unfold enumerate. rewrite elem_of_enumerate_from. done. Qed.

(** What a unit that passed looks like. *)
Record unit_shape (units_by_id : gmap string ApprovedUnit) (index : Z) (u : ApprovedUnit) : Prop := {
  us_order : au_operator_order u = index + 1;
  us_criteria_count : 1 ≤ zlen (au_criteria u) ≤ 256 ∧ zlen (au_criterion_text u) = zlen (au_criteria u);
  us_criteria : ∀ i c, au_criteria u !! i = Some c → c = criterion_id_of (au_id u) (Z.of_nat i + 1);
  us_dependencies : NoDup (au_dependencies u) ∧
    ∀ d, d ∈ au_dependencies u → d ≠ au_id u ∧ is_Some (units_by_id !! d);
  us_files : au_files u ≠ [] ∧ exact_files (au_files u);
  us_commands : au_commands u ≠ [] ∧
    ∀ c, c ∈ au_commands u → validate_plan_unit_command_effect_authority c = Ok tt;
}.

Lemma dependencies_ok u m seen deps out :
  fold_res (check_dependency u m) seen deps = Ok out →
  NoDup deps ∧ ∀ d, d ∈ deps → d ≠ au_id u ∧ is_Some (m !! d) ∧ d ∉ seen.
Proof.
  revert seen. induction deps as [|d deps IH]; intros seen; cbn; [split; [constructor|set_solver]|].
  destruct (check_dependency u m seen d) as [seen'|] eqn:Hd; [|done]. intros [Hn Hf]%IH.
  unfold check_dependency in Hd. inv_ok. split.
  - constructor; [|done]. intros Hin. destruct (Hf d Hin) as (_ & _ & ?). set_solver.
  - intros d' [->|Hd']%elem_of_cons; [done|]. destruct (Hf d' Hd') as (? & ? & ?). set_solver.
Qed.

Lemma criteria_ok u u' :
  zlen (au_criteria u) = zlen (au_criterion_text u) →
  for_each (check_criterion u) (enumerate (zip (au_criteria u) (au_criterion_text u))) = Ok u' →
  ∀ i c, au_criteria u !! i = Some c → c = criterion_id_of (au_id u) (Z.of_nat i + 1).
Proof.
  unfold zlen. intros Hlen H i c Hc. rewrite for_each_ok, Forall_forall in H.
  destruct (lookup_lt_is_Some_2 (au_criterion_text u) i) as [t Ht].
  { apply lookup_lt_Some in Hc. lia. }
  specialize (H (Z.of_nat i, (c, t))). cbn in H.
  assert (negb (c =s criterion_id_of (au_id u) (Z.of_nat i + 1)) = false).
  { destruct (negb (c =s _)); [|done]. discriminate H. apply elem_of_enumerate. exists i. split; [done|].
    by apply lookup_zip_with_Some; eauto. }
  by to_prop.
Qed.

Lemma common_unit_ok u index m r :
  validate_common_approved_unit u index m = Ok r → unit_shape m index u.
Proof.
  unfold validate_common_approved_unit. intros H. destruct (index + 1 <=? 4294967295); inv_ok.
  repeat match goal with Hx : fold_res (check_dependency _ _) _ _ = Ok _ |- _ => apply dependencies_ok in Hx as [? ?]
    | Hx : validate_exact_v2_paths _ _ _ = Ok _ |- _ => apply exact_v2_paths_ok in Hx as (? & ? & ?) end.
  constructor.
  - lia.
  - split; [|lia]. destruct (au_criteria u); [done|]. unfold zlen in *. cbn [length] in *. lia.
  - eapply criteria_ok; [lia|done].
  - split; [done|naive_solver].
  - auto.
  - split; [done|]. intros c Hc.
    match goal with Hx : for_each check_command _ = Ok _ |- _ => rewrite for_each_ok, Forall_forall in Hx;
      specialize (Hx c Hc) end.
    unfold check_command in *. inv_ok. repeat match goal with x : unit |- _ => destruct x end. done.
Qed.

(** *** Ownership *)

Lemma own_files_ok u files acc out :
  fold_res (own_file u) acc files = Ok out →
  out = acc ++ map (λ file, (au_id u, file)) files ∧ (all_apart acc.*2 → all_apart out.*2).
Proof.
  revert acc. induction files as [|file files IH]; intros acc; cbn [fold_res map].
  { intros [= <-]. rewrite app_nil_r. done. }
  destruct (own_file u acc file) as [acc'|] eqn:Hf; [|done]. intros [-> Hout]%IH.
  unfold own_file in Hf. inv_ok. rewrite <- app_assoc. split; [done|]. rewrite <- app_assoc in Hout.
  intros Hacc. apply Hout. rewrite fmap_app. apply all_apart_snoc; [done|].
  match goal with Hx : for_each _ _ = Ok _ |- _ => rewrite for_each_ok, Forall_forall in Hx; rename Hx into Hall end.
  apply Forall_fmap, Forall_forall. intros [o prior] Hin. specialize (Hall _ Hin). cbn in *. unfold apart.
  destruct (file =s prior); [done|]. by destruct (path_authority_collides file prior).
Qed.

Lemma owner_files_leaves units : (owner_files_of units).*2 = owner_leaves units.
Proof.
  unfold owner_files_of, owner_leaves. induction units as [|u units IH]; [done|].
  rewrite !bind_cons, fmap_app, IH. f_equal. clear. induction (au_files u); cbn; congruence.
Qed.

Lemma own_units_ok m units out :
  fold_res (own_unit m) [] (enumerate units) = Ok out →
  all_apart (owner_leaves units) ∧ ∀ i u, units !! i = Some u → unit_shape m (Z.of_nat i) u.
Proof.
  intros H. rewrite <- owner_files_leaves.
  assert (out = owner_files_of (enumerate units).*2 ∧ all_apart out.*2 ∧
          ∀ z u, (z, u) ∈ enumerate units → unit_shape m z u) as (-> & Ha & Hs).
  { revert H. apply (fold_res_inv _ (λ done acc, acc = owner_files_of done.*2 ∧ all_apart acc.*2 ∧
      ∀ z u, (z, u) ∈ done → unit_shape m z u)).
    - split_and!; [done|constructor|set_solver].
    - intros done [z u] s s' (-> & Ha & Hs) _ Hstep. unfold own_unit in Hstep. inv_ok.
      match goal with Hx : fold_res _ _ _ = Ok _ |- _ => apply own_files_ok in Hx as [-> Hout] end.
      split_and!; [|by apply Hout|].
      + unfold owner_files_of. rewrite fmap_app, bind_app. cbn. by rewrite app_nil_r.
      + intros z' u' [?|[= -> ->]%list_elem_of_singleton]%elem_of_app; [by apply Hs|].
        by eapply common_unit_ok. }
  assert ((enumerate units).*2 = units) as Heq by apply enumerate_from_snd.
  rewrite Heq in Ha. split; [done|]. intros i u Hi. apply Hs, elem_of_enumerate. eauto.
Qed.

(** *** Vendoring rows *)

Definition all_bindings (rows : list ApprovedUnitVendoringV2) : list ApprovedVendorBindingV2 :=
  rows ≫= uv_vendor_bindings.
Definition all_manifests (rows : list ApprovedUnitVendoringV2) : list Path :=
  omap uv_provenance_manifest_destination rows.

(** The collections after some rows. *)
Record tables_of (m : gmap string ApprovedUnit) (rows : list ApprovedUnitVendoringV2) (t : VendorTables) : Prop := {
  to_rows : vt_vendor_rows t = list_to_set (map uv_unit_id rows);
  to_ids : vt_binding_ids t = list_to_set (map vb_binding_id (all_bindings rows));
  to_total : vt_total_vendor_bindings t = zlen (all_bindings rows);
  to_destinations : (vt_destinations t).*2 = map vb_destination (all_bindings rows);
  to_origins : (vt_origins t).*2 = map vb_origin_path (all_bindings rows);
  to_manifests : (vt_manifests t).*2 = all_manifests rows;
  to_ids_distinct : NoDup (map vb_binding_id (all_bindings rows));
  to_destinations_distinct : NoDup (map vb_destination (all_bindings rows));
  to_manifests_distinct : NoDup (all_manifests rows);
  to_owned : ∀ row, row ∈ rows → ∃ u, m !! uv_unit_id row = Some u ∧
    (∀ b, b ∈ uv_vendor_bindings row → vb_destination b ∈ au_files u) ∧
    (∀ p, uv_provenance_manifest_destination row = Some p → p ∈ au_files u) ∧
    (uv_vendor_bindings row = [] ↔ uv_provenance_manifest_destination row = None);
}.

Lemma bind_manifest_ok u row manifests out :
  bind_manifest u row manifests = Ok out →
  out.*2 = manifests.*2 ++ match uv_provenance_manifest_destination row with Some p => [p] | None => [] end ∧
  (NoDup manifests.*2 → NoDup out.*2) ∧
  (∀ p, uv_provenance_manifest_destination row = Some p → p ∈ au_files u) ∧
  (uv_vendor_bindings row = [] ↔ uv_provenance_manifest_destination row = None).
Proof.
  unfold bind_manifest. destruct (uv_vendor_bindings row) as [|b bs], (uv_provenance_manifest_destination row) as [p|];
    intros H; inv_ok.
  - by rewrite app_nil_r.
  - rewrite fmap_app. cbn. split_and!; [done| |naive_solver|done].
    intros Hn. apply NoDup_app. split_and!; [done| |by apply NoDup_singleton].
    intros q Hq Hqp%list_elem_of_singleton. subst q. apply list_elem_of_fmap in Hq as ([o q] & -> & Hq).
    match goal with Hx : any _ _ = false |- _ => rewrite any_false in Hx; specialize (Hx _ Hq) end.
    cbn in *. by to_prop.
Qed.

Lemma NoDup_snoc {A} (l : list A) x : NoDup l → x ∉ l → NoDup (l ++ [x]).
Proof. intros Hl Hx. apply NoDup_app. split_and!; [done|set_solver|by apply NoDup_singleton]. Qed.

(** The collections that the loop over the bindings of a row extends. *)
Lemma vendor_steps_ok u bs acc out :
  fold_res (vendor_step u) acc bs = Ok out →
  let t := acc.2 in let t' := out.2 in
  vt_vendor_rows t' = vt_vendor_rows t ∧ vt_total_vendor_bindings t' = vt_total_vendor_bindings t ∧
  vt_manifests t' = vt_manifests t ∧
  vt_binding_ids t' = list_to_set (map vb_binding_id bs) ∪ vt_binding_ids t ∧
  (vt_destinations t').*2 = (vt_destinations t).*2 ++ map vb_destination bs ∧
  (vt_origins t').*2 = (vt_origins t).*2 ++ map vb_origin_path bs ∧
  NoDup (map vb_binding_id bs) ∧ (∀ b, b ∈ bs → vb_binding_id b ∉ vt_binding_ids t) ∧
  (NoDup (vt_destinations t).*2 → NoDup (vt_destinations t').*2) ∧
  (∀ b, b ∈ bs → vb_destination b ∈ au_files u).
Proof.
  revert acc. induction bs as [|b bs IH]; intros [prev t]; cbn [fold_res map].
  { intros [= <-]. cbn. rewrite !app_nil_r. split_and!; try done; [set_solver|constructor|set_solver..]. }
  destruct (vendor_step u (prev, t) b) as [acc'|] eqn:Hs; [|done]. intros H%IH. clear IH. cbn zeta in H.
  destruct H as (H1 & H2 & H3 & H4 & H5 & H6 & H7 & H8 & H9 & H10).
  unfold vendor_step in Hs. apply bind_ok in Hs as (? & _ & Hs). apply bind_ok in Hs as (? & _ & Hs).
  apply bind_ok in Hs as (? & _ & Hs). apply guard_ok in Hs as [Hid Hs]. apply guard_ok in Hs as [Hfile Hs].
  apply guard_ok in Hs as [_ Hs]. apply guard_ok in Hs as [Hdest Hs]. injection Hs as <-.
  cbn [snd fst vt_vendor_rows vt_total_vendor_bindings vt_manifests vt_binding_ids vt_destinations vt_origins] in *.
  to_prop. rewrite any_false in Hdest. rewrite fmap_app in H5, H6, H9. cbn in H5, H6, H9. rewrite <- app_assoc in H5, H6.
  split_and!; [done|done|done|set_solver|done|done| |set_solver| |set_solver].
  - constructor; [|done]. intros (b' & Hb & Hin)%list_elem_of_fmap. apply (H8 b' Hin). set_solver.
  - intros Hn. apply H9, NoDup_snoc; [done|].
    intros ([o d] & Heq & Hin)%list_elem_of_fmap. specialize (Hdest _ Hin). cbn in *. to_prop. congruence.
Qed.

Lemma vendor_row_ok m rows t row at_index t' :
  tables_of m rows t → vendor_row m t (row, at_index) = Ok t' →
  tables_of m (rows ++ [row]) t' ∧ uv_unit_id row = au_id at_index.
Proof.
  intros [] H. unfold vendor_row in H.
  apply guard_ok in H as [Hid H]. apply bind_ok in H as (? & _ & H). apply bind_ok in H as (u & Hu & H).
  apply ok_or_ok in Hu. apply guard_ok in H as [Hrow H]. apply guard_ok in H as [_ H].
  apply bind_ok in H as (total & Htot & H). apply ok_or_ok, checked_add_some in Htot as [-> _].
  apply bind_ok in H as (manifests & Hm & H). apply bind_ok in H as (out & Hv & H). injection H as <-.
  to_prop. split; [|done]. apply bind_manifest_ok in Hm as (Hm1 & Hm2 & Hm3 & Hm4).
  apply vendor_steps_ok in Hv as (H1 & H2 & H3 & H4 & H5 & H6 & H7 & H8 & H9 & H10). cbn in *.
  assert (all_bindings (rows ++ [row]) = all_bindings rows ++ uv_vendor_bindings row) as Hb.
  { unfold all_bindings. rewrite bind_app. cbn. by rewrite app_nil_r. }
  assert (all_manifests (rows ++ [row]) = all_manifests rows ++
    match uv_provenance_manifest_destination row with Some p => [p] | None => [] end) as Hman.
  { unfold all_manifests. rewrite omap_app. cbn. by destruct (uv_provenance_manifest_destination row). }
  constructor; rewrite ?Hb, ?Hman, ?map_app, ?H1, ?H2, ?H3, ?H4, ?H5, ?H6; cbn.
  - rewrite to_rows0, list_to_set_app_L. cbn. set_solver.
  - rewrite to_ids0, list_to_set_app_L. set_solver.
  - rewrite to_total0, zlen_app. done.
  - congruence.
  - congruence.
  - congruence.
  - apply NoDup_app. split_and!; [done| |done]. intros y Hy (b & -> & Hin)%list_elem_of_fmap.
    apply (H8 b Hin). rewrite to_ids0. set_solver.
  - rewrite <- to_destinations0, <- H5. apply H9. by rewrite to_destinations0.
  - rewrite <- to_manifests0, <- Hm1. apply Hm2. by rewrite to_manifests0.
  - intros r [Hr|Hr%list_elem_of_singleton]%elem_of_app; [by apply to_owned0|]. subst r. exists u. done.
Qed.

Lemma tables_of_nil m : tables_of m [] empty_tables.
Proof. constructor; cbn; try done; [constructor..|set_solver]. Qed.

Lemma vendor_rows_ok m vendoring units t :
  length vendoring = length units →
  fold_res (vendor_row m) empty_tables (zip vendoring units) = Ok t →
  tables_of m vendoring t ∧ map uv_unit_id vendoring = map au_id units.
Proof.
  intros Hlen H.
  assert (tables_of m (zip vendoring units).*1 t ∧
          map uv_unit_id (zip vendoring units).*1 = map au_id (zip vendoring units).*2) as Hr.
  { revert H. apply (fold_res_inv _ (λ done t, tables_of m done.*1 t ∧ map uv_unit_id done.*1 = map au_id done.*2)).
    - split; [apply tables_of_nil|done].
    - intros pre [row at_index] s s' [Ht Heq] _ Hstep.
      apply (vendor_row_ok m pre.*1) in Hstep as [Ht' Hid]; [|done].
      rewrite !fmap_app. cbn. split; [done|]. f_equal; [exact Heq|by rewrite Hid]. }
  by rewrite fst_zip, snd_zip in Hr by lia.
Qed.

(** *** Package rows *)

Definition all_proofs (rows : list ApprovedUnitPackageAuthorityV2) : list owned_proof :=
  rows ≫= λ row, map (λ proof, (pa_unit_id row, proof)) (pa_package_proofs row).

(** A proof names criteria of its unit, each once, and bindings only when it
    compares vendored bytes. *)
Record proof_shape (criterion_count : Z) (p : ApprovedPackageProofV2) : Prop := {
  ps_ordinals : pp_criterion_ordinals p ≠ [] ∧ NoDup (pp_criterion_ordinals p) ∧
    ∀ o, o ∈ pp_criterion_ordinals p → o ≠ 0 ∧ o ≤ criterion_count;
  ps_bindings : NoDup (pp_vendor_binding_ids p) ∧ zlen (pp_vendor_binding_ids p) ≤ 128;
  ps_clean : pp_kind p = CleanExactPackageTip → pp_vendor_binding_ids p = [];
}.

Lemma validate_proof_ok p count u : validate_proof p count = Ok u → proof_shape count p.
Proof.
  unfold validate_proof. intros H. inv_ok.
  match goal with Hx : any _ _ = false |- _ => rewrite any_false in Hx; rename Hx into Hord end.
  constructor.
  - split_and!; [done|apply size_list_to_set_NoDup; unfold zlen in *; lia|].
    intros o Ho. specialize (Hord o Ho). cbn in Hord. to_prop. done.
  - unfold APPROVED_VENDOR_BINDINGS_V2_MAX in *.
    split; [apply size_list_to_set_NoDup; unfold zlen in *; lia|lia].
  - intros Hk. rewrite bool_decide_true in * by done. cbn in *. by to_prop.
Qed.

Record packages_of (m : gmap string ApprovedUnit) (rows : list ApprovedUnitPackageAuthorityV2)
    (acc : gset string * list owned_proof) : Prop := {
  po_rows : acc.1 = list_to_set (map pa_unit_id rows);
  po_proofs : acc.2 = all_proofs rows;
  po_shapes : ∀ row, row ∈ rows → ∃ u, m !! pa_unit_id row = Some u ∧
    exact_files (pa_package_scope_files row) ∧
    ∀ p, p ∈ pa_package_proofs row → proof_shape (zlen (au_criterion_text u)) p;
}.

Lemma package_row_ok m rows acc row at_index acc' :
  packages_of m rows acc → package_row m acc (row, at_index) = Ok acc' →
  packages_of m (rows ++ [row]) acc' ∧ pa_unit_id row = au_id at_index.
Proof.
  intros [] H. destruct acc as [ids proofs]. unfold package_row in H.
  apply guard_ok in H as [Hid H]. apply bind_ok in H as (? & _ & H). apply bind_ok in H as (u & Hu & H).
  apply ok_or_ok in Hu. apply guard_ok in H as [Hrow H]. apply bind_ok in H as (? & Hscope & H).
  apply bind_ok in H as (? & _ & H). apply bind_ok in H as (? & _ & H). apply guard_ok in H as [_ H].
  apply bind_ok in H as (? & Hproofs & H). injection H as <-. to_prop. split; [|done].
  apply exact_v2_paths_ok in Hscope as (Hscope & _ & _). rewrite for_each_ok, Forall_forall in Hproofs.
  cbn in *. constructor; cbn.
  - rewrite map_app, list_to_set_app_L, po_rows0. cbn. set_solver.
  - rewrite po_proofs0. unfold all_proofs. rewrite bind_app. cbn. by rewrite app_nil_r.
  - intros r [Hr|Hr%list_elem_of_singleton]%elem_of_app; [by apply po_shapes0|]. subst r.
    exists u. split_and!; [done|done|]. intros p Hp. by eapply validate_proof_ok, Hproofs.
Qed.

Lemma package_rows_ok m packages units acc :
  length packages = length units →
  fold_res (package_row m) (∅, []) (zip packages units) = Ok acc →
  packages_of m packages acc ∧ map pa_unit_id packages = map au_id units.
Proof.
  intros Hlen H.
  assert (packages_of m (zip packages units).*1 acc ∧
          map pa_unit_id (zip packages units).*1 = map au_id (zip packages units).*2) as Hr.
  { revert H. apply (fold_res_inv _ (λ pre t, packages_of m pre.*1 t ∧ map pa_unit_id pre.*1 = map au_id pre.*2)).
    - split; [constructor; cbn; done || set_solver|done].
    - intros pre [row at_index] s s' [Ht Heq] _ Hstep.
      apply (package_row_ok m pre.*1) in Hstep as [Ht' Hid]; [|done].
      rewrite !fmap_app. cbn. split; [done|]. f_equal; [exact Heq|by rewrite Hid]. }
  by rewrite fst_zip, snd_zip in Hr by lia.
Qed.

Lemma distinct_proofs_ok proofs seen out :
  fold_res distinct_proof seen proofs = Ok out →
  NoDup (map (λ p : owned_proof, pp_proof_id p.2) proofs) ∧ ∀ p, p ∈ proofs → pp_proof_id p.2 ∉ seen.
Proof.
  revert seen. induction proofs as [|p proofs IH]; intros seen; cbn; [split; [constructor|set_solver]|].
  unfold distinct_proof at 1. case_bool_decide as Hin; [done|]. intros [Hn Hf]%IH. split.
  - constructor; [|done]. intros (q & Hq & Hin')%list_elem_of_fmap. apply (Hf q Hin'). set_solver.
  - intros q [->|Hq]%elem_of_cons; [done|]. specialize (Hf q Hq). set_solver.
Qed.

(** *** The dependency graph *)

Definition depends (units : list ApprovedUnit) (a b : Id) : Prop :=
  ∃ u, u ∈ units ∧ au_id u = a ∧ b ∈ au_dependencies u.

Lemma by_id_elem units id u : by_id units !! id = Some u → u ∈ units ∧ au_id u = id.
Proof.
  unfold by_id. induction units as [|v units IH] using rev_ind; [done|]. rewrite fold_left_app. cbn.
  intros [[<- <-]|[_ [? ?]%IH]]%lookup_insert_Some; set_solver.
Qed.

Section Graph_facts.
Context (units : list ApprovedUnit) (ids_distinct : NoDup (map au_id units)).

Lemma by_id_dom : dom (by_id units) = list_to_set (map au_id units).
Proof.
  apply set_eq. intros id. rewrite elem_of_dom, by_id_lookup, elem_of_list_to_set. done.
Qed.

Lemma unit_by_id u : u ∈ units → by_id units !! au_id u = Some u.
Proof.
  intros Hu. destruct (by_id units !! au_id u) as [v|] eqn:Hv.
  - apply by_id_elem in Hv as [Hin Heq]. f_equal.
    apply list_elem_of_lookup in Hu as [i Hi], Hin as [j Hj].
    assert (i = j) as ->; [|congruence].
    eapply (NoDup_lookup (map au_id units)); [done|apply list_lookup_fmap_Some; eauto..].
  - exfalso. apply eq_None_not_Some in Hv. apply Hv, by_id_lookup. by apply list_elem_of_fmap_2.
Qed.

Lemma edge_depends message a b : Graph.edge (unit_dependencies (by_id units) message) a b ↔ depends units a b.
Proof.
  unfold Graph.edge, unit_dependencies, depends. split.
  - intros (next & Hn & Hb). destruct (by_id units !! a) as [u|] eqn:Hu; [|done].
    injection Hn as <-. apply by_id_elem in Hu as [? ?]. eauto.
  - intros (u & Hu & <- & Hb). rewrite unit_by_id by done. eauto.
Qed.

Lemma edge_known message a b : Graph.edge (unit_dependencies (by_id units) message) a b → a ∈ dom (by_id units).
Proof.
  intros (next & Hn & _). unfold unit_dependencies in Hn. apply elem_of_dom.
  destruct (by_id units !! a); [eauto|done].
Qed.

Lemma approved_graph_ok :
  match validate_approved_graph units with
  | None => False
  | Some (Ok _) => ∀ id, ¬ tc (depends units) id id
  | Some (Err _) => True
  end.
Proof.
  unfold validate_approved_graph, graph_succ. set (msg := λ id, "approved V2 unknown unit " +:+ id).
  pose proof (dfs_all_spec cycle_message _ _ (edge_known msg) (map au_id units) ∅ (finished_empty _)) as H.
  destruct (dfs_all _ _ _ _ _) as [[[vis fin]|e]|]; [|done|done].
  destruct H as (_ & [_ Hac] & Hall). intros id Hcyc. apply (Hac id).
  - apply Hall. inversion Hcyc as [? ? (u & ? & <- & _)|? ? ? (u & ? & <- & _)]; by apply list_elem_of_fmap_2.
  - revert Hcyc. apply (tc_congruence (λ x, x)). intros ? ?. apply edge_depends.
Qed.

Lemma transitive_ok u :
  match transitive_dependencies u units with
  | None => False
  | Some (Err _) => True
  | Some (Ok out) => ∀ b, b ∈ out ↔ ∃ a, a ∈ au_dependencies u ∧ rtc (depends units) a b
  end.
Proof.
  unfold transitive_dependencies, reach_succ.
  set (msg := λ id, "unit " +:+ au_id u +:+ " depends on unknown unit " +:+ id).
  set (succ := unit_dependencies (by_id units) msg).
  pose proof (collect_spec succ _ (edge_known msg)
    (collect_fuel succ (dom (by_id units)) (au_dependencies u)) ∅ (reverse (au_dependencies u))) as H.
  destruct (collect _ _ _ _) as [[out|e]|]; [|done|].
  2: { apply H; [|set_solver]. unfold collect_fuel. rewrite length_reverse. lia. }
  destruct H as (_ & Htodo & Hclosed & Hreach); [unfold collect_fuel; rewrite length_reverse; lia|set_solver|].
  intros b. split.
  - intros Hb. destruct (Hreach b Hb) as [?|(a & Ha & Hab)]; [set_solver|]. exists a. split.
    + by apply elem_of_reverse.
    + revert Hab. apply (rtc_congruence (λ x, x)). intros ? ?. apply edge_depends.
  - intros (a & Ha & Hab). assert (a ∈ out) as Hout by (apply Htodo; by apply elem_of_reverse).
    clear Ha. induction Hab as [|x y z Hxy _ IH]; [done|]. apply IH. eapply Hclosed; [done|].
    by apply edge_depends.
Qed.
End Graph_facts.

(** *** The closure unit *)

(** What vendor proofs the closure unit has: none without bindings, otherwise
    one that names every binding exactly once. *)
Definition vendor_proved (bindings : gset string) (proofs : list ApprovedPackageProofV2) : Prop :=
  let vendor_proofs := filter (λ p, pp_kind p = VendoredBytesMatchOrigin) proofs in
  (bindings = ∅ ∧ vendor_proofs = []) ∨
  ∃ p, vendor_proofs = [p] ∧ NoDup (pp_vendor_binding_ids p) ∧
       ∀ id, id ∈ pp_vendor_binding_ids p ↔ id ∈ bindings.

(** One unit proves the package: it comes after every other unit, its scope is
    every owned file, and the other units have neither scope nor proofs. *)
Record closure_unit (units : list ApprovedUnit) (packages : list ApprovedUnitPackageAuthorityV2)
    (bindings : gset string) (row : ApprovedUnitPackageAuthorityV2) (u : ApprovedUnit) : Prop := {
  cu_unit : u ∈ units ∧ pa_unit_id row = au_id u;
  cu_row : row ∈ packages ∧ pa_package_proofs row ≠ [];
  cu_alone : ∀ r, r ∈ packages → pa_unit_id r ≠ au_id u →
    pa_package_proofs r = [] ∧ pa_package_scope_files r = [];
  cu_scope : ∀ p, p ∈ pa_package_scope_files row ↔ p ∈ owner_leaves units;
  cu_last : ∀ v, v ∈ units → au_id v ≠ au_id u → tc (depends units) (au_id u) (au_id v);
  cu_vendor : vendor_proved bindings (pa_package_proofs row);
}.

Definition closed_package (units : list ApprovedUnit) (packages : list ApprovedUnitPackageAuthorityV2)
    (bindings : gset string) : Prop :=
  (all_proofs packages = [] ∧ bindings = ∅ ∧ Forall (λ r, pa_package_scope_files r = []) packages) ∨
  ∃ row u, closure_unit units packages bindings row u.

Lemma vendor_proof_check_ok bindings proofs u :
  vendor_proof_check bindings (filter (λ p, pp_kind p = VendoredBytesMatchOrigin) proofs) = Ok u →
  vendor_proved bindings proofs.
Proof.
  unfold vendor_proof_check, vendor_proved. case_bool_decide as He.
  - destruct (filter _ _); [by left|done].
  - destruct (filter _ _) as [|p [|q l]]; [done| |done]. intros H. inv_ok. right. exists p. split_and!; [done| |].
    + apply size_list_to_set_NoDup. unfold zlen in *. lia.
    + set_solver.
Qed.

(** A list whose filtered part is one element. *)
Lemma filter_one {A B} (key : A → B) (p : A → bool) l k :
  map key (List.filter p l) = [k] → ∀ x, x ∈ l → key x ≠ k → p x = false.
Proof.
  intros Hf x Hx Hk. destruct (p x) eqn:Hp; [|done]. exfalso. apply Hk.
  assert (key x ∈ map key (List.filter p l)) as Hin.
  { apply list_elem_of_fmap_2, list_elem_of_In, filter_In. by rewrite <- list_elem_of_In. }
  rewrite Hf in Hin. by apply list_elem_of_singleton in Hin.
Qed.

Lemma closure_row_ok units packages bindings row u r :
  NoDup (map au_id units) → u ∈ units → au_id u = pa_unit_id row → row ∈ packages →
  (∀ r, r ∈ packages → pa_unit_id r ≠ pa_unit_id row → pa_package_proofs r = []) →
  pa_package_proofs row ≠ [] →
  validate_closure_row units packages bindings row u = Some (Ok r) →
  closure_unit units packages bindings row u.
Proof.
  intros Hn Hu Hid Hrow Hothers Hne H. unfold validate_closure_row in H.
  case_bool_decide as Hscope; [|done]. cbn [negb] in H.
  destruct (any _ packages) eqn:Hempty; [done|]. rewrite any_false in Hempty.
  pose proof (transitive_ok units Hn u) as Ht.
  destruct (transitive_dependencies u units) as [[out|]|]; [|done|done].
  destruct (any _ units) eqn:Hall; [done|]. rewrite any_false in Hall. injection H as H.
  constructor; rewrite ?Hid; try done.
  - intros r' Hr Hne'. split; [by apply Hothers|]. specialize (Hempty r' Hr). cbn in Hempty.
    rewrite (bool_decide_false (pa_unit_id r' = pa_unit_id row)) in Hempty by done. cbn in Hempty. by to_prop.
  - set_solver.
  - intros v Hv Hvne. specialize (Hall v Hv). cbn in Hall.
    rewrite (bool_decide_false (au_id v = pa_unit_id row)) in Hall by done. cbn in Hall. to_prop.
    apply Ht in Hall as (a & Ha & Hab). eapply tc_rtc_r; [|exact Hab]. apply tc_once. exists u. done.
  - by eapply vendor_proof_check_ok.
Qed.

Lemma closure_ok units packages bindings r :
  NoDup (map au_id units) → map pa_unit_id packages = map au_id units →
  validate_closure units packages (all_proofs packages) bindings = Some (Ok r) →
  closed_package units packages bindings.
Proof.
  intros Hn Hrows H. unfold validate_closure in H. case_bool_decide as Hp.
  - case_bool_decide as Hb; cbn in H.
    + left. destruct (any _ packages) eqn:Hs; [done|]. rewrite any_false in Hs. split_and!; [|done|].
      * by destruct (all_proofs packages).
      * apply Forall_forall. intros x Hx. specialize (Hs x Hx). cbn in Hs. by to_prop.
    + exfalso. assert (List.filter (λ row, negb (bool_decide (length (pa_package_proofs row) = 0%nat))) packages = [])
        as Hnone; [|by rewrite Hnone in H].
      apply elem_of_nil_inv. intros x [Hx Hpx]%list_elem_of_In%filter_In.
      apply list_elem_of_In in Hx. to_prop. apply Hpx. clear -Hp Hx. unfold all_proofs in Hp.
      destruct (pa_package_proofs x) as [|p ps] eqn:Hps; [done|]. exfalso.
      assert ((pa_unit_id x, p) ∈ (packages ≫= λ row, map (λ proof, (pa_unit_id row, proof)) (pa_package_proofs row)))
        as Hin; [|destruct (packages ≫= _); [set_solver|done]].
      apply list_elem_of_bind. exists x. rewrite Hps. split; [by left|done].
  - cbn in H. revert H. destruct (map pa_unit_id (List.filter _ _)) as [|id [|? ?]] eqn:Hone; [done| |done].
    destruct (find_first _ packages) as [row|] eqn:Hrow; [|done].
    destruct (find_first _ units) as [u|] eqn:Hu; [|done]. intros H.
    apply find_first_some in Hrow as [Hrow Hrid], Hu as [Hu Huid]. to_prop. right. exists row, u.
    assert (NoDup (map pa_unit_id packages)) as Hnp by by rewrite Hrows.
    eapply closure_row_ok; [done|done|congruence|done| | |exact H].
    + intros x Hx Hne. pose proof (filter_one _ _ _ _ Hone x Hx ltac:(congruence)) as Hf. cbn in Hf. to_prop.
      by apply length_zero_iff_nil in Hf.
    + assert (id ∈ map pa_unit_id (List.filter
        (λ row, negb (bool_decide (length (pa_package_proofs row) = 0%nat))) packages)) as Hid by (rewrite Hone; set_solver).
      apply list_elem_of_fmap in Hid as (x & -> & [Hx Hpx]%list_elem_of_In%filter_In).
      apply list_elem_of_In in Hx. to_prop. intros Hempty. apply Hpx.
      assert (x = row) as ->; [|by rewrite Hempty].
      apply list_elem_of_lookup in Hx as [i Hi], Hrow as [j Hj].
      assert (i = j) as ->; [|congruence].
      eapply (NoDup_lookup (map pa_unit_id packages)); [done|apply list_lookup_fmap_Some; exists x; done|].
      apply list_lookup_fmap_Some. exists row. by rewrite Hrid.
Qed.

Lemma closure_total units packages proofs bindings :
  NoDup (map au_id units) → map pa_unit_id packages = map au_id units →
  is_Some (validate_closure units packages proofs bindings).
Proof.
  intros Hn Hrows. unfold validate_closure. destruct (_ && _); [destruct (any _ _); eauto|].
  destruct (map pa_unit_id (List.filter _ _)) as [|id [|? ?]] eqn:Hone; [eauto| |eauto].
  assert (id ∈ map pa_unit_id packages) as Hid.
  { assert (id ∈ [id]) as H by set_solver. rewrite <- Hone in H. apply list_elem_of_fmap in H as (x & -> & Hx).
    apply list_elem_of_fmap_2. apply list_elem_of_In, filter_In in Hx as [Hx _]. by apply list_elem_of_In. }
  assert (∀ {A} (key : A → Id) (l : list A), id ∈ map key l → ∃ x, find_first (λ y, key y =s id) l = Some x) as Hfind.
  { intros A key l (x & Hk & Hx)%list_elem_of_fmap. destruct (find_first _ l) as [y|] eqn:Hf; [eauto|].
    apply find_first_none with (x := x) in Hf; [|done]. to_prop. congruence. }
  destruct (Hfind _ pa_unit_id packages Hid) as [row ->].
  destruct (Hfind _ au_id units ltac:(by rewrite <- Hrows)) as [u ->].
  unfold validate_closure_row. destruct (negb _); [eauto|]. destruct (any _ _); [eauto|].
  pose proof (transitive_ok units Hn u) as Ht. destruct (transitive_dependencies u units) as [[out|]|]; [|eauto|done].
  destruct (any _ units); eauto.
Qed.

(** *** Collisions *)

Definition generated_leaves (units : list ApprovedUnit) : list Path :=
  units ≫= λ u, au_commands u ≫= puc_generated_paths.

(** What commands generate, what units own and what is vendored stay apart, and
    the origins are written by nobody. *)
Record separated (units : list ApprovedUnit) (packages : list ApprovedUnitPackageAuthorityV2)
    (destinations manifests origins : list Path) : Prop := {
  se_generated : all_apart (generated_leaves units);
  se_generated_owned : ∀ g p, g ∈ generated_leaves units → p ∈ owner_leaves units → apart g p;
  se_generated_vendor : ∀ g p, g ∈ generated_leaves units → p ∈ origins ++ destinations ++ manifests → apart g p;
  se_owned_origin : ∀ p o, p ∈ owner_leaves units → o ∈ origins → apart p o;
  se_scope_origin : ∀ row p o, row ∈ packages → p ∈ pa_package_scope_files row → o ∈ origins → apart p o;
  se_destination_origin : ∀ d o, d ∈ destinations → o ∈ origins → apart d o;
  se_destination_manifest : ∀ d q, d ∈ destinations → q ∈ manifests → apart d q;
  se_manifest_origin : ∀ q o, q ∈ manifests → o ∈ origins → apart q o;
}.

Lemma generated_leaves_of units : (generated_paths units).*2 = generated_leaves units.
Proof.
  unfold generated_paths, generated_leaves. induction units as [|u units IH]; [done|].
  rewrite !bind_cons, fmap_app, IH. f_equal. clear. induction (au_commands u) as [|c cs IH]; [done|].
  rewrite !bind_cons, fmap_app, IH. f_equal. induction (puc_generated_paths c); cbn; congruence.
Qed.

Lemma check_generated_ok owner_files generated u :
  check_generated owner_files generated = Ok u →
  all_apart generated.*2 ∧ ∀ g p, g ∈ generated.*2 → p ∈ owner_files.*2 → apart g p.
Proof.
  induction generated as [|[o g] rest IH]; cbn; [split; [constructor|set_solver]|].
  destruct (collides_any g owner_files) eqn:H1; [done|]. destruct (collides_any g rest) eqn:H2; [done|].
  apply collides_any_false in H1, H2. intros [Ha Ho]%IH. split; [by constructor|].
  rewrite Forall_forall in H1. intros x p [->|Hx]%elem_of_cons Hp; [by apply H1|by apply Ho].
Qed.

Lemma unit_collisions_ok dests manifests origins u r :
  check_unit_collisions dests manifests origins u = Ok r →
  (∀ g p, g ∈ (au_commands u ≫= puc_generated_paths) → p ∈ (origins ++ dests ++ manifests).*2 → apart g p) ∧
  (∀ p o, p ∈ au_files u → o ∈ origins.*2 → apart p o).
Proof.
  unfold check_unit_collisions. intros H. apply bind_ok in H as (? & Hg & Hf).
  rewrite for_each_ok, Forall_forall in Hg. rewrite for_each_ok, Forall_forall in Hf. split.
  - intros g p (c & Hgc & Hc)%list_elem_of_bind Hp. specialize (Hg c Hc).
    rewrite for_each_ok, Forall_forall in Hg. specialize (Hg g Hgc). inv_ok.
    match goal with Hx : collides_any _ _ = false |- _ => apply collides_any_false in Hx;
      rewrite Forall_forall in Hx; by apply Hx end.
  - intros p o Hp Ho. specialize (Hf p Hp). apply bind_ok in Hf as (? & Hr & _).
    apply reject_collisions_ok in Hr. rewrite Forall_forall in Hr. by apply Hr.
Qed.

Lemma collisions_ok units packages dests manifests origins r :
  validate_core_and_origin_collisions units packages dests manifests origins = Ok r →
  separated units packages dests.*2 manifests.*2 origins.*2.
Proof.
  unfold validate_core_and_origin_collisions. intros H.
  apply bind_ok in H as (? & Hgen & H). apply bind_ok in H as (? & Hunit & H).
  apply bind_ok in H as (? & Hscope & H). apply bind_ok in H as (? & Hdest & Hman).
  apply check_generated_ok in Hgen as [Hga Hgo].
  rewrite generated_leaves_of in Hga, Hgo. rewrite owner_files_leaves in Hgo.
  rewrite for_each_ok, Forall_forall in Hunit. rewrite for_each_ok, Forall_forall in Hscope.
  rewrite for_each_ok, Forall_forall in Hdest. rewrite for_each_ok, Forall_forall in Hman.
  assert (∀ p o msg u, o ∈ origins.*2 → reject_collisions p origins msg = Ok u → apart p o) as Horigin.
  { intros p o msg u Ho Hr%reject_collisions_ok. rewrite Forall_forall in Hr. by apply Hr. }
  constructor; [done|done|..].
  - intros g p (u & Hg & Hu)%list_elem_of_bind. rewrite <- !fmap_app. intros Hp.
    specialize (Hunit u Hu). apply unit_collisions_ok in Hunit as [Hx _]. by apply Hx.
  - intros p o (u & Hp & Hu)%list_elem_of_bind Ho.
    specialize (Hunit u Hu). apply unit_collisions_ok in Hunit as [_ Hx]. by apply Hx.
  - intros row p o Hrow Hp Ho. specialize (Hscope row Hrow). rewrite for_each_ok, Forall_forall in Hscope.
    by eapply Horigin, Hscope.
  - intros d o ([i d'] & -> & Hd)%list_elem_of_fmap Ho. specialize (Hdest _ Hd). cbn in Hdest.
    apply bind_ok in Hdest as (? & Hx & _). by eapply Horigin.
  - intros d q ([i d'] & -> & Hd)%list_elem_of_fmap Hq. specialize (Hdest _ Hd). cbn in Hdest.
    apply bind_ok in Hdest as (? & _ & Hx%reject_collisions_ok). rewrite Forall_forall in Hx. by apply Hx.
  - intros q o ([i q'] & -> & Hq)%list_elem_of_fmap Ho. specialize (Hman _ Hq). cbn in Hman.
    by eapply Horigin.
Qed.

(** ** What an accepted plan is *)

Lemma criteria_distinct m units :
  NoDup (map au_id units) → (∀ i u, units !! i = Some u → unit_shape m (Z.of_nat i) u) →
  NoDup (units ≫= au_criteria).
Proof.
  intros Hn Hs.
  assert (∀ u, u ∈ units → ∀ i c, au_criteria u !! i = Some c →
    c = criterion_id_of (au_id u) (Z.of_nat i + 1) ∧ 0 ≤ Z.of_nat i + 1 ≤ u64_max) as Hc.
  { intros u [j Hj]%list_elem_of_lookup i c Hi. destruct (Hs j u Hj) as [_ Hcount Hcs _ _ _].
    split; [by apply Hcs|]. apply lookup_lt_Some in Hi. unfold zlen, u64_max in *. lia. }
  apply NoDup_bind; [| |by eapply NoDup_fmap_1].
  - intros u v c Hu Hv [i Hi]%list_elem_of_lookup [j Hj]%list_elem_of_lookup.
    destruct (Hc u Hu i c Hi) as [-> ?], (Hc v Hv j _ Hj) as [Heq ?].
    apply criterion_id_inj in Heq as [Heq _]; [|done..].
    pose proof (unit_by_id units Hn u Hu) as H1. rewrite Heq, (unit_by_id units Hn v Hv) in H1. congruence.
  - intros u Hu. apply NoDup_alt. intros i j c Hi Hj.
    destruct (Hc u Hu i c Hi) as [-> ?], (Hc u Hu j _ Hj) as [Heq ?].
    apply criterion_id_inj in Heq as [_ ?]; [|done..]. lia.
Qed.

Record sound_authority (units : list ApprovedUnit) (vendoring : list ApprovedUnitVendoringV2)
    (packages : list ApprovedUnitPackageAuthorityV2) : Prop := {
  sa_rows : map uv_unit_id vendoring = map au_id units ∧ map pa_unit_id packages = map au_id units;
  sa_units : 1 ≤ zlen units ≤ 256 ∧ NoDup (map au_id units) ∧
    ∀ i u, units !! i = Some u → unit_shape (by_id units) (Z.of_nat i) u;
  sa_criteria : NoDup (units ≫= au_criteria);
  sa_owned : all_apart (owner_leaves units);
  sa_acyclic : ∀ id, ¬ tc (depends units) id id;
  sa_bindings : zlen (all_bindings vendoring) ≤ 128 ∧
    NoDup (map vb_binding_id (all_bindings vendoring)) ∧ NoDup (map vb_destination (all_bindings vendoring));
  sa_vendored : ∀ i row u, vendoring !! i = Some row → units !! i = Some u →
    (∀ b, b ∈ uv_vendor_bindings row → vb_destination b ∈ au_files u) ∧
    (∀ p, uv_provenance_manifest_destination row = Some p → p ∈ au_files u) ∧
    (uv_vendor_bindings row = [] ↔ uv_provenance_manifest_destination row = None);
  sa_proofs : zlen (all_proofs packages) ≤ 256 ∧
    NoDup (map (λ p : owned_proof, pp_proof_id p.2) (all_proofs packages)) ∧
    ∀ i row u, packages !! i = Some row → units !! i = Some u →
      ∀ p, p ∈ pa_package_proofs row → proof_shape (zlen (au_criteria u)) p;
  sa_closed : closed_package units packages (list_to_set (map vb_binding_id (all_bindings vendoring)));
  sa_separated : separated units packages (map vb_destination (all_bindings vendoring))
    (all_manifests vendoring) (map vb_origin_path (all_bindings vendoring));
}.

(** What the part before the graph establishes. *)
Record tables_sound (units : list ApprovedUnit) (vendoring : list ApprovedUnitVendoringV2)
    (packages : list ApprovedUnitPackageAuthorityV2) (t : VendorTables) (proofs : list owned_proof) : Prop := {
  ts_count : 1 ≤ zlen units ≤ 256;
  ts_ids : NoDup (map au_id units);
  ts_shapes : ∀ i u, units !! i = Some u → unit_shape (by_id units) (Z.of_nat i) u;
  ts_owned : all_apart (owner_leaves units);
  ts_vendor : tables_of (by_id units) vendoring t;
  ts_vendor_rows : map uv_unit_id vendoring = map au_id units;
  ts_vendor_total : vt_total_vendor_bindings t ≤ 128;
  ts_packages : ∃ ids, packages_of (by_id units) packages (ids, proofs);
  ts_package_rows : map pa_unit_id packages = map au_id units;
  ts_proofs : zlen proofs ≤ 256 ∧ NoDup (map (λ p : owned_proof, pp_proof_id p.2) proofs);
}.

Lemma authority_tables_ok units vendoring packages t proofs :
  authority_tables units vendoring packages = Ok (t, proofs) →
  tables_sound units vendoring packages t proofs.
Proof.
  unfold authority_tables. intros H. apply guard_ok in H as [Hcount H]. apply guard_ok in H as [Hlen H].
  apply guard_ok in H as [Hsize H]. apply bind_ok in H as (out & Hown & H). apply bind_ok in H as (t' & Hv & H).
  apply guard_ok in H as [_ H]. apply guard_ok in H as [Htot H]. apply bind_ok in H as ([ids ps] & Hp & H).
  apply guard_ok in H as [_ H]. apply guard_ok in H as [Hptot H]. apply bind_ok in H as (? & Hd & H).
  cbn [fst snd] in *. injection H as -> ->. to_prop. unfold zlen in *.
  unfold APPROVED_VENDOR_BINDINGS_V2_MAX, APPROVED_PACKAGE_PROOFS_V2_MAX in *.
  assert (NoDup (map au_id units)) as Hn.
  { apply size_list_to_set_NoDup. rewrite <- by_id_dom, size_dom, length_map. lia. }
  apply own_units_ok in Hown as [Hap Hs]. apply vendor_rows_ok in Hv as [Ht Hvr]; [|lia].
  apply package_rows_ok in Hp as [Hp Hpr]; [|lia]. apply distinct_proofs_ok in Hd as [Hd _].
  constructor; unfold zlen; try done; try lia; eauto.
Qed.

Lemma same_index {A B} (f : A → Id) (g : B → Id) l k i x y :
  map f l = map g k → l !! i = Some x → k !! i = Some y → f x = g y.
Proof.
  intros Heq Hx Hy. assert (map f l !! i = Some (f x)) as H1 by (apply list_lookup_fmap_Some; eauto).
  rewrite Heq in H1. apply list_lookup_fmap_Some in H1 as (z & ? & Hz). congruence.
Qed.

Lemma authority_total units vendoring packages : ∃ r, validate_approved_v2_authority units vendoring packages = Some r.
Proof.
  unfold validate_approved_v2_authority.
  destruct (authority_tables units vendoring packages) as [[t proofs]|e] eqn:Ht; [|by eexists].
  apply authority_tables_ok in Ht as [_ Hn _ _ _ _ _ _ Hpr _].
  pose proof (approved_graph_ok units Hn) as Hgraph.
  destruct (validate_approved_graph units) as [[[]|e]|]; [|by eexists|done].
  destruct (closure_total units packages proofs (vt_binding_ids t) Hn Hpr) as [rc ->]. destruct rc; by eexists.
Qed.

Lemma authority_ok units vendoring packages :
  validate_approved_v2_authority units vendoring packages = Some (Ok tt) → sound_authority units vendoring packages.
Proof.
  unfold validate_approved_v2_authority.
  destruct (authority_tables units vendoring packages) as [[t proofs]|e] eqn:Ht; [|done].
  apply authority_tables_ok in Ht as [Hcount Hn Hs Ha [] Hvr Htot (ids & [_ Hproofs Hshapes]) Hpr [Hptot Hd]].
  pose proof (approved_graph_ok units Hn) as Hgraph.
  destruct (validate_approved_graph units) as [[[]|e]|]; [|done|done].
  destruct (validate_closure units packages proofs (vt_binding_ids t)) as [[[]|e]|] eqn:Hc; [|done|done].
  intros [= Hsep%collisions_ok].
  cbn in Hproofs. subst proofs. apply closure_ok in Hc; [|done|done].
  rewrite to_ids0 in Hc. rewrite to_destinations0, to_manifests0, to_origins0 in Hsep.
  constructor; try done.
  - by eapply criteria_distinct.
  - split_and!; [lia|done|done].
  - intros i row u Hrow Hu. destruct (to_owned0 row) as (v & Hv & Hfacts); [by eapply list_elem_of_lookup_2|].
    rewrite (same_index uv_unit_id au_id _ _ _ _ _ Hvr Hrow Hu), unit_by_id in Hv;
      [by simplify_eq|done|by eapply list_elem_of_lookup_2].
  - split_and!; [done|done|]. intros i row u Hrow Hu p Hp.
    destruct (Hshapes row) as (v & Hv & _ & Hfacts); [by eapply list_elem_of_lookup_2|].
    rewrite (same_index pa_unit_id au_id _ _ _ _ _ Hpr Hrow Hu), unit_by_id in Hv;
      [|done|by eapply list_elem_of_lookup_2].
    injection Hv as ->. destruct (Hs i v Hu) as [_ [_ Hlen] _ _ _ _]. rewrite <- Hlen. by apply Hfacts.
Qed.

(** C6. An approved plan of version 2 is checked to a decision, never a panic or
    an endless search, and what it accepts is sound.  Rows follow the units;
    unit, binding, destination and proof ids and the derived criterion ids of
    the whole plan are distinct; dependencies are known and acyclic; no two
    owned files collide; what a row vendors goes to files of its own unit;
    proofs name criteria of their unit; one closure unit that depends on every
    other unit proves the whole package and every binding; and generated,
    owned, vendored and origin paths stay apart. *)
Theorem approved_authority_sound (units : list ApprovedUnit) (vendoring : list ApprovedUnitVendoringV2)
    (packages : list ApprovedUnitPackageAuthorityV2) :
  ∃ r, validate_approved_v2_authority units vendoring packages = Some r ∧
       (r = Ok tt → sound_authority units vendoring packages).
Proof.
  destruct (authority_total units vendoring packages) as [r Hr]. exists r. split; [done|]. intros ->. by apply authority_ok.
Qed.

Lemma approved_authority_sound_witness :
  validate_approved_v2_authority v2_units v2_vendoring v2_packages = Some (Ok tt) ∧
  sound_authority v2_units v2_vendoring v2_packages.
Proof.
  split; [vm_compute; reflexivity|].
  destruct (approved_authority_sound v2_units v2_vendoring v2_packages) as (r & Hr & Hsound).
  apply Hsound. pose proof v2_plan_accepted as Hacc. rewrite Hr in Hacc. by injection Hacc.
Defined.
