(* ===== verification/Modelcheck.v ===== *)
(** * The workflow model checker

    [modelcheck/src/lib.rs]: the checker that the workflow data
    ([data/workflow.kdl]) must pass, over the rows that
    [codegen/src/table.rs] reads.  The values come from the KDL parser, which
    is a library: their type and its two projections are parameters. *)

From S2P Require Import Prelude RustColl RustStr.

Section Check.
Context {KdlValue : Type} (as_string : KdlValue → option string) (as_bool : KdlValue → option bool).

(** ** Rows *)

Inductive TableRow :=
| Row (table key : string) (props : list (string * KdlValue)) (children : list TableRow) (line : Z).

Definition table (r : TableRow) : string := let '(Row t _ _ _ _) := r in t.
Definition key (r : TableRow) : string := let '(Row _ k _ _ _) := r in k.
Definition props (r : TableRow) : list (string * KdlValue) := let '(Row _ _ p _ _) := r in p.
Definition children (r : TableRow) : list TableRow := let '(Row _ _ _ c _) := r in c.
Definition line (r : TableRow) : Z := let '(Row _ _ _ _ l) := r in l.

Record TableDoc := { doc_schema : string; doc_version : Z; doc_rows : list TableRow }.

Definition row_get (r : TableRow) (k : string) : option KdlValue :=
  snd <$> find_first (λ p, p.1 =s k) (props r).

Definition bad (r : TableRow) (k ty : string) : string :=
  "`" +:+ k +:+ "` must be " +:+ ty +:+ " at line " +:+ show_uint (line r).

Definition row_string (r : TableRow) (k : string) : result string string :=
  ok_or (row_get r k ≫= as_string) (bad r k "string").
Definition row_bool (r : TableRow) (k : string) : result string bool :=
  ok_or (row_get r k ≫= as_bool) (bad r k "boolean").

Definition row_opt {T} (f : KdlValue → option T) (ty : string) (r : TableRow) (k : string)
  : result string (option T) :=
  match row_get r k with
  | None => Ok None
  | Some v => match f v with Some t => Ok (Some t) | None => Err (bad r k ty) end
  end.
Definition row_opt_string := row_opt as_string "string".
Definition row_opt_bool := row_opt as_bool "boolean".

(** ** Access *)

Definition kids (r : TableRow) (t : string) : list TableRow := filter (λ c, table c = t) (children r).
Definition rows (d : TableDoc) (t : string) : list TableRow := filter (λ r, table r = t) (doc_rows d).
Definition row (d : TableDoc) (t k : string) : option TableRow := find_first (λ r, key r =s k) (rows d t).
Definition prop (r : TableRow) (k : string) : option string :=
  match row_opt_string r k with Ok v => v | Err _ => None end.
Definition initial (m : TableRow) : string :=
  match kids m "initial" with [] => "" | r :: _ => key r end.
Definition names (m : TableRow) (keep : TableRow → bool) : gset string :=
  list_to_set (map key (filter (λ s, keep s = true) (kids m "state"))).

Abbreviation violation := (string * string * Z * string)%type (only parsing).
Definition push (p : string) (m : TableRow) (l : Z) (t : string) : violation := (p, key m, l, t).

(** ** Reachability *)

Definition out_of (m : TableRow) (s : string) : list TableRow :=
  filter (λ e, prop e "from" = Some s) (kids m "transition").

(** The loop of [reach]: [None] when the fuel runs out. *)
Fixpoint reach_loop (fuel : nat) (m : TableRow) (seen : gset string) (queue : list string)
  : option (result string (gset string)) :=
  match fuel with
  | O => None
  | S fuel' =>
      match queue with
      | [] => Some (Ok seen)
      | s :: queue' =>
          if bool_decide (s ∈ seen) then reach_loop fuel' m seen queue'
          else
            match collect_res (λ e, row_string e "to") (out_of m s) with
            | Err e => Some (Err e)
            | Ok tos => reach_loop fuel' m ({[s]} ∪ seen) (queue' ++ tos)
            end
      end
  end.

(** Each transition is queued at most once, when its source is first seen. *)
Definition reach_fuel (m : TableRow) : nat := S (S (length (kids m "transition"))).

Definition reach (m : TableRow) (start : string) : option (result string (gset string)) :=
  reach_loop (reach_fuel m) m ∅ [start].

(** [Result] combinators over a computation that may need fuel. *)
Definition reached (r : option (result string (gset string))) : result string (gset string) :=
  match r with Some r => r | None => Err "fuel" end.

(** ** The checks *)

Definition terminal_names (m : TableRow) : gset string :=
  names m (λ s, match row_bool s "terminal" with Ok b => b | Err _ => false end).

Definition check_state (m : TableRow) (terms init : gset string) (s : TableRow)
  : result string (list violation) :=
  let c1 := if bool_decide (key s ∈ init) then [] else [push "C1" m (line s) "unreachable"] in
  terminal ← row_bool s "terminal";
  let c2 := if negb terminal && negb (any (λ e, prop e "from" =s Some (key s)) (kids m "transition"))
            then [push "C2" m (line s) "no outgoing transition"] else [] in
  c4 ← (if terminal then Ok [] else
        from_s ← reached (reach m (key s));
        Ok (if bool_decide (terms ∩ from_s = ∅) then [push "C4" m (line s) "no terminal reachable"] else []));
  Ok (c1 ++ c2 ++ c4).

(** The states on a common cycle with [n]. *)
Definition reaches (m : TableRow) (s n : string) : bool :=
  match reach m s with Some (Ok r) => bool_decide (n ∈ r) | _ => false end.
Definition component (m : TableRow) (n : string) : list string :=
  let f := match reach m n with Some (Ok f) => f | _ => ∅ end in
  filter (λ s, reaches m s n = true) (btree_set f).

Definition cycles (m : TableRow) : list violation :=
  btree_set (names m (λ _, true)) ≫= λ n,
    let c := component m n in
    let exit := any (λ e, any (λ s, prop e "from" =s Some s) c &&
                          negb (any (λ s, prop e "to" =s Some s) c)) (kids m "transition") in
    let self_loop := any (λ e, (prop e "from" =s Some n) && (prop e "to" =s Some n))
                       (kids m "transition") in
    if ((1 <? zlen c) || self_loop) && negb exit then [push "C3" m 1 "cycle has no exit"] else [].

Definition check_machine (m : TableRow) : result string (list violation) :=
  let terms := terminal_names m in
  init ← reached (reach m (initial m));
  states ← collect_res (check_state m terms init) (kids m "state");
  let c6 := map (λ e, push "C6" m (line e) "missing evidence")
              (filter (λ e, match prop e "evidence" with None => true | Some v => is_empty v end = true)
                 (kids m "transition")) in
  Ok (concat states ++ cycles m ++ c6).

(** [got] and [expect] of [totals] *)
Definition totals_got (m : TableRow) (from kind : string) : gset string :=
  list_to_set (omap (λ e, prop e "verdict")
    (filter (λ e, prop e "from" = Some from ∧ prop e "verdict_kind" = Some kind)
       (kids m "transition"))).
Definition totals_expect (d : TableDoc) (kind : string) : gset string :=
  match row d "verdict_set" kind with
  | None => ∅
  | Some r => list_to_set (map key (kids r "value"))
  end.

Definition totals (d : TableDoc) : list violation :=
  rows d "total_verdicts" ≫= λ t,
    let machine := default "" (prop t "machine") in
    let kind := default "" (prop t "kind") in
    let from := default "" (prop t "from") in
    match row d "machine" machine with
    | None => []
    | Some m => if totals_got m from kind =s totals_expect d kind then []
                else [("C5", machine, line t, "verdict set incomplete")]
    end.

(** [opt_bool(k).unwrap_or(None).unwrap_or(false)] *)
Definition row_flag (r : TableRow) (k : string) : bool :=
  match row_opt_bool r k with Ok (Some b) => b | _ => false end.

Definition is_gate (l : TableRow) (to : string) : bool :=
  match find_first (λ s, key s =s to) (kids l "state") with
  | Some s => row_flag s "forward_gate"
  | None => false
  end.

(** The edges out of a state that have a target, with their lines. *)
Definition targets (l : TableRow) (s : string) : list (string * Z) :=
  omap (λ e, (λ to, (to, line e)) <$> prop e "to") (out_of l s).

Fixpoint gate_loop (fuel : nat) (l : TableRow) (seen : gset (string * bool))
    (queue : list (string * bool * Z)) : option (list violation) :=
  match fuel with
  | O => None
  | S fuel' =>
      match queue with
      | [] => Some []
      | (s, gated, ln) :: queue' =>
          if bool_decide ((s, gated) ∈ seen) then gate_loop fuel' l seen queue'
          else
            let here := if (s =s "closed") && negb gated
                        then [push "C7" l ln "closed before gate"] else [] in
            let next := map (λ '(to, eln), (to, gated || is_gate l to, eln)) (targets l s) in
            rest ← gate_loop fuel' l ({[(s, gated)]} ∪ seen) (queue' ++ next);
            Some (here ++ rest)
      end
  end.

(** Each transition is queued at most twice, once per gate bit of its source. *)
Definition gate_fuel (l : TableRow) : nat := S (S (2 * length (kids l "transition"))).

Definition gate (d : TableDoc) : option (list violation) :=
  match row d "machine" "lane" with
  | None => Some []
  | Some l => gate_loop (gate_fuel l) l ∅ [(initial l, false, 1)]
  end.

Definition cap (d : TableDoc) : list violation :=
  match row d "machine" "lane" with
  | None => []
  | Some l =>
      let active := names l (λ s, row_flag s "implementer_active") in
      let classes := filter (λ c, prop c "gate" = Some "parallel_cap") (rows d "capacity_class") in
      (classes ≫= λ c,
         (kids c "state" ≫= λ s,
            if bool_decide (key s ∈ active) then [] else [("C8", "lane", line s, "bad cap state")]) ++
         (btree_set active ≫= λ s,
            if any (λ r, key r =s s) (kids c "state") then [] else
            [("C8", "lane", line c, "missing cap state")])) ++
      match classes with [] => [("C8", "lane", 1, "missing cap")] | _ => [] end
  end.

Definition check (d : TableDoc) : option (result string (list violation)) :=
  match collect_res check_machine (rows d "machine") with
  | Err e => Some (Err e)
  | Ok per_machine =>
      g ← gate d;
      Some (Ok (concat per_machine ++ totals d ++ g ++ cap d))
  end.

(** ** The report *)

Definition P : list string := ["C1"; "C2"; "C3"; "C4"; "C5"; "C6"; "C7"; "C8"].

Record CheckReport := { exit_code : Z; stdout : string; stderr : string }.

Definition report (v : list violation) : CheckReport :=
  let failed : gset string := list_to_set (map (λ '(p, _, _, _), p) v) in
  {| exit_code := if v =s [] then 0 else 1;
     stdout := join "" (map (λ p, p +:+ " " +:+
                 (if bool_decide (p ∈ failed) then "FAIL" else "PASS") +:+ String LF "") P);
     stderr := join "" (map (λ '(p, m, l, t), p +:+ " machine=" +:+ m +:+ " line=" +:+
                 show_uint l +:+ " " +:+ t +:+ String LF "") v) |}.

(** ** What the checks mean *)

(** A transition of a machine between two states. *)
Definition mstep (m : TableRow) (a b : string) : Prop :=
  ∃ e, e ∈ kids m "transition" ∧ prop e "from" = Some a ∧ prop e "to" = Some b.

Lemma row_string_prop e k v : row_string e k = Ok v ↔ prop e k = Some v.
Proof.
  unfold row_string, prop, row_opt_string, row_opt. rewrite ok_or_ok.
  destruct (row_get e k) as [x|]; cbn; [|done]. destruct (as_string x); naive_solver.
Qed.

Lemma elem_of_out_of m s e :
  e ∈ out_of m s ↔ e ∈ kids m "transition" ∧ prop e "from" = Some s.
Proof. unfold out_of. rewrite list_elem_of_filter. tauto. Qed.

Lemma targets_mstep m s tos b :
  collect_res (λ e, row_string e "to") (out_of m s) = Ok tos → b ∈ tos ↔ mstep m s b.
Proof.
  intros H%collect_res_ok. split.
  - intros (i & Hi)%list_elem_of_lookup. destruct (Forall2_lookup_r _ _ _ _ _ H Hi) as (e & He & Hs).
    apply row_string_prop in Hs. apply list_elem_of_lookup_2 in He.
    apply elem_of_out_of in He as [? ?]. by exists e.
  - intros (e & He & Hf & Ht). assert (e ∈ out_of m s) as Hin by by apply elem_of_out_of.
    apply list_elem_of_lookup in Hin as [i Hi].
    destruct (Forall2_lookup_l _ _ _ _ _ H Hi) as (t & Hti & Hs).
    apply row_string_prop in Hs. rewrite Ht in Hs. injection Hs as <-. by eapply list_elem_of_lookup_2.
Qed.

(** *** Reachability is exact and terminates *)

(** A transition without a target makes the search fail. *)
Definition wf_out (m : TableRow) (s : string) : Prop :=
  ∃ tos, collect_res (λ e, row_string e "to") (out_of m s) = Ok tos.

(** The search so far: seen states are reachable and their successors are seen
    or queued. *)
Record reach_inv (m : TableRow) (start : string) (seen : gset string) (queue : list string) : Prop := {
  ri_queue : ∀ s, s ∈ queue → rtc (mstep m) start s;
  ri_seen : ∀ s, s ∈ seen → rtc (mstep m) start s ∧ wf_out m s;
  ri_start : start ∈ seen ∨ start ∈ queue;
  ri_closed : ∀ a b, a ∈ seen → mstep m a b → b ∈ seen ∨ b ∈ queue;
}.

Lemma rtc_closed {A} (R : relation A) (P : A → Prop) a b :
  P a → (∀ x y, P x → R x y → P y) → rtc R a b → P b.
Proof. intros Ha Hc Hab. induction Hab; eauto. Qed.

Lemma reach_inv_init m start : reach_inv m start ∅ [start].
Proof. split; [|set_solver..]. intros s ->%list_elem_of_singleton. constructor. Qed.

Lemma reach_inv_skip m start seen s queue :
  s ∈ seen → reach_inv m start seen (s :: queue) → reach_inv m start seen queue.
Proof.
  intros Hin [H1 H2 H3 H4]. split; [set_solver..|].
  intros a b Ha Hab. destruct (H4 a b Ha Hab) as [?|[->|?]%elem_of_cons]; auto.
Qed.

Lemma reach_inv_visit m start seen s queue tos :
  collect_res (λ e, row_string e "to") (out_of m s) = Ok tos →
  reach_inv m start seen (s :: queue) → reach_inv m start ({[s]} ∪ seen) (queue ++ tos).
Proof.
  intros Hc [H1 H2 H3 H4]. assert (rtc (mstep m) start s) as Hs by (apply H1; set_solver).
  split.
  - intros x [Hx|Hx]%elem_of_app; [apply H1; set_solver|].
    eapply rtc_r; [done|]. by apply (targets_mstep m s tos).
  - intros x [->%elem_of_singleton|Hx]%elem_of_union; [|auto]. split; [done|]. by exists tos.
  - set_solver.
  - intros a b [->%elem_of_singleton|Ha]%elem_of_union Hab.
    + right. apply elem_of_app. right. by apply (targets_mstep m s tos).
    + destruct (H4 a b Ha Hab) as [?|[->|?]%elem_of_cons]; set_solver.
Qed.

Lemma reach_loop_ok fuel m start seen queue out :
  reach_inv m start seen queue → reach_loop fuel m seen queue = Some (Ok out) →
  ∀ s, (s ∈ out → wf_out m s) ∧ (s ∈ out ↔ rtc (mstep m) start s).
Proof.
  revert seen queue. induction fuel as [|fuel IH]; intros seen queue Hinv; cbn; [done|].
  destruct queue as [|s queue].
  - intros [= <-] s. destruct Hinv as [H1 H2 H3 H4]. split; [apply H2|split; [apply H2|]].
    apply (rtc_closed _ (λ x, x ∈ seen)); [set_solver|]. intros x y Hx Hxy. destruct (H4 x y Hx Hxy); set_solver.
  - case_bool_decide as Hin; [apply IH; eauto using reach_inv_skip|].
    destruct (collect_res (λ e, row_string e "to") (out_of m s)) as [tos|e] eqn:Hc; [|done].
    apply IH. by apply reach_inv_visit.
Qed.

Lemma reach_loop_err fuel m start seen queue e :
  reach_inv m start seen queue → reach_loop fuel m seen queue = Some (Err e) →
  ∃ s, rtc (mstep m) start s ∧ ¬ wf_out m s.
Proof.
  revert seen queue. induction fuel as [|fuel IH]; intros seen queue Hinv; cbn; [done|].
  destruct queue as [|s queue]; [done|].
  case_bool_decide as Hin; [apply IH; eauto using reach_inv_skip|].
  destruct (collect_res (λ e, row_string e "to") (out_of m s)) as [tos|e'] eqn:Hc.
  - apply IH. by apply reach_inv_visit.
  - intros [= ->]. exists s. split; [apply Hinv; set_solver|]. intros [tos ?]. congruence.
Qed.

(** The transitions whose source is still to be seen. *)
Definition pending (m : TableRow) (seen : string → bool) : nat :=
  length (filter (λ e, match prop e "from" with Some s => negb (seen s) | None => false end = true)
            (kids m "transition")).

Lemma queue_pending_visit m P P' s :
  P s = false → P' s = true → (∀ x, x ≠ s → P' x = P x) →
  pending m P = (length (out_of m s) + pending m P')%nat.
Proof.
  intros H1 H2 H3. unfold pending, out_of. induction (kids m "transition") as [|e es IH]; [done|].
  rewrite !filter_cons. destruct (prop e "from") as [x|] eqn:Hf.
  - destruct (decide (x = s)) as [->|Hne].
    + rewrite H1, H2. repeat case_decide; cbn in *; first [congruence|lia].
    + rewrite (H3 x Hne). repeat case_decide; cbn; first [congruence|lia].
  - repeat case_decide; cbn; first [congruence|lia].
Qed.

Lemma pending_le m P : (pending m P ≤ length (kids m "transition"))%nat.
Proof. apply length_filter. Qed.

Lemma reach_loop_total fuel m seen queue :
  (length queue + pending m (λ x, bool_decide (x ∈ seen)) < fuel)%nat →
  is_Some (reach_loop fuel m seen queue).
Proof.
  revert seen queue. induction fuel as [|fuel IH]; intros seen queue Hf; [lia|]. cbn.
  destruct queue as [|s queue]; [done|]. cbn in Hf.
  case_bool_decide as Hin; [apply IH; lia|].
  destruct (collect_res (λ e, row_string e "to") (out_of m s)) as [tos|e] eqn:Hc; [|done].
  apply IH. apply collect_res_ok, Forall2_length in Hc. rewrite length_app, <-Hc.
  rewrite (queue_pending_visit m _ (λ x, bool_decide (x ∈ {[s]} ∪ seen)) s) in Hf; [lia|..].
  - by apply bool_decide_eq_false.
  - apply bool_decide_eq_true. set_solver.
  - intros x Hx. apply bool_decide_ext. set_solver.
Qed.

Lemma reach_total m start : is_Some (reach m start).
Proof.
  apply reach_loop_total. unfold reach_fuel. cbn [length].
  eapply Nat.le_lt_trans; [apply Nat.add_le_mono_l, pending_le|]. lia.
Qed.

#[local] Arguments reach : simpl never.

(** [reach] computes the reachable set, or fails when a reachable state has a
    transition without a target. *)
Lemma reach_spec m start :
  (∃ out, reach m start = Some (Ok out) ∧ (∀ s, rtc (mstep m) start s → wf_out m s) ∧
     ∀ s, s ∈ out ↔ rtc (mstep m) start s) ∨
  (∃ e, reach m start = Some (Err e) ∧ ∃ s, rtc (mstep m) start s ∧ ¬ wf_out m s).
Proof.
  destruct (reach_total m start) as [[out|e] Hr]; [left; exists out|right; exists e].
  - pose proof (reach_loop_ok _ _ _ _ _ _ (reach_inv_init m start) Hr) as H.
    split_and!; [done|..]; intros s; destruct (H s); naive_solver.
  - split; [done|]. eapply reach_loop_err; [apply reach_inv_init|exact Hr].
Qed.

Lemma reach_ok m start out :
  reached (reach m start) = Ok out →
  reach m start = Some (Ok out) ∧
  (∀ s, rtc (mstep m) start s → wf_out m s) ∧ ∀ s, s ∈ out ↔ rtc (mstep m) start s.
Proof.
  destruct (reach_spec m start) as [(o & -> & H)|(e & -> & _)]; cbn; [|done].
  by intros [= ->].
Qed.

Lemma reach_wf m start :
  (∀ s, rtc (mstep m) start s → wf_out m s) →
  ∃ out, reach m start = Some (Ok out) ∧ ∀ s, s ∈ out ↔ rtc (mstep m) start s.
Proof.
  intros H. destruct (reach_spec m start) as [(o & ? & ? & ?)|(e & _ & s & Hs & Hn)]; eauto.
  by destruct Hn; apply H.
Qed.

(** *** What a sound workflow is *)

Definition terminal_state (m : TableRow) (t : string) : Prop :=
  ∃ s, s ∈ kids m "state" ∧ row_bool s "terminal" = Ok true ∧ key s = t.

(** Two states on a common cycle. *)
Definition scc (m : TableRow) (a b : string) : Prop := rtc (mstep m) a b ∧ rtc (mstep m) b a.

Record machine_sound (m : TableRow) : Prop := {
  sound_reachable : ∀ s, s ∈ kids m "state" → rtc (mstep m) (initial m) (key s);
  sound_progress : ∀ s, s ∈ kids m "state" → row_bool s "terminal" = Ok false →
    ∃ b, mstep m (key s) b;
  sound_termination : ∀ s, s ∈ kids m "state" → row_bool s "terminal" = Ok false →
    ∃ t, terminal_state m t ∧ rtc (mstep m) (key s) t;
  sound_cycles : ∀ s, s ∈ kids m "state" → tc (mstep m) (key s) (key s) →
    ∃ a b, scc m (key s) a ∧ mstep m a b ∧ ¬ scc m (key s) b;
  sound_evidence : ∀ e, e ∈ kids m "transition" → ∃ v, prop e "evidence" = Some v ∧ v ≠ "";
}.

Lemma elem_of_terminal_names m t : t ∈ terminal_names m ↔ terminal_state m t.
Proof.
  unfold terminal_names, names, terminal_state. rewrite elem_of_list_to_set, list_elem_of_fmap.
  split.
  - intros (s & -> & [Ht Hs]%list_elem_of_filter). exists s.
    destruct (row_bool s "terminal") as [[]|]; done.
  - intros (s & Hs & Ht & <-). exists s. by rewrite list_elem_of_filter, Ht.
Qed.

Lemma mstep_wf m a b : rtc (mstep m) a b → (∀ s, rtc (mstep m) a s → wf_out m s) →
  ∀ s, rtc (mstep m) b s → wf_out m s.
Proof. intros Hab Hwf s Hs. apply Hwf. by etrans. Qed.

Lemma wf_out_to m s e : wf_out m s → e ∈ out_of m s → ∃ b, prop e "to" = Some b ∧ mstep m s b.
Proof.
  intros [tos H] He. pose proof He as [Hk Hf]%elem_of_out_of.
  apply collect_res_ok in H. apply list_elem_of_lookup in He as [i Hi].
  destruct (Forall2_lookup_l _ _ _ _ _ H Hi) as (b & _ & Hb%row_string_prop).
  exists b. split; [done|]. by exists e.
Qed.

Lemma check_state_nil m init s vs :
  (∀ x, x ∈ init ↔ rtc (mstep m) (initial m) x) →
  (∀ x, rtc (mstep m) (initial m) x → wf_out m x) →
  check_state m (terminal_names m) init s = Ok vs →
  vs = [] ↔
    rtc (mstep m) (initial m) (key s) ∧
    (row_bool s "terminal" = Ok false →
       (∃ b, mstep m (key s) b) ∧ ∃ t, terminal_state m t ∧ rtc (mstep m) (key s) t).
Proof.
  intros Hinit Hwf. unfold check_state.
  destruct (row_bool s "terminal") as [term|] eqn:Ht; cbn; [|done].
  assert (rtc (mstep m) (initial m) (key s) →
    any (λ e, prop e "from" =s Some (key s)) (kids m "transition") = true ↔
    ∃ b, mstep m (key s) b) as Hany.
  { intros Hr. rewrite any_spec. split.
    - intros (e & He & Hf%bool_decide_eq_true). destruct (wf_out_to m (key s) e) as (b & _ & ?); eauto.
      by apply elem_of_out_of.
    - intros (b & e & He & Hf & _). exists e. by rewrite bool_decide_eq_true. }
  case_bool_decide as Hin; rewrite Hinit in Hin; cycle 1.
  { intros Hok. split; [|tauto]. intros ->. exfalso.
    destruct term; cbn in Hok; [done|]. by destruct (reached _). }
  specialize (Hany Hin). destruct term; cbn; [intros [= <-]; naive_solver|].
  destruct (reached (reach m (key s))) as [from_s|] eqn:Hr; cbn; [|done].
  apply reach_ok in Hr as (_ & _ & Hr). intros [= <-].
  assert (terminal_names m ∩ from_s ≠ ∅ ↔
    ∃ t, terminal_state m t ∧ rtc (mstep m) (key s) t) as Ht4.
  { setoid_rewrite <-elem_of_terminal_names. setoid_rewrite <-Hr. split.
    - intros [t ?]%set_choose_L. exists t. set_solver.
    - set_solver. }
  destruct (any _ _); cbn; case_bool_decide; naive_solver.
Qed.

Lemma elem_of_component m n s :
  (∀ x, rtc (mstep m) n x → wf_out m x) → s ∈ component m n ↔ scc m n s.
Proof.
  intros Hwf. unfold component, scc. rewrite list_elem_of_filter, elem_of_btree_set.
  destruct (reach_wf m n Hwf) as (f & -> & Hf). rewrite Hf.
  assert (rtc (mstep m) n s → reaches m s n = true ↔ rtc (mstep m) s n); [|tauto].
  intros Hs. destruct (reach_wf m s) as (r & Hr & Hr'); [eauto using mstep_wf|].
  unfold reaches. by rewrite Hr, bool_decide_eq_true, Hr'.
Qed.

Lemma NoDup_component m n : NoDup (component m n).
Proof. apply NoDup_filter, NoDup_btree_set. Qed.

(** A list without duplicates that holds [n] is longer than one exactly when
    it holds another element. *)
Lemma other_element {A} `{EqDecision A} (l : list A) n :
  NoDup l → n ∈ l → 1 < zlen l ↔ ∃ x, x ∈ l ∧ x ≠ n.
Proof.
  intros Hnd Hn. split.
  - intros Hl. destruct l as [|x [|y l]]; [done..|].
    apply NoDup_cons in Hnd as [Hx _].
    destruct (decide (x = n)) as [->|]; [exists y|exists x]; set_solver.
  - intros (x & Hx & Hne). destruct l as [|a [|b l]]; [set_solver..|]. unfold zlen. cbn [length]. lia.
Qed.

Lemma cycle_test m n :
  (∀ x, rtc (mstep m) n x → wf_out m x) →
  (1 <? zlen (component m n)) ||
    any (λ e, (prop e "from" =s Some n) && (prop e "to" =s Some n)) (kids m "transition") = true ↔
  tc (mstep m) n n.
Proof.
  intros Hwf. assert (n ∈ component m n) as Hn by by apply elem_of_component.
  rewrite orb_true_iff, Z.ltb_lt, (other_element _ n), any_spec by auto using NoDup_component.
  setoid_rewrite andb_true_iff. setoid_rewrite bool_decide_eq_true. split.
  - intros [(s & [H1 H2]%elem_of_component & Hne)|(e & He & Hf & Ht)];
      [|done|apply tc_once; by exists e].
    apply rtc_inv in H1 as [->|(b & Hb & H1)]; [done|]. eapply tc_rtc_r; [by apply tc_once|]. by etrans.
  - intros Ht. assert (∃ b, mstep m n b ∧ rtc (mstep m) b n) as (b & Hb & Hbn).
    { inversion Ht; subst; eauto using tc_rtc, rtc_refl. }
    destruct (decide (b = n)) as [->|Hne].
    + right. destruct Hb as (e & ? & ? & ?). by exists e.
    + left. exists b. split; [|done]. apply elem_of_component; [done|].
      split; [by apply rtc_once|done].
Qed.

Lemma exit_test m n :
  (∀ x, rtc (mstep m) n x → wf_out m x) →
  any (λ e, any (λ s, prop e "from" =s Some s) (component m n) &&
            negb (any (λ s, prop e "to" =s Some s) (component m n))) (kids m "transition") = true ↔
  ∃ a b, scc m n a ∧ mstep m a b ∧ ¬ scc m n b.
Proof.
  intros Hwf. rewrite any_spec. setoid_rewrite andb_true_iff. setoid_rewrite any_spec.
  setoid_rewrite negb_true_iff. setoid_rewrite any_false. setoid_rewrite bool_decide_eq_true.
  setoid_rewrite bool_decide_eq_false.
  pose proof (λ s, elem_of_component m n s Hwf) as Hc. setoid_rewrite Hc. split.
  - intros (e & He & (a & Ha & Hf) & Hn).
    destruct (wf_out_to m a e) as (b & Ht & Hab); [apply Hwf, Ha|by apply elem_of_out_of|].
    exists a, b. split_and!; try done. intros Hb. by apply (Hn b).
  - intros (a & b & Ha & (e & He & Hf & Ht) & Hb). exists e. split_and!; [done|by exists a|].
    intros s Hs Hts. by simplify_eq.
Qed.

Lemma bind_nil {A B} (f : A → list B) l : l ≫= f = [] ↔ ∀ x, x ∈ l → f x = [].
Proof. rewrite <-Forall_forall. induction l as [|x l IH]; cbn; [done|]. rewrite Forall_cons, <-IH. apply app_nil. Qed.

Lemma map_nil_iff {A B} (f : A → B) l : map f l = [] ↔ l = [].
Proof. by destruct l. Qed.

Lemma concat_nil {A B} (f : A → result string (list B)) (P : A → Prop) l bs :
  collect_res f l = Ok bs → (∀ x b, x ∈ l → f x = Ok b → b = [] ↔ P x) →
  concat bs = [] ↔ ∀ x, x ∈ l → P x.
Proof.
  rewrite collect_res_ok. intros H. induction H as [|x b l bs Hx H IH]; intros HP; cbn; [set_solver|].
  rewrite app_nil, IH, (HP x b) by set_solver. set_solver.
Qed.

Lemma filter_nil {A} (P : A → Prop) `{∀ x, Decision (P x)} l : filter P l = [] ↔ ∀ x, x ∈ l → ¬ P x.
Proof.
  induction l as [|x l IH]; [set_solver|]. rewrite filter_cons. case_decide; set_solver.
Qed.

Lemma elem_of_names m keep n : n ∈ names m keep ↔ ∃ s, s ∈ kids m "state" ∧ keep s = true ∧ key s = n.
Proof.
  unfold names. rewrite elem_of_list_to_set, list_elem_of_fmap. split.
  - intros (s & -> & [? ?]%list_elem_of_filter). by exists s.
  - intros (s & ? & ? & <-). exists s. by rewrite list_elem_of_filter.
Qed.

Lemma cycles_nil m :
  (∀ s x, s ∈ kids m "state" → rtc (mstep m) (key s) x → wf_out m x) →
  cycles m = [] ↔ ∀ s, s ∈ kids m "state" → tc (mstep m) (key s) (key s) →
    ∃ a b, scc m (key s) a ∧ mstep m a b ∧ ¬ scc m (key s) b.
Proof.
  intros Hwf. unfold cycles. rewrite bind_nil.
  assert (∀ n, n ∈ btree_set (names m (λ _, true)) ↔ ∃ s, s ∈ kids m "state" ∧ key s = n) as Hn.
  { intros n. rewrite elem_of_btree_set, elem_of_names. naive_solver. }
  setoid_rewrite Hn. split.
  - intros H s Hs Ht. specialize (H (key s) ltac:(eauto)). cbn in H.
    apply exit_test; [eauto|]. apply cycle_test in Ht; [|eauto]. rewrite Ht in H.
    by destruct (any _ _).
  - intros H _ (s & Hs & <-). cbn.
    destruct (_ || _) eqn:Ht; [|done]. apply cycle_test in Ht; [|eauto].
    specialize (H s Hs Ht). apply exit_test in H; [|eauto]. by rewrite H.
Qed.

Lemma evidence_test e :
  ¬ (match prop e "evidence" with None => true | Some v => is_empty v end = true) ↔
  ∃ v, prop e "evidence" = Some v ∧ v ≠ "".
Proof.
  unfold is_empty. destruct (prop e "evidence") as [v|]; [|naive_solver].
  rewrite bool_decide_eq_true. naive_solver.
Qed.

Lemma check_machine_nil m vs : check_machine m = Ok vs → vs = [] ↔ machine_sound m.
Proof.
  unfold check_machine. destruct (reached (reach m (initial m))) as [init|] eqn:Hr; cbn; [|done].
  apply reach_ok in Hr as (_ & Hwf & Hinit).
  destruct (collect_res _ _) as [states|] eqn:Hs; cbn; [|done]. intros [= <-].
  rewrite !app_nil, map_nil_iff, filter_nil. setoid_rewrite evidence_test.
  rewrite (concat_nil _ _ _ _ Hs (λ s b _ Hb, check_state_nil m init s b Hinit Hwf Hb)).
  assert ((∀ s, s ∈ kids m "state" → rtc (mstep m) (initial m) (key s)) →
    ∀ s x, s ∈ kids m "state" → rtc (mstep m) (key s) x → wf_out m x) as Hall.
  { intros H s x Hk Hx. apply Hwf. etrans; eauto. }
  split.
  - intros (H1 & H2 & H3). rewrite cycles_nil in H2 by (apply Hall; intros; by apply H1).
    split; try done; intros; by apply H1.
  - intros []. rewrite cycles_nil by by apply Hall. naive_solver.
Qed.

(** *** The gate *)

(** A lane transition that does not enter a forward gate. *)
Definition ungated_step (l : TableRow) (a b : string) : Prop := mstep l a b ∧ is_gate l b = false.

Definition gstep (l : TableRow) (p q : string * bool) : Prop :=
  mstep l p.1 q.1 ∧ q.2 = p.2 || is_gate l q.1.

Record gate_inv (l : TableRow) (start : string * bool) (seen : gset (string * bool))
    (queue : list (string * bool * Z)) : Prop := {
  gi_queue : ∀ p, p ∈ map fst queue → rtc (gstep l) start p;
  gi_seen : ∀ p, p ∈ seen → rtc (gstep l) start p;
  gi_start : start ∈ seen ∨ start ∈ map fst queue;
  gi_closed : ∀ p q, p ∈ seen → gstep l p q → q ∈ seen ∨ q ∈ map fst queue;
}.

Lemma elem_of_next l s g q :
  q ∈ map fst (map (λ '(to, eln), (to, g || is_gate l to, eln)) (targets l s)) ↔ gstep l (s, g) q.
Proof.
  unfold targets, gstep. rewrite map_map, list_elem_of_fmap. split.
  - intros ([to eln] & -> & Hin). apply list_elem_of_omap in Hin as (e & He & Ht).
    destruct (prop e "to") as [t|] eqn:Hto; cbn in Ht; [|done]. injection Ht as <- <-.
    apply elem_of_out_of in He as [? ?]. split; [by exists e|done].
  - destruct q as [t g']. cbn. intros [(e & He & Hf & Ht) ->]. exists (t, line e). split; [done|].
    apply list_elem_of_omap. exists e. rewrite Ht. split; [by apply elem_of_out_of|done].
Qed.

Lemma gate_loop_spec fuel l start seen queue vs :
  gate_inv l start seen queue → gate_loop fuel l seen queue = Some vs →
  (vs = [] ∧ ("closed", false) ∉ seen) ↔ ¬ rtc (gstep l) start ("closed", false).
Proof.
  revert seen queue vs. induction fuel as [|fuel IH]; intros seen queue vs Hinv; cbn; [done|].
  destruct queue as [|[[s g] ln] queue].
  - intros [= <-]. destruct Hinv as [H1 H2 H3 H4]. split; [intros [_ Hn] Hr|naive_solver].
    apply Hn. apply (rtc_closed _ (λ x, x ∈ seen)) in Hr; [done|set_solver|].
    intros x y Hx Hxy. destruct (H4 x y Hx Hxy); set_solver.
  - destruct Hinv as [H1 H2 H3 H4]. cbn in *. case_bool_decide as Hin.
    + apply IH. split; [set_solver..|].
      intros a b Ha Hab. destruct (H4 a b Ha Hab) as [?|[->|?]%elem_of_cons]; auto.
    + destruct (gate_loop _ _ _ _) as [rest|] eqn:Hrest; cbn; [|done]. intros [= <-].
      apply IH in Hrest as <-.
      * rewrite app_nil, not_elem_of_union, not_elem_of_singleton.
        destruct (s =s "closed") eqn:Hs; [apply bool_decide_eq_true in Hs as ->|apply bool_decide_eq_false in Hs].
        -- destruct g; cbn; naive_solver.
        -- cbn. split; [|naive_solver]. intros [[_ ?] ?]. split_and!; congruence.
      * assert (rtc (gstep l) start (s, g)) as Hs by (apply H1; set_solver).
        split.
        -- intros p. rewrite map_app, elem_of_app, elem_of_next. intros [?|?]; [apply H1; set_solver|].
           by eapply rtc_r.
        -- set_solver.
        -- rewrite map_app. set_solver.
        -- intros p q. rewrite map_app, !elem_of_union, !elem_of_singleton, elem_of_app, elem_of_next.
           intros [->|Hp] Hpq; [tauto|]. destruct (H4 p q Hp Hpq) as [?|[?|?]%elem_of_cons]; tauto.
Qed.

Lemma gate_loop_total fuel l seen queue :
  (length queue + pending l (λ x, bool_decide ((x, true) ∈ seen)) +
   pending l (λ x, bool_decide ((x, false) ∈ seen)) < fuel)%nat →
  is_Some (gate_loop fuel l seen queue).
Proof.
  revert seen queue. induction fuel as [|fuel IH]; intros seen queue Hf; [lia|]. cbn.
  destruct queue as [|[[s g] ln] queue]; [done|]. cbn [length] in Hf.
  case_bool_decide as Hin; [apply IH; lia|].
  edestruct IH as [rest ->]; [|done]. rewrite length_app, length_map.
  assert (length (targets l s) ≤ length (out_of l s))%nat as Ht.
  { unfold targets. induction (out_of l s) as [|e es IHe]; cbn; [done|]. destruct (prop e "to"); cbn; lia. }
  assert (∀ b, b ≠ g → pending l (λ x, bool_decide ((x, b) ∈ {[(s, g)]} ∪ seen)) =
                       pending l (λ x, bool_decide ((x, b) ∈ seen))) as Hother.
  { intros b Hb. unfold pending. f_equal. apply list_filter_iff. intros e.
    destruct (prop e "from") as [x|]; [|done].
    rewrite (bool_decide_ext _ ((x, b) ∈ seen)); [done|]. set_solver. }
  assert (pending l (λ x, bool_decide ((x, g) ∈ seen)) =
    (length (out_of l s) + pending l (λ x, bool_decide ((x, g) ∈ {[(s, g)]} ∪ seen)))%nat) as Hg.
  { apply queue_pending_visit; [by apply bool_decide_eq_false|apply bool_decide_eq_true; set_solver|].
    intros x Hx. apply bool_decide_ext. set_solver. }
  destruct g; [rewrite (Hother false) by done|rewrite (Hother true) by done]; lia.
Qed.

Lemma gate_total d : is_Some (gate d).
Proof.
  unfold gate. destruct (row d "machine" "lane") as [l|]; [|done].
  apply gate_loop_total. unfold gate_fuel. cbn [length].
  eapply Nat.le_lt_trans; [apply Nat.add_le_mono; [apply Nat.add_le_mono_l|]; apply pending_le|]. lia.
Qed.

Lemma gstep_ungated l p q :
  rtc (gstep l) p q → q.2 = false → p.2 = false ∧ rtc (ungated_step l) p.1 q.1.
Proof.
  induction 1 as [p|p q r [Hpq Hg] H IH]; [done|]. intros Hr.
  destruct (IH Hr) as [Hq Hrtc]. rewrite Hq in Hg. symmetry in Hg. apply orb_false_iff in Hg as [? ?].
  split; [done|]. eapply rtc_l; [|done]. by split.
Qed.

Lemma ungated_gstep l a b : rtc (ungated_step l) a b → rtc (gstep l) (a, false) (b, false).
Proof.
  induction 1 as [a|a b c [Hab Hg] H IH]; [done|]. eapply rtc_l; [|done]. split; [done|]. cbn. by rewrite Hg.
Qed.

Lemma gate_nil d vs : gate d = Some vs →
  vs = [] ↔ ∀ l, row d "machine" "lane" = Some l → ¬ rtc (ungated_step l) (initial l) "closed".
Proof.
  unfold gate. destruct (row d "machine" "lane") as [l|]; [|naive_solver].
  intros H. apply (gate_loop_spec _ _ (initial l, false)) in H.
  - transitivity (¬ rtc (gstep l) (initial l, false) ("closed", false)); [set_solver|]. split.
    + intros Hn _ [= <-] Hr. by apply Hn, ungated_gstep.
    + intros Hn Hr. apply (Hn l eq_refl). by apply gstep_ungated in Hr as [_ ?].
  - split; [|set_solver..]. cbn. intros p ->%list_elem_of_singleton. constructor.
Qed.

(** *** Verdict totality and the parallel cap *)

(** The verdicts of a kind that a machine's transitions out of [from] carry. *)
Definition routed (m : TableRow) (from kind v : string) : Prop :=
  ∃ e, e ∈ kids m "transition" ∧ prop e "from" = Some from ∧
       prop e "verdict_kind" = Some kind ∧ prop e "verdict" = Some v.

(** The verdicts that the named verdict set declares. *)
Definition declared (d : TableDoc) (kind v : string) : Prop :=
  ∃ r c, row d "verdict_set" kind = Some r ∧ c ∈ kids r "value" ∧ key c = v.

Definition totals_sound (d : TableDoc) : Prop :=
  ∀ t m, t ∈ rows d "total_verdicts" →
    row d "machine" (default "" (prop t "machine")) = Some m →
    ∀ v, routed m (default "" (prop t "from")) (default "" (prop t "kind")) v ↔
         declared d (default "" (prop t "kind")) v.

Definition is_cap (c : TableRow) : Prop := prop c "gate" = Some "parallel_cap".

(** The states whose implementer counts against the cap. *)
Definition implementing (l : TableRow) (n : string) : Prop :=
  ∃ s, s ∈ kids l "state" ∧ row_flag s "implementer_active" = true ∧ key s = n.

Record cap_sound (d : TableDoc) (l : TableRow) : Prop := {
  cap_declared : ∃ c, c ∈ rows d "capacity_class" ∧ is_cap c;
  cap_states : ∀ c n, c ∈ rows d "capacity_class" → is_cap c →
    (∃ s, s ∈ kids c "state" ∧ key s = n) ↔ implementing l n;
}.

Record workflow_sound (d : TableDoc) : Prop := {
  sound_machines : ∀ m, m ∈ rows d "machine" → machine_sound m;
  sound_totals : totals_sound d;
  sound_gate : ∀ l, row d "machine" "lane" = Some l → ¬ rtc (ungated_step l) (initial l) "closed";
  sound_cap : ∀ l, row d "machine" "lane" = Some l → cap_sound d l;
}.

Lemma if_nil {A} (b : bool) (v : A) : (if b then [] else [v]) = [] ↔ b = true.
Proof. by destruct b. Qed.

Lemma totals_test d m from kind :
  totals_got m from kind = totals_expect d kind ↔ ∀ v, routed m from kind v ↔ declared d kind v.
Proof.
  rewrite set_eq. apply forall_proper. intros v.
  assert (v ∈ totals_got m from kind ↔ routed m from kind v) as ->.
  { unfold totals_got, routed. rewrite elem_of_list_to_set, list_elem_of_omap. split.
    - intros (e & [[? ?] ?]%list_elem_of_filter & ?). by exists e.
    - intros (e & ? & ? & ? & ?). exists e. by rewrite list_elem_of_filter. }
  assert (v ∈ totals_expect d kind ↔ declared d kind v) as ->; [|done].
  unfold totals_expect, declared. destruct (row d "verdict_set" kind) as [r|]; [|set_solver].
  rewrite elem_of_list_to_set, list_elem_of_fmap. naive_solver.
Qed.

Lemma totals_nil d : totals d = [] ↔ totals_sound d.
Proof.
  unfold totals, totals_sound. rewrite bind_nil. apply forall_proper. intros t. cbn.
  destruct (row d "machine" (default "" (prop t "machine"))) as [m|]; [|naive_solver].
  rewrite if_nil, bool_decide_eq_true, totals_test. naive_solver.
Qed.

Lemma cap_nil d :
  cap d = [] ↔ ∀ l, row d "machine" "lane" = Some l → cap_sound d l.
Proof.
  unfold cap. destruct (row d "machine" "lane") as [l|]; [|naive_solver].
  set (classes := filter _ (rows d "capacity_class")).
  assert (∀ c, c ∈ classes ↔ c ∈ rows d "capacity_class" ∧ is_cap c) as Hc.
  { intros c. unfold classes. rewrite list_elem_of_filter. unfold is_cap. tauto. }
  rewrite app_nil, bind_nil. setoid_rewrite app_nil. setoid_rewrite bind_nil. setoid_rewrite if_nil.
  setoid_rewrite bool_decide_eq_true. setoid_rewrite any_spec. setoid_rewrite bool_decide_eq_true.
  setoid_rewrite elem_of_btree_set. setoid_rewrite elem_of_names. setoid_rewrite Hc.
  split.
  - intros [H Hne] _ [= <-]. split.
    + destruct classes as [|c cs]; [done|]. exists c. apply Hc. set_solver.
    + intros c n Hin Hcap. destruct (H c (conj Hin Hcap)) as [H1 H2]. split.
      * intros (s & Hs & <-). by apply H1.
      * apply H2.
  - intros H. destruct (H l eq_refl) as [(c & Hin & Hcap) Hst]. split.
    + intros c' [Hin' Hcap']. split; [|intros n; apply Hst; done].
      intros s Hs. apply (Hst c'); eauto.
    + destruct classes; [|done]. exfalso. apply (not_elem_of_nil c), Hc. done.
Qed.

Lemma check_nil (d : TableDoc) (vs : list violation) :
  check d = Some (Ok vs) → vs = [] ↔ workflow_sound d.
Proof.
  unfold check. destruct (collect_res _ _) as [per|] eqn:Hm; [|done].
  destruct (gate d) as [g|] eqn:Hg; cbn; [|done]. intros [= <-].
  rewrite !app_nil, (concat_nil _ _ _ _ Hm (λ m b _ Hb, check_machine_nil m b Hb)),
    totals_nil, (gate_nil d g Hg), cap_nil.
  split; [intros (? & ? & ? & ?); by split|intros []; done].
Qed.

Lemma check_total (d : TableDoc) : check d ≠ None.
Proof.
  unfold check. destruct (collect_res _ _); [|done]. by destruct (gate_total d) as [g ->].
Qed.

(** *** When the checker returns an answer *)

(** Every transition out of [s] names its target. *)
Definition targets_named (m : TableRow) (s : string) : Prop :=
  ∀ e, e ∈ kids m "transition" → prop e "from" = Some s → ∃ to, prop e "to" = Some to.

(** Every state says whether it is terminal, and transitions that can be taken
    from the initial state, or from a state that is not terminal, name their
    targets. *)
Record machine_readable (m : TableRow) : Prop := {
  readable_initial : ∀ s, rtc (mstep m) (initial m) s → targets_named m s;
  readable_states : ∀ st, st ∈ kids m "state" → ∃ terminal, row_get st "terminal" ≫= as_bool = Some terminal ∧
    (terminal = false → ∀ s, rtc (mstep m) (key st) s → targets_named m s);
}.
Definition workflow_readable (d : TableDoc) : Prop := ∀ m, m ∈ rows d "machine" → machine_readable m.

Lemma wf_out_named m s : wf_out m s ↔ targets_named m s.
Proof.
  unfold wf_out, targets_named. rewrite collect_res_is_ok. setoid_rewrite elem_of_out_of.
  setoid_rewrite row_string_prop. naive_solver.
Qed.

Lemma reached_is_ok m start :
  (∃ out, reached (reach m start) = Ok out) ↔ ∀ s, rtc (mstep m) start s → targets_named m s.
Proof.
  setoid_rewrite <- wf_out_named. split.
  - intros [out (_ & H & _)%reach_ok]. exact H.
  - intros H. destruct (reach_wf m start H) as (out & -> & _). by exists out.
Qed.

Lemma check_state_is_ok m terms init st :
  (∃ vs, check_state m terms init st = Ok vs) ↔
  ∃ terminal, row_get st "terminal" ≫= as_bool = Some terminal ∧
    (terminal = false → ∀ s, rtc (mstep m) (key st) s → targets_named m s).
Proof.
  setoid_rewrite <- reached_is_ok. unfold check_state, row_bool.
  destruct (row_get st "terminal" ≫= as_bool) as [[]|]; cbn.
  - split; [by exists true|by eexists].
  - split.
    + intros [vs H]. exists false. split; [done|]. intros _. destruct (reached _) as [out|]; [by exists out|done].
    + intros (? & [= <-] & H). destruct (H eq_refl) as [out ->]. by eexists.
  - split; [by intros [? ?]|by intros (? & ? & _)].
Qed.

Lemma check_machine_is_ok m : (∃ vs, check_machine m = Ok vs) ↔ machine_readable m.
Proof.
  unfold check_machine. split.
  - intros [vs H]. destruct (reached (reach m (initial m))) as [init|] eqn:Hr; [|done]. cbn in H.
    destruct (collect_res _ _) as [states|] eqn:Hs; [|done]. split; [apply reached_is_ok; by exists init|].
    intros st Hst. apply (check_state_is_ok m (terminal_names m) init).
    revert st Hst. apply collect_res_is_ok. by exists states.
  - intros [Hi Hs]. apply reached_is_ok in Hi as [init ->]. cbn.
    destruct (proj2 (collect_res_is_ok (check_state m (terminal_names m) init) (kids m "state"))) as [states ->];
      [|by eexists]. intros st Hst. apply check_state_is_ok. auto.
Qed.

Lemma check_is_ok (d : TableDoc) : (∃ vs, check d = Some (Ok vs)) ↔ workflow_readable d.
Proof.
  unfold workflow_readable. setoid_rewrite <- check_machine_is_ok. rewrite <- collect_res_is_ok.
  unfold check. destruct (gate_total d) as [g ->]. destruct (collect_res _ _) as [per|]; cbn; naive_solver.
Qed.

Lemma report_exit vs : exit_code (report vs) = 0 ↔ vs = [].
Proof. destruct vs; cbn; done. Qed.

(** C12. The checker is exact: when [check] returns, it reports no violation, and
    the process exits with code 0, if and only if the workflow is sound, that is: every state of every machine
    is reachable from the initial state, every state not terminal has a
    transition and a path to a terminal state, every cycle has a way out,
    every transition names its evidence, the routed verdicts are the declared
    ones, the lane machine closes only through a forward gate, and the
    parallel cap covers exactly the states with an active implementer. *)
Theorem check_exact (d : TableDoc) (vs : list violation) :
  check d = Some (Ok vs) →
  (vs = [] ↔ workflow_sound d) ∧ (exit_code (report vs) = 0 ↔ workflow_sound d).
Proof. intros H%check_nil. by rewrite report_exit. Qed.

(** The searches of the checker terminate: the fuel of [reach] and of
    [gate] suffices for every document, and [reach] computes exactly the set
    of reachable states, or fails exactly when a reachable state has a
    transition without a target. *)
Theorem reach_terminates (d : TableDoc) (m : TableRow) (start : string) :
  is_Some (gate d) ∧
  match reach m start with
  | Some (Ok out) => (∀ s, s ∈ out ↔ rtc (mstep m) start s) ∧ ∀ s, s ∈ out → wf_out m s
  | Some (Err _) => ∃ s, rtc (mstep m) start s ∧ ¬ wf_out m s
  | None => False
  end.
Proof.
  split; [apply gate_total|].
  destruct (reach_spec m start) as [(o & -> & H1 & H2)|(e & -> & H)]; [|done].
  split; [done|]. intros s Hs%H2. by apply H1.
Qed.
End Check.
