(* ===== verification/Kdl.v ===== *)
(** * KDL documents and their reader

    The document tree of the KDL library ([kdl], outside the repository): a
    node has a name, entries (arguments and properties, with their values) and
    maybe children; spans are byte offsets.  The lookup of a property by its
    name is the library's, a parameter.  Below it [SourceDoc] of
    [codegen/src/kdl_read.rs], which reads nodes strictly and reports lines. *)

From S2P Require Import Prelude RustColl RustStr.

(** ** The library's tree *)

Inductive KdlValue := KString (s : string) | KInteger (n : Z) | KFloat (text : string) | KBool (b : bool) | KNull.

Definition kdl_string (v : KdlValue) : option string := match v with KString s => Some s | _ => None end.
Definition kdl_integer (v : KdlValue) : option Z := match v with KInteger n => Some n | _ => None end.
Definition kdl_bool (v : KdlValue) : option bool := match v with KBool b => Some b | _ => None end.

Record KdlEntry := { en_name : option string; en_ty : option string; en_value : KdlValue; en_offset : Z }.

Inductive KdlNode :=
| KNode (name : string) (entries : list KdlEntry) (children : option (list KdlNode)) (offset : Z).

Definition node_name (n : KdlNode) : string := let '(KNode x _ _ _) := n in x.
Definition node_entries (n : KdlNode) : list KdlEntry := let '(KNode _ x _ _) := n in x.
Definition node_children (n : KdlNode) : option (list KdlNode) := let '(KNode _ _ x _) := n in x.
Definition node_offset (n : KdlNode) : Z := let '(KNode _ _ _ x) := n in x.

Definition karg (v : KdlValue) (offset : Z) : KdlEntry :=
  {| en_name := None; en_ty := None; en_value := v; en_offset := offset |}.
Definition kprop (k : string) (v : KdlValue) (offset : Z) : KdlEntry :=
  {| en_name := Some k; en_ty := None; en_value := v; en_offset := offset |}.

(** [KdlNode::entry(key)]: what it promises is that the entry it gives is one
    of the node's with that name, and that it gives one when there is one. *)
Class KdlLib := {
  kdl_entry : KdlNode → string → option KdlEntry;
  kdl_entry_some : ∀ n k e, kdl_entry n k = Some e → e ∈ node_entries n ∧ en_name e = Some k;
  kdl_entry_none : ∀ n k e, kdl_entry n k = None → e ∈ node_entries n → en_name e ≠ Some k;
}.

(** An instance: the last entry with the name. *)
Definition last_entry (n : KdlNode) (k : string) : option KdlEntry :=
  last (filter (λ e, en_name e = Some k) (node_entries n)).

#[global] Instance last_entry_lib : KdlLib.
Proof.
  refine {| kdl_entry := last_entry |}; intros n k e; unfold last_entry; intros H.
  - apply last_Some_elem_of, list_elem_of_filter in H. tauto.
  - apply last_None in H. intros Hin Hname.
    assert (e ∈ filter (λ e, en_name e = Some k) (node_entries n)) as Hf by by apply list_elem_of_filter.
    rewrite H in Hf. by apply not_elem_of_nil in Hf.
Defined.

(** ** [SourceDoc] *)

Record SourceDoc := { sd_source : string; sd_nodes : list KdlNode }.

(** [source[..n].bytes().filter(|b| *b == b'\n').count()] *)
Fixpoint newlines_before (count : Z) (n : nat) (source : string) : Z :=
  match n, source with
  | S n', String a rest => newlines_before (if Ascii.eqb a LF then count + 1 else count) n' rest
  | _, _ => count
  end.

(** A prefix longer than the text is the text, as with [offset.min(len)]. *)
Definition line_for_offset (source : string) (offset : Z) : Z := newlines_before 0 (Z.to_nat offset) source + 1.

Section Reader.
Context `{KdlLib} (src : SourceDoc).

Definition src_line (n : KdlNode) : Z := line_for_offset (sd_source src) (node_offset n).

(** Errors are the text of [Error::input]. *)
Definition src_err (n : KdlNode) (message : string) : string :=
  message +:+ " at line " +:+ show_uint (src_line n).
Definition entry_err (e : KdlEntry) (message : string) : string :=
  message +:+ " at line " +:+ show_uint (line_for_offset (sd_source src) (en_offset e)).
Definition src_need (n : KdlNode) (ok : bool) (message : string) : result string unit :=
  if ok then Ok tt else Err (src_err n message).

(** The loop of [entries]: properties seen and arguments counted. *)
Fixpoint entries_loop (n : KdlNode) (positional : Z) (allowed : gset string) (seen : gset string) (args : Z)
    (rest : list KdlEntry) : result string Z :=
  match rest with
  | [] => Ok args
  | e :: rest' =>
      if bool_decide (is_Some (en_ty e)) then Err (entry_err e ("typed entry on `" +:+ node_name n +:+ "`"))
      else match en_name e with
      | Some k =>
          if negb (bool_decide (k ∈ allowed))
          then Err (entry_err e ("unknown property `" +:+ k +:+ "` on node `" +:+ node_name n +:+ "`"))
          else if bool_decide (k ∈ seen)
          then Err (entry_err e ("duplicate property `" +:+ k +:+ "` on node `" +:+ node_name n +:+ "`"))
          else entries_loop n positional allowed ({[k]} ∪ seen) args rest'
      | None =>
          let args := args + 1 in
          if positional <? args
          then Err (entry_err e ("unexpected argument " +:+ show_uint args +:+ " on `" +:+ node_name n +:+ "`"))
          else entries_loop n positional allowed seen args rest'
      end
  end.

Definition src_entries (n : KdlNode) (positional : Z) (props : list string) : result string unit :=
  args ← entries_loop n positional (list_to_set props) ∅ 0 (node_entries n);
  src_need n (args =? positional)
    ("node `" +:+ node_name n +:+ "` requires " +:+ show_uint positional +:+ " argument(s), found " +:+ show_uint args).

Definition src_children (n : KdlNode) : result string (list KdlNode) :=
  ok_or (node_children n) (src_err n ("node `" +:+ node_name n +:+ "` requires children")).
Definition src_no_children (n : KdlNode) : result string unit :=
  src_need n (bool_decide (node_children n = None)) ("node `" +:+ node_name n +:+ "` must not have children").

Definition node_args (n : KdlNode) : list KdlValue :=
  map en_value (filter (λ e, en_name e = None) (node_entries n)).

Definition src_arg (n : KdlNode) (index : nat) : result string KdlValue :=
  ok_or (node_args n !! index)
    (src_err n ("missing argument " +:+ show_uint (Z.of_nat index) +:+ " on `" +:+ node_name n +:+ "`")).
Definition src_arg_string (n : KdlNode) (index : nat) : result string string :=
  v ← src_arg n index;
  ok_or (kdl_string v) (src_err n ("argument " +:+ show_uint (Z.of_nat index) +:+ " on `" +:+ node_name n +:+ "` must be string")).

(** [u64::try_from] of an [i128] *)
Definition to_u64 (z : Z) : option Z := if in_rangeb u64_max z then Some z else None.

Definition src_as_u64 (n : KdlNode) (v : KdlValue) (label : string) : result string Z :=
  ok_or (kdl_integer v ≫= to_u64) (src_err n (label +:+ " on `" +:+ node_name n +:+ "` must be non-negative")).
Definition src_arg_u64 (n : KdlNode) (index : nat) : result string Z :=
  v ← src_arg n index;
  src_as_u64 n v ("argument " +:+ show_uint (Z.of_nat index)).

Definition src_prop (n : KdlNode) (k : string) : result string KdlValue :=
  ok_or (en_value <$> kdl_entry n k) (src_err n ("missing required property `" +:+ k +:+ "` on `" +:+ node_name n +:+ "`")).
Definition src_prop_string (n : KdlNode) (k : string) : result string string :=
  v ← src_prop n k;
  ok_or (kdl_string v) (src_err n ("property `" +:+ k +:+ "` on `" +:+ node_name n +:+ "` must be string")).
Definition src_prop_bool (n : KdlNode) (k : string) : result string bool :=
  v ← src_prop n k;
  ok_or (kdl_bool v) (src_err n ("property `" +:+ k +:+ "` on `" +:+ node_name n +:+ "` must be boolean")).
Definition src_prop_u64 (n : KdlNode) (k : string) : result string Z :=
  v ← src_prop n k;
  src_as_u64 n v ("property `" +:+ k +:+ "`").

Definition src_opt {T} (f : KdlValue → option T) (ty : string) (n : KdlNode) (k : string) : result string (option T) :=
  match kdl_entry n k with
  | None => Ok None
  | Some e =>
      match f (en_value e) with
      | Some t => Ok (Some t)
      | None => Err (entry_err e ("property `" +:+ k +:+ "` on `" +:+ node_name n +:+ "` must be " +:+ ty))
      end
  end.
Definition src_opt_string := src_opt kdl_string "string".
Definition src_opt_bool := src_opt kdl_bool "boolean".

Definition src_leaf (n : KdlNode) : result string string :=
  _ ← src_entries n 1 [];
  text ← src_arg_string n 0;
  _ ← src_no_children n;
  Ok text.
Definition src_u64_leaf (n : KdlNode) : result string Z :=
  _ ← src_entries n 1 [];
  value ← src_arg_u64 n 0;
  _ ← src_no_children n;
  Ok value.
Definition src_skip (n : KdlNode) (positional : Z) (props : list string) : result string unit :=
  _ ← src_entries n positional props;
  src_no_children n.

(** ** What a node that is read strictly looks like *)

Definition prop_names (n : KdlNode) : list string := omap en_name (node_entries n).

Lemma entries_loop_ok n positional allowed rest : ∀ seen args total,
  entries_loop n positional allowed seen args rest = Ok total →
  total = args + zlen (filter (λ e, en_name e = None) rest) ∧
  NoDup (omap en_name rest) ∧ (∀ k, k ∈ omap en_name rest → k ∈ allowed ∧ k ∉ seen) ∧
  Forall (λ e, en_ty e = None) rest.
Proof.
  induction rest as [|e rest IH]; intros seen args total Hr; cbn [entries_loop] in Hr.
  - injection Hr as <-. rewrite filter_nil, zlen_nil. split_and!; [lia|constructor|set_solver|done].
  - apply guard_ok in Hr as [Hty Hr]. apply bool_decide_eq_false, eq_None_not_Some in Hty.
    destruct (en_name e) as [k|] eqn:Hname.
    + apply guard_ok in Hr as [Hall Hr]. apply guard_ok in Hr as [Hseen Hr]. to_prop.
      apply IH in Hr as (-> & Hnd & Hk & Hall'). rewrite filter_cons_False by (by rewrite Hname).
      cbn [omap list_omap]. rewrite Hname. split_and!; [done| | |by constructor].
      * constructor; [|done]. intros Hin%Hk. set_solver.
      * intros k' [->|Hin]%elem_of_cons; [done|]. apply Hk in Hin. set_solver.
    + apply guard_ok in Hr as [_ Hr]. apply IH in Hr as (-> & Hnd & Hk & Hall').
      rewrite filter_cons_True by done. cbn [omap list_omap]. rewrite Hname, zlen_cons.
      split_and!; [lia|done|done|by constructor].
Qed.

Lemma src_entries_ok n positional props u :
  src_entries n positional props = Ok u →
  NoDup (prop_names n) ∧ (∀ k, k ∈ prop_names n → k ∈ props) ∧ zlen (node_args n) = positional.
Proof.
  unfold src_entries. intros Hr. apply bind_ok in Hr as (args & Hl & Hr).
  apply entries_loop_ok in Hl as (-> & Hnd & Hk & _). unfold src_need in Hr.
  case_match eqn:E; [|done]. to_prop. split_and!; [done| |].
  - intros k Hin%Hk. set_solver.
  - unfold node_args, zlen. rewrite length_map. unfold zlen in E. lia.
Qed.

Lemma src_no_children_ok n u : src_no_children n = Ok u ↔ node_children n = None.
Proof. unfold src_no_children, src_need. destruct (node_children n), u; cbn; split; done. Qed.
End Reader.
