(* ===== verification/TableReader.v ===== *)
(** * The table reader

    [codegen/src/table.rs]: rows of a table document, read from KDL nodes under
    a specification of the tables, their arguments, properties, children and
    keys; and [run_path] of [modelcheck/src/lib.rs], which reads the workflow
    document and checks it. *)

From S2P Require Import Prelude RustColl RustStr Kdl Modelcheck.

Record NodeSpec := { ns_name : string; ns_positional : Z; ns_props : string; ns_children : string; ns_flags : Z }.
Record TableSpec := { ts_schema : string; ts_version : Z; ts_roots : string; ts_nodes : list NodeSpec }.

Abbreviation row_t := (@TableRow KdlValue) (only parsing).
Abbreviation doc_t := (@TableDoc KdlValue) (only parsing).

Definition BAR : ascii := "|"%char.

Definition has (l item : string) : bool := any (λ s, s =s item) (split_char BAR l).

Definition find_spec (spec : TableSpec) (name : string) : option NodeSpec :=
  find_first (λ s, ns_name s =s name) (ts_nodes spec).

(** The key under which a row may occur once: none when it is not [flagged]. *)
Definition dup_key (spec : TableSpec) (r : row_t) : option (string * string) :=
  let flags := match find_spec spec (table r) with Some s => ns_flags s | None => 0 end in
  if negb (Z.land flags 2 =? 0) then Some (table r, "")
  else if negb (Z.land flags 1 =? 0) then Some (table r, key r)
  else None.

Definition dups (rows : list row_t) (spec : TableSpec) : result string (list (string * string)) :=
  fold_res (λ seen r,
    match dup_key spec r with
    | None => Ok seen
    | Some k =>
        if bool_decide (k ∈ seen)
        then Err ("duplicate " +:+ table r +:+ " at line " +:+ show_uint (line r))
        else Ok (seen ++ [k])
    end) [] rows.

Section Read.
Context (src : SourceDoc) (spec : TableSpec).

Definition unknown_node (n : KdlNode) : string := src_err src n ("unknown node `" +:+ node_name n +:+ "`").

(** A node may stand under its parent, or at the root. *)
Definition misplaced (parent : option NodeSpec) (name : string) : bool :=
  match parent with
  | Some p => negb (has (ns_children p) name)
  | None => negb (has (ts_roots spec) name)
  end.

Fixpoint read_row (parent : option NodeSpec) (n : KdlNode) : result string row_t :=
  match n with
  | KNode name entries children offset =>
      match find_spec spec name with
      | None => Err (unknown_node n)
      | Some s =>
          if misplaced parent name then Err (unknown_node n)
          else
            let props := List.filter (λ p, negb (is_empty p)) (split_char BAR (ns_props s)) in
            _ ← src_entries src n (ns_positional s) props;
            rows ← (if is_empty (ns_children s) then
                      _ ← src_no_children src n;
                      Ok []
                    else
                      match children with
                      | Some nodes => collect_res (read_row (Some s)) nodes
                      | None => Err (src_err src n ("node `" +:+ name +:+ "` requires children"))
                      end);
            _ ← dups rows spec;
            k ← (if ns_positional s =? 0 then Ok "" else src_arg_string src n 0);
            Ok (Row name k (omap (λ e, (λ x, (x, en_value e)) <$> en_name e) entries) rows (src_line src n))
      end
  end.

Definition once {T} (slot : option T) (n : KdlNode) (value : T) (label : string) : result string (option T) :=
  match slot with
  | Some _ => Err (src_err src n ("duplicate " +:+ label))
  | None => Ok (Some value)
  end.

Definition doc_step (state : option string * option Z * list row_t) (n : KdlNode)
  : result string (option string * option Z * list row_t) :=
  let '(schema, version, rows) := state in
  if node_name n =s "schema" then
    value ← src_leaf src n;
    schema ← once schema n value "schema";
    Ok (schema, version, rows)
  else if node_name n =s "version" then
    value ← src_u64_leaf src n;
    version ← once version n value "version";
    Ok (schema, version, rows)
  else
    r ← read_row None n;
    Ok (schema, version, rows ++ [r]).

Definition parse_doc : result string doc_t :=
  state ← fold_res doc_step (None, None, []) (sd_nodes src);
  let '(schema, version, rows) := state in
  schema ← ok_or schema "workflow.kdl missing schema or version";
  version ← ok_or version "workflow.kdl missing schema or version";
  if negb (schema =s ts_schema spec) then Err "bad schema"
  else if negb (version =? ts_version spec) then Err "bad version"
  else
    _ ← dups rows spec;
    Ok {| doc_schema := schema; doc_version := version; doc_rows := rows |}.

(** ** What a row that was read looks like *)

(** A row conforms to its table: its table is known and may stand where it
    stands, its properties are allowed and distinct, its children are rows that
    may stand under it, and no two of them share a key that may occur once. *)
Inductive conforms : option NodeSpec → row_t → Prop :=
| Conforms parent s r :
    find_spec spec (table r) = Some s → misplaced parent (table r) = false →
    NoDup (props r).*1 → (∀ p, p ∈ (props r).*1 → has (ns_props s) p = true) →
    (ns_children s = "" → children r = []) →
    (∀ c, c ∈ children r → conforms (Some s) c) →
    NoDup (omap (dup_key spec) (children r)) →
    conforms parent r.

Lemma dups_ok rows keys : dups rows spec = Ok keys → NoDup (omap (dup_key spec) rows).
Proof.
  unfold dups. intros H.
  assert (keys = omap (dup_key spec) rows ∧ NoDup keys) as [-> ?]; [|done]. revert H.
  apply (fold_res_inv _ (λ done keys, keys = omap (dup_key spec) done ∧ NoDup keys)); [split; [done|constructor]|].
  intros before r seen seen' [-> Hnd] _ H. rewrite omap_app. cbn [omap list_omap].
  destruct (dup_key spec r) as [k|]; [|injection H as <-; by rewrite app_nil_r].
  apply guard_ok in H as [Hk H]. to_prop. injection H as <-. split; [done|].
  apply NoDup_app. split; [done|]. split; [|apply NoDup_singleton]. intros x Hx ->%list_elem_of_singleton. done.
Qed.

Lemma prop_pairs_names (entries : list KdlEntry) :
  (omap (λ e, (λ x, (x, en_value e)) <$> en_name e) entries).*1 = omap en_name entries.
Proof. induction entries as [|e es IH]; cbn; [done|]. destruct (en_name e); cbn; by rewrite IH. Qed.

Lemma has_spec l item : has l item = true ↔ item ∈ split_char BAR l.
Proof.
  unfold has. rewrite any_spec. split.
  - intros (x & Hx & He). to_prop. by subst.
  - intros Hx. exists item. split; [done|]. by apply bool_decide_eq_true.
Qed.

(** Induction over nodes with the children in lists. *)
Definition KdlNode_nested (P : KdlNode → Prop)
    (step : ∀ name entries children offset, Forall P (default [] children) → P (KNode name entries children offset)) :
  ∀ n, P n :=
  fix go n :=
    match n with
    | KNode name entries children offset =>
        step name entries children offset
          (match children as c return Forall P (default [] c) with
           | None => List.Forall_nil P
           | Some nodes =>
               (fix all l : Forall P l :=
                  match l with [] => List.Forall_nil P | c :: l' => List.Forall_cons P c l' (go c) (all l') end) nodes
           end)
    end.

Lemma read_row_conforms n : ∀ parent r, read_row parent n = Ok r → conforms parent r ∧ table r = node_name n.
Proof.
  induction n as [name entries kids offset IH] using KdlNode_nested. intros parent r H. cbn [read_row] in H.
  destruct (find_spec spec name) as [s|] eqn:Hs; [|done]. apply guard_ok in H as [Hplace H].
  apply bind_ok in H as (? & He & H). apply bind_ok in H as (rows & Hrows & H).
  apply bind_ok in H as (keys & Hd & H). apply bind_ok in H as (k & _ & H). injection H as <-.
  apply src_entries_ok in He as (Hnd & Hprops & _). split; [|done].
  econstructor; cbn [table props children]; try done.
  - by rewrite prop_pairs_names.
  - rewrite prop_pairs_names. intros p Hp. apply has_spec. apply Hprops in Hp.
    rewrite list_elem_of_In, List.filter_In, <- list_elem_of_In in Hp. by apply Hp.
  - intros E. rewrite E in Hrows. cbn in Hrows. apply bind_ok in Hrows as (? & _ & Hrows). by injection Hrows as <-.
  - intros c Hc. destruct (is_empty (ns_children s)).
    { apply bind_ok in Hrows as (? & _ & Hrows). injection Hrows as <-. by apply not_elem_of_nil in Hc. }
    destruct kids as [nodes|]; [|done]. cbn in IH.
    apply collect_res_ok in Hrows. apply list_elem_of_lookup in Hc as [i Hi].
    destruct (Forall2_lookup_r _ _ _ _ _ Hrows Hi) as (n & Hn & Hread).
    rewrite Forall_lookup in IH. by eapply IH in Hread as [? _].
  - by eapply dups_ok.
Qed.

Lemma fold_rows_conform nodes schema version rows :
  fold_res doc_step (None, None, []) nodes = Ok (schema, version, rows) → ∀ r, r ∈ rows → conforms None r.
Proof.
  apply (fold_res_inv doc_step (λ _ state, ∀ r, r ∈ state.2 → conforms None r) _ nodes (schema, version, rows)); [set_solver|].
  intros _ n [[sc ve] rs] [[sc' ve'] rs'] IH _ H. unfold doc_step in H. cbn [snd] in *.
  destruct (node_name n =s "schema").
  { apply bind_ok in H as (? & _ & H). apply bind_ok in H as (? & _ & H). by injection H as <- <- <-. }
  destruct (node_name n =s "version").
  { apply bind_ok in H as (? & _ & H). apply bind_ok in H as (? & _ & H). by injection H as <- <- <-. }
  apply bind_ok in H as (r & Hr & H). injection H as <- <- <-.
  intros r' [Hr'| ->%list_elem_of_singleton]%elem_of_app; [by apply IH|]. by eapply read_row_conforms.
Qed.

Lemma parse_doc_conforms d :
  parse_doc = Ok d →
  doc_schema d = ts_schema spec ∧ doc_version d = ts_version spec ∧
  (∀ r, r ∈ doc_rows d → conforms None r) ∧ NoDup (omap (dup_key spec) (doc_rows d)).
Proof.
  unfold parse_doc. intros H. apply bind_ok in H as ([[schema version] rows] & Hf & H).
  apply bind_ok in H as (sc & Hsc & H). apply ok_or_ok in Hsc. apply bind_ok in H as (ve & Hve & H). apply ok_or_ok in Hve.
  apply guard_ok in H as [Es H]. apply guard_ok in H as [Ev H]. apply bind_ok in H as (keys & Hd & H).
  injection H as <-. to_prop. cbn. split_and!; [done|done| |by eapply dups_ok].
  by eapply fold_rows_conform.
Qed.

(** Rows with a key of their own have it once. *)
Lemma keyed_rows_distinct (rows : list row_t) t s :
  find_spec spec t = Some s → Z.land (ns_flags s) 2 = 0 → Z.land (ns_flags s) 1 ≠ 0 →
  NoDup (omap (dup_key spec) rows) → NoDup (map key (filter (λ r, table r = t) rows)).
Proof.
  intros Hs H2 H1 Hnd. induction rows as [|r rows IH]; [constructor|]. cbn [omap list_omap] in Hnd.
  rewrite filter_cons. destruct (decide (table r = t)) as [<-|Hne].
  - unfold dup_key in Hnd at 1. rewrite Hs, H2 in Hnd. cbn in Hnd.
    rewrite (proj2 (Z.eqb_neq _ _) H1) in Hnd. cbn in Hnd. inversion Hnd as [|? ? Hnotin Hnd' E]; subst.
    cbn. constructor; [|by apply IH]. intros (r' & Hkey & Hr')%list_elem_of_fmap.
    apply list_elem_of_filter in Hr' as [Ht Hr']. apply Hnotin, list_elem_of_omap. exists r'. split; [done|].
    unfold dup_key. rewrite Ht, Hs, H2. cbn. rewrite (proj2 (Z.eqb_neq _ _) H1). cbn. by rewrite Hkey.
  - apply IH. destruct (dup_key spec r); [by inversion Hnd|done].
Qed.

(** A table that may occur once does. *)
Lemma single_row (rows : list row_t) t s :
  find_spec spec t = Some s → Z.land (ns_flags s) 2 ≠ 0 →
  NoDup (omap (dup_key spec) rows) → (length (filter (λ r, table r = t) rows) ≤ 1)%nat.
Proof.
  intros Hs H2 Hnd. induction rows as [|r rows IH]; [cbn; lia|]. cbn [omap list_omap] in Hnd.
  rewrite filter_cons. destruct (decide (table r = t)) as [<-|Hne].
  - unfold dup_key in Hnd at 1. rewrite Hs, (proj2 (Z.eqb_neq _ _) H2) in Hnd. cbn in Hnd.
    inversion Hnd as [|? ? Hnotin Hnd' E]; subst. assert (filter (λ x, table x = table r) rows = []) as ->; [|cbn; lia].
    apply elem_of_nil_inv. intros r' [Ht Hr']%list_elem_of_filter. apply Hnotin, list_elem_of_omap.
    exists r'. split; [done|]. unfold dup_key. by rewrite Ht, Hs, (proj2 (Z.eqb_neq _ _) H2).
  - apply IH. destruct (dup_key spec r); [by inversion Hnd|done].
Qed.
End Read.

(** ** The workflow document *)

Definition ROOT : string := "doc|machine|axis|attribute|verdict_set|total_verdicts|capacity_class".
Definition STATE : string := "terminal|forward_gate|integrated|implementer_active|validates|round".
Definition TRANSITION : string := "from|to|evidence|verdict_kind|verdict|route|outcome|status|doc".
Definition node_spec (name : string) (positional : Z) (props children : string) (flags : Z) : NodeSpec :=
  {| ns_name := name; ns_positional := positional; ns_props := props; ns_children := children; ns_flags := flags |}.
Definition WORKFLOW_SPEC : TableSpec := {|
  ts_schema := "autopilot.workflow.v1"; ts_version := 1; ts_roots := ROOT;
  ts_nodes := [
    node_spec "doc" 1 "" "" 0;
    node_spec "machine" 1 "" "doc|initial|state|transition" 1;
    node_spec "initial" 1 "" "" 2;
    node_spec "state" 1 STATE "" 1;
    node_spec "transition" 0 TRANSITION "" 0;
    node_spec "axis" 1 "contract" "doc|value" 1;
    node_spec "attribute" 1 "contract|doc" "" 1;
    node_spec "value" 1 "" "" 1;
    node_spec "verdict_set" 1 "contract" "value" 1;
    node_spec "total_verdicts" 0 "machine|kind|from|doc" "" 0;
    node_spec "capacity_class" 1 "gate|doc" "state" 1] |}.

(** [run_path] on a document that was read; [None] is the checker out of fuel. *)
Definition run_doc (src : SourceDoc) : option CheckReport :=
  let failed e := Some {| exit_code := 2; stdout := ""; stderr := e +:+ String LF "" |} in
  match parse_doc src WORKFLOW_SPEC with
  | Err e => failed e
  | Ok d =>
      match check kdl_string kdl_bool d with
      | None => None
      | Some (Err e) => failed e
      | Some (Ok v) => Some (report v)
      end
  end.

(** A machine of a document that was read has distinct state names and at most
    one initial state. *)
Definition machine_named (m : row_t) : Prop :=
  NoDup (map key (kids m "state")) ∧ (length (kids m "initial") ≤ 1)%nat.

Lemma workflow_machines src d :
  parse_doc src WORKFLOW_SPEC = Ok d →
  NoDup (map key (rows d "machine")) ∧ ∀ m, m ∈ rows d "machine" → machine_named m.
Proof.
  intros H. apply parse_doc_conforms in H as (_ & _ & Hconf & Hnd). split.
  { eapply (keyed_rows_distinct WORKFLOW_SPEC); [reflexivity|reflexivity|done|exact Hnd]. }
  intros m [Ht Hm]%list_elem_of_filter. apply Hconf in Hm. inversion Hm as [? ? ? _ _ _ _ _ _ Hkids]; subst. split.
  - eapply (keyed_rows_distinct WORKFLOW_SPEC); [reflexivity|reflexivity|done|exact Hkids].
  - eapply (single_row WORKFLOW_SPEC); [reflexivity|done|exact Hkids].
Qed.

(** C37. The checker as run on a document always answers.  A document that does
    not read as a workflow gives exit code 2.  One that does has machines with
    distinct names, distinct states and at most one initial state each; the
    exit code is 2 exactly when some state does not say whether it is terminal
    or a transition that can be taken from an initial state, or from a state
    that is not terminal, has no target; otherwise it is 0 exactly when the
    workflow is sound, and 1 when it is not. *)
Theorem run_doc_exact (src : SourceDoc) :
  ∃ rep, run_doc src = Some rep ∧
    match parse_doc src WORKFLOW_SPEC with
    | Err _ => exit_code rep = 2
    | Ok d =>
        (∀ m, m ∈ rows d "machine" → machine_named m) ∧ NoDup (map key (rows d "machine")) ∧
        (exit_code rep = 2 ↔ ¬ workflow_readable kdl_string kdl_bool d) ∧
        (exit_code rep = 0 ↔ workflow_readable kdl_string kdl_bool d ∧ workflow_sound kdl_string kdl_bool d) ∧
        (exit_code rep = 1 ↔ workflow_readable kdl_string kdl_bool d ∧ ¬ workflow_sound kdl_string kdl_bool d)
    end.
Proof.
  unfold run_doc. destruct (parse_doc src WORKFLOW_SPEC) as [d|e] eqn:H; [|by eexists].
  destruct (workflow_machines src d H) as [Hnd Hm]. pose proof (check_is_ok kdl_string kdl_bool d) as Hr.
  destruct (check kdl_string kdl_bool d) as [[vs|e]|] eqn:Hc.
  - exists (report vs). split; [done|]. rewrite <- Hr, <- (check_nil _ _ _ _ Hc).
    assert (∃ vs', Some (Ok (E := string) vs) = Some (Ok vs')) by (by exists vs).
    destruct vs; cbn; split_and!; naive_solver.
  - eexists. split; [done|]. rewrite <- Hr. cbn. split_and!; naive_solver.
  - exfalso. revert Hc. apply check_total.
Qed.
