(* ===== verification/Workflow.v ===== *)
(** * The shipped workflow

    [data/workflow.kdl]: its text, which the lines of errors and violations
    are counted in, and the nodes that the KDL library reads from it.  The
    table reader accepts it and the checker finds nothing wrong with it. *)

From S2P Require Import Prelude RustColl RustStr Control Kdl Modelcheck TableReader.

(** The double quote is written as a back quote. *)
Definition WORKFLOW_KDL : string := kdl
"schema `autopilot.workflow.v1`
version 1

doc `Model-checked workflow data for D76 §5.3 state/verdict vocabulary and D76/D74 execution transitions. Parsed as KDL v2 by kdl crate 6.7.`

// Common node shapes:
// machine <name> { initial <state>; state <state> terminal=<bool> [forward_gate=<bool>] [integrated=<bool>]; transition from=<state> to=<state> evidence=<artifact> ... }
// axis <name> contract=<contracts-enum> { value <exact-contract-value> ... }
// attribute <exact-contract-value> contract=`attempt_attribute`
// verdict_set <kind> contract=<contracts-enum> { value <exact-contract-value> ... }
// total_verdicts machine=<machine> kind=<verdict_set> from=<state>
// capacity_class <name> gate=<resource_gate> { state <machine-state> ... }

machine `run` {
    doc `D76 §5.3 run phase machine. Health and outcome are orthogonal axes, not states.`
    initial `planning`

    state `planning` terminal=#false
    state `ready-to-execute` terminal=#false
    state `allocating` terminal=#false
    state `executing` terminal=#false
    state `final-verification` terminal=#false
    state `ready-to-close` terminal=#false
    state `terminal` terminal=#true

    transition from=`planning` to=`ready-to-execute` evidence=`planning.ready-to-execute.v1` doc=`D76 §12 walkthrough — approved planning now requires an active attested plan-review receipt and a closed planning envelope.`
    transition from=`ready-to-execute` to=`allocating` evidence=`execution-command` doc=`D76 §12 walkthrough — /autopilot resumes the approved run for execution.`
    transition from=`allocating` to=`executing` evidence=`allocation-accepted` doc=`D76 §7 and §12 — accepted Allocation Dossier/lane map enables ready lane dispatch.`
    transition from=`executing` to=`final-verification` evidence=`all-lanes-closed` doc=`D76 §9.2/§10 — final verification waits until every implementation delivery is closed.`
    transition from=`final-verification` to=`ready-to-close` evidence=`final-verification-pass` doc=`D76 §9.2/§10 — exact-tip final commands, full suite, final Validator, and required Bughunter passed.`
    transition from=`final-verification` to=`executing` evidence=`final-verification-invalidated` doc=`D76 target/tip staleness invalidates final evidence before close.`
    transition from=`ready-to-close` to=`executing` evidence=`final-verification-invalidated` doc=`D76 target/tip staleness invalidates a ready close before terminal result archival.`
    transition from=`ready-to-close` to=`terminal` evidence=`result-ref-archived` outcome=`closed` doc=`D76 §10 — result ref and safe archive complete the run.`
}

machine `lane` {
    doc `D76 §5.3 lane semantic state machine, with D74 §11.3 forward-ready/forward-integrated distinct from closed and D74 §12.2 two forward validation rounds.`
    initial `allocated`

    state `allocated` terminal=#false
    state `implementing` terminal=#false implementer_active=#true
    state `forward-validating-1` terminal=#false validates=`forward` round=1
    state `forward-fixing` terminal=#false
    state `forward-validating-2` terminal=#false validates=`forward` round=2
    state `forward-ready` terminal=#false forward_gate=#true
    state `release-queued` terminal=#false
    state `forward-integrated` terminal=#false forward_gate=#true integrated=#true
    state `deep-validating` terminal=#false validates=`closure`
    state `closure-needs-fix` terminal=#false
    state `repair-queued` terminal=#false
    state `closed` terminal=#true

    transition from=`allocated` to=`implementing` evidence=`lane-launch-action` doc=`D76 §12 — ready Implementer lanes launch from accepted allocation.`
    transition from=`implementing` to=`forward-validating-1` evidence=`delivery-result` doc=`D74 §12.2 — full lane implementation completion launches Round 1 forward validation.`

" +:+
kdl
"    transition from=`forward-validating-1` to=`forward-ready` verdict_kind=`forward` verdict=`FORWARD_READY` evidence=`forward-round-1-verdict` doc=`D76 §9.2/D74 §12.2 — Round 1 with no forward blockers releases.`
    transition from=`forward-validating-1` to=`forward-fixing` verdict_kind=`forward` verdict=`FORWARD_BLOCKED` evidence=`forward-round-1-verdict` doc=`D76 §9.2/D74 §12.2 — Round 1 forward blocker creates one consolidated Fixer.`
    transition from=`forward-validating-1` to=`forward-fixing` verdict_kind=`forward` verdict=`BLOCKED` evidence=`forward-round-1-verdict` doc=`D76 §9.2 — blocked forward validation is routed through the consolidated forward Fixer path before the bounded recheck.`

    transition from=`forward-fixing` to=`forward-validating-2` evidence=`forward-fix-delivery` doc=`D76 §9.2/D74 §12.2 — one consolidated Fixer pass is followed by Round 2.`

    transition from=`forward-validating-2` to=`forward-ready` verdict_kind=`forward` verdict=`FORWARD_READY` evidence=`forward-round-2-verdict` doc=`D76 §9.2/D74 §12.2 — Round 2 with no forward blockers releases.`
    transition from=`forward-validating-2` to=`allocated` verdict_kind=`forward` verdict=`FORWARD_BLOCKED` evidence=`tier-2-3-amendment` route=`tier-2-3` doc=`D76 §9.2/D74 §12.2 — a remaining Round 2 forward blocker refuses merge and routes Tier 2/3; the amended lane returns to allocation rather than a third validation round.`
    transition from=`forward-validating-2` to=`allocated` verdict_kind=`forward` verdict=`BLOCKED` evidence=`tier-2-3-amendment` route=`tier-2-3` doc=`D76 §9.2/D74 §12.2 — a still-blocked Round 2 validation refuses merge and routes Tier 2/3; the amended lane returns to allocation rather than a third validation round.`

    transition from=`forward-ready` to=`release-queued` evidence=`release-candidate-created` doc=`D76 §9.1/D74 §9.3 — a forward-ready delivery enters the serialized release queue.`
    transition from=`release-queued` to=`forward-integrated` evidence=`release-merge-committed` doc=`D76 §9.1/D74 §9.3 — CAS of the focused-checked release candidate advances run-main.`
    transition from=`forward-integrated` to=`deep-validating` evidence=`deep-validation-launch` doc=`D74 §11.3/§12.3 — forward-integrated work is successor-safe but not closed; post-release deep validation starts.`

    transition from=`deep-validating` to=`closed` verdict_kind=`closure` verdict=`PASS` evidence=`closure-verdict` doc=`D76 §9.2/D74 §11.3 — closure PASS means every mandatory criterion/finding for the delivery is satisfied with current evidence.`
    transition from=`deep-validating` to=`closure-needs-fix` verdict_kind=`closure` verdict=`NEEDS_FIX` evidence=`closure-verdict` doc=`D76 §9.2/D74 §12.3 — mandatory closure finding creates cohesive closure repair.`
    transition from=`deep-validating` to=`closure-needs-fix` verdict_kind=`closure` verdict=`BLOCKED` evidence=`closure-verdict` doc=`D76 §9.2 — blocked closure validation remains closure work and cannot close the lane.`

    transition from=`closure-needs-fix` to=`repair-queued` evidence=`closure-repair-assignment` doc=`D76 §5.3/D74 §12.3 — a Fixer assignment addresses the consolidated closure bundle where practical.`
    transition from=`repair-queued` to=`deep-validating` evidence=`repair-merge-committed` doc=`D76 §9.1/D74 §9.4/§12.3 — source-changing repair is integrated through the serialized queue, then changed/stale criteria revalidate.`
}

machine `candidate` {
    doc `D76 §5.3 candidate state machine for serialized release, repair, conflict, and finalization candidates.`
    initial `queued`

    state `queued` terminal=#false
    state `preparing` terminal=#false
    state `conflicted` terminal=#false
    state `resolving` terminal=#false
    state `focused-checking` terminal=#false
    state `ready-to-commit` terminal=#false
    state `committed` terminal=#true
    state `needs-fix` terminal=#false
    state `failed` terminal=#true
    state `superseded` terminal=#true

" +:+
kdl
"    transition from=`queued` to=`preparing` evidence=`candidate-intent` doc=`D76 §9.1 — integration creates an isolated candidate at current run-main.`
    transition from=`queued` to=`failed` evidence=`candidate-preparation-failure` doc=`D76 §9.1 — candidate intent/postconditions make failed preparation visible and restart-safe.`
    transition from=`queued` to=`superseded` evidence=`candidate-supersession` doc=`D76 §9.1 — priority/CAS changes may supersede an unprepared candidate.`

    transition from=`preparing` to=`focused-checking` evidence=`merge-clean` doc=`D76 §9.1/D74 §9.3 — clean/disjoint merge proceeds to focused checks.`
    transition from=`preparing` to=`conflicted` evidence=`merge-conflict` doc=`D74 §9.3/§13.1 — conflict or semantic overlap routes to Fixer/Integrator.`
    transition from=`preparing` to=`failed` evidence=`merge-failed` doc=`D76 §9.1 — failed merge preparation is an explicit terminal candidate failure.`
    transition from=`preparing` to=`superseded` evidence=`candidate-supersession` doc=`D76 §9.1 — a newer priority/current-main candidate can supersede preparation.`

    transition from=`conflicted` to=`resolving` evidence=`conflict-resolution-assignment` doc=`D76 §9.2/D74 §13.1 — conflict bundle launches bounded Fixer/Integrator resolution.`
    transition from=`conflicted` to=`failed` evidence=`conflict-unresolvable` doc=`D76 §9.2 — package rejects unresolved markers/unmerged index/unexplained dropped-side behavior.`
    transition from=`conflicted` to=`superseded` evidence=`candidate-supersession` doc=`D76 §9.1 — queued integration work may be superseded before resolution completes.`

    transition from=`resolving` to=`focused-checking` evidence=`conflict-resolution-delivery` doc=`D76 §9.2/D74 §13.1 — accepted conflict resolution proceeds to overlap-focused checks.`
    transition from=`resolving` to=`needs-fix` evidence=`conflict-review-needs-fix` doc=`D76 §9.2/D74 §13.2 — independent conflict review/focused checks may require a bounded fix.`
    transition from=`resolving` to=`failed` evidence=`conflict-resolution-failed` doc=`D76 §9.2 — invalid or exhausted resolution fails the candidate loudly.`
    transition from=`resolving` to=`superseded` evidence=`candidate-supersession` doc=`D76 §9.1 — a current-main change may supersede an in-flight resolution.`

    transition from=`focused-checking` to=`ready-to-commit` evidence=`focused-checks-pass` doc=`D76 §9.1 — focused checks, ancestry/tree/diff verification pass before CAS.`
    transition from=`focused-checking` to=`needs-fix` evidence=`focused-checks-fail` doc=`D76 §9.1/§9.2 — failed focused checks route repair for failed/stale criteria and direct consequences.`
    transition from=`focused-checking` to=`failed` evidence=`focused-checks-blocked` doc=`D76 §9.2 — blocked/failing checks with no local progress fail loudly instead of merging.`
    transition from=`focused-checking` to=`superseded` evidence=`candidate-supersession` doc=`D76 §9.1 — a candidate can be superseded before commit.`

    transition from=`needs-fix` to=`preparing` evidence=`candidate-fix-delivery` doc=`D76 §9.1/§9.2 — accepted repair produces a new exact commit/range and re-enters preparation at current run-main.`
    transition from=`needs-fix` to=`failed` evidence=`candidate-fix-failed` doc=`D76 §9.2 — repeated blocker/no-progress routes loud failure rather than hidden success.`
    transition from=`needs-fix` to=`superseded` evidence=`candidate-supersession` doc=`D76 §9.1 — repair work may be superseded by newer integration authority.`

    transition from=`ready-to-commit` to=`committed` evidence=`run-main-cas` doc=`D76 §9.1/D74 §9.5 — git update-ref CAS advances run-main to the exact candidate.`
    transition from=`ready-to-commit` to=`failed` evidence=`run-main-cas-failed` doc=`D76 §9.1 — compare-and-swap failure is explicit; response-loss restart reconciles postconditions.`
" +:+
kdl
"    transition from=`ready-to-commit` to=`superseded` evidence=`candidate-supersession` doc=`D76 §9.1 — a ready candidate may be superseded by a current-main/priority change before CAS.`
}


machine `evidence-assignment` {
    doc `Evidence-ingress v1 assignment machine. Each assignment revision is immutable; newer revisions are separate instances.`
    initial `issued`

    state `issued` terminal=#false
    state `running` terminal=#false
    state `terminal-observed` terminal=#false
    state `failed` terminal=#true
    state `accepted` terminal=#true
    state `rejected` terminal=#true
    state `superseded` terminal=#true

    transition from=`issued` to=`running` evidence=`evidence.task-bound.v1`
    transition from=`issued` to=`failed` evidence=`producer-spawn-failed`
    transition from=`running` to=`terminal-observed` evidence=`evidence.task-terminal.v1` status=`completed`
    transition from=`running` to=`failed` evidence=`evidence.task-terminal.v1` status=`failed|killed|interrupted`
    transition from=`terminal-observed` to=`accepted` evidence=`evidence.accepted.v1`
    transition from=`terminal-observed` to=`rejected` evidence=`evidence.rejected.v1`
    transition from=`issued` to=`superseded` evidence=`evidence.superseded.v1`
    transition from=`failed` to=`superseded` evidence=`evidence.superseded.v1`
    transition from=`rejected` to=`superseded` evidence=`evidence.superseded.v1`
    transition from=`accepted` to=`superseded` evidence=`evidence.superseded.v1`
}

machine `evidence-envelope` {
    doc `Closed evidence envelope machine. Additional evidence creates a new manifest revision.`
    initial `open`
    state `open` terminal=#false
    state `closed` terminal=#true
    transition from=`open` to=`closed` evidence=`evidence.envelope-closed.v1`
}

axis `health` contract=`run_health` {
    doc `D76 §5.3 run health axis; orthogonal to run phase and not a state machine.`
    value `healthy`
    value `degraded`
    value `paused`
    value `unsafe-halt`
}

axis `outcome` contract=`run_outcome` {
    doc `D76 §5.3 run outcome axis; orthogonal to run phase and not a state machine.`
    value `null`
    value `closed`
    value `aborted`
}

attribute `interrupted` contract=`attempt_attribute` doc=`D76 §5.3 attempt attribute, not a lane state.`
attribute `checkpointed` contract=`attempt_attribute` doc=`D76 §5.3 attempt attribute, not a lane state.`
attribute `superseded` contract=`attempt_attribute` doc=`D76 §5.3 attempt attribute, not a lane state; candidate superseded remains a candidate state separately.`

verdict_set `forward` contract=`forward_verdict` {
    value `FORWARD_READY`
    value `FORWARD_BLOCKED`
    value `BLOCKED`
}

verdict_set `closure` contract=`closure_verdict` {
    value `PASS`
    value `NEEDS_FIX`
    value `BLOCKED`
}

total_verdicts machine=`lane` kind=`forward` from=`forward-validating-1` doc=`C5 — Round 1 forward Validator has an outgoing transition for every forward verdict.`
total_verdicts machine=`lane` kind=`forward` from=`forward-validating-2` doc=`C5 — Round 2 forward Validator has an outgoing transition for every forward verdict; blocker outcomes route Tier 2/3 instead of a third round.`
total_verdicts machine=`lane` kind=`closure` from=`deep-validating` doc=`C5 — closure Validator has an outgoing transition for every closure verdict.`

capacity_class `implementer-active` gate=`parallel_cap` doc=`C8 — D76 §7 counts active Implementers only; Validators, Fixers, tests, merges, Curator, Allocator, Bughunter, heartbeat, and finalization are outside the cap.` {
    state `implementing`
}
".

Definition machine_run : KdlNode :=
  KNode "machine" [karg (KString "run") 761] (Some [
    KNode "doc" [karg (KString "D76 §5.3 run phase machine. Health and outcome are orthogonal axes, not states.") 777] None 773;
    KNode "initial" [karg (KString "planning") 872] None 864;
    KNode "state" [karg (KString "planning") 894; kprop "terminal" (KBool false) 905] None 888;
    KNode "state" [karg (KString "ready-to-execute") 931; kprop "terminal" (KBool false) 950] None 925;
    KNode "state" [karg (KString "allocating") 976; kprop "terminal" (KBool false) 989] None 970;
    KNode "state" [karg (KString "executing") 1015; kprop "terminal" (KBool false) 1027] None 1009;
    KNode "state" [karg (KString "final-verification") 1053; kprop "terminal" (KBool false) 1074] None 1047;
    KNode "state" [karg (KString "ready-to-close") 1100; kprop "terminal" (KBool false) 1117] None 1094;
    KNode "state" [karg (KString "terminal") 1143; kprop "terminal" (KBool true) 1154] None 1137;
    KNode "transition" [kprop "from" (KString "planning") 1185; kprop "to" (KString "ready-to-execute") 1201; kprop "evidence" (KString "planning.ready-to-execute.v1") 1223; kprop "doc" (KString "D76 §12 walkthrough — approved planning now requires an active attested plan-review receipt and a closed planning envelope.") 1263] None 1174;
    KNode "transition" [kprop "from" (KString "ready-to-execute") 1411; kprop "to" (KString "allocating") 1435; kprop "evidence" (KString "execution-command") 1451; kprop "doc" (KString "D76 §12 walkthrough — /autopilot resumes the approved run for execution.") 1480] None 1400;
    KNode "transition" [kprop "from" (KString "allocating") 1577; kprop "to" (KString "executing") 1595; kprop "evidence" (KString "allocation-accepted") 1610; kprop "doc" (KString "D76 §7 and §12 — accepted Allocation Dossier/lane map enables ready lane dispatch.") 1641] None 1566;
    KNode "transition" [kprop "from" (KString "executing") 1749; kprop "to" (KString "final-verification") 1766; kprop "evidence" (KString "all-lanes-closed") 1790; kprop "doc" (KString "D76 §9.2/§10 — final verification waits until every implementation delivery is closed.") 1818] None 1738;
    KNode "transition" [kprop "from" (KString "final-verification") 1930; kprop "to" (KString "ready-to-close") 1956; kprop "evidence" (KString "final-verification-pass") 1976; kprop "doc" (KString "D76 §9.2/§10 — exact-tip final commands, full suite, final Validator, and required Bughunter passed.") 2011] None 1919;
    KNode "transition" [kprop "from" (KString "final-verification") 2137; kprop "to" (KString "executing") 2163; kprop "evidence" (KString "final-verification-invalidated") 2178; kprop "doc" (KString "D76 target/tip staleness invalidates final evidence before close.") 2220] None 2126;
    KNode "transition" [kprop "from" (KString "ready-to-close") 2307; kprop "to" (KString "executing") 2329; kprop "evidence" (KString "final-verification-invalidated") 2344; kprop "doc" (KString "D76 target/tip staleness invalidates a ready close before terminal result archival.") 2386] None 2296;
    KNode "transition" [kprop "from" (KString "ready-to-close") 2491; kprop "to" (KString "terminal") 2513; kprop "evidence" (KString "result-ref-archived") 2527; kprop "outcome" (KString "closed") 2558; kprop "doc" (KString "D76 §10 — result ref and safe archive complete the run.") 2575] None 2480]) 753.

Definition machine_lane : KdlNode :=
  KNode "machine" [karg (KString "lane") 2651] (Some [
    KNode "doc" [karg (KString "D76 §5.3 lane semantic state machine, with D74 §11.3 forward-ready/forward-integrated distinct from closed and D74 §12.2 two forward validation rounds.") 2668] None 2664;
    KNode "initial" [karg (KString "allocated") 2837] None 2829;
    KNode "state" [karg (KString "allocated") 2860; kprop "terminal" (KBool false) 2872] None 2854;
    KNode "state" [karg (KString "implementing") 2898; kprop "terminal" (KBool false) 2913; kprop "implementer_active" (KBool true) 2929] None 2892;
    KNode "state" [karg (KString "forward-validating-1") 2964; kprop "terminal" (KBool false) 2987; kprop "validates" (KString "forward") 3003; kprop "round" (KInteger 1) 3023] None 2958;
    KNode "state" [karg (KString "forward-fixing") 3041; kprop "terminal" (KBool false) 3058] None 3035;
    KNode "state" [karg (KString "forward-validating-2") 3084; kprop "terminal" (KBool false) 3107; kprop "validates" (KString "forward") 3123; kprop "round" (KInteger 2) 3143] None 3078;
    KNode "state" [karg (KString "forward-ready") 3161; kprop "terminal" (KBool false) 3177; kprop "forward_gate" (KBool true) 3193] None 3155;
    KNode "state" [karg (KString "release-queued") 3222; kprop "terminal" (KBool false) 3239] None 3216;
    KNode "state" [karg (KString "forward-integrated") 3265; kprop "terminal" (KBool false) 3286; kprop "forward_gate" (KBool true) 3302; kprop "integrated" (KBool true) 3321] None 3259;
    KNode "state" [karg (KString "deep-validating") 3348; kprop "terminal" (KBool false) 3366; kprop "validates" (KString "closure") 3382] None 3342;
    KNode "state" [karg (KString "closure-needs-fix") 3412; kprop "terminal" (KBool false) 3432] None 3406;
    KNode "state" [karg (KString "repair-queued") 3458; kprop "terminal" (KBool false) 3474] None 3452;
    KNode "state" [karg (KString "closed") 3500; kprop "terminal" (KBool true) 3509] None 3494;
    KNode "transition" [kprop "from" (KString "allocated") 3540; kprop "to" (KString "implementing") 3557; kprop "evidence" (KString "lane-launch-action") 3575; kprop "doc" (KString "D76 §12 — ready Implementer lanes launch from accepted allocation.") 3605] None 3529;
    KNode "transition" [kprop "from" (KString "implementing") 3696; kprop "to" (KString "forward-validating-1") 3716; kprop "evidence" (KString "delivery-result") 3742; kprop "doc" (KString "D74 §12.2 — full lane implementation completion launches Round 1 forward validation.") 3769] None 3685;
    KNode "transition" [kprop "from" (KString "forward-validating-1") 3879; kprop "to" (KString "forward-ready") 3907; kprop "verdict_kind" (KString "forward") 3926; kprop "verdict" (KString "FORWARD_READY") 3949; kprop "evidence" (KString "forward-round-1-verdict") 3973; kprop "doc" (KString "D76 §9.2/D74 §12.2 — Round 1 with no forward blockers releases.") 4008] None 3868;
    KNode "transition" [kprop "from" (KString "forward-validating-1") 4097; kprop "to" (KString "forward-fixing") 4125; kprop "verdict_kind" (KString "forward") 4145; kprop "verdict" (KString "FORWARD_BLOCKED") 4168; kprop "evidence" (KString "forward-round-1-verdict") 4194; kprop "doc" (KString "D76 §9.2/D74 §12.2 — Round 1 forward blocker creates one consolidated Fixer.") 4229] None 4086;
    KNode "transition" [kprop "from" (KString "forward-validating-1") 4331; kprop "to" (KString "forward-fixing") 4359; kprop "verdict_kind" (KString "forward") 4379; kprop "verdict" (KString "BLOCKED") 4402; kprop "evidence" (KString "forward-round-1-verdict") 4420; kprop "doc" (KString "D76 §9.2 — blocked forward validation is routed through the consolidated forward Fixer path before the bounded recheck.") 4455] None 4320;
    KNode "transition" [kprop "from" (KString "forward-fixing") 4600; kprop "to" (KString "forward-validating-2") 4622; kprop "evidence" (KString "forward-fix-delivery") 4648; kprop "doc" (KString "D76 §9.2/D74 §12.2 — one consolidated Fixer pass is followed by Round 2.") 4680] None 4589;
    KNode "transition" [kprop "from" (KString "forward-validating-2") 4779; kprop "to" (KString "forward-ready") 4807; kprop "verdict_kind" (KString "forward") 4826; kprop "verdict" (KString "FORWARD_READY") 4849; kprop "evidence" (KString "forward-round-2-verdict") 4873; kprop "doc" (KString "D76 §9.2/D74 §12.2 — Round 2 with no forward blockers releases.") 4908] None 4768;
    KNode "transition" [kprop "from" (KString "forward-validating-2") 4997; kprop "to" (KString "allocated") 5025; kprop "verdict_kind" (KString "forward") 5040; kprop "verdict" (KString "FORWARD_BLOCKED") 5063; kprop "evidence" (KString "tier-2-3-amendment") 5089; kprop "route" (KString "tier-2-3") 5119; kprop "doc" (KString "D76 §9.2/D74 §12.2 — a remaining Round 2 forward blocker refuses merge and routes Tier 2/3; the amended lane returns to allocation rather than a third validation round.") 5136] None 4986;
    KNode "transition" [kprop "from" (KString "forward-validating-2") 5330; kprop "to" (KString "allocated") 5358; kprop "verdict_kind" (KString "forward") 5373; kprop "verdict" (KString "BLOCKED") 5396; kprop "evidence" (KString "tier-2-3-amendment") 5414; kprop "route" (KString "tier-2-3") 5444; kprop "doc" (KString "D76 §9.2/D74 §12.2 — a still-blocked Round 2 validation refuses merge and routes Tier 2/3; the amended lane returns to allocation rather than a third validation round.") 5461] None 5319;
    KNode "transition" [kprop "from" (KString "forward-ready") 5655; kprop "to" (KString "release-queued") 5676; kprop "evidence" (KString "release-candidate-created") 5696; kprop "doc" (KString "D76 §9.1/D74 §9.3 — a forward-ready delivery enters the serialized release queue.") 5733] None 5644;
    KNode "transition" [kprop "from" (KString "release-queued") 5840; kprop "to" (KString "forward-integrated") 5862; kprop "evidence" (KString "release-merge-committed") 5886; kprop "doc" (KString "D76 §9.1/D74 §9.3 — CAS of the focused-checked release candidate advances run-main.") 5921] None 5829;
    KNode "transition" [kprop "from" (KString "forward-integrated") 6030; kprop "to" (KString "deep-validating") 6056; kprop "evidence" (KString "deep-validation-launch") 6077; kprop "doc" (KString "D74 §11.3/§12.3 — forward-integrated work is successor-safe but not closed; post-release deep validation starts.") 6111] None 6019;
    KNode "transition" [kprop "from" (KString "deep-validating") 6250; kprop "to" (KString "closed") 6273; kprop "verdict_kind" (KString "closure") 6285; kprop "verdict" (KString "PASS") 6308; kprop "evidence" (KString "closure-verdict") 6323; kprop "doc" (KString "D76 §9.2/D74 §11.3 — closure PASS means every mandatory criterion/finding for the delivery is satisfied with current evidence.") 6350] None 6239;
    KNode "transition" [kprop "from" (KString "deep-validating") 6502; kprop "to" (KString "closure-needs-fix") 6525; kprop "verdict_kind" (KString "closure") 6548; kprop "verdict" (KString "NEEDS_FIX") 6571; kprop "evidence" (KString "closure-verdict") 6591; kprop "doc" (KString "D76 §9.2/D74 §12.3 — mandatory closure finding creates cohesive closure repair.") 6618] None 6491;
    KNode "transition" [kprop "from" (KString "deep-validating") 6723; kprop "to" (KString "closure-needs-fix") 6746; kprop "verdict_kind" (KString "closure") 6769; kprop "verdict" (KString "BLOCKED") 6792; kprop "evidence" (KString "closure-verdict") 6810; kprop "doc" (KString "D76 §9.2 — blocked closure validation remains closure work and cannot close the lane.") 6837] None 6712;
    KNode "transition" [kprop "from" (KString "closure-needs-fix") 6948; kprop "to" (KString "repair-queued") 6973; kprop "evidence" (KString "closure-repair-assignment") 6992; kprop "doc" (KString "D76 §5.3/D74 §12.3 — a Fixer assignment addresses the consolidated closure bundle where practical.") 7029] None 6937;
    KNode "transition" [kprop "from" (KString "repair-queued") 7153; kprop "to" (KString "deep-validating") 7174; kprop "evidence" (KString "repair-merge-committed") 7195; kprop "doc" (KString "D76 §9.1/D74 §9.4/§12.3 — source-changing repair is integrated through the serialized queue, then changed/stale criteria revalidate.") 7229] None 7142]) 2643.

Definition machine_candidate : KdlNode :=
  KNode "machine" [karg (KString "candidate") 7384] (Some [
    KNode "doc" [karg (KString "D76 §5.3 candidate state machine for serialized release, repair, conflict, and finalization candidates.") 7406] None 7402;
    KNode "initial" [karg (KString "queued") 7525] None 7517;
    KNode "state" [karg (KString "queued") 7545; kprop "terminal" (KBool false) 7554] None 7539;
    KNode "state" [karg (KString "preparing") 7580; kprop "terminal" (KBool false) 7592] None 7574;
    KNode "state" [karg (KString "conflicted") 7618; kprop "terminal" (KBool false) 7631] None 7612;
    KNode "state" [karg (KString "resolving") 7657; kprop "terminal" (KBool false) 7669] None 7651;
    KNode "state" [karg (KString "focused-checking") 7695; kprop "terminal" (KBool false) 7714] None 7689;
    KNode "state" [karg (KString "ready-to-commit") 7740; kprop "terminal" (KBool false) 7758] None 7734;
    KNode "state" [karg (KString "committed") 7784; kprop "terminal" (KBool true) 7796] None 7778;
    KNode "state" [karg (KString "needs-fix") 7821; kprop "terminal" (KBool false) 7833] None 7815;
    KNode "state" [karg (KString "failed") 7859; kprop "terminal" (KBool true) 7868] None 7853;
    KNode "state" [karg (KString "superseded") 7893; kprop "terminal" (KBool true) 7906] None 7887;
    KNode "transition" [kprop "from" (KString "queued") 7937; kprop "to" (KString "preparing") 7951; kprop "evidence" (KString "candidate-intent") 7966; kprop "doc" (KString "D76 §9.1 — integration creates an isolated candidate at current run-main.") 7994] None 7926;
    KNode "transition" [kprop "from" (KString "queued") 8092; kprop "to" (KString "failed") 8106; kprop "evidence" (KString "candidate-preparation-failure") 8118; kprop "doc" (KString "D76 §9.1 — candidate intent/postconditions make failed preparation visible and restart-safe.") 8159] None 8081;
    KNode "transition" [kprop "from" (KString "queued") 8276; kprop "to" (KString "superseded") 8290; kprop "evidence" (KString "candidate-supersession") 8306; kprop "doc" (KString "D76 §9.1 — priority/CAS changes may supersede an unprepared candidate.") 8340] None 8265;
    KNode "transition" [kprop "from" (KString "preparing") 8436; kprop "to" (KString "focused-checking") 8453; kprop "evidence" (KString "merge-clean") 8475; kprop "doc" (KString "D76 §9.1/D74 §9.3 — clean/disjoint merge proceeds to focused checks.") 8498] None 8425;
    KNode "transition" [kprop "from" (KString "preparing") 8592; kprop "to" (KString "conflicted") 8609; kprop "evidence" (KString "merge-conflict") 8625; kprop "doc" (KString "D74 §9.3/§13.1 — conflict or semantic overlap routes to Fixer/Integrator.") 8651] None 8581;
    KNode "transition" [kprop "from" (KString "preparing") 8750; kprop "to" (KString "failed") 8767; kprop "evidence" (KString "merge-failed") 8779; kprop "doc" (KString "D76 §9.1 — failed merge preparation is an explicit terminal candidate failure.") 8803] None 8739;
    KNode "transition" [kprop "from" (KString "preparing") 8906; kprop "to" (KString "superseded") 8923; kprop "evidence" (KString "candidate-supersession") 8939; kprop "doc" (KString "D76 §9.1 — a newer priority/current-main candidate can supersede preparation.") 8973] None 8895;
    KNode "transition" [kprop "from" (KString "conflicted") 9076; kprop "to" (KString "resolving") 9094; kprop "evidence" (KString "conflict-resolution-assignment") 9109; kprop "doc" (KString "D76 §9.2/D74 §13.1 — conflict bundle launches bounded Fixer/Integrator resolution.") 9151] None 9065;
    KNode "transition" [kprop "from" (KString "conflicted") 9259; kprop "to" (KString "failed") 9277; kprop "evidence" (KString "conflict-unresolvable") 9289; kprop "doc" (KString "D76 §9.2 — package rejects unresolved markers/unmerged index/unexplained dropped-side behavior.") 9322] None 9248;
    KNode "transition" [kprop "from" (KString "conflicted") 9442; kprop "to" (KString "superseded") 9460; kprop "evidence" (KString "candidate-supersession") 9476; kprop "doc" (KString "D76 §9.1 — queued integration work may be superseded before resolution completes.") 9510] None 9431;
    KNode "transition" [kprop "from" (KString "resolving") 9617; kprop "to" (KString "focused-checking") 9634; kprop "evidence" (KString "conflict-resolution-delivery") 9656; kprop "doc" (KString "D76 §9.2/D74 §13.1 — accepted conflict resolution proceeds to overlap-focused checks.") 9696] None 9606;
    KNode "transition" [kprop "from" (KString "resolving") 9807; kprop "to" (KString "needs-fix") 9824; kprop "evidence" (KString "conflict-review-needs-fix") 9839; kprop "doc" (KString "D76 §9.2/D74 §13.2 — independent conflict review/focused checks may require a bounded fix.") 9876] None 9796;
    KNode "transition" [kprop "from" (KString "resolving") 9992; kprop "to" (KString "failed") 10009; kprop "evidence" (KString "conflict-resolution-failed") 10021; kprop "doc" (KString "D76 §9.2 — invalid or exhausted resolution fails the candidate loudly.") 10059] None 9981;
    KNode "transition" [kprop "from" (KString "resolving") 10154; kprop "to" (KString "superseded") 10171; kprop "evidence" (KString "candidate-supersession") 10187; kprop "doc" (KString "D76 §9.1 — a current-main change may supersede an in-flight resolution.") 10221] None 10143;
    KNode "transition" [kprop "from" (KString "focused-checking") 10318; kprop "to" (KString "ready-to-commit") 10342; kprop "evidence" (KString "focused-checks-pass") 10363; kprop "doc" (KString "D76 §9.1 — focused checks, ancestry/tree/diff verification pass before CAS.") 10394] None 10307;
    KNode "transition" [kprop "from" (KString "focused-checking") 10494; kprop "to" (KString "needs-fix") 10518; kprop "evidence" (KString "focused-checks-fail") 10533; kprop "doc" (KString "D76 §9.1/§9.2 — failed focused checks route repair for failed/stale criteria and direct consequences.") 10564] None 10483;
    KNode "transition" [kprop "from" (KString "focused-checking") 10691; kprop "to" (KString "failed") 10715; kprop "evidence" (KString "focused-checks-blocked") 10727; kprop "doc" (KString "D76 §9.2 — blocked/failing checks with no local progress fail loudly instead of merging.") 10761] None 10680;
    KNode "transition" [kprop "from" (KString "focused-checking") 10874; kprop "to" (KString "superseded") 10898; kprop "evidence" (KString "candidate-supersession") 10914; kprop "doc" (KString "D76 §9.1 — a candidate can be superseded before commit.") 10948] None 10863;
    KNode "transition" [kprop "from" (KString "needs-fix") 11029; kprop "to" (KString "preparing") 11046; kprop "evidence" (KString "candidate-fix-delivery") 11061; kprop "doc" (KString "D76 §9.1/§9.2 — accepted repair produces a new exact commit/range and re-enters preparation at current run-main.") 11095] None 11018;
    KNode "transition" [kprop "from" (KString "needs-fix") 11233; kprop "to" (KString "failed") 11250; kprop "evidence" (KString "candidate-fix-failed") 11262; kprop "doc" (KString "D76 §9.2 — repeated blocker/no-progress routes loud failure rather than hidden success.") 11294] None 11222;
    KNode "transition" [kprop "from" (KString "needs-fix") 11406; kprop "to" (KString "superseded") 11423; kprop "evidence" (KString "candidate-supersession") 11439; kprop "doc" (KString "D76 §9.1 — repair work may be superseded by newer integration authority.") 11473] None 11395;
    KNode "transition" [kprop "from" (KString "ready-to-commit") 11571; kprop "to" (KString "committed") 11594; kprop "evidence" (KString "run-main-cas") 11609; kprop "doc" (KString "D76 §9.1/D74 §9.5 — git update-ref CAS advances run-main to the exact candidate.") 11633] None 11560;
    KNode "transition" [kprop "from" (KString "ready-to-commit") 11739; kprop "to" (KString "failed") 11762; kprop "evidence" (KString "run-main-cas-failed") 11774; kprop "doc" (KString "D76 §9.1 — compare-and-swap failure is explicit; response-loss restart reconciles postconditions.") 11805] None 11728;
    KNode "transition" [kprop "from" (KString "ready-to-commit") 11927; kprop "to" (KString "superseded") 11950; kprop "evidence" (KString "candidate-supersession") 11966; kprop "doc" (KString "D76 §9.1 — a ready candidate may be superseded by a current-main/priority change before CAS.") 12000] None 11916]) 7376.

Definition machine_evidence_assignment : KdlNode :=
  KNode "machine" [karg (KString "evidence-assignment") 12114] (Some [
    KNode "doc" [karg (KString "Evidence-ingress v1 assignment machine. Each assignment revision is immutable; newer revisions are separate instances.") 12146] None 12142;
    KNode "initial" [karg (KString "issued") 12279] None 12271;
    KNode "state" [karg (KString "issued") 12299; kprop "terminal" (KBool false) 12308] None 12293;
    KNode "state" [karg (KString "running") 12334; kprop "terminal" (KBool false) 12344] None 12328;
    KNode "state" [karg (KString "terminal-observed") 12370; kprop "terminal" (KBool false) 12390] None 12364;
    KNode "state" [karg (KString "failed") 12416; kprop "terminal" (KBool true) 12425] None 12410;
    KNode "state" [karg (KString "accepted") 12450; kprop "terminal" (KBool true) 12461] None 12444;
    KNode "state" [karg (KString "rejected") 12486; kprop "terminal" (KBool true) 12497] None 12480;
    KNode "state" [karg (KString "superseded") 12522; kprop "terminal" (KBool true) 12535] None 12516;
    KNode "transition" [kprop "from" (KString "issued") 12566; kprop "to" (KString "running") 12580; kprop "evidence" (KString "evidence.task-bound.v1") 12593] None 12555;
    KNode "transition" [kprop "from" (KString "issued") 12642; kprop "to" (KString "failed") 12656; kprop "evidence" (KString "producer-spawn-failed") 12668] None 12631;
    KNode "transition" [kprop "from" (KString "running") 12716; kprop "to" (KString "terminal-observed") 12731; kprop "evidence" (KString "evidence.task-terminal.v1") 12754; kprop "status" (KString "completed") 12791] None 12705;
    KNode "transition" [kprop "from" (KString "running") 12825; kprop "to" (KString "failed") 12840; kprop "evidence" (KString "evidence.task-terminal.v1") 12852; kprop "status" (KString "failed|killed|interrupted") 12889] None 12814;
    KNode "transition" [kprop "from" (KString "terminal-observed") 12939; kprop "to" (KString "accepted") 12964; kprop "evidence" (KString "evidence.accepted.v1") 12978] None 12928;
    KNode "transition" [kprop "from" (KString "terminal-observed") 13025; kprop "to" (KString "rejected") 13050; kprop "evidence" (KString "evidence.rejected.v1") 13064] None 13014;
    KNode "transition" [kprop "from" (KString "issued") 13111; kprop "to" (KString "superseded") 13125; kprop "evidence" (KString "evidence.superseded.v1") 13141] None 13100;
    KNode "transition" [kprop "from" (KString "failed") 13190; kprop "to" (KString "superseded") 13204; kprop "evidence" (KString "evidence.superseded.v1") 13220] None 13179;
    KNode "transition" [kprop "from" (KString "rejected") 13269; kprop "to" (KString "superseded") 13285; kprop "evidence" (KString "evidence.superseded.v1") 13301] None 13258;
    KNode "transition" [kprop "from" (KString "accepted") 13350; kprop "to" (KString "superseded") 13366; kprop "evidence" (KString "evidence.superseded.v1") 13382] None 13339]) 12106.

Definition machine_evidence_envelope : KdlNode :=
  KNode "machine" [karg (KString "evidence-envelope") 13427] (Some [
    KNode "doc" [karg (KString "Closed evidence envelope machine. Additional evidence creates a new manifest revision.") 13457] None 13453;
    KNode "initial" [karg (KString "open") 13558] None 13550;
    KNode "state" [karg (KString "open") 13575; kprop "terminal" (KBool false) 13582] None 13569;
    KNode "state" [karg (KString "closed") 13608; kprop "terminal" (KBool true) 13617] None 13602;
    KNode "transition" [kprop "from" (KString "open") 13647; kprop "to" (KString "closed") 13659; kprop "evidence" (KString "evidence.envelope-closed.v1") 13671] None 13636]) 13419.

Definition axis_health : KdlNode :=
  KNode "axis" [karg (KString "health") 13718; kprop "contract" (KString "run_health") 13727] (Some [
    KNode "doc" [karg (KString "D76 §5.3 run health axis; orthogonal to run phase and not a state machine.") 13759] None 13755;
    KNode "value" [karg (KString "healthy") 13847] None 13841;
    KNode "value" [karg (KString "degraded") 13867] None 13861;
    KNode "value" [karg (KString "paused") 13888] None 13882;
    KNode "value" [karg (KString "unsafe-halt") 13907] None 13901]) 13713.

Definition axis_outcome : KdlNode :=
  KNode "axis" [karg (KString "outcome") 13929; kprop "contract" (KString "run_outcome") 13939] (Some [
    KNode "doc" [karg (KString "D76 §5.3 run outcome axis; orthogonal to run phase and not a state machine.") 13972] None 13968;
    KNode "value" [karg (KString "null") 14061] None 14055;
    KNode "value" [karg (KString "closed") 14078] None 14072;
    KNode "value" [karg (KString "aborted") 14097] None 14091]) 13924.

Definition verdict_set_forward : KdlNode :=
  KNode "verdict_set" [karg (KString "forward") 14500; kprop "contract" (KString "forward_verdict") 14510] (Some [
    KNode "value" [karg (KString "FORWARD_READY") 14549] None 14543;
    KNode "value" [karg (KString "FORWARD_BLOCKED") 14575] None 14569;
    KNode "value" [karg (KString "BLOCKED") 14603] None 14597]) 14488.

Definition verdict_set_closure : KdlNode :=
  KNode "verdict_set" [karg (KString "closure") 14628; kprop "contract" (KString "closure_verdict") 14638] (Some [
    KNode "value" [karg (KString "PASS") 14677] None 14671;
    KNode "value" [karg (KString "NEEDS_FIX") 14694] None 14688;
    KNode "value" [karg (KString "BLOCKED") 14716] None 14710]) 14616.

Definition capacity_class_implementer_active : KdlNode :=
  KNode "capacity_class" [karg (KString "implementer-active") 15288; kprop "gate" (KString "parallel_cap") 15309; kprop "doc" (KString "C8 — D76 §7 counts active Implementers only; Validators, Fixers, tests, merges, Curator, Allocator, Bughunter, heartbeat, and finalization are outside the cap.") 15329] (Some [
    KNode "state" [karg (KString "implementing") 15510] None 15504]) 15273.

Definition workflow_source : SourceDoc := {|
  sd_source := WORKFLOW_KDL;
  sd_nodes := [
    KNode "schema" [karg (KString "autopilot.workflow.v1") 7] None 0;
    KNode "version" [karg (KInteger 1) 39] None 31;
    KNode "doc" [karg (KString "Model-checked workflow data for D76 §5.3 state/verdict vocabulary and D76/D74 execution transitions. Parsed as KDL v2 by kdl crate 6.7.") 46] None 42;
    machine_run;
    machine_lane;
    machine_candidate;
    machine_evidence_assignment;
    machine_evidence_envelope;
    axis_health;
    axis_outcome;
    KNode "attribute" [karg (KString "interrupted") 14120; kprop "contract" (KString "attempt_attribute") 14134; kprop "doc" (KString "D76 §5.3 attempt attribute, not a lane state.") 14163] None 14110;
    KNode "attribute" [karg (KString "checkpointed") 14226; kprop "contract" (KString "attempt_attribute") 14241; kprop "doc" (KString "D76 §5.3 attempt attribute, not a lane state.") 14270] None 14216;
    KNode "attribute" [karg (KString "superseded") 14333; kprop "contract" (KString "attempt_attribute") 14346; kprop "doc" (KString "D76 §5.3 attempt attribute, not a lane state; candidate superseded remains a candidate state separately.") 14375] None 14323;
    verdict_set_forward;
    verdict_set_closure;
    KNode "total_verdicts" [kprop "machine" (KString "lane") 14744; kprop "kind" (KString "forward") 14759; kprop "from" (KString "forward-validating-1") 14774; kprop "doc" (KString "C5 — Round 1 forward Validator has an outgoing transition for every forward verdict.") 14802] None 14729;
    KNode "total_verdicts" [kprop "machine" (KString "lane") 14910; kprop "kind" (KString "forward") 14925; kprop "from" (KString "forward-validating-2") 14940; kprop "doc" (KString "C5 — Round 2 forward Validator has an outgoing transition for every forward verdict; blocker outcomes route Tier 2/3 instead of a third round.") 14968] None 14895;
    KNode "total_verdicts" [kprop "machine" (KString "lane") 15134; kprop "kind" (KString "closure") 15149; kprop "from" (KString "deep-validating") 15164; kprop "doc" (KString "C5 — closure Validator has an outgoing transition for every closure verdict.") 15187] None 15119;
    capacity_class_implementer_active] |}.

(** The document it is read as. *)
Definition workflow : @TableDoc KdlValue := Eval vm_compute in
  match parse_doc workflow_source WORKFLOW_SPEC with
  | Ok d => d
  | Err _ => {| doc_schema := ""; doc_version := 0; doc_rows := [] |}
  end.

Lemma workflow_read : parse_doc workflow_source WORKFLOW_SPEC = Ok workflow.
Proof. vm_compute. reflexivity. Qed.

Lemma workflow_checked : check kdl_string kdl_bool workflow = Some (Ok []).
Proof. vm_compute. reflexivity. Qed.

Lemma check_exact_witness : workflow_sound kdl_string kdl_bool workflow.
Proof. apply (check_exact kdl_string kdl_bool workflow [] workflow_checked). reflexivity. Defined.

Lemma run_doc_exact_witness :
  length (rows workflow "machine") = 5%nat ∧ workflow_readable kdl_string kdl_bool workflow ∧
  workflow_sound kdl_string kdl_bool workflow.
Proof.
  split; [vm_compute; reflexivity|]. destruct (run_doc_exact workflow_source) as (rep & Hrun & H).
  rewrite workflow_read in H. destruct H as (_ & _ & _ & H & _). apply H. clear H.
  unfold run_doc in Hrun. rewrite workflow_read, workflow_checked in Hrun. injection Hrun as <-. reflexivity.
Defined.
