(* ===== verification/FsStore.v ===== *)
(** * The event store on disk

    [drivers/src/fs/cache.rs]: the append-only event log and its cache, two
    files of one directory.  Every write is made under an advisory lock on a
    third file, to a temporary file that is renamed over the old one.  The
    operations are programs of requests; below them, processes that run them
    at the same time, with failing requests and crashes between any two
    requests.

    The JSON of rows and images is written and read by a library
    ([serde_json]): its functions are parameters. *)

From S2P Require Import Prelude RustStr Paths Os Generated Failure State Log Lock.

(** [kernel::platform::CacheRead] *)
Inductive CacheRead := Absent | Present (image : CacheImage).

Definition WRITE_LOCK : path := [Normal ".store.lock"].
Definition LOCK_TRIES : nat := 1000.
Definition LOCK_SLEEP : Z := 10.

Record FsStore := { st_root : path; st_events : path; st_cache : path }.

Record StoredImage := { si_state : State; si_cache : StateCache }.

Definition unsafe_write : Failure := Unsafe OutOfScopeWrite.
Definition corrupt : Failure := Recoverable Tier1.
Definition single_writer_busy : Failure := Transient Backoff.
Definition map_data {A} (o : option A) : result Failure A := ok_or o corrupt.
Definition map_io (e : io_error) : Failure := Transient Backoff.

(** [path.strip_prefix(root).is_ok()] *)
Definition under (p root : path) : bool := bool_decide (is_Some (strip_path_prefix root p)).

Definition checked (p : path) : result Failure path :=
  if is_absolute p then Err unsafe_write else
  match p with
  | [Normal value] => Ok [Normal value]
  | _ => Err unsafe_write
  end.

Definition set_file_mode (file : nat) : prog Failure unit :=
  Call (SetHandleMode file 384 (* 0o600 *)) (λ a, Ret (map_err map_io a)).
Definition set_dir_mode (p : path) : prog Failure unit :=
  Call (SetMode p 448 (* 0o700 *)) (λ a, Ret (map_err map_io a)).

Definition with_paths (root events cache : path) : prog Failure FsStore :=
  _ ← create_dir_all map_io root;
  _ ← set_dir_mode root;
  root ← canonicalize map_io root;
  events ← Ret (checked events);
  cache ← Ret (checked cache);
  Ret (Ok {| st_root := root; st_events := events; st_cache := cache |}).

Definition open (root : path) : prog Failure FsStore :=
  with_paths root (components "events.jsonl") (components "state.json").

Definition cache_path (self : FsStore) : path := path_join (st_root self) (st_cache self).

Definition target (self : FsStore) (leaf : path) : prog Failure path :=
  let p := path_join (st_root self) leaf in
  Call (ReadLink p) (λ a,
    match a with
    | Ok _ => Ret (Err unsafe_write)
    | Err err =>
        if (io_kind err =s InvalidInput) || (io_kind err =s NotFound) then
          Call (Canonicalize p) (λ a, Ret
            match a with
            | Ok real => if under real (st_root self) then Ok p else Err unsafe_write
            | Err err => if io_kind err =s NotFound then Ok p else Err (map_io err)
            end)
        else Ret (Err (map_io err))
    end).

(** The attempts of [write_lock]; the handle of the locked file. *)
Fixpoint try_lock (tries : nat) (file : nat) : prog Failure nat :=
  match tries with
  | O => Ret (Err single_writer_busy)
  | S tries' =>
      Call (TryLock file) (λ a,
        match a with
        | Ok true => Ret (Ok file)
        | Ok false => Call (Sleep LOCK_SLEEP) (λ _, try_lock tries' file)
        | Err err => Ret (Err (map_io err))
        end)
  end.

Definition store_lock (self : FsStore) : prog Failure nat :=
  p ← target self WRITE_LOCK;
  file ← Call (OpenCreate p) (λ a, Ret (map_err map_io a));
  _ ← set_file_mode file;
  try_lock LOCK_TRIES file.

(** The temporary name: [pid] is the process's id and [id] the value
    [TEMP_ID.fetch_add(1)] returned. *)
Definition temp_name (leaf : path) (pid id : Z) : string :=
  "." +:+ to_os leaf +:+ "." +:+ show_uint pid +:+ "." +:+ show_uint id +:+ ".tmp".

Definition atomic_replace (root leaf : path) (pid id : Z) (bytes : string) : prog Failure unit :=
  let temp := path_join root [Normal (temp_name leaf pid id)] in
  file ← Call (CreateNew temp) (λ a, Ret (map_err map_io a));
  _ ← set_file_mode file;
  _ ← Call (WriteHandle file bytes) (λ a, Ret (map_err map_io a));
  _ ← Call (SyncHandle file) (λ a, Ret (map_err map_io a));
  _ ← Call (Rename temp (path_join root leaf)) (λ a, Ret (map_err map_io a));
  _ ← Call (SyncDir root) (λ a, Ret (map_err map_io a));
  Ret (Ok tt).

(** [body.last() != Some(&b'\n')] of a body that is not empty *)
Fixpoint ends_in_lf (body : string) : bool :=
  match body with
  | "" => false
  | String c "" => c =s LF
  | String _ body' => ends_in_lf body'
  end.

(** [fs::read(&path)] with a missing file read as [missing] *)
Definition read_or {A} (p : path) (missing : result Failure A) (k : string → prog Failure A)
  : prog Failure A :=
  Call (ReadFile p) (λ a,
    match a with
    | Ok bytes => k bytes
    | Err err => if io_kind err =s NotFound then Ret missing else Ret (Err (map_io err))
    end).

(** [fs::read_to_string]: the bytes must be UTF-8. *)
Definition utf8 (bytes : string) : result Failure string :=
  if utf8_valid bytes then Ok bytes
  else Err (map_io {| io_kind := OtherKind; io_message := "stream did not contain valid UTF-8" |}).

Section Store.
Context (row_json : EventRow → option string) (parse_row : string → option EventRow).
Context (image_json : StoredImage → option string) (parse_image : string → option StoredImage).

Definition append_body (self : FsStore) (pid id : Z) (row : EventRow) (body : string)
  : prog Failure unit :=
  if negb (is_empty body) && negb (ends_in_lf body) then Ret (Err corrupt) else
  json ← Ret (map_data (row_json row));
  atomic_replace (st_root self) (st_events self) pid id (body +:+ json +:+ String LF "").

Definition append_event (self : FsStore) (pid id : Z) (row : EventRow) : prog Failure unit :=
  _ ← store_lock self;
  p ← target self (st_events self);
  Call (ReadFile p) (λ a,
    match a with
    | Ok bytes => append_body self pid id row bytes
    | Err err =>
        if io_kind err =s NotFound then append_body self pid id row ""
        else Ret (Err (map_io err))
    end).

Definition write_cache (self : FsStore) (pid id : Z) (image : CacheImage) : prog Failure unit :=
  _ ← store_lock self;
  _ ← target self (st_cache self);
  bytes ← Ret (map_data (image_json {| si_state := ci_state image; si_cache := ci_cache image |}));
  atomic_replace (st_root self) (st_cache self) pid id bytes.

Definition read_events (self : FsStore) : prog Failure (list EventRow) :=
  p ← target self (st_events self);
  read_or p (Ok []) (λ bytes,
    text ← Ret (utf8 bytes);
    Ret (collect_res (λ line, map_data (parse_row line)) (lines text))).

Definition read_cache (self : FsStore) : prog Failure CacheRead :=
  p ← target self (st_cache self);
  read_or p (Ok Absent) (λ bytes,
    text ← Ret (utf8 bytes);
    stored ← Ret (map_data (parse_image text));
    Ret (Ok (Present {| ci_state := si_state stored; ci_cache := si_cache stored |}))).

(** [FsStore::apply] *)
Definition apply_effect (self : FsStore) (pid id : Z) (effect : LogEffect) : prog Failure unit :=
  match effect with
  | Append row => append_event self pid id row
  | Log.Store image => write_cache self pid id image
  end.

Definition replay_inputs (self : FsStore) : prog Failure (list EventRow * CacheRead) :=
  events ← read_events self;
  cache ← read_cache self;
  Ret (Ok (events, cache)).
End Store.
