(* ===== verification/StoreSafety.v ===== *)
(** * Concurrent use of the event store

    Processes that append to, cache and read one store directory at the same
    time ([drivers/src/fs/cache.rs]), over a file system in which any request
    may fail, a failing write may leave a part, and a process may die between
    any two requests.  The log is shown to be, at every moment, the rows it
    started with followed by the rows of completed appends, each once. *)

From S2P Require Import Prelude RustStr Paths Generated Failure State Log Os Lock FsStore.

(** ** The disk *)

(** The file system and, for each locked file, the process that locked it. *)
Record disk := { d_fs : fs; d_lock : gmap nat nat }.

Definition with_fs (d : disk) (f : fs) : disk := {| d_fs := f; d_lock := d_lock d |}.
Definition unlock (i : nat) (d : disk) : disk :=
  {| d_fs := d_fs d; d_lock := filter (λ hj, hj.2 ≠ i) (d_lock d) |}.

(** The content of the file a path leads to. *)
Definition content (f : fs) (p : path) : option string := data f <$> names f p.

Definition quiet (q : request) : bool :=
  match q with
  | Canonicalize _ | ReadLink _ | CreateDirAll _ | SetMode _ _ | SetHandleMode _ _
  | SyncHandle _ | SyncDir _ | Sleep _ => true
  | _ => false
  end.

(** A request of process [i].  Nothing is assumed of the answers to requests
    that leave names and contents alone, nor of what the requests that the
    store does not make would do. *)
Definition dstep (i : nat) (d : disk) (q : request) (a : answer q) (d' : disk) : Prop :=
  if quiet q then d' = d else
  match q return answer q → Prop with
  | ReadFile p => λ a, d' = d ∧
      match a with
      | Ok c => content (d_fs d) p = Some c
      | Err e => io_kind e = NotFound → names (d_fs d) p = None
      end
  | CreateNew p => λ a,
      match a with
      | Ok h => names (d_fs d) p = None ∧ h = next (d_fs d) ∧ d' = with_fs d (created (d_fs d) p)
      | Err _ => d' = d
      end
  | OpenCreate p => λ a,
      match a with
      | Ok h => (names (d_fs d) p = Some h ∧ d' = d) ∨
                (names (d_fs d) p = None ∧ h = next (d_fs d) ∧ d' = with_fs d (created (d_fs d) p))
      | Err _ => d' = d
      end
  | WriteHandle h c => λ a, ∃ part,
      d' = with_fs d (set_data (d_fs d) h (data (d_fs d) h +:+ part)) ∧
      match a with Ok _ => part = c | Err _ => True end
  | TryLock h => λ a,
      match a with
      | Ok true => d_lock d !! h = None ∧ d' = {| d_fs := d_fs d; d_lock := <[h := i]> (d_lock d) |}
      | Ok false => is_Some (d_lock d !! h) ∧ d' = d
      | Err _ => d' = d
      end
  | Rename from to => λ a,
      match a with
      | Ok _ => ∃ h, names (d_fs d) from = Some h ∧
                d' = with_fs d (set_name (set_name (d_fs d) from None) to (Some h))
      | Err _ => d' = d
      end
  | _ => λ _, True
  end a.

(** ** Processes *)

Inductive task :=
| TAppend (row : EventRow)
| TCache (image : CacheImage)
| TRead.

Inductive worker :=
| Running (p : prog Failure (option (list EventRow)))
| Ended (r : result Failure (option (list EventRow)))
| Crashed.

Inductive worker_step (i : nat) (d : disk) : worker → disk → worker → Prop :=
| w_call q k a d' : dstep i d q a d' → worker_step i d (Running (Call q k)) d' (Running (k a))
| w_return r : worker_step i d (Running (Ret r)) (unlock i d) (Ended r)
| w_crash p : worker_step i d (Running p) (unlock i d) Crashed.

Inductive store_step : disk * list worker → disk * list worker → Prop :=
| store_step_intro d ws i w d' w' :
    ws !! i = Some w → worker_step i d w d' w' → store_step (d, ws) (d', <[i := w']> ws).

Lemma utf8_valid_app s t : utf8_valid s = true → utf8_valid (s +:+ t) = utf8_valid t.
Proof.
  assert (∀ n s, (String.length s ≤ n)%nat → utf8_valid s = true → utf8_valid (s +:+ t) = utf8_valid t)
    as H; [|by eapply H].
  clear s. induction n as [|n IH]; intros s Hn Hs; (destruct s as [|a s]; [done|]); cbn in Hn; [lia|].
  cbn in *. destruct (code a <=? 127); [apply IH; [lia|done]|].
  destruct s as [|b s]; [done|]. cbn in *.
  destruct ((194 <=? code a) && (code a <=? 223)).
  { apply andb_true_iff in Hs as [-> Hs]. apply IH; [lia|done]. }
  destruct s as [|c s]; [done|]. cbn in *.
  repeat match goal with
  | H : (if ?b then _ else _) = true |- _ => destruct b
  | H : (_ && utf8_valid ?s = true) |- (_ && utf8_valid (?s +:+ t) = _) =>
      let H1 := fresh in apply andb_true_iff in H as [H1 H]; rewrite H1; apply IH; [lia|exact H]
  end.
  destruct s as [|u s]; [done|]. cbn in *.
  repeat match goal with
  | H : (if ?b then _ else _) = true |- _ => destruct b
  | H : (_ && utf8_valid ?s = true) |- (_ && utf8_valid (?s +:+ t) = _) =>
      let H1 := fresh in apply andb_true_iff in H as [H1 H]; rewrite H1; apply IH; [lia|exact H]
  end. done.
Qed.

(** ** The invariant *)

Section Safety.
Context (row_json : EventRow → option string) (parse_row : string → option EventRow).
Context (image_json : StoredImage → option string).
(** The store as [open] makes it, each process's task with its process id and
    temporary number, the rows in the log and the cache file at the start. *)
Context (root : path) (tasks : list (task * (Z * Z))) (base : list EventRow) (cache0 : option string).

Definition opened : FsStore :=
  {| st_root := root; st_events := [Normal "events.jsonl"]; st_cache := [Normal "state.json"] |}.

Definition at_root (name : string) : path := root ++ [Normal name].
Definition E : path := at_root "events.jsonl".
Definition C : path := at_root "state.json".
Definition L : path := at_root ".store.lock".

Definition task_prog (t : task * (Z * Z)) : prog Failure (option (list EventRow)) :=
  let '(t, (pid, id)) := t in
  match t with
  | TAppend row => _ ← append_event row_json opened pid id row; Ret (Ok None)
  | TCache image => _ ← write_cache image_json opened pid id image; Ret (Ok None)
  | TRead => rows ← read_events parse_row opened; Ret (Ok (Some rows))
  end.

Definition line (r : EventRow) : string := default "" (row_json r) +:+ String LF "".
Fixpoint text (rows : list EventRow) : string :=
  match rows with [] => "" | r :: rows' => line r +:+ text rows' end.

Definition row_of (i : nat) : option EventRow :=
  match tasks !! i with Some (TAppend row, _) => Some row | _ => None end.

(** The log after the commits of the listed processes. *)
Definition log_rows (commits : list nat) : list EventRow := base ++ omap row_of commits.

Definition image_bytes (image : CacheImage) : option string :=
  image_json {| si_state := ci_state image; si_cache := ci_cache image |}.

(** The disk with the processes that have committed an append, in order. *)
Abbreviation state := (disk * list nat)%type (only parsing).

Record good (x : state) : Prop := {
  gd_log : default "" (content (d_fs x.1) E) = text (log_rows x.2);
  gd_cache : content (d_fs x.1) C = cache0 ∨
    ∃ image bytes, TCache image ∈ tasks.*1 ∧ image_bytes image = Some bytes ∧
      content (d_fs x.1) C = Some bytes;
  gd_fresh : ∀ p h, names (d_fs x.1) p = Some h → (h < next (d_fs x.1))%nat;
  gd_lock : ∀ h j, d_lock x.1 !! h = Some j → names (d_fs x.1) L = Some h;
  gd_nodup : NoDup x.2;
  gd_commits : ∀ i, i ∈ x.2 → ∃ row, row_of i = Some row ∧ is_Some (row_json row);
}.

Definition holds (i : nat) (x : state) : Prop := ∃ h, d_lock x.1 !! h = Some i.

Lemma holds_unique x i j : good x → holds i x → holds j x → i = j.
Proof.
  intros Hg (h & Hh) (k & Hk). pose proof (gd_lock _ Hg _ _ Hh). pose proof (gd_lock _ Hg _ _ Hk).
  assert (h = k) by congruence. congruence.
Qed.

(** What process [i] may do to the others. *)
Record guar (i : nat) (x x' : state) : Prop := {
  gr_commits : x'.2 = x.2 ∨ x'.2 = x.2 ++ [i];
  gr_others : ∀ j, j ≠ i → holds j x → x' = x;
  gr_locks : ∀ j, j ≠ i → holds j x' → holds j x;
  gr_name : ∀ h, names (d_fs x.1) L = Some h → names (d_fs x'.1) L = Some h;
}.

Lemma guar_refl i x : guar i x x.
Proof. split; auto. Qed.

Lemma guar_prefix i x x' : guar i x x' → x.2 `prefix_of` x'.2.
Proof. intros []. destruct gr_commits0 as [->| ->]; [done|]. by apply prefix_app_r. Qed.

Lemma guar_mem i j x x' : guar i x x' → j ≠ i → j ∈ x'.2 ↔ j ∈ x.2.
Proof. intros [] Hj. destruct gr_commits0 as [->| ->]; set_solver. Qed.

(** What a process knows: while it does not hold the lock, a fact that the
    others keep; while it holds it, the whole state. *)
Inductive knows :=
| Out (F : state → Prop)
| In (x : state).

Definition stable (i : nat) (F : state → Prop) : Prop :=
  ∀ j x x', j ≠ i → F x → guar j x x' → F x'.

Definition knows_ok (i : nat) (x : state) (g : knows) : Prop :=
  match g with
  | Out F => ¬ holds i x ∧ F x ∧ stable i F
  | In y => x = y ∧ holds i x
  end.

(** Every request of the program keeps the invariant and the guarantee; the
    program ends in [Q]. *)
Fixpoint rg {A} (i : nat) (Q : result Failure A → knows → Prop) (g : knows) (p : prog Failure A)
  : Prop :=
  match p with
  | Ret r => Q r g
  | Call q k => ∀ x a d', good x → knows_ok i x g → dstep i x.1 q a d' →
      ∃ commits g', good (d', commits) ∧ guar i x (d', commits) ∧
        knows_ok i (d', commits) g' ∧ rg i Q g' (k a)
  end.

Lemma rg_mono {A} i (Q Q' : result Failure A → knows → Prop) g p :
  (∀ r g, Q r g → Q' r g) → rg i Q g p → rg i Q' g p.
Proof.
  intros HQ. revert g. induction p as [r|q k IH]; intros g; cbn; [apply HQ|].
  intros H x a d' Hx Hg Hd. destruct (H x a d' Hx Hg Hd) as (cm & g' & ? & ? & ? & ?).
  exists cm, g'. auto.
Qed.

Lemma rg_bind {A B} i (Q : result Failure B → knows → Prop) g p (f : A → prog Failure B) :
  rg i (λ r g, match r with Ok a => rg i Q g (f a) | Err e => Q (Err e) g end) g p →
  rg i Q g (p ≫= f).
Proof.
  revert g. induction p as [[a|e]|q k IH]; intros g; cbn; [done..|].
  intros H x a d' Hx Hg Hd. destruct (H x a d' Hx Hg Hd) as (cm & g' & ? & ? & ? & ?).
  exists cm, g'. split_and!; try done. by apply IH.
Qed.

Lemma rg_quiet {A} i (Q : result Failure A → knows → Prop) g q k :
  quiet q = true → (∀ a, rg i Q g (k a)) → rg i Q g (Call q k).
Proof.
  intros Hq Hk x a d' Hx Hg Hd. unfold dstep in Hd. rewrite Hq in Hd. subst d'.
  destruct x as [d cm]. exists cm, g. split_and!; auto using guar_refl.
Qed.

Lemma guar_holder i x d' commits :
  good x → holds i x → (commits = x.2 ∨ commits = x.2 ++ [i]) → d_lock d' = d_lock x.1 →
  (∀ h, names (d_fs x.1) L = Some h → names (d_fs d') L = Some h) →
  guar i x (d', commits).
Proof.
  intros Hg Hi Hc Hl Hn. split; cbn; [done| | |done].
  - intros j Hj Hh. destruct Hj. by eapply holds_unique.
  - unfold holds. cbn. by rewrite Hl.
Qed.

(** A request made under the lock, from a known state. *)
Lemma rg_in {A} i (Q : result Failure A → knows → Prop) x q k :
  (good x → holds i x → ∀ a d', dstep i x.1 q a d' →
     ∃ commits, (commits = x.2 ∨ commits = x.2 ++ [i]) ∧ d_lock d' = d_lock x.1 ∧
       names (d_fs d') L = names (d_fs x.1) L ∧ good (d', commits) ∧ rg i Q (In (d', commits)) (k a)) →
  rg i Q (In x) (Call q k).
Proof.
  intros H y a d' Hy [-> Hi] Hd. destruct (H Hy Hi a d' Hd) as (cm & Hc & Hl & Hn & Hg & Hk).
  exists cm, (In (d', cm)). split_and!; [done| |split; [done|]|done].
  - apply guar_holder; try done. by rewrite Hn.
  - destruct Hi as [h Hh]. exists h. cbn. by rewrite Hl.
Qed.

(** *** The names of the store *)

Lemma path_join_name name : path_join root [Normal name] = at_root name.
Proof. unfold path_join, at_root. by destruct root. Qed.

Lemma at_root_inj a b : at_root a = at_root b ↔ a = b.
Proof. unfold at_root. split; [|by intros ->]. intros H%app_inv_head. congruence. Qed.

Definition temp (leaf : string) (pid id : Z) : path := at_root (temp_name [Normal leaf] pid id).

Lemma temp_log_distinct pid id :
  temp "events.jsonl" pid id ≠ E ∧ temp "events.jsonl" pid id ≠ C ∧ temp "events.jsonl" pid id ≠ L.
Proof. unfold temp, E, C, L. rewrite !at_root_inj. done. Qed.

Lemma temp_cache_distinct pid id :
  temp "state.json" pid id ≠ E ∧ temp "state.json" pid id ≠ C ∧ temp "state.json" pid id ≠ L.
Proof. unfold temp, E, C, L. rewrite !at_root_inj. done. Qed.

Lemma names_distinct : E ≠ C ∧ E ≠ L ∧ C ≠ L.
Proof. unfold E, C, L. rewrite !at_root_inj. done. Qed.

(** *** The operations *)

Lemma rg_target i (Q : result Failure path → knows → Prop) g name :
  (∀ e, Q (Err e) g) → Q (Ok (at_root name)) g → rg i Q g (target opened [Normal name]).
Proof.
  intros He Ho. apply rg_quiet; [done|]. intros [p|e]; [apply He|].
  case_match; [|apply He]. apply rg_quiet; [done|]. cbn [st_root opened].
  rewrite path_join_name. intros [p|e']; cbn; case_match; auto.
Qed.

Lemma rg_mode i (Q : result Failure unit → knows → Prop) g h :
  (∀ r, Q r g) → rg i Q g (set_file_mode h).
Proof. intros HQ. apply rg_quiet; [done|]. intros a. apply HQ. Qed.

(** Creating a file leaves the others alone. *)
Lemma names_created f p q : names (created f p) q = if decide (q = p) then Some (next f) else names f q.
Proof. done. Qed.

Lemma data_created f p h : data (created f p) h = if decide (h = next f) then "" else data f h.
Proof. done. Qed.

Lemma content_created f p q :
  (∀ h, names f q = Some h → (h < next f)%nat) → q ≠ p → content (created f p) q = content f q.
Proof.
  intros Hf Hne. unfold content. rewrite names_created, decide_False by done.
  destruct (names f q) as [h|] eqn:Hq; [|done]. cbn. specialize (Hf h eq_refl).
  rewrite data_created, decide_False by lia. done.
Qed.

Lemma good_created d cm p :
  good (d, cm) → p ≠ E → p ≠ C → names (d_fs d) p = None →
  (p = L → d_lock d = ∅) → good (with_fs d (created (d_fs d) p), cm).
Proof.
  intros [] HE HC Hp HL. cbn in *. split; cbn; try done.
  - by rewrite content_created by eauto.
  - by rewrite content_created by eauto.
  - intros q h. rewrite names_created. change (next (created _ _)) with (S (next (d_fs d))).
    case_decide; [intros [= <-]; lia|]. intros ?%gd_fresh0. lia.
  - intros h j Hh. rewrite names_created. case_decide as HLp; [|by eapply gd_lock0].
    rewrite HL in Hh by done. by rewrite lookup_empty in Hh.
Qed.

(** A fact about the commits alone. *)
Definition commit_fact (F : state → Prop) : Prop := ∀ d d' cm, F (d, cm) → F (d', cm).

Lemma stable_locked i F h :
  stable i F → stable i (λ x, F x ∧ names (d_fs x.1) L = Some h).
Proof. intros Hst j x x' Hj [HF Hn] Hg. split; [by eapply Hst|]. by apply (gr_name _ _ _ Hg). Qed.

Lemma rg_try_lock i (Q : result Failure nat → knows → Prop) F h tries :
  stable i F → commit_fact F → (∀ e g, Q (Err e) g) →
  (∀ x, good x → holds i x → F x → Q (Ok h) (In x)) →
  rg i Q (Out (λ x, F x ∧ names (d_fs x.1) L = Some h)) (try_lock tries h).
Proof.
  intros Hst HF He Ho. induction tries as [|tries IH]; [apply He|].
  intros [d cm] a d' Hx (Hn & [HFx HL] & Hst') Hd. cbn in Hd, HL.
  destruct a as [[]|e].
  - destruct Hd as [Hnone ->]. set (d' := {| d_fs := d_fs d; d_lock := <[h := i]> (d_lock d) |}).
    assert (good (d', cm)) as Hx'.
    { destruct Hx. split; cbn in *; try done. intros k j.
      rewrite lookup_insert_Some. intros [[<- _]|[_ ?]]; [done|]. by eapply gd_lock0. }
    assert (holds i (d', cm)) as Hh by (exists h; apply lookup_insert_eq).
    exists cm, (In (d', cm)). split_and!; [done| |done|apply Ho; [done..|by eapply HF]].
    split; [by left| | |done].
    + intros j Hj (k & Hk). pose proof (gd_lock _ Hx _ _ Hk). cbn in *. congruence.
    + intros j Hj (k & Hk). cbn in Hk. rewrite lookup_insert_Some in Hk.
      destruct Hk as [[_ ?]|[_ ?]]; [congruence|by exists k].
  - destruct Hd as [_ ->]. exists cm, (Out (λ x, F x ∧ names (d_fs x.1) L = Some h)).
    split_and!; [done|apply guar_refl|done|]. apply rg_quiet; [done|]. intros _. apply IH.
  - subst d'. exists cm, (Out (λ x, F x ∧ names (d_fs x.1) L = Some h)).
    split_and!; [done|apply guar_refl|done|apply He].
Qed.

Lemma rg_store_lock i (Q : result Failure nat → knows → Prop) F :
  stable i F → commit_fact F → (∀ e g, Q (Err e) g) →
  (∀ x h, good x → holds i x → F x → Q (Ok h) (In x)) →
  rg i Q (Out F) (store_lock opened).
Proof.
  intros Hst HF He Ho. apply rg_bind, rg_target; [auto|]. apply rg_bind.
  intros [d cm] a d' Hx (Hn & HFx & _) Hd. cbn in Hd. destruct a as [h|e]; cycle 1.
  { subst d'. exists cm, (Out F). split_and!; [done|apply guar_refl|done|apply He]. }
  exists cm, (Out (λ x, F x ∧ names (d_fs x.1) L = Some h)).
  assert (rg i Q (Out (λ x, F x ∧ names (d_fs x.1) L = Some h))
            (_ ← set_file_mode h; try_lock LOCK_TRIES h)) as Hrest.
  { apply rg_bind, rg_mode. intros [[]|e]; [|apply He]. apply rg_try_lock; auto. }
  destruct Hd as [[HL ->]|(HL & -> & ->)].
  - split_and!; [done|apply guar_refl| |done].
    split_and!; [done..|by apply stable_locked].
  - assert (d_lock d = ∅) as Hnone.
    { apply map_empty. intros k. destruct (d_lock d !! k) as [j|] eqn:Hk; [|done].
      pose proof (gd_lock _ Hx _ _ Hk) as HL'. cbn in HL'. unfold L in *. congruence. }
    destruct names_distinct as (? & ? & ?).
    split_and!; [by apply good_created| | |done].
    + split; [by left| | |].
      * intros j _ (k & Hk). cbn in Hk. by rewrite Hnone, lookup_empty in Hk.
      * intros j _ (k & Hk). cbn in Hk. by rewrite Hnone, lookup_empty in Hk.
      * intros k Hk. cbn in *. unfold L in *. congruence.
    + split_and!; [|by eapply HF| |by apply stable_locked].
      * intros (k & Hk). cbn in Hk. by rewrite Hnone, lookup_empty in Hk.
      * cbn. rewrite names_created. by rewrite decide_True.
Qed.

Lemma rg_io i (Q : result Failure unit → knows → Prop) g q (f : answer q → result Failure unit) :
  quiet q = true → (∀ r, Q r g) → rg i Q g (Call q (λ a, Ret (f a))).
Proof. intros Hq HQ. apply rg_quiet; [done|]. intros a. apply HQ. Qed.

(** The state in which the temporary file holds the new bytes and nothing else
    has changed. *)
Record staged (x y : state) (tmp : path) (h : nat) : Prop := {
  sg_commits : y.2 = x.2;
  sg_lock : d_lock y.1 = d_lock x.1;
  sg_good : good y;
  sg_names : ∀ p, p ≠ tmp → names (d_fs y.1) p = names (d_fs x.1) p;
  sg_content : ∀ p, p ≠ tmp → content (d_fs y.1) p = content (d_fs x.1) p;
  sg_tmp : names (d_fs y.1) tmp = Some h;
  sg_private : ∀ p, p ≠ tmp → names (d_fs y.1) p ≠ Some h;
}.

Lemma staged_create x tmp :
  good x → tmp ≠ E → tmp ≠ C → tmp ≠ L → names (d_fs x.1) tmp = None →
  let d' := with_fs x.1 (created (d_fs x.1) tmp) in
  staged x (d', x.2) tmp (next (d_fs x.1)) ∧ data (d_fs d') (next (d_fs x.1)) = "".
Proof.
  intros Hg HE HC HL Hn. destruct x as [d cm]. cbn in *. split; [split|]; cbn; try done.
  - by apply good_created.
  - intros p Hp. by rewrite names_created, decide_False.
  - intros p Hp. apply content_created; [|done]. apply (gd_fresh _ Hg).
  - by rewrite names_created, decide_True.
  - intros p Hp. rewrite names_created, decide_False by done. intros Hh%(gd_fresh _ Hg). cbn in Hh. lia.
  - by rewrite data_created, decide_True.
Qed.

Lemma data_set_data f h c k : data (set_data f h c) k = if decide (k = h) then c else data f k.
Proof. done. Qed.

Lemma content_set_data f h c p : names f p ≠ Some h → content (set_data f h c) p = content f p.
Proof.
  intros Hp. unfold content. change (names (set_data f h c)) with (names f).
  destruct (names f p) as [k|]; [|done]. cbn. by rewrite data_set_data, decide_False by congruence.
Qed.

Lemma staged_write x y tmp h c :
  tmp ≠ E → tmp ≠ C → staged x y tmp h →
  staged x (with_fs y.1 (set_data (d_fs y.1) h c), y.2) tmp h.
Proof.
  intros HE HC []. destruct y as [d cm]. cbn in *. split; cbn; try done.
  - destruct sg_good0. split; cbn in *; try done.
    + by rewrite content_set_data by auto.
    + by rewrite content_set_data by auto.
  - intros p Hp. rewrite content_set_data by auto. auto.
Qed.

Definition renamed (d : disk) (tmp tgt : path) (h : nat) : disk :=
  with_fs d (set_name (set_name (d_fs d) tmp None) tgt (Some h)).

Lemma rg_replace i (Q : result Failure unit → knows → Prop) x name pid id bytes commits :
  temp name pid id ≠ E → temp name pid id ≠ C → temp name pid id ≠ L → at_root name ≠ L →
  (∀ e g, Q (Err e) g) → (commits = x.2 ∨ commits = x.2 ++ [i]) →
  (∀ y h, staged x y (temp name pid id) h → data (d_fs y.1) h = bytes →
     good (renamed y.1 (temp name pid id) (at_root name) h, commits)) →
  (∀ y, y.2 = commits → Q (Ok tt) (In y)) →
  rg i Q (In x) (atomic_replace root [Normal name] pid id bytes).
Proof.
  intros HE HC HL HnL He Hcm Hren Ho. unfold atomic_replace. rewrite !path_join_name.
  fold (temp name pid id). set (tmp := temp name pid id) in *.
  apply rg_bind, rg_in. intros Hx Hi a d' Hd. cbn in Hd.
  destruct a as [h|e]; [|subst d'; exists x.2; split_and!; [by left|done..|by destruct x|apply He]].
  destruct Hd as (Hn & -> & ->).
  destruct (staged_create x tmp Hx HE HC HL Hn) as [Hsg Hempty]. cbn in Hempty.
  set (d1 := with_fs x.1 (created (d_fs x.1) tmp)) in *.
  assert (∀ p, p ≠ tmp → names (d_fs d1) p = names (d_fs x.1) p) as Hnm by apply Hsg.
  exists x.2. split_and!; [by left|done|by apply Hnm|apply Hsg|]. cbn [map_err].
  apply rg_bind, rg_mode. intros [[]|e]; [|apply He].
  apply rg_bind, rg_in. intros _ _ a d2 (part & -> & Ha). cbn [d_fs with_fs] in *.
  pose proof (staged_write x _ tmp (next (d_fs x.1)) (data (d_fs d1) (next (d_fs x.1)) +:+ part) HE HC Hsg)
    as Hsg2. cbn in Hsg2.
  assert (data (d_fs (with_fs d1 (set_data (d_fs d1) (next (d_fs x.1)) (data (d_fs d1) (next (d_fs x.1)) +:+ part))))
            (next (d_fs x.1)) = part) as Hdata.
  { cbn. rewrite data_set_data, decide_True by done. cbn in Hempty. by rewrite Hempty. }
  exists x.2. split_and!; [by left|done..|apply Hsg2|].
  destruct a as [[]|e]; [|apply He]. subst part.
  apply rg_bind, rg_io; [done|]. intros [[]|e]; [|apply He].
  apply rg_bind, rg_in. intros _ _ a d3 Hd. cbn in Hd.
  destruct a as [[]|e]; [|subst d3; exists x.2; split_and!; [by left|done..|apply Hsg2|apply He]].
  destruct Hd as (h & Hh & ->).
  assert (Some h = Some (next (d_fs x.1))) as [= ->] by (rewrite <- Hh; apply Hsg2).
  exists commits. split_and!; [done|done| |by apply (Hren _ _ Hsg2)|].
  - cbn. unfold set_name. cbn. by rewrite !decide_False by congruence.
  - apply rg_bind, rg_io; [done|]. intros [[]|e]; [|apply He]. by apply Ho.
Qed.

Lemma content_renamed d tmp tgt h p :
  content (d_fs (renamed d tmp tgt h)) p =
  if decide (p = tgt) then Some (data (d_fs d) h) else
  if decide (p = tmp) then None else content (d_fs d) p.
Proof. unfold content, renamed, set_name. cbn. repeat case_decide; done. Qed.

Lemma names_renamed d tmp tgt h p :
  names (d_fs (renamed d tmp tgt h)) p =
  if decide (p = tgt) then Some h else if decide (p = tmp) then None else names (d_fs d) p.
Proof. done. Qed.

Lemma good_renamed x y tmp tgt h :
  staged x y tmp h → tmp ≠ L → tgt ≠ L →
  (∀ p k, names (d_fs (renamed y.1 tmp tgt h)) p = Some k → (k < next (d_fs y.1))%nat) ∧
  (∀ k j, d_lock y.1 !! k = Some j → names (d_fs (renamed y.1 tmp tgt h)) L = Some k).
Proof.
  intros Hsg H1 H2. destruct (sg_good _ _ _ _ Hsg). split.
  - intros p k. rewrite names_renamed. repeat case_decide; [|done|by apply gd_fresh0].
    intros [= <-]. eapply gd_fresh0, (sg_tmp _ _ _ _ Hsg).
  - intros k j Hk. rewrite names_renamed, !decide_False by done. by eapply gd_lock0.
Qed.

Lemma text_app a b : text (a ++ b) = text a +:+ text b.
Proof. induction a as [|r a IH]; cbn; [done|]. by rewrite IH, str_app_assoc. Qed.

Lemma log_rows_snoc cm i row : row_of i = Some row → log_rows (cm ++ [i]) = log_rows cm ++ [row].
Proof. intros Hr. unfold log_rows. rewrite omap_app. cbn. by rewrite Hr, app_assoc. Qed.

Lemma good_append x y tmp h i row json :
  staged x y tmp h → tmp ≠ E → tmp ≠ C → tmp ≠ L → good x →
  row_of i = Some row → row_json row = Some json → i ∉ x.2 →
  data (d_fs y.1) h = default "" (content (d_fs x.1) E) +:+ json +:+ String LF "" →
  good (renamed y.1 tmp E h, x.2 ++ [i]).
Proof.
  intros Hsg HE HC HL Hx Hrow Hjson Hi Hdata. destruct names_distinct as (HEC & HEL & HCL).
  destruct (good_renamed x y tmp E h Hsg HL HEL) as [Hfresh Hlock].
  split; cbn [fst snd]; [| |done|done|..].
  - rewrite content_renamed, decide_True by done. cbn. rewrite Hdata, (gd_log _ Hx).
    rewrite (log_rows_snoc _ _ _ Hrow), text_app. cbn. unfold line. by rewrite Hjson, str_app_nil.
  - rewrite content_renamed, !decide_False by done. rewrite (sg_content _ _ _ _ Hsg) by done.
    apply (gd_cache _ Hx).
  - apply NoDup_app. split_and!; [apply (gd_nodup _ Hx)|set_solver|apply NoDup_singleton].
  - intros j [Hj|Hj]%elem_of_app; [by apply (gd_commits _ Hx)|].
    apply list_elem_of_singleton in Hj as ->. eauto.
Qed.

Lemma good_cached x y tmp h image bytes :
  staged x y tmp h → tmp ≠ E → tmp ≠ C → tmp ≠ L → good x →
  TCache image ∈ tasks.*1 → image_bytes image = Some bytes → data (d_fs y.1) h = bytes →
  good (renamed y.1 tmp C h, x.2).
Proof.
  intros Hsg HE HC HL Hx Himg Hb Hdata. destruct names_distinct as (HEC & HEL & HCL).
  destruct (good_renamed x y tmp C h Hsg HL HCL) as [Hfresh Hlock].
  split; cbn [fst snd]; [| |done|done|..].
  - rewrite content_renamed, !decide_False by done. rewrite (sg_content _ _ _ _ Hsg) by done.
    apply (gd_log _ Hx).
  - right. exists image, bytes. rewrite content_renamed, decide_True by done. by rewrite Hdata.
  - apply (gd_nodup _ Hx).
  - apply (gd_commits _ Hx).
Qed.

(** *** What the processes return *)

Definition post (i : nat) (r : result Failure (option (list EventRow))) (commits : list nat) : Prop :=
  match tasks !! i with
  | Some (TAppend _, _) => ∀ v, r = Ok v → i ∈ commits
  | Some (TRead, _) => ∀ rows, r = Ok (Some rows) →
      ∃ seen, seen `prefix_of` commits ∧ rows = log_rows seen
  | _ => True
  end.

Definition ends (i : nat) (r : result Failure (option (list EventRow))) (g : knows) : Prop :=
  ∀ x, good x → knows_ok i x g → post i r x.2.

Lemma ends_err i e g : ends i (Err e) g.
Proof. intros x _ _. unfold post. repeat case_match; done. Qed.

Definition fresh (i : nat) (x : state) : Prop := i ∉ x.2.

Lemma fresh_stable i : stable i (fresh i) ∧ commit_fact (fresh i).
Proof.
  split; [|by intros ???]. intros j x x' Hj Hf Hg. unfold fresh in *. by rewrite (guar_mem j i x x').
Qed.

Lemma rg_append i row pid id :
  tasks !! i = Some (TAppend row, (pid, id)) →
  rg i (ends i) (Out (fresh i)) (task_prog (TAppend row, (pid, id))).
Proof.
  intros Ht. destruct (temp_log_distinct pid id) as (HE & HC & HL).
  destruct names_distinct as (HEC & HEL & HCL).
  assert (row_of i = Some row) as Hrow by (unfold row_of; by rewrite Ht).
  apply rg_bind, rg_bind, rg_store_lock; [apply fresh_stable..|intros; apply ends_err|].
  intros x _ Hx Hi Hf. apply rg_bind, rg_target; [intros; apply ends_err|].
  assert (∀ body, body = default "" (content (d_fs x.1) E) → rg i
    (λ r g, match r with Ok _ => rg i (ends i) g (Ret (Ok None)) | Err e => ends i (Err e) g end)
    (In x) (append_body row_json opened pid id row body)) as Hbody.
  { intros body ->. unfold append_body. case_match; [apply ends_err|].
    destruct (row_json row) as [json|] eqn:Hj; cbn [map_data ok_or]; [|apply ends_err].
    apply (rg_replace i _ x "events.jsonl" pid id _ (x.2 ++ [i])); auto.
    - intros. apply ends_err.
    - intros y h Hsg Hd. by eapply good_append.
    - intros y Hy z _ [-> _]. unfold post. rewrite Ht. intros _ _. rewrite Hy. set_solver. }
  apply rg_in. intros _ _ a d' [-> Ha]. exists x.2. split_and!; [by left|done..|by destruct x|].
  replace (x.1, x.2) with x by by destruct x. destruct a as [body|e]; cbn in Ha.
  - apply Hbody. fold E in Ha. by rewrite Ha.
  - case_bool_decide as Hk; [|apply ends_err]. apply Hbody. unfold content. fold E in Ha. by rewrite Ha.
Qed.

Lemma rg_cache i image pid id :
  tasks !! i = Some (TCache image, (pid, id)) →
  rg i (ends i) (Out (fresh i)) (task_prog (TCache image, (pid, id))).
Proof.
  intros Ht. destruct (temp_cache_distinct pid id) as (HE & HC & HL).
  destruct names_distinct as (HEC & HEL & HCL).
  apply rg_bind, rg_bind, rg_store_lock; [apply fresh_stable..|intros; apply ends_err|].
  intros x _ Hx Hi Hf. apply rg_bind, rg_target; [intros; apply ends_err|].
  fold (image_bytes image). destruct (image_bytes image) as [bytes|] eqn:Hb; [|apply ends_err].
  apply (rg_replace i _ x "state.json" pid id bytes x.2); auto.
  - intros. apply ends_err.
  - intros y h Hsg Hd. eapply good_cached; try done. apply list_elem_of_fmap.
    exists (TCache image, (pid, id)). split; [done|]. by eapply list_elem_of_lookup_2.
  - intros y Hy z _ _. unfold post. by rewrite Ht.
Qed.

(** What the code relies on of the JSON library: a row reads back, and its
    text is UTF-8 on one line (control characters are escaped). *)
Hypothesis row_json_ok : ∀ r s, row_json r = Some s →
  parse_row s = Some r ∧ lacks LF s ∧ lacks CR s ∧ utf8_valid s = true.
Hypothesis base_json : Forall (λ r, is_Some (row_json r)) base.

Lemma text_parse rows :
  Forall (λ r, is_Some (row_json r)) rows →
  utf8_valid (text rows) = true ∧
  collect_res (λ line, map_data (parse_row line)) (lines (text rows)) = Ok rows.
Proof.
  induction 1 as [|r rows [s Hs] Hrows [IHu IHp]]; [done|]. cbn [text]. unfold line.
  destruct (row_json_ok r s Hs) as (Hp & HLF & HCR & Hu). rewrite Hs. change (default "" (Some s)) with s.
  rewrite str_app_assoc. change (String LF "" +:+ text rows) with (String LF (text rows)). split.
  - by rewrite utf8_valid_app.
  - rewrite lines_cons by done. cbn [collect_res]. rewrite Hp. cbn [map_data ok_or]. by rewrite IHp.
Qed.

Lemma text_empty rows : text rows = "" → rows = [].
Proof.
  destruct rows as [|r rows]; [done|]. cbn. unfold line. destruct (row_json r) as [s|]; cbn; [|done].
  by destruct s.
Qed.

Lemma log_rows_json x : good x → Forall (λ r, is_Some (row_json r)) (log_rows x.2).
Proof.
  intros Hx. apply Forall_app. split; [done|]. apply Forall_forall. intros r (i & Hi & Hr)%list_elem_of_omap.
  destruct (gd_commits _ Hx i Hi) as (row & Hrow & Hj). congruence.
Qed.

Lemma rg_read i pid id :
  tasks !! i = Some (TRead, (pid, id)) →
  rg i (ends i) (Out (fresh i)) (task_prog (TRead, (pid, id))).
Proof.
  intros Ht. apply rg_bind, rg_bind, rg_target; [intros; apply ends_err|].
  intros x a d' Hx (Hn & _ & _) [-> Ha]. exists x.2, (Out (λ y, x.2 `prefix_of` y.2)).
  replace (x.1, x.2) with x by by destruct x.
  split_and!; [done|apply guar_refl| |].
  { split_and!; [done..|]. intros j y y' _ Hp Hg%guar_prefix. by etrans. }
  assert (∀ rows, rows = log_rows x.2 → ends i (Ok (Some rows)) (Out (λ y, x.2 `prefix_of` y.2))) as Hend.
  { intros rows -> y _ (_ & Hp & _). unfold post. rewrite Ht. intros ? [= <-]. eauto. }
  pose proof (gd_log _ Hx) as Hlog. fold E in Ha.
  destruct a as [c|e]; cbn in Ha.
  - rewrite Ha in Hlog. cbn in Hlog. subst c.
    destruct (text_parse _ (log_rows_json x Hx)) as [Hu Hp]. unfold utf8. rewrite Hu. cbn. rewrite Hp.
    by apply Hend.
  - case_bool_decide as Hk; [|apply ends_err]. cbn. apply Hend. symmetry. apply text_empty.
    rewrite <- Hlog. unfold content. by rewrite (Ha Hk).
Qed.

Lemma rg_task i t : tasks !! i = Some t → rg i (ends i) (Out (fresh i)) (task_prog t).
Proof. destruct t as [[row|image|] [pid id]]; [apply rg_append|apply rg_cache|apply rg_read]. Qed.

(** ** The system *)

Definition worker_ok (x : state) (i : nat) (w : worker) : Prop :=
  match w with
  | Running p => ∃ g, knows_ok i x g ∧ rg i (ends i) g p
  | Ended r => ¬ holds i x ∧ post i r x.2
  | Crashed => ¬ holds i x
  end.

Lemma post_mono i r cm cm' : cm `prefix_of` cm' → post i r cm → post i r cm'.
Proof.
  intros Hp. unfold post. destruct (tasks !! i) as [[[row|image|] ?]|]; [|done| |done].
  - intros H v Hv. destruct Hp as [k ->]. apply elem_of_app. left. by eapply H.
  - intros H rows Hr. destruct (H rows Hr) as (seen & Hs & ?). exists seen. split; [by etrans|done].
Qed.

Lemma worker_ok_other x x' i j w : guar i x x' → j ≠ i → worker_ok x j w → worker_ok x' j w.
Proof.
  intros Hg Hj. pose proof (gr_locks _ _ _ Hg j Hj) as Hl. destruct w as [p|r|]; cbn.
  - intros (g & Hk & Hr). exists g. split; [|done]. destruct g as [F|y]; cbn in *.
    + destruct Hk as (? & ? & Hst). split_and!; [tauto|by eapply Hst|done].
    + destruct Hk as [-> Hh]. assert (x' = y) as -> by by eapply gr_others. done.
  - intros [? ?]. split; [tauto|]. eapply post_mono; [by eapply guar_prefix|done].
  - tauto.
Qed.

Lemma unlock_ok i d cm :
  good (d, cm) → good (unlock i d, cm) ∧ guar i (d, cm) (unlock i d, cm) ∧ ¬ holds i (unlock i d, cm).
Proof.
  intros Hx.
  assert (∀ h j, d_lock (unlock i d) !! h = Some j ↔ d_lock d !! h = Some j ∧ j ≠ i) as Hl.
  { intros h j. cbn. rewrite map_lookup_filter_Some. done. }
  split_and!.
  - destruct Hx. split; cbn [fst snd] in *; try done. intros h j [Hh _]%Hl. by eapply gd_lock0.
  - split; cbn [fst snd]; [by left| | |done].
    + intros j Hj Hh. f_equal. unfold unlock. destruct d as [f l]. f_equal. cbn.
      apply map_filter_id. intros k i' Hk. cbn.
      assert (holds i' ({| d_fs := f; d_lock := l |}, cm)) as Hi' by by exists k.
      by rewrite (holds_unique _ _ _ Hx Hi' Hh).
    + intros j Hj (h & [Hh _]%Hl). by exists h.
  - intros (h & [_ ?]%Hl). done.
Qed.

(** The start: nothing is locked, every file is older than the next one, the
    log holds the base rows. *)
Record start_disk (d : disk) : Prop := {
  sd_log : default "" (content (d_fs d) E) = text base;
  sd_cache : content (d_fs d) C = cache0;
  sd_fresh : ∀ p h, names (d_fs d) p = Some h → (h < next (d_fs d))%nat;
  sd_lock : d_lock d = ∅;
}.

Definition start_workers : list worker := (λ t, Running (task_prog t)) <$> tasks.

Definition system_ok (s : disk * list worker) : Prop :=
  ∃ commits, good (s.1, commits) ∧ ∀ i w, s.2 !! i = Some w → worker_ok (s.1, commits) i w.

Lemma system_start d : start_disk d → system_ok (d, start_workers).
Proof.
  intros []. exists []. split.
  - split; cbn; try done.
    + unfold log_rows. cbn. by rewrite app_nil_r.
    + by left.
    + intros h j. by rewrite sd_lock0, lookup_empty.
    + constructor.
    + set_solver.
  - cbn. unfold start_workers. intros i w Hw.
    apply list_lookup_fmap_Some in Hw as (t & -> & Ht).
    exists (Out (fresh i)). split; [|by apply rg_task]. split_and!; [|unfold fresh; set_solver|apply fresh_stable].
    intros (h & Hh). cbn in Hh. by rewrite sd_lock0, lookup_empty in Hh.
Qed.

Lemma worker_step_ok i d cm w d' w' :
  good (d, cm) → worker_ok (d, cm) i w → worker_step i d w d' w' →
  ∃ cm', good (d', cm') ∧ guar i (d, cm) (d', cm') ∧ worker_ok (d', cm') i w'.
Proof.
  intros Hx Hw. inversion 1; subst.
  - destruct Hw as (g & Hk & Hr). destruct (Hr _ _ _ Hx Hk ltac:(eassumption)) as (cm' & g' & ? & ? & ? & ?).
    exists cm'. split_and!; [done..|]. by exists g'.
  - destruct Hw as (g & Hk & Hr). destruct (unlock_ok i d cm Hx) as (? & ? & ?).
    exists cm. split_and!; [done..|]. split; [done|]. by apply (Hr _ Hx).
  - destruct (unlock_ok i d cm Hx) as (? & ? & ?). by exists cm.
Qed.

Lemma system_step_ok s s' : system_ok s → store_step s s' → system_ok s'.
Proof.
  intros (cm & Hx & Hws). inversion 1 as [d ws i w d' w' Hi Hstep]; subst. cbn in *.
  destruct (worker_step_ok _ _ _ _ _ _ Hx (Hws i w Hi) Hstep) as (cm' & Hx' & Hg & Hw').
  exists cm'. split; [done|]. cbn. intros j v Hj.
  destruct (decide (j = i)) as [->|Hne].
  - rewrite list_lookup_insert_eq in Hj by by eapply lookup_lt_Some. by injection Hj as <-.
  - rewrite list_lookup_insert_ne in Hj by done. eapply worker_ok_other; eauto.
Qed.

Lemma system_reachable d s : start_disk d → rtc store_step (d, start_workers) s → system_ok s.
Proof.
  intros Hd Hr. remember (d, start_workers) as s0 eqn:Hs0.
  assert (system_ok s0) as H0 by (subst; by apply system_start). clear Hs0 Hd.
  induction Hr; eauto using system_step_ok.
Qed.
End Safety.

(** C3. Concurrent appends are linearizable and crash safe.  Processes append
    rows, write caches and read one store directory at the same time; requests
    fail, writes stop half way and processes die at any point.  In every
    reachable state the log file holds exactly the rows it started with,
    followed by the rows of distinct append processes; every append that has
    returned success is among them; every read that has returned success saw a
    prefix of that log, never a part of a row; and the cache file is the
    initial one or a whole image that some process wrote. *)
Theorem store_linearizable (row_json : EventRow → option string) (parse_row : string → option EventRow)
    (image_json : StoredImage → option string)
    (root : path) (tasks : list (task * (Z * Z))) (base : list EventRow) (d d' : disk) (ws : list worker) :
  (∀ r s, row_json r = Some s →
     parse_row s = Some r ∧ lacks LF s ∧ lacks CR s ∧ utf8_valid s = true) →
  Forall (λ r, is_Some (row_json r)) base →
  start_disk row_json root base (content (d_fs d) (C root)) d →
  rtc store_step (d, start_workers row_json parse_row image_json root tasks) (d', ws) →
  ∃ commits,
    NoDup commits ∧
    (∀ i, i ∈ commits → ∃ row, row_of tasks i = Some row) ∧
    default "" (content (d_fs d') (E root)) = text row_json (log_rows tasks base commits) ∧
    (∀ i row meta v, tasks !! i = Some (TAppend row, meta) →
       ws !! i = Some (Ended (Ok v)) → i ∈ commits) ∧
    (∀ i meta rows, tasks !! i = Some (TRead, meta) → ws !! i = Some (Ended (Ok (Some rows))) →
       ∃ seen, seen `prefix_of` commits ∧ rows = log_rows tasks base seen) ∧
    (content (d_fs d') (C root) = content (d_fs d) (C root) ∨
     ∃ image bytes, TCache image ∈ tasks.*1 ∧ image_bytes image_json image = Some bytes ∧
       content (d_fs d') (C root) = Some bytes).
Proof.
  intros Hjson Hbase Hd Hr.
  destruct (system_reachable _ _ _ _ _ _ _ Hjson Hbase _ _ Hd Hr) as (cm & Hx & Hws). cbn in *.
  destruct Hx. exists cm. split_and!; try done.
  - intros i Hi. destruct (gd_commits0 i Hi) as (row & ? & _). eauto.
  - intros i row meta v Ht Hw. destruct (Hws i _ Hw) as [_ Hp]. unfold post in Hp. rewrite Ht in Hp.
    by eapply Hp.
  - intros i meta rows Ht Hw. destruct (Hws i _ Hw) as [_ Hp]. unfold post in Hp. rewrite Ht in Hp.
    by apply Hp.
Qed.

(** *** Witness: two appends and a read, one after the other. *)

Definition disk_do (i : nat) (d : disk) (q : request) : option (disk * answer q) :=
  match q return option (disk * answer q) with
  | Canonicalize p => Some (d, Ok p)
  | ReadLink _ => Some (d, Err {| io_kind := InvalidInput; io_message := "" |})
  | SetHandleMode _ _ | SyncHandle _ | SyncDir _ => Some (d, Ok tt)
  | ReadFile p =>
      match content (d_fs d) p with
      | Some c => Some (d, Ok c)
      | None => Some (d, Err {| io_kind := NotFound; io_message := "" |})
      end
  | CreateNew p =>
      match names (d_fs d) p with
      | None => Some (with_fs d (created (d_fs d) p), Ok (next (d_fs d)))
      | Some _ => None
      end
  | OpenCreate p =>
      match names (d_fs d) p with
      | None => Some (with_fs d (created (d_fs d) p), Ok (next (d_fs d)))
      | Some h => Some (d, Ok h)
      end
  | WriteHandle h c => Some (with_fs d (set_data (d_fs d) h (data (d_fs d) h +:+ c)), Ok tt)
  | TryLock h =>
      match d_lock d !! h with
      | None => Some ({| d_fs := d_fs d; d_lock := <[h := i]> (d_lock d) |}, Ok true)
      | Some _ => Some (d, Ok false)
      end
  | Rename from to =>
      match names (d_fs d) from with
      | Some h => Some (with_fs d (set_name (set_name (d_fs d) from None) to (Some h)), Ok tt)
      | None => None
      end
  | _ => None
  end.

Lemma disk_do_step i d q d' a : disk_do i d q = Some (d', a) → dstep i d q a d'.
Proof.
  destruct q; cbn; try done; intros H; unfold dstep; cbn;
    repeat case_match; simplify_eq; eauto; try done.
  split; [done|]. intros _. unfold content in *. by destruct (names _ _).
Qed.

(** Process [i] runs to its end. *)
Fixpoint finish (n : nat) (i : nat) (d : disk) (p : prog Failure (option (list EventRow)))
  : disk * worker :=
  match n, p with
  | S n', Call q k =>
      match disk_do i d q with
      | Some (d', a) => finish n' i d' (k a)
      | None => (d, Running p)
      end
  | _, Ret r => (unlock i d, Ended r)
  | O, _ => (d, Running p)
  end.

Lemma finish_steps n i d p ws :
  ws !! i = Some (Running p) →
  rtc store_step (d, ws) ((finish n i d p).1, <[i := (finish n i d p).2]> ws).
Proof.
  revert d p ws. induction n as [|n IH]; intros d p ws Hi; (destruct p as [r|q k]; cbn;
    [apply rtc_once; econstructor; [done|constructor]|]); [by rewrite list_insert_id|].
  destruct (disk_do i d q) as [[d' a]|] eqn:Hd; [|by rewrite list_insert_id].
  eapply rtc_l; [econstructor; [done|]; constructor; by apply disk_do_step|].
  pose proof (IH d' (k a) (<[i := Running (k a)]> ws)) as IH'.
  rewrite list_insert_insert_eq in IH'. apply IH', list_lookup_insert_eq. by eapply lookup_lt_Some.
Qed.

Definition row_a : EventRow := demo_row 1 0 1 "a" [].
Definition row_b : EventRow := demo_row 2 1 2 "b" [].
(** A JSON writer that knows two rows only. *)
Definition demo_row_json (r : EventRow) : option string :=
  if r =s row_a then Some "a" else if r =s row_b then Some "b" else None.
Definition demo_parse_row (s : string) : option EventRow :=
  if s =s "a" then Some row_a else if s =s "b" then Some row_b else None.
Definition demo_root : path := components "/run".
Definition demo_disk : disk := {| d_fs := demo_fs; d_lock := ∅ |}.
Definition demo_tasks : list (task * (Z * Z)) :=
  [(TAppend row_a, (11, 0)); (TAppend row_b, (12, 0)); (TRead, (13, 0))].
Definition demo_prog : task * (Z * Z) → prog Failure (option (list EventRow)) :=
  task_prog demo_row_json demo_parse_row (λ _, None) demo_root.
Definition demo_run : list worker :=
  start_workers demo_row_json demo_parse_row (λ _, None) demo_root demo_tasks.
Definition demo_after (i : nat) (t : task * (Z * Z)) (s : disk * list worker) : disk * list worker :=
  let r := finish 40 i s.1 (demo_prog t) in (r.1, <[i := r.2]> s.2).
Definition demo_end : disk * list worker :=
  demo_after 2 (TRead, (13, 0)) (demo_after 1 (TAppend row_b, (12, 0))
    (demo_after 0 (TAppend row_a, (11, 0)) (demo_disk, demo_run))).

Lemma store_linearizable_witness :
  demo_end.2 = [Ended (Ok None); Ended (Ok None); Ended (Ok (Some [row_a; row_b]))] ∧
  ∃ commits, NoDup commits ∧ 0%nat ∈ commits ∧ 1%nat ∈ commits ∧
    default "" (content (d_fs demo_end.1) (E demo_root)) =
    text demo_row_json (log_rows demo_tasks [] commits).
Proof.
  split; [vm_compute; reflexivity|].
  assert (rtc store_step (demo_disk, demo_run) demo_end) as Hr.
  { etrans; [|apply finish_steps; vm_compute; reflexivity].
    etrans; [|apply finish_steps; vm_compute; reflexivity].
    apply finish_steps. vm_compute. reflexivity. }
  destruct demo_end as [d' ws] eqn:Hend.
  destruct (store_linearizable demo_row_json demo_parse_row (λ _, None) demo_root demo_tasks []
              demo_disk d' ws) as (cm & Hnd & _ & Hlog & Happ & _).
  - intros r s. unfold demo_row_json, demo_parse_row.
    case_bool_decide as Ha; [intros [= <-]; subst r; vm_compute; auto|].
    case_bool_decide as Hb; [intros [= <-]; subst r; vm_compute; auto|done].
  - constructor.
  - split; done.
  - exact Hr.
  - assert (ws = [Ended (Ok None); Ended (Ok None); Ended (Ok (Some [row_a; row_b]))]) as Hws.
    { change ws with ((d', ws).2). rewrite <- Hend. vm_compute. reflexivity. }
    exists cm. split_and!; [done| | |done].
    + eapply (Happ 0%nat row_a); [reflexivity|]. by rewrite Hws.
    + eapply (Happ 1%nat row_b); [reflexivity|]. by rewrite Hws.
Defined.
