(* ===== verification/Validation.v ===== *)
(** * Forward validation

    [drivers/src/validation/mod.rs]: the commands of a forward validation and
    the decision after a validation round.  A verdict is accepted only when it
    covers every required criterion with evidence and agrees with its own
    results; the route then follows from the round and the blockers. *)

From S2P Require Import Prelude RustColl RustStr Generated Control.

Definition BOUNDARY_ID : string := "validation.verdict.v1".

(** [data/validation.kdl]; the double quote is written as a back quote. *)
Definition VALIDATION_TABLE : string := kdl
"schema `autopilot.validation.v1`
version 1

mode `forward` {
    command_source `plan-forward-criteria` doc=`Commands linked to plan-authored forward criteria.`
    command_source `changed-package-build` doc=`Required changed-package build/typecheck release checks.`
    dedupe by=`command+cwd+env_profile+commit`

    verdict_route round=1 overall=`FORWARD_READY` action=`release`
    verdict_route round=1 overall=`FORWARD_BLOCKED` action=`one-consolidated-recovery-engineer`
    verdict_route round=1 overall=`BLOCKED` action=`one-consolidated-recovery-engineer`
    verdict_route round=2 overall=`FORWARD_READY` action=`release`
    verdict_route round=2 overall=`FORWARD_BLOCKED` action=`tier-2-3-no-merge`
    verdict_route round=2 overall=`BLOCKED` action=`tier-2-3-no-merge`
}

criterion_verdict value=`PASS`
criterion_verdict value=`FAIL`
criterion_verdict value=`BLOCKED`

finding_effect value=`forward-blocking`
finding_effect value=`closure-blocking-forward-safe`
finding_effect value=`advisory`
".

Inductive ForwardRound := One | Two.

Record RequiredCriterion := {
  rq_id : Id;
  rq_covered_paths : list Path;
  rq_semantic_surface_ids : list Id;
  rq_forward_edge_ids : list Id;
}.

Inductive ForwardDecision :=
| Release
| ConsolidatedRecoveryEngineer (blocker_ids : list Id)
| Tier23 (blocker_ids : list Id).

Inductive ValidationError :=
| WrongScope (scope : string)
| MissingForwardVerdict
| UnexpectedClosureVerdict
| DuplicateCriterion (id : Id)
| MissingCriterion (id : Id)
| UnknownCriterion (id : Id)
| MissingEvidence (id : Id)
| MissingCoverage (id : Id)
| CoverageMismatch (id : Id)
| OverallReadyWithBlockers (ids : list Id)
| OverallBlockedWithoutBlocker.

Record CommandSpec := { cs_command : string; cs_cwd : string; cs_env_profile : string; cs_commit : string }.
#[global] Instance CommandSpec_eq_dec : EqDecision CommandSpec.
Proof. solve_decision. Defined.

(** The body of [submit_validation_verdict]; the boundary that wraps it is
    [Boundary]. *)
Definition submit_validation_verdict {R} (verdict : ValidationVerdict) : result R ValidationVerdict := Ok verdict.

(** [for x in l { if seen.insert(x) { out.push(x) } }] *)
Fixpoint first_seen {A} `{EqDecision A} (seen l : list A) : list A :=
  match l with
  | [] => []
  | x :: l' => if decide (x ∈ seen) then first_seen seen l' else x :: first_seen (x :: seen) l'
  end.

Definition select_forward_commands (linked_commands package_checks : list CommandSpec)
  : result ValidationError (list CommandSpec) :=
  if negb (contains (kdl "mode `forward`") VALIDATION_TABLE)
     || negb (contains "verdict_route" VALIDATION_TABLE)
  then Err (WrongScope "validation-table")
  else Ok (first_seen [] (linked_commands ++ package_checks)).

Definition index_result (required : gmap Id RequiredCriterion) (indexed : gmap Id CriterionResult)
    (r : CriterionResult) : result ValidationError (gmap Id CriterionResult) :=
  match required !! cr_criterion_id r with
  | None => Err (UnknownCriterion (cr_criterion_id r))
  | Some _ =>
      match indexed !! cr_criterion_id r with
      | Some _ => Err (DuplicateCriterion (cr_criterion_id r))
      | None => Ok (<[cr_criterion_id r := r]> indexed)
      end
  end.

Definition index_results (results : list CriterionResult) (required : gmap Id RequiredCriterion)
  : result ValidationError (gmap Id CriterionResult) :=
  indexed ← fold_res (index_result required) ∅ results;
  _ ← for_each (λ id, match indexed !! id with
                      | None => Err (MissingCriterion id)
                      | Some _ => Ok tt
                      end) (btree_keys required);
  Ok indexed.

Definition require_result_evidence (r : CriterionResult) : result ValidationError unit :=
  match cr_evidence_refs r with
  | [] => Err (MissingEvidence (cr_criterion_id r))
  | _ => Ok tt
  end.

Definition covers_paths (actual required : list Path) : bool :=
  forallb (λ item, any (λ seen, seen =s item) actual) required.
Definition covers_ids (actual required : list Id) : bool :=
  forallb (λ item, any (λ seen, seen =s item) actual) required.

Definition require_coverage (criterion : RequiredCriterion) (r : CriterionResult)
  : result ValidationError unit :=
  if (cr_covered_paths r =s []) || (cr_semantic_surface_ids r =s [])
  then Err (MissingCoverage (cr_criterion_id r)) else
  if negb (covers_paths (cr_covered_paths r) (rq_covered_paths criterion))
     || negb (covers_ids (cr_semantic_surface_ids r) (rq_semantic_surface_ids criterion))
     || negb (covers_ids (cr_forward_edge_ids r) (rq_forward_edge_ids criterion))
  then Err (CoverageMismatch (cr_criterion_id r)) else Ok tt.

Definition criterion_blocker (results : gmap Id CriterionResult) (blockers : list Id)
    (criterion : RequiredCriterion) : result ValidationError (list Id) :=
  r ← ok_or (results !! rq_id criterion) (MissingCriterion (rq_id criterion));
  _ ← require_result_evidence r;
  _ ← require_coverage criterion r;
  Ok (if cr_verdict r =s CV_PASS then blockers else blockers ++ [rq_id criterion]).

Definition criterion_blockers (required : list RequiredCriterion) (results : gmap Id CriterionResult)
  : result ValidationError (list Id) :=
  fold_res (criterion_blocker results) [] required.

Definition forward_finding_blockers (findings : list Finding) : list Id :=
  filter (λ f, fi_effect f = ForwardBlocking) findings ≫= fi_criterion_ids.

Definition required_map (required : list RequiredCriterion) : gmap Id RequiredCriterion :=
  fold_left (λ m c, <[rq_id c := c]> m) required ∅.

Definition decide_forward_round (round : ForwardRound) (required : list RequiredCriterion)
    (verdict : ValidationVerdict) (findings : list Finding)
  : result ValidationError ForwardDecision :=
  if negb (vv_validation_scope verdict =s "forward")
  then Err (WrongScope (vv_validation_scope verdict)) else
  match vv_closure_verdict verdict with
  | Some _ => Err UnexpectedClosureVerdict
  | None =>
      overall ← ok_or (vv_forward_verdict verdict) MissingForwardVerdict;
      results ← index_results (vv_criterion_results verdict) (required_map required);
      blockers ← criterion_blockers required results;
      let blockers := dedup (sort_by String.compare (blockers ++ forward_finding_blockers findings)) in
      match overall, blockers with
      | FV_FORWARDREADY, [] => Ok Release
      | FV_FORWARDREADY, _ => Err (OverallReadyWithBlockers blockers)
      | _, [] => Err OverallBlockedWithoutBlocker
      | _, _ =>
          match round with
          | One => Ok (ConsolidatedRecoveryEngineer blockers)
          | Two => Ok (Tier23 blockers)
          end
      end
  end.

(** ** What an accepted verdict establishes *)

Record covered (c : RequiredCriterion) (r : CriterionResult) : Prop := {
  cov_evidence : cr_evidence_refs r ≠ [];
  cov_some_path : cr_covered_paths r ≠ [];
  cov_some_surface : cr_semantic_surface_ids r ≠ [];
  cov_paths : rq_covered_paths c ⊆ cr_covered_paths r;
  cov_surfaces : rq_semantic_surface_ids c ⊆ cr_semantic_surface_ids r;
  cov_edges : rq_forward_edge_ids c ⊆ cr_forward_edge_ids r;
}.

(** Every result is for a required criterion, no criterion has two, and every
    required criterion has one that covers it. *)
Record report_ok (required : list RequiredCriterion) (results : list CriterionResult) : Prop := {
  rep_known : ∀ r, r ∈ results → ∃ c, c ∈ required ∧ rq_id c = cr_criterion_id r;
  rep_unique : NoDup (cr_criterion_id <$> results);
  rep_complete : ∀ c, c ∈ required → ∃ r, r ∈ results ∧ cr_criterion_id r = rq_id c ∧ covered c r;
}.

Definition blocking (required : list RequiredCriterion) (results : list CriterionResult)
    (findings : list Finding) (id : Id) : Prop :=
  (∃ c r, c ∈ required ∧ r ∈ results ∧ rq_id c = id ∧ cr_criterion_id r = id ∧ cr_verdict r ≠ CV_PASS) ∨
  (∃ f, f ∈ findings ∧ fi_effect f = ForwardBlocking ∧ id ∈ fi_criterion_ids f).

Lemma covers_ids_spec actual required : covers_ids actual required = true ↔ required ⊆ actual.
Proof.
  unfold covers_ids. rewrite forallb_forall. setoid_rewrite any_spec. setoid_rewrite bool_decide_eq_true.
  split; intros H x Hx.
  - destruct (H x) as (y & Hy & ->); [by apply list_elem_of_In|done].
  - exists x. split; [|done]. apply H. by apply list_elem_of_In.
Qed.

Lemma coverage_spec c r :
  (require_result_evidence r = Ok tt ∧ require_coverage c r = Ok tt) ↔ covered c r.
Proof.
  unfold require_result_evidence, require_coverage. change covers_paths with covers_ids. split.
  - intros [He Hc]. destruct (_ || _) eqn:H1 in Hc; [done|]. destruct (_ || _) eqn:H2 in Hc; [done|].
    rewrite !orb_false_iff, !bool_decide_eq_false in H1.
    rewrite !orb_false_iff, !negb_false_iff, !covers_ids_spec in H2.
    destruct H1, H2 as [[? ?] ?]. split; try done. by intros Hn; rewrite Hn in He.
  - intros []. split; [by destruct (cr_evidence_refs r)|].
    rewrite !(proj2 (covers_ids_spec _ _)) by done.
    rewrite !bool_decide_false by done. done.
Qed.

Lemma required_map_spec required id :
  is_Some (required_map required !! id) ↔ ∃ c, c ∈ required ∧ rq_id c = id.
Proof.
  unfold required_map. induction required as [|c cs IH] using rev_ind.
  { cbn. rewrite lookup_empty. split; [intros [? ?]; done|set_solver]. }
  rewrite fold_left_app. cbn. destruct (decide (rq_id c = id)) as [<-|Hne].
  - rewrite lookup_insert_eq. split; [set_solver|done].
  - rewrite lookup_insert_ne by done. rewrite IH. set_solver.
Qed.

Definition known (required : list RequiredCriterion) (results : list CriterionResult) : Prop :=
  ∀ r, r ∈ results → ∃ c, c ∈ required ∧ rq_id c = cr_criterion_id r.

Lemma index_fold required results :
  match fold_res (index_result (required_map required)) ∅ results with
  | Ok m => known required results ∧ NoDup (cr_criterion_id <$> results) ∧
      ∀ id r, m !! id = Some r ↔ r ∈ results ∧ cr_criterion_id r = id
  | Err _ => ¬ (known required results ∧ NoDup (cr_criterion_id <$> results))
  end.
Proof.
  induction results as [|r rs IH] using rev_ind.
  { cbn. split_and!; [by intros r ?%elem_of_nil|constructor|]. intros id r. rewrite lookup_empty. set_solver. }
  rewrite fold_res_app. destruct (fold_res _ ∅ rs) as [m|e]; cbn; cycle 1.
  { intros [Hk Hn]. apply IH. rewrite fmap_app in Hn. apply NoDup_app in Hn as [Hn _].
    split; [|done]. intros x Hx. apply Hk. set_solver. }
  destruct IH as (Hk & Hn & Hm). unfold index_result.
  destruct (required_map required !! cr_criterion_id r) as [c|] eqn:Hr; cycle 1.
  { intros [Hk' _]. destruct (proj2 (required_map_spec required (cr_criterion_id r))) as [c Hc]; [|congruence].
    apply Hk'. set_solver. }
  destruct (m !! cr_criterion_id r) as [r'|] eqn:Hr'.
  { apply Hm in Hr' as [Hin Hid]. intros [_ Hn']. rewrite fmap_app in Hn'.
    apply NoDup_app in Hn' as (_ & Hd & _). apply (Hd (cr_criterion_id r)); [|set_solver].
    rewrite <- Hid. by apply list_elem_of_fmap_2. }
  assert (∀ x, x ∈ rs → cr_criterion_id x ≠ cr_criterion_id r) as Hfresh.
  { intros x Hx Heq. assert (m !! cr_criterion_id r = Some x) by by apply Hm. congruence. }
  split_and!.
  - intros x [Hx|Hx]%elem_of_app; [by apply Hk|]. apply list_elem_of_singleton in Hx as ->.
    apply required_map_spec. by eexists.
  - rewrite fmap_app. apply NoDup_app. split_and!; [done| |apply NoDup_singleton].
    intros id (x & -> & Hx)%list_elem_of_fmap ?%list_elem_of_singleton. by apply (Hfresh x).
  - intros id x. rewrite lookup_insert_Some, Hm, elem_of_app, list_elem_of_singleton.
    split; [naive_solver|]. intros [[Hx| ->] <-]; [|by left].
    right. split; [|done]. intros Heq. by apply (Hfresh x).
Qed.

Lemma index_results_ok required results m :
  index_results results (required_map required) = Ok m ↔
  known required results ∧ NoDup (cr_criterion_id <$> results) ∧
  (∀ c, c ∈ required → ∃ r, r ∈ results ∧ cr_criterion_id r = rq_id c) ∧
  fold_res (index_result (required_map required)) ∅ results = Ok m.
Proof.
  unfold index_results. pose proof (index_fold required results) as Hf.
  destruct (fold_res _ ∅ results) as [m'|e] eqn:Hfold; cbn; [|naive_solver].
  destruct Hf as (Hk & Hn & Hm).
  assert (for_each (λ id, match m' !! id with None => Err (MissingCriterion id) | Some _ => Ok tt end)
            (btree_keys (required_map required)) = Ok tt ↔
          ∀ c, c ∈ required → ∃ r, r ∈ results ∧ cr_criterion_id r = rq_id c) as Hall.
  { rewrite for_each_ok, Forall_forall. split.
    - intros H c Hc. specialize (H (rq_id c)). destruct (m' !! rq_id c) as [r|] eqn:Hr.
      + apply Hm in Hr. eauto.
      + discriminate H. apply elem_of_btree_keys, required_map_spec. eauto.
    - intros H id (c & Hc & <-)%elem_of_btree_keys%required_map_spec.
      destruct (H c Hc) as (r & Hr & Hid). by rewrite (proj2 (Hm (rq_id c) r)). }
  destruct (for_each _ _) as [[]|e] eqn:Hfe; cbn; naive_solver.
Qed.

Definition all_covered (required : list RequiredCriterion) (m : gmap Id CriterionResult) : Prop :=
  ∀ c, c ∈ required → ∃ r, m !! rq_id c = Some r ∧ covered c r.

Lemma criterion_blockers_spec required m :
  match criterion_blockers required m with
  | Ok bs => all_covered required m ∧
      ∀ id, id ∈ bs ↔ ∃ c r, c ∈ required ∧ rq_id c = id ∧ m !! id = Some r ∧ cr_verdict r ≠ CV_PASS
  | Err _ => ¬ all_covered required m
  end.
Proof.
  unfold criterion_blockers. induction required as [|c cs IH] using rev_ind.
  { cbn. split; [by intros c ?%elem_of_nil|set_solver]. }
  rewrite fold_res_app. destruct (fold_res _ [] cs) as [bs|e]; cbn; cycle 1.
  { intros H. apply IH. intros x Hx. apply H. set_solver. }
  destruct IH as [Hall Hbs]. unfold criterion_blocker.
  destruct (m !! rq_id c) as [r|] eqn:Hr; cbn; cycle 1.
  { intros H. destruct (H c) as (r & ? & _); [set_solver|congruence]. }
  pose proof (coverage_spec c r) as Hcov.
  assert (¬ covered c r → ¬ all_covered (cs ++ [c]) m) as Hno.
  { intros Hn H. destruct (H c) as (r' & ? & ?); [set_solver|]. by simplify_eq. }
  destruct (require_result_evidence r) as [[]|]; cbn; [|apply Hno; by intros [? ?]%(proj2 Hcov)].
  destruct (require_coverage c r) as [[]|]; cbn; [|apply Hno; by intros [? ?]%(proj2 Hcov)].
  split.
  - intros x [Hx|Hx]%elem_of_app; [by apply Hall|]. apply list_elem_of_singleton in Hx as ->.
    exists r. split; [done|]. by apply (proj1 Hcov).
  - intros id.
    assert ((∃ c' r', c' ∈ cs ++ [c] ∧ rq_id c' = id ∧ m !! id = Some r' ∧ cr_verdict r' ≠ CV_PASS) ↔
            id ∈ bs ∨ (id = rq_id c ∧ cr_verdict r ≠ CV_PASS)) as ->.
    { rewrite Hbs. split.
      - intros (c' & r' & [Hc'|Hc']%elem_of_app & Hid & Hr' & Hv); [left; eauto 6|right].
        apply list_elem_of_singleton in Hc' as ->. subst id. rewrite Hr in Hr'. by injection Hr' as <-.
      - intros [(c' & r' & Hc' & H)|[-> Hv]]; [exists c', r'|exists c, r]; set_solver. }
    case_bool_decide; [tauto|]. rewrite elem_of_app, list_elem_of_singleton. tauto.
Qed.

Lemma finding_blockers_spec findings id :
  id ∈ forward_finding_blockers findings ↔
  ∃ f, f ∈ findings ∧ fi_effect f = ForwardBlocking ∧ id ∈ fi_criterion_ids f.
Proof.
  unfold forward_finding_blockers. rewrite list_elem_of_bind. setoid_rewrite list_elem_of_filter. naive_solver.
Qed.

(** The two tables together: the results are accepted exactly when the report
    is in order, and then the blockers are the blocking criteria. *)
Lemma round_blockers required results findings :
  match index_results results (required_map required) ≫= criterion_blockers required with
  | Ok bs => report_ok required results ∧
      ∀ id, id ∈ bs ++ forward_finding_blockers findings ↔ blocking required results findings id
  | Err _ => ¬ report_ok required results
  end.
Proof.
  pose proof (index_fold required results) as Hf.
  destruct (index_results results (required_map required)) as [m|e] eqn:Hi; cbn; cycle 1.
  { intros [Hk Hn Hc]. destruct (fold_res (index_result (required_map required)) ∅ results) as [m|] eqn:Hfold;
      [|by apply Hf].
    assert (index_results results (required_map required) = Ok m); [|congruence].
    apply index_results_ok. split_and!; try done. intros c Hcin. destruct (Hc c Hcin) as (r & ? & ? & _). eauto. }
  apply index_results_ok in Hi as (Hk & Hn & Hc & Hfold). rewrite Hfold in Hf. destruct Hf as (_ & _ & Hm).
  pose proof (criterion_blockers_spec required m) as Hb.
  destruct (criterion_blockers required m) as [bs|e]; cycle 1.
  { intros [_ _ Hcomp]. apply Hb. intros c Hcin. destruct (Hcomp c Hcin) as (r & Hr & Hid & Hcov).
    exists r. split; [by apply Hm|done]. }
  destruct Hb as [Hall Hbs]. split.
  - split; [done..|]. intros c Hcin. destruct (Hall c Hcin) as (r & [? ?]%Hm & ?). by exists r.
  - intros id. unfold blocking. rewrite elem_of_app, finding_blockers_spec, Hbs. f_equiv.
    split; intros (c & r & H); exists c, r; [|rewrite Hm; naive_solver].
    destruct H as (? & ? & [? ?]%Hm & ?). naive_solver.
Qed.

(** The route after a round that reports the blockers [ids]. *)
Definition route (round : ForwardRound) (ids : list Id) : ForwardDecision :=
  match round with One => ConsolidatedRecoveryEngineer ids | Two => Tier23 ids end.

(** C16. A forward round is decided exactly as the policy says.  The verdict is
    accepted if and only if it is a forward verdict whose results cover every
    required criterion once, with evidence, and agree with its overall word:
    ready with no blocking criterion, which releases, or blocked with at least
    one, which sends all blocking criteria, each once and in order, to one
    recovery engineer after round one and to tier 2/3 after round two.  A
    release is thus only ever reached without any failed or blocked criterion
    and without a forward-blocking finding. *)
Theorem forward_round_exact (round : ForwardRound) (required : list RequiredCriterion)
    (verdict : ValidationVerdict) (findings : list Finding) (decision : ForwardDecision) :
  decide_forward_round round required verdict findings = Ok decision ↔
  vv_validation_scope verdict = "forward" ∧ vv_closure_verdict verdict = None ∧
  report_ok required (vv_criterion_results verdict) ∧
  ∃ overall, vv_forward_verdict verdict = Some overall ∧
    ((overall = FV_FORWARDREADY ∧ decision = Release ∧
      ∀ id, ¬ blocking required (vv_criterion_results verdict) findings id) ∨
     (overall ≠ FV_FORWARDREADY ∧ ∃ ids, decision = route round ids ∧ ids ≠ [] ∧
      StronglySorted (λ x y, String.compare x y = Lt) ids ∧
      ∀ id, id ∈ ids ↔ blocking required (vv_criterion_results verdict) findings id)).
Proof.
  unfold decide_forward_round. case_bool_decide as Hs; cbn; [|naive_solver].
  destruct (vv_closure_verdict verdict); [naive_solver|].
  destruct (vv_forward_verdict verdict) as [overall|]; cbn; [|naive_solver].
  pose proof (round_blockers required (vv_criterion_results verdict) findings) as Hb.
  destruct (index_results _ _) as [m|]; cbn in *; [|naive_solver].
  destruct (criterion_blockers required m) as [bs|]; cbn in *; [|naive_solver].
  destruct Hb as [Hrep Hb].
  set (ids := dedup (sort_by String.compare (bs ++ forward_finding_blockers findings))).
  assert (StronglySorted (λ x y, String.compare x y = Lt) ids) as Hsort
    by apply dedup_sorted, sort_by_sorted, _.
  assert (∀ id, id ∈ ids ↔ blocking required (vv_criterion_results verdict) findings id) as Hids.
  { intros id. unfold ids. by rewrite elem_of_dedup, elem_of_sort_by, Hb. }
  clearbody ids. clear Hb.
  assert (∀ ids', StronglySorted (λ x y, String.compare x y = Lt) ids' →
    (∀ id, id ∈ ids' ↔ blocking required (vv_criterion_results verdict) findings id) → ids' = ids) as Huniq.
  { intros ids' Hs' Hi'. apply strictly_sorted_unique; [done..|]. intros id. by rewrite Hi', Hids. }
  split.
  - intros H. split_and!; try done. exists overall. split; [done|].
    destruct overall, ids as [|id ids]; try done;
      try (right; split; [done|]; exists (id :: ids); destruct round; by simplify_eq).
    left. simplify_eq. split_and!; [done..|]. intros id Hid. apply Hids in Hid. set_solver.
  - intros (_ & _ & _ & o & [= <-] & [(-> & -> & Hn)|(Ho & ids' & -> & Hne & Hs' & Hi')]).
    + destruct ids as [|id ids]; [done|]. exfalso. apply (Hn id), Hids. set_solver.
    + rewrite (Huniq ids' Hs' Hi') in *. destruct overall, ids; try done; by destruct round.
Qed.

Example forward_commands_deduplicated (a b : CommandSpec) :
  a ≠ b → select_forward_commands [a; b] [a] = Ok [a; b].
Proof.
  intros Hab. unfold select_forward_commands.
  replace (_ || _) with false by (vm_compute; reflexivity). cbn.
  rewrite !decide_False by set_solver. by rewrite decide_True by set_solver.
Qed.
