(* ===== verification/Closure.v ===== *)
(** * Post-release closure

    [drivers/src/closure/mod.rs]: the bundle of a deep validation, the criteria
    a change reopens, and the budget of repair attempts. *)

From S2P Require Import Prelude RustColl RustStr Failure Control.

(** [data/closure.kdl]; the double quote is written as a back quote. *)
Definition CLOSURE_KDL : string := kdl
"finding_effect `forward-blocking` route=`tier2` material=true
finding_effect `closure-blocking` route=`tier2` material=true
finding_effect `advisory` route=`none` material=false
repair_budget `post-release-closure` max_attempts=3 tier2_after_survivals=2
conflict_class `textual` review=`focused`
conflict_class `semantic-high-risk` review=`conflict-review`
".

Record Criterion := {
  cn_id : string;
  cn_paths : list string;
  cn_surfaces : list string;
  cn_witness_ids : list string;
}.

Inductive Verdict := Pass | Fail | VerdictBlocked.

Inductive FindingEffect := ForwardBlocking | ClosureBlocking | Advisory.
#[global] Instance FindingEffect_eq_dec : EqDecision FindingEffect.
Proof. solve_decision. Defined.

Definition material (e : FindingEffect) : bool :=
  match e with ForwardBlocking | ClosureBlocking => true | Advisory => false end.

Record MaterialFinding := { mf_normalized : string; mf_effect : FindingEffect; mf_evidence_marker : string }.

Record CriterionObservation := {
  ob_criterion_id : string;
  ob_verdict : Verdict;
  ob_findings : list MaterialFinding;
  ob_evidence_id : string;
}.

Record FindingLedgerEntry := { fe_criterion_id : string; fe_finding : MaterialFinding }.

Record DeepValidationBundle := {
  db_snapshot_commit : string;
  db_criteria : list CriterionObservation;
  db_ledger : list FindingLedgerEntry;
}.

Inductive ClosureError :=
| MissingCriterion (id : string)
| DuplicateCriterion (id : string)
| BadPolicy (why : string).

Record RepairPolicy := { max_attempts : Z; tier2_after_survivals : Z }.

(** [text.split_whitespace().find_map(|part| part.strip_prefix(key))] *)
Fixpoint find_attr (key : string) (parts : list string) : option string :=
  match parts with
  | [] => None
  | part :: parts' =>
      match strip_prefix key part with
      | Some raw => Some raw
      | None => find_attr key parts'
      end
  end.

Definition attr_u8 (text key : string) : result ClosureError Z :=
  match find_attr key (split_whitespace text) with
  | None => Err (BadPolicy key)
  | Some raw => ok_or (parse_uint 255 raw) (BadPolicy key)
  end.

(** The loop of [RepairPolicy::package] over the trimmed lines. *)
Fixpoint package_from (ls : list string) : result ClosureError RepairPolicy :=
  match ls with
  | [] => Err (BadPolicy "missing repair budget")
  | l :: ls' =>
      match strip_prefix "repair_budget " l with
      | None => package_from ls'
      | Some rest =>
          if negb (contains (kdl "`post-release-closure`") rest) then package_from ls' else
          max ← attr_u8 rest "max_attempts=";
          tier2 ← attr_u8 rest "tier2_after_survivals=";
          Ok {| max_attempts := max; tier2_after_survivals := tier2 |}
      end
  end.
Definition package : result ClosureError RepairPolicy := package_from (map trim (lines CLOSURE_KDL)).

Example package_budget : package = Ok {| max_attempts := 3; tier2_after_survivals := 2 |}.
Proof. vm_compute. reflexivity. Qed.

Record Survival := { sv_count : Z; sv_marker : string }.

Record RepairLedger := {
  rl_policy : RepairPolicy;
  rl_rounds : Z;
  rl_survivors : gmap string Survival;
}.

Definition ledger_new (policy : RepairPolicy) : RepairLedger :=
  {| rl_policy := policy; rl_rounds := 0; rl_survivors := ∅ |}.

Inductive RepairRouting := Continue | Closed | RoutingFailure (f : Failure).
#[global] Instance RepairRouting_eq_dec : EqDecision RepairRouting.
Proof. solve_decision. Defined.

Definition material_findings (b : DeepValidationBundle) : list MaterialFinding :=
  omap (λ e, if material (mf_effect (fe_finding e)) then Some (fe_finding e) else None) (db_ledger b).

Definition u8_add (a b : Z) : option Z := checked_add 255 a b.

(** The loop over the findings; [None] is the overflow of a [u8] addition. *)
Fixpoint survive (tier2 : Z) (survivors : gmap string Survival) (findings : list MaterialFinding)
  : option (gmap string Survival * RepairRouting) :=
  match findings with
  | [] => Some (survivors, Continue)
  | f :: findings' =>
      next_count ← match survivors !! mf_normalized f with
                   | Some prior =>
                       if sv_marker prior =s mf_evidence_marker f
                       then u8_add (sv_count prior) 1
                       else u8_add (sv_count prior) 1
                   | None => Some 1
                   end;
      let survivors := <[mf_normalized f :=
        {| sv_count := next_count; sv_marker := mf_evidence_marker f |}]> survivors in
      if tier2 <=? next_count
      then Some (survivors, RoutingFailure (Recoverable Tier2))
      else survive tier2 survivors findings'
  end.

Definition record_fix_attempt (self : RepairLedger) (b : DeepValidationBundle)
  : option (RepairLedger * RepairRouting) :=
  match material_findings b with
  | [] => Some (self, Closed)
  | found =>
      if max_attempts (rl_policy self) <=? rl_rounds self
      then Some (self, RoutingFailure (Paused ChooseAfterExhaustion)) else
      rounds ← u8_add (rl_rounds self) 1;
      r ← survive (tier2_after_survivals (rl_policy self)) (rl_survivors self) found;
      Some ({| rl_policy := rl_policy self; rl_rounds := rounds; rl_survivors := r.1 |}, r.2)
  end.

(** The first loop of [build]. *)
Fixpoint expected_ids (expected : gset string) (criteria : list Criterion)
  : result ClosureError (gset string) :=
  match criteria with
  | [] => Ok expected
  | c :: criteria' =>
      if bool_decide (cn_id c ∈ expected) then Err (DuplicateCriterion (cn_id c))
      else expected_ids ({[cn_id c]} ∪ expected) criteria'
  end.

(** The second loop of [build]. *)
Fixpoint ledger_of (expected seen : gset string) (observations : list CriterionObservation)
  : result ClosureError (gset string * list FindingLedgerEntry) :=
  match observations with
  | [] => Ok (seen, [])
  | o :: observations' =>
      if negb (bool_decide (ob_criterion_id o ∈ expected)) then Err (MissingCriterion (ob_criterion_id o))
      else
        r ← ledger_of expected ({[ob_criterion_id o]} ∪ seen) observations';
        Ok (r.1, map (λ f, {| fe_criterion_id := ob_criterion_id o; fe_finding := f |}) (ob_findings o) ++ r.2)
  end.

Definition build (snapshot_commit : string) (criteria : list Criterion)
    (observations : list CriterionObservation) : result ClosureError DeepValidationBundle :=
  expected ← expected_ids ∅ criteria;
  r ← ledger_of expected ∅ observations;
  match btree_set (expected ∖ r.1) with
  | criterion_id :: _ => Err (MissingCriterion criterion_id)
  | [] => Ok {| db_snapshot_commit := snapshot_commit; db_criteria := observations; db_ledger := r.2 |}
  end.

Definition intersects (left right : list string) : bool :=
  any (λ item, any (λ other, item =s other) right) left.

Definition criteria_for_delta (criteria : list Criterion)
    (changed_paths changed_surfaces stale_ids : list string) : list string :=
  map cn_id (filter (λ c,
    bool_decide (cn_id c ∈ stale_ids) || intersects (cn_paths c) changed_paths
    || intersects (cn_surfaces c) changed_surfaces = true) criteria).

(** ** The budget *)

Fixpoint attempts (l : RepairLedger) (bundles : list DeepValidationBundle)
  : option (RepairLedger * list RepairRouting) :=
  match bundles with
  | [] => Some (l, [])
  | b :: bundles' =>
      r ← record_fix_attempt l b;
      rest ← attempts r.1 bundles';
      Some (rest.1, r.2 :: rest.2)
  end.

Definition count (s : gmap string Survival) (k : string) : Z := from_option sv_count 0 (s !! k).

Lemma count_insert s k v k' : count (<[k := v]> s) k' = if decide (k = k') then sv_count v else count s k'.
Proof.
  unfold count. destruct (decide (k = k')) as [->|]; [by rewrite lookup_insert_eq|by rewrite lookup_insert_ne].
Qed.

(** One turn of the loop: the count goes up by one. *)
Lemma survive_cons tier2 s f fs :
  survive tier2 s (f :: fs) =
  next_count ← u8_add (count s (mf_normalized f)) 1;
  let s' := <[mf_normalized f := {| sv_count := next_count; sv_marker := mf_evidence_marker f |}]> s in
  if tier2 <=? next_count then Some (s', RoutingFailure (Recoverable Tier2)) else survive tier2 s' fs.
Proof. cbn. unfold count. destruct (s !! mf_normalized f); [by case_match|done]. Qed.

Lemma survive_frame tier2 s fs s' r k :
  survive tier2 s fs = Some (s', r) → k ∉ mf_normalized <$> fs → count s' k = count s k.
Proof.
  revert s. induction fs as [|f fs IH]; intros s; [by intros [= <- _]|]. rewrite survive_cons.
  destruct (u8_add _ _) as [n|]; [|done]. cbn. intros H Hk. apply not_elem_of_cons in Hk as [Hne Hk].
  destruct (tier2 <=? n); [injection H as <- _|apply IH in H; [rewrite H|done]];
    by rewrite count_insert, decide_False by done.
Qed.

Lemma survive_counts tier2 s fs s' r :
  survive tier2 s fs = Some (s', r) →
  (∀ k, count s k ≤ count s' k) ∧ (r = Continue ∨ r = RoutingFailure (Recoverable Tier2)) ∧
  (r = Continue → ∀ k, k ∈ mf_normalized <$> fs → count s k < count s' k < tier2).
Proof.
  revert s. induction fs as [|f fs IH]; intros s.
  { intros [= <- <-]. split_and!; [done|by left|]. intros _ k ?%elem_of_nil. done. }
  rewrite survive_cons. destruct (u8_add _ _) as [n|] eqn:Hn; [|done]. cbn.
  apply checked_add_some in Hn as [-> _].
  set (s1 := <[mf_normalized f := _]> s).
  assert (∀ k, count s1 k = if decide (mf_normalized f = k) then count s k + 1 else count s k) as H1.
  { intros k. unfold s1. rewrite count_insert. cbn. case_decide; [by subst|done]. }
  destruct (Z.leb_spec tier2 (count s (mf_normalized f) + 1)) as [Hle|Hlt].
  - intros [= <- <-]. split_and!; [|by right|done]. intros k. rewrite H1. case_decide; lia.
  - intros H. pose proof (survive_frame _ _ _ _ _ (mf_normalized f) H) as Hf.
    destruct (IH _ H) as (Hmono & Hr & Hc). split_and!; [|done|].
    + intros k. specialize (Hmono k). rewrite H1 in Hmono. case_decide; lia.
    + intros Hcont k Hk. destruct (decide (k ∈ mf_normalized <$> fs)) as [Hin|Hout].
      * specialize (Hc Hcont k Hin). rewrite H1 in Hc. case_decide; lia.
      * cbn in Hk. apply elem_of_cons in Hk as [->|?]; [|done].
        rewrite (Hf Hout), H1, decide_True by done. lia.
Qed.

Lemma survive_total tier2 s fs m :
  1 ≤ tier2 → 0 ≤ m → tier2 + m + 1 ≤ 255 → (∀ k, count s k ≤ tier2 + m) →
  ∃ s' r, survive tier2 s fs = Some (s', r) ∧ ∀ k, count s' k ≤ tier2 + m + 1.
Proof.
  intros Ht Hm Hmax. revert s. induction fs as [|f fs IH]; intros s Hs.
  { exists s, Continue. split; [done|]. intros k. specialize (Hs k). lia. }
  rewrite survive_cons. pose proof (Hs (mf_normalized f)) as Hf.
  assert (u8_add (count s (mf_normalized f)) 1 = Some (count s (mf_normalized f) + 1)) as ->.
  { apply checked_add_some. lia. }
  cbn. destruct (Z.leb_spec tier2 (count s (mf_normalized f) + 1)) as [Hle|Hlt].
  - eexists _, _. split; [done|]. intros k. rewrite count_insert. cbn.
    specialize (Hs k). case_decide; lia.
  - apply IH. intros k. rewrite count_insert. cbn. specialize (Hs k). case_decide; lia.
Qed.

(** The ledger's bookkeeping: rounds within the budget, counts within a bound
    that a byte holds. *)
Record ledger_ok (l : RepairLedger) : Prop := {
  lo_rounds : 0 ≤ rl_rounds l ≤ max_attempts (rl_policy l);
  lo_tier2 : 1 ≤ tier2_after_survivals (rl_policy l);
  lo_fits : tier2_after_survivals (rl_policy l) + max_attempts (rl_policy l) ≤ 255;
  lo_counts : ∀ k, count (rl_survivors l) k ≤ tier2_after_survivals (rl_policy l) + rl_rounds l;
}.

Definition keys (b : DeepValidationBundle) : list string := mf_normalized <$> material_findings b.

(** The material attempts among the first bundles. *)
Definition used (bundles : list DeepValidationBundle) : Z :=
  zlen (filter (λ b, material_findings b ≠ []) bundles).

(** One attempt of a ledger in order. *)
Lemma attempt_step l b :
  ledger_ok l →
  ∃ l' r, record_fix_attempt l b = Some (l', r) ∧ ledger_ok l' ∧ rl_policy l' = rl_policy l ∧
    (∀ k, count (rl_survivors l) k ≤ count (rl_survivors l') k) ∧
    (r = Closed ↔ material_findings b = []) ∧
    (r = RoutingFailure (Paused ChooseAfterExhaustion) ↔
       material_findings b ≠ [] ∧ rl_rounds l = max_attempts (rl_policy l)) ∧
    rl_rounds l' = (if decide (material_findings b = [] ∨ rl_rounds l = max_attempts (rl_policy l))
                    then rl_rounds l else rl_rounds l + 1) ∧
    (r = Continue → ∀ k, k ∈ keys b →
       count (rl_survivors l) k < count (rl_survivors l') k < tier2_after_survivals (rl_policy l)).
Proof.
  intros Hl. pose proof Hl as [Hr Ht Hf Hc]. unfold record_fix_attempt, keys.
  destruct (material_findings b) as [|f fs].
  { exists l, Closed. rewrite decide_True by by left. split_and!; naive_solver. }
  destruct (Z.leb_spec (max_attempts (rl_policy l)) (rl_rounds l)) as [Hle|Hlt].
  { exists l, (RoutingFailure (Paused ChooseAfterExhaustion)).
    assert (rl_rounds l = max_attempts (rl_policy l)) as Heq by lia.
    rewrite decide_True by by right. split_and!; naive_solver. }
  destruct (survive_total (tier2_after_survivals (rl_policy l)) (rl_survivors l) (f :: fs) (rl_rounds l))
    as (s' & r & Hs & Hb); [lia..|done|].
  assert (u8_add (rl_rounds l) 1 = Some (rl_rounds l + 1)) as -> by (apply checked_add_some; lia).
  cbn [mbind option_bind]. rewrite Hs. destruct (survive_counts _ _ _ _ _ Hs) as (Hmono & Hr' & Hcont).
  eexists _, _. split; [done|]. cbn. rewrite decide_False by (intros [?|?]; [done|lia]).
  split_and!; try done.
  - split; cbn; [lia|done..|]. intros k. specialize (Hb k). lia.
  - destruct Hr' as [->| ->]; naive_solver.
  - destruct Hr' as [->| ->]; (split; [done|]); intros [_ ?]; lia.
Qed.

Definition paused : RepairRouting := RoutingFailure (Paused ChooseAfterExhaustion).

(** The attempts that were allowed to continue although the finding was there. *)
Definition survived (k : string) (bundles : list DeepValidationBundle) (routes : list RepairRouting) : Z :=
  zlen (filter (λ br, k ∈ keys br.1 ∧ br.2 = Continue) (zip bundles routes)).

Lemma used_cons b bs : used (b :: bs) = (if decide (material_findings b = []) then 0 else 1) + used bs.
Proof.
  unfold used. rewrite filter_cons. repeat case_decide; try done. rewrite zlen_cons. lia.
Qed.

Lemma attempts_ok l bs :
  ledger_ok l →
  ∃ l' rs, attempts l bs = Some (l', rs) ∧
    Forall2 (λ b r, r = Closed ↔ material_findings b = []) bs rs ∧
    (∀ i b r, bs !! i = Some b → rs !! i = Some r →
       r = paused ↔ material_findings b ≠ [] ∧ max_attempts (rl_policy l) ≤ rl_rounds l + used (take i bs)) ∧
    ∀ k, survived k bs rs = 0 ∨
         survived k bs rs + count (rl_survivors l) k < tier2_after_survivals (rl_policy l).
Proof.
  revert l. induction bs as [|b bs IH]; intros l Hl.
  { exists l, []. split_and!; [done|constructor|done|by left]. }
  destruct (attempt_step l b Hl) as (l1 & r & Hstep & Hl1 & Hpol & Hmono & Hclosed & Hpaused & Hrounds & Hcont).
  destruct (IH l1 Hl1) as (l' & rs & Hrest & HF & Hp & Hsurv). rewrite Hpol in Hp, Hsurv.
  exists l', (r :: rs). cbn [attempts]. rewrite Hstep. cbn [mbind option_bind fst snd]. rewrite Hrest.
  split_and!; [done|by constructor| |].
  - intros [|i] b' r'; cbn.
    + intros [= <-] [= <-]. unfold paused. rewrite Hpaused.
      change (used []) with 0. pose proof (lo_rounds _ Hl). split; intros [? ?]; (split; [done|lia]).
    + intros Hb Hr'. rewrite (Hp i b' r' Hb Hr'), used_cons, Hrounds. pose proof (lo_rounds _ Hl).
      assert (0 ≤ used (take i bs)) by apply zlen_nonneg.
      split; intros [? ?]; (split; [done|]); repeat case_decide;
        destruct_or?; solve [lia|tauto].
  - clear Hrounds. intros k. unfold survived. change (zip (b :: bs) (r :: rs)) with ((b, r) :: zip bs rs). rewrite filter_cons.
    specialize (Hmono k). specialize (Hsurv k). unfold survived in Hsurv. case_decide as Hk; [|lia].
    destruct Hk as [Hk Hr]. cbn in Hk, Hr. specialize (Hcont Hr k Hk). rewrite zlen_cons. right. lia.
Qed.

(** C22. The repair budget is kept.  Under a policy whose numbers fit a byte,
    every sequence of attempts is routed without overflow; an attempt is
    closed exactly when its bundle has no material finding; it is paused for
    the operator exactly when it has one and the budget of attempts is used
    up by the earlier ones; and no finding is there in as many continued
    attempts as the policy allows survivals: it is escalated before. *)
Theorem repair_budget_kept (policy : RepairPolicy) (bundles : list DeepValidationBundle) :
  0 ≤ max_attempts policy → 1 ≤ tier2_after_survivals policy →
  tier2_after_survivals policy + max_attempts policy ≤ 255 →
  ∃ l routes, attempts (ledger_new policy) bundles = Some (l, routes) ∧
    Forall2 (λ b r, r = Closed ↔ material_findings b = []) bundles routes ∧
    (∀ i b r, bundles !! i = Some b → routes !! i = Some r →
       r = paused ↔ material_findings b ≠ [] ∧ max_attempts policy ≤ used (take i bundles)) ∧
    ∀ k, survived k bundles routes < tier2_after_survivals policy.
Proof.
  intros Hm Ht Hf. destruct (attempts_ok (ledger_new policy) bundles) as (l & rs & H1 & H2 & H3 & H4).
  { split; cbn; [lia..|]. intros k. change (count ∅ k) with 0. lia. }
  exists l, rs. split_and!; [done..|]. intros k. destruct (H4 k) as [H|H]; [cbn in *; lia|].
  change (count (rl_survivors (ledger_new policy)) k) with 0 in H. cbn in H. lia.
Qed.

Definition demo_bundle (marker : string) : DeepValidationBundle :=
  {| db_snapshot_commit := "c"; db_criteria := [];
     db_ledger := [{| fe_criterion_id := "c1";
       fe_finding := {| mf_normalized := "leak"; mf_effect := ClosureBlocking; mf_evidence_marker := marker |} |}] |}.
Definition demo_policy : RepairPolicy := {| max_attempts := 3; tier2_after_survivals := 2 |}.

Lemma repair_budget_kept_witness :
  package = Ok demo_policy ∧
  ∃ l routes, attempts (ledger_new demo_policy) [demo_bundle "a"; demo_bundle "b"; demo_bundle "c"; demo_bundle "d"]
    = Some (l, routes) ∧
  routes = [Continue; RoutingFailure (Recoverable Tier2); RoutingFailure (Recoverable Tier2); paused] ∧
  ∀ k, survived k [demo_bundle "a"; demo_bundle "b"; demo_bundle "c"; demo_bundle "d"] routes < 2.
Proof.
  split; [vm_compute; reflexivity|].
  destruct (repair_budget_kept demo_policy [demo_bundle "a"; demo_bundle "b"; demo_bundle "c"; demo_bundle "d"])
    as (l & routes & H & _ & _ & Hs); [cbn; lia..|].
  exists l, routes. split_and!; [exact H| |exact Hs].
  assert (snd <$> attempts (ledger_new demo_policy) [demo_bundle "a"; demo_bundle "b"; demo_bundle "c"; demo_bundle "d"]
    = Some [Continue; RoutingFailure (Recoverable Tier2); RoutingFailure (Recoverable Tier2); paused]) as Hr
    by (vm_compute; reflexivity).
  rewrite H in Hr. cbn in Hr. by injection Hr.
Defined.
