(* ===== verification/StateRoot.v ===== *)
(** * The state root: run identities and reservations

    [drivers/src/state_root/mod.rs]: where runs keep their files, the marker
    that admits one nonterminal run per workstream, and the identifiers of
    repositories and runs.  File operations are programs of requests; SHA-256
    (crate [sha2]) is a parameter. *)

From S2P Require Import Prelude RustStr Paths Os State.

(** [b"autopilot-repo-v1\0"] *)
Definition REPO_SALT : list Z := as_bytes "autopilot-repo-v1" ++ [0].

Inductive StateRootError := ActiveRun | Io | NonUtf8Path.

(** [impl Display] *)
Definition error_text (e : StateRootError) : string :=
  match e with
  | ActiveRun => "active run already reserved"
  | Io => "state root io error"
  | NonUtf8Path => "state root path is not utf8"
  end.

Record StateRoot := { sr_root : path }.
Record RunPaths := { run_dir : path; worktree_dir : path }.
Record RunLease := { marker : path }.

(** [kernel::generated::RunIdentity] *)
Record RunIdentity := { repo_key_ : string; run_id : string; workstream : string }.

Definition map_io (e : io_error) : StateRootError := Io.

Definition from_home (home : path) : StateRoot :=
  {| sr_root := path_join (path_join (path_join (path_join home (components ".pi")) (components "agent"))
                  (components "autopilot")) (components "v2") |}.
Definition from_v2_root (root : path) : StateRoot := {| sr_root := root |}.

Definition private_dir (p : path) : prog StateRootError unit :=
  _ ← create_dir_all map_io p;
  Call (SetMode p 448 (* 0o700 *)) (λ a, Ret (map_err map_io a)).

Definition private_handle (file : nat) : prog StateRootError unit :=
  Call (SetHandleMode file 384 (* 0o600 *)) (λ a, Ret (map_err map_io a)).

Definition lease_dir (self : StateRoot) (identity : RunIdentity) : path :=
  path_join (path_join (path_join (sr_root self) (components "active"))
    (components (repo_key_ identity))) (components (workstream identity)).
Definition lease_marker (self : StateRoot) (identity : RunIdentity) : path :=
  path_join (lease_dir self identity) (components "nonterminal.lock").

Definition reserve (self : StateRoot) (identity : RunIdentity) : prog StateRootError RunLease :=
  _ ← private_dir (lease_dir self identity);
  Call (CreateNew (lease_marker self identity)) (λ a,
    match a with
    | Ok file =>
        _ ← private_handle file;
        _ ← Call (WriteHandle file (run_id identity)) (λ a, Ret (map_err map_io a));
        _ ← Call (SyncHandle file) (λ a, Ret (map_err map_io a));
        Ret (Ok {| marker := lease_marker self identity |})
    | Err error =>
        if io_kind error =s AlreadyExists then Ret (Err ActiveRun) else Ret (Err (map_io error))
    end).

Definition materialize (self : StateRoot) (identity : RunIdentity) : prog StateRootError RunPaths :=
  let run_dir := path_join (path_join (path_join (sr_root self) (components "runs"))
                   (components (repo_key_ identity))) (components (run_id identity)) in
  let worktree_dir := path_join (path_join (path_join (sr_root self) (components "worktrees"))
                        (components (repo_key_ identity))) (components (run_id identity)) in
  _ ← private_dir run_dir;
  _ ← private_dir worktree_dir;
  Ret (Ok {| run_dir := run_dir; worktree_dir := worktree_dir |}).

Definition write_private (self : StateRoot) (relative : path) (bytes : string)
  : prog StateRootError path :=
  let p := path_join (sr_root self) relative in
  up ← Ret (ok_or (parent p) Io);
  _ ← private_dir up;
  file ← Call (OpenTruncate p) (λ a, Ret (map_err map_io a));
  _ ← private_handle file;
  _ ← Call (WriteHandle file bytes) (λ a, Ret (map_err map_io a));
  _ ← Call (SyncHandle file) (λ a, Ret (map_err map_io a));
  Ret (Ok p).

Definition close (lease : RunLease) : prog StateRootError unit :=
  Call (RemoveFile (marker lease)) (λ a, Ret (map_err map_io a)).

(** ** Identifiers *)

(** The while loop of [base32_lower]: a digit for every five pending bits.
    The fuel, the number of pending bits, is never used up. *)
Fixpoint base32_drain (fuel : nat) (buffer bits : Z) (out : list Z) : Z * list Z :=
  match fuel with
  | O => (bits, out)
  | S fuel' =>
      if 5 <=? bits
      then base32_drain fuel' buffer (bits - 5) (out ++ [Z.land (Z.shiftr buffer (bits - 5)) 31])
      else (bits, out)
  end.

(** One byte: [buffer << 8] drops what leaves the [u16]. *)
Definition base32_byte (acc : Z * Z * list Z) (byte : Z) : Z * Z * list Z :=
  let '(buffer, bits, out) := acc in
  let buffer := Z.lor (Z.land (Z.shiftl buffer 8) 65535) byte in
  let '(bits, out) := base32_drain (Z.to_nat (bits + 8)) buffer (bits + 8) out in
  (buffer, bits, out).

(** The indexes into the alphabet. *)
Definition base32_digits (bytes : list Z) : list Z :=
  let '(buffer, bits, out) := fold_left base32_byte bytes (0, 0, []) in
  if 0 <? bits then out ++ [Z.land (Z.land (Z.shiftl buffer (5 - bits)) 65535) 31] else out.

Definition ALPHABET : string := "abcdefghijklmnopqrstuvwxyz234567".
Definition alphabet_char (i : Z) : ascii :=
  default (chr 0) (String.list_ascii_of_string ALPHABET !! Z.to_nat i).
Definition base32_lower (bytes : list Z) : string :=
  String.string_of_list_ascii (map alphabet_char (base32_digits bytes)).

(** [hex]: the character of a nibble. *)
Definition nibble_char (nibble : Z) : ascii :=
  chr (if nibble <? 10 then 48 + nibble else 97 + (nibble - 10)).

(** [matches!(i, 4 | 6 | 8 | 10)] *)
Definition dash_before (i : nat) : bool :=
  match i with 4%nat | 6%nat | 8%nat | 10%nat => true | _ => false end.

Fixpoint hex_uuid_from (i : nat) (bytes : list Z) : list ascii :=
  match bytes with
  | [] => []
  | byte :: bytes' =>
      (if dash_before i then ["-"%char] else []) ++
      [nibble_char (Z.shiftr byte 4); nibble_char (Z.land byte 15)] ++ hex_uuid_from (S i) bytes'
  end.
Definition hex_uuid (bytes : list Z) : string   := String.string_of_list_ascii (hex_uuid_from 0 bytes).

(** [random] has ten bytes. *)
Definition run_id_bytes (millis : Z) (random : list Z) : list Z :=
  let r i := nth i random 0 in
  drop 2 (to_be_bytes millis) ++
  [Z.lor 112 (Z.land (r 0%nat) 15); r 1%nat; Z.lor 128 (Z.land (r 2%nat) 63)] ++
  drop 3 random.
Definition run_id_from_parts (millis : Z) (random : list Z) : string :=
  hex_uuid (run_id_bytes millis random).

(** [now]: milliseconds since the epoch, unless the clock is before it;
    [os_csprng_32]: 32 bytes of [/dev/urandom]. *)
Definition fresh_uuid_v7 (now : option Z) (os_csprng_32 : result StateRootError (list Z))
  : result StateRootError string :=
  millis ← ok_or now Io;
  millis ← ok_or (if millis <=? u64_max then Some millis else None) Io;
  random ← os_csprng_32;
  Ok (run_id_from_parts millis (take 10 random)).
Definition new_run_id := fresh_uuid_v7.

Section Identity.
Variable sha256 : list Z → list Z.

Definition repo_key_from_canonical_bytes (realpath_bytes : list Z) : string :=
  base32_lower (sha256 (REPO_SALT ++ realpath_bytes)).

Definition repo_key (common_dir : path) : prog StateRootError string :=
  real ← canonicalize map_io common_dir;
  Ret (Ok (repo_key_from_canonical_bytes (as_bytes (to_os real)))).

Definition identity_for (common_dir : path) (ws : string) (now : option Z)
    (os_csprng_32 : result StateRootError (list Z)) : prog StateRootError RunIdentity :=
  key ← repo_key common_dir;
  rid ← Ret (new_run_id now os_csprng_32);
  Ret (Ok {| repo_key_ := key; run_id := rid; workstream := ws |}).
End Identity.

Example base32_vectors :
  base32_lower (as_bytes "foobar") = "mzxw6ytboi" ∧ base32_lower (as_bytes "f") = "my" ∧ base32_lower [] = "".
Proof. vm_compute. auto. Qed.
Example run_id_vector :
  run_id_from_parts 1700000000000 [255; 1; 255; 3; 4; 5; 6; 7; 8; 9] = "018bcfe5-6800-7f01-bf03-040506070809".
Proof. vm_compute. reflexivity. Qed.

(** ** Base 32 is injective *)

(** The number a big-endian digit list denotes. *)
Definition digits_val (base : Z) (l : list Z) : Z := fold_left (λ v d, v * base + d) l 0.

Lemma digits_val_snoc base l d : digits_val base (l ++ [d]) = digits_val base l * base + d.
Proof. unfold digits_val. by rewrite fold_left_app. Qed.

Definition digits (base : Z) (l : list Z) : Prop := Forall (λ d, 0 ≤ d < base) l.

Lemma digits_val_inj base l k :
  0 < base → length l = length k → digits base l → digits base k →
  digits_val base l = digits_val base k → l = k.
Proof.
  intros Hb. revert k. induction l as [|d l IH] using rev_ind; intros k Hlen Hl Hk Hv.
  { by destruct k. }
  destruct k as [|e k _] using rev_ind; [rewrite length_app in Hlen; cbn in Hlen; lia|].
  rewrite !length_app in Hlen. cbn in Hlen. rewrite !digits_val_snoc in Hv.
  apply Forall_app in Hl as [Hl Hd], Hk as [Hk He]. apply Forall_cons in Hd as [Hd _], He as [He _].
  destruct (Z.div_mod_unique base (digits_val base l) (digits_val base k) d e) as [H1 ->]; [lia..|].
  f_equal. apply IH; [lia|done..].
Qed.

Lemma mod_split buffer bits :
  5 ≤ bits → buffer mod 2 ^ bits =
  Z.land (Z.shiftr buffer (bits - 5)) 31 * 2 ^ (bits - 5) + buffer mod 2 ^ (bits - 5).
Proof.
  intros Hb. change 31 with (Z.ones 5). rewrite Z.land_ones, Z.shiftr_div_pow2 by lia.
  replace (2 ^ bits) with (2 ^ (bits - 5) * 2 ^ 5) by (rewrite <- Z.pow_add_r by lia; f_equal; lia).
  rewrite Z.rem_mul_r by lia. lia.
Qed.

Lemma land_31_range z : 0 ≤ Z.land z 31 < 32.
Proof. change 31 with (Z.ones 5). rewrite Z.land_ones by lia. apply Z.mod_pos_bound. lia. Qed.

(** What the digits written so far and the pending bits stand for. *)
Definition b32_value (buffer bits : Z) (out : list Z) : Z :=
  digits_val 32 out * 2 ^ bits + buffer mod 2 ^ bits.

Lemma drain_spec fuel buffer bits out bits' out' :
  0 ≤ bits → (Z.to_nat bits ≤ fuel)%nat → digits 32 out →
  base32_drain fuel buffer bits out = (bits', out') →
  b32_value buffer bits' out' = b32_value buffer bits out ∧ 0 ≤ bits' < 5 ∧
  5 * zlen out' + bits' = 5 * zlen out + bits ∧ digits 32 out'.
Proof.
  revert bits out. induction fuel as [|fuel IH]; intros bits out Hb Hf Hd; cbn.
  { intros [= <- <-]. split_and!; [done|lia..|done]. }
  destruct (Z.leb_spec 5 bits) as [Hle|Hlt]; [|intros [= <- <-]; split_and!; [done|lia..|done]].
  intros H. apply IH in H as (Hv & Hr & Hl & Hd'); [|lia|lia|].
  - split_and!; [|lia|lia| |done].
    + rewrite Hv. unfold b32_value. rewrite digits_val_snoc, (mod_split buffer bits Hle).
      replace (2 ^ bits) with (32 * 2 ^ (bits - 5)); [ring|].
      change 32 with (2 ^ 5). rewrite <- Z.pow_add_r by lia. f_equal. lia.
    + rewrite Hl, zlen_app, zlen_cons, zlen_nil. lia.
  - apply Forall_app. split; [done|]. repeat constructor; apply land_31_range.
Qed.

Lemma lor_byte h byte : 0 ≤ byte < 256 → Z.lor (h * 256) byte = h * 256 + byte.
Proof.
  intros Hb. assert (Z.land (h * 256) byte = 0) as H.
  { change 256 with (2 ^ 8). rewrite <- Z.shiftl_mul_pow2 by lia. apply Z.bits_inj'. intros n Hn.
    rewrite Z.land_spec, Z.bits_0, Z.shiftl_spec by lia.
    destruct (Z.ltb_spec n 8); [by rewrite Z.testbit_neg_r by lia|].
    rewrite <- (Z.mod_small byte (2 ^ 8)) by lia. rewrite Z.mod_pow2_bits_high by lia. apply andb_false_r. }
  by rewrite Z.add_nocarry_lxor, Z.lxor_lor.
Qed.

Lemma base32_byte_spec bytes buffer bits out byte :
  0 ≤ bits < 5 → 0 ≤ byte < 256 → digits 32 out →
  digits_val 256 bytes = b32_value buffer bits out → 8 * zlen bytes = 5 * zlen out + bits →
  let '(buffer', bits', out') := base32_byte (buffer, bits, out) byte in
  0 ≤ bits' < 5 ∧ digits 32 out' ∧ digits_val 256 (bytes ++ [byte]) = b32_value buffer' bits' out' ∧
  8 * zlen (bytes ++ [byte]) = 5 * zlen out' + bits'.
Proof.
  intros Hb Hbyte Hd Hv Hl. unfold base32_byte.
  set (buffer' := Z.lor _ byte).
  destruct (base32_drain _ buffer' (bits + 8) out) as [bits' out'] eqn:H.
  apply drain_spec in H as (Hv' & Hb' & Hl' & Hd'); [|lia..|done].
  split_and!; [lia|lia|done| |rewrite zlen_app, zlen_cons, zlen_nil; lia].
  rewrite Hv', digits_val_snoc, Hv. unfold b32_value.
  assert (buffer' mod 2 ^ (bits + 8) = buffer mod 2 ^ bits * 256 + byte) as ->; [|rewrite Z.pow_add_r by lia; ring].
  assert (buffer' = (buffer * 256) mod 65536 + byte) as ->.
  { unfold buffer'. change 65535 with (Z.ones 16). rewrite Z.land_ones, Z.shiftl_mul_pow2 by lia.
    change (2 ^ 8) with 256. change (2 ^ 16) with 65536.
    replace ((buffer * 256) mod 65536) with (buffer mod 256 * 256)
      by (change 65536 with (256 * 256); by rewrite Z.mul_mod_distr_r by lia).
    by apply lor_byte. }
  assert (0 < 2 ^ bits) by (apply Z.pow_pos_nonneg; lia).
  assert (0 < 2 ^ (bits + 8)) by (apply Z.pow_pos_nonneg; lia).
  assert (0 < 2 ^ (8 - bits)) by (apply Z.pow_pos_nonneg; lia).
  rewrite Z.add_mod by lia. rewrite (Z.mod_small byte) by (split; [lia|]; apply (Z.lt_le_trans _ 256); [lia|];
    change 256 with (2 ^ 8); apply Z.pow_le_mono_r; lia).
  assert (65536 = 2 ^ (bits + 8) * 2 ^ (8 - bits)) as ->.
  { rewrite <- Z.pow_add_r by lia. replace (bits + 8 + (8 - bits)) with 16 by lia. done. }
  rewrite (Z.rem_mul_r (buffer * 256)) by lia. rewrite (Z.mul_comm (2 ^ (bits + 8)) (_ mod _)).
  rewrite Z.mod_add by lia. rewrite Z.mod_mod by lia.
  replace (2 ^ (bits + 8)) with (2 ^ bits * 256) by (rewrite Z.pow_add_r by lia; done).
  rewrite Z.mul_mod_distr_r by lia. apply Z.mod_small.
  pose proof (Z.mod_pos_bound buffer (2 ^ bits)). lia.
Qed.

Lemma base32_fold_spec bytes :
  digits 256 bytes →
  let '(buffer, bits, out) := fold_left base32_byte bytes (0, 0, []) in
  0 ≤ bits < 5 ∧ digits 32 out ∧ digits_val 256 bytes = b32_value buffer bits out ∧
  8 * zlen bytes = 5 * zlen out + bits.
Proof.
  induction bytes as [|byte bytes IH] using rev_ind; intros Hd.
  { cbn. split_and!; [lia..|constructor|done|done]. }
  apply Forall_app in Hd as [Hd Hbyte]. apply Forall_cons in Hbyte as [Hbyte _].
  rewrite fold_left_app. specialize (IH Hd). cbn [fold_left].
  destruct (fold_left base32_byte bytes (0, 0, [])) as [[buffer bits] out].
  destruct IH as (Hb & Hout & Hv & Hl). by apply base32_byte_spec.
Qed.

(** The digits denote the bytes, padded with zero bits to a multiple of five. *)
Lemma base32_digits_spec bytes :
  digits 256 bytes →
  ∃ pad, 0 ≤ pad < 5 ∧ digits 32 (base32_digits bytes) ∧
    digits_val 32 (base32_digits bytes) = digits_val 256 bytes * 2 ^ pad ∧
    5 * zlen (base32_digits bytes) = 8 * zlen bytes + pad.
Proof.
  intros Hd. unfold base32_digits. pose proof (base32_fold_spec bytes Hd) as H.
  destruct (fold_left base32_byte bytes (0, 0, [])) as [[buffer bits] out].
  destruct H as (Hb & Hout & Hv & Hl). unfold b32_value in Hv.
  destruct (Z.ltb_spec 0 bits) as [Hpos|Hzero].
  - exists (5 - bits). split_and!; [lia|lia| | |rewrite zlen_app, zlen_cons, zlen_nil; lia].
    + apply Forall_app. split; [done|]. repeat constructor; apply land_31_range.
    + rewrite digits_val_snoc, Hv.
      assert (Z.land (Z.land (Z.shiftl buffer (5 - bits)) 65535) 31 = buffer mod 2 ^ bits * 2 ^ (5 - bits)) as ->.
      { rewrite <- Z.land_assoc. change (Z.land 65535 31) with (Z.ones 5).
        rewrite Z.land_ones, Z.shiftl_mul_pow2 by lia.
        assert (2 ^ 5 = 2 ^ bits * 2 ^ (5 - bits)) as ->.
        { rewrite <- Z.pow_add_r by lia. f_equal. lia. }
        apply Z.mul_mod_distr_r; apply Z.pow_nonzero; lia. }
      rewrite Z.mul_add_distr_r, <- Z.mul_assoc, <- Z.pow_add_r by lia.
      replace (bits + (5 - bits)) with 5 by lia. lia.
  - assert (bits = 0) as -> by lia. exists 0. rewrite Z.mod_1_r in Hv. cbn. split_and!; [lia..|done|lia|lia].
Qed.

Lemma alphabet_char_inj i j : 0 ≤ i < 32 → 0 ≤ j < 32 → alphabet_char i = alphabet_char j → i = j.
Proof.
  assert (∀ a b, (a < 32)%nat → (b < 32)%nat →
    alphabet_char (Z.of_nat a) = alphabet_char (Z.of_nat b) → a = b) as H.
  { assert (NoDup (map (λ n, alphabet_char (Z.of_nat n)) (seq 0 32))) as Hnd.
    { apply (bool_decide_unpack _). vm_compute. exact I. }
    intros a b Ha Hb Heq. eapply NoDup_lookup; [exact Hnd|..|].
    - rewrite list_lookup_fmap, lookup_seq_lt by lia. reflexivity.
    - rewrite list_lookup_fmap, lookup_seq_lt by lia. cbn. by rewrite Heq. }
  intros Hi Hj Heq. rewrite <- (Z2Nat.id i), <- (Z2Nat.id j) in Heq by lia.
  apply H in Heq; lia.
Qed.

Lemma string_of_list_ascii_inj l k : String.string_of_list_ascii l = String.string_of_list_ascii k → l = k.
Proof. intros H. by rewrite <- (String.list_ascii_of_string_of_list_ascii l), H, String.list_ascii_of_string_of_list_ascii. Qed.

Lemma map_inj_on {A B} (f : A → B) (P : A → Prop) l k :
  (∀ x y, P x → P y → f x = f y → x = y) → Forall P l → Forall P k → map f l = map f k → l = k.
Proof.
  intros Hf Hl. revert k. induction Hl as [|x l Hx _ IH]; intros k Hk H; destruct Hk as [|y k Hy Hk]; try done.
  injection H as Hxy H. f_equal; [by apply Hf|by apply IH].
Qed.

Lemma base32_lower_inj l k :
  digits 256 l → digits 256 k → length l = length k → base32_lower l = base32_lower k → l = k.
Proof.
  intros Hl Hk Hlen H. apply string_of_list_ascii_inj in H.
  destruct (base32_digits_spec l Hl) as (p & Hp & Hdl & Hvl & Hll).
  destruct (base32_digits_spec k Hk) as (q & Hq & Hdk & Hvk & Hlk).
  apply (map_inj_on _ (λ d, 0 ≤ d < 32)) in H; [|intros; by apply alphabet_char_inj|done..].
  rewrite H in Hvl, Hll. unfold zlen in *. assert (p = q) as -> by lia.
  apply (digits_val_inj 256); [lia|done..|].
  apply (Z.mul_cancel_r _ _ (2 ^ q)); [apply Z.pow_nonzero; lia|]. lia.
Qed.

(** ** Run identifiers *)

Lemma nibble_char_inj i j : 0 ≤ i < 16 → 0 ≤ j < 16 → nibble_char i = nibble_char j → i = j.
Proof.
  assert (∀ a b, (a < 16)%nat → (b < 16)%nat →
    nibble_char (Z.of_nat a) = nibble_char (Z.of_nat b) → a = b) as H.
  { assert (NoDup (map (λ n, nibble_char (Z.of_nat n)) (seq 0 16))) as Hnd.
    { apply (bool_decide_unpack _). vm_compute. exact I. }
    intros a b Ha Hb Heq. eapply NoDup_lookup; [exact Hnd|..|].
    - rewrite list_lookup_fmap, lookup_seq_lt by lia. reflexivity.
    - rewrite list_lookup_fmap, lookup_seq_lt by lia. cbn. by rewrite Heq. }
  intros Hi Hj Heq. rewrite <- (Z2Nat.id i), <- (Z2Nat.id j) in Heq by lia.
  apply H in Heq; lia.
Qed.

Lemma nibbles b : 0 ≤ b < 256 →
  0 ≤ Z.shiftr b 4 < 16 ∧ 0 ≤ Z.land b 15 < 16 ∧ b = Z.shiftr b 4 * 16 + Z.land b 15.
Proof.
  intros Hb. change 15 with (Z.ones 4). rewrite Z.land_ones, Z.shiftr_div_pow2 by lia.
  change (2 ^ 4) with 16. pose proof (Z.div_mod b 16 ltac:(lia)). pose proof (Z.mod_pos_bound b 16 ltac:(lia)).
  split_and!; lia.
Qed.

Lemma hex_uuid_from_inj i l k :
  digits 256 l → digits 256 k → hex_uuid_from i l = hex_uuid_from i k → l = k.
Proof.
  intros Hl. revert i k. induction Hl as [|x l Hx _ IH]; intros i k Hk H; destruct Hk as [|y k Hy Hk]; cbn in H.
  - done.
  - destruct (dash_before i); discriminate H.
  - destruct (dash_before i); discriminate H.
  - apply app_inv_head in H. injection H as H1 H2 H3.
    destruct (nibbles x Hx) as (? & ? & Hx'). destruct (nibbles y Hy) as (? & ? & Hy').
    apply nibble_char_inj in H1; [|done..]. apply nibble_char_inj in H2; [|done..].
    f_equal; [lia|]. by eapply IH.
Qed.

(** The low 48 bits of the clock. *)
Lemma time_bytes_val m : 0 ≤ m → digits_val 256 (drop 2 (to_be_bytes m)) = m mod 2 ^ 48.
Proof.
  intros Hm. unfold to_be_bytes. cbn [map drop]. rewrite !byte_at by lia. unfold digits_val. cbn [fold_left].
  assert (∀ v n, 0 < n → v mod (256 * n) = v mod 256 + 256 * ((v / 256) mod n)) as H
    by (intros; apply Z.rem_mul_r; lia).
  replace (2 ^ 48) with (256 * (256 * (256 * (256 * (256 * 256))))) by done.
  rewrite !H by lia. rewrite !Z.div_div by lia.
  replace (m / 2 ^ (8 * 0)) with m by (by rewrite Z.div_1_r).
  change (2 ^ (8 * 1)) with 256. change (2 ^ (8 * 2)) with (256 * 256).
  change (2 ^ (8 * 3)) with (256 * 256 * 256). change (2 ^ (8 * 4)) with (256 * 256 * 256 * 256).
  change (2 ^ (8 * 5)) with (256 * 256 * 256 * 256 * 256). ring.
Qed.

Lemma to_be_bytes_digits m : digits 256 (to_be_bytes m).
Proof.
  unfold to_be_bytes. cbn [map]. rewrite !byte_at by lia.
  repeat (constructor; [apply Z.mod_pos_bound; lia|]). constructor.
Qed.

(** What the identifier keeps of the random bytes: four bits are the version
    and two the variant. *)
Definition random_kept (random : list Z) : Z * Z * Z * list Z :=
  (Z.land (nth 0 random 0) 15, nth 1 random 0, Z.land (nth 2 random 0) 63, drop 3 random).

Lemma lor_high a b k : 0 ≤ k → 0 ≤ b < 2 ^ k → Z.lor (a * 2 ^ k) b = a * 2 ^ k + b.
Proof.
  intros Hk Hb. assert (Z.land (a * 2 ^ k) b = 0) as H.
  { rewrite <- Z.shiftl_mul_pow2 by lia. apply Z.bits_inj'. intros n Hn.
    rewrite Z.land_spec, Z.bits_0, Z.shiftl_spec by lia.
    destruct (Z.ltb_spec n k); [by rewrite Z.testbit_neg_r by lia|].
    rewrite <- (Z.mod_small b (2 ^ k)) by lia. rewrite Z.mod_pow2_bits_high by lia. apply andb_false_r. }
  by rewrite Z.add_nocarry_lxor, Z.lxor_lor.
Qed.

Lemma version_byte x : Z.lor 112 (Z.land x 15) = 7 * 16 + Z.land x 15 ∧ 0 ≤ Z.land x 15 < 16.
Proof.
  change 15 with (Z.ones 4). rewrite Z.land_ones by lia. change (2 ^ 4) with 16.
  pose proof (Z.mod_pos_bound x 16 ltac:(lia)). split; [|done].
  exact (lor_high 7 (x mod 16) 4 ltac:(lia) ltac:(lia)).
Qed.

Lemma variant_byte x : Z.lor 128 (Z.land x 63) = 2 * 64 + Z.land x 63 ∧ 0 ≤ Z.land x 63 < 64.
Proof.
  change 63 with (Z.ones 6). rewrite Z.land_ones by lia. change (2 ^ 6) with 64.
  pose proof (Z.mod_pos_bound x 64 ltac:(lia)). split; [|done].
  exact (lor_high 2 (x mod 64) 6 ltac:(lia) ltac:(lia)).
Qed.

Lemma run_id_bytes_digits m r : digits 256 r → digits 256 (run_id_bytes m r).
Proof.
  intros Hr. unfold run_id_bytes. apply Forall_app. split; [apply Forall_drop, to_be_bytes_digits|].
  apply Forall_app. split; [|by apply Forall_drop].
  destruct (version_byte (nth 0 r 0)) as [-> ?]. destruct (variant_byte (nth 2 r 0)) as [-> ?].
  repeat constructor; try lia;
    (destruct r as [|? [|b ?]]; cbn; try lia; apply Forall_cons in Hr as [_ Hr]; apply Forall_cons in Hr as [? _]; lia).
Qed.

Lemma run_id_bytes_eq m m' r r' :
  0 ≤ m → 0 ≤ m' →
  run_id_bytes m r = run_id_bytes m' r' ↔ m mod 2 ^ 48 = m' mod 2 ^ 48 ∧ random_kept r = random_kept r'.
Proof.
  intros Hm Hm'. unfold run_id_bytes, random_kept.
  destruct (version_byte (nth 0 r 0)) as [-> ?]. destruct (variant_byte (nth 2 r 0)) as [-> ?].
  destruct (version_byte (nth 0 r' 0)) as [-> ?]. destruct (variant_byte (nth 2 r' 0)) as [-> ?].
  rewrite <- !time_bytes_val by done. split.
  - intros Heq. apply app_inj_1 in Heq as [Ht Heq]; [|done]. apply app_inj_1 in Heq as [Hk ->]; [|done].
    injection Hk as K1 K2 K3. split; [by rewrite Ht|].
    repeat (f_equal; try lia).
  - intros [Ht Hk]. injection Hk as K1 K2 K3 K4. rewrite K1, K2, K3, K4. f_equal.
    apply (digits_val_inj 256); [lia|done|apply Forall_drop, to_be_bytes_digits..|done].
Qed.

Lemma length_string_of_list_ascii l : String.length (String.string_of_list_ascii l) = length l.
Proof. induction l; cbn; congruence. Qed.

(** Run identifiers are well formed and tell runs apart.  For a clock value
    and ten random bytes, the identifier has the 36 characters of a UUID, with
    version digit 7 and a variant digit of 8, 9, a or b; and two identifiers
    are equal exactly when the low 48 bits of the clock and the random bits
    that are kept (all but the six of version and variant) are. *)
Theorem run_id_identifies (m m' : Z) (r r' : list Z) :
  0 ≤ m → 0 ≤ m' → digits 256 r → digits 256 r' → length r = 10%nat → length r' = 10%nat →
  String.length (run_id_from_parts m r) = 36%nat ∧
  String.get 14 (run_id_from_parts m r) = Some "7"%char ∧
  (∃ c, String.get 19 (run_id_from_parts m r) = Some c ∧ c ∈ ["8"; "9"; "a"; "b"]%char) ∧
  (run_id_from_parts m r = run_id_from_parts m' r' ↔
     m mod 2 ^ 48 = m' mod 2 ^ 48 ∧ random_kept r = random_kept r').
Proof.
  intros Hm Hm' Hr Hr' Hl Hl'. split_and!.
  - unfold run_id_from_parts, hex_uuid. rewrite length_string_of_list_ascii.
    do 10 (destruct r as [|? r]; [discriminate Hl|]). by destruct r.
  - do 10 (destruct r as [|? r]; [discriminate Hl|]). destruct r; [|discriminate Hl].
    cbn. f_equal. destruct (version_byte z) as [-> ?]. rewrite Z.shiftr_div_pow2 by lia.
    change (2 ^ 4) with 16. rewrite Z.div_add_l by lia. by rewrite Z.div_small.
  - do 10 (destruct r as [|? r]; [discriminate Hl|]). destruct r; [|discriminate Hl].
    exists (nibble_char (Z.shiftr (Z.lor 128 (Z.land z1 63)) 4)). split; [reflexivity|].
    destruct (variant_byte z1) as [-> ?].
    rewrite Z.shiftr_div_pow2 by lia. change (2 ^ 4) with 16.
    assert ((2 * 64 + Z.land z1 63) / 16 ∈ [8; 9; 10; 11]) as Hin.
    { assert (8 ≤ (2 * 64 + Z.land z1 63) / 16 < 12); [|set_solver by lia].
      split; [apply Z.div_le_lower_bound; lia|apply Z.div_lt_upper_bound; lia]. }
    set (v := _ / 16) in *. clearbody v. set_solver.
  - unfold run_id_from_parts, hex_uuid. rewrite <- run_id_bytes_eq by done. split; [|by intros ->].
    intros H. apply string_of_list_ascii_inj, hex_uuid_from_inj in H; auto using run_id_bytes_digits.
Qed.

Lemma run_id_identifies_witness :
  run_id_from_parts 5 [1; 2; 3; 4; 5; 6; 7; 8; 9; 10] = run_id_from_parts (5 + 2 ^ 48) [17; 2; 67; 4; 5; 6; 7; 8; 9; 10].
Proof.
  apply (run_id_identifies 5 (5 + 2 ^ 48)
    [1; 2; 3; 4; 5; 6; 7; 8; 9; 10] [17; 2; 67; 4; 5; 6; 7; 8; 9; 10]);
    [lia|lia|repeat constructor; lia..|reflexivity|reflexivity|split; vm_compute; reflexivity].
Defined.

(** Repository keys: 52 characters that determine the digest. *)
Theorem repo_key_determines_digest (sha256 : list Z → list Z) (a b : list Z) :
  (∀ l, digits 256 (sha256 l) ∧ length (sha256 l) = 32%nat) →
  String.length (repo_key_from_canonical_bytes sha256 a) = 52%nat ∧
  (repo_key_from_canonical_bytes sha256 a = repo_key_from_canonical_bytes sha256 b ↔
   sha256 (REPO_SALT ++ a) = sha256 (REPO_SALT ++ b)).
Proof.
  intros Hsha. unfold repo_key_from_canonical_bytes. split.
  - unfold base32_lower. rewrite length_string_of_list_ascii, length_map.
    destruct (Hsha (REPO_SALT ++ a)) as [Hd Hl]. destruct (base32_digits_spec _ Hd) as (p & Hp & _ & _ & Hlen).
    unfold zlen in Hlen. rewrite Hl in Hlen. lia.
  - split; [|by intros ->]. destruct (Hsha (REPO_SALT ++ a)), (Hsha (REPO_SALT ++ b)).
    apply base32_lower_inj; congruence.
Qed.

(** ** A reservation that fails half way *)

(** A disk that is full: files can be created but nothing can be written to
    them.  The world is the list of the files that exist. *)
Definition full_disk : handler (list path) := λ files q,
  match q return list path * answer q with
  | CreateNew p =>
      if bool_decide (p ∈ files)
      then (files, Err {| io_kind := AlreadyExists; io_message := "" |})
      else (p :: files, Ok 0%nat)
  | RemoveFile p => (filter (λ q, q ≠ p) files, Ok tt)
  | WriteHandle _ _ => (files, Err {| io_kind := OtherKind; io_message := "No space left on device" |})
  | CreateDirAll _ | SetMode _ _ | SetHandleMode _ _ | SyncHandle _ | SyncDir _ | Sleep _
  | WriteFile _ _ | Rename _ _ | RemoveDirAll _ => (files, Ok tt)
  | Canonicalize p => (files, Ok p)
  | ReadLink _ => (files, Err {| io_kind := InvalidInput; io_message := "" |})
  | ReadFile _ => (files, Ok "")
  | OpenCreate _ | OpenTruncate _ => (files, Ok 0%nat)
  | TryLock _ => (files, Ok true)
  | Spawn _ _ _ => (files, Ok {| succeeded := true; stdout := Some "" |})
  | other => (files, refuse other)
  end.

(** A reservation that fails after its marker is created leaves the marker
    behind: on a full disk the first reservation of any workstream ends in an
    I/O error without a lease, and every later one is refused as if a run
    were active, although none is. *)
Theorem failed_reservation_blocks (self : StateRoot) (identity : RunIdentity) (files : list path) :
  lease_marker self identity ∉ files →
  let '(after, _, first) := run full_disk files (reserve self identity) in
  first = Err Io ∧ lease_marker self identity ∈ after ∧
  (run full_disk after (reserve self identity)).2 = Err ActiveRun.
Proof.
  intros Hn. unfold reserve, private_dir, create_dir_all.
  cbn -[lease_marker lease_dir]. rewrite (bool_decide_false _ Hn). cbn -[lease_marker lease_dir].
  rewrite bool_decide_true by (apply elem_of_cons; by left). split_and!; [done|set_solver|done].
Qed.

Lemma failed_reservation_blocks_witness :
  let root := from_v2_root (components "/home/u/.pi/agent/autopilot/v2") in
  let id := {| repo_key_ := "abc"; run_id := "r1"; workstream := "ws" |} in
  (run full_disk [] (reserve root id)).2 = Err Io.
Proof.
  pose proof (failed_reservation_blocks (from_v2_root (components "/home/u/.pi/agent/autopilot/v2"))
    {| repo_key_ := "abc"; run_id := "r1"; workstream := "ws" |} [] ltac:(apply not_elem_of_nil)) as H.
  cbv zeta. revert H. by destruct (run full_disk [] _) as [[after qs] first]; intros (-> & _).
Defined.
