(* ===== verification/Staleness.v ===== *)
(** * Stale evidence and merge conflicts

    [drivers/src/staleness/mod.rs]: which validation evidence a merge makes
    stale.  [drivers/src/conflict/mod.rs]: when a conflict resolution is
    accepted and what it has to be checked with. *)

From S2P Require Import Prelude RustColl RustStr.

Module Staleness.

Record CriterionCoverage := {
  cc_criterion_id : string;
  cc_witness_id : string;
  cc_paths : list string;
  cc_surfaces : list string;
}.

Record CommandEvidence := { ce_command : string; ce_exit_code : Z; ce_output_ref : string }.

Record ValidationRecord := {
  vr_evidence_id : string;
  vr_role_id : string;
  vr_assignment_id : string;
  vr_commit : string;
  vr_tree : string;
  vr_covered : list CriterionCoverage;
  vr_command_evidence : CommandEvidence;
  vr_forward_edges : list string;
  vr_closure_edges : list string;
}.

Record MergeChange := {
  changed_paths : list string;
  changed_surfaces : list string;
  affected_forward_edges : list string;
  closed_forward_edges : list string;
}.

Record StaleEvidence := { se_evidence_id : string; se_criteria : list string; se_surfaces : list string }.

Inductive SuccessorEdgeAction := Refresh (edge_id : string) | Close (edge_id : string).

Record StalenessReport := {
  current_evidence : list string;
  stale : list StaleEvidence;
  successor_edges : list SuccessorEdgeAction;
}.

Record AffectedCoverage := { ac_criteria : list string; ac_surfaces : list string }.

Definition affected_is_empty (a : AffectedCoverage) : bool :=
  (ac_criteria a =s []) && (ac_surfaces a =s []).

Definition overlap (left right : list string) : bool :=
  any (λ item, any (λ other, item =s other) right) left.
Definition intersection (left right : list string) : list string :=
  filter (λ item, any (λ other, item =s other) right = true) left.

Definition stale_step (change : MergeChange) (acc : gset string * gset string) (c : CriterionCoverage)
  : gset string * gset string :=
  let '(criteria, surfaces) := acc in
  let path_hit := overlap (cc_paths c) (changed_paths change) in
  let surface_hits := intersection (cc_surfaces c) (changed_surfaces change) in
  (if path_hit || negb (surface_hits =s []) then {[cc_criterion_id c]} ∪ criteria else criteria,
   list_to_set surface_hits ∪ surfaces).

Definition stale_coverage (record : ValidationRecord) (change : MergeChange) : AffectedCoverage :=
  let '(criteria, surfaces) := fold_left (stale_step change) (vr_covered record) (∅, ∅) in
  {| ac_criteria := btree_set criteria; ac_surfaces := btree_set surfaces |}.

(** The loop over the records. *)
Fixpoint split_records (change : MergeChange) (records : list ValidationRecord)
  : list string * list StaleEvidence :=
  match records with
  | [] => ([], [])
  | record :: records' =>
      let '(current, stale) := split_records change records' in
      let affected := stale_coverage record change in
      if affected_is_empty affected then (vr_evidence_id record :: current, stale)
      else (current, {| se_evidence_id := vr_evidence_id record; se_criteria := ac_criteria affected;
                        se_surfaces := ac_surfaces affected |} :: stale)
  end.

Definition edge_action (change : MergeChange) (edge_id : string) : SuccessorEdgeAction :=
  if any (λ closed, closed =s edge_id) (closed_forward_edges change)
  then Close edge_id else Refresh edge_id.

Definition compute_staleness (records : list ValidationRecord) (change : MergeChange) : StalenessReport :=
  let '(current, stale) := split_records change records in
  {| current_evidence := current; stale := stale;
     successor_edges := map (edge_action change) (affected_forward_edges change) |}.

(** ** What staleness means *)

(** A coverage is hit when one of its paths or surfaces was changed. *)
Definition hit (change : MergeChange) (c : CriterionCoverage) : Prop :=
  (∃ p, p ∈ cc_paths c ∧ p ∈ changed_paths change) ∨
  (∃ s, s ∈ cc_surfaces c ∧ s ∈ changed_surfaces change).

Lemma any_mem (x : string) l : any (λ other, x =s other) l = true ↔ x ∈ l.
Proof. rewrite any_spec. setoid_rewrite bool_decide_eq_true. naive_solver. Qed.

Lemma overlap_spec l r : overlap l r = true ↔ ∃ x, x ∈ l ∧ x ∈ r.
Proof. unfold overlap. rewrite any_spec. setoid_rewrite any_mem. done. Qed.

Lemma elem_of_intersection_list l r x : x ∈ intersection l r ↔ x ∈ l ∧ x ∈ r.
Proof. unfold intersection. rewrite list_elem_of_filter, any_mem. tauto. Qed.

Lemma hit_test change c :
  overlap (cc_paths c) (changed_paths change)
  || negb (intersection (cc_surfaces c) (changed_surfaces change) =s []) = true ↔ hit change c.
Proof.
  rewrite orb_true_iff, overlap_spec, negb_true_iff, bool_decide_eq_false. unfold hit. f_equiv.
  setoid_rewrite <- elem_of_intersection_list. destruct (intersection _ _) as [|x l]; [|set_solver].
  split; [done|]. intros (x & ?%elem_of_nil). done.
Qed.

Lemma stale_fold change covered :
  let '(criteria, surfaces) := fold_left (stale_step change) covered (∅, ∅) in
  (∀ id, id ∈ criteria ↔ ∃ c, c ∈ covered ∧ cc_criterion_id c = id ∧ hit change c) ∧
  (∀ s, s ∈ surfaces ↔ ∃ c, c ∈ covered ∧ s ∈ cc_surfaces c ∧ s ∈ changed_surfaces change).
Proof.
  induction covered as [|c cs IH] using rev_ind; [cbn; set_solver|].
  rewrite fold_left_app. cbn. destruct (fold_left (stale_step change) cs (∅, ∅)) as [criteria surfaces].
  destruct IH as [IHc IHs]. cbn. split.
  - intros id. pose proof (hit_test change c) as Hh. destruct (_ || _).
    + rewrite elem_of_union, elem_of_singleton, IHc. split.
      * intros [->|(c' & ? & ? & ?)]; [exists c|exists c']; set_solver.
      * intros (c' & [Hc|Hc]%elem_of_app & <- & Hc'); [right; eauto|].
        apply list_elem_of_singleton in Hc as ->. by left.
    + rewrite IHc. split; intros (c' & Hc & Hid & Hc'); exists c'; [set_solver|].
      apply elem_of_app in Hc as [Hc|Hc]; [done|]. apply list_elem_of_singleton in Hc as ->.
      apply Hh in Hc'. done.
  - intros s. rewrite elem_of_union, elem_of_list_to_set, elem_of_intersection_list, IHs.
    setoid_rewrite elem_of_app. setoid_rewrite list_elem_of_singleton. naive_solver.
Qed.

Lemma stale_coverage_spec record change :
  (∀ id, id ∈ ac_criteria (stale_coverage record change) ↔
     ∃ c, c ∈ vr_covered record ∧ cc_criterion_id c = id ∧ hit change c) ∧
  (∀ s, s ∈ ac_surfaces (stale_coverage record change) ↔
     ∃ c, c ∈ vr_covered record ∧ s ∈ cc_surfaces c ∧ s ∈ changed_surfaces change).
Proof.
  unfold stale_coverage. pose proof (stale_fold change (vr_covered record)) as H.
  destruct (fold_left _ _ _) as [criteria surfaces]. cbn. by setoid_rewrite elem_of_btree_set.
Qed.

Lemma affected_empty_spec record change :
  affected_is_empty (stale_coverage record change) = true ↔ ∀ c, c ∈ vr_covered record → ¬ hit change c.
Proof.
  destruct (stale_coverage_spec record change) as [Hc Hs].
  unfold affected_is_empty. rewrite andb_true_iff, !bool_decide_eq_true. split.
  - intros [Hn _] c Hin Hhit. rewrite Hn in Hc. apply (not_elem_of_nil (cc_criterion_id c)), Hc. eauto.
  - intros H. split; apply elem_of_nil_inv.
    + intros id (c & Hin & _ & Hh)%Hc. by apply (H c).
    + intros s (c & Hin & H1 & H2)%Hs. apply (H c Hin). right. eauto.
Qed.

Lemma affected_nonempty record change :
  affected_is_empty (stale_coverage record change) = false → ∃ c, c ∈ vr_covered record ∧ hit change c.
Proof.
  destruct (stale_coverage_spec record change) as [Hc Hs]. unfold affected_is_empty.
  destruct (ac_criteria _) as [|id ?]; cbn.
  - destruct (ac_surfaces _) as [|x ?]; [done|]. intros _.
    destruct (Hs x) as [(c & Hin & H1 & H2) _]; [by left|]. exists c. split; [done|right; eauto].
  - intros _. destruct (Hc id) as [(c & Hin & _ & H1) _]; [by left|]. eauto.
Qed.

(** Evidence goes stale exactly when the merge touches what it covered.
    The report keeps every record once: its evidence is current if and only if
    no covered path or surface was changed; otherwise it is listed as stale
    with exactly the criteria that were hit and the covered surfaces that were
    changed, each once and in order.  Every affected forward edge is closed if
    it was closed by the merge and refreshed otherwise. *)
Theorem staleness_exact (records : list ValidationRecord) (change : MergeChange) :
  let report := compute_staleness records change in
  (length (current_evidence report) + length (stale report) = length records)%nat ∧
  (∀ r, r ∈ records →
     ((∀ c, c ∈ vr_covered r → ¬ hit change c) ∧ vr_evidence_id r ∈ current_evidence report) ∨
     ((∃ c, c ∈ vr_covered r ∧ hit change c) ∧
      ∃ s, s ∈ stale report ∧ se_evidence_id s = vr_evidence_id r ∧
        (∀ id, id ∈ se_criteria s ↔ ∃ c, c ∈ vr_covered r ∧ cc_criterion_id c = id ∧ hit change c) ∧
        (∀ x, x ∈ se_surfaces s ↔
           ∃ c, c ∈ vr_covered r ∧ x ∈ cc_surfaces c ∧ x ∈ changed_surfaces change) ∧
        NoDup (se_criteria s) ∧ NoDup (se_surfaces s))) ∧
  successor_edges report =
    map (λ e, if decide (e ∈ closed_forward_edges change) then Close e else Refresh e)
      (affected_forward_edges change).
Proof.
  unfold compute_staleness.
  assert (map (edge_action change) (affected_forward_edges change) =
    map (λ e, if decide (e ∈ closed_forward_edges change) then Close e else Refresh e)
      (affected_forward_edges change)) as Hedges.
  { apply map_ext. intros e. unfold edge_action.
    assert (any (λ closed, closed =s e) (closed_forward_edges change) =
            bool_decide (e ∈ closed_forward_edges change)) as ->.
    { apply eq_true_iff_eq. rewrite any_spec, bool_decide_eq_true. setoid_rewrite bool_decide_eq_true.
      naive_solver. }
    case_bool_decide; case_decide; done. }
  enough (let '(current, stale) := split_records change records in
    (length current + length stale = length records)%nat ∧
    ∀ r, r ∈ records →
      ((∀ c, c ∈ vr_covered r → ¬ hit change c) ∧ vr_evidence_id r ∈ current) ∨
      ((∃ c, c ∈ vr_covered r ∧ hit change c) ∧
       ∃ s, s ∈ stale ∧ s = {| se_evidence_id := vr_evidence_id r;
              se_criteria := ac_criteria (stale_coverage r change);
              se_surfaces := ac_surfaces (stale_coverage r change) |})) as Hsplit.
  { destruct (split_records change records) as [current st]. destruct Hsplit as [Hlen Hall].
    split_and!; [done| |done]. intros r Hr. destruct (Hall r Hr) as [?|[Hh (s & Hs & ->)]]; [by left|right].
    split; [done|]. eexists. split_and!; [exact Hs|done|apply stale_coverage_spec|apply stale_coverage_spec|..];
      cbn; unfold stale_coverage; destruct (fold_left _ _ _); apply NoDup_btree_set. }
  clear Hedges. induction records as [|r records IH]; cbn; [split; [done|set_solver]|].
  destruct (split_records change records) as [current st]. destruct IH as [Hlen Hall].
  pose proof (affected_empty_spec r change) as He. destruct (affected_is_empty _) eqn:Hempty.
  - split; [cbn; lia|]. intros x [->|Hx]%elem_of_cons; [left; split; [by apply He|set_solver]|].
    destruct (Hall x Hx) as [[? ?]|?]; [left|by right]. split; [done|set_solver].
  - split; [cbn; lia|]. intros x [->|Hx]%elem_of_cons.
    + right. split; [by apply affected_nonempty|]. eexists. split; [by left|done].
    + destruct (Hall x Hx) as [?|[? (s & ? & ?)]]; [by left|right].
      split; [done|]. exists s. split; [by right|done].
Qed.

End Staleness.

(** ** Conflict resolution *)
Module Conflict.

Definition ConflictId := string.

Inductive ConflictClass := Textual | DeleteModify | ProtectedSurface | SemanticHighRisk.

#[global] Instance ConflictClass_eq_dec : EqDecision ConflictClass.
Proof. solve_decision. Defined.

Record ConflictHunk := { ch_id : ConflictId; ch_path : string; ch_class : ConflictClass }.

Record SideFacts := {
  sf_commit : string;
  sf_tree : string;
  sf_diff : string;
  sf_criteria : list string;
  sf_open_findings : list string;
  sf_changed_paths : list string;
  sf_focused_tests : list string;
  sf_downstream_contracts : list string;
}.

Record ConflictBundle := {
  cb_common_base : string;
  cb_current : SideFacts;
  cb_incoming : SideFacts;
  cb_hunks : list ConflictHunk;
  cb_operator_atoms : list string;
  cb_constraints_for_both : list string;
}.

Definition symmetric (b : ConflictBundle) : bool :=
  negb (sf_diff (cb_current b) =s "") && negb (sf_diff (cb_incoming b) =s "")
  && negb (sf_criteria (cb_current b) =s []) && negb (sf_criteria (cb_incoming b) =s [])
  && negb (cb_constraints_for_both b =s []).

Definition overlap_tests (b : ConflictBundle) : list string :=
  btree_set (list_to_set (sf_focused_tests (cb_current b) ++ sf_focused_tests (cb_incoming b))).

Definition high_risk (b : ConflictBundle) : bool :=
  any (λ hunk, bool_decide (ch_class hunk = SemanticHighRisk)) (cb_hunks b).

Record FileContent := { fc_path : string; fc_bytes : string }.

Inductive Side := Current | Incoming.

Record DroppedSide' := { ds_conflict_id : ConflictId; ds_side : Side }.

Record CandidateState := {
  cs_files : list FileContent;
  cs_unmerged_index_entries : list string;
  cs_dropped_sides : list DroppedSide';
}.

Record PreservedBehavior := {
  pb_conflict_id : ConflictId;
  pb_preserves_current : bool;
  pb_preserves_incoming : bool;
  pb_rationale : string;
}.

Record ConflictResolution := { cr_commit : string; cr_behavior_map : list PreservedBehavior }.

(** In the derived order. *)
Inductive CheckKind := AffectedBuild | FocusedTest | ConflictReview | FullSuite.

Record ConflictCheckPlan := { cp_commands : list string; cp_checks : list CheckKind }.

Inductive ConflictError :=
  | AsymmetricBundle
  | ConflictMarkers (path : string)
  | UnmergedIndex (entries : list string)
  | DroppedSide (id : ConflictId)
  | MissingBehaviorMap (id : ConflictId)
  | BlindSideChoice (id : ConflictId).

(** The set of checks is written in its order. *)
Definition check_plan (b : ConflictBundle) : ConflictCheckPlan :=
  {| cp_commands := overlap_tests b;
     cp_checks := [AffectedBuild; FocusedTest] ++ (if high_risk b then [ConflictReview] else []) |}.

Definition has_conflict_marker (text : string) : bool :=
  contains "<<<<<<<" text || contains "=======" text || contains ">>>>>>>" text.

Definition blind_choice (text : string) : bool :=
  let lowered := to_ascii_lowercase text in
  any (λ word, contains word lowered) ["ours"; "theirs"; "deleted the markers"].

Definition check_hunk (behavior_map : list PreservedBehavior) (hunk : ConflictHunk)
  : result ConflictError unit :=
  match List.find (λ entry, pb_conflict_id entry =s ch_id hunk) behavior_map with
  | None => Err (MissingBehaviorMap (ch_id hunk))
  | Some mapping =>
      if negb (pb_preserves_current mapping && pb_preserves_incoming mapping)
         || blind_choice (pb_rationale mapping)
      then Err (BlindSideChoice (ch_id hunk)) else Ok tt
  end.

Definition validate_resolution (b : ConflictBundle) (candidate : CandidateState)
    (resolution : ConflictResolution) : result ConflictError ConflictCheckPlan :=
  if negb (symmetric b) then Err AsymmetricBundle
  else if negb (cs_unmerged_index_entries candidate =s [])
  then Err (UnmergedIndex (cs_unmerged_index_entries candidate))
  else
    _ ← for_each (λ file, if has_conflict_marker (fc_bytes file) then Err (ConflictMarkers (fc_path file))
                          else Ok tt) (cs_files candidate);
    match cs_dropped_sides candidate with
    | dropped :: _ => Err (DroppedSide (ds_conflict_id dropped))
    | [] =>
        _ ← for_each (check_hunk (cr_behavior_map resolution)) (cb_hunks b);
        Ok (check_plan b)
    end.

(** ** What an accepted resolution is *)

(** The first entry a resolution has for a conflict. *)
Definition first_entry (m : list PreservedBehavior) (id : ConflictId) (e : PreservedBehavior) : Prop :=
  ∃ before after, m = before ++ e :: after ∧ pb_conflict_id e = id ∧
    Forall (λ x, pb_conflict_id x ≠ id) before.

Record preserved (e : PreservedBehavior) : Prop := {
  pr_current : pb_preserves_current e = true;
  pr_incoming : pb_preserves_incoming e = true;
  pr_reason : ∀ word l r, word ∈ ["ours"; "theirs"; "deleted the markers"] →
    to_ascii_lowercase (pb_rationale e) ≠ l +:+ word +:+ r;
}.

(** No line of the candidate keeps a marker of the merge. *)
Definition marker_free (text : string) : Prop :=
  ∀ marker l r, marker ∈ ["<<<<<<<"; "======="; ">>>>>>>"] → text ≠ l +:+ marker +:+ r.

Record acceptable (b : ConflictBundle) (c : CandidateState) (res : ConflictResolution) : Prop := {
  ac_two_sided : sf_diff (cb_current b) ≠ "" ∧ sf_diff (cb_incoming b) ≠ "" ∧
    sf_criteria (cb_current b) ≠ [] ∧ sf_criteria (cb_incoming b) ≠ [] ∧ cb_constraints_for_both b ≠ [];
  ac_merged : cs_unmerged_index_entries c = [];
  ac_clean : Forall (λ f, marker_free (fc_bytes f)) (cs_files c);
  ac_kept : cs_dropped_sides c = [];
  ac_mapped : Forall (λ h, ∃ e, first_entry (cr_behavior_map res) (ch_id h) e ∧ preserved e) (cb_hunks b);
}.

Lemma symmetric_spec b : symmetric b = true ↔
  sf_diff (cb_current b) ≠ "" ∧ sf_diff (cb_incoming b) ≠ "" ∧
  sf_criteria (cb_current b) ≠ [] ∧ sf_criteria (cb_incoming b) ≠ [] ∧ cb_constraints_for_both b ≠ [].
Proof. unfold symmetric. rewrite !andb_true_iff, !negb_true_iff, !bool_decide_eq_false. tauto. Qed.

Lemma marker_free_spec text : has_conflict_marker text = false ↔ marker_free text.
Proof.
  unfold has_conflict_marker, marker_free. rewrite !orb_false_iff.
  rewrite <- !not_true_iff_false, !contains_spec. split.
  - intros [[H1 H2] H3] marker l r Hm ->. apply elem_of_cons in Hm as [->|Hm]; [apply H1; eauto|].
    apply elem_of_cons in Hm as [->|Hm]; [apply H2; eauto|].
    apply list_elem_of_singleton in Hm as ->. apply H3; eauto.
  - intros H. split_and!; intros (l & r & ->); eapply H; try done; set_solver.
Qed.

Lemma find_first_entry m id e :
  List.find (λ entry, pb_conflict_id entry =s id) m = Some e ↔ first_entry m id e.
Proof.
  induction m as [|x m IH]; cbn.
  - split; [done|]. intros ([|] & after & H & _); discriminate.
  - case_bool_decide as Hx.
    + split.
      * intros [= <-]. exists [], m. by repeat constructor.
      * intros ([|y before] & after & H & He & Hb); [by simplify_eq/=|].
        simplify_eq/=. by inversion_clear Hb.
    + rewrite IH. split.
      * intros (before & after & -> & He & Hb). exists (x :: before), after. by repeat constructor.
      * intros ([|y before] & after & H & He & Hb); simplify_eq/=.
        inversion_clear Hb. by exists before, after.
Qed.

Lemma blind_choice_spec text : blind_choice text = false ↔
  ∀ word l r, word ∈ ["ours"; "theirs"; "deleted the markers"] → to_ascii_lowercase text ≠ l +:+ word +:+ r.
Proof.
  unfold blind_choice. rewrite <- not_true_iff_false, any_spec. setoid_rewrite contains_spec. naive_solver.
Qed.

Lemma check_hunk_spec m h :
  check_hunk m h = Ok tt ↔ ∃ e, first_entry m (ch_id h) e ∧ preserved e.
Proof.
  unfold check_hunk. setoid_rewrite <- find_first_entry.
  destruct (List.find _ m) as [e|]; [|naive_solver].
  pose proof (blind_choice_spec (pb_rationale e)) as Hb.
  destruct (pb_preserves_current e) eqn:H1, (pb_preserves_incoming e) eqn:H2, (blind_choice _); cbn;
    split; try done; try (intros (e' & [= <-] & [H3 H4 H5]); first [congruence | by apply Hb in H5]).
  intros _. exists e. split; [done|]. constructor; [done..|by apply Hb].
Qed.

Lemma acceptable_spec b c res :
  (∃ plan, validate_resolution b c res = Ok plan) ↔ acceptable b c res.
Proof.
  unfold validate_resolution. pose proof (symmetric_spec b) as Hs.
  destruct (symmetric b); cbn; [|split; [naive_solver|by intros [?%Hs]]].
  case_bool_decide as Hu; cbn; [|split; [naive_solver|by intros []]].
  pose proof (for_each_ok (λ file, if has_conflict_marker (fc_bytes file)
    then Err (ConflictMarkers (fc_path file)) else Ok tt) (cs_files c) tt) as Hf.
  assert (∀ f, (if has_conflict_marker (fc_bytes f) then Err (ConflictMarkers (fc_path f)) else Ok tt) =
    Ok tt ↔ marker_free (fc_bytes f)) as Hm.
  { intros f. rewrite <- marker_free_spec. by destruct (has_conflict_marker _). }
  setoid_rewrite Hm in Hf. clear Hm. destruct (for_each _ (cs_files c)) as [[]|e]; cbn;
    [|split; [naive_solver|intros [? ? H%Hf ? ?]; done]].
  destruct (cs_dropped_sides c) eqn:Hd; [|split; [naive_solver|intros []; congruence]].
  pose proof (for_each_ok (check_hunk (cr_behavior_map res)) (cb_hunks b) tt) as Hh.
  setoid_rewrite check_hunk_spec in Hh. destruct (for_each _ (cb_hunks b)) as [[]|e]; cbn;
    [|split; [naive_solver|intros [? ? ? ? H%Hh]; done]].
  split; [|eauto]. intros _. constructor; [by apply Hs|done|by apply Hf|done|by apply Hh].
Qed.

Lemma validated_plan b c res plan : validate_resolution b c res = Ok plan → plan = check_plan b.
Proof.
  unfold validate_resolution. destruct (symmetric b); cbn; [|done]. case_bool_decide; cbn; [|done].
  destruct (for_each _ (cs_files c)); cbn; [|done]. destruct (cs_dropped_sides c); [|done].
  destruct (for_each _ (cb_hunks b)); cbn; [|done]. congruence.
Qed.

(** A conflict resolution is accepted exactly when nothing of either side
    is lost.  The bundle states both sides, the candidate has no unmerged
    entry, no marker and no dropped side, and for every conflict the first
    entry of the behaviour map preserves both sides for a reason that is not a
    choice of one side.  The plan it is then checked with runs the focused
    tests of both sides, each once and in order, builds and tests always, and
    is reviewed exactly when a conflict is of high semantic risk. *)
Theorem resolution_exact (b : ConflictBundle) (c : CandidateState) (res : ConflictResolution) :
  ((∃ plan, validate_resolution b c res = Ok plan) ↔ acceptable b c res) ∧
  ∀ plan, validate_resolution b c res = Ok plan →
    (∀ t, t ∈ cp_commands plan ↔
       t ∈ sf_focused_tests (cb_current b) ∨ t ∈ sf_focused_tests (cb_incoming b)) ∧
    NoDup (cp_commands plan) ∧
    (∀ k, k ∈ cp_checks plan ↔
       k = AffectedBuild ∨ k = FocusedTest ∨
       k = ConflictReview ∧ ∃ h, h ∈ cb_hunks b ∧ ch_class h = SemanticHighRisk).
Proof.
  split; [apply acceptable_spec|]. intros plan ->%validated_plan. split_and!; cbn.
  - intros t. unfold overlap_tests. rewrite elem_of_btree_set, elem_of_list_to_set, elem_of_app. done.
  - apply NoDup_btree_set.
  - intros k. assert (high_risk b = true ↔ ∃ h, h ∈ cb_hunks b ∧ ch_class h = SemanticHighRisk) as Hr.
    { unfold high_risk. rewrite any_spec. by setoid_rewrite bool_decide_eq_true. }
    destruct (high_risk b); rewrite !elem_of_cons, elem_of_nil; naive_solver.
Qed.

Definition side_1 (d t : string) : SideFacts :=
  {| sf_commit := "c"; sf_tree := "t"; sf_diff := d; sf_criteria := ["AC-1"]; sf_open_findings := [];
     sf_changed_paths := ["a.rs"]; sf_focused_tests := [t]; sf_downstream_contracts := [] |}.
Definition bundle_1 : ConflictBundle :=
  {| cb_common_base := "base"; cb_current := side_1 "+x" "t2"; cb_incoming := side_1 "-y" "t1";
     cb_hunks := [{| ch_id := "k1"; ch_path := "a.rs"; ch_class := SemanticHighRisk |}];
     cb_operator_atoms := []; cb_constraints_for_both := ["keep the order"] |}.
Definition candidate_1 : CandidateState :=
  {| cs_files := [{| fc_path := "a.rs"; fc_bytes := "x and y" |}]; cs_unmerged_index_entries := [];
     cs_dropped_sides := [] |}.
Definition resolution_1 : ConflictResolution :=
  {| cr_commit := "m"; cr_behavior_map := [{| pb_conflict_id := "k1"; pb_preserves_current := true;
       pb_preserves_incoming := true; pb_rationale := "both guards are kept" |}] |}.

Example resolution_accepted :
  validate_resolution bundle_1 candidate_1 resolution_1 =
  Ok {| cp_commands := ["t1"; "t2"]; cp_checks := [AffectedBuild; FocusedTest; ConflictReview] |}.
Proof. vm_compute. reflexivity. Qed.

Lemma resolution_exact_witness :
  "t1" ∈ cp_commands (check_plan bundle_1) ∧ acceptable bundle_1 candidate_1 resolution_1.
Proof.
  destruct (resolution_exact bundle_1 candidate_1 resolution_1) as [Hacc Hplan]. split.
  - refine (proj2 (proj1 (Hplan _ resolution_accepted) "t1") _). right. by left.
  - apply Hacc. eexists. exact resolution_accepted.
Defined.

End Conflict.
