(* ===== verification/Repair.v ===== *)
(** * Repairs after a release and the hand-off of active work

    [drivers/src/repair/mod.rs]: the policy of semantic recovery, the merge of
    a repair, the repair worktree and the routing of a changed released
    contract.  [drivers/src/handoff/mod.rs]: the intentional hand-off. *)

From S2P Require Import Prelude RustColl RustStr Paths Os Failure Generated Vcs Control.

(** [data/recovery.kdl]; the double quote is written as a back quote. *)
Definition RECOVERY_POLICY : string := kdl
"recovery version=`v1` {
  timeout name=`cooperative-handoff` seconds=120
  timeout name=`integration-operation` seconds=1800

  lock scope=`assignment` backend=`os-create-new-file` duplicate=`visible-wait` live-holder=`no-age-kill`

  value_repair scope=`agent-run` max_attempts=3 retry_prompt=`typed-diff` exhaustion=`paused-operator-decision` session=`same-session-id`

  // Semantic recovery is one capable, fresh corrective investigation followed
  // by the unchanged independent gate. A second rejection is preserved and
  // escalated rather than fed into an unbounded self-repair loop.
  semantic_recovery scope=`typed-model-rejection` max_attempts=1 revalidation=`same-gate` exhaustion=`paused-operator-decision` session=`fresh-recovery-assignment`

  // Pi subscription OAuth is loaded independently by each child process. A
  // deterministic per-assignment startup spread prevents a planning wave from
  // turning a transient credential-file lock into a false missing-key result.
  subscription_startup_stagger scope=`agent-run` buckets=7 step_ms=750 max_delay_ms=4500

  // Launch-side upstream refusals (provider capacity exhausted) produce no
  // content and bill no tokens, so value repair cannot apply: the identical
  // prompt must simply be re-sent later on the same session. Jitter is
  // required because a wave launches its children within milliseconds, and an
  // unjittered backoff would re-synchronise them into a second burst.
  upstream_capacity_retry scope=`agent-run` max_retries=4 base_delay_ms=2000 max_delay_ms=30000 jitter=`deterministic-per-assignment` session=`same-session-id`

  // max_attempts is the total prompt attempts budget, including the initial prompt.
  terminal_continuation scope=`agent-run` max_attempts=2 trigger=`terminal-miss` retryable_classes=`prose-instead-of-terminal empty-stop-no-terminal` terminal_classes=`no-terminal-frame terminal-tool-not-offered multiple-terminals` retry_prompt=`terminal-directive` session=`same-session-id` exhaustion=`fail-loud`

  r13 number=1 name=`planning` status=`live`
  r13 number=2 name=`normal execution` status=`live`
  r13 number=3 name=`forward release` status=`live`
  r13 number=4 name=`two-round blocker` status=`live`
  r13 number=5 name=`outside-cap quality` status=`live`
  r13 number=6 name=`context continuation` status=`live`
  r13 number=7 name=`post-release repair` status=`live`
  r13 number=8 name=`conflict` status=`live`
  r13 number=9 name=`background shutdown` status=`live`
  r13 number=10 name=`integration crash` status=`live`
  r13 number=11 name=`target movement` status=`live`
  r13 number=12 name=`unsafe operation` status=`live`
  r13 number=13 name=`abort` status=`live`
  r13 number=14 name=`close` status=`live`
}
".

Record SemanticRecoveryPolicy := { sr_max_attempts : Z }.

Definition parse_postures : list string := map kdl
  ["scope=`typed-model-rejection`"; "revalidation=`same-gate`";
   "exhaustion=`paused-operator-decision`"; "session=`fresh-recovery-assignment`"].

(** [rest[..end]] with [end] the first character that is not a digit. *)
Fixpoint digit_prefix (s : string) : string :=
  match s with
  | String a s' => if is_ascii_digit a then String a (digit_prefix s') else ""
  | "" => ""
  end.

Fixpoint find_map_line (lines : list string) : option string :=
  match lines with
  | [] => None
  | line :: lines' =>
      match strip_prefix "semantic_recovery " (trim line) with
      | Some rest => Some rest
      | None => find_map_line lines'
      end
  end.

Definition parse (source : string) : result string SemanticRecoveryPolicy :=
  line ← ok_or (find_map_line (lines source)) "recovery policy missing semantic_recovery";
  if any (λ posture, negb (contains posture line)) parse_postures
  then Err "semantic_recovery posture is not fail-closed"
  else
    parts ← ok_or (split_once "max_attempts=" line) "semantic_recovery missing max_attempts";
    max_attempts ← ok_or (parse_uint 4294967295 (digit_prefix parts.2))
      "semantic_recovery max_attempts is not a number";
    if negb (max_attempts =? 1) then Err "semantic_recovery must remain exactly one attempt"
    else Ok {| sr_max_attempts := max_attempts |}.

Definition policy_package : result string SemanticRecoveryPolicy := parse RECOVERY_POLICY.

Example policy_package_parses : policy_package = Ok {| sr_max_attempts := 1 |}.
Proof. vm_compute. reflexivity. Qed.

Definition CommitId := string.

Record RepairMergeRequest := {
  rq_run_main : CommitId;
  rq_repair_base : CommitId;
  rq_repair_commits : list CommitId;
  rq_original_lane_commits : list CommitId;
}.

Record RepairMergePlan := { rp_base : CommitId; rp_commits_to_integrate : list CommitId }.

Inductive RepairMergeError :=
  | RepairBaseNotRunMain
  | NoRepairCommit
  | LaneCommitWouldRepeat (id : CommitId).

Definition plan_repair_merge (request : RepairMergeRequest) : result RepairMergeError RepairMergePlan :=
  if negb (rq_repair_base request =s rq_run_main request) then Err RepairBaseNotRunMain
  else if rq_repair_commits request =s [] then Err NoRepairCommit
  else
    let lane : gset CommitId := list_to_set (rq_original_lane_commits request) in
    _ ← for_each (λ commit, if bool_decide (commit ∈ lane) then Err (LaneCommitWouldRepeat commit)
                            else Ok tt) (rq_repair_commits request);
    Ok {| rp_base := rq_run_main request; rp_commits_to_integrate := rq_repair_commits request |}.

(** The repair worktree is the version-control driver at the repair's root. *)
Definition prepare_from_run_main (vcs : GitVcs) (root source : path) (run_main_ref : string)
    (profile : list string) : prog Failure unit := prepare vcs root source run_main_ref profile.

Definition commit_repair (vcs : GitVcs) (root : path) (message : string) : prog Failure CommitId :=
  _ ← stage_all vcs root;
  snapshot vcs root message.

Definition reject_remote_sync (_ : GitVcs) : result Failure unit :=
  Err (Unsafe RemoteOrDestructiveNetwork).

Record ForwardEdge := {
  ed_id : string;
  ed_contract_surfaces : list string;
  ed_dependent_merged : bool;
  ed_dependent_work_id : string;
  ed_criteria_ids : list string;
  ed_evidence_ids : list string;
}.

Record ReleasedContractChange := { rc_changed_surfaces : list string; rc_replacement_contract_id : string }.

Inductive DependentAction :=
  | PauseAndRefresh (edge_id work_id : string)
  | TargetedAmendment (edge_id work_id : string).

Definition action_edge (a : DependentAction) : string :=
  match a with PauseAndRefresh e _ | TargetedAmendment e _ => e end.

Record ContractChangePlan := {
  invalidated_edges : list string;
  paused_or_refreshed_dependents : list DependentAction;
  stale_evidence : list string;
  local_amendments : list string;
  unchanged_assumptions : list string;
}.

Definition every_affected_edge_has_action (p : ContractChangePlan) : bool :=
  all (λ edge_id, any (λ action, action_edge action =s edge_id) (paused_or_refreshed_dependents p))
    (invalidated_edges p).

Definition overlap (left right : list string) : bool :=
  any (λ item, any (λ other, item =s other) right) left.

Definition route_edge (change : ReleasedContractChange) (p : ContractChangePlan) (edge : ForwardEdge)
  : ContractChangePlan :=
  if overlap (ed_contract_surfaces edge) (rc_changed_surfaces change) then
    if ed_dependent_merged edge then
      {| invalidated_edges := invalidated_edges p ++ [ed_id edge];
         paused_or_refreshed_dependents := paused_or_refreshed_dependents p ++
           [TargetedAmendment (ed_id edge) (ed_dependent_work_id edge)];
         stale_evidence := stale_evidence p ++ ed_evidence_ids edge;
         local_amendments := local_amendments p ++ ed_criteria_ids edge;
         unchanged_assumptions := unchanged_assumptions p |}
    else
      {| invalidated_edges := invalidated_edges p ++ [ed_id edge];
         paused_or_refreshed_dependents := paused_or_refreshed_dependents p ++
           [PauseAndRefresh (ed_id edge) (ed_dependent_work_id edge)];
         stale_evidence := stale_evidence p;
         local_amendments := local_amendments p;
         unchanged_assumptions := unchanged_assumptions p |}
  else
    {| invalidated_edges := invalidated_edges p;
       paused_or_refreshed_dependents := paused_or_refreshed_dependents p;
       stale_evidence := stale_evidence p;
       local_amendments := local_amendments p;
       unchanged_assumptions := unchanged_assumptions p ++ [ed_id edge] |}.

Definition route_released_contract_change (edges : list ForwardEdge) (change : ReleasedContractChange)
  : ContractChangePlan :=
  fold_left (route_edge change) edges
    {| invalidated_edges := []; paused_or_refreshed_dependents := []; stale_evidence := [];
       local_amendments := []; unchanged_assumptions := [] |}.

(** ** Intentional hand-off *)
Module Handoff.

Definition COOPERATIVE_WAIT_SECONDS : Z := 120.

Record AssignmentHandle := {
  ah_assignment_id : Id;
  ah_task_id : Id;
  ah_child_session_ref : Ref;
  ah_worktree_ref : Ref;
}.

Record CooperativeCheckpoint := { ck_assignment_id : Id; ck_checkpoint_ref : Ref }.

Record ResumeLaunch := {
  rl_assignment_id : Id;
  rl_previous_task_id : Id;
  rl_retained_child_session_ref : Ref;
  rl_retained_worktree_ref : Ref;
}.

Inductive HandoffAction :=
  | PauseRequest (assignment_id : Id)
  | WaitForCheckpoint (assignment_id : Id) (max_seconds : Z) (checkpoint_ref : option Ref)
  | BgKill (task_id : Id)
  | BgRun (assignment_id previous_task_id : Id).

Record HandoffOutcome := {
  ho_actions : list HandoffAction;
  ho_resumed : list ResumeLaunch;
  ho_retained_child_sessions : list Ref;
  ho_retained_worktrees : list Ref;
}.

Definition handoff_step (checkpoints : list CooperativeCheckpoint) (o : HandoffOutcome)
    (a : AssignmentHandle) : HandoffOutcome :=
  let checkpoint_ref := option_map ck_checkpoint_ref
    (find_first (λ checkpoint, ck_assignment_id checkpoint =s ah_assignment_id a) checkpoints) in
  {| ho_actions := ho_actions o ++
       [PauseRequest (ah_assignment_id a);
        WaitForCheckpoint (ah_assignment_id a) COOPERATIVE_WAIT_SECONDS checkpoint_ref;
        BgKill (ah_task_id a); BgRun (ah_assignment_id a) (ah_task_id a)];
     ho_retained_child_sessions := ho_retained_child_sessions o ++ [ah_child_session_ref a];
     ho_retained_worktrees := ho_retained_worktrees o ++ [ah_worktree_ref a];
     ho_resumed := ho_resumed o ++
       [{| rl_assignment_id := ah_assignment_id a; rl_previous_task_id := ah_task_id a;
           rl_retained_child_session_ref := ah_child_session_ref a;
           rl_retained_worktree_ref := ah_worktree_ref a |}] |}.

Definition intentional_handoff (active : list AssignmentHandle) (checkpoints : list CooperativeCheckpoint)
  : HandoffOutcome :=
  fold_left (handoff_step checkpoints) active
    {| ho_actions := []; ho_resumed := []; ho_retained_child_sessions := []; ho_retained_worktrees := [] |}.

Definition claims_cross_session_reattachment (actions : list HandoffAction) : bool :=
  any (λ action, match action with
                 | BgRun _ _ | BgKill _ | PauseRequest _ | WaitForCheckpoint _ _ _ => false
                 end) actions.

End Handoff.

(** ** What the repair paths guarantee *)

Definition affected (change : ReleasedContractChange) (e : ForwardEdge) : Prop :=
  ∃ s, s ∈ ed_contract_surfaces e ∧ s ∈ rc_changed_surfaces change.
#[global] Instance affected_dec change e : Decision (affected change e).
Proof.
  refine (cast_if (decide (Exists (λ s, s ∈ rc_changed_surfaces change) (ed_contract_surfaces e))));
    unfold affected; by rewrite <- Exists_exists.
Defined.

Lemma overlap_affected change e :
  overlap (ed_contract_surfaces e) (rc_changed_surfaces change) = bool_decide (affected change e).
Proof.
  apply eq_true_iff_eq. unfold overlap, affected. rewrite any_spec, bool_decide_eq_true.
  setoid_rewrite any_spec. setoid_rewrite bool_decide_eq_true. naive_solver.
Qed.

Definition action_for (e : ForwardEdge) : DependentAction :=
  if ed_dependent_merged e then TargetedAmendment (ed_id e) (ed_dependent_work_id e)
  else PauseAndRefresh (ed_id e) (ed_dependent_work_id e).
Definition merged (e : ForwardEdge) : Prop := ed_dependent_merged e = true.

(** The loop in closed form: the affected edges in order, one action each. *)
Lemma route_closed_form edges change :
  let hit := filter (affected change) edges in
  route_released_contract_change edges change =
  {| invalidated_edges := map ed_id hit;
     paused_or_refreshed_dependents := map action_for hit;
     stale_evidence := concat (map ed_evidence_ids (filter merged hit));
     local_amendments := concat (map ed_criteria_ids (filter merged hit));
     unchanged_assumptions := map ed_id (filter (λ e, ¬ affected change e) edges) |}.
Proof.
  unfold route_released_contract_change. induction edges as [|e es IH] using rev_ind; cbn; [done|].
  rewrite fold_left_app. cbn in *. rewrite IH, !filter_app, !map_app, !concat_app. unfold route_edge.
  rewrite overlap_affected. case_bool_decide as Ha.
  - assert (filter (affected change) [e] = [e]) as -> by by rewrite filter_cons_True.
    assert (filter (λ e, ¬ affected change e) [e] = []) as -> by (rewrite filter_cons_False; [done|tauto]).
    assert (filter merged [e] = if ed_dependent_merged e then [e] else []) as ->.
    { destruct (ed_dependent_merged e) eqn:Hm; [by rewrite filter_cons_True|].
      rewrite filter_cons_False; [done|unfold merged; congruence]. }
    unfold action_for. cbn. destruct (ed_dependent_merged e); cbn; by rewrite !app_nil_r.
  - assert (filter (affected change) [e] = []) as -> by by rewrite filter_cons_False.
    assert (filter (λ e, ¬ affected change e) [e] = [e]) as -> by by rewrite filter_cons_True.
    cbn. by rewrite !app_nil_r.
Qed.

(** A changed released contract reaches every edge that uses it.  The
    edges are split in order by whether they use a changed surface; each
    affected one gets exactly one action, an amendment when its dependent has
    merged and a pause otherwise, in the same order, so the plan's own check
    passes; evidence goes stale and criteria are amended exactly for affected
    edges whose dependent has merged. *)
Theorem contract_change_routed (edges : list ForwardEdge) (change : ReleasedContractChange) :
  let plan := route_released_contract_change edges change in
  every_affected_edge_has_action plan = true ∧
  map action_edge (paused_or_refreshed_dependents plan) = invalidated_edges plan ∧
  invalidated_edges plan ++ unchanged_assumptions plan ≡ₚ map ed_id edges ∧
  (∀ e, e ∈ edges → affected change e → action_for e ∈ paused_or_refreshed_dependents plan) ∧
  (∀ a, a ∈ paused_or_refreshed_dependents plan → ∃ e, e ∈ edges ∧ affected change e ∧ a = action_for e) ∧
  (∀ x, x ∈ stale_evidence plan ↔ ∃ e, e ∈ edges ∧ affected change e ∧ merged e ∧ x ∈ ed_evidence_ids e) ∧
  (∀ x, x ∈ local_amendments plan ↔ ∃ e, e ∈ edges ∧ affected change e ∧ merged e ∧ x ∈ ed_criteria_ids e).
Proof.
  cbn zeta. rewrite route_closed_form. cbn [invalidated_edges paused_or_refreshed_dependents stale_evidence
    local_amendments unchanged_assumptions].
  assert (map action_edge (map action_for (filter (affected change) edges)) =
          map ed_id (filter (affected change) edges)) as Hact.
  { rewrite map_map. apply map_ext. intros e. unfold action_for. by destruct (ed_dependent_merged e). }
  assert (∀ f : ForwardEdge → list string, ∀ x,
    x ∈ concat (map f (filter merged (filter (affected change) edges))) ↔
    ∃ e, e ∈ edges ∧ affected change e ∧ merged e ∧ x ∈ f e) as Hconcat.
  { intros f x. rewrite <- flat_map_concat_map, list_elem_of_In, in_flat_map.
    setoid_rewrite <- list_elem_of_In. setoid_rewrite list_elem_of_filter. setoid_rewrite list_elem_of_filter.
    naive_solver. }
  split_and!; [|done| | | |apply Hconcat|apply Hconcat].
  - unfold every_affected_edge_has_action. cbn [invalidated_edges paused_or_refreshed_dependents].
    rewrite <- Hact. apply forallb_forall. intros x (a & <- & Ha)%in_map_iff.
    apply existsb_exists. exists a. split; [done|]. by apply bool_decide_eq_true.
  - rewrite <- map_app. apply Permutation_map. apply filter_app_complement.
  - intros e He Ha. apply list_elem_of_fmap. exists e. by rewrite list_elem_of_filter.
  - intros a (e & -> & [? ?]%list_elem_of_filter)%list_elem_of_fmap. eauto.
Qed.

(** A repair is merged exactly when it starts at the run's main commit, has a
    commit, and repeats none of the lane; it is then integrated as it is. *)
Theorem repair_merge_exact (request : RepairMergeRequest) (plan : RepairMergePlan) :
  plan_repair_merge request = Ok plan ↔
  rq_repair_base request = rq_run_main request ∧ rq_repair_commits request ≠ [] ∧
  (∀ c, c ∈ rq_repair_commits request → c ∉ rq_original_lane_commits request) ∧
  plan = {| rp_base := rq_run_main request; rp_commits_to_integrate := rq_repair_commits request |}.
Proof.
  unfold plan_repair_merge. case_bool_decide as Hb; cbn; [|naive_solver].
  case_bool_decide as Hc; [naive_solver|].
  destruct (for_each _ _) as [[]|e] eqn:Hf; cbn.
  - apply for_each_ok in Hf. rewrite Forall_forall in Hf.
    assert (∀ c, c ∈ rq_repair_commits request → c ∉ rq_original_lane_commits request).
    { intros c Hin. specialize (Hf c Hin). cbn in Hf. case_bool_decide as Hl; [done|].
      by rewrite elem_of_list_to_set in Hl. }
    naive_solver.
  - apply for_each_err in Hf as (before & c & after & Heq & _ & He).
    split; [done|]. intros (_ & _ & Hd & _). exfalso. case_bool_decide as Hl; [|done].
    rewrite elem_of_list_to_set in Hl. apply (Hd c); [|done]. rewrite Heq. set_solver.
Qed.

(** Every active assignment is paused, waited for, stopped and started again,
    in this order, one assignment after the other; its session and worktree are
    retained. *)
Theorem handoff_sequence (active : list Handoff.AssignmentHandle) checkpoints :
  let o := Handoff.intentional_handoff active checkpoints in
  Handoff.ho_actions o = flat_map (λ a,
    [Handoff.PauseRequest (Handoff.ah_assignment_id a);
     Handoff.WaitForCheckpoint (Handoff.ah_assignment_id a) 120
       (option_map Handoff.ck_checkpoint_ref
          (find_first (λ c, Handoff.ck_assignment_id c =s Handoff.ah_assignment_id a) checkpoints));
     Handoff.BgKill (Handoff.ah_task_id a);
     Handoff.BgRun (Handoff.ah_assignment_id a) (Handoff.ah_task_id a)]) active ∧
  map Handoff.rl_assignment_id (Handoff.ho_resumed o) = map Handoff.ah_assignment_id active ∧
  Handoff.ho_retained_child_sessions o = map Handoff.ah_child_session_ref active ∧
  Handoff.ho_retained_worktrees o = map Handoff.ah_worktree_ref active ∧
  Handoff.claims_cross_session_reattachment (Handoff.ho_actions o) = false.
Proof.
  cbn zeta. split_and!.
  1-4: unfold Handoff.intentional_handoff; induction active as [|a active IH] using rev_ind; [done|];
    rewrite fold_left_app; cbn; rewrite ?flat_map_app, ?map_app, IH; cbn; done.
  unfold Handoff.claims_cross_session_reattachment. induction (Handoff.ho_actions _) as [|x l IH]; [done|].
  by destruct x; cbn.
Qed.
