(* ===== verification/RpcOrder.v ===== *)
(** * The agent protocol: event order and correlation

    [drivers/src/runner/rpc/order.rs] and [RpcProtocol] of
    [drivers/src/runner/rpc.rs], over the tables of
    [drivers/src/generated/pi_rpc.rs].  A child agent answers requests by id and
    emits events; the protocol matches every response with its request, admits
    events only in the order the tables allow and bounds what a cycle may
    retain. *)

From S2P Require Import Prelude RustColl RustStr.

(** ** Tables *)

Record OrderStateRow := { os_name : string; os_terminal_ok : bool }.
Definition ORDER_STATES : list OrderStateRow :=
  map (λ '(n, t), {| os_name := n; os_terminal_ok := t |})
    [("idle", true); ("running", false); ("after_end_no_retry", false); ("after_end_retry", false);
     ("after_end_retry_progress", false); ("compacting_idle", false); ("compacting_running", false);
     ("compacting_after_end", false); ("settled", true)].

Record OrderTransitionRow := { tr_from : string; tr_event : string; tr_to : string }.
Definition ORDER_TRANSITIONS : list OrderTransitionRow :=
  map (λ '(f, e, t), {| tr_from := f; tr_event := e; tr_to := t |})
    [("idle", "agent_start", "running");
     ("idle", "manual_compaction_start", "compacting_idle");
     ("idle", "idle_chatter", "idle");
     ("running", "running_progress", "running");
     ("running", "retry_progress", "running");
     ("running", "manual_compaction_start", "compacting_running");
     ("running", "agent_end_retry_false", "after_end_no_retry");
     ("running", "agent_end_retry_true", "after_end_retry");
     ("after_end_no_retry", "agent_settled", "settled");
     ("after_end_no_retry", "post_end_chatter", "after_end_no_retry");
     ("after_end_retry", "post_end_chatter", "after_end_retry");
     ("after_end_retry", "retry_progress", "after_end_retry_progress");
     ("after_end_retry_progress", "retry_progress", "after_end_retry_progress");
     ("after_end_retry_progress", "agent_start", "running");
     ("after_end_no_retry", "manual_compaction_start", "compacting_after_end");
     ("after_end_retry", "manual_compaction_start", "compacting_after_end");
     ("after_end_retry_progress", "manual_compaction_start", "compacting_after_end");
     ("compacting_idle", "compaction_end", "idle");
     ("compacting_running", "compaction_end", "running");
     ("compacting_after_end", "compaction_end_retry_false", "after_end_no_retry");
     ("compacting_after_end", "compaction_end_retry_true", "after_end_retry_progress");
     ("compacting_idle", "retry_progress", "compacting_idle");
     ("compacting_running", "retry_progress", "compacting_running");
     ("compacting_after_end", "retry_progress", "compacting_after_end")].

Record ForbiddenOrderRow := { fo_from : option string; fo_event : string; fo_reason : string }.
Definition FORBIDDEN_ORDERS : list ForbiddenOrderRow :=
  [{| fo_from := None; fo_event := "threshold_or_overflow_compaction_start"; fo_reason := "auto-compaction-disabled" |};
   {| fo_from := Some "settled"; fo_event := "*"; fo_reason := "terminal-state" |}].

Inductive RpcCommandKind := Prompt | Steer | Compact | SetAutoCompaction | GetState | GetSessionStats | GetEntries | Abort_.
#[global] Instance RpcCommandKind_eq_dec : EqDecision RpcCommandKind.
Proof. solve_decision. Defined.

Definition as_str (k : RpcCommandKind) : string :=
  match k with
  | Prompt => "prompt" | Steer => "steer" | Compact => "compact"
  | SetAutoCompaction => "set_auto_compaction" | GetState => "get_state"
  | GetSessionStats => "get_session_stats" | GetEntries => "get_entries" | Abort_ => "abort"
  end.

Definition MAX_ENTRY_APPENDED_BYTES : Z := 16384.
Definition DEFAULT_MAX_TERMINAL_BYTES : Z := 4194304.

Inductive CompactionReason := Manual | Threshold | Overflow.

Inductive RpcError :=
  | RpcIo (what : string)
  | RpcUtf8 (what : string)
  | RpcJsonError (what : string)
  | UnknownFrame (kind : string)
  | MalformedFrame (what : string)
  | DuplicateRequest (id : string)
  | UnmatchedResponse (id : string)
  | MissingResponse (ids : list string)
  | CommandMismatch (id : string) (expected : RpcCommandKind) (actual : string)
  | ResponseError (id : string) (command : RpcCommandKind) (error : string)
  | OutOfOrderEvent (what : string)
  | ProtocolViolation (what : string)
  | TerminalPayloadTooLarge (bytes limit : Z)
  | StderrTooLarge (bytes limit : Z)
  | FrameTooLarge (bytes limit : Z)
  | EntryAppendedTooLarge (bytes limit : Z)
  | RpcShutdownError (what : string).

(** JSON values are opaque here: [Value] stands for [serde_json::Value]. *)
Section Protocol.
Context {Value : Type}.

Record TerminalMessage := {
  tm_role : string;
  tm_tool_call_id : option string;
  tm_tool_name : option string;
  tm_provider : option string;
  tm_model : option string;
  tm_stop_reason : option string;
  tm_text : option string;
  tm_error_message : option string;
  tm_details : option Value;
  tm_is_error : option bool;
}.

Record AppendedEntry := { ae_id : string; ae_custom_type : string; ae_data : Value }.

Inductive RpcEvent :=
  | AgentStart
  | AgentEnd (will_retry : bool)
  | AgentSettled
  | TurnStart
  | TurnEnd
  | MessageStart
  | MessageEnd (message : TerminalMessage)
  | MessageUpdateDiscarded
  | BashExecutionUpdateDiscarded
  | ToolExecutionStart
  | ToolExecutionUpdateDiscarded
  | ToolExecutionEnd (tool_call_id tool_name : string) (details : option Value) (is_error terminate : bool)
  | EntryAppended (entry : AppendedEntry)
  | QueueUpdate (steering follow_up : Z)
  | CompactionStart (reason : CompactionReason)
  | CompactionEnd (reason : CompactionReason) (aborted will_retry : bool)
  | AutoRetryStart
  | AutoRetryEnd (success : bool)
  | SummarizationRetryScheduled
  | SummarizationRetryAttemptStart
  | SummarizationRetryFinished
  | ExtensionError
  | ExtensionUiRequest.

(** [{event:?}] in the texts of errors. *)
Context (event_debug : RpcEvent → string).

(** ** Event order *)

Record EventOrder := { eo_state : string }.
Definition order_new : EventOrder := {| eo_state := "idle" |}.
Definition order_begin_cycle (o : EventOrder) : EventOrder :=
  if eo_state o =s "settled" then {| eo_state := "idle" |} else o.

Definition order_key (state : string) (event : RpcEvent) : string :=
  match event with
  | AgentStart => "agent_start"
  | AgentEnd false => "agent_end_retry_false"
  | AgentEnd true => "agent_end_retry_true"
  | AgentSettled => "agent_settled"
  | CompactionStart Manual => "manual_compaction_start"
  | CompactionStart _ => "threshold_or_overflow_compaction_start"
  | CompactionEnd _ _ will_retry =>
      if state =s "compacting_after_end"
      then if will_retry then "compaction_end_retry_true" else "compaction_end_retry_false"
      else "compaction_end"
  | AutoRetryStart | AutoRetryEnd _ | SummarizationRetryScheduled
  | SummarizationRetryAttemptStart | SummarizationRetryFinished => "retry_progress"
  | QueueUpdate _ _ | ExtensionUiRequest | ExtensionError =>
      if state =s "running" then "running_progress"
      else if (state =s "after_end_no_retry") || (state =s "after_end_retry") then "post_end_chatter"
      else "idle_chatter"
  | EntryAppended _ => "idle_chatter"
  | _ => "running_progress"
  end.

Definition forbidden (state key : string) : bool :=
  any (λ row, match fo_from row with None => true | Some f => f =s state end
              && ((fo_event row =s "*") || (fo_event row =s key))) FORBIDDEN_ORDERS.

Definition accept (o : EventOrder) (event : RpcEvent) : result RpcError EventOrder :=
  let key := order_key (eo_state o) event in
  if forbidden (eo_state o) key then
    Err (if eo_state o =s "settled"
         then OutOfOrderEvent ("event " +:+ event_debug event +:+ " arrived after agent_settled")
         else ProtocolViolation "automatic compaction emitted while auto-compaction is disabled")
  else
    match find_first (λ row, (tr_from row =s eo_state o) && (tr_event row =s key)) ORDER_TRANSITIONS with
    | Some row => Ok {| eo_state := tr_to row |}
    | None => Err (OutOfOrderEvent ("event " +:+ event_debug event +:+ " is invalid in state " +:+ eo_state o))
    end.

Definition order_finish (o : EventOrder) : result RpcError unit :=
  if any (λ row, (os_name row =s eo_state o) && os_terminal_ok row) ORDER_STATES then Ok tt
  else Err (OutOfOrderEvent ("stream ended before agent_settled from state " +:+ eo_state o)).

(** ** The protocol *)

Record RpcCommand := {
  rc_id : string;
  rc_command : RpcCommandKind;
  rc_message : option string;
  rc_custom_instructions : option string;
  rc_enabled : option bool;
}.

Record RpcResponse := {
  rr_id : string;
  rr_command : RpcCommandKind;
  rr_success : bool;
  rr_queued_not_delivered : bool;
  rr_data : option string;
  rr_error : option string;
}.

Inductive RpcFrame := Response (r : RpcResponse) | Event (e : RpcEvent).

(** Records of the JSON reader. *)
Record ResponseRecord := {
  rs_id : option string;
  rs_command : string;
  rs_success : bool;
  rs_data : option Value;
  rs_error : option string;
}.

Inductive MessageContent := Text (text : string) | OtherContent.

Record AgentMessage := {
  am_role : string;
  am_tool_call_id : option string;
  am_tool_name : option string;
  am_provider : option string;
  am_model : option string;
  am_stop_reason : option string;
  am_content : option (list MessageContent);
  am_error_message : option string;
  am_details : option Value;
  am_is_error : option bool;
}.

Definition extract_text (content : list MessageContent) : string :=
  foldr String.append "" (omap (λ item, match item with Text text => Some text | OtherContent => None end) content).

Definition into_terminal (m : AgentMessage) : TerminalMessage :=
  {| tm_role := am_role m; tm_tool_call_id := am_tool_call_id m; tm_tool_name := am_tool_name m;
     tm_provider := am_provider m; tm_model := am_model m; tm_stop_reason := am_stop_reason m;
     tm_text := option_map extract_text (am_content m); tm_error_message := am_error_message m;
     tm_details := am_details m; tm_is_error := am_is_error m |}.

Record ToolExecutionEndRecord := {
  te_tool_call_id : string;
  te_tool_name : string;
  te_details : option Value;
  te_terminate : bool;
  te_is_error : bool;
}.

(** What the JSON and UTF-8 libraries answer for a text: the record or an error. *)
Record Json := {
  js_utf8 : string → result string unit;
  js_kind : string → result string string;
  js_response : string → result string ResponseRecord;
  js_agent_end : string → result string bool;
  js_message_end : string → result string AgentMessage;
  js_tool_end : string → result string ToolExecutionEndRecord;
  js_entry : string → result string AppendedEntry;
  js_queue : string → result string (list string * list string);
  js_compaction_start : string → result string CompactionReason;
  js_compaction_end : string → result string (CompactionReason * bool * bool);
  js_auto_retry_end : string → result string bool;
  js_print : Value → string;
}.
Context (json : Json).

Record RpcProtocol := {
  pr_pending : gmap string RpcCommandKind;
  pr_order : EventOrder;
  pr_max_terminal_bytes : Z;
  pr_frames : Z;
  pr_message_update_frames : Z;
  pr_tool_update_frames : Z;
  pr_bash_update_frames : Z;
  pr_terminal_payload_bytes : Z;
  pr_cycle_terminal_payload_bytes : Z;
  pr_bootstrap_open : bool;
  pr_bootstrap_entry_count : Z;
}.

Definition protocol_new (max_terminal_bytes : Z) : RpcProtocol :=
  {| pr_pending := ∅; pr_order := order_new; pr_max_terminal_bytes := max_terminal_bytes; pr_frames := 0;
     pr_message_update_frames := 0; pr_tool_update_frames := 0; pr_bash_update_frames := 0;
     pr_terminal_payload_bytes := 0; pr_cycle_terminal_payload_bytes := 0; pr_bootstrap_open := true;
     pr_bootstrap_entry_count := 0 |}.

Definition set_pending (p : RpcProtocol) v :=
  {| pr_pending := v; pr_order := pr_order p; pr_max_terminal_bytes := pr_max_terminal_bytes p;
     pr_frames := pr_frames p; pr_message_update_frames := pr_message_update_frames p;
     pr_tool_update_frames := pr_tool_update_frames p; pr_bash_update_frames := pr_bash_update_frames p;
     pr_terminal_payload_bytes := pr_terminal_payload_bytes p;
     pr_cycle_terminal_payload_bytes := pr_cycle_terminal_payload_bytes p;
     pr_bootstrap_open := pr_bootstrap_open p; pr_bootstrap_entry_count := pr_bootstrap_entry_count p |}.
Definition set_order (p : RpcProtocol) v :=
  {| pr_pending := pr_pending p; pr_order := v; pr_max_terminal_bytes := pr_max_terminal_bytes p;
     pr_frames := pr_frames p; pr_message_update_frames := pr_message_update_frames p;
     pr_tool_update_frames := pr_tool_update_frames p; pr_bash_update_frames := pr_bash_update_frames p;
     pr_terminal_payload_bytes := pr_terminal_payload_bytes p;
     pr_cycle_terminal_payload_bytes := pr_cycle_terminal_payload_bytes p;
     pr_bootstrap_open := pr_bootstrap_open p; pr_bootstrap_entry_count := pr_bootstrap_entry_count p |}.
Definition set_frames (p : RpcProtocol) frames updates tools bashes :=
  {| pr_pending := pr_pending p; pr_order := pr_order p; pr_max_terminal_bytes := pr_max_terminal_bytes p;
     pr_frames := frames; pr_message_update_frames := updates;
     pr_tool_update_frames := tools; pr_bash_update_frames := bashes;
     pr_terminal_payload_bytes := pr_terminal_payload_bytes p;
     pr_cycle_terminal_payload_bytes := pr_cycle_terminal_payload_bytes p;
     pr_bootstrap_open := pr_bootstrap_open p; pr_bootstrap_entry_count := pr_bootstrap_entry_count p |}.
Definition set_bytes (p : RpcProtocol) total cycle :=
  {| pr_pending := pr_pending p; pr_order := pr_order p; pr_max_terminal_bytes := pr_max_terminal_bytes p;
     pr_frames := pr_frames p; pr_message_update_frames := pr_message_update_frames p;
     pr_tool_update_frames := pr_tool_update_frames p; pr_bash_update_frames := pr_bash_update_frames p;
     pr_terminal_payload_bytes := total; pr_cycle_terminal_payload_bytes := cycle;
     pr_bootstrap_open := pr_bootstrap_open p; pr_bootstrap_entry_count := pr_bootstrap_entry_count p |}.
Definition set_bootstrap (p : RpcProtocol) open_ count :=
  {| pr_pending := pr_pending p; pr_order := pr_order p; pr_max_terminal_bytes := pr_max_terminal_bytes p;
     pr_frames := pr_frames p; pr_message_update_frames := pr_message_update_frames p;
     pr_tool_update_frames := pr_tool_update_frames p; pr_bash_update_frames := pr_bash_update_frames p;
     pr_terminal_payload_bytes := pr_terminal_payload_bytes p;
     pr_cycle_terminal_payload_bytes := pr_cycle_terminal_payload_bytes p;
     pr_bootstrap_open := open_; pr_bootstrap_entry_count := count |}.

(** [usize::saturating_add] *)
Definition sat_add (a b : Z) : Z := Z.min usize_max (a + b).

Definition complete_bootstrap (p : RpcProtocol) : RpcProtocol :=
  set_bootstrap p false (pr_bootstrap_entry_count p).

(** Every operation returns the new state and its result: an error keeps what
    was written before it. *)
Abbreviation outcome A := (RpcProtocol * result RpcError A)%type.

Definition register_request (p : RpcProtocol) (command : RpcCommand) : outcome unit :=
  if bool_decide (is_Some (pr_pending p !! rc_id command)) then (p, Err (DuplicateRequest (rc_id command)))
  else (set_pending p (<[rc_id command := rc_command command]> (pr_pending p)), Ok tt).

Definition begin_cycle (p : RpcProtocol) : RpcProtocol :=
  set_bytes (set_order p (order_begin_cycle (pr_order p))) (pr_terminal_payload_bytes p) 0.

(** The protocol part of [RpcClient::send_command], before the pipe is written. *)
Definition send_command (p : RpcProtocol) (command : RpcCommand) : outcome unit :=
  match register_request p command with
  | (p, Err e) => (p, Err e)
  | (p, Ok _) =>
      (match rc_command command with Prompt | Compact => begin_cycle p | _ => p end, Ok tt)
  end.

Definition accept_event (p : RpcProtocol) (event : RpcEvent) : outcome RpcFrame :=
  match accept (pr_order p) event with
  | Err e => (p, Err e)
  | Ok order => (set_order p order, Ok (Event event))
  end.

Definition discard (p : RpcProtocol) (event : RpcEvent) : outcome RpcFrame :=
  let p := match event with
    | MessageUpdateDiscarded =>
        set_frames p (pr_frames p) (pr_message_update_frames p + 1) (pr_tool_update_frames p) (pr_bash_update_frames p)
    | ToolExecutionUpdateDiscarded =>
        set_frames p (pr_frames p) (pr_message_update_frames p) (pr_tool_update_frames p + 1) (pr_bash_update_frames p)
    | BashExecutionUpdateDiscarded =>
        set_frames p (pr_frames p) (pr_message_update_frames p) (pr_tool_update_frames p) (pr_bash_update_frames p + 1)
    | _ => p
    end in
  accept_event p event.

Definition ingest_response (p : RpcProtocol) (text : string) : outcome RpcFrame :=
  match js_response json text with
  | Err error => (p, Err (MalformedFrame ("response: " +:+ error)))
  | Ok parsed =>
      match rs_id parsed with
      | None => (p, Err (UnmatchedResponse "<missing id>"))
      | Some id =>
          match pr_pending p !! id with
          | None => (p, Err (UnmatchedResponse id))
          | Some expected =>
              let p := set_pending p (delete id (pr_pending p)) in
              if negb (rs_command parsed =s as_str expected)
              then (p, Err (CommandMismatch id expected (rs_command parsed)))
              else if negb (rs_success parsed)
              then (p, Err (ResponseError id expected (default "command returned success:false" (rs_error parsed))))
              else (p, Ok (Response
                {| rr_id := id; rr_command := expected; rr_success := true;
                   rr_queued_not_delivered := bool_decide (expected = Steer);
                   rr_data := option_map (js_print json) (rs_data parsed); rr_error := None |}))
          end
      end
  end.

Definition terminal_bytes (p : RpcProtocol) (len : Z) : outcome unit :=
  if pr_max_terminal_bytes p <? len then (p, Err (TerminalPayloadTooLarge len (pr_max_terminal_bytes p)))
  else
    let cycle := sat_add (pr_cycle_terminal_payload_bytes p) len in
    if pr_max_terminal_bytes p <? cycle
    then (set_bytes p (pr_terminal_payload_bytes p) cycle, Err (TerminalPayloadTooLarge cycle (pr_max_terminal_bytes p)))
    else (set_bytes p (sat_add (pr_terminal_payload_bytes p) len) cycle, Ok tt).

(** A payload that was read or did not parse. *)
Definition payload {A} (name : string) (r : result string A) : result RpcError A :=
  map_err (λ e, MalformedFrame (name +:+ ": " +:+ e)) r.

Definition parse_then {A} (p : RpcProtocol) (r : result RpcError A) (f : A → RpcEvent) : outcome RpcEvent :=
  match r with Err e => (p, Err e) | Ok a => (p, Ok (f a)) end.

(** [ingest_event] up to the order check: the event of a frame. *)
Definition event_of (p : RpcProtocol) (text kind : string) : outcome RpcEvent :=
  if kind =s "agent_start" then (p, Ok AgentStart)
  else if kind =s "agent_end" then parse_then p (payload "agent_end" (js_agent_end json text)) AgentEnd
  else if kind =s "agent_settled" then (p, Ok AgentSettled)
  else if kind =s "turn_start" then (p, Ok TurnStart)
  else if kind =s "turn_end" then (p, Ok TurnEnd)
  else if kind =s "message_start" then (p, Ok MessageStart)
  else if kind =s "tool_execution_start" then (p, Ok ToolExecutionStart)
  else if kind =s "message_end" then
    match terminal_bytes p (str_len text) with
    | (p, Err e) => (p, Err e)
    | (p, Ok _) => parse_then p (payload "message_end" (js_message_end json text)) (λ m, MessageEnd (into_terminal m))
    end
  else if kind =s "tool_execution_end" then
    match terminal_bytes p (str_len text) with
    | (p, Err e) => (p, Err e)
    | (p, Ok _) => parse_then p (payload "tool_execution_end" (js_tool_end json text))
        (λ t, ToolExecutionEnd (te_tool_call_id t) (te_tool_name t) (te_details t) (te_is_error t) (te_terminate t))
    end
  else if kind =s "entry_appended" then
    if MAX_ENTRY_APPENDED_BYTES <? str_len text
    then (p, Err (EntryAppendedTooLarge (str_len text) MAX_ENTRY_APPENDED_BYTES))
    else if negb (pr_bootstrap_open p)
    then (p, Err (ProtocolViolation "entry_appended emitted after child bootstrap completed"))
    else if negb (pr_bootstrap_entry_count p =? 0)
    then (p, Err (ProtocolViolation "duplicate entry_appended during child bootstrap"))
    else match payload "entry_appended" (js_entry json text) with
         | Err e => (p, Err e)
         | Ok entry => (set_bootstrap p (pr_bootstrap_open p) 1, Ok (EntryAppended entry))
         end
  else if kind =s "queue_update" then
    parse_then p (payload "queue_update" (js_queue json text)) (λ '(s, f), QueueUpdate (zlen s) (zlen f))
  else if kind =s "compaction_start" then
    parse_then p (payload "compaction_start" (js_compaction_start json text)) CompactionStart
  else if kind =s "compaction_end" then
    parse_then p (payload "compaction_end" (js_compaction_end json text)) (λ '(r, a, w), CompactionEnd r a w)
  else if kind =s "auto_retry_start" then (p, Ok AutoRetryStart)
  else if kind =s "auto_retry_end" then
    parse_then p (payload "auto_retry_end" (js_auto_retry_end json text)) AutoRetryEnd
  else if kind =s "summarization_retry_scheduled" then (p, Ok SummarizationRetryScheduled)
  else if kind =s "summarization_retry_attempt_start" then (p, Ok SummarizationRetryAttemptStart)
  else if kind =s "summarization_retry_finished" then (p, Ok SummarizationRetryFinished)
  else if kind =s "extension_error" then (p, Ok ExtensionError)
  else if kind =s "extension_ui_request" then (p, Ok ExtensionUiRequest)
  else (p, Err (UnknownFrame kind)).

Definition ingest_event (p : RpcProtocol) (text kind : string) : outcome RpcFrame :=
  match event_of p text kind with
  | (p, Err e) => (p, Err e)
  | (p, Ok event) => accept_event p event
  end.

Definition ingest_record (p : RpcProtocol) (record : string) : outcome RpcFrame :=
  let p := set_frames p (sat_add (pr_frames p) 1) (pr_message_update_frames p) (pr_tool_update_frames p)
             (pr_bash_update_frames p) in
  match js_utf8 json record with
  | Err e => (p, Err (RpcUtf8 e))
  | Ok _ =>
      if blank record then (p, Err (MalformedFrame "empty JSONL record"))
      else match js_kind json record with
           | Err e => (p, Err (RpcJsonError ("frame " +:+ show_uint (pr_frames p) +:+ ": " +:+ e)))
           | Ok kind =>
               if kind =s "response" then ingest_response p record
               else if kind =s "message_update" then discard p MessageUpdateDiscarded
               else if kind =s "tool_execution_update" then discard p ToolExecutionUpdateDiscarded
               else if kind =s "bash_execution_update" then discard p BashExecutionUpdateDiscarded
               else ingest_event p record kind
           end
  end.

Definition protocol_finish (p : RpcProtocol) : result RpcError unit :=
  match btree_keys (pr_pending p) with
  | [] => order_finish (pr_order p)
  | ids => Err (MissingResponse ids)
  end.

End Protocol.

(** ** The order as phases of an agent run *)

(** Where a stream stands: no run, inside a run, after its end (with or without
    a retry announced), retrying, compacting in one of three places, settled. *)
Inductive Phase := Idle | Running | Ended (retry : bool) | Retrying | Compacting (inside : Phase3) | Settled
with Phase3 := InIdle | InRun | AfterEnd.

Definition phase_name (ph : Phase) : string :=
  match ph with
  | Idle => "idle" | Running => "running"
  | Ended false => "after_end_no_retry" | Ended true => "after_end_retry"
  | Retrying => "after_end_retry_progress"
  | Compacting InIdle => "compacting_idle" | Compacting InRun => "compacting_running"
  | Compacting AfterEnd => "compacting_after_end"
  | Settled => "settled"
  end.

(** What an event is, as far as the order goes. *)
Inductive EventClass := CStart | CEnd (retry : bool) | CSettled | CCompact (manual : bool)
  | CCompacted (retry : bool) | CRetry | CChatter | CEntry | CProgress.

Definition class_of {Value} (e : @RpcEvent Value) : EventClass :=
  match e with
  | AgentStart => CStart
  | AgentEnd r => CEnd r
  | AgentSettled => CSettled
  | CompactionStart Manual => CCompact true
  | CompactionStart _ => CCompact false
  | CompactionEnd _ _ r => CCompacted r
  | AutoRetryStart | AutoRetryEnd _ | SummarizationRetryScheduled
  | SummarizationRetryAttemptStart | SummarizationRetryFinished => CRetry
  | QueueUpdate _ _ | ExtensionUiRequest | ExtensionError => CChatter
  | EntryAppended _ => CEntry
  | _ => CProgress
  end.

Definition phase_step (ph : Phase) (c : EventClass) : option Phase :=
  match ph, c with
  | Idle, CStart | Retrying, CStart => Some Running
  | Idle, CChatter | Idle, CEntry => Some Idle
  | Running, CProgress | Running, CChatter | Running, CRetry => Some Running
  | Running, CEnd r => Some (Ended r)
  | Ended r, CChatter => Some (Ended r)
  | Ended false, CSettled => Some Settled
  | Ended true, CRetry | Retrying, CRetry => Some Retrying
  | Idle, CCompact true => Some (Compacting InIdle)
  | Running, CCompact true => Some (Compacting InRun)
  | Ended _, CCompact true | Retrying, CCompact true => Some (Compacting AfterEnd)
  | Compacting i, CRetry => Some (Compacting i)
  | Compacting InIdle, CCompacted _ => Some Idle
  | Compacting InRun, CCompacted _ => Some Running
  | Compacting AfterEnd, CCompacted r => Some (if r then Retrying else Ended false)
  | _, _ => None
  end.

Section Order.
Context {Value : Type} (dbg : @RpcEvent Value → string).

Lemma accept_phase ph e :
  match phase_step ph (class_of e) with
  | Some ph' => accept dbg {| eo_state := phase_name ph |} e = Ok {| eo_state := phase_name ph' |}
  | None => ∃ err, accept dbg {| eo_state := phase_name ph |} e = Err err
  end.
Proof.
  destruct ph as [| |[]| |[]|], e; repeat match goal with
    | b : bool |- _ => destruct b | r : CompactionReason |- _ => destruct r end;
    cbn [class_of phase_step phase_name]; (reflexivity || (eexists; reflexivity)).
Qed.

(** The events of a cycle, one after the other. *)
Fixpoint accept_all (o : EventOrder) (events : list RpcEvent) : result RpcError EventOrder :=
  match events with
  | [] => Ok o
  | e :: events' => match accept dbg o e with Ok o' => accept_all o' events' | Err err => Err err end
  end.

Fixpoint phases (ph : Phase) (cs : list EventClass) : option Phase :=
  match cs with
  | [] => Some ph
  | c :: cs' => match phase_step ph c with Some ph' => phases ph' cs' | None => None end
  end.

Lemma accept_all_phases ph events :
  match phases ph (map class_of events) with
  | Some ph' => accept_all {| eo_state := phase_name ph |} events = Ok {| eo_state := phase_name ph' |}
  | None => ∃ err, accept_all {| eo_state := phase_name ph |} events = Err err
  end.
Proof.
  revert ph. induction events as [|e events IH]; intros ph; cbn [map phases accept_all]; [done|].
  pose proof (accept_phase ph e) as Ha. destruct (phase_step ph (class_of e)) as [ph'|].
  - rewrite Ha. apply IH.
  - destruct Ha as [err ->]. eauto.
Qed.

Lemma finish_phase ph : order_finish {| eo_state := phase_name ph |} = Ok tt ↔ ph = Idle ∨ ph = Settled.
Proof. destruct ph as [| |[]| |[]|]; cbn; split; intros H; try done; auto; destruct H; done. Qed.

Lemma phases_app ph cs ds : phases ph (cs ++ ds) = phases ph cs ≫= λ ph', phases ph' ds.
Proof. revert ph. induction cs as [|c cs IH]; intros ph; cbn; [done|]. by destruct (phase_step ph c). Qed.
End Order.

Instance EventClass_eq_dec : EqDecision EventClass.
Proof. solve_decision. Defined.

Definition count (c : EventClass → bool) (cs : list EventClass) : Z := zlen (List.filter c cs).
Definition is_start c := match c with CStart => true | _ => false end.
Definition is_end c := match c with CEnd _ => true | _ => false end.
Definition is_compact c := match c with CCompact _ => true | _ => false end.
Definition is_compacted c := match c with CCompacted _ => true | _ => false end.

Lemma count_snoc f cs c : count f (cs ++ [c]) = count f cs + if f c then 1 else 0.
Proof. unfold count. rewrite List.filter_app, zlen_app. cbn. by destruct (f c). Qed.

(** The runs and compactions that are open in a phase. *)
Definition open_runs (ph : Phase) : Z := match ph with Running | Compacting InRun => 1 | _ => 0 end.
Definition open_compactions (ph : Phase) : Z := match ph with Compacting _ => 1 | _ => 0 end.

Lemma phases_balance cs ph :
  phases Idle cs = Some ph →
  count is_start cs - count is_end cs = open_runs ph ∧
  count is_compact cs - count is_compacted cs = open_compactions ph.
Proof.
  revert ph. induction cs as [|c cs IH] using rev_ind; intros ph.
  { intros [= <-]. done. }
  rewrite phases_app, !count_snoc. destruct (phases Idle cs) as [ph0|]; [|done]. cbn.
  specialize (IH ph0 eq_refl). destruct (phase_step ph0 c) as [ph1|] eqn:Hstep; [|done]. intros [= <-].
  destruct ph0 as [| |[]| |[]|], c as [|[]| |[]|[]| | | |]; simplify_eq/=; lia.
Qed.

Lemma ended_cause cs :
  phases Idle cs = Some (Ended false) →
  ∃ l1 c l2, cs = l1 ++ c :: l2 ∧ (c = CEnd false ∨ c = CCompacted false) ∧ Forall (λ x, x = CChatter) l2.
Proof.
  induction cs as [|c cs IH] using rev_ind; [done|]. rewrite phases_app.
  destruct (phases Idle cs) as [ph0|]; [|done]. cbn.
  destruct (phase_step ph0 c) as [ph1|] eqn:Hstep; [|done]. intros [= ->].
  destruct ph0 as [| |[]| |[]|], c as [|[]| |[]|[]| | | |]; simplify_eq/=.
  - exists cs, (CEnd false), []. auto.
  - destruct (IH eq_refl) as (l1 & c & l2 & -> & Hc & Hl). exists l1, c, (l2 ++ [CChatter]).
    rewrite <- app_assoc. split_and!; [done|done|]. apply Forall_app. by repeat constructor.
  - exists cs, (CCompacted false), []. auto.
Qed.

Lemma phases_progress ps :
  Forall (λ c, c ∈ [CProgress; CChatter; CRetry]) ps → phases Running ps = Some Running.
Proof.
  induction 1 as [|c ps Hc _ IH]; cbn; [done|].
  rewrite !elem_of_cons, elem_of_nil in Hc. destruct Hc as [->|[->|[->|[]]]]; done.
Qed.

(** C23. The event order is that of agent runs.  In every sequence of events
    accepted from a fresh state, nothing follows the settling of the agent; it
    settles only after an end, of a run or of a compaction after one, that
    announced no retry, with nothing but queue and extension messages between;
    automatic compaction is never accepted; turns, messages and tool events
    occur only inside a run that is not being compacted; runs and compactions
    never nest, and a stream that may finish has closed both.  A run of
    progress, chatter and retries that ends without a retry is accepted and may
    finish. *)
Theorem event_order_sound {Value} (dbg : @RpcEvent Value → string) (events : list RpcEvent) :
  (∀ o, accept_all dbg order_new events = Ok o →
    (∀ pre e post, events = pre ++ e :: post →
       let before := map class_of pre in
       (class_of e = CSettled → post = [] ∧ ∃ l1 c l2, before = l1 ++ c :: l2 ∧
          (c = CEnd false ∨ c = CCompacted false) ∧ Forall (λ x, x = CChatter) l2) ∧
       class_of e ≠ CCompact false ∧
       (class_of e = CProgress → count is_start before = count is_end before + 1 ∧
          count is_compact before = count is_compacted before)) ∧
    let all := map class_of events in
    0 ≤ count is_start all - count is_end all ≤ 1 ∧
    0 ≤ count is_compact all - count is_compacted all ≤ 1 ∧
    (order_finish o = Ok tt → count is_start all = count is_end all ∧
       count is_compact all = count is_compacted all)) ∧
  (Forall (λ e, class_of e ∈ [CProgress; CChatter; CRetry]) events →
   ∃ o, accept_all dbg order_new (AgentStart :: events ++ [AgentEnd false; AgentSettled]) = Ok o ∧
        order_finish o = Ok tt).
Proof.
  split.
  - intros o Hrun. pose proof (accept_all_phases dbg Idle events) as Ha.
    change {| eo_state := phase_name Idle |} with order_new in Ha. rewrite Hrun in Ha.
    destruct (phases Idle (map class_of events)) as [ph|] eqn:Hph; [|by destruct Ha]. injection Ha as ->.
    split.
    + intros pre e post ->. cbn zeta. rewrite map_app, phases_app in Hph. cbn [map] in Hph.
      destruct (phases Idle (map class_of pre)) as [ph0|] eqn:Hpre; [|done]. cbn in Hph.
      pose proof (phases_balance _ _ Hpre) as [Hr Hc]. destruct (class_of e) eqn:Hcl; cbn [phase_step phases] in Hph;
        (split_and!; [..|intros [=]]); try (intros [=]).
      all: destruct ph0 as [| |[]| |[]|]; cbn in Hph, Hr, Hc; try done; try lia;
        try (subst manual; done).
      split; [|by apply ended_cause]. destruct post as [|e' post]; [done|]. cbn in Hph.
      destruct (class_of e') as [|[]| |[]|[]| | | |]; done.
    + pose proof (phases_balance _ _ Hph) as [Hr Hc]. cbn zeta. rewrite finish_phase.
      destruct ph as [| |[]| |[]|]; cbn in Hr, Hc; split_and!; try lia; intros [?|?]; done || lia.
  - intros Hps. pose proof (accept_all_phases dbg Idle (AgentStart :: events ++ [AgentEnd false; AgentSettled])) as Ha.
    cbn [map phases class_of phase_step] in Ha. rewrite map_app, phases_app, phases_progress in Ha by by apply Forall_fmap.
    cbn in Ha. change {| eo_state := "idle" |} with order_new in Ha. eexists. split; [exact Ha|done].
Qed.

(** ** Sessions *)

Section Session.
Context {Value : Type} (dbg : @RpcEvent Value → string) (json : @Json Value).

(** What the client does with the protocol, until an operation fails. *)
Inductive Step := SSend (c : RpcCommand) | SRecord (record : string) | SBootstrapped.

(** What can be seen of it: requests, and frames with the text they were read
    from. *)
Inductive Label := LSent (id : string) (k : RpcCommandKind)
  | LAnswered (id : string) (k : RpcCommandKind) (text : string)
  | LEvent (e : @RpcEvent Value) (text : string).

Definition session_step (p : RpcProtocol) (s : Step) : result RpcError (RpcProtocol * list Label) :=
  match s with
  | SSend c => match send_command p c with
      | (p', Ok _) => Ok (p', [LSent (rc_id c) (rc_command c)])
      | (_, Err e) => Err e
      end
  | SRecord record => match ingest_record dbg json p record with
      | (p', Ok (Response r)) => Ok (p', [LAnswered (rr_id r) (rr_command r) record])
      | (p', Ok (Event e)) => Ok (p', [LEvent e record])
      | (_, Err e) => Err e
      end
  | SBootstrapped => Ok (complete_bootstrap p, [])
  end.

Definition session_from (acc : RpcProtocol * list Label) (s : Step) : result RpcError (RpcProtocol * list Label) :=
  match session_step acc.1 s with Ok (p, l) => Ok (p, acc.2 ++ l) | Err e => Err e end.
Definition session (max : Z) (steps : list Step) : result RpcError (RpcProtocol * list Label) :=
  fold_res session_from (protocol_new max, []) steps.

(** *** What one operation changes *)

Definition bounded (p : RpcProtocol) : Prop :=
  pr_cycle_terminal_payload_bytes p ≤ pr_max_terminal_bytes p < usize_max.

(** The events whose text a cycle retains. *)
Definition payload_size (e : @RpcEvent Value) (text : string) : Z :=
  match e with MessageEnd _ | ToolExecutionEnd _ _ _ _ _ => str_len text | _ => 0 end.

(** Nothing but the count of a cycle's payload changes, by [size]. *)
Definition charged (size : Z) (p p' : RpcProtocol) : Prop :=
  pr_max_terminal_bytes p' = pr_max_terminal_bytes p ∧
  (bounded p → bounded p' ∧
     pr_cycle_terminal_payload_bytes p' = pr_cycle_terminal_payload_bytes p + size).
Definition same_but_bytes (size : Z) (p p' : RpcProtocol) : Prop :=
  pr_pending p' = pr_pending p ∧ pr_order p' = pr_order p ∧ charged size p p'.

Lemma charged_refl p p' :
  pr_max_terminal_bytes p' = pr_max_terminal_bytes p →
  pr_cycle_terminal_payload_bytes p' = pr_cycle_terminal_payload_bytes p → charged 0 p p'.
Proof. unfold charged, bounded. lia. Qed.
Lemma same_refl p : same_but_bytes 0 p p.
Proof. split_and!; [done..|by apply charged_refl]. Qed.

Lemma terminal_bytes_ok p len p' : terminal_bytes p len = (p', Ok tt) → same_but_bytes len p p'.
Proof.
  unfold terminal_bytes. destruct (_ <? len); [done|]. destruct (_ <? sat_add _ _) eqn:Hb; [done|].
  intros [= <-]. to_prop. split_and!; [done..|]. unfold charged, bounded, sat_add in *. cbn. lia.
Qed.

Lemma parse_then_ok {A} p (r : result RpcError A) (f : A → @RpcEvent Value) p' e :
  parse_then p r f = (p', Ok e) → p' = p ∧ ∃ a, e = f a.
Proof. unfold parse_then. destruct r; [intros [= <- <-]; eauto|done]. Qed.

Lemma event_of_ok p text kind p' e :
  event_of json p text kind = (p', Ok e) → same_but_bytes (payload_size e text) p p'.
Proof.
  assert (∀ A (r : result RpcError A) f, match terminal_bytes p (str_len text) with
      | (p, Err e) => (p, Err e) | (p, Ok _) => parse_then p r f end = (p', Ok e) →
      (∀ a, payload_size (f a) text = str_len text) → same_but_bytes (payload_size e text) p p') as Hterm.
  { intros A r f. destruct (terminal_bytes p (str_len text)) as [p1 [[]|]] eqn:Ht; [|done].
    intros [-> [a ->]]%parse_then_ok Hf. rewrite Hf. by apply terminal_bytes_ok in Ht. }
  unfold event_of. intros H.
  repeat match type of H with
    | (if ?b then _ else _) = _ => destruct b
    | (set_bootstrap _ _ _, Ok _) = _ =>
        injection H as <- <-; split_and!; [done..|by apply charged_refl]
    | (_, Ok _) = (_, Ok _) => injection H as <- <-; apply same_refl
    | (_, Err _) = (_, Ok _) => done
    | parse_then _ _ _ = _ => apply parse_then_ok in H as [-> [a ->]]; destruct_and?; repeat destruct a as [a ?]; apply same_refl
    | match terminal_bytes _ _ with _ => _ end = _ => by apply Hterm in H
    | match payload _ _ with _ => _ end = _ => destruct (payload _ _)
    end.
Qed.

(** The text of a response: a successful response to [id], of command [k]. *)
Definition response_text (text id : string) (k : RpcCommandKind) : Prop :=
  ∃ parsed, js_kind json text = Ok "response" ∧ js_response json text = Ok parsed ∧
    rs_id parsed = Some id ∧ rs_command parsed = as_str k ∧ rs_success parsed = true.

(** An event or a matching response, and nothing else, is changed by a frame. *)
Definition ingested (p p' : RpcProtocol) (f : RpcFrame) (text : string) : Prop :=
  match f with
  | Response r => response_text text (rr_id r) (rr_command r) ∧ pr_pending p !! rr_id r = Some (rr_command r) ∧
      pr_pending p' = delete (rr_id r) (pr_pending p) ∧ pr_order p' = pr_order p ∧ charged 0 p p'
  | Event e => pr_pending p' = pr_pending p ∧ accept dbg (pr_order p) e = Ok (pr_order p') ∧
      charged (payload_size e text) p p'
  end.

Lemma accept_event_ok p0 p e p' f text :
  same_but_bytes (payload_size e text) p0 p → accept_event dbg p e = (p', Ok f) → ingested p0 p' f text.
Proof.
  intros (H1 & H2 & H3). unfold accept_event. destruct (accept dbg (pr_order p) e) as [o|] eqn:Ha; [|done].
  intros [= <- <-]. unfold ingested, charged, bounded in *. cbn. rewrite <- H2. auto.
Qed.

Lemma ingest_response_ok p text p' f :
  js_kind json text = Ok "response" → ingest_response json p text = (p', Ok f) → ingested p p' f text.
Proof.
  intros Hkind. unfold ingest_response. destruct (js_response json text) as [parsed|] eqn:Hparsed; [|done].
  destruct (rs_id parsed) as [id|] eqn:Hid; [|done]. destruct (pr_pending p !! id) as [k|] eqn:Hk; [|done].
  cbn zeta. case_bool_decide as Hc; [|done]. destruct (rs_success parsed) eqn:Hs; [|done].
  intros [= <- <-]. split_and!; [|done..|by apply charged_refl]. by exists parsed.
Qed.

Lemma ingest_record_ok p record p' f : ingest_record dbg json p record = (p', Ok f) → ingested p p' f record.
Proof.
  unfold ingest_record. cbn zeta. set (p1 := set_frames p _ _ _ _).
  assert (∀ n p2, same_but_bytes n p1 p2 → same_but_bytes n p p2) as Hsame.
  { intros n p2 (H1 & H2 & H3 & H4). split_and!; done. }
  assert (∀ a b c d, same_but_bytes 0 p (set_frames p1 a b c d)) as Hframes.
  { intros. split_and!; [done..|by apply charged_refl]. }
  destruct (js_utf8 json record); [|done]. destruct (blank record); [done|].
  destruct (js_kind json record) as [kind|] eqn:Hkind; [|done].
  case_bool_decide as Hr.
  { subst kind. intros H%ingest_response_ok; [|done]. exact H. }
  repeat match goal with |- (if ?b then _ else _) = _ → _ => destruct b end;
    try (apply accept_event_ok; apply Hframes).
  unfold ingest_event. destruct (event_of json p1 record kind) as [p2 [e|]] eqn:He; [|done].
  apply event_of_ok in He. apply accept_event_ok. by apply Hsame.
Qed.

Lemma send_command_ok p c p' :
  send_command p c = (p', Ok tt) →
  pr_pending p !! rc_id c = None ∧ pr_pending p' = <[rc_id c := rc_command c]> (pr_pending p) ∧
  pr_max_terminal_bytes p' = pr_max_terminal_bytes p ∧
  match rc_command c with
  | Prompt | Compact => pr_order p' = order_begin_cycle (pr_order p) ∧ pr_cycle_terminal_payload_bytes p' = 0
  | _ => pr_order p' = pr_order p ∧ pr_cycle_terminal_payload_bytes p' = pr_cycle_terminal_payload_bytes p
  end.
Proof.
  unfold send_command, register_request. case_bool_decide as Hp; [done|]. apply eq_None_not_Some in Hp.
  intros [= <-]. destruct (rc_command c); cbn; auto.
Qed.

(** *** What a session has done *)

Definition about (id : string) (l : Label) : Prop :=
  match l with LSent i _ | LAnswered i _ _ => i = id | LEvent _ _ => False end.
#[local] Instance about_dec id l : Decision (about id l).
Proof. destruct l; cbn; apply _. Defined.

(** The last label about [id] is its request, of kind [k]. *)
Definition outstanding (labels : list Label) (id : string) (k : RpcCommandKind) : Prop :=
  ∃ l1 l2, labels = l1 ++ LSent id k :: l2 ∧ Forall (λ l, ¬ about id l) l2.

Definition sent (id : string) (labels : list Label) : Z :=
  zlen (List.filter (λ l, match l with LSent i _ => i =s id | _ => false end) labels).
Definition answered (id : string) (labels : list Label) : Z :=
  zlen (List.filter (λ l, match l with LAnswered i _ _ => i =s id | _ => false end) labels).

(** A cycle begins with a prompt or a compaction. *)
Definition opens_cycle (l : Label) : Prop :=
  match l with LSent _ (Prompt | Compact) => True | _ => False end.

#[local] Instance opens_cycle_dec l : Decision (opens_cycle l).
Proof. destruct l as [? []| |]; cbn; apply _. Defined.

(** The payload retained since the last cycle opened: the texts of its
    message ends and tool ends, in bytes. *)
Definition cycle_step (n : Z) (l : Label) : Z :=
  if bool_decide (opens_cycle l) then 0
  else match l with LEvent e text => n + payload_size e text | _ => n end.
Definition cycle_bytes (labels : list Label) : Z := fold_left cycle_step labels 0.

Record session_inv (max : Z) (p : RpcProtocol) (labels : list Label) : Prop := {
  si_max : pr_max_terminal_bytes p = max ∧ bounded p ∧ pr_cycle_terminal_payload_bytes p = cycle_bytes labels;
  si_phase : ∃ ph, pr_order p = {| eo_state := phase_name ph |};
  si_pending : ∀ id k, pr_pending p !! id = Some k ↔ outstanding labels id k;
  si_count : ∀ id, sent id labels - answered id labels = if bool_decide (is_Some (pr_pending p !! id)) then 1 else 0;
  si_answers : ∀ pre id k text post, labels = pre ++ LAnswered id k text :: post →
    outstanding pre id k ∧ response_text text id k;
  si_settled : ∀ pre text mid, labels = pre ++ LEvent AgentSettled text :: mid → Forall (λ l, ¬ opens_cycle l) mid →
    pr_order p = {| eo_state := "settled" |};
  si_reopened : ∀ pre text mid e text' post,
    labels = pre ++ LEvent AgentSettled text :: mid ++ LEvent e text' :: post →
    ¬ Forall (λ l, ¬ opens_cycle l) mid;
}.

Lemma snoc_split {A} (l pre post : list A) x y :
  l ++ [x] = pre ++ y :: post → (post = [] ∧ x = y ∧ l = pre) ∨ ∃ post', post = post' ++ [x] ∧ l = pre ++ y :: post'.
Proof.
  destruct post as [|z post _] using rev_ind.
  - intros [-> [= ->]]%app_inj_tail. auto.
  - rewrite app_comm_cons, app_assoc. intros [-> ->]%app_inj_tail. right. by exists post.
Qed.

Lemma outstanding_snoc labels l id k :
  outstanding (labels ++ [l]) id k ↔ l = LSent id k ∨ (¬ about id l ∧ outstanding labels id k).
Proof.
  split.
  - intros (l1 & l2 & Heq & Hf). apply snoc_split in Heq as [(-> & -> & ->)|(l2' & -> & ->)]; [by left|].
    apply Forall_app in Hf as [Hf Hl]. right. split; [by inversion Hl|]. by exists l1, l2'.
  - intros [->|(Hl & l1 & l2 & -> & Hf)]; [by exists labels, []|].
    exists l1, (l2 ++ [l]). rewrite <- app_assoc. split; [done|]. apply Forall_app. by repeat constructor.
Qed.

Lemma sent_snoc id labels l :
  sent id (labels ++ [l]) = sent id labels + match l with LSent i _ => if i =s id then 1 else 0 | _ => 0 end.
Proof. unfold sent. rewrite List.filter_app, zlen_app. f_equal. destruct l; cbn; try done. by case_bool_decide. Qed.
Lemma answered_snoc id labels l :
  answered id (labels ++ [l]) = answered id labels + match l with LAnswered i _ _ => if i =s id then 1 else 0 | _ => 0 end.
Proof. unfold answered. rewrite List.filter_app, zlen_app. f_equal. destruct l; cbn; try done. by case_bool_decide. Qed.

Lemma cycle_bytes_snoc labels l : cycle_bytes (labels ++ [l]) = cycle_step (cycle_bytes labels) l.
Proof. unfold cycle_bytes. by rewrite fold_left_app. Qed.

Lemma accept_settled e o : accept dbg {| eo_state := "settled" |} e ≠ Ok o.
Proof. pose proof (accept_phase dbg Settled e) as [err Ha]. cbn in Ha. by rewrite Ha. Qed.

Lemma accept_order ph e o :
  accept dbg {| eo_state := phase_name ph |} e = Ok o →
  ∃ ph', o = {| eo_state := phase_name ph' |} ∧ phase_step ph (class_of e) = Some ph'.
Proof.
  pose proof (accept_phase dbg ph e) as Ha. destruct (phase_step ph (class_of e)) as [ph'|].
  - rewrite Ha. intros [= <-]. eauto.
  - destruct Ha as [err ->]. done.
Qed.

Lemma inv_event max p labels p' e text :
  session_inv max p labels → ingested p p' (Event e) text → session_inv max p' (labels ++ [LEvent e text]).
Proof.
  intros [(Hmax & Hb & Hbytes) (ph & Hph) Hpend Hcount Hans Hset Hre] (Hp & Ha & Hm & Hb').
  rewrite Hph in Ha. apply accept_order in Ha as (ph' & Ho & Hstep). constructor.
  - destruct (Hb' Hb) as [Hb2 ->]. rewrite cycle_bytes_snoc, Hbytes. split; [congruence|done].
  - eauto.
  - intros id k. rewrite Hp, Hpend, outstanding_snoc. cbn. naive_solver.
  - intros id. rewrite sent_snoc, answered_snoc, Hp. specialize (Hcount id). lia.
  - intros pre id k text' post [(_ & [=] & _)|(post' & -> & ->)]%snoc_split. by eapply Hans.
  - intros pre text' mid [(-> & [= -> ->] & ->)|(mid' & -> & ->)]%snoc_split Hf.
    + rewrite Ho. destruct ph as [| |[]| |[]|]; cbn in Hstep; by simplify_eq.
    + apply Forall_app in Hf as [Hf _]. specialize (Hset pre text' mid' eq_refl Hf). rewrite Hset in Hph.
      destruct ph as [| |[]| |[]|]; done.
  - intros pre text' mid e' text2 post Heq Hf. rewrite app_comm_cons, app_assoc in Heq.
    apply snoc_split in Heq as [(-> & [= <- <-] & ->)|(post' & -> & ->)].
    + specialize (Hset pre text' mid eq_refl Hf). rewrite Hset in Hph.
      destruct ph as [| |[]| |[]|]; done.
    + eapply Hre; [|exact Hf]. by rewrite <- app_assoc.
Qed.

(** The invariant of a label that is no event: the order changes only when a
    cycle opens. *)
Lemma inv_other max p labels p' l :
  session_inv max p labels → (∀ e text, l ≠ LEvent e text) →
  pr_max_terminal_bytes p' = pr_max_terminal_bytes p → 0 ≤ max →
  (opens_cycle l ∧ pr_order p' = order_begin_cycle (pr_order p) ∧ pr_cycle_terminal_payload_bytes p' = 0 ∨
   ¬ opens_cycle l ∧ pr_order p' = pr_order p ∧
     pr_cycle_terminal_payload_bytes p' = pr_cycle_terminal_payload_bytes p) →
  (∀ id k, pr_pending p' !! id = Some k ↔ outstanding (labels ++ [l]) id k) →
  (∀ id, sent id (labels ++ [l]) - answered id (labels ++ [l]) =
         if bool_decide (is_Some (pr_pending p' !! id)) then 1 else 0) →
  (∀ id k text, l = LAnswered id k text → outstanding labels id k ∧ response_text text id k) →
  session_inv max p' (labels ++ [l]).
Proof.
  intros [(Hmax & Hbd & Hbytes) (ph & Hph) _ _ Hans Hset Hre] Hl Hm H0 Ho Hp Hc Ha. constructor; try done.
  - split; [congruence|]. rewrite cycle_bytes_snoc. unfold cycle_step, bounded in *.
    destruct Ho as [(Hop & _ & ->)|(Hop & _ & ->)].
    + rewrite bool_decide_true by done. split; [lia|done].
    + rewrite bool_decide_false by done. split; [lia|]. rewrite Hbytes. by destruct l; [..|by destruct (Hl e text)].
  - destruct Ho as [(_ & -> & _)|(_ & -> & _)]; [|eauto]. rewrite Hph. unfold order_begin_cycle. cbn.
    case_bool_decide; [by exists Idle|eauto].
  - intros pre id k text post [(_ & -> & ->)|(post' & -> & ->)]%snoc_split; [by apply Ha|by eapply Hans].
  - intros pre text mid [(_ & -> & _)|(mid' & -> & ->)]%snoc_split Hf; [by destruct (Hl AgentSettled text)|].
    apply Forall_app in Hf as [Hf Hlast]. rewrite Forall_singleton in Hlast.
    destruct Ho as [[? _]|(_ & -> & _)]; [done|]. by eapply Hset.
  - intros pre text mid e' text' post Heq. rewrite app_comm_cons, app_assoc in Heq.
    apply snoc_split in Heq as [(_ & -> & _)|(post' & -> & ->)]; [by destruct (Hl e' text')|].
    eapply Hre. by rewrite <- app_assoc.
Qed.

Lemma inv_answer max p labels p' r text :
  0 ≤ max → session_inv max p labels → ingested p p' (Response r) text →
  session_inv max p' (labels ++ [LAnswered (rr_id r) (rr_command r) text]).
Proof.
  intros H0 Hinv (Ht & Hk & Hp & Ho & Hm & Hc). pose proof Hinv as [(_ & Hbd & _) _ Hpend Hcount _ _ _].
  destruct (Hc Hbd) as [_ Hcyc]. rewrite Z.add_0_r in Hcyc.
  eapply inv_other; [done..|right; split_and!; [auto|done|done]| | |].
  - intros id k. rewrite Hp, outstanding_snoc, lookup_delete_Some, Hpend. cbn. naive_solver.
  - intros id. rewrite sent_snoc, answered_snoc, Hp. specialize (Hcount id).
    destruct (decide (rr_id r = id)) as [<-|Hne].
    + rewrite lookup_delete_eq, bool_decide_true by done.
      rewrite bool_decide_true in Hcount by (by eexists). rewrite bool_decide_false; [lia|by intros []].
    + rewrite lookup_delete_ne, (bool_decide_false (rr_id r = id)) by done. lia.
  - intros id k text' [= <- <- <-]. split; [by apply Hpend|done].
Qed.

Lemma inv_send max p labels c p' :
  0 ≤ max → session_inv max p labels → send_command p c = (p', Ok tt) →
  session_inv max p' (labels ++ [LSent (rc_id c) (rc_command c)]).
Proof.
  intros H0 Hinv (Hnone & Hp & Hm & Ho)%send_command_ok. pose proof Hinv as [_ _ Hpend Hcount _ _ _].
  eapply inv_other; [done..| | | |done].
  - destruct (rc_command c); cbn; naive_solver.
  - intros id k. rewrite Hp, outstanding_snoc, lookup_insert_Some. cbn. rewrite Hpend. naive_solver.
  - intros id. rewrite sent_snoc, answered_snoc, Hp. specialize (Hcount id).
    destruct (decide (rc_id c = id)) as [<-|Hne].
    + rewrite lookup_insert_eq, !bool_decide_true by (done || by eexists).
      rewrite Hnone, bool_decide_false in Hcount by (by intros []). lia.
    + rewrite lookup_insert_ne, (bool_decide_false (rc_id c = id)) by done. lia.
Qed.

Lemma inv_bootstrap max p labels : session_inv max p labels → session_inv max (complete_bootstrap p) labels.
Proof. by intros []; constructor. Qed.

Lemma session_inv_new max : 0 ≤ max < usize_max → session_inv max (protocol_new max) [].
Proof.
  intros H0. constructor; cbn.
  - by unfold bounded.
  - by exists Idle.
  - intros id k. rewrite lookup_empty. split; [done|]. intros ([|] & ? & ? & _); done.
  - intros id. rewrite lookup_empty, bool_decide_false; [done|by intros []].
  - intros [|] * [=].
  - intros [|] * [=].
  - intros [|] * [=].
Qed.

Lemma session_inv_holds max steps p labels :
  0 ≤ max < usize_max → session max steps = Ok (p, labels) → session_inv max p labels.
Proof.
  intros H0 Hs. change (session_inv max (p, labels).1 (p, labels).2). revert Hs. unfold session.
  apply (fold_res_inv _ (λ _ acc, session_inv max acc.1 acc.2)); [by apply session_inv_new|].
  intros _ s [q ls] acc' Hinv _. unfold session_from. cbn [fst snd] in *. destruct s as [c|record|]; cbn [session_step].
  - destruct (send_command q c) as [q' [[]|]] eqn:Hc; [|done]. intros [= <-]. eapply inv_send; [lia|done|done].
  - destruct (ingest_record dbg json q record) as [q' [[r|e]|]] eqn:Hr; [..|done]; apply ingest_record_ok in Hr;
      intros [= <-]; [eapply inv_answer; [lia|done|done]|by eapply inv_event].
  - intros [= <-]. cbn. rewrite app_nil_r. by apply inv_bootstrap.
Qed.

Lemma finish_all_answered max p labels :
  session_inv max p labels → protocol_finish p = Ok tt → ∀ id, sent id labels = answered id labels.
Proof.
  intros [_ _ _ Hcount _ _ _] Hf id. unfold protocol_finish in Hf.
  destruct (btree_keys (pr_pending p)) as [|x ks] eqn:Hkeys; [|done]. specialize (Hcount id).
  rewrite bool_decide_false in Hcount; [lia|]. intros Hs%elem_of_btree_keys. rewrite Hkeys in Hs. set_solver.
Qed.

End Session.

(** C10. Every response answers its request, and cycles are kept apart.  In a
    session that has not failed, the text of every response taken is a
    successful response whose id and command name are those of a request that
    was sent before and not answered since; an id has at most one request in
    flight, and is refused or unmatched otherwise; a session that finishes has
    every request answered.  After the agent settled no event is accepted
    before the next prompt or compaction.  The bytes of the message ends and
    tool ends read since the last prompt or compaction are what the counter
    says and never exceed the limit (which is below the largest [usize]). *)
Theorem session_correlated {Value} (dbg : @RpcEvent Value → string) (json : @Json Value) (max : Z)
    (steps : list Step) (p : RpcProtocol) (labels : list Label) :
  0 ≤ max < usize_max → session dbg json max steps = Ok (p, labels) →
  (∀ pre id k text post, labels = pre ++ LAnswered id k text :: post →
     outstanding pre id k ∧ response_text json text id k) ∧
  (∀ id, 0 ≤ sent id labels - answered id labels ≤ 1) ∧
  (∀ id k, pr_pending p !! id = Some k ↔ outstanding labels id k) ∧
  (protocol_finish p = Ok tt → ∀ id, sent id labels = answered id labels) ∧
  (∀ pre text mid e text' post, labels = pre ++ LEvent AgentSettled text :: mid ++ LEvent e text' :: post →
     ¬ Forall (λ l, ¬ opens_cycle l) mid) ∧
  cycle_bytes labels = pr_cycle_terminal_payload_bytes p ∧ cycle_bytes labels ≤ max.
Proof.
  intros H0 Hs. apply session_inv_holds in Hs as Hinv; [|done].
  split_and!; [apply Hinv| |apply Hinv|by eapply finish_all_answered|apply Hinv|..].
  - intros id. destruct Hinv as [_ _ _ Hc _ _ _]. specialize (Hc id). case_bool_decide; lia.
  - symmetry. apply Hinv.
  - destruct Hinv as [(<- & [Hb _] & <-) _ _ _ _ _ _]. exact Hb.
Qed.

(** A session of one prompt: its response, a run, the settling. *)
Definition demo_json : @Json unit :=
  {| js_utf8 := λ _, Ok tt;
     js_kind := λ text, Ok (if text =s "answer" then "response" else text);
     js_response := λ _, Ok {| rs_id := Some "q1"; rs_command := "prompt"; rs_success := true; rs_data := None;
                               rs_error := None |};
     js_agent_end := λ _, Ok false;
     js_message_end := λ _, Ok {| am_role := "assistant"; am_tool_call_id := None; am_tool_name := None;
                                  am_provider := None; am_model := None; am_stop_reason := None;
                                  am_content := Some [Text "done"]; am_error_message := None;
                                  am_details := None; am_is_error := None |};
     js_tool_end := λ _, Err "none";
     js_entry := λ _, Err "none";
     js_queue := λ _, Ok ([], []);
     js_compaction_start := λ _, Err "none";
     js_compaction_end := λ _, Err "none";
     js_auto_retry_end := λ _, Err "none";
     js_print := λ _, "null" |}.
Definition demo_steps : list Step :=
  [SBootstrapped;
   SSend {| rc_id := "q1"; rc_command := Prompt; rc_message := Some "go"; rc_custom_instructions := None;
            rc_enabled := None |};
   SRecord "answer"; SRecord "agent_start"; SRecord "message_end"; SRecord "agent_end"; SRecord "agent_settled"].
Definition demo_session := session (λ _, "event") demo_json 1000 demo_steps.

Lemma session_correlated_witness :
  ∃ p labels, demo_session = Ok (p, labels) ∧ protocol_finish p = Ok tt ∧
    sent "q1" labels = answered "q1" labels ∧ answered "q1" labels = 1 ∧
    pr_cycle_terminal_payload_bytes p = 11.
Proof.
  destruct demo_session as [[p labels]|e] eqn:Hs; [|exfalso; vm_compute in Hs; discriminate].
  exists p, labels.
  assert (0 ≤ 1000 < usize_max) as Hmax by (unfold usize_max, u64_max; lia).
  pose proof (session_correlated (λ _, "event") demo_json 1000 demo_steps p labels Hmax Hs)
    as (_ & _ & _ & Hfin & _ & Hbytes & _).
  assert (protocol_finish p = Ok tt) as Hf by (vm_compute in Hs; injection Hs as <- <-; reflexivity).
  rewrite <- Hbytes. split; [reflexivity|]. split; [exact Hf|]. split; [exact (Hfin Hf "q1")|].
  vm_compute in Hs. injection Hs as _ <-. split; reflexivity.
Defined.

Lemma event_order_sound_witness :
  count is_start (map class_of [@AgentStart unit; TurnStart; AgentEnd false; AgentSettled]) = 1 ∧
  ∃ o, accept_all (λ _, "event") order_new
         (@AgentStart unit :: [TurnStart; ExtensionError] ++ [AgentEnd false; AgentSettled]) = Ok o ∧
       order_finish o = Ok tt.
Proof.
  pose proof (event_order_sound (λ _, "event") [@AgentStart unit; TurnStart; AgentEnd false; AgentSettled]) as [H1 _].
  pose proof (event_order_sound (λ _, "event") [@TurnStart unit; ExtensionError]) as [_ H2].
  split.
  - destruct (H1 {| eo_state := "settled" |}) as (_ & _ & _ & Hfin); [reflexivity|].
    destruct (Hfin eq_refl) as [-> _]. reflexivity.
  - apply H2. repeat constructor.
Defined.
