(* ===== verification/RpcStream.v ===== *)
(** * The agent process: pipes, launch and environment

    The rest of [drivers/src/runner/rpc.rs] and [rpc/types.rs]: the bounded
    reader of JSON lines, the bounded tail of standard error, the checks before
    a child is launched, its arguments and its environment.  The capacity of
    the line buffer, a diagnostic, is left out. *)

From S2P Require Import Prelude RustColl RustStr RpcOrder.

(** ** Lines from a pipe *)

(** What successive reads of a pipe return; the end of the list, or an empty
    read, is the end of the stream. *)
Abbreviation chunk := (result string (list Z)) (only parsing).

Definition LF_byte : Z := 10.
Definition CR_byte : Z := 13.

(** [position(|byte| byte == b'\n')]: the bytes before the first line feed, and
    those after it. *)
Fixpoint break_line (bytes : list Z) : list Z * option (list Z) :=
  match bytes with
  | [] => ([], None)
  | b :: bytes' =>
      if b =? LF_byte then ([], Some bytes')
      else let '(content, rest) := break_line bytes' in (b :: content, rest)
  end.

Record JsonlReader := {
  jr_reader : list chunk;
  jr_max_record_bytes : Z;
  jr_total_bytes : Z;
  jr_frames : Z;
  jr_peak_line_bytes : Z;
}.

Definition with_max_record_bytes (reader : list chunk) (max : Z) : JsonlReader :=
  {| jr_reader := reader; jr_max_record_bytes := max; jr_total_bytes := 0; jr_frames := 0; jr_peak_line_bytes := 0 |}.

(** The loop of [next_record]; the first chunk is what [fill_buf] has. *)
Fixpoint record_loop (max : Z) (chunks : list chunk) (buffer : list Z) (consumed_total : Z)
  : list chunk * result RpcError (option (list Z * Z)) :=
  let at_end := match buffer with [] => Ok None | _ => Ok (Some (buffer, consumed_total)) end in
  match chunks with
  | [] => (chunks, at_end)
  | Err e :: chunks' => (chunks', Err (RpcIo e))
  | Ok [] :: _ => (chunks, at_end)
  | Ok available :: chunks' =>
      let '(content, newline) := break_line available in
      let next_len := sat_add (zlen buffer) (zlen content) in
      if max <? next_len then (chunks, Err (FrameTooLarge next_len max))
      else match newline with
           | Some rest =>
               (match rest with [] => chunks' | _ => Ok rest :: chunks' end,
                Ok (Some (buffer ++ content, sat_add consumed_total (zlen content + 1))))
           | None => record_loop max chunks' (buffer ++ content) (sat_add consumed_total (zlen content))
           end
  end.

(** [if buffer.ends_with(b"\r") { buffer.pop(); }] *)
Definition pop_cr (buffer : list Z) : list Z :=
  match last buffer with Some b => if b =? CR_byte then removelast buffer else buffer | None => buffer end.

Definition next_record (r : JsonlReader) : JsonlReader * result RpcError (option (list Z)) :=
  let '(chunks, res) := record_loop (jr_max_record_bytes r) (jr_reader r) [] 0 in
  let unchanged := {| jr_reader := chunks; jr_max_record_bytes := jr_max_record_bytes r;
                      jr_total_bytes := jr_total_bytes r; jr_frames := jr_frames r;
                      jr_peak_line_bytes := jr_peak_line_bytes r |} in
  match res with
  | Err e => (unchanged, Err e)
  | Ok None => (unchanged, Ok None)
  | Ok (Some (buffer, consumed)) =>
      let line := pop_cr buffer in
      ({| jr_reader := chunks; jr_max_record_bytes := jr_max_record_bytes r;
          jr_total_bytes := sat_add (jr_total_bytes r) consumed;
          jr_frames := sat_add (jr_frames r) 1;
          jr_peak_line_bytes := Z.max (jr_peak_line_bytes r) (zlen line) |}, Ok (Some line))
  end.

(** How a stream was read: its records, and how it ended. *)
Inductive Ending := EndOfStream | Failed (e : RpcError) | OutOfFuel.

Fixpoint read_all (fuel : nat) (r : JsonlReader) : list (list Z) * Ending :=
  match fuel with
  | O => ([], OutOfFuel)
  | S fuel' =>
      match next_record r with
      | (r', Ok (Some line)) => let '(lines, ending) := read_all fuel' r' in (line :: lines, ending)
      | (_, Ok None) => ([], EndOfStream)
      | (_, Err e) => ([], Failed e)
      end
  end.

(** ** The tail of standard error *)

Record RetainedTail := { rt_data : list Z; rt_limit : Z }.

Definition tail_push (t : RetainedTail) (bytes : list Z) : RetainedTail :=
  if rt_limit t =? 0 then t
  else if rt_limit t <=? zlen bytes
  then {| rt_data := drop (Z.to_nat (zlen bytes - rt_limit t)) bytes; rt_limit := rt_limit t |}
  else
    let overflow := Z.max 0 (sat_add (zlen (rt_data t)) (zlen bytes) - rt_limit t) in
    let data := if 0 <? overflow then drop (Z.to_nat overflow) (rt_data t) else rt_data t in
    {| rt_data := data ++ bytes; rt_limit := rt_limit t |}.

Record TailRead := { tl_data : list Z; tl_total_bytes : Z; tl_overflow : bool; tl_error : option string }.

(** The thread of [spawn_tail_reader]: what it sends, and whether it kills the
    process group. *)
Fixpoint tail_reader (reads : list chunk) (tail : RetainedTail) (total_bytes : Z) : TailRead * bool :=
  let at_end := ({| tl_data := rt_data tail; tl_total_bytes := total_bytes; tl_overflow := false;
                    tl_error := None |}, false) in
  match reads with
  | [] => at_end
  | Ok [] :: _ => at_end
  | Err error :: _ =>
      ({| tl_data := rt_data tail; tl_total_bytes := total_bytes; tl_overflow := false;
          tl_error := Some error |}, true)
  | Ok bytes :: reads' =>
      let total := sat_add total_bytes (zlen bytes) in
      let tail' := tail_push tail bytes in
      if rt_limit tail <? total
      then ({| tl_data := rt_data tail'; tl_total_bytes := total; tl_overflow := true; tl_error := None |}, true)
      else tail_reader reads' tail' total
  end.

(** [validate_stderr_read] on a result that has arrived. *)
Definition validate_stderr_read (limit : Z) (read : TailRead) : result RpcError unit :=
  if tl_overflow read then Err (StderrTooLarge (tl_total_bytes read) limit)
  else match tl_error read with
       | Some error => Err (RpcIo ("rpc stderr read failed: " +:+ error))
       | None => Ok tt
       end.

(** ** The equivalence with splitting the stream at line feeds *)

(** The records of a stream, when every line fits: the lines with a carriage
    return at the end removed, an empty last line left out. *)
Fixpoint stream_lines (fuel : nat) (max : Z) (stream : list Z) : list (list Z) * bool :=
  match fuel with
  | O => ([], false)
  | S fuel' =>
      match stream with
      | [] => ([], true)
      | _ =>
          let '(line, rest) := break_line stream in
          if max <? zlen line then ([], false)
          else match rest with
               | None => ([pop_cr line], true)
               | Some stream' =>
                   let '(lines, ok) := stream_lines fuel' max stream' in (pop_cr line :: lines, ok)
               end
      end
  end.

Definition stream_of (chunks : list chunk) : list Z :=
  chunks ≫= λ c, match c with Ok b => b | Err _ => [] end.
Definition good_chunk (c : chunk) : Prop := ∃ b, c = Ok b ∧ b ≠ [].

Lemma break_line_app a b :
  break_line (a ++ b) =
  match break_line a with
  | (content, Some rest) => (content, Some (rest ++ b))
  | (content, None) => let '(c, r) := break_line b in (content ++ c, r)
  end.
Proof.
  induction a as [|x a IH]; cbn; [by destruct (break_line b)|].
  destruct (x =? LF_byte); [done|]. rewrite IH. destruct (break_line a) as [c [r|]]; [done|].
  by destruct (break_line b).
Qed.

Lemma break_line_length a content rest :
  break_line a = (content, Some rest) → (length a = length content + 1 + length rest)%nat.
Proof.
  revert content. induction a as [|x a IH]; intros content; cbn; [done|].
  destruct (x =? LF_byte); [intros [= <- <-]; cbn; lia|].
  destruct (break_line a) as [c r]. intros [= <- ->]. specialize (IH c eq_refl). cbn. lia.
Qed.

Lemma break_line_none a content : break_line a = (content, None) → content = a.
Proof.
  revert content. induction a as [|x a IH]; intros content; cbn; [by intros [= <-]|].
  destruct (x =? LF_byte); [done|]. destruct (break_line a) as [c r]. intros [= <- ->]. f_equal. by apply IH.
Qed.

Lemma sat_add_gt max a b : max < usize_max → (max <? sat_add a b) = (max <? a + b).
Proof. intros. unfold sat_add. apply eq_true_iff_eq. rewrite !Z.ltb_lt. lia. Qed.

Lemma record_loop_spec max chunks buffer consumed :
  max < usize_max → zlen buffer ≤ max → Forall good_chunk chunks →
  let '(line, rest) := break_line (stream_of chunks) in
  if max <? zlen (buffer ++ line)
  then ∃ chunks' n, record_loop max chunks buffer consumed = (chunks', Err (FrameTooLarge n max)) ∧ max < n
  else match rest with
       | Some stream' => ∃ chunks' n,
           record_loop max chunks buffer consumed = (chunks', Ok (Some (buffer ++ line, n))) ∧
           Forall good_chunk chunks' ∧ stream_of chunks' = stream'
       | None => ∃ n, record_loop max chunks buffer consumed =
           ([], match buffer ++ line with [] => Ok None | l => Ok (Some (l, n)) end)
       end.
Proof.
  intros Hmax. revert buffer consumed. induction chunks as [|c chunks IH]; intros buffer consumed Hb Hg.
  { cbn. rewrite app_nil_r. destruct (Z.ltb_spec max (zlen buffer)); [lia|]. exists consumed. by destruct buffer. }
  apply Forall_cons in Hg as [(a & -> & Ha) Hg]. unfold stream_of. rewrite bind_cons. fold (stream_of chunks).
  rewrite break_line_app. destruct a as [|x a]; [done|]. cbn [record_loop].
  destruct (break_line (x :: a)) as [content [rest|]] eqn:Hbr; rewrite sat_add_gt by done.
  - rewrite zlen_app. destruct (Z.ltb_spec max (zlen buffer + zlen content)).
    + eexists _, _. split; [done|]. unfold sat_add. lia.
    + eexists _, _. split; [done|]. split; [|by destruct rest].
      destruct rest; [done|]. constructor; [by eexists|done].
  - apply break_line_none in Hbr as ->. specialize (IH (buffer ++ x :: a)).
    rewrite zlen_app in IH. destruct (break_line (stream_of chunks)) as [line rest].
    assert (zlen (buffer ++ (x :: a) ++ line) = zlen ((buffer ++ x :: a) ++ line)) as Hz by by rewrite app_assoc.
    rewrite Hz. destruct (Z.ltb_spec max (zlen buffer + zlen (x :: a))) as [Hlt|Hle].
    + destruct (Z.ltb_spec max (zlen ((buffer ++ x :: a) ++ line))) as [_|Hz'].
      * eexists _, _. split; [done|]. unfold sat_add. lia.
      * rewrite !zlen_app in Hz'. pose proof (zlen_nonneg line). lia.
    + rewrite (app_assoc buffer). apply IH; [lia|done].
Qed.

(** One record of a stream that is not at its end. *)
Lemma next_record_spec r :
  jr_max_record_bytes r < usize_max → 0 ≤ jr_max_record_bytes r → Forall good_chunk (jr_reader r) →
  let '(line, rest) := break_line (stream_of (jr_reader r)) in
  if jr_max_record_bytes r <? zlen line
  then ∃ r' n, next_record r = (r', Err (FrameTooLarge n (jr_max_record_bytes r))) ∧ jr_max_record_bytes r < n
  else match rest with
       | Some stream' => ∃ r', next_record r = (r', Ok (Some (pop_cr line))) ∧
           jr_max_record_bytes r' = jr_max_record_bytes r ∧ Forall good_chunk (jr_reader r') ∧
           stream_of (jr_reader r') = stream'
       | None => ∃ r', next_record r = (r', match line with [] => Ok None | _ => Ok (Some (pop_cr line)) end) ∧
           jr_max_record_bytes r' = jr_max_record_bytes r ∧ jr_reader r' = []
       end.
Proof.
  intros Hmax H0 Hg. pose proof (record_loop_spec (jr_max_record_bytes r) (jr_reader r) [] 0 Hmax H0 Hg) as H.
  unfold next_record. destruct (break_line _) as [line rest]. cbn [app] in H.
  destruct (_ <? zlen line).
  - destruct H as (chunks' & n & -> & Hn). eauto.
  - destruct rest as [stream'|].
    + destruct H as (chunks' & n & -> & Hg' & <-). eexists. split; [done|]. done.
    + destruct H as (n & ->). destruct line; eexists; done.
Qed.

Lemma read_all_lines fuel r :
  jr_max_record_bytes r < usize_max → 0 ≤ jr_max_record_bytes r → Forall good_chunk (jr_reader r) →
  (length (stream_of (jr_reader r)) < fuel)%nat →
  let '(lines, ok) := stream_lines fuel (jr_max_record_bytes r) (stream_of (jr_reader r)) in
  if ok then read_all fuel r = (lines, EndOfStream)
  else ∃ n, read_all fuel r = (lines, Failed (FrameTooLarge n (jr_max_record_bytes r))) ∧ jr_max_record_bytes r < n.
Proof.
  revert r. induction fuel as [|fuel IH]; intros r Hmax H0 Hg Hf; [lia|]. cbn [stream_lines read_all].
  pose proof (next_record_spec r Hmax H0 Hg) as Hn. destruct (stream_of (jr_reader r)) as [|x s] eqn:Hs.
  { cbn [break_line] in Hn. destruct (Z.ltb_spec (jr_max_record_bytes r) (zlen (@nil Z))) as [Hlt|_]; [unfold zlen in Hlt; cbn in Hlt; lia|].
    destruct Hn as (r' & -> & _). done. }
  destruct (break_line (x :: s)) as [line rest] eqn:Hbr. destruct (_ <? zlen line).
  - destruct Hn as (r' & n & -> & ?). eauto.
  - destruct rest as [stream'|].
    + destruct Hn as (r' & -> & Hm & Hg' & Hs'). apply break_line_length in Hbr. cbn in Hbr.
      specialize (IH r'). rewrite Hm, Hs' in IH.
      destruct (stream_lines fuel _ stream') as [lines ok].
      cbn in Hf. specialize (IH ltac:(done) ltac:(done) Hg' ltac:(lia)).
      destruct ok; [by rewrite IH|]. destruct IH as (n & -> & ?). eauto.
    + destruct Hn as (r' & -> & Hm & Hr'). apply break_line_none in Hbr as ->.
      assert (read_all fuel r' = ([], EndOfStream)) as ->; [|done].
      destruct fuel as [|fuel]; [cbn in Hf; lia|]. cbn [read_all]. unfold next_record. rewrite Hr'. done.
Qed.

(** A line: no line feed, at most [max] bytes. *)
Definition fits (max : Z) (line : list Z) : Prop := (LF_byte ∉ line) ∧ zlen line ≤ max.
Definition terminated (lines : list (list Z)) : list Z := lines ≫= λ l, l ++ [LF_byte].

Lemma break_line_spec a content rest :
  break_line a = (content, rest) →
  (LF_byte ∉ content) ∧ a = match rest with Some r => content ++ LF_byte :: r | None => content end.
Proof.
  revert content. induction a as [|x a IH]; intros content; cbn; [intros [= <- <-]; set_solver|].
  destruct (Z.eqb_spec x LF_byte) as [->|Hne]; [intros [= <- <-]; set_solver|].
  destruct (break_line a) as [c r]. intros [= <- <-]. destruct (IH c eq_refl) as [Hc ->].
  split; [set_solver|]. by destruct r.
Qed.

Lemma stream_lines_ok fuel max stream lines :
  0 ≤ max → stream_lines fuel max stream = (lines, true) →
  ∃ raw tail, stream = terminated raw ++ tail ∧ Forall (fits max) raw ∧ fits max tail ∧
    lines = map pop_cr (raw ++ match tail with [] => [] | _ => [tail] end).
Proof.
  intros H0. revert stream lines. induction fuel as [|fuel IH]; intros stream lines; cbn; [done|].
  destruct stream as [|x s].
  { intros [= <-]. exists [], []. split_and!; [done|done| |done]. split; [set_solver|done]. }
  destruct (break_line (x :: s)) as [line rest] eqn:Hbr. apply break_line_spec in Hbr as [Hlf Heq].
  destruct (Z.ltb_spec max (zlen line)); [done|]. destruct rest as [stream'|].
  - destruct (stream_lines fuel max stream') as [ls ok] eqn:Hs. intros [= <- ->].
    apply IH in Hs as (raw & tail & -> & Hf & Ht & ->). exists (line :: raw), tail. split_and!.
    + rewrite Heq. unfold terminated. rewrite bind_cons, <- !app_assoc. done.
    + constructor; [done|done].
    + done.
    + done.
  - intros [= <-]. exists [], line. rewrite Heq. split_and!; [done|done|done|]. by destruct line.
Qed.

Lemma stream_lines_fuel fuel fuel' max stream :
  (length stream < fuel)%nat → (length stream < fuel')%nat →
  stream_lines fuel max stream = stream_lines fuel' max stream.
Proof.
  revert fuel' stream. induction fuel as [|fuel IH]; intros [|fuel'] stream Hf Hf'; try lia. cbn.
  destruct stream as [|x s]; [done|]. destruct (break_line (x :: s)) as [line rest] eqn:Hbr.
  destruct (max <? zlen line); [done|]. destruct rest as [stream'|]; [|done].
  apply break_line_length in Hbr. cbn in Hbr, Hf, Hf'. rewrite (IH fuel' stream') by lia. done.
Qed.

(** C15. The lines read from a pipe do not depend on how its bytes arrive.  For
    any two ways to deliver the same stream in pieces, the reader returns the
    same records and ends the same way, by reading to the end or by refusing a
    line longer than the limit.  When it reads to the end, the records are the
    lines of the stream, without line feeds and one trailing carriage return
    each, with an unterminated last line if there is one. *)
Theorem records_chunk_independent (max : Z) (chunks chunks' : list (result string (list Z))) (fuel fuel' : nat) :
  0 ≤ max < usize_max → Forall good_chunk chunks → Forall good_chunk chunks' →
  stream_of chunks = stream_of chunks' →
  (length (stream_of chunks) < fuel)%nat → (length (stream_of chunks) < fuel')%nat →
  ∃ lines,
    (read_all fuel (with_max_record_bytes chunks max) = (lines, EndOfStream) ∧
     read_all fuel' (with_max_record_bytes chunks' max) = (lines, EndOfStream) ∧
     ∃ raw tail, stream_of chunks = terminated raw ++ tail ∧ Forall (fits max) raw ∧ fits max tail ∧
       lines = map pop_cr (raw ++ match tail with [] => [] | _ => [tail] end)) ∨
    (∃ n n', read_all fuel (with_max_record_bytes chunks max) = (lines, Failed (FrameTooLarge n max)) ∧
             read_all fuel' (with_max_record_bytes chunks' max) = (lines, Failed (FrameTooLarge n' max)) ∧
             max < n ∧ max < n').
Proof.
  intros [H0 Hmax] Hg Hg' Hs Hf Hf'.
  pose proof (read_all_lines fuel (with_max_record_bytes chunks max) Hmax H0 Hg Hf) as H1.
  pose proof (read_all_lines fuel' (with_max_record_bytes chunks' max) Hmax H0 Hg') as H2.
  cbn [with_max_record_bytes jr_reader jr_max_record_bytes] in *. rewrite <- Hs in H2. specialize (H2 Hf').
  assert (stream_lines fuel max (stream_of chunks) = stream_lines fuel' max (stream_of chunks)) as Hsl
    by by apply stream_lines_fuel.
  rewrite <- Hsl in H2. destruct (stream_lines fuel max (stream_of chunks)) as [lines ok] eqn:Hl.
  exists lines. destruct ok.
  - left. split_and!; [done|done|]. by eapply stream_lines_ok.
  - right. destruct H1 as (n & ? & ?), H2 as (n' & ? & ?). eauto 8.
Qed.

Lemma records_chunk_independent_witness :
  read_all 20 (with_max_record_bytes [Ok [97; 13; 10; 98]; Ok [99; 10]] 5) =
    read_all 20 (with_max_record_bytes [Ok [97]; Ok [13; 10]; Ok [98; 99; 10]] 5) ∧
  read_all 20 (with_max_record_bytes [Ok [97; 13; 10; 98]; Ok [99; 10]] 5) = ([[97]; [98; 99]], EndOfStream).
Proof.
  split; [|reflexivity].
  pose proof (records_chunk_independent 5 [Ok [97; 13; 10; 98]; Ok [99; 10]]
    [Ok [97]; Ok [13; 10]; Ok [98; 99; 10]] 20 20) as H.
  destruct H as (lines & [(-> & -> & _)|(n & n' & H & _)]).
  1-6: try (repeat constructor; eexists; split; done); try (cbn; lia); done.
  - done.
  - vm_compute in H. discriminate H.
Defined.

(** ** The tail keeps the last bytes *)

Definition lastn {A} (n : nat) (l : list A) : list A := drop (length l - n) l.

Lemma lastn_app {A} n (a b : list A) : lastn n (lastn n a ++ b) = lastn n (a ++ b).
Proof.
  unfold lastn. rewrite !length_app, !length_drop, !drop_app, !drop_drop, !length_drop.
  f_equal; f_equal; lia.
Qed.

Lemma lastn_all {A} n (l : list A) : (length l ≤ n)%nat → lastn n l = l.
Proof. intros. unfold lastn. replace (length l - n)%nat with 0%nat by lia. done. Qed.

Lemma tail_push_lastn t bytes :
  0 ≤ rt_limit t → zlen (rt_data t) ≤ rt_limit t → zlen (rt_data t) + zlen bytes ≤ usize_max →
  rt_data (tail_push t bytes) = lastn (Z.to_nat (rt_limit t)) (rt_data t ++ bytes) ∧
  rt_limit (tail_push t bytes) = rt_limit t.
Proof.
  unfold tail_push, zlen, sat_add, lastn. intros H0 Hd Hs. rewrite length_app.
  destruct (Z.eqb_spec (rt_limit t) 0) as [Hz|Hz].
  { rewrite Hz in *. assert (rt_data t = []) as -> by (destruct (rt_data t); [done|cbn in Hd; lia]).
    split; [|done]. cbn. symmetry. apply drop_ge. lia. }
  destruct (Z.leb_spec (rt_limit t) (Z.of_nat (length bytes))) as [Hle|Hgt]; cbn.
  - split; [|done]. rewrite drop_app_ge by lia. f_equal. lia.
  - split; [|done]. destruct (Z.ltb_spec 0 (Z.max 0 (Z.min usize_max
      (Z.of_nat (length (rt_data t)) + Z.of_nat (length bytes)) - rt_limit t))).
    + rewrite drop_app_le by lia. f_equal. f_equal. lia.
    + replace (length (rt_data t) + length bytes - Z.to_nat (rt_limit t))%nat with 0%nat by lia. done.
Qed.

Lemma lastn_length {A} n (l : list A) : (length (lastn n l) ≤ n)%nat.
Proof. unfold lastn. rewrite length_drop. lia. Qed.

(** What the thread did: the reads it took, the bytes it kept, why it stopped. *)
Record tail_outcome (limit : Z) (before : list Z) (reads : list (result string (list Z))) (t : TailRead)
    (killed : bool) (taken : list (result string (list Z))) : Prop := {
  tt_taken : Forall good_chunk taken;
  tt_kept : tl_data t = lastn (Z.to_nat limit) (before ++ stream_of taken);
  tt_total : tl_total_bytes t = zlen (before ++ stream_of taken);
  tt_overflow : tl_overflow t = bool_decide (limit < tl_total_bytes t);
  tt_killed : killed = tl_overflow t || bool_decide (is_Some (tl_error t));
  tt_end : ∃ rest, reads = taken ++ rest ∧
    (tl_overflow t = false → match tl_error t with
       | Some e => ∃ r, rest = Err e :: r
       | None => rest = [] ∨ ∃ r, rest = Ok [] :: r
       end);
}.

Lemma tail_reader_outcome limit reads before t :
  0 ≤ limit → rt_limit t = limit → rt_data t = lastn (Z.to_nat limit) before → zlen before ≤ limit →
  zlen before + zlen (stream_of reads) ≤ usize_max →
  ∃ taken, tail_outcome limit before reads (tail_reader reads t (zlen before)).1
             (tail_reader reads t (zlen before)).2 taken.
Proof.
  intros H0. revert before t. induction reads as [|c reads IH]; intros before t Hlim Hdata Hb Hs.
  { exists []. constructor; cbn; rewrite ?app_nil_r; try done.
    - by rewrite bool_decide_false by lia.
    - exists []. auto. }
  destruct c as [bytes|e]; [destruct bytes as [|x bytes]|]; cbn [tail_reader].
  - exists []. constructor; cbn; rewrite ?app_nil_r; try done.
    + by rewrite bool_decide_false by lia.
    + eexists. split; [done|]. eauto.
  - set (b := x :: bytes) in *. change (stream_of (Ok b :: reads)) with (b ++ stream_of reads) in Hs.
    rewrite zlen_app in Hs. pose proof (zlen_nonneg (stream_of reads)).
    assert (sat_add (zlen before) (zlen b) = zlen (before ++ b)) as -> by (unfold sat_add; rewrite zlen_app; lia).
    destruct (tail_push_lastn t b) as [Hpush Hlim']; [lia| | |].
    { rewrite Hdata, Hlim. unfold zlen. pose proof (lastn_length (Z.to_nat limit) before). lia. }
    { rewrite Hdata. unfold zlen, lastn in *. rewrite length_drop. lia. }
    rewrite Hlim, Hdata, lastn_app in Hpush. rewrite Hlim.
    destruct (Z.ltb_spec limit (zlen (before ++ b))) as [Hlt|Hge].
    + exists [Ok b]. constructor; cbn; rewrite ?app_nil_r; try done.
      * constructor; [by exists b|done].
      * by rewrite bool_decide_true.
      * by exists reads.
    + destruct (IH (before ++ b) (tail_push t b)) as (taken & Ho); [congruence|done|done|rewrite zlen_app; lia|].
      exists (Ok b :: taken). destruct Ho as [Ht Hk Htot Hov Hkill (rest & Hr & Hend)].
      assert (before ++ stream_of (Ok b :: taken) = (before ++ b) ++ stream_of taken) as Hst
        by (rewrite <- app_assoc; done).
      constructor; rewrite ?Hst; try done.
      * constructor; [by exists b|done].
      * exists rest. split; [cbn; by rewrite <- Hr|done].
  - exists []. constructor; cbn; rewrite ?app_nil_r; try done.
    + by rewrite bool_decide_false by lia.
    + eexists. split; [done|]. eauto.
Qed.

(** Standard error is bounded and nothing is lost silently.  Whatever is
    read, the thread keeps exactly the last [limit] bytes of what it took and
    counts all of them; it stops at the end of the stream, at a read error or
    as soon as the limit is passed, and kills the process group in the last
    two cases.  A result that is accepted holds the whole stream. *)
Theorem stderr_tail_exact (limit : Z) (reads : list (result string (list Z))) :
  0 ≤ limit → zlen (stream_of reads) ≤ usize_max →
  let r := tail_reader reads {| rt_data := []; rt_limit := limit |} 0 in
  ∃ taken, tail_outcome limit [] reads r.1 r.2 taken ∧
    (validate_stderr_read limit r.1 = Ok tt →
     tl_data r.1 = stream_of taken ∧ zlen (stream_of taken) ≤ limit ∧ r.2 = false ∧
     (reads = taken ∨ ∃ rest, reads = taken ++ Ok [] :: rest)).
Proof.
  intros H0 Hs. cbn zeta.
  destruct (tail_reader_outcome limit reads [] {| rt_data := []; rt_limit := limit |}) as (taken & Ho); [done..|].
  change (zlen []) with 0 in Ho. exists taken. split; [done|].
  destruct Ho as [_ Hk Htot Hov Hkill (rest & Hr & Hend)]. unfold validate_stderr_read.
  destruct (tl_overflow _); [done|]. destruct (tl_error _); [done|]. intros _. cbn [app] in *.
  symmetry in Hov. apply bool_decide_eq_false in Hov. split_and!.
  - rewrite Hk. apply lastn_all. unfold zlen in *. lia.
  - lia.
  - by rewrite Hkill.
  - destruct (Hend eq_refl) as [->|[r ->]]; [left; by rewrite app_nil_r in Hr|right; eauto].
Qed.

Lemma stderr_tail_exact_witness :
  validate_stderr_read 4 (tail_reader [Ok [1; 2]; Ok [3]] {| rt_data := []; rt_limit := 4 |} 0).1 = Ok tt ∧
  ∃ taken, tl_data (tail_reader [Ok [1; 2]; Ok [3]] {| rt_data := []; rt_limit := 4 |} 0).1 = stream_of taken.
Proof.
  split; [reflexivity|].
  destruct (stderr_tail_exact 4 [Ok [1; 2]; Ok [3]]) as (taken & _ & Hok); [lia|vm_compute; discriminate|].
  exists taken. apply Hok. reflexivity.
Defined.

(** ** Launch *)

Definition ENV_DENY : list string :=
  ["OPENROUTER_API_KEY"; "OPENROUTER_BASE_URL"; "OPENAI_API_KEY"; "OPENAI_BASE_URL"; "ANTHROPIC_API_KEY";
   "ANTHROPIC_BASE_URL"; "PI_API_KEY"; "AUTOPILOT_CONTROL_SOCK"; "AUTOPILOT_CONTROL_TOKEN";
   "AUTOPILOT_CONTROL_RUN_ID"; "AUTOPILOT_CONTROL_ASSIGNMENT"; "AUTOPILOT_CONTROL_ATTEMPT";
   "AUTOPILOT_CHILD_CONTROL_SOCKET_PATH"; "AUTOPILOT_CHILD_CONTROL_BROKER_CAPABILITY"].

Inductive LaunchFlagKind := Bare | FlagValue | OptionalAddon.
Record LaunchFlagRow := { lf_id : string; lf_kind : LaunchFlagKind; lf_name : string; lf_value : option string;
                          lf_identity_token : string }.
Definition LAUNCH_FLAGS : list LaunchFlagRow :=
  map (λ '(i, k, n, v, t), {| lf_id := i; lf_kind := k; lf_name := n; lf_value := v; lf_identity_token := t |})
  [("mode", FlagValue, "--mode", Some "rpc", "--mode=<RpcMode>");
   ("session-id", FlagValue, "--session-id", Some "session_id", "--session-id=<SessionId>");
   ("session-dir", FlagValue, "--session-dir", Some "session_dir", "--session-dir=<SessionDir>");
   ("no-extensions", Bare, "--no-extensions", None, "--no-extensions");
   ("addon", OptionalAddon, "-e", Some "runtime_addon", "-e=<RuntimeAddon>");
   ("no-skills", Bare, "--no-skills", None, "--no-skills");
   ("no-prompt-templates", Bare, "--no-prompt-templates", None, "--no-prompt-templates");
   ("no-themes", Bare, "--no-themes", None, "--no-themes");
   ("no-context-files", Bare, "--no-context-files", None, "--no-context-files");
   ("provider", FlagValue, "--provider", Some "provider", "--provider=<Provider>");
   ("model", FlagValue, "--model", Some "model", "--model=<Model>");
   ("thinking", FlagValue, "--thinking", Some "thinking", "--thinking=<Thinking>");
   ("tools", FlagValue, "--tools", Some "tools_csv", "--tools=<Tools>")].

Record DeliveryPolicyLaunchConfig := {
  dp_assignment_path : string; dp_assignment_digest : string; dp_worktree : string; dp_cwd : string;
  dp_assignment_id : string; dp_workstream : string; dp_lane_id : string; dp_attempt : Z;
  dp_base_commit : string; dp_policy_digest : string;
}.
Record ValidationEvidenceLaunchConfig := { ve_context_path : string; ve_context_digest : string; ve_cwd : string }.
Record ChildControlLaunchConfig := {
  cc_socket_path : string; cc_token : string; cc_run_id : string; cc_assignment_id : string; cc_attempt : Z;
  cc_required_pi_version : string;
}.

(** Paths and OS strings as their bytes. *)
Record RpcSpawnConfig := {
  sc_cwd : string; sc_provider : string; sc_model : string; sc_thinking : string; sc_session_id : string;
  sc_session_dir : string; sc_tools : list string; sc_runtime_addon : option string;
  sc_terminal_profile : option string; sc_carrier_binding : option string;
  sc_delivery_policy : option DeliveryPolicyLaunchConfig;
  sc_validation_evidence : option ValidationEvidenceLaunchConfig;
  sc_child_control : option ChildControlLaunchConfig;
  sc_pi_executable : string; sc_stderr_tail_bytes : Z; sc_max_terminal_bytes : Z;
}.

Definition MAX_STDERR_TAIL_BYTES : Z := 256 * 1024.
Definition VALIDATION_PROFILE_ID : string := "validation-status.v3".
Definition REQUIRED_PI_VERSION : string := "0.84.1".

Definition launch_value (name : option string) (c : RpcSpawnConfig) : option string :=
  name ≫= λ name,
  if name =s "rpc" then Some "rpc"
  else if name =s "session_id" then Some (sc_session_id c)
  else if name =s "session_dir" then Some (sc_session_dir c)
  else if name =s "provider" then Some (sc_provider c)
  else if name =s "model" then Some (sc_model c)
  else if name =s "thinking" then Some (sc_thinking c)
  else if name =s "tools_csv" then Some (join "," (sc_tools c))
  else None.

(** [None] is the panic of the [expect]. *)
Definition launch_row (c : RpcSpawnConfig) (row : LaunchFlagRow) : option (list string) :=
  match lf_kind row with
  | Bare => Some [lf_name row]
  | FlagValue => match launch_value (lf_value row) c with Some v => Some [lf_name row; v] | None => None end
  | OptionalAddon => match sc_runtime_addon c with Some addon => Some [lf_name row; addon] | None => Some [] end
  end.
Fixpoint launch_rows (c : RpcSpawnConfig) (rows : list LaunchFlagRow) : option (list string) :=
  match rows with
  | [] => Some []
  | row :: rows' => args ← launch_row c row; args' ← launch_rows c rows'; Some (args ++ args')
  end.
Definition launch_arguments (c : RpcSpawnConfig) : option (list string) := launch_rows c LAUNCH_FLAGS.

Definition settings_identity (with_addon : bool) : string :=
  let tokens := map lf_identity_token (List.filter (λ row, with_addon ||
    match lf_kind row with OptionalAddon => false | _ => true end) LAUNCH_FLAGS) in
  let tokens := if with_addon
    then tokens ++ ["env:AUTOPILOT_TERMINAL_PROFILE=<TerminalProfile>"; "env:AUTOPILOT_CARRIER_BINDING=<CarrierBinding>"]
    else tokens in
  "agent-run-settings:" +:+ join "," tokens +:+ ":v3".

Definition is_lower_hex (a : ascii) : bool := is_ascii_digit a || ((97 <=? code a) && (code a <=? 102)).
Definition is_lower_hex_64 (value : string) : bool := (str_len value =? 64) && str_all is_lower_hex value.
Definition valid_control_identity (value : string) : bool :=
  negb (is_empty value) && (str_len value <=? 512)
  && str_all (λ a, is_ascii_alphanumeric a || (code a =? 45) || (code a =? 95) || (code a =? 46)) value.

(** [is_none_or(str::is_empty)] *)
Definition absent (o : option string) : bool := match o with None => true | Some s => is_empty s end.
Definition is_none {A} (o : option A) : bool := match o with None => true | Some _ => false end.

Section Spawn.
(** Whether the file system has the control socket as the layout demands. *)
Context (socket_path_valid : string → bool).

Definition validate_child_control_config (control : ChildControlLaunchConfig) (c : RpcSpawnConfig)
  : result RpcError unit :=
  if is_none (sc_runtime_addon c) || absent (sc_terminal_profile c) || absent (sc_carrier_binding c)
     || negb (starts_with "/" (cc_socket_path control)) || negb (socket_path_valid (cc_socket_path control))
     || negb (is_lower_hex_64 (cc_token control)) || negb (valid_control_identity (cc_run_id control))
     || negb (valid_control_identity (cc_assignment_id control))
     || negb (cc_required_pi_version control =s REQUIRED_PI_VERSION)
  then Err (ProtocolViolation "V5 child-control launch authority is malformed") else Ok tt.

Definition profile_is (c : RpcSpawnConfig) (name : string) : bool := sc_terminal_profile c =s Some name.

(** The checks of [RpcClient::spawn] before anything is started. *)
Definition spawn_checks (c : RpcSpawnConfig) : result RpcError unit :=
  if MAX_STDERR_TAIL_BYTES <? sc_stderr_tail_bytes c
  then Err (ProtocolViolation ("rpc stderr tail limit must be <= " +:+ show_uint MAX_STDERR_TAIL_BYTES +:+
         ", got " +:+ show_uint (sc_stderr_tail_bytes c)))
  else if (sc_max_terminal_bytes c =? 0) || (DEFAULT_MAX_TERMINAL_BYTES <? sc_max_terminal_bytes c)
  then Err (ProtocolViolation ("rpc terminal byte limit must be within 1..=" +:+
         show_uint DEFAULT_MAX_TERMINAL_BYTES +:+ ", got " +:+ show_uint (sc_max_terminal_bytes c)))
  else if negb (is_none (sc_runtime_addon c)) && (absent (sc_terminal_profile c) || absent (sc_carrier_binding c))
  then Err (ProtocolViolation "runtime add-on requires terminal profile and carrier binding")
  else if profile_is c "delivery-status.v2" && is_none (sc_delivery_policy c)
  then Err (ProtocolViolation "delivery terminal profile requires delivery policy launch config")
  else if negb (profile_is c "delivery-status.v2") && negb (is_none (sc_delivery_policy c))
  then Err (ProtocolViolation "delivery policy launch config on non-delivery profile")
  else if profile_is c VALIDATION_PROFILE_ID && is_none (sc_validation_evidence c)
  then Err (ProtocolViolation "v3 validation profile requires evidence policy launch config")
  else if negb (profile_is c VALIDATION_PROFILE_ID) && negb (is_none (sc_validation_evidence c))
  then Err (ProtocolViolation "validation evidence policy launch config on non-v3 profile")
  else if is_none (sc_runtime_addon c) && (negb (is_none (sc_terminal_profile c)) || negb (is_none (sc_carrier_binding c))
       || negb (is_none (sc_delivery_policy c)) || negb (is_none (sc_validation_evidence c))
       || negb (is_none (sc_child_control c)))
  then Err (ProtocolViolation "terminal profile/binding/policy/control without runtime add-on")
  else match sc_child_control c with
       | Some control => validate_child_control_config control c
       | None => Ok tt
       end.

(** [command.env_remove(key)] and [command.env(key, value)], in the order of the
    code, on the inherited environment. *)
Definition set_all (env : gmap string string) (vars : list (string * string)) : gmap string string :=
  fold_left (λ m '(k, v), <[k := v]> m) vars env.
Definition deny (env : gmap string string) : gmap string string :=
  fold_left (λ m key, delete key m) ENV_DENY env.

Definition delivery_vars (d : DeliveryPolicyLaunchConfig) : list (string * string) :=
  [("AUTOPILOT_DELIVERY_ASSIGNMENT_PATH", dp_assignment_path d);
   ("AUTOPILOT_DELIVERY_ASSIGNMENT_DIGEST", dp_assignment_digest d);
   ("AUTOPILOT_DELIVERY_WORKTREE", dp_worktree d); ("AUTOPILOT_DELIVERY_CWD", dp_cwd d);
   ("AUTOPILOT_DELIVERY_ASSIGNMENT_ID", dp_assignment_id d); ("AUTOPILOT_DELIVERY_WORKSTREAM", dp_workstream d);
   ("AUTOPILOT_DELIVERY_LANE_ID", dp_lane_id d); ("AUTOPILOT_DELIVERY_ATTEMPT", show_uint (dp_attempt d));
   ("AUTOPILOT_DELIVERY_BASE_COMMIT", dp_base_commit d); ("AUTOPILOT_DELIVERY_POLICY_DIGEST", dp_policy_digest d)].
Definition validation_vars (v : ValidationEvidenceLaunchConfig) : list (string * string) :=
  [("AUTOPILOT_VALIDATION_CONTEXT_PATH", ve_context_path v); ("AUTOPILOT_VALIDATION_CONTEXT_DIGEST", ve_context_digest v);
   ("AUTOPILOT_VALIDATION_CWD", ve_cwd v)].
Definition control_vars (k : ChildControlLaunchConfig) : list (string * string) :=
  [("AUTOPILOT_CONTROL_SOCK", cc_socket_path k); ("AUTOPILOT_CONTROL_TOKEN", cc_token k);
   ("AUTOPILOT_CONTROL_RUN_ID", cc_run_id k); ("AUTOPILOT_CONTROL_ASSIGNMENT", cc_assignment_id k);
   ("AUTOPILOT_CONTROL_ATTEMPT", show_uint (cc_attempt k))].

Definition opt_vars {A} (f : A → list (string * string)) (o : option A) : list (string * string) :=
  match o with Some a => f a | None => [] end.
Definition added_vars (c : RpcSpawnConfig) : list (string * string) :=
  opt_vars (λ p, [("AUTOPILOT_TERMINAL_PROFILE", p)]) (sc_terminal_profile c) ++
  opt_vars (λ b, [("AUTOPILOT_CARRIER_BINDING", b)]) (sc_carrier_binding c) ++
  opt_vars delivery_vars (sc_delivery_policy c) ++
  opt_vars validation_vars (sc_validation_evidence c).

(** The environment of the child that a configuration which passes is launched
    with. *)
Definition child_environment (c : RpcSpawnConfig) (inherited : gmap string string) : gmap string string :=
  set_all (set_all (deny inherited) (added_vars c)) (opt_vars control_vars (sc_child_control c)).

Definition spawn_environment (c : RpcSpawnConfig) (inherited : gmap string string)
  : result RpcError (gmap string string) :=
  _ ← spawn_checks c;
  Ok (child_environment c inherited).

End Spawn.

(** ** What a child can see *)

Lemma set_all_other env vars k : k ∉ vars.*1 → set_all env vars !! k = env !! k.
Proof.
  unfold set_all. revert env. induction vars as [|[k' v] vars IH]; intros env Hk; cbn; [done|].
  rewrite IH by set_solver. apply lookup_insert_ne. set_solver.
Qed.

Lemma set_all_in env vars k v : NoDup vars.*1 → (k, v) ∈ vars → set_all env vars !! k = Some v.
Proof.
  unfold set_all. revert env. induction vars as [|[k' v'] vars IH]; intros env Hn Hk; [set_solver|].
  cbn in *. apply NoDup_cons in Hn as [Hn1 Hn2]. apply elem_of_cons in Hk as [[= <- <-]|Hk]; [|by apply IH].
  fold (set_all (<[k:=v]> env) vars). rewrite set_all_other by done. by rewrite lookup_insert_eq.
Qed.

Lemma deny_lookup env k : deny env !! k = if bool_decide (k ∈ ENV_DENY) then None else env !! k.
Proof.
  unfold deny. generalize ENV_DENY as l. intros l. revert env. induction l as [|x l IH]; intros env; cbn.
  - rewrite bool_decide_false; [done|set_solver].
  - rewrite IH. destruct (decide (k = x)) as [->|Hne].
    + rewrite lookup_delete_eq, (bool_decide_true (x ∈ x :: l)) by set_solver. by case_bool_decide.
    + rewrite lookup_delete_ne by done. erewrite bool_decide_ext; [done|]. set_solver.
Qed.

Lemma added_not_denied c k : k ∈ (added_vars c).*1 → k ∉ ENV_DENY.
Proof.
  intros Hk Hd. unfold added_vars in Hk. rewrite !fmap_app in Hk.
  destruct (sc_terminal_profile c), (sc_carrier_binding c), (sc_delivery_policy c), (sc_validation_evidence c);
    cbn in Hk, Hd; set_unfold; naive_solver.
Qed.

Lemma set_all_some env vars k v : set_all env vars !! k = Some v → (k, v) ∈ vars ∨ env !! k = Some v.
Proof.
  unfold set_all. revert env. induction vars as [|[k' v'] vars IH]; intros env; cbn; [auto|].
  intros [?|[[<- <-]|[_ ?]]%lookup_insert_Some]%IH; set_solver.
Qed.

(** A child sees no credential and no control authority it was not given.
    For a configuration that passes the checks, a denied variable is absent
    from the child's environment or is one of the five control variables, with
    the value of the child's own control authority; every other variable was
    added from the configuration or inherited under a name that is not denied.
    Without the runtime add-on nothing is added, and a control authority comes
    with the add-on, a well-formed token and a checked socket. *)
Theorem child_environment_closed (socket_path_valid : string → bool) (c : RpcSpawnConfig)
    (inherited env : gmap string string) :
  spawn_environment socket_path_valid c inherited = Ok env →
  (∀ k v, k ∈ ENV_DENY → env !! k = Some v →
     ∃ control, sc_child_control c = Some control ∧ (k, v) ∈ control_vars control) ∧
  (∀ k v, env !! k = Some v →
     (k, v) ∈ added_vars c ++ opt_vars control_vars (sc_child_control c) ∨
     ((k ∉ ENV_DENY) ∧ inherited !! k = Some v)) ∧
  (sc_runtime_addon c = None → added_vars c = [] ∧ sc_child_control c = None) ∧
  (∀ control, sc_child_control c = Some control →
     is_Some (sc_runtime_addon c) ∧ is_lower_hex_64 (cc_token control) = true ∧
     socket_path_valid (cc_socket_path control) = true ∧
     (∀ k v, (k, v) ∈ control_vars control → env !! k = Some v)).
Proof.
  intros H. unfold spawn_environment in H. apply bind_ok in H as (? & Hchecks & H). injection H as <-.
  assert (∀ k v, child_environment c inherited !! k = Some v →
    (k, v) ∈ opt_vars control_vars (sc_child_control c) ∨ (k, v) ∈ added_vars c ∨
    ((k ∉ ENV_DENY) ∧ inherited !! k = Some v)) as Hsrc.
  { intros k v [?|[?|Hd]%set_all_some]%set_all_some; [by left|right; by left|]. right. right.
    rewrite deny_lookup in Hd. case_bool_decide; done. }
  unfold spawn_checks in Hchecks. repeat match type of Hchecks with
    | (if ?b then Err _ else _) = Ok _ => let H := fresh "Hc" in destruct b eqn:H; [discriminate Hchecks|] end.
  split_and!.
  - intros k v Hk Hv. destruct (Hsrc k v Hv) as [Hc'|[Ha|[? _]]]; [|exfalso|done].
    + destruct (sc_child_control c) as [control|]; [eauto|set_solver].
    + eapply (added_not_denied c k); [|done]. apply list_elem_of_fmap. by exists (k, v).
  - intros k v Hv. destruct (Hsrc k v Hv) as [?|[?|?]]; [left; set_solver..|by right].
  - intros Hnone. unfold added_vars. rewrite Hnone in *. cbn in *.
    destruct (sc_terminal_profile c), (sc_carrier_binding c), (sc_delivery_policy c), (sc_validation_evidence c),
      (sc_child_control c); done.
  - intros control Hcontrol. rewrite Hcontrol in Hchecks. unfold validate_child_control_config in Hchecks.
    apply guard_ok in Hchecks as [Hb _]. to_prop. split_and!; [|done|done|].
    + by destruct (sc_runtime_addon c).
    + intros k v Hkv. unfold child_environment. rewrite Hcontrol. cbn [opt_vars]. apply set_all_in; [|done].
      cbn. repeat (constructor; [set_solver|]). constructor.
Qed.

Definition demo_config : RpcSpawnConfig :=
  {| sc_cwd := "/w"; sc_provider := "openai-codex"; sc_model := "m"; sc_thinking := "high"; sc_session_id := "s";
     sc_session_dir := "/s"; sc_tools := ["read"; "bash"]; sc_runtime_addon := Some "/addon.js";
     sc_terminal_profile := Some "planning"; sc_carrier_binding := Some "b"; sc_delivery_policy := None;
     sc_validation_evidence := None;
     sc_child_control := Some {| cc_socket_path := "/tmp/.pi-ap/0123456789/s";
       cc_token := "0123456789abcdef0123456789abcdef0123456789abcdef0123456789abcdef";
       cc_run_id := "r1"; cc_assignment_id := "a1"; cc_attempt := 1; cc_required_pi_version := "0.84.1" |};
     sc_pi_executable := "pi"; sc_stderr_tail_bytes := 65536; sc_max_terminal_bytes := 4194304 |}.

Lemma child_environment_closed_witness :
  ∃ env, spawn_environment (λ _, true) demo_config {["OPENAI_API_KEY" := "secret"; "PATH" := "/bin"]} = Ok env ∧
    env !! "OPENAI_API_KEY" = None ∧ env !! "PATH" = Some "/bin" ∧ env !! "AUTOPILOT_CONTROL_RUN_ID" = Some "r1".
Proof.
  set (inherited := {["OPENAI_API_KEY" := "secret"; "PATH" := "/bin"]} : gmap string string).
  exists (child_environment demo_config inherited).
  assert (spawn_environment (λ _, true) demo_config inherited = Ok (child_environment demo_config inherited)) as Hs.
  { unfold spawn_environment. replace (spawn_checks (λ _, true) demo_config) with (@Ok RpcError unit tt)
      by (vm_compute; reflexivity). reflexivity. }
  destruct (child_environment_closed (λ _, true) demo_config inherited _ Hs) as (Hdeny & _ & _ & Hctl).
  split_and!; [done| |vm_compute; reflexivity|].
  - destruct (child_environment demo_config inherited !! "OPENAI_API_KEY") as [v|] eqn:Hv; [|done].
    exfalso. apply Hdeny in Hv as (control & [= <-] & Hin); [|apply (bool_decide_eq_true_1 _); vm_compute; reflexivity].
    cbn in Hin. repeat (apply elem_of_cons in Hin as [[=]|Hin]). by apply elem_of_nil in Hin.
  - eapply Hctl; [reflexivity|]. cbn. right. right. by left.
Defined.

Theorem launch_total (c : RpcSpawnConfig) : ∃ args, launch_arguments c = Some args ∧
  (sc_runtime_addon c = None → "-e" ∈ args → "-e" ∈ [sc_session_id c; sc_session_dir c; sc_provider c; sc_model c;
     sc_thinking c; join "," (sc_tools c)]).
Proof.
  unfold launch_arguments. destruct (sc_runtime_addon c) eqn:Ha.
  - eexists. split; [cbn; rewrite Ha; reflexivity|done].
  - eexists. split; [cbn; rewrite Ha; reflexivity|]. intros _. cbn. set_unfold. naive_solver.
Qed.
