(* ===== verification/Roles.v ===== *)
(** * Roles, roster and routes

    [drivers/src/roles/kdl.rs] and [roles/mod.rs]: the block reader of the
    package's data and the role registry.  [drivers/src/roster/mod.rs]: the
    roster of model slots, the capacity of model pools and the guard that lets
    only subscription routes of the roster through. *)

From S2P Require Import Prelude RustColl RustStr Failure Boundary Control.

(** ** The block reader *)

Record Block := { bl_id : string; bl_fields : gmap string (list string) }.

(** The inner loop of [blocks]: the fields up to the closing brace, and the
    lines after it. *)
Fixpoint block_fields (kind id : string) (fields : gmap string (list string)) (line_no : Z) (rest : list string)
  : result string (gmap string (list string) * Z * list string) :=
  match rest with
  | [] => Err (kind +:+ " " +:+ id +:+ ": missing close")
  | child_raw :: rest' =>
      let child := clean_line child_raw in
      if child =s "}" then Ok (fields, line_no + 1, rest')
      else if is_empty child then block_fields kind id fields (line_no + 1) rest'
      else match split_once " " child with
           | None => Err ("line " +:+ show_uint (line_no + 1) +:+ ": missing value")
           | Some (key, values) =>
               block_fields kind id (<[key := parse_values values]> fields) (line_no + 1) rest'
           end
  end.

(** The outer loop; every line is read once, so the number of lines is fuel
    enough. *)
Fixpoint blocks_from (fuel : nat) (kind : string) (line_no : Z) (rest : list string) : result string (list Block) :=
  match fuel, rest with
  | _, [] => Ok []
  | O, _ => Err "out of fuel"
  | S fuel', raw :: rest' =>
      let line := clean_line raw in
      if is_empty line then blocks_from fuel' kind (line_no + 1) rest'
      else match strip_prefix kind line ≫= strip_prefix " " with
           | None => Err ("line " +:+ show_uint (line_no + 1) +:+ ": expected " +:+ kind)
           | Some after =>
               match quoted after with
               | [] => Err ("line " +:+ show_uint (line_no + 1) +:+ ": missing id")
               | id :: _ =>
                   r ← block_fields kind id ∅ (line_no + 1) rest';
                   let '(fields, line_no', rest'') := r in
                   more ← blocks_from fuel' kind line_no' rest'';
                   Ok ({| bl_id := id; bl_fields := fields |} :: more)
               end
           end
  end.

Definition blocks (text kind : string) : result string (list Block) :=
  blocks_from (S (length (lines text))) kind 0 (lines text).

Definition values (fields : gmap string (list string)) (key : string) : list string := default [] (fields !! key).

Fixpoint find_table (id key : string) (bs : list Block) : result string (list string) :=
  match bs with
  | [] => Err ("missing table " +:+ id)
  | b :: bs' =>
      if bl_id b =s id then
        match values (bl_fields b) key with
        | [] => Err (id +:+ ": missing " +:+ key)
        | vs => Ok vs
        end
      else find_table id key bs'
  end.
Definition table_values (text id key : string) : result string (list string) :=
  bs ← blocks text "table"; find_table id key bs.

(** [trim_matches] with the double quote *)
Fixpoint strip_quotes (s : string) : string :=
  match s with String c s' => if ascii_dec c DQUOTE then strip_quotes s' else s | "" => "" end.
Definition trim_quotes (s : string) : string := str_rev (strip_quotes (str_rev (strip_quotes s))).

Definition attr (attrs name : string) : option string :=
  match omap (λ a, strip_prefix name a) (split_whitespace attrs) with
  | value :: _ => Some (trim_quotes value)
  | [] => None
  end.

(** ** Shipped data; the double quote is written as a back quote *)

Definition ROLE_REGISTRY_KDL : string := kdl
"// package-owned role registry; generated output is derived from this file, not edited manually
role `onboard` {
  schema `autopilot.role.v1`
  version 1
  modes `thin-intake`
  model_slot `reasoning`
  thinking `xhigh`
  tools `read` `autopilot_submit_onboard`
  repository `bounded read-only`
  git `read-only`
  network `denied`
  package_state `denied`
  operator_checkout `denied`
  context_policy `onboard.v1`
  result_contract `onboard.v1`
  checkpoint_contract `agent-checkpoint.v1`
  terminal_path `autopilot_submit_onboard`
}
role `orchestrator` {
  schema `autopilot.role.v1`
  version 1
  modes `planning-control` `execution-control`
  model_slot `control`
  thinking `high`
  tools `bg_run` `bg_status` `bg_logs` `bg_kill` `controller_action_ack`
  repository `none`
  git `denied`
  network `denied`
  package_state `denied`
  operator_checkout `denied`
  context_policy `orchestrator.v1`
  result_contract `orchestrator.v1`
  checkpoint_contract `agent-checkpoint.v1`
  terminal_path `Controller action acknowledgement`
}
role `task-extractor` {
  schema `autopilot.role.v1`
  version 1
  modes `inventory`
  mode_parameters `WORK` `DECISION` `CONSTRAINT` `ACCEPTANCE` `PREMISE` `QUESTION` `REFERENCE`
  model_slot `extraction`
  thinking `high`
  tools `read` `grep` `find` `ls` `autopilot_submit_atoms`
  repository `task-authority read-only`
  git `read-only`
  network `denied`
  package_state `denied`
  operator_checkout `denied`
  context_policy `task-extractor.v1`
  result_contract `task-extractor.v1`
  checkpoint_contract `agent-checkpoint.v1`
  terminal_path `autopilot_submit_atoms`
}
role `repository-scout` {
  schema `autopilot.role.v1`
  version 1
  modes `initial-grounding` `targeted-followup`
  model_slot `coding`
  thinking `high`
  tools `read` `grep` `find` `ls` `autopilot_submit_scout_report`
  repository `repository read-only`
  git `read-only`
  network `denied`
  package_state `denied`
  operator_checkout `denied`
  context_policy `repository-scout.v1`
  result_contract `repository-scout.v1`
  checkpoint_contract `agent-checkpoint.v1`
  terminal_path `autopilot_submit_scout_report`
}
role `contradiction-resolver` {
  schema `autopilot.role.v1`
  version 1
  modes `fact-resolution`
  model_slot `reasoning`
  thinking `xhigh`
  tools `read` `grep` `find` `ls` `autopilot_submit_resolution`
  repository `exact evidence scope, read-only`
  git `read-only`
  network `denied`
  package_state `denied`
  operator_checkout `denied`
  context_policy `contradiction-resolver.v1`
  result_contract `contradiction-resolver.v1`
  checkpoint_contract `agent-checkpoint.v1`
  terminal_path `autopilot_submit_resolution`
}
role `plan-compiler` {
  schema `autopilot.role.v1`
  version 1
  modes `initial-plan` `unit-spec-patch` `cluster-amendment`
  model_slot `reasoning`
  thinking `xhigh`
  tools `read` `grep` `find` `ls` `autopilot_submit_plan_cluster`
  repository `planning artifacts read-only`
  git `read-only`
  network `denied`
  package_state `denied`
  operator_checkout `denied`
  context_policy `plan-compiler.v1`
  result_contract `plan-compiler.v1`
  checkpoint_contract `agent-checkpoint.v1`
  terminal_path `autopilot_submit_plan_cluster`
}
role `context-synthesizer` {
  schema `autopilot.role.v1`
  version 1
  modes `initial-dossier` `dossier-delta`
  model_slot `reasoning`
  thinking `xhigh`
  tools `read` `grep` `find` `ls` `autopilot_submit_synthesis`
  repository `complete Scout ledger read-only`
  git `read-only`
  network `denied`
  package_state `denied`
  operator_checkout `denied`
  context_policy `context-synthesizer.v1`
  result_contract `context-synthesizer.v1`
  checkpoint_contract `agent-checkpoint.v1`
  terminal_path `autopilot_submit_synthesis`
}
role `plan-synthesizer` {
  schema `autopilot.role.v1`
  version 1
  modes `initial-plan` `affected-scope`
  model_slot `reasoning`
  thinking `xhigh`
  tools `read` `grep` `find` `ls` `autopilot_submit_synthesis`
  repository `complete compiler/trace ledger read-only`
  git `read-only`
  network `denied`
  package_state `denied`
  operator_checkout `denied`
  context_policy `plan-synthesizer.v1`
  result_contract `plan-synthesizer.v1`
  checkpoint_contract `agent-checkpoint.v1`
  terminal_path `autopilot_submit_synthesis`
}
role `plan-reviewer` {
  schema `autopilot.role.v1`
  version 1
  modes `full-review` `delta-review`
  model_slot `review`
  thinking `xhigh`
  tools `read` `grep` `find` `ls` `bash` `autopilot_submit_review`
  repository `canonical planning artifacts read-only`
  git `read-only`
  network `denied`
  package_state `denied`
  operator_checkout `denied`
  context_policy `plan-reviewer.v1`
  result_contract `plan-reviewer.v1`
  checkpoint_contract `agent-checkpoint.v1`
  terminal_path `autopilot_submit_review`
  boundary_prompts `validation_verdict` `finding`
}
role `context-curator` {
  schema `autopilot.role.v1`
  version 1
  modes `discovery-navigation` `planning-context` `execution-context`
  model_slot `reasoning`
  thinking `xhigh`
  tools `read` `autopilot_submit_context`
  repository `bounded catalog/artifact read-only`
  git `read-only`
  network `denied`
  package_state `denied`
  operator_checkout `denied`
  context_policy `context-curator.v1`
  result_contract `context-curator.v1`
  checkpoint_contract `agent-checkpoint.v1`
  terminal_path `autopilot_submit_context`
}
role `execution-allocator` {
  schema `autopilot.role.v1`
  version 1
  modes `initial-allocation` `delta-allocation`
  model_slot `reasoning`
  thinking `xhigh`
  tools `read` `autopilot_submit_allocation`
  repository `Allocation Dossier only`
  git `read-only`
  network `denied`
  package_state `denied`
  operator_checkout `denied`
  context_policy `execution-allocator.v1`
  result_contract `execution-allocator.v1`
  checkpoint_contract `agent-checkpoint.v1`
  terminal_path `autopilot_submit_allocation`
  boundary_prompts `allocation_lane_proposal`
}
role `implementer` {
  schema `autopilot.role.v1`
  version 1
  modes `lane-delivery`
  model_slot `coding`
  thinking `high`
  tools `read` `grep` `find` `ls` `autopilot_run_approved_command` `edit` `write` `autopilot_set_executable` `autopilot_emit_status`
  repository `assigned sparse worktree read/write`
  git `read-only`
  network `denied`
  package_state `denied`
  operator_checkout `denied`
  context_policy `implementer.v1`
  result_contract `implementer.v1`
  checkpoint_contract `agent-checkpoint.v1`
  terminal_path `autopilot_emit_status`
  boundary_prompts `delivery_result`
}
role `validator` {
  schema `autopilot.role.v1`
  version 1
  modes `forward-release` `deep-closure` `delta-revalidation` `conflict-review` `final-review`
  model_slot `review`
  thinking `xhigh`
  tools `read` `autopilot_request_test` `autopilot_emit_status`
  repository `exact citation-bound evidence read-only`
  git `read-only`
  network `denied`
  package_state `denied`
  operator_checkout `denied`
  context_policy `validator.v1`
  result_contract `validator.v1`
  checkpoint_contract `agent-checkpoint.v1`
  terminal_path `autopilot_emit_status`
  boundary_prompts `validation_submission_v3`
}
role `fixer-integrator` {
  schema `autopilot.role.v1`
  version 1
  modes `forward-critical` `closure-repair` `failed-test` `conflict-resolution`
  model_slot `coding`
  thinking `high`
  tools `read` `grep` `find` `ls` `autopilot_run_approved_command` `edit` `write` `autopilot_set_executable` `autopilot_emit_status`
  repository `assigned sparse repair/integration worktree`
  git `read-only`
  network `denied`
  package_state `denied`
  operator_checkout `denied`
  context_policy `fixer-integrator.v1`
  result_contract `fixer-integrator.v1`
  checkpoint_contract `agent-checkpoint.v1`
  terminal_path `autopilot_emit_status`
  boundary_prompts `delivery_result`
}
role `recovery-engineer` {
  schema `autopilot.role.v1`
  version 1
  modes `planning-repair` `forward-critical` `closure-repair` `failed-test` `conflict-resolution`
  model_slot `reasoning`
  thinking `xhigh`
  tools `read` `grep` `find` `ls` `autopilot_run_approved_command` `edit` `write` `autopilot_set_executable` `autopilot_emit_status`
  repository `phase-bound repair target within original authority`
  git `read-only`
  network `denied`
  package_state `denied`
  operator_checkout `denied`
  context_policy `recovery-engineer.v1`
  result_contract `recovery-engineer.v1`
  checkpoint_contract `agent-checkpoint.v1`
  terminal_path `autopilot_emit_status`
  boundary_prompts `work_map` `delivery_result`
}
role `bughunter` {
  schema `autopilot.role.v1`
  version 1
  modes `final-bughunt`
  model_slot `review`
  thinking `xhigh`
  tools `read` `grep` `find` `ls` `bash` `autopilot_emit_status`
  repository `exact final candidate read-only`
  git `read-only`
  network `denied`
  package_state `denied`
  operator_checkout `denied`
  context_policy `bughunter.v1`
  result_contract `bughunter.v1`
  checkpoint_contract `agent-checkpoint.v1`
  terminal_path `autopilot_emit_status`
  boundary_prompts `validation_verdict` `finding`
}
".

Definition DRIVER_TABLES_KDL : string := kdl
"// declarative driver tables moved out of Rust for D79 S2 headroom

table `prompt.base-sections` {
  values `Role and objective` `Authority and required read order` `Responsibilities` `Operating procedure` `Quality and evidence requirements` `Prohibited actions and non-goals` `Context gaps and checkpoint behavior` `Terminal result`
}

table `prompt.mode-sections` {
  values `Mode objective` `Additional context` `Mode procedure` `Mode evidence`
}

table `planning.d72-question-classes` {
  values `invalidated-decision` `missing-material-decision` `material-underdetermination` `dod-hole` `unsafe-irreversible`
}

table `planning.mode-parameter-atom-kind` {
  row parameter=`WORK` planning_atom_kind=`work`
  row parameter=`DECISION` planning_atom_kind=`decision`
  row parameter=`CONSTRAINT` planning_atom_kind=`constraint`
  row parameter=`ACCEPTANCE` planning_atom_kind=`acceptance`
  row parameter=`PREMISE` planning_atom_kind=`premise`
  row parameter=`QUESTION` planning_atom_kind=`question`
  row parameter=`REFERENCE` planning_atom_kind=`reference`
}
".

Definition ROSTER_KDL : string := kdl
"// default subscription-only roster frozen by D76 section 3
slot `control` {
  provider `openai-codex`
  model `gpt-5.6-terra`
  thinking `high`
  route `subscription`
  roles `orchestrator`
}
slot `reasoning` {
  provider `openai-codex`
  model `gpt-5.6-sol`
  thinking `xhigh`
  route `subscription`
  roles `onboard` `contradiction-resolver` `plan-compiler` `context-synthesizer` `plan-synthesizer` `context-curator` `execution-allocator` `recovery-engineer`
}
slot `extraction` {
  provider `openai-codex`
  model `gpt-5.5`
  thinking `high`
  route `subscription`
  roles `task-extractor`
}
slot `coding` {
  provider `openai-codex`
  model `gpt-5.5`
  thinking `high`
  route `subscription`
  roles `repository-scout` `implementer` `fixer-integrator`
}
slot `review` {
  provider `openai-codex`
  model `gpt-5.5`
  thinking `xhigh`
  route `subscription`
  roles `plan-reviewer` `validator` `bughunter`
}
".

Definition CONCURRENCY_KDL : string := kdl
"// Upstream capacity pools for child-agent launch.
//
// Concurrency is keyed by provider+model, not by roster slot: one model is
// routinely shared by several slots (gpt-5.5 serves extraction, coding, and
// review), so a per-slot limit would split a single upstream quota into
// independent budgets that can still overrun it together.
//
// Exceeding a pool is a launch-side failure, not a content failure: the
// provider refuses the request with `servers are currently overloaded`,
// bills zero tokens, and returns no assistant text. No prompt change can fix
// it, so the width must be bounded before launch.
//
// max: maximum child agents in flight against this pool at one time.
pool `openai-codex/gpt-5.6-sol` {
  provider `openai-codex`
  model `gpt-5.6-sol`
  max `2`
}
pool `openai-codex/gpt-5.6-terra` {
  provider `openai-codex`
  model `gpt-5.6-terra`
  max `2`
}
pool `openai-codex/gpt-5.5` {
  provider `openai-codex`
  model `gpt-5.5`
  max `7`
}
".

(** ** Roles *)

Record Role := {
  ro_id : string; ro_version : Z; ro_modes : list string; ro_mode_parameters : list string;
  ro_model_slot : string; ro_thinking : string; ro_tools : list string; ro_repository : string;
  ro_git : string; ro_network : string; ro_package_state : string; ro_operator_checkout : string;
  ro_context_policy : string; ro_result_contract : string; ro_checkpoint_contract : string;
  ro_terminal_path : string; ro_boundary_prompts : list string;
}.

Definition RoleRegistry := gmap string Role.

Inductive RoleError :=
  | RoleMalformed (what : string)
  | RoleDuplicate (id : string)
  | RoleMissing (what : string)
  | EmptyModeParameter (role_id : string)
  | DuplicateModeParameter (role_id value : string)
  | UnknownModeParameterMapping (parameter : string)
  | MissingModeParameterMapping (parameter : string)
  | InvalidPlanningAtomKind (parameter value : string)
  | RoleContextPolicy (what : string).

Inductive PlanningAtomKind := Acceptance | Constraint_ | Decision_ | Premise | Question | Reference | Work.

(** The string a kind is deserialised from. *)
Definition atom_kind_of (value : string) : option PlanningAtomKind :=
  if value =s "acceptance" then Some Acceptance else if value =s "constraint" then Some Constraint_
  else if value =s "decision" then Some Decision_ else if value =s "premise" then Some Premise
  else if value =s "question" then Some Question else if value =s "reference" then Some Reference
  else if value =s "work" then Some Work else None.

Definition validate_mode_parameters (role : Role) : result RoleError unit :=
  fold_res (λ (seen : gset string) value,
    if blank value then Err (EmptyModeParameter (ro_id role))
    else if bool_decide (value ∈ seen) then Err (DuplicateModeParameter (ro_id role) value)
    else Ok ({[value]} ∪ seen)) ∅ (ro_mode_parameters role) ≫= λ _, Ok tt.

Definition parse_row_attrs (text : string) : result RoleError (gmap string string) :=
  fold_res (λ (attrs : gmap string string) part,
    match split_once "=" part with
    | None => Err (RoleMalformed ("bad row attribute " +:+ part))
    | Some (key, raw_value) =>
        let value := trim_quotes raw_value in
        if is_empty value then Err (RoleMalformed ("empty row attribute " +:+ key))
        else if bool_decide (is_Some (attrs !! key)) then Err (RoleMalformed ("duplicate row attribute " +:+ key))
        else Ok (<[key := value]> attrs)
    end) ∅ (split_whitespace text).

(** [line.trim_start_matches(p)] *)
Fixpoint trim_start_matches (fuel : nat) (p s : string) : string :=
  match fuel with
  | O => s
  | S fuel' => match strip_prefix p s with Some s' => trim_start_matches fuel' p s' | None => s end
  end.
Definition trim_prefix (p s : string) : string := trim_start_matches (S (String.length s)) p s.

Definition atom_kind_row (rows : gmap string PlanningAtomKind) (line : string)
  : result RoleError (gmap string PlanningAtomKind) :=
  attrs ← parse_row_attrs (trim_prefix "row " line);
  parameter ← ok_or (attrs !! "parameter") (RoleMalformed "mode parameter row missing parameter");
  value ← ok_or (attrs !! "planning_atom_kind") (RoleMalformed "mode parameter row missing planning_atom_kind");
  kind ← ok_or (atom_kind_of value) (InvalidPlanningAtomKind parameter value);
  if bool_decide (is_Some (rows !! parameter))
  then Err (DuplicateModeParameter "planning.mode-parameter-atom-kind" parameter)
  else Ok (<[parameter := kind]> rows).

(** The loop over the lines: before the table, or in it. *)
Fixpoint atom_kind_rows (in_table : bool) (rows : gmap string PlanningAtomKind) (rest : list string)
  : result RoleError (gmap string PlanningAtomKind) :=
  match rest with
  | [] => Ok rows
  | raw :: rest' =>
      let line := clean_line raw in
      if is_empty line then atom_kind_rows in_table rows rest'
      else if negb in_table then
        atom_kind_rows (line =s kdl "table `planning.mode-parameter-atom-kind` {") rows rest'
      else if line =s "}" then Ok rows
      else if negb (starts_with "row " line)
      then Err (RoleMalformed ("planning.mode-parameter-atom-kind: expected row, got " +:+ line))
      else rows' ← atom_kind_row rows line; atom_kind_rows true rows' rest'
  end.

(** The driver tables are an argument here; the package passes
    [DRIVER_TABLES_KDL]. *)
Definition parse_parameter_atom_kind_rows (tables : string) : result RoleError (gmap string PlanningAtomKind) :=
  rows ← atom_kind_rows false ∅ (lines tables);
  if bool_decide (rows = ∅) then Err (RoleMalformed "missing table planning.mode-parameter-atom-kind") else Ok rows.

Definition declared_parameters (roles : RoleRegistry) : gset string :=
  list_to_set (btree_values roles ≫= ro_mode_parameters).

Definition check_parameters (declared : gset string) (mappings : gmap string PlanningAtomKind) : result RoleError unit :=
  _ ← for_each (λ parameter, ensure (bool_decide (is_Some (mappings !! parameter)))
                  (MissingModeParameterMapping parameter)) (btree_set declared);
  for_each (λ parameter, ensure (bool_decide (parameter ∈ declared)) (UnknownModeParameterMapping parameter))
    (btree_keys mappings).

Definition validate_mode_parameter_atom_kind_table (tables : string) (roles : RoleRegistry) : result RoleError unit :=
  mappings ← parse_parameter_atom_kind_rows tables;
  check_parameters (declared_parameters roles) mappings.

Definition field (b : Block) (key : string) : result RoleError string := map_err RoleMalformed (one (bl_fields b) key).

Definition role_of (b : Block) : result RoleError Role :=
  schema ← field b "schema";
  if negb (schema =s "autopilot.role.v1") then Err (RoleMalformed (bl_id b +:+ ": bad schema"))
  else
    version_text ← field b "version";
    version ← ok_or (parse_uint u32_max version_text) (RoleMalformed (bl_id b +:+ ": bad version"));
    model_slot ← field b "model_slot";
    thinking ← field b "thinking";
    repository ← field b "repository";
    git ← field b "git";
    network ← field b "network";
    package_state ← field b "package_state";
    operator_checkout ← field b "operator_checkout";
    context_policy ← field b "context_policy";
    result_contract ← field b "result_contract";
    checkpoint_contract ← field b "checkpoint_contract";
    terminal_path ← field b "terminal_path";
    Ok {| ro_id := bl_id b; ro_version := version; ro_modes := values (bl_fields b) "modes";
          ro_mode_parameters := values (bl_fields b) "mode_parameters"; ro_model_slot := model_slot;
          ro_thinking := thinking; ro_tools := values (bl_fields b) "tools"; ro_repository := repository;
          ro_git := git; ro_network := network; ro_package_state := package_state;
          ro_operator_checkout := operator_checkout; ro_context_policy := context_policy;
          ro_result_contract := result_contract; ro_checkpoint_contract := checkpoint_contract;
          ro_terminal_path := terminal_path; ro_boundary_prompts := values (bl_fields b) "boundary_prompts" |}.

Definition add_role (roles : RoleRegistry) (b : Block) : result RoleError RoleRegistry :=
  role ← role_of b;
  if (ro_version role =? 0) || (ro_modes role =s []) then Err (RoleMissing (ro_id role))
  else
    _ ← validate_mode_parameters role;
    if bool_decide (is_Some (roles !! bl_id b)) then Err (RoleDuplicate (bl_id b))
    else Ok (<[bl_id b := role]> roles).

Definition parse_roles (tables text : string) : result RoleError RoleRegistry :=
  bs ← map_err RoleMalformed (blocks text "role");
  roles ← fold_res add_role ∅ bs;
  if bool_decide (roles = ∅) then Err (RoleMissing "roles")
  else
    _ ← validate_mode_parameter_atom_kind_table tables roles;
    Ok roles.

Inductive ModeParameterAllocationError :=
  | ModeParameterCardinality (role_id : string) (parameter_count assignment_count : Z).

Definition allocate_mode_parameters (role : Role) (assignment_count : nat)
  : result ModeParameterAllocationError (list (option string)) :=
  if ro_mode_parameters role =s [] then Ok (replicate assignment_count None)
  else if bool_decide (length (ro_mode_parameters role) = assignment_count)
  then Ok (map Some (ro_mode_parameters role))
  else Err (ModeParameterCardinality (ro_id role) (zlen (ro_mode_parameters role)) (Z.of_nat assignment_count)).

(** ** Roster *)

Record Slot := { sl_name : string; sl_provider : string; sl_model : string; sl_thinking : string;
                 sl_route : string; sl_roles : list string }.
Record Route := { rt_provider : string; rt_model : string; rt_thinking : string; rt_subscription : bool }.
Record Roster := { rs_slots : gmap string Slot; rs_concurrency : gmap (string * string) Z }.

Inductive RosterError :=
  | RosterMalformed (what : string)
  | RosterMissing (what : string)
  | RosterDuplicate (what : string)
  | MissingConcurrency (provider model : string).

Definition roster_field (b : Block) (key : string) : result RosterError string :=
  map_err RosterMalformed (one (bl_fields b) key).

Definition add_slot (slots : gmap string Slot) (b : Block) : result RosterError (gmap string Slot) :=
  provider ← roster_field b "provider";
  model ← roster_field b "model";
  thinking ← roster_field b "thinking";
  route ← roster_field b "route";
  if bool_decide (is_Some (slots !! bl_id b)) then Err (RosterDuplicate (bl_id b))
  else Ok (<[bl_id b := {| sl_name := bl_id b; sl_provider := provider; sl_model := model; sl_thinking := thinking;
                           sl_route := route; sl_roles := values (bl_fields b) "roles" |}]> slots).

Definition add_pool (concurrency : gmap (string * string) Z) (b : Block)
  : result RosterError (gmap (string * string) Z) :=
  provider ← roster_field b "provider";
  model ← roster_field b "model";
  raw ← roster_field b "max";
  max ← ok_or (parse_uint usize_max raw) (RosterMalformed ("concurrency max not a number: " +:+ raw));
  if max =? 0 then Err (RosterMalformed ("zero concurrency for " +:+ provider +:+ "/" +:+ model))
  else if bool_decide (is_Some (concurrency !! (provider, model))) then Err (RosterDuplicate "concurrency")
  else Ok (<[(provider, model) := max]> concurrency).

Definition parse_roster (text : string) : result RosterError Roster :=
  bs ← map_err RosterMalformed (blocks text "slot");
  slots ← fold_res add_slot ∅ bs;
  if bool_decide (slots = ∅) then Err (RosterMissing "slots")
  else
    ps ← map_err RosterMalformed (blocks CONCURRENCY_KDL "pool");
    concurrency ← fold_res add_pool ∅ ps;
    _ ← for_each (λ slot, ensure (bool_decide (is_Some (concurrency !! (sl_provider slot, sl_model slot))))
                    (MissingConcurrency (sl_provider slot) (sl_model slot))) (btree_values slots);
    Ok {| rs_slots := slots; rs_concurrency := concurrency |}.

Definition roster_package : result RosterError Roster := parse_roster ROSTER_KDL.

Definition concurrency_for (r : Roster) (provider model : string) : result RosterError Z :=
  ok_or (rs_concurrency r !! (provider, model)) (MissingConcurrency provider model).

Definition concurrency_for_role (r : Roster) (role : string) : result RosterError Z :=
  slot ← ok_or (find_first (λ slot, any (λ item, item =s role) (sl_roles slot)) (btree_values (rs_slots r)))
           (RosterMissing ("role " +:+ role));
  concurrency_for r (sl_provider slot) (sl_model slot).

Definition roster_get (r : Roster) (slot : string) : result RosterError Slot :=
  ok_or (rs_slots r !! slot) (RosterMissing slot).

Definition slot_route (s : Slot) : Route :=
  {| rt_provider := sl_provider s; rt_model := sl_model s; rt_thinking := sl_thinking s;
     rt_subscription := sl_route s =s "subscription" |}.

Definition route_boundary : BoundaryDescriptor :=
  {| bd_id := "route.metered-frontier.v1"; bd_producer := PPackage;
     bd_admits := "Only openai-codex subscription/OAuth routes with the exact roster provider, model, and thinking may cross before spend. API-keyed/OpenRouter or other metered frontier routes are Unsafe(MeteredFrontierRoute).";
     bd_mode := Enforce |}.

Definition roster_contains (route : Route) : bool :=
  match roster_package with
  | Ok roster => any (λ slot, (sl_provider slot =s rt_provider route) && (sl_model slot =s rt_model route)
                         && (sl_thinking slot =s rt_thinking route) && (sl_route slot =s "subscription"))
                   (btree_values (rs_slots roster))
  | Err _ => false
  end.

Definition admit_route (route : Route) : result Rejection Route :=
  _ ← (if negb (rt_subscription route) || negb (rt_provider route =s "openai-codex") || negb (roster_contains route)
       then reject_declared route_boundary
              ("unsafe-route:" +:+ rt_provider route +:+ "/" +:+ rt_model route +:+ ":" +:+ rt_thinking route)
       else Ok tt);
  Ok route.

Definition guard_route (route : Route) : result Failure Route :=
  map_err (λ _, Unsafe MeteredFrontierRoute) (admit_route route).

(** ** What a parsed roster promises *)

Lemma slots_named bs slots :
  fold_res add_slot ∅ bs = Ok slots → ∀ name s, slots !! name = Some s → sl_name s = name.
Proof.
  apply (fold_res_inv _ (λ _ slots, ∀ name s, slots !! name = Some s → sl_name s = name)); [done|].
  intros _ b s s' IH _ H name sl. unfold add_slot in H. inv_ok.
  intros [[<- <-]|[_ ?]]%lookup_insert_Some; [done|by apply IH].
Qed.

Lemma digits_value_nonneg acc s v : 0 ≤ acc → digits_value acc s = Some v → 0 ≤ v.
Proof.
  revert acc. induction s as [|a s IH]; intros acc Ha; cbn; [by intros [= <-]|].
  destruct (is_ascii_digit a) eqn:Hd; [|done]. apply IH. unfold is_ascii_digit in Hd. lia.
Qed.

Lemma parse_uint_range max s v : parse_uint max s = Some v → 0 ≤ v ≤ max.
Proof.
  unfold parse_uint. destruct (is_empty _); [done|]. destruct (digits_value 0 _) as [w|] eqn:Hw; [|done].
  destruct (Z.leb_spec w max); [|done]. intros [= <-]. split; [by eapply digits_value_nonneg|done].
Qed.

Lemma pools_positive ps pools :
  fold_res add_pool ∅ ps = Ok pools → ∀ k max, pools !! k = Some max → 0 < max.
Proof.
  apply (fold_res_inv _ (λ _ pools, ∀ k max, pools !! k = Some max → 0 < max)); [done|].
  intros _ b s s' IH _ H k max. unfold add_pool in H. inv_ok.
  intros [[<- <-]|[_ ?]]%lookup_insert_Some; [|by eapply IH].
  match goal with Hp : parse_uint _ _ = Some ?m |- _ => pose proof (parse_uint_range _ _ _ Hp) end. lia.
Qed.

(** Every slot of a roster has a pool with room, and so has every role a slot
    serves. *)
Theorem roster_has_capacity (text : string) (r : Roster) :
  parse_roster text = Ok r →
  rs_slots r ≠ ∅ ∧
  ∀ name s, rs_slots r !! name = Some s →
    sl_name s = name ∧
    (∃ max, concurrency_for r (sl_provider s) (sl_model s) = Ok max ∧ 0 < max) ∧
    ∀ role, role ∈ sl_roles s → ∃ max, concurrency_for_role r role = Ok max ∧ 0 < max.
Proof.
  intros H. unfold parse_roster in H. apply bind_ok in H as (bs & _ & H). apply bind_ok in H as (slots & Hslots & H).
  apply guard_ok in H as [Hne H]. apply bind_ok in H as (ps & _ & H). apply bind_ok in H as (pools & Hpools & H).
  apply bind_ok in H as (? & Hall & H). injection H as <-. to_prop. cbn. split; [done|].
  assert (∀ s, s ∈ btree_values slots → ∃ max,
    concurrency_for {| rs_slots := slots; rs_concurrency := pools |} (sl_provider s) (sl_model s) = Ok max ∧ 0 < max)
    as Hpool.
  { intros s Hs. rewrite for_each_ok, Forall_forall in Hall. specialize (Hall s Hs). apply ensure_ok in Hall.
    apply bool_decide_eq_true in Hall as [max Hmax]. exists max. unfold concurrency_for. cbn. rewrite Hmax.
    split; [done|]. by eapply pools_positive. }
  intros name s Hs. split_and!; [by eapply slots_named|apply Hpool, elem_of_btree_values; eauto|].
  intros role Hrole. unfold concurrency_for_role. cbn.
  destruct (find_first _ (btree_values slots)) as [s'|] eqn:Hf.
  - apply find_first_some in Hf as [Hin _]. cbn. by apply Hpool.
  - exfalso. rewrite find_first_none in Hf. specialize (Hf s ltac:(apply elem_of_btree_values; eauto)). cbn in Hf.
    rewrite any_false in Hf. specialize (Hf role Hrole). by to_prop.
Qed.

(** ** The shipped roster *)

(** The models and efforts of the shipped subscription slots. *)
Definition rostered : list (string * string) :=
  [("gpt-5.6-terra", "high"); ("gpt-5.6-sol", "xhigh"); ("gpt-5.5", "high"); ("gpt-5.5", "xhigh")].

Lemma roster_contains_spec route :
  roster_contains route = true ↔
  rt_provider route = "openai-codex" ∧ (rt_model route, rt_thinking route) ∈ rostered.
Proof.
  unfold roster_contains. destruct roster_package as [r|] eqn:Hp; [|vm_compute in Hp; discriminate].
  assert (btree_values (rs_slots r) = match roster_package with Ok r => btree_values (rs_slots r) | Err _ => [] end)
    as -> by by rewrite Hp. clear Hp r.
  set (slots := match roster_package with Ok r => _ | Err _ => _ end). vm_compute in slots. subst slots.
  split.
  - intros (s & Hs & Hr)%any_spec. to_prop. unfold rostered.
    repeat (apply elem_of_cons in Hs as [->|Hs]; [cbn in *; subst; split; [congruence|]; rewrite <- H1, <- H2; set_solver|]).
    by apply elem_of_nil in Hs.
  - unfold rostered. intros [Hprov Hm]. destruct route as [provider model thinking sub]. cbn in *. subst provider.
    repeat (apply elem_of_cons in Hm as [[= -> ->]|Hm]; [reflexivity|]). by apply elem_of_nil in Hm.
Qed.

(** No metered route can be spent on.  The guard lets a route through exactly
    when it is a subscription route of the provider openai-codex with a model
    and thinking effort of the shipped roster, and then unchanged; every other
    route is the unsafe metered-frontier boundary. *)
Theorem guard_route_exact (route : Route) :
  guard_route route =
  if decide (rt_subscription route = true ∧ rt_provider route = "openai-codex" ∧
             (rt_model route, rt_thinking route) ∈ rostered)
  then Ok route else Err (Unsafe MeteredFrontierRoute).
Proof.
  unfold guard_route, admit_route. pose proof (roster_contains_spec route) as Hr.
  destruct (rt_subscription route) eqn:Hs; cbn.
  2: { rewrite decide_False by naive_solver. done. }
  case_bool_decide as Hp; cbn; [|rewrite decide_False by naive_solver; done].
  destruct (roster_contains route); cbn.
  - rewrite decide_True by naive_solver. done.
  - rewrite decide_False; [done|]. intros (_ & _ & Hin). destruct Hr as [_ Hr]. discriminate Hr. done.
Qed.

(** ** What a parsed registry promises *)

Record sound_role (id : string) (r : Role) : Prop := {
  sr_named : ro_id r = id;
  sr_version : 1 ≤ ro_version r ≤ u32_max;
  sr_modes : ro_modes r ≠ [];
  sr_parameters : NoDup (ro_mode_parameters r) ∧ ∀ p, p ∈ ro_mode_parameters r → blank p = false;
}.

Lemma mode_parameters_ok r u :
  validate_mode_parameters r = Ok u →
  NoDup (ro_mode_parameters r) ∧ ∀ p, p ∈ ro_mode_parameters r → blank p = false.
Proof.
  unfold validate_mode_parameters. intros H. apply bind_ok in H as (seen & H & _).
  assert ((NoDup (ro_mode_parameters r) ∧ ∀ p, p ∈ ro_mode_parameters r → blank p = false) ∧
          seen = list_to_set (ro_mode_parameters r)) as [? _]; [|done].
  revert H. apply (fold_res_inv _ (λ pre (seen : gset string), (NoDup pre ∧ ∀ p, p ∈ pre → blank p = false) ∧
    seen = list_to_set pre)); [split; [split; [constructor|set_solver]|done]|].
  intros pre value s s' [[Hn Hb] ->] _ Hstep. apply guard_ok in Hstep as [Hv Hstep]. apply guard_ok in Hstep as [Hin Hstep].
  injection Hstep as <-. to_prop. split; [split|].
  - apply NoDup_app. split_and!; [done|set_solver|apply NoDup_singleton].
  - intros p [?|Hp%list_elem_of_singleton]%elem_of_app; [auto|by subst].
  - rewrite list_to_set_app_L. cbn. set_solver.
Qed.

Lemma add_role_ok roles b roles' :
  (∀ id r, roles !! id = Some r → sound_role id r) → add_role roles b = Ok roles' →
  ∀ id r, roles' !! id = Some r → sound_role id r.
Proof.
  intros IH H id r. unfold add_role in H. apply bind_ok in H as (role & Hrole & H).
  apply guard_ok in H as [Hv H]. apply bind_ok in H as (? & Hp & H). apply guard_ok in H as [_ H]. injection H as <-.
  intros [[<- <-]|[_ ?]]%lookup_insert_Some; [|by apply IH].
  assert (ro_id role = bl_id b ∧ 0 ≤ ro_version role ≤ u32_max) as [Hid Hver].
  { unfold role_of in Hrole. inv_ok. cbn. split; [done|].
    by match goal with Hx : parse_uint _ _ = Some _ |- _ => apply parse_uint_range in Hx end. }
  to_prop. constructor; [done|lia|done|by eapply mode_parameters_ok].
Qed.

Lemma check_parameters_ok roles mappings u :
  check_parameters (declared_parameters roles) mappings = Ok u →
  ∀ p, is_Some (mappings !! p) ↔ ∃ id r, roles !! id = Some r ∧ p ∈ ro_mode_parameters r.
Proof.
  unfold check_parameters. intros H p. apply bind_ok in H as (? & H1 & H2).
  rewrite for_each_ok, Forall_forall in H1. rewrite for_each_ok, Forall_forall in H2.
  assert (p ∈ declared_parameters roles ↔ ∃ id r, roles !! id = Some r ∧ p ∈ ro_mode_parameters r) as <-.
  { unfold declared_parameters. rewrite elem_of_list_to_set, list_elem_of_bind.
    setoid_rewrite elem_of_btree_values. clear. naive_solver. }
  split; intros Hp.
  - specialize (H2 p ltac:(by apply elem_of_btree_keys)). apply ensure_ok in H2. by to_prop.
  - specialize (H1 p ltac:(by apply elem_of_btree_set)). apply ensure_ok in H1. by to_prop.
Qed.

(** A parsed registry names its roles by their ids; versions and modes are
    present, mode parameters are distinct and not blank, and together they are
    exactly the parameters of the driver tables. *)
Theorem roles_sound (tables text : string) (roles : RoleRegistry) :
  parse_roles tables text = Ok roles →
  roles ≠ ∅ ∧ (∀ id r, roles !! id = Some r → sound_role id r) ∧
  ∃ mappings, parse_parameter_atom_kind_rows tables = Ok mappings ∧
    ∀ p, is_Some (mappings !! p) ↔ ∃ id r, roles !! id = Some r ∧ p ∈ ro_mode_parameters r.
Proof.
  unfold parse_roles. intros H. apply bind_ok in H as (bs & _ & H). apply bind_ok in H as (rs & Hrs & H).
  apply guard_ok in H as [Hne H]. apply bind_ok in H as (? & Ht & H). injection H as <-.
  apply bool_decide_eq_false in Hne. split; [exact Hne|]. split.
  - revert Hrs. apply (fold_res_inv _ (λ _ rs, ∀ id r, rs !! id = Some r → sound_role id r)); [done|].
    intros _ b s s' IH _. by apply add_role_ok.
  - apply bind_ok in Ht as (mappings & Hm & Ht). exists mappings. split; [exact Hm|].
    exact (check_parameters_ok _ _ _ Ht).
Qed.

(** ** The shipped configuration *)

(** A role of the registry that can be launched: its slot lists it, with its
    thinking effort, on a route the guard lets through, with room in the pool. *)
Definition launchable (roster : Roster) (r : Role) : bool :=
  match rs_slots roster !! ro_model_slot r with
  | Some s => (sl_thinking s =s ro_thinking r) && any (λ x, x =s ro_id r) (sl_roles s) &&
      match guard_route (slot_route s), concurrency_for_role roster (ro_id r) with
      | Ok _, Ok max => 0 <? max
      | _, _ => false
      end
  | None => false
  end.

(** The shipped roles and roster fit: both parse, and every one of the sixteen
    roles can be launched. *)
Theorem shipped_roles_launchable :
  match parse_roles DRIVER_TABLES_KDL ROLE_REGISTRY_KDL, roster_package with
  | Ok roles, Ok roster => length (btree_values roles) = 16%nat ∧ all (launchable roster) (btree_values roles) = true
  | _, _ => False
  end.
Proof. vm_compute. split; reflexivity. Qed.
