(* ===== verification/ContextPolicy.v ===== *)
(** * Context policies and budgets

    [drivers/src/context/policy.rs]: the registry that says what context every
    mode of every role gets.  [drivers/src/context/mod.rs]: the token estimate,
    the route it leads to and the anchors of context. *)

From S2P Require Import Prelude RustColl RustStr Boundary Control Roles.

(** [data/context-policy.kdl]; the double quote is written as a back quote. *)
Definition CONTEXT_POLICY_KDL : string := kdl
"context_policy schema=`autopilot.context_policy.v1` revision=3 {
  category id=`task-authority` source=`task-document` class=`authority`
  category id=`repository-context` source=`task-document` class=`context/non-authority`
  category id=`task-atoms` source=`accepted-planning-artifact` boundary=`planning.task-atoms.v1` class=`planning-artifact`
  category id=`scout-findings` source=`accepted-planning-artifact` boundary=`planning.scout-dossier.v1` class=`planning-artifact`
  category id=`compiler-work-maps` source=`accepted-planning-artifact` boundary=`planning.work-map.v2` class=`planning-artifact`
  category id=`synthesized-work-map` source=`accepted-planning-artifact` boundary=`planning.work-map.v2` class=`planning-artifact`
  category id=`recovery-work-map` source=`accepted-planning-artifact` boundary=`planning.work-map.v2` class=`planning-artifact`
  category id=`review-verdicts` source=`accepted-planning-artifact` boundary=`planning.plan-review.v1` class=`planning-artifact`
  category id=`contradiction-bundle` source=`accepted-planning-artifact` boundary=`planning.questions.v1` class=`planning-artifact`
  category id=`authority-index` source=`package-generated` class=`index`
  category id=`artifact-index` source=`package-generated` class=`index`
  category id=`atom-index` source=`package-generated` class=`index`
  category id=`assignment-scope` source=`package-generated` class=`index`
  category id=`criterion-trace-index` source=`package-generated` class=`index`
  category id=`coverage-index` source=`package-generated` class=`index`
  category id=`current-manifests` source=`package-generated` class=`index`
  category id=`manifest-gaps` source=`package-generated` class=`context-gap`
  category id=`budget-overage` source=`package-generated` class=`budget`
  category id=`approved-plan-unit` source=`package-state` class=`execution-artifact`
  category id=`acceptance-criteria` source=`package-state` class=`authority`
  category id=`dossier-findings` source=`package-state` class=`planning-artifact`
  category id=`runtime-identity` source=`package-state` class=`runtime`
  category id=`delivery-evidence` source=`package-state` class=`evidence`
  category id=`closure-evidence` source=`package-state` class=`evidence`
  category id=`prior-findings` source=`package-state` class=`review-artifact`
  category id=`delta-evidence` source=`package-state` class=`evidence`
  category id=`conflict-resolution` source=`package-state` class=`resolution-artifact`
  category id=`conflict-evidence` source=`package-state` class=`evidence`
  category id=`final-dod` source=`package-state` class=`authority`
  category id=`final-command-evidence` source=`package-state` class=`evidence`
  category id=`blocking-finding` source=`package-state` class=`review-artifact`
  category id=`context-gaps` source=`package-state` class=`context-gap`
  category id=`manifest-revision` source=`package-state` class=`manifest`
  category id=`source-anchor` source=`repository` class=`source`
  category id=`onboard-brief` source=`operator-input` class=`authority`
  category id=`orchestration-state` source=`package-state` class=`control`
  category id=`allocation-dossier` source=`package-state` class=`execution-artifact`

  policy id=`onboard.v1` role=`onboard` {
    mode id=`thin-intake` {
      mandatory_inline `onboard-brief`
      required_reads `task-authority`
      on_demand `repository-context`
    }
  }
  policy id=`orchestrator.v1` role=`orchestrator` {
    mode id=`planning-control` {
      mandatory_inline `orchestration-state`
      required_reads `artifact-index`
      on_demand `current-manifests`
    }
    mode id=`execution-control` {
      mandatory_inline `orchestration-state`
      required_reads `approved-plan-unit`
      required_reads `artifact-index`
      on_demand `runtime-identity`
    }
  }
  policy id=`task-extractor.v1` role=`task-extractor` {
    mode id=`inventory` {
      mandatory_inline `authority-index`
      required_reads `task-authority`
      excluded `repository-context`
    }
  }
  policy id=`repository-scout.v1` role=`repository-scout` {
    mode id=`initial-grounding` {
      mandatory_inline `atom-index`
      mandatory_inline `assignment-scope`
      required_reads `task-atoms`
      required_reads `task-authority`
      required_reads `repository-context`
      on_demand `source-anchor`
    }
    mode id=`targeted-followup` {
      mandatory_inline `atom-index`
      mandatory_inline `assignment-scope`
      required_reads `task-atoms`
      required_reads `scout-findings`
      required_reads `repository-context`
      on_demand `source-anchor`
    }
  }
  policy id=`contradiction-resolver.v1` role=`contradiction-resolver` {
    mode id=`fact-resolution` {
      mandatory_inline `contradiction-bundle`
      required_reads `review-verdicts`
      required_reads `task-authority`
      required_reads `synthesized-work-map`
      on_demand `artifact-index`
      on_demand `source-anchor`
    }
  }
  policy id=`plan-compiler.v1` role=`plan-compiler` {
    mode id=`initial-plan` {
      mandatory_inline `authority-index`
      mandatory_inline `artifact-index`
      mandatory_inline `assignment-scope`
      required_reads `task-atoms`
      required_reads `scout-findings`
      required_reads `task-authority`
      on_demand `repository-context`
      on_demand `source-anchor`
    }
    mode id=`unit-spec-patch` {
      mandatory_inline `artifact-index`
      mandatory_inline `assignment-scope`
      required_reads `task-atoms`
      required_reads `scout-findings`
      required_reads `synthesized-work-map`
      on_demand `task-authority`
      on_demand `source-anchor`
    }
    mode id=`cluster-amendment` {
      mandatory_inline `artifact-index`
      mandatory_inline `assignment-scope`
      required_reads `task-atoms`
      required_reads `scout-findings`
      required_reads `compiler-work-maps`
      on_demand `task-authority`
      on_demand `source-anchor`
    }
  }
  policy id=`context-synthesizer.v1` role=`context-synthesizer` {
    mode id=`initial-dossier` {
      mandatory_inline `artifact-index`
      required_reads `scout-findings`
      required_reads `repository-context`
      on_demand `source-anchor`
    }
    mode id=`dossier-delta` {
      mandatory_inline `artifact-index`
      required_reads `scout-findings`
      required_reads `review-verdicts`
      on_demand `repository-context`
      on_demand `source-anchor`
    }
  }
  policy id=`plan-synthesizer.v1` role=`plan-synthesizer` {
    mode id=`initial-plan` {
      mandatory_inline `compiler-work-maps`
      mandatory_inline `coverage-index`
      mandatory_inline `artifact-index`
      required_reads `compiler-work-maps`
      required_reads `task-atoms`
      required_reads `scout-findings`
      on_demand `task-authority`
      on_demand `repository-context`
      on_demand `source-anchor`
    }
    mode id=`affected-scope` {
      mandatory_inline `coverage-index`
      mandatory_inline `artifact-index`
      required_reads `compiler-work-maps`
      required_reads `synthesized-work-map`
      required_reads `review-verdicts`
      on_demand `task-authority`
      on_demand `source-anchor`
    }
  }
  policy id=`plan-reviewer.v1` role=`plan-reviewer` {
    mode id=`full-review` {
      mandatory_inline `synthesized-work-map`
      mandatory_inline `criterion-trace-index`
      required_reads `task-authority`
      required_reads `task-atoms`
      required_reads `scout-findings`
      required_reads `compiler-work-maps`
      on_demand `repository-context`
      on_demand `source-anchor`
      on_demand `recovery-work-map`
    }
    mode id=`delta-review` {
      mandatory_inline `synthesized-work-map`
      mandatory_inline `criterion-trace-index`
      required_reads `review-verdicts`
      required_reads `compiler-work-maps`
      required_reads `task-authority`
      on_demand `repository-context`
      on_demand `source-anchor`
    }
  }
  policy id=`context-curator.v1` role=`context-curator` {
    mode id=`discovery-navigation` {
      mandatory_inline `artifact-index`
      required_reads `repository-context`
      required_reads `task-authority`
      on_demand `source-anchor`
    }
    mode id=`planning-context` {
      mandatory_inline `artifact-index`
      mandatory_inline `budget-overage`
      mandatory_inline `manifest-gaps`
      required_reads `task-atoms`
      required_reads `scout-findings`
      required_reads `current-manifests`
      on_demand `source-anchor`
    }
    mode id=`execution-context` {
      mandatory_inline `artifact-index`
      mandatory_inline `budget-overage`
      required_reads `approved-plan-unit`
      required_reads `dossier-findings`
      required_reads `current-manifests`
      on_demand `source-anchor`
    }
  }
  policy id=`execution-allocator.v1` role=`execution-allocator` {
    mode id=`initial-allocation` {
      mandatory_inline `allocation-dossier`
      mandatory_inline `approved-plan-unit`
      required_reads `dossier-findings`
      required_reads `acceptance-criteria`
      on_demand `source-anchor`
    }
    mode id=`delta-allocation` {
      mandatory_inline `allocation-dossier`
      mandatory_inline `prior-findings`
      required_reads `approved-plan-unit`
      required_reads `delta-evidence`
      on_demand `source-anchor`
    }
  }
  policy id=`implementer.v1` role=`implementer` {
    mode id=`lane-delivery` {
      mandatory_inline `task-authority`
      mandatory_inline `approved-plan-unit`
      mandatory_inline `acceptance-criteria`
      required_reads `dossier-findings`
      required_reads `runtime-identity`
      on_demand `source-anchor`
    }
  }
  policy id=`recovery-engineer.v1` role=`recovery-engineer` {
    mode id=`planning-repair` {
      mandatory_inline `synthesized-work-map`
      mandatory_inline `review-verdicts`
      mandatory_inline `criterion-trace-index`
      required_reads `task-authority`
      required_reads `task-atoms`
      required_reads `scout-findings`
      required_reads `compiler-work-maps`
      on_demand `repository-context`
      on_demand `source-anchor`
    }
    mode id=`forward-critical` {
      mandatory_inline `blocking-finding`
      mandatory_inline `approved-plan-unit`
      mandatory_inline `acceptance-criteria`
      required_reads `delivery-evidence`
      required_reads `source-anchor`
      on_demand `dossier-findings`
    }
    mode id=`closure-repair` {
      mandatory_inline `blocking-finding`
      mandatory_inline `approved-plan-unit`
      mandatory_inline `acceptance-criteria`
      required_reads `delivery-evidence`
      required_reads `source-anchor`
      on_demand `dossier-findings`
    }
    mode id=`failed-test` {
      mandatory_inline `blocking-finding`
      mandatory_inline `approved-plan-unit`
      mandatory_inline `acceptance-criteria`
      required_reads `delivery-evidence`
      required_reads `source-anchor`
      on_demand `dossier-findings`
    }
    mode id=`conflict-resolution` {
      mandatory_inline `blocking-finding`
      mandatory_inline `approved-plan-unit`
      mandatory_inline `acceptance-criteria`
      required_reads `delivery-evidence`
      required_reads `source-anchor`
      on_demand `dossier-findings`
    }
  }
  policy id=`validator.v1` role=`validator` {
    mode id=`forward-release` {
      mandatory_inline `acceptance-criteria`
      mandatory_inline `approved-plan-unit`
      required_reads `delivery-evidence`
      required_reads `source-anchor`
      on_demand `dossier-findings`
    }
    mode id=`deep-closure` {
      mandatory_inline `acceptance-criteria`
      required_reads `closure-evidence`
      required_reads `source-anchor`
      on_demand `dossier-findings`
    }
    mode id=`delta-revalidation` {
      mandatory_inline `prior-findings`
      mandatory_inline `acceptance-criteria`
      required_reads `delta-evidence`
      required_reads `source-anchor`
      on_demand `dossier-findings`
    }
    mode id=`conflict-review` {
      mandatory_inline `conflict-resolution`
      mandatory_inline `acceptance-criteria`
      required_reads `conflict-evidence`
      required_reads `source-anchor`
      on_demand `dossier-findings`
    }
    mode id=`final-review` {
      mandatory_inline `final-dod`
      mandatory_inline `acceptance-criteria`
      required_reads `final-command-evidence`
      required_reads `source-anchor`
      on_demand `dossier-findings`
    }
  }
  policy id=`fixer-integrator.v1` role=`fixer-integrator` {
    mode id=`forward-critical` {
      mandatory_inline `blocking-finding`
      mandatory_inline `approved-plan-unit`
      mandatory_inline `acceptance-criteria`
      required_reads `delivery-evidence`
      required_reads `source-anchor`
      on_demand `dossier-findings`
    }
    mode id=`closure-repair` {
      mandatory_inline `blocking-finding`
      mandatory_inline `acceptance-criteria`
      required_reads `closure-evidence`
      required_reads `source-anchor`
      on_demand `dossier-findings`
    }
    mode id=`failed-test` {
      mandatory_inline `blocking-finding`
      mandatory_inline `acceptance-criteria`
      required_reads `delta-evidence`
      required_reads `source-anchor`
      on_demand `dossier-findings`
    }
    mode id=`conflict-resolution` {
      mandatory_inline `conflict-resolution`
      mandatory_inline `acceptance-criteria`
      required_reads `conflict-evidence`
      required_reads `source-anchor`
      on_demand `dossier-findings`
    }
  }
  policy id=`bughunter.v1` role=`bughunter` {
    mode id=`final-bughunt` {
      mandatory_inline `final-dod`
      mandatory_inline `acceptance-criteria`
      required_reads `final-command-evidence`
      required_reads `source-anchor`
      on_demand `dossier-findings`
    }
  }
}
".

Definition SCHEMA : string := "autopilot.context_policy.v1".
Definition REVISION : Z := 3.
Definition TIERS : list string := ["mandatory_inline"; "required_reads"; "on_demand"; "excluded"].

Record ContextPolicyCategory := { ca_id : string; ca_source : string; ca_class : string; ca_boundary : option string }.
Record ContextPolicyMode := {
  mo_id : string;
  mo_mandatory_inline : list string;
  mo_required_reads : list string;
  mo_on_demand : list string;
  mo_excluded : list string;
}.
Record ContextPolicy := { cp_id : string; cp_role_id : string; cp_modes : gmap string ContextPolicyMode }.
Record ContextPolicyRegistry := {
  rg_categories : gmap string ContextPolicyCategory;
  rg_policies : gmap string ContextPolicy;
}.

Inductive ContextPolicyError :=
  | Malformed (what : string)
  | PolicyRole (e : RoleError)
  | DuplicateCategory (id : string)
  | DuplicatePolicy (id : string)
  | DuplicateMode (policy_id mode_id : string)
  | DuplicateTierEntry (policy_id mode_id tier category_id : string)
  | UnknownCategory (policy_id mode_id tier category_id : string)
  | MissingPolicy (id : string)
  | UnknownRole (policy_id role_id : string)
  | RoleMismatch (policy_id expected_role actual_role : string)
  | MissingMode (policy_id mode_id : string)
  | UnknownMode (policy_id mode_id : string).

(** ** Lines and attributes *)

Definition parse_lines (text : string) : list string :=
  List.filter (λ line, negb (is_empty line)) (map clean_line (lines text)).

Definition parse_attrs (text : string) : result ContextPolicyError (gmap string string) :=
  fold_res (λ (attrs : gmap string string) part,
    match split_once "=" part with
    | None => Err (Malformed ("bad attribute " +:+ part))
    | Some (key, raw_value) =>
        let value := trim_quotes raw_value in
        if is_empty value then Err (Malformed ("empty attribute " +:+ key))
        else if bool_decide (is_Some (attrs !! key)) then Err (Malformed ("duplicate attribute " +:+ key))
        else Ok (<[key := value]> attrs)
    end) ∅ (split_whitespace text).

Definition attr_required (attrs : gmap string string) (name : string) : result ContextPolicyError string :=
  ok_or (attrs !! name) (Malformed ("missing attribute " +:+ name)).

Definition require_attr (attrs : gmap string string) (name expected : string) : result ContextPolicyError unit :=
  actual ← attr_required attrs name;
  if actual =s expected then Ok tt else Err (Malformed (name +:+ " " +:+ actual +:+ " != " +:+ expected)).

Definition BRACE : ascii := chr 123.
(** [ends_with('{')] and [trim_end_matches('{')] *)
Definition ends_with_brace (s : string) : bool := starts_with (String BRACE "") (str_rev s).
Definition trim_brace (s : string) : string := str_rev (trim_prefix (String BRACE "") (str_rev s)).

Definition parse_category (line : string) : result ContextPolicyError ContextPolicyCategory :=
  attrs ← parse_attrs (trim_prefix "category" line);
  id ← attr_required attrs "id";
  source ← attr_required attrs "source";
  class ← attr_required attrs "class";
  Ok {| ca_id := id; ca_source := source; ca_class := class; ca_boundary := attrs !! "boundary" |}.

Definition parse_tier_line (line : string) : result ContextPolicyError (string * string) :=
  match split_once " " line with
  | None => Err (Malformed ("tier line has no value: " +:+ line))
  | Some (tier, rest) =>
      match quoted rest with
      | [category] => Ok (tier, category)
      | _ => Err (Malformed ("tier line must have exactly one quoted category: " +:+ line))
      end
  end.

(** ** Modes, policies, the registry *)

Definition add_tier (m : ContextPolicyMode) (tier category : string) : ContextPolicyMode :=
  if tier =s "mandatory_inline" then
    {| mo_id := mo_id m; mo_mandatory_inline := mo_mandatory_inline m ++ [category];
       mo_required_reads := mo_required_reads m; mo_on_demand := mo_on_demand m; mo_excluded := mo_excluded m |}
  else if tier =s "required_reads" then
    {| mo_id := mo_id m; mo_mandatory_inline := mo_mandatory_inline m;
       mo_required_reads := mo_required_reads m ++ [category]; mo_on_demand := mo_on_demand m; mo_excluded := mo_excluded m |}
  else if tier =s "on_demand" then
    {| mo_id := mo_id m; mo_mandatory_inline := mo_mandatory_inline m;
       mo_required_reads := mo_required_reads m; mo_on_demand := mo_on_demand m ++ [category]; mo_excluded := mo_excluded m |}
  else
    {| mo_id := mo_id m; mo_mandatory_inline := mo_mandatory_inline m;
       mo_required_reads := mo_required_reads m; mo_on_demand := mo_on_demand m; mo_excluded := mo_excluded m ++ [category] |}.

(** The loop over the lines of a mode, up to its closing brace. *)
Fixpoint mode_lines (policy_id : string) (categories : gmap string ContextPolicyCategory)
    (m : ContextPolicyMode) (seen : gset (string * string)) (rest : list string)
  : result ContextPolicyError (ContextPolicyMode * list string) :=
  match rest with
  | [] => Err (Malformed ("policy " +:+ policy_id +:+ " mode " +:+ mo_id m +:+ ": missing close"))
  | line :: rest' =>
      if line =s "}" then Ok (m, rest')
      else
        entry ← parse_tier_line line;
        let '(tier, category_id) := entry in
        if negb (bool_decide (tier ∈ TIERS)) then Err (Malformed ("unknown context tier " +:+ tier))
        else if negb (bool_decide (is_Some (categories !! category_id)))
        then Err (UnknownCategory policy_id (mo_id m) tier category_id)
        else if bool_decide ((tier, category_id) ∈ seen)
        then Err (DuplicateTierEntry policy_id (mo_id m) tier category_id)
        else mode_lines policy_id categories (add_tier m tier category_id) ({[(tier, category_id)]} ∪ seen) rest'
  end.

Definition empty_mode (id : string) : ContextPolicyMode :=
  {| mo_id := id; mo_mandatory_inline := []; mo_required_reads := []; mo_on_demand := []; mo_excluded := [] |}.

Definition parse_mode (header : string) (rest : list string) (policy_id : string)
    (categories : gmap string ContextPolicyCategory) : result ContextPolicyError (ContextPolicyMode * list string) :=
  if negb (ends_with_brace header) then Err (Malformed ("mode header must end with '{': " +:+ header))
  else
    attrs ← parse_attrs (trim_brace (trim_prefix "mode" header));
    mode_id ← attr_required attrs "id";
    mode_lines policy_id categories (empty_mode mode_id) ∅ rest.

(** The error a repeated header gives: its id read again. *)
Definition repeated_id (keyword line : string) : result ContextPolicyError string :=
  attrs ← parse_attrs (trim_brace (trim_prefix keyword line));
  attr_required attrs "id".

(** Every step takes a line, so the number of lines is fuel enough. *)
Fixpoint policy_lines (fuel : nat) (policy_id role_id : string) (categories : gmap string ContextPolicyCategory)
    (modes : gmap string ContextPolicyMode) (rest : list string)
  : result ContextPolicyError (ContextPolicy * list string) :=
  match fuel, rest with
  | O, _ | _, [] => Err (Malformed ("policy " +:+ policy_id +:+ ": missing close"))
  | S fuel', line :: rest' =>
      if line =s "}" then
        if bool_decide (modes = ∅) then Err (Malformed ("policy " +:+ policy_id +:+ ": no modes"))
        else Ok ({| cp_id := policy_id; cp_role_id := role_id; cp_modes := modes |}, rest')
      else if negb (starts_with "mode " line)
      then Err (Malformed ("policy " +:+ policy_id +:+ ": expected mode, got " +:+ line))
      else
        r ← parse_mode line rest' policy_id categories;
        let '(mode, next) := r in
        if bool_decide (is_Some (modes !! mo_id mode)) then
          id ← repeated_id "mode" line;
          Err (DuplicateMode policy_id id)
        else policy_lines fuel' policy_id role_id categories (<[mo_id mode := mode]> modes) next
  end.

Definition parse_policy (header : string) (rest : list string) (categories : gmap string ContextPolicyCategory)
  : result ContextPolicyError (ContextPolicy * list string) :=
  if negb (ends_with_brace header) then Err (Malformed ("policy header must end with '{': " +:+ header))
  else
    attrs ← parse_attrs (trim_brace (trim_prefix "policy" header));
    policy_id ← attr_required attrs "id";
    role_id ← attr_required attrs "role";
    policy_lines (S (length rest)) policy_id role_id categories ∅ rest.

(** The loop of [parse] after the header.  The end of the lines is accepted
    without a closing brace. *)
Fixpoint registry_lines (fuel : nat) (r : ContextPolicyRegistry) (rest : list string)
  : result ContextPolicyError ContextPolicyRegistry :=
  match fuel, rest with
  | _, [] => Ok r
  | O, _ => Err (Malformed "out of fuel")
  | S fuel', line :: rest' =>
      if line =s "}" then
        match rest' with [] => Ok r | _ => Err (Malformed "content after context_policy close") end
      else if starts_with "category " line then
        category ← parse_category line;
        if bool_decide (is_Some (rg_categories r !! ca_id category)) then
          attrs ← parse_attrs (trim_prefix "category" line);
          id ← attr_required attrs "id";
          Err (DuplicateCategory id)
        else registry_lines fuel'
          {| rg_categories := <[ca_id category := category]> (rg_categories r); rg_policies := rg_policies r |} rest'
      else if starts_with "policy " line then
        p ← parse_policy line rest' (rg_categories r);
        let '(policy, next) := p in
        if bool_decide (is_Some (rg_policies r !! cp_id policy)) then
          id ← repeated_id "policy" line;
          Err (DuplicatePolicy id)
        else registry_lines fuel'
          {| rg_categories := rg_categories r; rg_policies := <[cp_id policy := policy]> (rg_policies r) |} next
      else Err (Malformed ("unexpected line in registry: " +:+ line))
  end.

Definition parse_policies (text : string) : result ContextPolicyError ContextPolicyRegistry :=
  match parse_lines text with
  | [] => Err (Malformed "missing context_policy root")
  | header :: rest =>
      if negb (starts_with "context_policy " header) || negb (ends_with_brace header)
      then Err (Malformed "root must be context_policy ... {")
      else
        root_attrs ← parse_attrs (trim_brace (trim_prefix "context_policy" header));
        _ ← require_attr root_attrs "schema" SCHEMA;
        revision_text ← attr_required root_attrs "revision";
        revision ← ok_or (parse_uint u32_max revision_text) (Malformed "revision must be a u32");
        if negb (revision =? REVISION)
        then Err (Malformed ("unsupported revision " +:+ show_uint revision +:+ "; expected " +:+ show_uint REVISION))
        else
          r ← registry_lines (S (length rest)) {| rg_categories := ∅; rg_policies := ∅ |} rest;
          if bool_decide (rg_categories r = ∅) then Err (Malformed "no context categories declared")
          else if bool_decide (rg_policies r = ∅) then Err (Malformed "no context policies declared")
          else Ok r
  end.

Definition validate_role (r : ContextPolicyRegistry) (role : Role) : result ContextPolicyError unit :=
  policy ← ok_or (rg_policies r !! ro_context_policy role) (MissingPolicy (ro_context_policy role));
  if negb (cp_role_id policy =s ro_id role) then Err (RoleMismatch (cp_id policy) (ro_id role) (cp_role_id policy))
  else
    _ ← for_each (λ mode, ensure (bool_decide (is_Some (cp_modes policy !! mode))) (MissingMode (cp_id policy) mode))
          (ro_modes role);
    for_each (λ mode_id, ensure (bool_decide (mode_id ∈ ro_modes role)) (UnknownMode (cp_id policy) mode_id))
      (btree_keys (cp_modes policy)).

Definition validate_roles (r : ContextPolicyRegistry) (roles : RoleRegistry) : result ContextPolicyError unit :=
  _ ← for_each (validate_role r) (btree_values roles);
  let role_ids : gset string := list_to_set (map ro_id (btree_values roles)) in
  for_each (λ policy, ensure (bool_decide (cp_role_id policy ∈ role_ids)) (UnknownRole (cp_id policy) (cp_role_id policy)))
    (btree_values (rg_policies r)).

Definition package_for_roles (text : string) (roles : RoleRegistry) : result ContextPolicyError ContextPolicyRegistry :=
  registry ← parse_policies text;
  _ ← validate_roles registry roles;
  Ok registry.

(** The package: the shipped policies against the shipped roles. *)
Definition package (tables roles policies : string) : result ContextPolicyError ContextPolicyRegistry :=
  roles ← map_err PolicyRole (parse_roles tables roles);
  package_for_roles policies roles.

(** [RoleRegistry::package] and [RoleRegistry::get]; the [{:?}] text of an
    error is a parameter. *)
Definition role_package (debug : ContextPolicyError → string) (tables roles policies : string)
  : result RoleError RoleRegistry :=
  registry ← parse_roles tables roles;
  _ ← map_err (λ error, RoleContextPolicy (debug error)) (package tables roles policies);
  Ok registry.
Definition role_get (roles : RoleRegistry) (id : string) : result RoleError Role :=
  ok_or (roles !! id) (RoleMissing id).

Definition policy (r : ContextPolicyRegistry) (id : string) : result ContextPolicyError ContextPolicy :=
  ok_or (rg_policies r !! id) (MissingPolicy id).
Definition category (r : ContextPolicyRegistry) (id : string) : result ContextPolicyError ContextPolicyCategory :=
  ok_or (rg_categories r !! id) (UnknownCategory "<lookup>" "<lookup>" "<lookup>" id).

(** ** What the registry promises *)

Definition tier_list (m : ContextPolicyMode) (tier : string) : list string :=
  if tier =s "mandatory_inline" then mo_mandatory_inline m
  else if tier =s "required_reads" then mo_required_reads m
  else if tier =s "on_demand" then mo_on_demand m
  else mo_excluded m.

(** Every tier of the mode lists declared categories, each once. *)
Definition sound_mode (cats : gmap string ContextPolicyCategory) (m : ContextPolicyMode) : Prop :=
  ∀ tier, tier ∈ TIERS → NoDup (tier_list m tier) ∧ ∀ c, c ∈ tier_list m tier → is_Some (cats !! c).

Definition sound_policy (cats : gmap string ContextPolicyCategory) (p : ContextPolicy) : Prop :=
  cp_modes p ≠ ∅ ∧ ∀ id m, cp_modes p !! id = Some m → mo_id m = id ∧ sound_mode cats m.

Definition sound_registry (r : ContextPolicyRegistry) : Prop :=
  ∀ id p, rg_policies r !! id = Some p → cp_id p = id ∧ sound_policy (rg_categories r) p.

Lemma tier_list_add m t t' c :
  t ∈ TIERS → t' ∈ TIERS →
  tier_list (add_tier m t c) t' = if t =s t' then tier_list m t' ++ [c] else tier_list m t'.
Proof.
  unfold TIERS. rewrite !elem_of_cons, !elem_of_nil.
  intros [->|[->|[->|[->|[]]]]] [->|[->|[->|[->|[]]]]]; reflexivity.
Qed.

Definition mode_inv (cats : gmap string ContextPolicyCategory) (m : ContextPolicyMode) (seen : gset (string * string)) : Prop :=
  sound_mode cats m ∧ ∀ tier c, tier ∈ TIERS → c ∈ tier_list m tier → (tier, c) ∈ seen.

Lemma mode_inv_empty cats id : mode_inv cats (empty_mode id) ∅.
Proof.
  assert (∀ tier, tier_list (empty_mode id) tier = []) as E.
  { intros tier. unfold tier_list, empty_mode. cbn. by repeat case_match. }
  split; intros tier; rewrite E; [intros _; split; [constructor|]|]; set_solver.
Qed.

Lemma mode_inv_add cats m seen tier c :
  mode_inv cats m seen → tier ∈ TIERS → is_Some (cats !! c) → (tier, c) ∉ seen →
  mode_inv cats (add_tier m tier c) ({[(tier, c)]} ∪ seen).
Proof.
  intros [Hs Hseen] Ht Hc Hnew. split.
  - intros t Htt. rewrite tier_list_add by done. destruct (Hs t Htt) as [Hnd Hcats].
    destruct (tier =s t) eqn:E; [|by split]. apply bool_decide_eq_true in E. subst t. split.
    + apply NoDup_app. split; [done|]. split; [|apply NoDup_singleton].
      intros x Hx ->%list_elem_of_singleton. by apply Hnew, Hseen.
    + intros x [Hx| ->%list_elem_of_singleton]%elem_of_app; auto.
  - intros t x Htt. rewrite tier_list_add by done. destruct (tier =s t) eqn:E; [|set_solver].
    apply bool_decide_eq_true in E. subst t. intros [Hx| ->%list_elem_of_singleton]%elem_of_app; set_solver.
Qed.

Lemma add_tier_id m t c : mo_id (add_tier m t c) = mo_id m.
Proof. unfold add_tier. by repeat case_match. Qed.

Lemma mode_lines_sound pid cats rest : ∀ m seen m' rest',
  mode_inv cats m seen → mode_lines pid cats m seen rest = Ok (m', rest') →
  sound_mode cats m' ∧ mo_id m' = mo_id m.
Proof.
  induction rest as [|line rest IH]; intros m seen m' rest' Hinv H; cbn [mode_lines] in H; [done|].
  destruct (line =s "}"). { injection H as <- <-. split; [apply Hinv|done]. }
  apply bind_ok in H as ([tier c] & _ & H).
  apply guard_ok in H as [Ht H]. apply guard_ok in H as [Hc H]. apply guard_ok in H as [Hnew H].
  apply negb_false_iff, bool_decide_eq_true in Ht, Hc. apply bool_decide_eq_false in Hnew.
  apply IH in H; [|by apply mode_inv_add]. by rewrite add_tier_id in H.
Qed.

Lemma parse_mode_sound header rest pid cats m rest' :
  parse_mode header rest pid cats = Ok (m, rest') → sound_mode cats m.
Proof.
  unfold parse_mode. intros H. apply guard_ok in H as [_ H].
  apply bind_ok in H as (? & _ & H). apply bind_ok in H as (id & _ & H).
  apply mode_lines_sound in H; [by apply H|apply mode_inv_empty].
Qed.

Lemma policy_lines_sound fuel pid role cats : ∀ modes rest p rest',
  (∀ id m, modes !! id = Some m → mo_id m = id ∧ sound_mode cats m) →
  policy_lines fuel pid role cats modes rest = Ok (p, rest') →
  sound_policy cats p.
Proof.
  induction fuel as [|fuel IH]; intros modes rest p rest' Hm H; [done|].
  destruct rest as [|line rest]; cbn [policy_lines] in H; [done|].
  destruct (line =s "}").
  { apply guard_ok in H as [Hne H]. injection H as <- <-. apply bool_decide_eq_false in Hne. done. }
  apply guard_ok in H as [_ H]. apply bind_ok in H as ([m next] & Hp & H).
  destruct (bool_decide (is_Some (modes !! mo_id m))).
  { apply bind_ok in H as (? & _ & H). done. }
  apply IH in H; [done|]. intros id m' [[<- <-]|[_ ?]]%lookup_insert_Some; [|by apply Hm].
  split; [done|]. by eapply parse_mode_sound.
Qed.

Lemma parse_policy_sound header rest cats p rest' :
  parse_policy header rest cats = Ok (p, rest') → sound_policy cats p.
Proof.
  unfold parse_policy. intros H. apply guard_ok in H as [_ H].
  apply bind_ok in H as (? & _ & H). apply bind_ok in H as (pid & _ & H). apply bind_ok in H as (role & _ & H).
  eapply policy_lines_sound; [|exact H]. intros id m Hm. by rewrite lookup_empty in Hm.
Qed.

Lemma sound_policy_mono cats cats' p : cats ⊆ cats' → sound_policy cats p → sound_policy cats' p.
Proof.
  intros Hsub [Hne Hp]. split; [done|]. intros id m Hm. destruct (Hp id m Hm) as [Hid Hs].
  split; [done|]. intros tier Ht. destruct (Hs tier Ht) as [Hnd Hc]. split; [done|].
  intros c Hin. destruct (Hc c Hin) as [x Hx]. exists x. by eapply lookup_weaken.
Qed.

Lemma registry_lines_sound fuel : ∀ r rest r',
  sound_registry r → registry_lines fuel r rest = Ok r' → sound_registry r'.
Proof.
  induction fuel as [|fuel IH]; intros r rest r' Hr H; destruct rest as [|line rest]; cbn [registry_lines] in H;
    try (by injection H as <-); [done|].
  destruct (line =s "}"). { destruct rest; [by injection H as <-|done]. }
  destruct (starts_with "category " line).
  - apply bind_ok in H as (cat & _ & H).
    destruct (bool_decide (is_Some (rg_categories r !! ca_id cat))) eqn:Hold.
    { apply bind_ok in H as (? & _ & H). apply bind_ok in H as (? & _ & H). done. }
    apply bool_decide_eq_false in Hold. apply IH in H; [done|].
    intros id p Hp. destruct (Hr id p Hp) as [Hid Hs]. split; [done|].
    eapply sound_policy_mono; [|exact Hs]. cbn. apply insert_subseteq. by apply eq_None_not_Some.
  - destruct (starts_with "policy " line); [|done]. apply bind_ok in H as ([p next] & Hp & H).
    destruct (bool_decide (is_Some (rg_policies r !! cp_id p))).
    { apply bind_ok in H as (? & _ & H). done. }
    apply IH in H; [done|]. intros id q Hq. cbn in Hq |- *.
    apply lookup_insert_Some in Hq as [[<- <-]|[_ ?]]; [|by apply Hr].
    split; [done|]. by eapply parse_policy_sound.
Qed.

Lemma parse_policies_sound text r : parse_policies text = Ok r → sound_registry r.
Proof.
  unfold parse_policies. destruct (parse_lines text) as [|header rest]; [done|]. intros H.
  apply guard_ok in H as [_ H]. do 4 apply bind_ok in H as (? & _ & H).
  apply guard_ok in H as [_ H]. apply bind_ok in H as (r' & Hr & H).
  do 2 apply guard_ok in H as [_ H]. injection H as ->.
  apply registry_lines_sound in Hr; [done|]. intros id p Hp. cbn in Hp. by rewrite lookup_empty in Hp.
Qed.

Lemma validate_role_ok r role u :
  validate_role r role = Ok u →
  ∃ p, rg_policies r !! ro_context_policy role = Some p ∧ cp_role_id p = ro_id role ∧
    ∀ mode, is_Some (cp_modes p !! mode) ↔ mode ∈ ro_modes role.
Proof.
  unfold validate_role. intros H. apply bind_ok in H as (p & Hp & H). apply ok_or_ok in Hp.
  apply guard_ok in H as [Hrole H]. apply bind_ok in H as (? & Hin & Hout). exists p. to_prop.
  split_and!; [done..|]. intros mode. rewrite for_each_ok, Forall_forall in Hin. rewrite for_each_ok, Forall_forall in Hout. split.
  - intros Hm%elem_of_btree_keys. apply Hout in Hm. apply ensure_ok in Hm. by to_prop.
  - intros Hm%Hin. apply ensure_ok in Hm. by to_prop.
Qed.

(** C38. Context policies that the package accepts fit its roles and are well
    formed: every role has the policy it names, written for it, with exactly
    the modes of the role; every policy belongs to some role; and in every mode
    each tier lists declared categories, each at most once. *)
Theorem context_policies_sound (tables role_text policy_text : string) (r : ContextPolicyRegistry) :
  package tables role_text policy_text = Ok r →
  ∃ roles, parse_roles tables role_text = Ok roles ∧
    (∀ id role, roles !! id = Some role →
       ∃ p, rg_policies r !! ro_context_policy role = Some p ∧ cp_role_id p = ro_id role ∧
         ∀ mode, is_Some (cp_modes p !! mode) ↔ mode ∈ ro_modes role) ∧
    (∀ id p, rg_policies r !! id = Some p →
       cp_id p = id ∧ sound_policy (rg_categories r) p ∧
       ∃ rid role, roles !! rid = Some role ∧ ro_id role = cp_role_id p).
Proof.
  unfold package, package_for_roles. intros H. apply bind_ok in H as (roles & Hroles & H).
  apply map_err_ok in Hroles. apply bind_ok in H as (r' & Hr & H). apply bind_ok in H as (? & Hv & H).
  injection H as ->. exists roles. split; [done|]. unfold validate_roles in Hv.
  apply bind_ok in Hv as (? & Heach & Hall). rewrite for_each_ok, Forall_forall in Heach. rewrite for_each_ok, Forall_forall in Hall. split.
  - intros id role Hrole. eapply validate_role_ok, Heach, elem_of_btree_values. by exists id.
  - intros id p Hp. destruct (parse_policies_sound _ _ Hr id p Hp) as [Hid Hs]. split_and!; [done..|].
    assert (p ∈ btree_values (rg_policies r)) as Hin%Hall by (apply elem_of_btree_values; by exists id).
    apply ensure_ok in Hin. to_prop. apply elem_of_list_to_set, list_elem_of_fmap in Hin as (role & Hrid & Hmem).
    apply elem_of_btree_values in Hmem as [rid Hrid']. by exists rid, role.
Qed.

(** The shipped policies are accepted, one for each of the sixteen roles. *)
Theorem context_policies_sound_witness :
  ∃ r, package DRIVER_TABLES_KDL ROLE_REGISTRY_KDL CONTEXT_POLICY_KDL = Ok r ∧
    (∀ id p, rg_policies r !! id = Some p → cp_id p = id).
Proof.
  destruct (package DRIVER_TABLES_KDL ROLE_REGISTRY_KDL CONTEXT_POLICY_KDL) as [r|e] eqn:E.
  - exists r. split; [reflexivity|].
    destruct (context_policies_sound _ _ _ r E) as (roles & _ & _ & H). intros id p Hp. apply (H id p Hp).
  - exfalso. revert E.
    assert (match package DRIVER_TABLES_KDL ROLE_REGISTRY_KDL CONTEXT_POLICY_KDL with Ok _ => true | Err _ => false end = true)
      as A by (vm_compute; reflexivity).
    intros E. rewrite E in A. discriminate A.
Defined.

(** ** Budgets: [context/mod.rs] *)

Inductive BudgetRoute := NormalLaunch | ReprioritizeOnce | SplitAssignment.
#[global] Instance BudgetRoute_eq_dec : EqDecision BudgetRoute.
Proof. solve_decision. Defined.

Record BudgetDecision := { estimated_tokens : Z; estimated_percent : Z; route : BudgetRoute }.

Definition estimate_tokens (bytes : list Z) (overhead : Z) : Z :=
  let byte_units := div_ceil (zlen bytes) 3 in
  let base := if u32_max <? byte_units then u32_max else byte_units in
  let subtotal := saturating_add u32_max base overhead in
  saturating_add u32_max subtotal (div_ceil (saturating_mul u32_max subtotal 15) 100).

(** The product of two [u32] fits a [u64], so [as u8] is only reached in range. *)
Definition percent (tokens window : Z) : Z :=
  if window =? 0 then 100
  else
    let pct := div_ceil (saturating_mul u64_max tokens 100) window in
    if u8_max <? pct then u8_max else pct.

Definition route_budget (tokens context_window post_pass_tokens : Z) : BudgetDecision :=
  let first := percent tokens context_window in
  let route :=
    if first <=? 40 then NormalLaunch
    else if percent post_pass_tokens context_window <=? 50 then ReprioritizeOnce
    else SplitAssignment in
  {| estimated_tokens := tokens; estimated_percent := first; route := route |}.

Definition mandatory_pack {T} (items : list T) (route : BudgetRoute) : result BudgetRoute (list T) :=
  match route with
  | SplitAssignment => Err SplitAssignment
  | NormalLaunch | ReprioritizeOnce => Ok items
  end.

Lemma div_ceil_le a b k : 0 < b → div_ceil a b ≤ k ↔ a ≤ k * b.
Proof.
  intros Hb. unfold div_ceil. split; intros H.
  - pose proof (Z.mul_succ_div_gt (a + (b - 1)) b Hb). nia.
  - assert ((a + (b - 1)) / b < k + 1); [|lia]. apply Z.div_lt_upper_bound; nia.
Qed.

Lemma percent_le tokens window k :
  in_range u32_max tokens → in_range u32_max window → 0 ≤ k < 100 →
  percent tokens window ≤ k ↔ window ≠ 0 ∧ 100 * tokens ≤ k * window.
Proof.
  unfold in_range, u32_max, percent, saturating_mul, u64_max, u8_max. intros Ht Hw Hk.
  destruct (Z.eqb_spec window 0) as [->|Hne]; [lia|].
  rewrite Z.min_r by lia. pose proof (div_ceil_le (tokens * 100) window k).
  destruct (Z.ltb_spec 255 (div_ceil (tokens * 100) window)); lia.
Qed.

Lemma percent_range tokens window : 0 ≤ tokens → 0 ≤ window → in_range u8_max (percent tokens window).
Proof.
  intros Ht Hw. unfold percent, in_range, u8_max, saturating_mul, div_ceil, u64_max.
  destruct (Z.eqb_spec window 0); [lia|].
  assert (0 ≤ (Z.min 18446744073709551615 (tokens * 100) + (window - 1)) / window) by (apply Z.div_pos; lia).
  case_match eqn:E; to_prop; lia.
Qed.

(** The budget route is the exact comparison with the context window, with
    no rounding and no overflow: a launch is normal just when the tokens are at
    most 40% of a window that is not empty, is reprioritised once when the
    tokens after the pass are at most 50% of it, and is split otherwise, an
    empty window always being split; the percentage kept is a [u8]. *)
Theorem route_budget_exact (tokens window post : Z) :
  in_range u32_max tokens → in_range u32_max window → in_range u32_max post →
  (route (route_budget tokens window post) = NormalLaunch ↔ window ≠ 0 ∧ 100 * tokens ≤ 40 * window) ∧
  (route (route_budget tokens window post) = SplitAssignment ↔
     window = 0 ∨ (40 * window < 100 * tokens ∧ 50 * window < 100 * post)) ∧
  in_range u8_max (estimated_percent (route_budget tokens window post)).
Proof.
  intros Ht Hw Hp. pose proof (percent_le tokens window 40 Ht Hw) as H1.
  pose proof (percent_le post window 50 Hp Hw) as H2.
  unfold route_budget. cbn [route estimated_percent].
  assert (in_range u8_max (percent tokens window)) as Hr by (apply percent_range; [apply Ht|apply Hw]).
  destruct (Z.leb_spec (percent tokens window) 40), (Z.leb_spec (percent post window) 50);
    (split; [|split; [|exact Hr]]); split; intros; try done; lia.
Qed.

Theorem route_budget_exact_witness :
  (route (route_budget 40001 100000 50000) = NormalLaunch ↔ 100000 ≠ 0 ∧ 100 * 40001 ≤ 40 * 100000) ∧
  route (route_budget 40001 100000 50000) = ReprioritizeOnce.
Proof.
  assert (∀ z, 0 ≤ z ≤ 100000 → in_range u32_max z) as R by (intros z Hz; unfold in_range, u32_max; lia).
  split; [|vm_compute; reflexivity].
  apply (route_budget_exact 40001 100000 50000); apply R; lia.
Defined.

(** The token estimate covers its text and saturates instead of wrapping:
    it is a [u32], it never falls as the text or the overhead grows, and below
    the saturation point it is at least 115% of a token per three bytes plus
    the overhead. *)
Theorem estimate_tokens_bounds (bytes bytes' : list Z) (overhead overhead' : Z) :
  in_range u32_max overhead → in_range u32_max overhead' →
  in_range u32_max (estimate_tokens bytes overhead) ∧
  (zlen bytes ≤ zlen bytes' → overhead ≤ overhead' → estimate_tokens bytes overhead ≤ estimate_tokens bytes' overhead') ∧
  (15 * (zlen bytes + 2 + 3 * overhead) ≤ 3 * u32_max →
     115 * (zlen bytes + 3 * overhead) ≤ 300 * estimate_tokens bytes overhead).
Proof.
  unfold in_range, u32_max, estimate_tokens, saturating_add, saturating_mul, div_ceil, u32_max. intros Ho Ho'.
  pose proof (zlen_nonneg bytes). pose proof (zlen_nonneg bytes').
  set (n := zlen bytes) in *. set (n' := zlen bytes') in *. clearbody n n'. split_and!.
  - repeat case_match; to_prop; Z.to_euclidean_division_equations; lia.
  - repeat case_match; to_prop; Z.to_euclidean_division_equations; lia.
  - repeat case_match; to_prop; Z.to_euclidean_division_equations; lia.
  - repeat case_match; to_prop; Z.to_euclidean_division_equations; lia.
Qed.

Theorem estimate_tokens_bounds_witness :
  in_range u32_max (estimate_tokens (repeat 0 3000) 100) ∧ estimate_tokens (repeat 0 3000) 100 = 1265 ∧
  estimate_tokens [] u32_max = u32_max.
Proof.
  split_and!; [|vm_compute; reflexivity..].
  apply (estimate_tokens_bounds (repeat 0 3000) [] 100 100); unfold in_range, u32_max; lia.
Defined.

(** ** Anchors: [parse_anchor] *)

Inductive ContextAnchorForm := Dossier | Json | Plan | Run | Task | VersionControlLines | VersionControlWholeFile.
Record ContextAnchor := { anchor_form : ContextAnchorForm; uri : string }.

Definition anchor_boundary : BoundaryDescriptor :=
  {| bd_id := "context.anchor.v1"; bd_producer := PPackage;
     bd_admits := "D76 section 4.1 context anchors must match one of the seven canonical URI forms.";
     bd_mode := Enforce |}.

Definition reject_anchor (raw : string) : result Rejection unit := reject_declared anchor_boundary raw.

Definition split_anchor (value needle raw : string) : result Rejection (string * string) :=
  match split_once needle value with
  | Some parts => Ok parts
  | None => _ ← reject_anchor raw; Ok ("", "")
  end.
Definition split_hash (value raw : string) : result Rejection (string * string) := split_anchor value "#" raw.

Definition require (ok : bool) (raw : string) : result Rejection unit := if ok then Ok tt else reject_anchor raw.
Definition require_pair (parts : string * string) (raw : string) : result Rejection unit :=
  require (negb (is_empty parts.1) && negb (is_empty parts.2)) raw.
Definition require_u32 (value raw : string) : result Rejection unit :=
  require (bool_decide (is_Some (parse_uint u32_max value))) raw.

Definition parse_git (rest raw : string) : result Rejection ContextAnchorForm :=
  parts ← split_hash rest raw;
  let '(body, fragment) := parts in
  _ ← require (contains "/" body) raw;
  if fragment =s "whole-file" then Ok VersionControlWholeFile
  else
    range ← match strip_prefix "L" fragment with
            | Some value => Ok value
            | None => _ ← reject_anchor raw; Ok ""
            end;
    ends ← split_anchor range "-L" raw;
    let '(lo, hi) := ends in
    _ ← require_u32 lo raw;
    _ ← require_u32 hi raw;
    Ok VersionControlLines.

(** A body with a slash, a hash, and a fragment with a prefix. *)
Definition parse_fragment (prefix rest raw : string) (form : ContextAnchorForm) : result Rejection ContextAnchorForm :=
  parts ← split_hash rest raw;
  let '(body, fragment) := parts in
  _ ← require (contains "/" body) raw;
  _ ← require (bool_decide (is_Some (strip_prefix prefix fragment))) raw;
  Ok form.

(** Two nonempty parts around a needle. *)
Definition parse_pair (needle rest raw : string) (form : ContextAnchorForm) : result Rejection ContextAnchorForm :=
  parts ← split_anchor rest needle raw;
  _ ← require_pair parts raw;
  Ok form.

Definition parse_form (raw : string) : result Rejection ContextAnchorForm :=
  match strip_prefix "task://" raw with
  | Some rest => parse_fragment "heading=" rest raw Task
  | None =>
  match strip_prefix "plan://" raw with
  | Some rest => parse_pair "/units/" rest raw Plan
  | None =>
  match strip_prefix "dossier://" raw with
  | Some rest => parse_pair "/findings/" rest raw Dossier
  | None =>
  match strip_prefix "run://" raw with
  | Some rest => parse_pair "/findings/" rest raw Run
  | None =>
  match strip_prefix "git://" raw with
  | Some rest => parse_git rest raw
  | None =>
  match strip_prefix "json://" raw with
  | Some rest => parse_fragment "/" rest raw Json
  | None => _ ← reject_anchor raw; Ok Json
  end end end end end end.

Definition parse_anchor (raw : string) : result Rejection ContextAnchor :=
  form ← parse_form raw;
  Ok {| anchor_form := form; uri := raw |}.

(** The seven forms. *)
Definition split_at (needle rest l r : string) : Prop := split_once needle rest = Some (l, r).

Definition anchor_shape (form : ContextAnchorForm) (raw : string) : Prop :=
  match form with
  | Task => ∃ rest body h, raw = "task://" +:+ rest ∧ split_at "#" rest body ("heading=" +:+ h) ∧ contains "/" body = true
  | Json => ∃ rest body p, raw = "json://" +:+ rest ∧ split_at "#" rest body ("/" +:+ p) ∧ contains "/" body = true
  | Plan => ∃ rest l r, raw = "plan://" +:+ rest ∧ split_at "/units/" rest l r ∧ l ≠ "" ∧ r ≠ ""
  | Dossier => ∃ rest l r, raw = "dossier://" +:+ rest ∧ split_at "/findings/" rest l r ∧ l ≠ "" ∧ r ≠ ""
  | Run => ∃ rest l r, raw = "run://" +:+ rest ∧ split_at "/findings/" rest l r ∧ l ≠ "" ∧ r ≠ ""
  | VersionControlWholeFile =>
      ∃ rest body, raw = "git://" +:+ rest ∧ split_at "#" rest body "whole-file" ∧ contains "/" body = true
  | VersionControlLines =>
      ∃ rest body range l r, raw = "git://" +:+ rest ∧ split_at "#" rest body ("L" +:+ range) ∧
        contains "/" body = true ∧ split_at "-L" range l r ∧
        is_Some (parse_uint u32_max l) ∧ is_Some (parse_uint u32_max r)
  end.

Lemma require_ok b raw u : require b raw = Ok u ↔ b = true.
Proof. destruct b, u; cbn; split; done. Qed.

Lemma split_anchor_ok value needle raw parts :
  split_anchor value needle raw = Ok parts ↔ split_once needle value = Some parts.
Proof. unfold split_anchor. destruct (split_once needle value); cbn; split; intros; by simplify_eq. Qed.

Lemma require_pair_ok parts raw u : require_pair parts raw = Ok u ↔ parts.1 ≠ "" ∧ parts.2 ≠ "".
Proof.
  unfold require_pair, is_empty. rewrite require_ok, andb_true_iff, !negb_true_iff, !bool_decide_eq_false. done.
Qed.

Lemma require_u32_ok v raw u : require_u32 v raw = Ok u ↔ is_Some (parse_uint u32_max v).
Proof. unfold require_u32. by rewrite require_ok, bool_decide_eq_true. Qed.

Lemma parse_fragment_ok prefix rest raw form f :
  parse_fragment prefix rest raw form = Ok f ↔
  f = form ∧ ∃ body h, split_at "#" rest body (prefix +:+ h) ∧ contains "/" body = true.
Proof.
  unfold parse_fragment, split_hash, split_at. split.
  - intros H. apply bind_ok in H as ([body fragment] & Hs & H). apply split_anchor_ok in Hs.
    apply bind_ok in H as (u & Hc & H). apply require_ok in Hc.
    apply bind_ok in H as (u' & Hp & H). apply require_ok in Hp. to_prop. destruct Hp as [h Hp%strip_prefix_spec].
    injection H as <-. split; [done|]. exists body, h. by rewrite <- Hp.
  - intros (-> & body & h & Hs & Hc). apply bind_ok. exists (body, prefix +:+ h).
    split; [by apply split_anchor_ok|]. rewrite Hc. cbn. rewrite strip_prefix_app. by rewrite bool_decide_true by eauto.
Qed.

Lemma parse_pair_ok needle rest raw form f :
  parse_pair needle rest raw form = Ok f ↔
  f = form ∧ ∃ l r, split_at needle rest l r ∧ l ≠ "" ∧ r ≠ "".
Proof.
  unfold parse_pair, split_at. split.
  - intros H. apply bind_ok in H as ([l r] & Hs & H). apply split_anchor_ok in Hs.
    apply bind_ok in H as (u & Hp & H). apply require_pair_ok in Hp. injection H as <-. eauto 10.
  - intros (-> & l & r & Hs & Hl & Hr). apply bind_ok. exists (l, r). split; [by apply split_anchor_ok|].
    apply bind_ok. exists tt. split; [by apply require_pair_ok|done].
Qed.

Lemma parse_git_ok rest raw f :
  parse_git rest raw = Ok f ↔
  (∃ body, f = VersionControlWholeFile ∧ split_at "#" rest body "whole-file" ∧ contains "/" body = true) ∨
  (∃ body range l r, f = VersionControlLines ∧ split_at "#" rest body ("L" +:+ range) ∧ contains "/" body = true ∧
     split_at "-L" range l r ∧ is_Some (parse_uint u32_max l) ∧ is_Some (parse_uint u32_max r)).
Proof.
  unfold parse_git, split_hash, split_at. split.
  - intros H. apply bind_ok in H as ([body fragment] & Hs & H). apply split_anchor_ok in Hs.
    apply bind_ok in H as (u & Hc & H). apply require_ok in Hc.
    destruct (fragment =s "whole-file") eqn:Hw; to_prop; [injection H as <-; subst; eauto|].
    apply bind_ok in H as (range & Hr & H). right.
    destruct (strip_prefix "L" fragment) as [v|] eqn:Hv; [|done]. injection Hr as ->. apply strip_prefix_spec in Hv.
    apply bind_ok in H as ([l r] & Hlr & H). apply split_anchor_ok in Hlr.
    apply bind_ok in H as (? & Hl & H). apply require_u32_ok in Hl.
    apply bind_ok in H as (? & Hr & H). apply require_u32_ok in Hr. injection H as <-.
    exists body, range, l, r. by rewrite <- Hv.
  - intros [(body & -> & Hs & Hc)|(body & range & l & r & -> & Hs & Hc & Hlr & Hl & Hr)].
    + apply bind_ok. exists (body, "whole-file"). split; [by apply split_anchor_ok|]. by rewrite Hc.
    + apply bind_ok. exists (body, "L" +:+ range). split; [by apply split_anchor_ok|]. rewrite Hc. cbn.
      rewrite bool_decide_false by done. apply bind_ok. exists (l, r). split; [by apply split_anchor_ok|].
      apply bind_ok. exists tt. split; [by apply require_u32_ok|].
      apply bind_ok. exists tt. split; [by apply require_u32_ok|done].
Qed.

Lemma parse_form_ok raw form : parse_form raw = Ok form ↔ anchor_shape form raw.
Proof.
  split.
  - unfold parse_form. intros H.
    repeat match type of H with
      | match strip_prefix ?p raw with _ => _ end = _ =>
          let rest := fresh "rest" in let E := fresh "E" in
          destruct (strip_prefix p raw) as [rest|] eqn:E; [apply strip_prefix_spec in E|clear E]
      end; [| | | | | |done].
    1, 6: apply parse_fragment_ok in H as (-> & body & h & ? & ?); by exists rest, body, h.
    1, 2, 3: apply parse_pair_ok in H as (-> & l & r & ? & ? & ?); by exists rest, l, r.
    apply parse_git_ok in H as [(body & -> & ? & ?)|(body & range & l & r & -> & ? & ? & ? & ? & ?)];
      [by exists rest, body|by exists rest, body, range, l, r].
  - destruct form; cbn [anchor_shape].
    1, 3, 4: intros (rest & l & r & -> & ?); apply parse_pair_ok; eauto.
    1, 2: intros (rest & body & h & -> & ? & ?); apply parse_fragment_ok; eauto.
    + intros (rest & body & range & l & r & -> & ?). apply parse_git_ok. right. by exists body, range, l, r.
    + intros (rest & body & -> & ?). apply parse_git_ok. left. by exists body.
Qed.

(** An anchor is accepted just when it has one of the seven forms, keeps its
    URI as written, and is otherwise rejected at its boundary with that URI. *)
Theorem anchor_exact (raw : string) (a : ContextAnchor) :
  (parse_anchor raw = Ok a ↔ uri a = raw ∧ anchor_shape (anchor_form a) raw) ∧
  ((∀ form, ¬ anchor_shape form raw) → ∃ e, parse_anchor raw = Err e).
Proof.
  unfold parse_anchor. split.
  - rewrite bind_ok. split.
    + intros (form & Hf & H). injection H as <-. split; [done|]. by apply parse_form_ok.
    + intros [<- Hs]. exists (anchor_form a). split; [by apply parse_form_ok|]. by destruct a.
  - intros Hno. destruct (parse_form raw) as [form|e] eqn:Hf; [|by exists e].
    apply parse_form_ok in Hf. by destruct (Hno form).
Qed.

(** ** The shell of a manifest *)

Record ContextManifestRole := { cmr_id : string; cmr_version : Z; cmr_mode : string; cmr_mode_version : Z }.
Record ContextManifestFreshness := {
  task_revision : string; plan_revision : string; dossier_revision : string; runtime_revision : Z; git_commit : string;
}.
Record ContextManifestBudget := {
  context_window : Z; estimated_initial_tokens : Z; cmb_estimated_percent : Z; estimator : string;
}.
Record ContextItem := {
  ci_id : string; ci_authority_class : string; ci_source_uri : string; ci_anchor : ContextAnchor;
  ci_source_digest : string; ci_content_digest : string; ci_purpose : string;
  ci_linked_criterion : option string; ci_linked_decision : option string; ci_linked_unit : option string;
  ci_token_estimate : Z; ci_redaction_state : string;
}.
Record ContextGap := {
  cg_id : string; cg_missing_fact_or_ref : string; cg_reason : string;
  cg_affected_criterion : option string; cg_affected_decision : option string; cg_known_source : option string;
}.
Record ContextManifest := {
  cm_schema : string; cm_manifest_id : string; cm_revision : Z; cm_run_id : string; cm_assignment_id : string;
  cm_role : ContextManifestRole; cm_freshness : ContextManifestFreshness; cm_budget : ContextManifestBudget;
  cm_mandatory_inline : list ContextItem; cm_required_reads : list ContextItem;
  cm_on_demand : list ContextItem; cm_excluded : list ContextItem; cm_gaps : list ContextGap;
  cm_curator_proposal_ref : option string;
}.

Definition manifest_shell (manifest_id run_id assignment_id role_id : string) (budget : BudgetDecision) : ContextManifest :=
  {| cm_schema := "autopilot.context_manifest.v1"; cm_manifest_id := manifest_id; cm_revision := 1;
     cm_run_id := run_id; cm_assignment_id := assignment_id;
     cm_role := {| cmr_id := role_id; cmr_version := 1; cmr_mode := "lane-delivery"; cmr_mode_version := 1 |};
     cm_freshness := {| task_revision := ""; plan_revision := ""; dossier_revision := ""; runtime_revision := 0; git_commit := "" |};
     cm_budget := {| context_window := 0; estimated_initial_tokens := estimated_tokens budget;
                     cmb_estimated_percent := estimated_percent budget; estimator := "conservative-utf8-v1" |};
     cm_mandatory_inline := []; cm_required_reads := []; cm_on_demand := []; cm_excluded := []; cm_gaps := [];
     cm_curator_proposal_ref := None |}.
