(* ===== verification/Checkpoint.v ===== *)
(** * Checkpoints, hand-offs and the context budget

    [drivers/src/checkpoint/mod.rs]: the checkpoint policy read from its KDL
    document, the validation of an agent's hand-off against it, the decision
    that follows from the use of the context window, and the actions that the
    decision allows.  A percentage is an IEEE double ([SpecFloat]); JSON is
    written and read by a library. *)

From Stdlib Require Import Floats.SpecFloat.
From S2P Require Import Prelude RustColl RustStr Failure Kdl.

(** ** JSON values *)

(** [serde_json::Value]; an object is its bindings in key order. *)
Inductive Value :=
| VNull | VBool (b : bool) | VNumber (text : string) | VString (s : string)
| VArray (items : list Value) | VObject (members : list (string * Value)).

Definition as_str (v : Value) : option string := match v with VString s => Some s | _ => None end.
Definition as_array (v : Value) : option (list Value) := match v with VArray l => Some l | _ => None end.

Fixpoint json_contains_number (v : Value) : bool :=
  match v with
  | VNumber _ => true
  | VArray items => existsb json_contains_number items
  | VObject members => existsb (λ '(_, v), json_contains_number v) members
  | VNull | VBool _ | VString _ => false
  end.

Definition json_scalar (v : Value) : bool :=
  match v with VNull | VBool _ | VNumber _ | VString _ => true | VArray _ | VObject _ => false end.
Definition json_depth_two (v : Value) : bool :=
  match v with
  | VNull | VBool _ | VNumber _ | VString _ => true
  | VArray items => all json_scalar items
  | VObject _ => false
  end.

(** ** Hand-offs *)

Inductive HandoffSchema := V1.

Record AgentHandoff := {
  ah_schema : HandoffSchema;
  ah_completed : list string;
  ah_remaining : list string;
  ah_critical_state : gmap string Value;
  ah_next_action : string;
  ah_extras : gmap string Value;
}.

Definition handoff_new (completed remaining : list string) (critical_state : gmap string Value) (next_action : string)
  : AgentHandoff :=
  {| ah_schema := V1; ah_completed := completed; ah_remaining := remaining; ah_critical_state := critical_state;
     ah_next_action := next_action; ah_extras := ∅ |}.

(** What is used of [serde_json]: parsing, the typed reading of a value, the
    value and the length in bytes of what is written. *)
Record Serde := {
  from_str : string → result string Value;
  from_value : Value → result string AgentHandoff;
  to_value : AgentHandoff → result string Value;
  value_len : Value → result string Z;
  handoff_len : AgentHandoff → result string Z;
}.

(** ** The policy *)

Record HandoffBounds := {
  completed_max_entries : Z;
  remaining_max_entries : Z;
  entry_max_bytes : Z;
  total_max_bytes : Z;
  critical_state_max_slots : Z;
  critical_state_value_max_bytes : Z;
  critical_state_array_max_entries : Z;
}.

Inductive CheckpointSlotType := TString | TArrayString.
#[global] Instance CheckpointSlotType_eq_dec : EqDecision CheckpointSlotType.
Proof. solve_decision. Defined.

Record CheckpointSlot := {
  cs_key : string; cs_value_type : CheckpointSlotType; cs_required : bool; cs_max_entries : option Z; cs_max_bytes : Z;
}.
Record SlotSet := { ss_output_contract : string; ss_slots : list CheckpointSlot }.
Record RoleCheckpointPolicy := { rc_interruptible : bool; rc_slot_set : option string }.
Record CheckpointPolicy := {
  cp_handoff_contract : string;
  cp_thresholds : gmap string Z;
  cp_bounds : HandoffBounds;
  cp_slot_sets : gmap string SlotSet;
  cp_roles : gmap string RoleCheckpointPolicy;
}.

(** ** Reading nodes *)

Definition tick (s : string) : string := "`" +:+ s +:+ "`".

Section Policy.
Context `{KdlLib}.

Definition arg_value (n : KdlNode) (index : nat) : result string KdlValue :=
  ok_or (node_args n !! index)
    ("node " +:+ tick (node_name n) +:+ " missing argument " +:+ show_uint (Z.of_nat index)).
Definition arg_string (n : KdlNode) (index : nat) : result string string :=
  v ← arg_value n index;
  ok_or (kdl_string v)
    ("node " +:+ tick (node_name n) +:+ " argument " +:+ show_uint (Z.of_nat index) +:+ " must be string").
Definition arg_u64 (n : KdlNode) (index : nat) : result string Z :=
  v ← arg_value n index;
  integer ← ok_or (kdl_integer v)
    ("node " +:+ tick (node_name n) +:+ " argument " +:+ show_uint (Z.of_nat index) +:+ " must be integer");
  ok_or (to_u64 integer)
    ("node " +:+ tick (node_name n) +:+ " argument " +:+ show_uint (Z.of_nat index) +:+ " must be non-negative").

Definition prop_value (n : KdlNode) (key : string) : result string KdlValue :=
  ok_or (en_value <$> kdl_entry n key) ("node " +:+ tick (node_name n) +:+ " missing property " +:+ tick key).
Definition prop_must (n : KdlNode) (key what : string) : string :=
  "node " +:+ tick (node_name n) +:+ " property " +:+ tick key +:+ " " +:+ what.
Definition prop_string (n : KdlNode) (key : string) : result string string :=
  v ← prop_value n key;
  ok_or (kdl_string v) (prop_must n key "must be string").
Definition prop_string_optional (n : KdlNode) (key : string) : result string (option string) :=
  match kdl_entry n key with
  | Some e => match kdl_string (en_value e) with Some s => Ok (Some s) | None => Err (prop_must n key "must be string") end
  | None => Ok None
  end.
Definition nonempty_prop (n : KdlNode) (key : string) : result string string :=
  value ← prop_string n key;
  if blank value then Err (prop_must n key "must be non-empty") else Ok value.
Definition prop_bool (n : KdlNode) (key : string) : result string bool :=
  v ← prop_value n key;
  ok_or (kdl_bool v) (prop_must n key "must be bool").
Definition prop_u64 (n : KdlNode) (key : string) : result string Z :=
  v ← prop_value n key;
  integer ← ok_or (kdl_integer v) (prop_must n key "must be integer");
  ok_or (to_u64 integer) (prop_must n key "must be non-negative").
(** [usize] has 64 bits: every [u64] fits. *)
Definition prop_usize (n : KdlNode) (key : string) : result string Z :=
  value ← prop_u64 n key;
  if value <=? usize_max then Ok value else Err (prop_must n key "does not fit usize").

(** ** [parse_source] *)

Record Reading := {
  rd_schema_seen : bool;
  rd_version_seen : bool;
  rd_handoff_contract : option string;
  rd_thresholds : gmap string Z;
  rd_bounds : option HandoffBounds;
  rd_slot_sets : gmap string SlotSet;
  rd_roles : gmap string RoleCheckpointPolicy;
}.
Definition reading_start : Reading :=
  {| rd_schema_seen := false; rd_version_seen := false; rd_handoff_contract := None; rd_thresholds := ∅;
     rd_bounds := None; rd_slot_sets := ∅; rd_roles := ∅ |}.

Definition read_bounds (n : KdlNode) : result string HandoffBounds :=
  completed ← prop_usize n "completed_max_entries";
  remaining ← prop_usize n "remaining_max_entries";
  entry ← prop_usize n "entry_max_bytes";
  total ← prop_usize n "total_max_bytes";
  slots ← prop_usize n "critical_state_max_slots";
  value ← prop_usize n "critical_state_value_max_bytes";
  array ← prop_usize n "critical_state_array_max_entries";
  Ok {| completed_max_entries := completed; remaining_max_entries := remaining; entry_max_bytes := entry;
        total_max_bytes := total; critical_state_max_slots := slots; critical_state_value_max_bytes := value;
        critical_state_array_max_entries := array |}.

(** One child of a slot set: the slots so far, whose keys are [slot_keys]. *)
Definition read_slot (id : string) (slots : list CheckpointSlot) (child : KdlNode)
  : result string (list CheckpointSlot) :=
  if negb (node_name child =s "slot")
  then Err ("slot_set " +:+ tick id +:+ " has unknown child " +:+ tick (node_name child))
  else
    key ← arg_string child 0;
    if bool_decide (key ∈ map cs_key slots) then Err ("slot_set " +:+ tick id +:+ " duplicates slot " +:+ tick key)
    else
      ty ← prop_string child "type";
      value_type ← (if ty =s "string" then Ok TString
                    else if ty =s "array<string>" then Ok TArrayString
                    else Err ("checkpoint slot " +:+ tick key +:+ " has unsupported type " +:+ tick ty));
      required ← prop_bool child "required";
      max_entries ← (if value_type =s TArrayString
                     then m ← prop_usize child "max_entries"; Ok (Some m)
                     else Ok None);
      max_bytes ← prop_usize child "max_bytes";
      _ ← nonempty_prop child "doc";
      Ok (slots ++ [{| cs_key := key; cs_value_type := value_type; cs_required := required;
                       cs_max_entries := max_entries; cs_max_bytes := max_bytes |}]).

Definition read_slot_set (n : KdlNode) : result string (string * SlotSet) :=
  id ← arg_string n 0;
  output_contract ← nonempty_prop n "output_contract";
  _ ← nonempty_prop n "rationale";
  children ← ok_or (node_children n) ("slot_set " +:+ tick id +:+ " missing slots");
  slots ← fold_res (read_slot id) [] children;
  Ok (id, {| ss_output_contract := output_contract; ss_slots := slots |}).

Definition read_role (n : KdlNode) : result string (string * RoleCheckpointPolicy) :=
  role_id ← arg_string n 0;
  interruptible ← prop_bool n "interruptible";
  slot_set ← prop_string_optional n "slot_set";
  _ ← nonempty_prop n "reason";
  if interruptible && bool_decide (slot_set = None)
  then Err ("interruptible role " +:+ tick role_id +:+ " missing slot_set")
  else if negb interruptible && bool_decide (is_Some slot_set)
  then Err ("non-interruptible role " +:+ tick role_id +:+ " must not declare slot_set")
  else Ok (role_id, {| rc_interruptible := interruptible; rc_slot_set := slot_set |}).

Definition read_node (r : Reading) (n : KdlNode) : result string Reading :=
  let name := node_name n in
  if name =s "schema" then
    value ← arg_string n 0;
    if negb (value =s "autopilot.checkpoint-policy.v1") then Err ("bad checkpoint policy schema " +:+ tick value)
    else Ok {| rd_schema_seen := true; rd_version_seen := rd_version_seen r; rd_handoff_contract := rd_handoff_contract r;
               rd_thresholds := rd_thresholds r; rd_bounds := rd_bounds r; rd_slot_sets := rd_slot_sets r; rd_roles := rd_roles r |}
  else if name =s "version" then
    value ← arg_u64 n 0;
    if negb (value =? 1) then Err ("bad checkpoint policy version " +:+ tick (show_uint value))
    else Ok {| rd_schema_seen := rd_schema_seen r; rd_version_seen := true; rd_handoff_contract := rd_handoff_contract r;
               rd_thresholds := rd_thresholds r; rd_bounds := rd_bounds r; rd_slot_sets := rd_slot_sets r; rd_roles := rd_roles r |}
  else if name =s "doc" then Ok r
  else if name =s "handoff_contract" then
    value ← arg_string n 0;
    Ok {| rd_schema_seen := rd_schema_seen r; rd_version_seen := rd_version_seen r; rd_handoff_contract := Some value;
          rd_thresholds := rd_thresholds r; rd_bounds := rd_bounds r; rd_slot_sets := rd_slot_sets r; rd_roles := rd_roles r |}
  else if name =s "threshold" then
    key ← arg_string n 0;
    percent ← prop_u64 n "percent";
    if bool_decide (is_Some (rd_thresholds r !! key)) then Err ("duplicate threshold " +:+ tick key)
    else
      _ ← nonempty_prop n "basis";
      Ok {| rd_schema_seen := rd_schema_seen r; rd_version_seen := rd_version_seen r; rd_handoff_contract := rd_handoff_contract r;
            rd_thresholds := <[key := percent]> (rd_thresholds r); rd_bounds := rd_bounds r; rd_slot_sets := rd_slot_sets r; rd_roles := rd_roles r |}
  else if name =s "handoff_bounds" then
    if bool_decide (is_Some (rd_bounds r)) then Err "duplicate handoff_bounds"
    else
      _ ← nonempty_prop n "basis";
      bounds ← read_bounds n;
      Ok {| rd_schema_seen := rd_schema_seen r; rd_version_seen := rd_version_seen r; rd_handoff_contract := rd_handoff_contract r;
            rd_thresholds := rd_thresholds r; rd_bounds := Some bounds; rd_slot_sets := rd_slot_sets r; rd_roles := rd_roles r |}
  else if name =s "slot_set" then
    entry ← read_slot_set n;
    let '(id, slot_set) := entry in
    if bool_decide (is_Some (rd_slot_sets r !! id)) then Err ("duplicate slot_set " +:+ tick id)
    else Ok {| rd_schema_seen := rd_schema_seen r; rd_version_seen := rd_version_seen r; rd_handoff_contract := rd_handoff_contract r;
               rd_thresholds := rd_thresholds r; rd_bounds := rd_bounds r; rd_slot_sets := <[id := slot_set]> (rd_slot_sets r); rd_roles := rd_roles r |}
  else if name =s "role_policy" then
    entry ← read_role n;
    let '(role_id, role) := entry in
    if bool_decide (is_Some (rd_roles r !! role_id)) then Err ("duplicate role_policy " +:+ tick role_id)
    else Ok {| rd_schema_seen := rd_schema_seen r; rd_version_seen := rd_version_seen r; rd_handoff_contract := rd_handoff_contract r;
               rd_thresholds := rd_thresholds r; rd_bounds := rd_bounds r; rd_slot_sets := rd_slot_sets r; rd_roles := <[role_id := role]> (rd_roles r) |}
  else Err ("unknown checkpoint policy node " +:+ tick name).
End Policy.

(** ** [validate_shape] *)

Definition bound_rows (b : HandoffBounds) : list (string * Z) :=
  [("completed_max_entries", completed_max_entries b);
   ("remaining_max_entries", remaining_max_entries b);
   ("entry_max_bytes", entry_max_bytes b);
   ("total_max_bytes", total_max_bytes b);
   ("critical_state_max_slots", critical_state_max_slots b);
   ("critical_state_value_max_bytes", critical_state_value_max_bytes b);
   ("critical_state_array_max_entries", critical_state_array_max_entries b)].

(** The products are [usize] products without a check: in a release build they
    wrap around. *)
Definition bounds_exceed_total (b : HandoffBounds) : bool :=
  (total_max_bytes b <? entry_max_bytes b)
  || (total_max_bytes b <? critical_state_value_max_bytes b)
  || (total_max_bytes b <? wrapping_mul usize_max (completed_max_entries b) (entry_max_bytes b))
  || (total_max_bytes b <? wrapping_mul usize_max (remaining_max_entries b) (entry_max_bytes b)).

Definition check_slot (b : HandoffBounds) (slot : CheckpointSlot) : result string unit :=
  if (cs_max_bytes slot =? 0) || (critical_state_value_max_bytes b <? cs_max_bytes slot)
  then Err ("slot " +:+ tick (cs_key slot) +:+ " has incoherent max_bytes")
  else match cs_max_entries slot with
       | Some m => if (m =? 0) || (critical_state_array_max_entries b <? m)
                   then Err ("slot " +:+ tick (cs_key slot) +:+ " has incoherent max_entries") else Ok tt
       | None => Ok tt
       end.

Definition check_slot_set (b : HandoffBounds) (entry : string * SlotSet) : result string unit :=
  let '(id, set) := entry in
  if blank (ss_output_contract set) then Err ("slot_set " +:+ tick id +:+ " missing output_contract")
  else if critical_state_max_slots b <? zlen (ss_slots set)
  then Err ("slot_set " +:+ tick id +:+ " exceeds critical_state_max_slots")
  else if negb (any cs_required (ss_slots set)) then Err ("slot_set " +:+ tick id +:+ " has no required slots")
  else for_each (check_slot b) (ss_slots set).

Definition validate_shape (p : CheckpointPolicy) : result string unit :=
  arm ← ok_or (cp_thresholds p !! "arm") "missing arm threshold";
  checkpoint ← ok_or (cp_thresholds p !! "checkpoint") "missing checkpoint threshold";
  if negb ((0 <? arm) && (arm <? checkpoint) && (checkpoint <? 100))
  then Err ("incoherent thresholds arm=" +:+ show_uint arm +:+ " checkpoint=" +:+ show_uint checkpoint)
  else
    _ ← for_each (λ '(name, value), if value =? 0 then Err ("bound " +:+ tick name +:+ " must be positive") else Ok tt)
          (bound_rows (cp_bounds p));
    if bounds_exceed_total (cp_bounds p) then Err "handoff bounds exceed total_max_bytes"
    else for_each (check_slot_set (cp_bounds p)) (btree_map (cp_slot_sets p)).

Definition parse_nodes `{KdlLib} (nodes : list KdlNode) : result string CheckpointPolicy :=
  r ← fold_res read_node reading_start nodes;
  if negb (rd_schema_seen r) then Err "missing checkpoint policy schema"
  else if negb (rd_version_seen r) then Err "missing checkpoint policy version"
  else
    handoff_contract ← ok_or (rd_handoff_contract r) "missing handoff_contract";
    bounds ← ok_or (rd_bounds r) "missing handoff_bounds";
    let policy := {| cp_handoff_contract := handoff_contract; cp_thresholds := rd_thresholds r; cp_bounds := bounds;
                     cp_slot_sets := rd_slot_sets r; cp_roles := rd_roles r |} in
    _ ← validate_shape policy;
    _ ← for_each (λ '(role_id, role),
          match rc_slot_set role with
          | Some id => if bool_decide (is_Some (cp_slot_sets policy !! id)) then Ok tt
                       else Err ("role " +:+ tick role_id +:+ " references unknown slot_set " +:+ tick id)
          | None => Ok tt
          end) (btree_map (cp_roles policy));
    Ok policy.

(** [parse_source]; the KDL parser is a parameter. *)
Definition parse_source `{KdlLib} (kdl_parse : string → result string (list KdlNode)) (source : string)
  : result string CheckpointPolicy :=
  nodes ← map_err (λ e, "checkpoint policy KDL parse error: " +:+ e) (kdl_parse source);
  parse_nodes nodes.

(** ** Roles and slots *)

Definition policy_role (p : CheckpointPolicy) (role_id : string) : result string RoleCheckpointPolicy :=
  ok_or (cp_roles p !! role_id) ("unknown checkpoint role " +:+ tick role_id).
Definition interruptible_roles (p : CheckpointPolicy) : list string :=
  map fst (filter (λ e, rc_interruptible e.2 = true) (btree_map (cp_roles p))).

Definition required_slots (p : CheckpointPolicy) (role_id : string) : result string (list CheckpointSlot) :=
  role ← policy_role p role_id;
  if negb (rc_interruptible role) then Err ("role " +:+ tick role_id +:+ " is not interruptible")
  else
    id ← ok_or (rc_slot_set role) ("role " +:+ tick role_id +:+ " missing slot_set");
    set ← ok_or (cp_slot_sets p !! id) ("role " +:+ tick role_id +:+ " references unknown slot_set " +:+ tick id);
    Ok (filter (λ s, cs_required s = true) (ss_slots set)).
Definition required_slot_names (p : CheckpointPolicy) (role_id : string) : result string (list string) :=
  slots ← required_slots p role_id;
  Ok (map cs_key slots).
(** The keys of a [BTreeMap] come sorted, so sorting them again changes nothing. *)
Definition required_slot_names_from_handoff (h : AgentHandoff) : result string (list string) :=
  Ok (sort_by String.compare (btree_keys (ah_critical_state h))).

(** ** Validation of a hand-off *)

Definition enforce_bound (bound : string) (observed limit : Z) (location : string) : result string unit :=
  if limit <? observed
  then Err ("checkpoint handoff violates " +:+ bound +:+ " at " +:+ location +:+ ": observed " +:+ show_uint observed +:+
            " > limit " +:+ show_uint limit)
  else Ok tt.

Fixpoint indexed {A} (i : Z) (l : list A) : list (Z * A) :=
  match l with [] => [] | x :: l' => (i, x) :: indexed (i + 1) l' end.

Definition validate_string_list (field : string) (values : list string) (max_entries entry_max_bytes : Z) : result string unit :=
  _ ← enforce_bound (if field =s "completed" then "completed_max_entries" else "remaining_max_entries")
        (zlen values) max_entries field;
  for_each (λ '(index, value), enforce_bound "entry_max_bytes" (str_len value) entry_max_bytes
              (field +:+ "[" +:+ show_uint index +:+ "]")) (indexed 0 values).

Section Handoff.
Context (serde : Serde).

Definition check_value (b : HandoffBounds) (entry : string * Value) : result string unit :=
  let '(key, value) := entry in
  if negb (json_depth_two value)
  then Err ("agent-run handoff critical_state slot " +:+ tick key +:+ " exceeds depth 2")
  else
    value_bytes ← map_err (λ e, "checkpoint handoff value serialize failed: " +:+ e) (value_len serde value);
    enforce_bound "critical_state_value_max_bytes" value_bytes (critical_state_value_max_bytes b) ("critical_state." +:+ key).

Definition blank_text (v : Value) : bool := match as_str v with Some s => blank s | None => true end.

(** [None] is the panic of [expect("array slot has max_entries")]. *)
Definition check_slot_type (slot : CheckpointSlot) (value : Value) : option (result string unit) :=
  match cs_value_type slot with
  | TString =>
      Some (if blank_text value
            then Err ("agent-run critical_state slot " +:+ tick (cs_key slot) +:+ " must be a non-empty string") else Ok tt)
  | TArrayString =>
      match as_array value with
      | None => Some (Err ("agent-run critical_state slot " +:+ tick (cs_key slot) +:+ " must be an array"))
      | Some values =>
          match cs_max_entries slot with
          | None => None
          | Some max_entries =>
              Some (_ ← enforce_bound "max_entries" (zlen values) max_entries ("critical_state." +:+ cs_key slot);
                    if bool_decide (values = []) || any blank_text values
                    then Err ("agent-run critical_state slot " +:+ tick (cs_key slot) +:+ " must contain non-empty strings")
                    else Ok tt)
          end
      end
  end.

Definition check_required (role_id : string) (h : AgentHandoff) (slot : CheckpointSlot) : option (result string unit) :=
  match ah_critical_state h !! cs_key slot with
  | None => Some (Err ("agent-run role " +:+ tick role_id +:+ " missing required critical_state slot " +:+ tick (cs_key slot)))
  | Some value =>
      match (value_bytes ← map_err (λ e, "checkpoint handoff slot serialize failed: " +:+ e) (value_len serde value);
             enforce_bound "max_bytes" value_bytes (cs_max_bytes slot) ("critical_state." +:+ cs_key slot)) with
      | Err e => Some (Err e)
      | Ok _ => check_slot_type slot value
      end
  end.

Fixpoint check_required_slots (role_id : string) (h : AgentHandoff) (slots : list CheckpointSlot) : option (result string unit) :=
  match slots with
  | [] => Some (Ok tt)
  | slot :: slots' =>
      match check_required role_id h slot with
      | Some (Ok _) => check_required_slots role_id h slots'
      | stop => stop
      end
  end.

(** What is checked before the required slots. *)
Definition check_handoff (p : CheckpointPolicy) (h : AgentHandoff) : result string unit :=
  canonical_domain ← map_err (λ e, "checkpoint handoff serialize failed: " +:+ e) (to_value serde h);
  if json_contains_number canonical_domain
  then Err "agent-run handoff numeric leaves are not in the cross-runtime canonical domain; encode unknown numeric state as a string"
  else if any blank (ah_completed h) || any blank (ah_remaining h) || blank (ah_next_action h)
  then Err "agent-run handoff contains blank required entries"
  else
    let b := cp_bounds p in
    _ ← validate_string_list "completed" (ah_completed h) (completed_max_entries b) (entry_max_bytes b);
    _ ← validate_string_list "remaining" (ah_remaining h) (remaining_max_entries b) (entry_max_bytes b);
    _ ← enforce_bound "entry_max_bytes" (str_len (ah_next_action h)) (entry_max_bytes b) "next_action";
    _ ← enforce_bound "critical_state_max_slots" (zlen (btree_map (ah_critical_state h))) (critical_state_max_slots b) "critical_state";
    for_each (check_value b) (btree_map (ah_critical_state h)).

Definition validate_handoff_with_total (p : CheckpointPolicy) (role_id : string) (h : AgentHandoff) (total_bytes : Z)
  : option (result string AgentHandoff) :=
  match (_ ← check_handoff p h; required_slots p role_id) with
  | Err e => Some (Err e)
  | Ok slots =>
      match check_required_slots role_id h slots with
      | None => None
      | Some (Err e) => Some (Err e)
      | Some (Ok _) => Some (_ ← enforce_bound "total_max_bytes" total_bytes (total_max_bytes (cp_bounds p)) "handoff"; Ok h)
      end
  end.

Definition validate_handoff_text (p : CheckpointPolicy) (role_id text : string) : option (result string AgentHandoff) :=
  match (value ← map_err (λ e, "agent-run handoff is not strict JSON: " +:+ e) (from_str serde text);
         map_err (λ e, "agent-run typed handoff deserialize failed: " +:+ e) (from_value serde value)) with
  | Err e => Some (Err e)
  | Ok h => validate_handoff_with_total p role_id h (str_len text)
  end.

Definition validate_handoff (p : CheckpointPolicy) (role_id : string) (h : AgentHandoff) : option (result string AgentHandoff) :=
  match map_err (λ e, "checkpoint handoff serialize failed: " +:+ e) (handoff_len serde h) with
  | Err e => Some (Err e)
  | Ok total_bytes => validate_handoff_with_total p role_id h total_bytes
  end.
End Handoff.

(** ** The context budget *)

(** [f64]: the binary64 format *)
Definition f64 := spec_float.
Definition F64_PREC : Z := 53.
Definition F64_EMAX : Z := 1024.
Definition f64_from (z : Z) : f64 := binary_normalize F64_PREC F64_EMAX z 0 false.
Definition is_finite (x : f64) : bool :=
  match x with S754_zero _ | S754_finite _ _ _ => true | S754_infinity _ | S754_nan => false end.
Definition f64_lt (x y : f64) : bool := SFltb x y.
Definition f64_le (x y : f64) : bool := SFleb x y.

Inductive ContextBudgetError := NonFinite | Negative (percent : f64) | AboveMaximum (percent : f64).
(** The field of [ContextPercent] is private: it is made by [percent_new]. *)
Record ContextPercent := { as_f64 : f64 }.
Inductive ContextBudget := Known (percent : ContextPercent) | Unknown.

Definition percent_new (percent : f64) : result ContextBudgetError ContextPercent :=
  if negb (is_finite percent) then Err NonFinite
  else if f64_lt percent (f64_from 0) then Err (Negative percent)
  else if f64_lt (f64_from 100) percent then Err (AboveMaximum percent)
  else Ok {| as_f64 := percent |}.

Definition budget_known (percent : f64) : result ContextBudgetError ContextBudget :=
  p ← percent_new percent;
  Ok (Known p).

(** [IntoContextBudget], with an instance per type it is implemented for;
    [i32] and [u8] are integers of their range. *)
Class IntoContextBudget (B : Type) := into_context_budget : B → result ContextBudgetError ContextBudget.
#[global] Instance budget_into : IntoContextBudget ContextBudget := λ b, Ok b.
#[global] Instance percent_into : IntoContextBudget ContextPercent := λ p, Ok (Known p).
#[global] Instance float_into : IntoContextBudget f64 := budget_known.
#[global] Instance integer_into : IntoContextBudget Z := λ z, budget_known (f64_from z).

(** ** Assignments and checkpoints *)

Inductive PreservationEvidence :=
| CleanCurrentCommit (commit : string)
| VerifiedPreservationCommit (commit : string) (dirty_paths : list string)
| NoPreservationCommit (dirty_paths : list string).

Record ExecutionIdentity := {
  ei_lane_id : string; ei_base_commit : string; ei_current_commit : string; ei_preservation : PreservationEvidence;
}.
Inductive AssignmentIdentity := Planning | Execution (identity : ExecutionIdentity).

Record ResumeOverlay := {
  ov_assignment_id : string; ov_session_ref : string; ov_run_revision : Z; ov_handoff : AgentHandoff;
}.
Record CheckpointRecord := {
  ck_assignment_id : string; ck_context_percent : ContextPercent; ck_identity : AssignmentIdentity;
  ck_resume_overlay : ResumeOverlay;
}.
Record CheckpointInput := {
  in_assignment_id : string; in_run_revision : Z; in_session_ref : string; in_identity : AssignmentIdentity;
  in_handoff : AgentHandoff;
}.
Record AssignmentState (L B C : Type) := {
  as_assignment_id : string; as_lane_id : L; as_run_revision : Z; as_base_commit : B; as_current_commit : C;
  as_dirty_paths : list string; as_completed : list string; as_remaining : list string; as_next_action : string;
  as_session_ref : string;
}.
Arguments as_assignment_id {L B C}.
Arguments as_lane_id {L B C}.
Arguments as_run_revision {L B C}.
Arguments as_base_commit {L B C}.
Arguments as_current_commit {L B C}.
Arguments as_dirty_paths {L B C}.
Arguments as_completed {L B C}.
Arguments as_remaining {L B C}.
Arguments as_next_action {L B C}.
Arguments as_session_ref {L B C}.

Definition input_planning (assignment_id : string) (run_revision : Z) (session_ref : string) (handoff : AgentHandoff)
  : CheckpointInput :=
  {| in_assignment_id := assignment_id; in_run_revision := run_revision; in_session_ref := session_ref;
     in_identity := Planning; in_handoff := handoff |}.
Definition input_execution (assignment_id : string) (run_revision : Z) (session_ref lane_id base_commit current_commit : string)
    (preservation : PreservationEvidence) (handoff : AgentHandoff) : CheckpointInput :=
  {| in_assignment_id := assignment_id; in_run_revision := run_revision; in_session_ref := session_ref;
     in_identity := Execution {| ei_lane_id := lane_id; ei_base_commit := base_commit;
                                 ei_current_commit := current_commit; ei_preservation := preservation |};
     in_handoff := handoff |}.

Inductive IdentityError :=
| PlanningCarriesLane | PlanningCarriesBaseCommit | PlanningCarriesCurrentCommit | PlanningCarriesDirtyPaths.

Definition render_input (input : CheckpointInput) (percent : ContextPercent) : CheckpointRecord :=
  {| ck_assignment_id := in_assignment_id input; ck_context_percent := percent; ck_identity := in_identity input;
     ck_resume_overlay := {| ov_assignment_id := in_assignment_id input; ov_session_ref := in_session_ref input;
                             ov_run_revision := in_run_revision input; ov_handoff := in_handoff input |} |}.

Definition state_handoff {L B C} (s : AssignmentState L B C) : AgentHandoff :=
  handoff_new (as_completed s) (as_remaining s) ∅ (as_next_action s).

(** [CheckpointSource], with its three implementations. *)
Class CheckpointSource (S : Type) := render_checkpoint : S → ContextPercent → result IdentityError CheckpointRecord.

#[global] Instance input_source : CheckpointSource CheckpointInput := λ input percent, Ok (render_input input percent).

#[global] Instance execution_source : CheckpointSource (AssignmentState string string string) := λ s percent,
  let preservation := match as_dirty_paths s with
                      | [] => CleanCurrentCommit (as_current_commit s)
                      | _ => NoPreservationCommit (as_dirty_paths s)
                      end in
  render_checkpoint (input_execution (as_assignment_id s) (as_run_revision s) (as_session_ref s) (as_lane_id s)
                       (as_base_commit s) (as_current_commit s) preservation (state_handoff s)) percent.

#[global] Instance planning_source : CheckpointSource (AssignmentState (option string) (option string) (option string)) :=
  λ s percent,
  if bool_decide (is_Some (as_lane_id s)) then Err PlanningCarriesLane
  else if bool_decide (is_Some (as_base_commit s)) then Err PlanningCarriesBaseCommit
  else if bool_decide (is_Some (as_current_commit s)) then Err PlanningCarriesCurrentCommit
  else if negb (bool_decide (as_dirty_paths s = [])) then Err PlanningCarriesDirtyPaths
  else render_checkpoint (input_planning (as_assignment_id s) (as_run_revision s) (as_session_ref s) (state_handoff s)) percent.

(** ** Decisions *)

Inductive ContextDecision := Continue | SoftWarning | CheckpointAndSettle (record : CheckpointRecord) | DecisionUnknown.
Inductive ContextAction := StartWork | ClaimTerminalSuccess | InjectRetainedHandoff (overlay : ResumeOverlay).
Inductive ContextActionOutcome := Allowed | ResumeOnly (overlay : ResumeOverlay).
Inductive ContextActionError :=
| UnknownBlocksWork | UnknownBlocksTerminalSuccess | CheckpointRequired | RecoveryOnlyWhenBudgetUnknown.
Inductive CheckpointError := Budget (e : ContextBudgetError) | Identity (e : IdentityError).

Definition apply_action (d : ContextDecision) (a : ContextAction) : result ContextActionError ContextActionOutcome :=
  match d, a with
  | (Continue | SoftWarning), (StartWork | ClaimTerminalSuccess) => Ok Allowed
  | CheckpointAndSettle _, (StartWork | ClaimTerminalSuccess) => Err CheckpointRequired
  | DecisionUnknown, StartWork => Err UnknownBlocksWork
  | DecisionUnknown, ClaimTerminalSuccess => Err UnknownBlocksTerminalSuccess
  | DecisionUnknown, InjectRetainedHandoff overlay => Ok (ResumeOnly overlay)
  | (Continue | SoftWarning | CheckpointAndSettle _), InjectRetainedHandoff _ => Err RecoveryOnlyWhenBudgetUnknown
  end.
Definition is_ok {E A} (r : result E A) : bool := match r with Ok _ => true | Err _ => false end.
Definition allows_new_work (d : ContextDecision) : bool := is_ok (apply_action d StartWork).
Definition allows_terminal_success (d : ContextDecision) : bool := is_ok (apply_action d ClaimTerminalSuccess).

Definition observe_context {B S} `{IntoContextBudget B} `{CheckpointSource S} (budget : B) (state : S)
  : result CheckpointError ContextDecision :=
  budget ← map_err Budget (into_context_budget budget);
  match budget with
  | Unknown => Ok DecisionUnknown
  | Known percent =>
      if f64_le (f64_from 85) (as_f64 percent)
      then map_err Identity (record ← render_checkpoint state percent; Ok (CheckpointAndSettle record))
      else if f64_le (f64_from 75) (as_f64 percent) then Ok SoftWarning
      else Ok Continue
  end.

(** [compact_and_resume]: what the compactor answers is an argument, and the
    side effects are not touched. *)
Inductive CompactionOutcome := Resumed (overlay : ResumeOverlay) | Recoverable (checkpoint : CheckpointRecord) (failure : Failure).
Definition compact_and_resume (checkpoint : CheckpointRecord) (compact_same_session : CheckpointRecord → result Failure unit)
  : CompactionOutcome :=
  match compact_same_session checkpoint with
  | Ok _ => Resumed (ck_resume_overlay checkpoint)
  | Err failure => Recoverable checkpoint failure
  end.

(** ** What a policy that was read promises *)

Record sound_slot (b : HandoffBounds) (s : CheckpointSlot) : Prop := {
  sl_bytes : 0 < cs_max_bytes s ≤ critical_state_value_max_bytes b;
  sl_entries : match cs_value_type s with
               | TString => cs_max_entries s = None
               | TArrayString => ∃ m, cs_max_entries s = Some m ∧ 0 < m ≤ critical_state_array_max_entries b
               end;
}.

Record sound_slot_set (b : HandoffBounds) (s : SlotSet) : Prop := {
  st_keys : NoDup (map cs_key (ss_slots s));
  st_count : zlen (ss_slots s) ≤ critical_state_max_slots b;
  st_required : ∃ slot, slot ∈ ss_slots s ∧ cs_required slot = true;
  st_slots : ∀ slot, slot ∈ ss_slots s → sound_slot b slot;
}.

Record sound_checkpoint_policy (p : CheckpointPolicy) : Prop := {
  po_thresholds : ∃ arm checkpoint, cp_thresholds p !! "arm" = Some arm ∧
    cp_thresholds p !! "checkpoint" = Some checkpoint ∧ 0 < arm < checkpoint ∧ checkpoint < 100;
  po_sets : ∀ id s, cp_slot_sets p !! id = Some s → sound_slot_set (cp_bounds p) s;
  po_roles : ∀ id r, cp_roles p !! id = Some r →
    if rc_interruptible r then ∃ set_id set, rc_slot_set r = Some set_id ∧ cp_slot_sets p !! set_id = Some set
    else rc_slot_set r = None;
}.

Section PolicySound.
Context `{KdlLib}.

Lemma prop_usize_range n key v : prop_usize n key = Ok v → in_range usize_max v.
Proof.
  unfold prop_usize, prop_u64, to_u64. intros Hp. inv_res. case_match eqn:E; inv_res. unfold in_rangeb in *.
  case_match eqn:E'; simplify_eq. unfold in_range, usize_max. to_prop. lia.
Qed.

(** Slots as they are read, before the bounds are known. *)
Definition read_slot_ok (s : CheckpointSlot) : Prop :=
  0 ≤ cs_max_bytes s ∧
  match cs_value_type s with
  | TString => cs_max_entries s = None
  | TArrayString => ∃ m, cs_max_entries s = Some m ∧ 0 ≤ m
  end.
Definition read_slots_ok (slots : list CheckpointSlot) : Prop :=
  NoDup (map cs_key slots) ∧ ∀ s, s ∈ slots → read_slot_ok s.

Lemma read_slot_spec id slots child slots' :
  read_slots_ok slots → read_slot id slots child = Ok slots' → read_slots_ok slots'.
Proof.
  intros [Hnd Hs] Hr. unfold read_slot in Hr.
  apply guard_ok in Hr as [_ Hr]. apply bind_ok in Hr as (key & _ & Hr). apply guard_ok in Hr as [Hnew Hr].
  apply bind_ok in Hr as (ty & _ & Hr). apply bind_ok in Hr as (vt & _ & Hr).
  apply bind_ok in Hr as (req & _ & Hr). apply bind_ok in Hr as (me & Hme & Hr).
  apply bind_ok in Hr as (mb & Hmb & Hr). apply bind_ok in Hr as (? & _ & Hr). injection Hr as <-. to_prop.
  apply prop_usize_range in Hmb. split.
  - rewrite map_app. apply NoDup_app. split; [done|]. split; [|apply NoDup_singleton].
    intros k Hk ->%list_elem_of_singleton. done.
  - intros s [Hin| ->%list_elem_of_singleton]%elem_of_app; [by apply Hs|]. split; [apply Hmb|]. cbn.
    destruct (decide (vt = TArrayString)) as [->|Hvt].
    + rewrite bool_decide_true in Hme by done. apply bind_ok in Hme as (m & Hm & Hme). injection Hme as <-.
      apply prop_usize_range in Hm. exists m. split; [done|apply Hm].
    + rewrite bool_decide_false in Hme by done. injection Hme as <-. by destruct vt.
Qed.

Definition read_role_ok (r : RoleCheckpointPolicy) : Prop := rc_interruptible r = true ↔ is_Some (rc_slot_set r).
Definition reading_ok (r : Reading) : Prop :=
  (∀ id s, rd_slot_sets r !! id = Some s → read_slots_ok (ss_slots s)) ∧
  (∀ id x, rd_roles r !! id = Some x → read_role_ok x).

Lemma read_slot_set_spec n id s : read_slot_set n = Ok (id, s) → read_slots_ok (ss_slots s).
Proof.
  unfold read_slot_set. intros Hr. do 4 apply bind_ok in Hr as (? & _ & Hr).
  apply bind_ok in Hr as (slots & Hs & Hr). injection Hr as <- <-. cbn. revert Hs.
  apply (fold_res_inv _ (λ _ slots, read_slots_ok slots)); [split; [constructor|set_solver]|].
  intros _ child slots0 slots1 IH _. by apply read_slot_spec.
Qed.

Lemma read_role_spec n id r : read_role n = Ok (id, r) → read_role_ok r.
Proof.
  unfold read_role. intros Hr. apply bind_ok in Hr as (? & _ & Hr). apply bind_ok in Hr as (i & _ & Hr).
  apply bind_ok in Hr as (s & _ & Hr). apply bind_ok in Hr as (? & _ & Hr).
  apply guard_ok in Hr as [H1 Hr]. apply guard_ok in Hr as [H2 Hr]. injection Hr as <- <-.
  unfold read_role_ok. cbn. destruct i, s; cbn in *; split; try done; by intros [? ?].
Qed.

Lemma read_node_spec r n r' : reading_ok r → read_node r n = Ok r' → reading_ok r'.
Proof.
  intros [Hs Hr] Hn. unfold read_node in Hn.
  repeat match type of Hn with
    | (if bool_decide (node_name n = _) then _ else _) = _ => case_match; [|]
    end; try (inv_ok; done).
  - apply bind_ok in Hn as ([id s] & Hset & Hn). apply guard_ok in Hn as [_ Hn]. injection Hn as <-.
    split; [|done]. cbn. intros id' s' [[<- <-]|[_ ?]]%lookup_insert_Some; [|by eapply Hs]. by eapply read_slot_set_spec.
  - apply bind_ok in Hn as ([id x] & Hrole & Hn). apply guard_ok in Hn as [_ Hn]. injection Hn as <-.
    split; [done|]. cbn. intros id' x' [[<- <-]|[_ ?]]%lookup_insert_Some; [|by eapply Hr]. by eapply read_role_spec.
Qed.

Lemma check_slot_spec b s u : read_slot_ok s → check_slot b s = Ok u → sound_slot b s.
Proof.
  unfold check_slot. intros [Hb Ht] Hc. apply guard_ok in Hc as [Hb' Hc]. to_prop.
  assert (0 < cs_max_bytes s) by lia. split; [lia|].
  destruct (cs_value_type s); [done|]. destruct Ht as (m & Em & Hm). rewrite Em in Hc |- *. apply guard_ok in Hc as [Hc _]. to_prop.
  exists m. split; [done|]. lia.
Qed.

Lemma check_slot_set_spec b id s u : read_slots_ok (ss_slots s) → check_slot_set b (id, s) = Ok u → sound_slot_set b s.
Proof.
  unfold check_slot_set. intros [Hnd Hs] Hc. apply guard_ok in Hc as [_ Hc]. apply guard_ok in Hc as [Hcount Hc].
  apply guard_ok in Hc as [Hreq Hc]. to_prop. apply any_spec in Hreq. rewrite for_each_ok, Forall_forall in Hc.
  split; try done. intros slot Hin. eapply check_slot_spec; [by apply Hs|by apply Hc].
Qed.

(** A policy that is read: its thresholds are ordered, every slot set has
    distinct keys, at least one required slot and bounded slots, arrays having
    a limit, and a role has a slot set exactly when it can be interrupted. *)
Theorem checkpoint_policy_sound (nodes : list KdlNode) (p : CheckpointPolicy) :
  parse_nodes nodes = Ok p → sound_checkpoint_policy p.
Proof.
  unfold parse_nodes. intros Hp. apply bind_ok in Hp as (r & Hr & Hp).
  apply guard_ok in Hp as [_ Hp]. apply guard_ok in Hp as [_ Hp].
  apply bind_ok in Hp as (hc & _ & Hp). apply bind_ok in Hp as (b & _ & Hp).
  apply bind_ok in Hp as (u & Hshape & Hp). apply bind_ok in Hp as (u' & Hroles & Hp). injection Hp as <-.
  assert (reading_ok r) as [Hs Hro].
  { revert Hr. apply (fold_res_inv _ (λ _ r, reading_ok r)).
    - split; intros id x; cbn; by rewrite lookup_empty.
    - intros _ n r0 r1 IH _. by apply read_node_spec. }
  unfold validate_shape in Hshape. apply bind_ok in Hshape as (arm & Harm & Hshape).
  apply bind_ok in Hshape as (ck & Hck & Hshape). apply guard_ok in Hshape as [Hth Hshape].
  apply bind_ok in Hshape as (u'' & _ & Hshape). apply guard_ok in Hshape as [_ Hshape].
  rewrite for_each_ok, Forall_forall in Hshape. rewrite for_each_ok, Forall_forall in Hroles.
  apply ok_or_ok in Harm, Hck. to_prop. split; cbn in *.
  - exists arm, ck. split_and!; [done..|lia|lia|lia].
  - intros id s Hin. eapply check_slot_set_spec; [by eapply Hs|]. eapply Hshape. by apply elem_of_btree_map.
  - intros id x Hin. pose proof (Hro id x Hin) as Hok. unfold read_role_ok in Hok.
    assert ((id, x) ∈ btree_map (rd_roles r)) as Hin'%Hroles by by apply elem_of_btree_map.
    cbn in Hin'. destruct (rc_interruptible x).
    + destruct (proj1 Hok eq_refl) as [sid Hsid]. rewrite Hsid in Hin'. case_bool_decide as Hset; [|done].
      destruct Hset as [set Hset]. eauto.
    + destruct (rc_slot_set x); [|done]. discriminate (proj2 Hok (ex_intro _ _ eq_refl)).
Qed.
End PolicySound.

(** ** When a hand-off is accepted *)

Definition good_text (s : string) : Prop := blank s = false.
Definition slot_value_ok (slot : CheckpointSlot) (v : Value) : Prop :=
  match cs_value_type slot with
  | TString => ∃ s, v = VString s ∧ good_text s
  | TArrayString => ∃ l m, v = VArray l ∧ cs_max_entries slot = Some m ∧ zlen l ≤ m ∧ l ≠ [] ∧
      ∀ x, x ∈ l → ∃ s, x = VString s ∧ good_text s
  end.

Definition entries_ok (l : list string) (max_entries max_bytes : Z) : Prop :=
  zlen l ≤ max_entries ∧ ∀ s, s ∈ l → good_text s ∧ str_len s ≤ max_bytes.

Definition value_fits (serde : Serde) (v : Value) (max : Z) : Prop := ∃ n, value_len serde v = Ok n ∧ n ≤ max.

Record acceptable (serde : Serde) (p : CheckpointPolicy) (role : string) (h : AgentHandoff) (total : Z) : Prop := {
  ac_numbers : ∃ v, to_value serde h = Ok v ∧ json_contains_number v = false;
  ac_completed : entries_ok (ah_completed h) (completed_max_entries (cp_bounds p)) (entry_max_bytes (cp_bounds p));
  ac_remaining : entries_ok (ah_remaining h) (remaining_max_entries (cp_bounds p)) (entry_max_bytes (cp_bounds p));
  ac_next : good_text (ah_next_action h) ∧ str_len (ah_next_action h) ≤ entry_max_bytes (cp_bounds p);
  ac_slots : zlen (btree_map (ah_critical_state h)) ≤ critical_state_max_slots (cp_bounds p);
  ac_values : ∀ k v, ah_critical_state h !! k = Some v →
    json_depth_two v = true ∧ value_fits serde v (critical_state_value_max_bytes (cp_bounds p));
  ac_role : ∃ r id set, cp_roles p !! role = Some r ∧ rc_interruptible r = true ∧ rc_slot_set r = Some id ∧
    cp_slot_sets p !! id = Some set ∧
    ∀ slot, slot ∈ ss_slots set → cs_required slot = true →
      ∃ v, ah_critical_state h !! cs_key slot = Some v ∧ value_fits serde v (cs_max_bytes slot) ∧ slot_value_ok slot v;
  ac_total : total ≤ total_max_bytes (cp_bounds p);
}.

Section HandoffExact.
Context (serde : Serde).

Lemma enforce_bound_ok bound observed limit location u :
  enforce_bound bound observed limit location = Ok u ↔ observed ≤ limit.
Proof. unfold enforce_bound. destruct (Z.ltb_spec limit observed), u; split; try done; lia. Qed.

Lemma for_each_indexed (f : Z → string → result string unit) (P : string → Prop) l u : ∀ i,
  (∀ i x u, f i x = Ok u ↔ P x) →
  for_each (λ '(i, x), f i x) (indexed i l) = Ok u ↔ ∀ x, x ∈ l → P x.
Proof.
  induction l as [|x l IH]; intros i Hf; cbn [indexed for_each].
  - destruct u. split; [set_solver|done].
  - split.
    + intros Hb. apply bind_ok in Hb as (? & Hx & Hl). apply Hf in Hx. pose proof (proj1 (IH (i + 1) Hf) Hl). set_solver.
    + intros Hall. apply bind_ok. exists tt. split; [apply Hf, Hall; set_solver|]. apply (IH _ Hf). set_solver.
Qed.

Lemma validate_string_list_ok field l me mb u :
  validate_string_list field l me mb = Ok u ↔ zlen l ≤ me ∧ ∀ s, s ∈ l → str_len s ≤ mb.
Proof.
  unfold validate_string_list. rewrite bind_ok.
  pose proof (for_each_indexed
    (λ index value, enforce_bound "entry_max_bytes" (str_len value) mb (field +:+ "[" +:+ show_uint index +:+ "]"))
    (λ value, str_len value ≤ mb) l u 0 (λ index value u, enforce_bound_ok _ _ _ _ u)) as Heach.
  split.
  - intros (? & H1%enforce_bound_ok & H2). split; [done|]. by apply Heach.
  - intros [H1 H2]. exists tt. split; [by apply enforce_bound_ok|]. by apply Heach.
Qed.

Lemma value_bound_ok f bound v max location u :
  (value_bytes ← map_err f (value_len serde v); enforce_bound bound value_bytes max location) = Ok u ↔ value_fits serde v max.
Proof.
  rewrite bind_ok. split.
  - intros (n & Hn%map_err_ok & Hb%enforce_bound_ok). by exists n.
  - intros (n & Hn & Hb). exists n. split; [by apply map_err_ok|]. by apply enforce_bound_ok.
Qed.

Lemma check_value_ok b k v u :
  check_value serde b (k, v) = Ok u ↔
  json_depth_two v = true ∧ value_fits serde v (critical_state_value_max_bytes b).
Proof. unfold check_value. rewrite guard_ok, negb_false_iff, value_bound_ok. done. Qed.

Lemma any_blank l : any blank l = false ↔ ∀ s, s ∈ l → good_text s.
Proof. apply any_false. Qed.

Lemma check_handoff_ok p h u :
  check_handoff serde p h = Ok u ↔
  (∃ v, to_value serde h = Ok v ∧ json_contains_number v = false) ∧
  entries_ok (ah_completed h) (completed_max_entries (cp_bounds p)) (entry_max_bytes (cp_bounds p)) ∧
  entries_ok (ah_remaining h) (remaining_max_entries (cp_bounds p)) (entry_max_bytes (cp_bounds p)) ∧
  (good_text (ah_next_action h) ∧ str_len (ah_next_action h) ≤ entry_max_bytes (cp_bounds p)) ∧
  zlen (btree_map (ah_critical_state h)) ≤ critical_state_max_slots (cp_bounds p) ∧
  (∀ k v, ah_critical_state h !! k = Some v →
     json_depth_two v = true ∧ value_fits serde v (critical_state_value_max_bytes (cp_bounds p))).
Proof.
  unfold check_handoff, entries_ok. split.
  - intros H. apply bind_ok in H as (v & Hv%map_err_ok & H). apply guard_ok in H as [Hn H].
    apply guard_ok in H as [Hb H]. apply orb_false_iff in Hb as [Hb Hna]. apply orb_false_iff in Hb as [Hc Hr].
    rewrite any_blank in Hc, Hr.
    apply bind_ok in H as (? & [Hc1 Hc2]%validate_string_list_ok & H).
    apply bind_ok in H as (? & [Hr1 Hr2]%validate_string_list_ok & H).
    apply bind_ok in H as (? & Hn2%enforce_bound_ok & H). apply bind_ok in H as (? & Hs%enforce_bound_ok & H).
    rewrite for_each_ok, Forall_forall in H. split_and!; eauto.
    intros k w Hk%elem_of_btree_map. apply H in Hk. by apply check_value_ok in Hk.
  - intros ((v & Hv & Hn) & [Hc1 Hc] & [Hr1 Hr] & [Hna Hn2] & Hs & Hvals). destruct u.
    apply bind_ok. exists v. split; [by apply map_err_ok|]. apply guard_ok. split; [done|]. apply guard_ok. split.
    { apply orb_false_iff. split; [|done]. apply orb_false_iff. split; apply any_blank; intros s Hin;
        [by apply Hc|by apply Hr]. }
    apply bind_ok. exists tt. split; [apply validate_string_list_ok; split; [done|]; intros s Hin; by apply Hc|].
    apply bind_ok. exists tt. split; [apply validate_string_list_ok; split; [done|]; intros s Hin; by apply Hr|].
    apply bind_ok. exists tt. split; [by apply enforce_bound_ok|].
    apply bind_ok. exists tt. split; [by apply enforce_bound_ok|].
    apply for_each_ok, Forall_forall. intros [k w] Hk%elem_of_btree_map. by apply check_value_ok, Hvals with k.
Qed.

Lemma blank_text_false v : blank_text v = false ↔ ∃ s, v = VString s ∧ good_text s.
Proof.
  unfold blank_text, as_str, good_text. destruct v; split; try done; try (by intros (? & [=] & _)).
  - intros Hb. by exists s.
  - by intros (? & [= ->] & ?).
Qed.

Lemma check_slot_type_ok b slot v :
  sound_slot b slot →
  ∃ r, check_slot_type slot v = Some r ∧ (r = Ok tt ↔ slot_value_ok slot v).
Proof.
  intros [_ He]. unfold check_slot_type, slot_value_ok. destruct (cs_value_type slot).
  - eexists. split; [done|]. rewrite <- blank_text_false. destruct (blank_text v); done.
  - destruct He as (m & Hm & _). rewrite Hm. destruct v as [| | | |l|]; cbn [as_array];
      try (eexists; split; [done|]; split; [done|by intros (? & ? & [=] & _)]).
    eexists. split; [done|]. rewrite bind_ok. split.
    + intros (? & Hb%enforce_bound_ok & Hg). destruct (bool_decide (l = []) || any blank_text l) eqn:E; [done|].
      apply orb_false_iff in E as [E1 E2]. to_prop. rewrite any_false in E2. exists l, m. split_and!; try done.
      intros y Hy%E2. by apply blank_text_false.
    + intros (l' & m' & [= <-] & [= <-] & Hlen & Hne & Hall). exists tt. split; [by apply enforce_bound_ok|].
      rewrite bool_decide_false by done. cbn. assert (any blank_text l = false) as ->; [|done].
      apply any_false. intros x Hx. by apply blank_text_false, Hall.
Qed.

Lemma check_required_slots_ok b role h slots :
  (∀ s, s ∈ slots → sound_slot b s) →
  ∃ r, check_required_slots serde role h slots = Some r ∧
    (r = Ok tt ↔ ∀ s, s ∈ slots → ∃ v, ah_critical_state h !! cs_key s = Some v ∧
       value_fits serde v (cs_max_bytes s) ∧ slot_value_ok s v).
Proof.
  induction slots as [|s slots IH]; intros Hs; cbn [check_required_slots].
  { exists (Ok tt). split; [done|]. split; [set_solver|done]. }
  destruct IH as (r & Hr & Hiff); [intros; apply Hs; set_solver|].
  assert (∃ r', check_required serde role h s = Some r' ∧
            (r' = Ok tt ↔ ∃ v, ah_critical_state h !! cs_key s = Some v ∧ value_fits serde v (cs_max_bytes s) ∧ slot_value_ok s v))
    as (r' & Hr' & Hiff').
  { unfold check_required. destruct (ah_critical_state h !! cs_key s) as [v|].
    2: { eexists. split; [done|]. split; [done|by intros (? & [=] & _)]. }
    destruct (check_slot_type_ok b s v) as (r' & Hr' & Hiff'); [apply Hs; set_solver|].
    match goal with |- context [match ?m with Ok _ => _ | Err _ => _ end] => destruct m as [u|e] eqn:E end.
    - apply value_bound_ok in E. exists r'. split; [done|]. rewrite Hiff'. split; [eauto|].
      by intros (? & [= <-] & _ & ?).
    - eexists. split; [done|]. split; [done|]. intros (? & [= <-] & Hfit & _).
      apply (value_bound_ok (λ e, "checkpoint handoff slot serialize failed: " +:+ e) "max_bytes" _ _
               ("critical_state." +:+ cs_key s) tt) in Hfit. by rewrite Hfit in E. }
  rewrite Hr'. destruct r' as [[]|e].
  - exists r. split; [done|]. rewrite Hiff. pose proof (proj1 Hiff' eq_refl). set_solver.
  - exists (Err e). split; [done|]. split; [done|]. intros Hall.
    apply Hiff', Hall. set_solver.
Qed.

Lemma required_slots_ok p role slots :
  required_slots p role = Ok slots ↔
  ∃ r id set, cp_roles p !! role = Some r ∧ rc_interruptible r = true ∧ rc_slot_set r = Some id ∧
    cp_slot_sets p !! id = Some set ∧ slots = filter (λ s, cs_required s = true) (ss_slots set).
Proof.
  unfold required_slots, policy_role. split.
  - intros H. apply bind_ok in H as (r & Hr%ok_or_ok & H). apply guard_ok in H as [Hi H].
    apply bind_ok in H as (id & Hid%ok_or_ok & H). apply bind_ok in H as (set & Hset%ok_or_ok & H).
    injection H as <-. to_prop. by exists r, id, set.
  - intros (r & id & set & Hr & Hi & Hid & Hset & ->). by rewrite Hr; cbn; rewrite Hi; cbn; rewrite Hid; cbn; rewrite Hset.
Qed.
End HandoffExact.

(** C31. Under a sound policy the validation of a hand-off never panics, and it
    accepts exactly the acceptable hand-offs, which it returns unchanged: no
    number anywhere, no blank text, lists, texts and values within the bounds
    of the policy, values at most arrays of scalars, and every slot the role
    requires present, within its limits and of its type. *)
Theorem handoff_accepted_exact (serde : Serde) (p : CheckpointPolicy) (role : string) (h : AgentHandoff) (total : Z) :
  sound_checkpoint_policy p →
  ∃ r, validate_handoff_with_total serde p role h total = Some r ∧
    ∀ h', r = Ok h' ↔ h' = h ∧ acceptable serde p role h total.
Proof.
  intros Hp. unfold validate_handoff_with_total.
  destruct (_ ← check_handoff serde p h; required_slots p role) as [slots|e] eqn:E.
  - apply bind_ok in E as (u & Hc & Hs). apply check_handoff_ok in Hc as (H1 & H2 & H3 & H4 & H5 & H6).
    apply required_slots_ok in Hs as (r & id & set & Hr & Hi & Hid & Hset & ->).
    destruct (check_required_slots_ok serde (cp_bounds p) role h (filter (λ s, cs_required s = true) (ss_slots set)))
      as (rr & Hrr & Hiff).
    { intros s [_ Hin]%list_elem_of_filter. by eapply st_slots, Hin; eapply po_sets. }
    rewrite Hrr. destruct rr as [[]|e].
    + eexists. split; [done|]. intros h'. rewrite bind_ok. pose proof (proj1 Hiff eq_refl) as Hall. split.
      * intros (? & Ht%enforce_bound_ok & [= <-]). split; [done|]. split; try done. exists r, id, set. split_and!; try done.
        intros slot Hin Hreq. apply Hall. by apply list_elem_of_filter.
      * intros [-> Hacc]. exists tt. split; [|done]. apply enforce_bound_ok, Hacc.
    + eexists. split; [done|]. intros h'. split; [done|]. intros [_ Hacc]. exfalso.
      destruct (ac_role _ _ _ _ _ Hacc) as (r' & id' & set' & Hr' & _ & Hid' & Hset' & Hall). simplify_eq.
      discriminate (proj2 Hiff (λ s Hin, let Hf := proj1 (list_elem_of_filter _ _ _) Hin in Hall s (proj2 Hf) (proj1 Hf))).
  - eexists. split; [done|]. intros h'. split; [done|]. intros [_ [H1 H2 H3 H4 H5 H6 Hrole H8]]. exfalso.
    assert (check_handoff serde p h = Ok tt) as Hc by by apply check_handoff_ok.
    destruct Hrole as (r & id & set & Hr & Hi & Hid & Hset & _).
    assert (required_slots p role = Ok (filter (λ s, cs_required s = true) (ss_slots set))) as Hs.
    { apply required_slots_ok. by exists r, id, set. }
    rewrite Hc in E. cbn in E. by rewrite Hs in E.
Qed.

(** ** Thresholds are exact *)

(** The value of a finite double as a fraction: numerator, positive denominator. *)
Definition numerator (x : f64) : Z :=
  match x with
  | S754_finite s m e => (if s then Zneg m else Zpos m) * 2 ^ Z.max 0 e
  | _ => 0
  end.
Definition denominator (x : f64) : Z := match x with S754_finite _ _ e => 2 ^ Z.max 0 (- e) | _ => 1 end.
Definition valid_f64 (x : f64) : Prop := valid_binary F64_PREC F64_EMAX x = true.

(** [n ≤ x] and [x < n] for an integer [n] *)
Definition at_least (n : Z) (x : f64) : Prop := n * denominator x ≤ numerator x.
Definition below (x : f64) (n : Z) : Prop := numerator x < n * denominator x.

Lemma digits2_bounds m : 2 ^ (Zpos (digits2_pos m) - 1) ≤ Zpos m < 2 ^ Zpos (digits2_pos m).
Proof.
  induction m as [m IH|m IH|]; cbn [digits2_pos]; [| |cbn; lia];
    rewrite Pos2Z.inj_succ; replace (Z.succ (Zpos (digits2_pos m)) - 1) with (Zpos (digits2_pos m)) by lia;
    rewrite Z.pow_succ_r by lia;
    assert (2 ^ Zpos (digits2_pos m) = 2 * 2 ^ (Zpos (digits2_pos m) - 1)) as E
      by (rewrite <- Z.pow_succ_r by lia; f_equal; lia); lia.
Qed.

(** A canonical mantissa fills its 53 bits unless the exponent is the least one. *)
Lemma valid_mantissa s m e :
  valid_f64 (S754_finite s m e) → Zpos m < 2 ^ 53 ∧ (-1074 < e → 2 ^ 52 ≤ Zpos m).
Proof.
  unfold valid_f64, valid_binary, bounded, canonical_mantissa, fexp, emin, F64_PREC, F64_EMAX.
  intros [H _]%andb_true_iff. apply Z.eqb_eq in H. pose proof (digits2_bounds m) as [Hlo Hhi]. split.
  - eapply Z.lt_le_trans; [exact Hhi|]. apply Z.pow_le_mono_r; lia.
  - intros He. assert (Zpos (digits2_pos m) = 53) as E by lia. by rewrite E in Hlo.
Qed.

(** A threshold with seven bits: its mantissa has the exponent -46. *)
Definition seven_bits (n : Z) (t : f64) : Prop :=
  64 ≤ n < 128 ∧ ∃ m, t = S754_finite false m (-46) ∧ Zpos m = n * 2 ^ 46.

Lemma compare_threshold n t x :
  seven_bits n t → valid_f64 x → is_finite x = true →
  SFcompare t x = Some (n * denominator x ?= numerator x).
Proof.
  intros (Hn & m & -> & Hm) Hv Hf. destruct x as [s|s| |s mx e]; try done.
  { cbn [SFcompare numerator denominator]. f_equal. symmetry. apply Z.compare_gt_iff. lia. }
  cbn [SFcompare numerator denominator]. f_equal. symmetry.
  destruct s; [apply Z.compare_gt_iff; nia|].
  destruct (valid_mantissa _ _ _ Hv) as [Hhi Hlo].
  destruct (Z.compare_spec (-46) e) as [<-|Hlt|Hgt].
  - change (Pos.compare_cont Eq m mx) with (Pos.compare m mx). rewrite Pos2Z.inj_compare, Hm.
    change (2 ^ Z.max 0 (- -46)) with (2 ^ 46). change (2 ^ Z.max 0 (-46)) with 1. by rewrite Z.mul_1_r.
  - apply Z.compare_lt_iff. specialize (Hlo ltac:(lia)). destruct (Z.le_gt_cases 0 e) as [He|He].
    + rewrite (Z.max_l 0 (- e)) by lia. rewrite Z.max_r by lia. pose proof (Z.pow_pos_nonneg 2 e).
      change (2 ^ 52) with 4503599627370496 in Hlo. nia.
    + rewrite (Z.max_l 0 e), (Z.max_r 0 (- e)) by lia.
      assert (2 ^ (- e) ≤ 2 ^ 45) as Hp by (apply Z.pow_le_mono_r; lia).
      change (2 ^ 45) with 35184372088832 in Hp. change (2 ^ 52) with 4503599627370496 in Hlo.
      rewrite Z.pow_0_r, Z.mul_1_r. nia.
  - apply Z.compare_gt_iff. rewrite (Z.max_l 0 e), (Z.max_r 0 (- e)) by lia.
    assert (2 ^ 47 ≤ 2 ^ (- e)) as Hp by (apply Z.pow_le_mono_r; lia).
    change (2 ^ 47) with 140737488355328 in Hp. change (2 ^ 53) with 9007199254740992 in Hhi.
    rewrite Z.pow_0_r, Z.mul_1_r. nia.
Qed.

Lemma thresholds_seven_bits : seven_bits 75 (f64_from 75) ∧ seven_bits 85 (f64_from 85) ∧ seven_bits 100 (f64_from 100).
Proof.
  split_and!; (split; [lia|]); eexists; (split; [vm_compute; reflexivity|vm_compute; reflexivity]).
Qed.

Lemma threshold_le n x :
  seven_bits n (f64_from n) → valid_f64 x → is_finite x = true → f64_le (f64_from n) x = true ↔ at_least n x.
Proof.
  intros Hn Hv Hf. unfold f64_le, SFleb, at_least. rewrite (compare_threshold n _ x) by done.
  destruct (Z.compare_spec (n * denominator x) (numerator x)); split; try done; lia.
Qed.

Lemma threshold_lt n x :
  seven_bits n (f64_from n) → valid_f64 x → is_finite x = true →
  f64_lt (f64_from n) x = true ↔ n * denominator x < numerator x.
Proof.
  intros Hn Hv Hf. unfold f64_lt, SFltb. rewrite (compare_threshold n _ x) by done.
  destruct (Z.compare_spec (n * denominator x) (numerator x)); split; try done; lia.
Qed.

Lemma negative_lt x : is_finite x = true → f64_lt x (f64_from 0) = true ↔ numerator x < 0.
Proof.
  assert (f64_from 0 = S754_zero false) as -> by (vm_compute; reflexivity).
  destruct x as [s|s| |s m e]; intros Hf; try done; cbn.
  assert (0 < 2 ^ Z.max 0 e) by (apply Z.pow_pos_nonneg; lia). destruct s; cbn; split; try done; nia.
Qed.

Ltac step_result := cbn -[f64_lt f64_le f64_from is_finite numerator denominator Z.mul].

(** The decision on a measured percentage, as a double, is exact: a value
    that is not finite, below 0 or above 100 is an error; from 85 on the state
    is checkpointed (or its identity is refused) and no new work and no success
    is allowed; from 75 on there is a warning; below that the agent continues.
    There is no rounding at the thresholds. *)
Theorem context_decision_exact {S} `{CheckpointSource S} (x : f64) (state : S) :
  valid_f64 x →
  match observe_context x state with
  | Err (Budget _) => is_finite x = false ∨ below x 0 ∨ 100 * denominator x < numerator x
  | Err (Identity e) => at_least 85 x ∧ (∃ p, render_checkpoint state p = Err e)
  | Ok d =>
      is_finite x = true ∧ at_least 0 x ∧ ¬ 100 * denominator x < numerator x ∧
      match d with
      | Continue => below x 75
      | SoftWarning => at_least 75 x ∧ below x 85
      | CheckpointAndSettle r => at_least 85 x ∧ render_checkpoint state {| as_f64 := x |} = Ok r
      | DecisionUnknown => False
      end ∧
      (allows_new_work d = true ↔ below x 85) ∧ (allows_terminal_success d = true ↔ below x 85)
  end.
Proof.
  intros Hv. destruct thresholds_seven_bits as (H75 & H85 & H100).
  unfold observe_context, into_context_budget, float_into, budget_known, percent_new, below, at_least.
  destruct (is_finite x) eqn:Hf; step_result; [|by left].
  pose proof (negative_lt x Hf) as Hneg. destruct (f64_lt x (f64_from 0)); step_result; [right; left; apply Hneg; done|].
  pose proof (threshold_lt 100 x H100 Hv Hf) as Hbig. destruct (f64_lt (f64_from 100) x); step_result; [right; right; by apply Hbig|].
  pose proof (threshold_le 85 x H85 Hv Hf) as Hck. pose proof (threshold_le 75 x H75 Hv Hf) as Harm. unfold at_least in *.
  assert (¬ numerator x < 0) by (rewrite <- Hneg; done). assert (¬ 100 * denominator x < numerator x) by (rewrite <- Hbig; done).
  assert (0 ≤ denominator x) by (unfold denominator; case_match; try lia; apply Z.pow_nonneg; lia).
  destruct (f64_le (f64_from 85) x).
  - pose proof (proj1 Hck eq_refl). destruct (render_checkpoint state {| as_f64 := x |}) as [r|e] eqn:Hr; step_result.
    + unfold allows_new_work, allows_terminal_success. step_result. split_and!; try done; try lia; split; try done; lia.
    + eauto.
  - assert (¬ 85 * denominator x ≤ numerator x) by (rewrite <- Hck; done). destruct (f64_le (f64_from 75) x).
    + pose proof (proj1 Harm eq_refl). unfold allows_new_work, allows_terminal_success. step_result. split_and!; try done; try lia; split; try done; lia.
    + assert (¬ 75 * denominator x ≤ numerator x) by (rewrite <- Harm; done).
      unfold allows_new_work, allows_terminal_success. step_result. split_and!; try done; try lia; split; try done; lia.
Qed.
