(* ===== verification/CheckpointData.v ===== *)
(** * The shipped checkpoint policy

    The nodes of [data/checkpoint-policy.kdl], the policy they are read as, and
    the checkpoint theorems at work on it. *)

From S2P Require Import Prelude RustColl RustStr Control Kdl Roles Checkpoint.

Definition slot_set_task_atom_ledger : KdlNode :=
  KNode "slot_set" [karg (KString "task-atom-ledger") 905; kprop "output_contract" (KString "planning.task-atoms.v1") 924; kprop "rationale" (KString "Task extractor output is one accumulating atom ledger, so one slot set covers all inventory modes.") 965] (Some [
    KNode "slot" [karg (KString "semantic_lens") 1085; kprop "type" (KString "string") 1101; kprop "required" (KBool true) 1115; kprop "max_bytes" (KInteger 512) 1130; kprop "doc" (KString "Preserves the active WORK/DECISION/CONSTRAINT/ACCEPTANCE/PREMISE/QUESTION/REFERENCE lens so atom kind boundaries do not drift.") 1144] None 1080;
    KNode "slot" [karg (KString "authority_coverage") 1284; kprop "type" (KString "array<string>") 1305; kprop "required" (KBool true) 1326; kprop "max_entries" (KInteger 64) 1341; kprop "max_bytes" (KInteger 1024) 1356; kprop "doc" (KString "Preserves authority documents and ranges already covered or not covered so task evidence is not reread or skipped.") 1371] None 1279;
    KNode "slot" [karg (KString "atom_ledger") 1499; kprop "type" (KString "array<string>") 1513; kprop "required" (KBool true) 1534; kprop "max_entries" (KInteger 128) 1549; kprop "max_bytes" (KInteger 2048) 1565; kprop "doc" (KString "Preserves atom id/kind/text/source-anchor tuples already accepted across compaction.") 1580] None 1494;
    KNode "slot" [karg (KString "duplicate_dispositions") 1678; kprop "type" (KString "array<string>") 1703; kprop "required" (KBool true) 1724; kprop "max_entries" (KInteger 64) 1739; kprop "max_bytes" (KInteger 1024) 1754; kprop "doc" (KString "Preserves duplicate and rejected-atom decisions that prevent double counting after resume.") 1769] None 1673;
    KNode "slot" [karg (KString "unresolved_ambiguities") 1873; kprop "type" (KString "array<string>") 1898; kprop "required" (KBool true) 1919; kprop "max_entries" (KInteger 32) 1934; kprop "max_bytes" (KInteger 1024) 1949; kprop "doc" (KString "Preserves authority ambiguities that must remain questions rather than invented atoms.") 1964] None 1868]) 896.

Definition slot_set_evidence_selection_ledger : KdlNode :=
  KNode "slot_set" [karg (KString "evidence-selection-ledger") 2069; kprop "output_contract" (KString "planning.scout-dossier.v1") 2097; kprop "rationale" (KString "Repository scout and context curator both accumulate evidence/source-selection ledgers; one superset prevents two near-identical policies.") 2141] (Some [
    KNode "slot" [karg (KString "scope_identity") 2301; kprop "type" (KString "string") 2318; kprop "required" (KBool true) 2332; kprop "max_bytes" (KInteger 512) 2347; kprop "doc" (KString "Preserves assigned topology, catalog, manifest, or scope identity so evidence remains bounded.") 2361] None 2296;
    KNode "slot" [karg (KString "source_ranges_considered") 2469; kprop "type" (KString "array<string>") 2496; kprop "required" (KBool true) 2517; kprop "max_entries" (KInteger 128) 2532; kprop "max_bytes" (KInteger 2048) 2548; kprop "doc" (KString "Preserves exact files, line ranges, sections, or catalog sources already read or considered.") 2563] None 2464;
    KNode "slot" [karg (KString "accepted_outputs") 2669; kprop "type" (KString "array<string>") 2688; kprop "required" (KBool true) 2709; kprop "max_entries" (KInteger 128) 2724; kprop "max_bytes" (KInteger 2048) 2740; kprop "doc" (KString "Preserves accepted finding tuples or selected source refs with their purpose mapping.") 2755] None 2664;
    KNode "slot" [karg (KString "rejected_uncertain_outputs") 2854; kprop "type" (KString "array<string>") 2883; kprop "required" (KBool true) 2904; kprop "max_entries" (KInteger 64) 2919; kprop "max_bytes" (KInteger 1024) 2934; kprop "doc" (KString "Preserves rejected, uncertain, or out-of-budget claims so resume cannot promote them silently.") 2949] None 2849;
    KNode "slot" [karg (KString "unvisited_or_gap_refs") 3057; kprop "type" (KString "array<string>") 3081; kprop "required" (KBool true) 3102; kprop "max_entries" (KInteger 64) 3117; kprop "max_bytes" (KInteger 1024) 3132; kprop "doc" (KString "Preserves unvisited entry points and exact CONTEXT_GAPs that still need action.") 3147] None 3052;
    KNode "slot" [karg (KString "budget_identity") 3240; kprop "type" (KString "string") 3258; kprop "required" (KBool true) 3272; kprop "max_bytes" (KInteger 512) 3287; kprop "doc" (KString "Preserves base Git, budget, or context-manifest identity needed to bind evidence freshness.") 3301] None 3235]) 2060.

Definition slot_set_question_ledger : KdlNode :=
  KNode "slot_set" [karg (KString "question-ledger") 3411; kprop "output_contract" (KString "planning.questions.v1") 3429; kprop "rationale" (KString "Contradiction resolver output is one question/resolution ledger.") 3469] (Some [
    KNode "slot" [karg (KString "resolution_batch") 3555; kprop "type" (KString "string") 3574; kprop "required" (KBool true) 3588; kprop "max_bytes" (KInteger 512) 3603; kprop "doc" (KString "Preserves contradiction or batch identity so both sides remain paired after resume.") 3617] None 3550;
    KNode "slot" [karg (KString "claim_evidence_ledger") 3714; kprop "type" (KString "array<string>") 3738; kprop "required" (KBool true) 3759; kprop "max_entries" (KInteger 128) 3774; kprop "max_bytes" (KInteger 2048) 3790; kprop "doc" (KString "Preserves both-side claim, evidence, and freshness comparisons required for symmetric resolution.") 3805] None 3709;
    KNode "slot" [karg (KString "surviving_facts") 3916; kprop "type" (KString "array<string>") 3934; kprop "required" (KBool true) 3955; kprop "max_entries" (KInteger 64) 3970; kprop "max_bytes" (KInteger 1024) 3985; kprop "doc" (KString "Preserves facts retained with confidence so they are not re-contested or weakened.") 4000] None 3911;
    KNode "slot" [karg (KString "rejected_facts") 4096; kprop "type" (KString "array<string>") 4113; kprop "required" (KBool true) 4134; kprop "max_entries" (KInteger 64) 4149; kprop "max_bytes" (KInteger 1024) 4164; kprop "doc" (KString "Preserves rejected facts and reasons so resume cannot revive invalidated claims.") 4179] None 4091;
    KNode "slot" [karg (KString "unresolved_gaps") 4273; kprop "type" (KString "array<string>") 4291; kprop "required" (KBool true) 4312; kprop "max_entries" (KInteger 64) 4327; kprop "max_bytes" (KInteger 1024) 4342; kprop "doc" (KString "Preserves unresolved material gaps that must remain operator questions if not closed.") 4357] None 4268;
    KNode "slot" [karg (KString "pending_questions") 4456; kprop "type" (KString "array<string>") 4476; kprop "required" (KBool true) 4497; kprop "max_entries" (KInteger 64) 4512; kprop "max_bytes" (KInteger 1024) 4527; kprop "doc" (KString "Preserves drafted question nominations with class/evidence/consequence boundaries.") 4542] None 4451]) 3402.

Definition slot_set_work_map_ledger : KdlNode :=
  KNode "slot_set" [karg (KString "work-map-ledger") 4643; kprop "output_contract" (KString "planning.work-map.v1") 4661; kprop "rationale" (KString "Plan compiler and plan synthesizer both produce the same work-map contract; a shared ledger captures compiler disposition and synthesizer merge decisions.") 4700] (Some [
    KNode "slot" [karg (KString "input_disposition_matrix") 4876; kprop "type" (KString "array<string>") 4903; kprop "required" (KBool true) 4924; kprop "max_entries" (KInteger 256) 4939; kprop "max_bytes" (KInteger 4096) 4955; kprop "doc" (KString "Preserves atom/finding/decision/compiler-input coverage so plausible work maps cannot drop inputs.") 4970] None 4871;
    KNode "slot" [karg (KString "draft_units") 5082; kprop "type" (KString "array<string>") 5096; kprop "required" (KBool true) 5117; kprop "max_entries" (KInteger 128) 5132; kprop "max_bytes" (KInteger 4096) 5148; kprop "doc" (KString "Preserves current unit ids, objectives, criteria, and trace links already drafted.") 5163] None 5077;
    KNode "slot" [karg (KString "dependency_gate_tdd_obligations") 5259; kprop "type" (KString "array<string>") 5293; kprop "required" (KBool true) 5314; kprop "max_entries" (KInteger 128) 5329; kprop "max_bytes" (KInteger 2048) 5345; kprop "doc" (KString "Preserves dependency, gate, TDD, context, and release obligations attached to units.") 5360] None 5254;
    KNode "slot" [karg (KString "merge_conflict_decisions") 5458; kprop "type" (KString "array<string>") 5485; kprop "required" (KBool true) 5506; kprop "max_entries" (KInteger 64) 5521; kprop "max_bytes" (KInteger 2048) 5536; kprop "doc" (KString "Preserves coalescing, conflict, assumption, and deviation decisions, including explicit none when absent.") 5551] None 5453;
    KNode "slot" [karg (KString "trace_gaps") 5670; kprop "type" (KString "array<string>") 5683; kprop "required" (KBool true) 5704; kprop "max_entries" (KInteger 64) 5719; kprop "max_bytes" (KInteger 1024) 5734; kprop "doc" (KString "Preserves unresolved trace gaps and still-unincorporated inputs that block silent omissions.") 5749] None 5665]) 4634.

Definition slot_set_plan_review_ledger : KdlNode :=
  KNode "slot_set" [karg (KString "plan-review-ledger") 5860; kprop "output_contract" (KString "planning.plan-review.v1") 5881; kprop "rationale" (KString "Plan reviewer output is a verdict ledger over the criterion universe.") 5923] (Some [
    KNode "slot" [karg (KString "criterion_universe") 6014; kprop "type" (KString "array<string>") 6035; kprop "required" (KBool true) 6056; kprop "max_entries" (KInteger 256) 6071; kprop "max_bytes" (KInteger 4096) 6087; kprop "doc" (KString "Preserves every criterion that must receive a closed verdict before approval.") 6102] None 6009;
    KNode "slot" [karg (KString "verdict_ledger") 6193; kprop "type" (KString "array<string>") 6210; kprop "required" (KBool true) 6231; kprop "max_entries" (KInteger 256) 6246; kprop "max_bytes" (KInteger 4096) 6262; kprop "doc" (KString "Preserves verdicts already assigned by criterion so resume cannot double-report or omit.") 6277] None 6188;
    KNode "slot" [karg (KString "evidence_rationale_refs") 6379; kprop "type" (KString "array<string>") 6405; kprop "required" (KBool true) 6426; kprop "max_entries" (KInteger 128) 6441; kprop "max_bytes" (KInteger 2048) 6457; kprop "doc" (KString "Preserves evidence, finding refs, and rationale needed to justify each verdict.") 6472] None 6374;
    KNode "slot" [karg (KString "checked_dimensions") 6565; kprop "type" (KString "array<string>") 6586; kprop "required" (KBool true) 6607; kprop "max_entries" (KInteger 64) 6622; kprop "max_bytes" (KInteger 1024) 6637; kprop "doc" (KString "Preserves review dimensions already checked so coverage remains total.") 6652] None 6560;
    KNode "slot" [karg (KString "unreviewed_criteria") 6736; kprop "type" (KString "array<string>") 6758; kprop "required" (KBool true) 6779; kprop "max_entries" (KInteger 128) 6794; kprop "max_bytes" (KInteger 2048) 6810; kprop "doc" (KString "Preserves criteria still requiring verdicts, preventing false overall pass.") 6825] None 6731;
    KNode "slot" [karg (KString "blocker_advisory_split") 6914; kprop "type" (KString "array<string>") 6939; kprop "required" (KBool true) 6960; kprop "max_entries" (KInteger 64) 6975; kprop "max_bytes" (KInteger 1024) 6990; kprop "doc" (KString "Preserves blocker/advisory classification boundaries that affect release decisions.") 7005] None 6909]) 5851.

Definition slot_set_delivery_ledger : KdlNode :=
  KNode "slot_set" [karg (KString "delivery-ledger") 7107; kprop "output_contract" (KString "autopilot.delivery_result.v2") 7125; kprop "rationale" (KString "Implementer and fixer-integrator share the package-owned delivery result v2; fixer state is an additive repair ledger, not a separate Rust branch.") 7172] (Some [
    KNode "slot" [karg (KString "worktree_identity") 7340; kprop "type" (KString "string") 7360; kprop "required" (KBool true) 7374; kprop "max_bytes" (KInteger 512) 7389; kprop "doc" (KString "Preserves exact base commit, worktree, assignment, lane, attempt, and revision identity.") 7403] None 7335;
    KNode "slot" [karg (KString "scope_boundaries") 7505; kprop "type" (KString "array<string>") 7524; kprop "required" (KBool true) 7545; kprop "max_entries" (KInteger 128) 7560; kprop "max_bytes" (KInteger 2048) 7576; kprop "doc" (KString "Preserves owned, read-only, and untouchable scopes so resume cannot cross boundaries.") 7591] None 7500;
    KNode "slot" [karg (KString "edit_ledger") 7690; kprop "type" (KString "array<string>") 7704; kprop "required" (KBool true) 7725; kprop "max_entries" (KInteger 256) 7740; kprop "max_bytes" (KInteger 4096) 7756; kprop "doc" (KString "Preserves actual dirty paths and edit decisions that must be mechanically checked.") 7771] None 7685;
    KNode "slot" [karg (KString "tdd_command_ledger") 7867; kprop "type" (KString "array<string>") 7888; kprop "required" (KBool true) 7909; kprop "max_entries" (KInteger 128) 7924; kprop "max_bytes" (KInteger 2048) 7940; kprop "doc" (KString "Preserves criterion, test, command, failing-before, and passing-after evidence.") 7955] None 7862;
    KNode "slot" [karg (KString "evidence_refs") 8048; kprop "type" (KString "array<string>") 8064; kprop "required" (KBool true) 8085; kprop "max_entries" (KInteger 128) 8100; kprop "max_bytes" (KInteger 2048) 8116; kprop "doc" (KString "Preserves evidence refs required by delivery_result and repair findings.") 8131] None 8043;
    KNode "slot" [karg (KString "boundary_violations") 8217; kprop "type" (KString "array<string>") 8239; kprop "required" (KBool true) 8260; kprop "max_entries" (KInteger 64) 8275; kprop "max_bytes" (KInteger 1024) 8290; kprop "doc" (KString "Preserves any hard boundary violation that must remain loud at terminal status.") 8305] None 8212;
    KNode "slot" [karg (KString "repair_decisions") 8398; kprop "type" (KString "array<string>") 8417; kprop "required" (KBool true) 8438; kprop "max_entries" (KInteger 128) 8453; kprop "max_bytes" (KInteger 2048) 8469; kprop "doc" (KString "Preserves finding ids, root causes, conflict decisions, and unchanged contracts; empty only for non-repair deliveries.") 8484] None 8393;
    KNode "slot" [karg (KString "draft_delivery_status") 8616; kprop "type" (KString "string") 8640; kprop "required" (KBool true) 8654; kprop "max_bytes" (KInteger 512) 8669; kprop "doc" (KString "Preserves current terminal-status draft so resume cannot convert blocked work into DONE.") 8683] None 8611]) 7098.

Definition slot_set_recovery_ledger : KdlNode :=
  KNode "slot_set" [karg (KString "recovery-ledger") 8790; kprop "output_contract" (KString "recovery-engineer.v1") 8808; kprop "rationale" (KString "Recovery Engineer spans phase-bound plan or source repair, so its checkpoint must preserve diagnosis, original authority, surgical edits, evidence, and the unchanged original gate without converting repair into new work.") 8847] (Some [
    KNode "slot" [karg (KString "recovery_identity") 9089; kprop "type" (KString "string") 9109; kprop "required" (KBool true) 9123; kprop "max_bytes" (KInteger 512) 9138; kprop "doc" (KString "Preserves trigger assignment, phase, attempt, repository identity, and original gate.") 9152] None 9084;
    KNode "slot" [karg (KString "diagnosis_ledger") 9251; kprop "type" (KString "array<string>") 9270; kprop "required" (KBool true) 9291; kprop "max_entries" (KInteger 128) 9306; kprop "max_bytes" (KInteger 2048) 9322; kprop "doc" (KString "Preserves runtime diagnosis, independently checked evidence, corrections to that diagnosis, and root cause.") 9337] None 9246;
    KNode "slot" [karg (KString "authority_boundaries") 9458; kprop "type" (KString "array<string>") 9481; kprop "required" (KBool true) 9502; kprop "max_entries" (KInteger 128) 9517; kprop "max_bytes" (KInteger 2048) 9533; kprop "doc" (KString "Preserves original authority, exact writable scope, protected tests/gates, and unaffected obligations.") 9548] None 9453;
    KNode "slot" [karg (KString "repair_ledger") 9664; kprop "type" (KString "array<string>") 9680; kprop "required" (KBool true) 9701; kprop "max_entries" (KInteger 256) 9716; kprop "max_bytes" (KInteger 4096) 9732; kprop "doc" (KString "Preserves precise plan/source changes and rejected alternatives so resume cannot expand into new work.") 9747] None 9659;
    KNode "slot" [karg (KString "evidence_refs") 9863; kprop "type" (KString "array<string>") 9879; kprop "required" (KBool true) 9900; kprop "max_entries" (KInteger 128) 9915; kprop "max_bytes" (KInteger 2048) 9931; kprop "doc" (KString "Preserves before/after evidence and the same-gate revalidation binding.") 9946] None 9858;
    KNode "slot" [karg (KString "terminal_disposition") 10031; kprop "type" (KString "string") 10054; kprop "required" (KBool true) 10068; kprop "max_bytes" (KInteger 512) 10083; kprop "doc" (KString "Preserves repaired, no-defect, new-authority, infrastructure, or blocked posture without manufacturing success.") 10097] None 10026]) 8781.

Definition checkpoint_nodes : list KdlNode := [
  KNode "schema" [karg (KString "autopilot.checkpoint-policy.v1") 7] None 0;
  KNode "version" [karg (KInteger 1) 48] None 40;
  KNode "doc" [karg (KString "Data-owned checkpoint handoff policy. Rust interprets generic slot sets and bounds; it must not branch on role names. Critical-state values are scalars or arrays of scalars only.") 55] None 51;
  KNode "handoff_contract" [karg (KString "autopilot.agent-handoff.v1") 254] None 237;
  KNode "threshold" [karg (KString "arm") 294; kprop "percent" (KInteger 75) 300; kprop "basis" (KString "Operator requirement: arm checkpoint at about 75 percent context before hard interruption.") 311] None 284;
  KNode "threshold" [karg (KString "checkpoint") 420; kprop "percent" (KInteger 85) 433; kprop "basis" (KString "Operator requirement from the RPC compaction plan; not a proof of overflow safety.") 444] None 410;
  KNode "handoff_bounds" [kprop "completed_max_entries" (KInteger 32) 551; kprop "remaining_max_entries" (KInteger 32) 576; kprop "entry_max_bytes" (KInteger 512) 601; kprop "total_max_bytes" (KInteger 65536) 621; kprop "critical_state_max_slots" (KInteger 16) 643; kprop "critical_state_value_max_bytes" (KInteger 4096) 671; kprop "critical_state_array_max_entries" (KInteger 256) 707; kprop "basis" (KString "64 KiB keeps one handoff near the live-probed 50 KiB Pi tool-result ceiling plus envelope; 32x512 list bounds reserve room for critical_state.") 744] None 536;
  slot_set_task_atom_ledger;
  slot_set_evidence_selection_ledger;
  slot_set_question_ledger;
  slot_set_work_map_ledger;
  slot_set_plan_review_ledger;
  slot_set_delivery_ledger;
  slot_set_recovery_ledger;
  KNode "role_policy" [karg (KString "task-extractor") 10230; kprop "interruptible" (KBool true) 10247; kprop "slot_set" (KString "task-atom-ledger") 10267; kprop "reason" (KString "Long-running inventory can accumulate partial atoms that are safe only if the atom ledger and authority coverage survive.") 10295] None 10218;
  KNode "role_policy" [karg (KString "repository-scout") 10438; kprop "interruptible" (KBool true) 10457; kprop "slot_set" (KString "evidence-selection-ledger") 10477; kprop "reason" (KString "Live probe proved scout findings can cross compaction; evidence and unvisited scope must survive.") 10514] None 10426;
  KNode "role_policy" [karg (KString "context-curator") 10633; kprop "interruptible" (KBool true) 10651; kprop "slot_set" (KString "evidence-selection-ledger") 10671; kprop "reason" (KString "Curator accumulates selected/rejected sources and budget gaps; losing them silently degrades downstream context.") 10708] None 10621;
  KNode "role_policy" [karg (KString "plan-compiler") 10842; kprop "interruptible" (KBool true) 10858; kprop "slot_set" (KString "work-map-ledger") 10878; kprop "reason" (KString "Compiler must account for every atom/finding/decision while drafting executable units.") 10905] None 10830;
  KNode "role_policy" [karg (KString "plan-synthesizer") 11013; kprop "interruptible" (KBool true) 11032; kprop "slot_set" (KString "work-map-ledger") 11052; kprop "reason" (KString "Synthesizer can silently drop compiler/trace inputs unless merge and DAG state survive.") 11079] None 11001;
  KNode "role_policy" [karg (KString "plan-reviewer") 11188; kprop "interruptible" (KBool true) 11204; kprop "slot_set" (KString "plan-review-ledger") 11224; kprop "reason" (KString "Reviewer must preserve criterion-level verdict coverage; a plausible PASS cannot hide omissions.") 11254] None 11176;
  KNode "role_policy" [karg (KString "contradiction-resolver") 11372; kprop "interruptible" (KBool true) 11397; kprop "slot_set" (KString "question-ledger") 11417; kprop "reason" (KString "Resolver must preserve both sides of each contradiction and pending question nominations.") 11444] None 11360;
  KNode "role_policy" [karg (KString "implementer") 11555; kprop "interruptible" (KBool true) 11569; kprop "slot_set" (KString "delivery-ledger") 11589; kprop "reason" (KString "Delivery work mutates a sparse worktree; edit, evidence, and boundary ledgers must survive.") 11616] None 11543;
  KNode "role_policy" [karg (KString "fixer-integrator") 11729; kprop "interruptible" (KBool true) 11748; kprop "slot_set" (KString "delivery-ledger") 11768; kprop "reason" (KString "Fixer repair state extends delivery state with failure, root-cause, and unchanged-contract obligations.") 11795] None 11717;
  KNode "role_policy" [karg (KString "recovery-engineer") 11920; kprop "interruptible" (KBool true) 11940; kprop "slot_set" (KString "recovery-ledger") 11960; kprop "reason" (KString "Cross-phase correction can resume only with root cause, original authority, exact edits, evidence, and original-gate identity intact.") 11987] None 11908;
  KNode "role_policy" [karg (KString "onboard") 12143; kprop "interruptible" (KBool false) 12153; kprop "reason" (KString "Thin intake is short and operator-authority bound; interrupting it has no lossless Q1 handoff policy.") 12174] None 12131;
  KNode "role_policy" [karg (KString "orchestrator") 12297; kprop "interruptible" (KBool false) 12312; kprop "reason" (KString "Control decisions mutate scheduling authority; checkpointing them as model state is unsafe.") 12333] None 12285;
  KNode "role_policy" [karg (KString "context-synthesizer") 12446; kprop "interruptible" (KBool false) 12468; kprop "reason" (KString "Legacy context synthesis has no Q1 evidence-backed handoff slots; runtime must hard-fail rather than resume lossy.") 12489] None 12434;
  KNode "role_policy" [karg (KString "execution-allocator") 12625; kprop "interruptible" (KBool false) 12647; kprop "reason" (KString "Allocation is a CAS/control-adjacent proposal; no lossless Q1 policy was established for partial lane allocation.") 12668] None 12613;
  KNode "role_policy" [karg (KString "validator") 12803; kprop "interruptible" (KBool false) 12815; kprop "reason" (KString "Validation verdicts are closure gates and must be atomic; partial verdict resume is worse than loud failure.") 12836] None 12791;
  KNode "role_policy" [karg (KString "bughunter") 12966; kprop "interruptible" (KBool false) 12978; kprop "reason" (KString "Final bughunt is a terminal review gate; it should restart or fail loudly rather than resume partial findings.") 12999] None 12954].

Definition no_policy : CheckpointPolicy :=
  {| cp_handoff_contract := ""; cp_thresholds := ∅;
     cp_bounds := Build_HandoffBounds 0 0 0 0 0 0 0; cp_slot_sets := ∅; cp_roles := ∅ |}.

(** The policy as read. *)
Definition shipped_policy : CheckpointPolicy := Eval vm_compute in
  match parse_nodes checkpoint_nodes with Ok p => p | Err _ => no_policy end.

Lemma shipped_policy_read : parse_nodes checkpoint_nodes = Ok shipped_policy.
Proof. vm_compute. reflexivity. Qed.

(** The shipped policy declares the thresholds that [observe_context] has in
    its code, and a checkpoint policy for exactly the roles of the registry,
    ten of which can be interrupted. *)
Theorem shipped_policy_fits :
  cp_thresholds shipped_policy !! "arm" = Some 75 ∧ cp_thresholds shipped_policy !! "checkpoint" = Some 85 ∧
  length (interruptible_roles shipped_policy) = 10%nat ∧
  match parse_roles DRIVER_TABLES_KDL ROLE_REGISTRY_KDL with
  | Ok roles => btree_keys roles = btree_keys (cp_roles shipped_policy)
  | Err _ => False
  end.
Proof. split_and!; vm_compute; reflexivity. Qed.

(** A JSON library for the witness: texts without escapes. *)
Fixpoint json_size (v : Value) : Z :=
  match v with
  | VNull => 4
  | VBool b => if b then 4 else 5
  | VNumber t => str_len t
  | VString s => str_len s + 2
  | VArray l => 1 + Z.max 1 (fold_right (λ x n, json_size x + 1 + n) 0 l)
  | VObject m => 1 + Z.max 1 (fold_right (λ '(k, x) n, str_len k + 3 + json_size x + 1 + n) 0 m)
  end.
Definition handoff_json (h : AgentHandoff) : Value :=
  VObject ([("schema", VString "autopilot.agent-handoff.v1");
            ("completed", VArray (map VString (ah_completed h))); ("remaining", VArray (map VString (ah_remaining h)));
            ("critical_state", VObject (btree_map (ah_critical_state h))); ("next_action", VString (ah_next_action h))]
           ++ btree_map (ah_extras h)).
Definition demo_serde : Serde := {|
  from_str := λ _, Err "no parser"; from_value := λ _, Err "no reader"; to_value := λ h, Ok (handoff_json h);
  value_len := λ v, Ok (json_size v); handoff_len := λ h, Ok (json_size (handoff_json h)) |}.

Definition demo_handoff : AgentHandoff :=
  handoff_new ["read the brief"] ["extract atoms"]
    (list_to_map [("semantic_lens", VString "WORK"); ("authority_coverage", VArray [VString "task.md:1-20"]);
                  ("atom_ledger", VArray [VString "a1 work"]); ("duplicate_dispositions", VArray [VString "none"]);
                  ("unresolved_ambiguities", VArray [VString "none"])]) "continue at line 21".

Theorem handoff_accepted_exact_witness :
  acceptable demo_serde shipped_policy "task-extractor" demo_handoff 480.
Proof.
  destruct (handoff_accepted_exact demo_serde shipped_policy "task-extractor" demo_handoff 480
              (checkpoint_policy_sound _ _ shipped_policy_read)) as (r & Hr & Hiff).
  apply (Hiff demo_handoff).
  assert (validate_handoff_with_total demo_serde shipped_policy "task-extractor" demo_handoff 480 = Some (Ok demo_handoff))
    as E by (vm_compute; reflexivity).
  rewrite E in Hr. by injection Hr.
Defined.

(** 84.9999999999999857891452847979962825775146484375, the last double below 85. *)
Definition last_below_85 : f64 := SpecFloat.S754_finite false (85 * 2 ^ 46 - 1)%positive (-46).
Definition demo_input : CheckpointInput := input_planning "a1" 3 "s1" demo_handoff.

Theorem context_decision_exact_witness :
  observe_context last_below_85 demo_input = Ok SoftWarning ∧ below last_below_85 85 ∧
  match observe_context (f64_from 85) demo_input with Ok (CheckpointAndSettle _) => True | _ => False end.
Proof.
  assert (observe_context last_below_85 demo_input = Ok SoftWarning) as E by (vm_compute; reflexivity).
  split; [exact E|]. split; [|vm_compute; exact I].
  pose proof (context_decision_exact last_below_85 demo_input eq_refl) as H. rewrite E in H. destruct H as (_ & _ & _ & [_ Hb] & _). exact Hb.
Defined.

(** Bounds whose product is 2 ^ 64 pass the check of a release build. *)
Definition wrapped_bounds : HandoffBounds :=
  {| completed_max_entries := 2 ^ 55; remaining_max_entries := 1; entry_max_bytes := 512; total_max_bytes := 65536;
     critical_state_max_slots := 16; critical_state_value_max_bytes := 4096; critical_state_array_max_entries := 256 |}.

(** The bound on the lists of a hand-off is meant to keep them within the
    total, and does while its products fit a [usize]; products that wrap around
    are accepted although the lists may exceed the total. *)
Theorem bounds_overflow :
  (∀ b, bounds_exceed_total b = false →
     in_range usize_max (completed_max_entries b * entry_max_bytes b) →
     in_range usize_max (remaining_max_entries b * entry_max_bytes b) →
     completed_max_entries b * entry_max_bytes b ≤ total_max_bytes b ∧
     remaining_max_entries b * entry_max_bytes b ≤ total_max_bytes b) ∧
  bounds_exceed_total wrapped_bounds = false ∧
  total_max_bytes wrapped_bounds < completed_max_entries wrapped_bounds * entry_max_bytes wrapped_bounds.
Proof.
  split; [|split; [vm_compute; reflexivity|vm_compute; reflexivity]].
  intros b Hb H1 H2. unfold bounds_exceed_total, wrapping_mul in Hb. to_prop.
  unfold in_range, usize_max, u64_max in *. rewrite Z.mod_small in * by lia. lia.
Qed.
