(* ===== verification/Json.v ===== *)
(** * JSON values

    [serde_json::Value] and the traits by which the drivers turn records into
    values and read them back.  What serde does for a type is an instance of
    [Serialize] or [Deserialize]; the text of a string is the library's, a
    parameter.  [write_canonical] of [drivers/src/evidence/mod.rs] is the
    canonical form that hashes are taken of. *)

From S2P Require Import Prelude RustColl RustStr.

(** An object is its bindings, in key order (serde_json's map is a B-tree). *)
Inductive Value :=
| VNull | VBool (b : bool) | VNumber (text : string) | VString (s : string)
| VArray (items : list Value) | VObject (members : list (string * Value)).

Definition as_str (v : Value) : option string := match v with VString s => Some s | _ => None end.
Definition as_array (v : Value) : option (list Value) := match v with VArray l => Some l | _ => None end.

(** [serde_json::to_value], when it does not fail *)
Class Serialize (T : Type) := value_of : T → Value.
Class Deserialize (T : Type) := from_text : string → result string T.

Definition key_order {V} : string * V → string * V → comparison := cmp_on fst String.compare.

(** An object from its members in any order. *)
Definition object (members : list (string * Value)) : Value := VObject (sort_by key_order members).

#[global] Instance Serialize_string : Serialize string := VString.
#[global] Instance Serialize_Z : Serialize Z := λ z, VNumber (show_int z).
#[global] Instance Serialize_bool : Serialize bool := VBool.
#[global] Instance Serialize_list {T} `{Serialize T} : Serialize (list T) := λ l, VArray (map value_of l).
#[global] Instance Serialize_option {T} `{Serialize T} : Serialize (option T) :=
  λ o, match o with Some x => value_of x | None => VNull end.

(** A member, and one with [skip_serializing_if = "Option::is_none"] *)
Definition member {T} `{Serialize T} (name : string) (x : T) : list (string * Value) := [(name, value_of x)].
Definition optional_member {T} `{Serialize T} (name : string) (o : option T) : list (string * Value) :=
  match o with Some x => [(name, value_of x)] | None => [] end.

(** Induction over values, with the parts of arrays and objects. *)
Definition Value_nested (P : Value → Prop)
    (Hnull : P VNull) (Hbool : ∀ b, P (VBool b)) (Hnum : ∀ t, P (VNumber t)) (Hstr : ∀ s, P (VString s))
    (Harr : ∀ l, Forall P l → P (VArray l)) (Hobj : ∀ m, Forall (λ kv, P kv.2) m → P (VObject m)) : ∀ v, P v :=
  fix go v :=
    match v with
    | VNull => Hnull | VBool b => Hbool b | VNumber t => Hnum t | VString s => Hstr s
    | VArray l => Harr l ((fix all l : Forall P l :=
        match l with [] => List.Forall_nil P | x :: l' => List.Forall_cons P x l' (go x) (all l') end) l)
    | VObject m => Hobj m ((fix all m : Forall (λ kv, P kv.2) m :=
        match m with
        | [] => List.Forall_nil _
        | x :: m' => List.Forall_cons (λ kv, P kv.2) x m' (go x.2) (all m')
        end) m)
    end.

(** ** The canonical form *)

Section Canonical.
(** [serde_json::to_writer] of a string *)
Context (json_text : string → result string string).

(** The members are collected into a B-tree: sorted by key. *)
Fixpoint write_canonical (v : Value) : result string string :=
  match v with
  | VNull => Ok "null"
  | VBool b => Ok (if b then "true" else "false")
  | VNumber text => Ok text
  | VString text => json_text text
  | VArray items =>
      texts ← collect_res write_canonical items;
      Ok ("[" +:+ join "," texts +:+ "]")
  | VObject members =>
      texts ← collect_res (λ '(key, item),
                name ← json_text key;
                text ← item;
                Ok (name +:+ ":" +:+ text))
              (sort_by key_order (map (λ '(key, item), (key, write_canonical item)) members));
      Ok ("{" +:+ join "," texts +:+ "}")
  end.

(** [map.remove(self_field)] *)
Definition remove_member (field : string) (v : Value) : Value :=
  match v with
  | VObject members => VObject (filter (λ m, m.1 ≠ field) members)
  | _ => v
  end.
End Canonical.

(** ** Values that differ in the order of members only *)

(** Objects have distinct keys. *)
Fixpoint distinct_keys (v : Value) : Prop :=
  match v with
  | VArray l => foldr (λ x P, distinct_keys x ∧ P) True l
  | VObject m => NoDup m.*1 ∧ foldr (λ x P, distinct_keys x.2 ∧ P) True m
  | _ => True
  end.

Inductive json_equiv : Value → Value → Prop :=
| JEqNull : json_equiv VNull VNull
| JEqBool b : json_equiv (VBool b) (VBool b)
| JEqNumber t : json_equiv (VNumber t) (VNumber t)
| JEqString s : json_equiv (VString s) (VString s)
| JEqArray l k : Forall2 json_equiv l k → json_equiv (VArray l) (VArray k)
| JEqObject m m1 n :
    Forall2 (λ x y, x.1 = y.1 ∧ json_equiv x.2 y.2) m m1 → m1 ≡ₚ n → json_equiv (VObject m) (VObject n).

Lemma distinct_array l : distinct_keys (VArray l) ↔ Forall distinct_keys l.
Proof. cbn. induction l as [|x l IH]; cbn; [by rewrite Forall_nil|]. by rewrite Forall_cons, IH. Qed.
Lemma distinct_object m : distinct_keys (VObject m) ↔ NoDup m.*1 ∧ Forall (λ x, distinct_keys x.2) m.
Proof.
  cbn. enough (foldr (λ x P, distinct_keys x.2 ∧ P) True m ↔ Forall (λ x, distinct_keys x.2) m) as -> by done.
  induction m as [|x m IH]; cbn; [by rewrite Forall_nil|]. by rewrite Forall_cons, IH.
Qed.

Lemma NoDup_fst_inj {V} (m : list (string * V)) x y : NoDup m.*1 → x ∈ m → y ∈ m → x.1 = y.1 → x = y.
Proof.
  intros Hnd Hx Hy He. apply list_elem_of_lookup in Hx as [i Hi], Hy as [j Hj].
  assert (i = j) as ->; [|congruence]. eapply NoDup_lookup; [done| |]; rewrite list_lookup_fmap.
  - by rewrite Hi.
  - rewrite Hj. cbn. by rewrite He.
Qed.

Lemma sort_members_perm {V} (m n : list (string * V)) :
  NoDup m.*1 → m ≡ₚ n → sort_by key_order m = sort_by key_order n.
Proof.
  intros Hnd Hp. apply sort_by_perm_unique; [typeclasses eauto|done|].
  intros x y Hx Hy Hc. apply (NoDup_fst_inj m); [done..|]. by apply String.compare_eq_iff in Hc.
Qed.

(** The canonical form does not depend on the order of members. *)
Lemma write_canonical_equiv json_text v : ∀ w,
  json_equiv v w → distinct_keys v → write_canonical json_text v = write_canonical json_text w.
Proof.
  induction v as [| | | |l IH|m IH] using Value_nested; intros w He Hd;
    inversion He as [| | | |? k Hk|? m1 n Hm Hp]; subst; try done.
  - cbn. f_equal. apply distinct_array in Hd. clear He. revert Hd IH.
    induction Hk as [|x y l k Hxy Hlk IHk]; intros Hd IH; [done|]. cbn.
    apply Forall_cons in Hd as [Hdx Hd], IH as [IHx IH]. rewrite (IHx y Hxy Hdx). by rewrite IHk.
  - apply distinct_object in Hd as [Hnd Hd]. cbn.
    assert (map (λ '(key, item), (key, write_canonical json_text item)) m =
            map (λ '(key, item), (key, write_canonical json_text item)) m1) as E.
    { clear He Hp Hnd. revert Hd IH. induction Hm as [|[k x] [k' y] m m1 [Hk Hxy] Hm IHm]; intros Hd IH; [done|].
      apply Forall_cons in Hd as [Hdx Hd], IH as [IHx IH]. cbn in *. subst k'. rewrite (IHx y Hxy Hdx). by rewrite IHm. }
    rewrite E. do 2 f_equal. apply sort_members_perm; [|by apply fmap_Permutation].
    rewrite <- E. rewrite <- list_fmap_compose. rewrite (list_fmap_ext _ fst); [done|]. by intros i [k x] _.
Qed.
