(* ===== verification/EvidenceTypes.v ===== *)
(** * Evidence contracts

    The records of attested evidence: assignments, actions, receipts and
    manifests of [kernel/src/generated/mod.rs], and the reports and sidecars of
    the producer, [drivers/src/evidence/mod.rs].  An instance of [Serialize] is
    what the derived implementation writes. *)

From S2P Require Import Prelude RustStr Json.

Inductive EvidenceContentKind :=
| AcceptanceReceipt
| ActionContent
| AssignmentContent
| EnvelopeManifest
| FailureReceipt
| ProducerBinding
| ProducerSidecar
| PromptContent
| ReportContent
| SupersessionReceipt
| Transcript.
#[global] Instance EvidenceContentKind_eq_dec : EqDecision EvidenceContentKind.
Proof. solve_decision. Defined.

Inductive EvidenceErrorCode :=
| EVIDENCEACTIONEXPIRED
| EVIDENCEACTIONNOTISSUED
| EVIDENCEACTIONSUPERSEDED
| EVIDENCEASSIGNMENTCONFLICT
| EVIDENCEBOUNDARYREJECTED
| EVIDENCECHANNELFORBIDDEN
| EVIDENCEENVELOPEMEMBERMISMATCH
| EVIDENCEENVELOPEOPEN
| EVIDENCEEVENTLOGCORRUPT
| EVIDENCEHASHMISMATCH
| EVIDENCEIDEMPOTENCYCONFLICT
| EVIDENCEMETEREDUSAGEOBSERVED
| EVIDENCEMODELMISMATCH
| EVIDENCEPRODUCERREQUESTMISMATCH
| EVIDENCEPRODUCERUNAVAILABLE
| EVIDENCEPROSENOTCONTRACT
| EVIDENCEPROVIDERMISMATCH
| EVIDENCESCHEMAUNSUPPORTED
| EVIDENCESESSIONCONFLICT
| EVIDENCESOURCEMISSING
| EVIDENCESOURCENOTREGULAR
| EVIDENCESOURCEPATHINVALID
| EVIDENCESOURCESYMLINK
| EVIDENCESTOREIO
| EVIDENCESUBJECTSTALE
| EVIDENCESUPERSESSIONINVALID
| EVIDENCETASKBINDINGCONFLICT
| EVIDENCETERMINALNOTCOMPLETED
| EVIDENCEUNDECLAREDINPUT.
#[global] Instance EvidenceErrorCode_eq_dec : EqDecision EvidenceErrorCode.
Proof. solve_decision. Defined.

(** The serde names *)
Definition content_kind_name (x : EvidenceContentKind) : string :=
  match x with
  | AcceptanceReceipt => "acceptance-receipt"
  | ActionContent => "action"
  | AssignmentContent => "assignment"
  | EnvelopeManifest => "envelope-manifest"
  | FailureReceipt => "failure-receipt"
  | ProducerBinding => "producer-binding"
  | ProducerSidecar => "producer-sidecar"
  | PromptContent => "prompt"
  | ReportContent => "report"
  | SupersessionReceipt => "supersession-receipt"
  | Transcript => "transcript"
  end.
#[global] Instance Serialize_EvidenceContentKind : Serialize EvidenceContentKind := λ x, VString (content_kind_name x).

(** The serde names *)
Definition error_code_name (x : EvidenceErrorCode) : string :=
  match x with
  | EVIDENCEACTIONEXPIRED => "EVIDENCE_ACTION_EXPIRED"
  | EVIDENCEACTIONNOTISSUED => "EVIDENCE_ACTION_NOT_ISSUED"
  | EVIDENCEACTIONSUPERSEDED => "EVIDENCE_ACTION_SUPERSEDED"
  | EVIDENCEASSIGNMENTCONFLICT => "EVIDENCE_ASSIGNMENT_CONFLICT"
  | EVIDENCEBOUNDARYREJECTED => "EVIDENCE_BOUNDARY_REJECTED"
  | EVIDENCECHANNELFORBIDDEN => "EVIDENCE_CHANNEL_FORBIDDEN"
  | EVIDENCEENVELOPEMEMBERMISMATCH => "EVIDENCE_ENVELOPE_MEMBER_MISMATCH"
  | EVIDENCEENVELOPEOPEN => "EVIDENCE_ENVELOPE_OPEN"
  | EVIDENCEEVENTLOGCORRUPT => "EVIDENCE_EVENT_LOG_CORRUPT"
  | EVIDENCEHASHMISMATCH => "EVIDENCE_HASH_MISMATCH"
  | EVIDENCEIDEMPOTENCYCONFLICT => "EVIDENCE_IDEMPOTENCY_CONFLICT"
  | EVIDENCEMETEREDUSAGEOBSERVED => "EVIDENCE_METERED_USAGE_OBSERVED"
  | EVIDENCEMODELMISMATCH => "EVIDENCE_MODEL_MISMATCH"
  | EVIDENCEPRODUCERREQUESTMISMATCH => "EVIDENCE_PRODUCER_REQUEST_MISMATCH"
  | EVIDENCEPRODUCERUNAVAILABLE => "EVIDENCE_PRODUCER_UNAVAILABLE"
  | EVIDENCEPROSENOTCONTRACT => "EVIDENCE_PROSE_NOT_CONTRACT"
  | EVIDENCEPROVIDERMISMATCH => "EVIDENCE_PROVIDER_MISMATCH"
  | EVIDENCESCHEMAUNSUPPORTED => "EVIDENCE_SCHEMA_UNSUPPORTED"
  | EVIDENCESESSIONCONFLICT => "EVIDENCE_SESSION_CONFLICT"
  | EVIDENCESOURCEMISSING => "EVIDENCE_SOURCE_MISSING"
  | EVIDENCESOURCENOTREGULAR => "EVIDENCE_SOURCE_NOT_REGULAR"
  | EVIDENCESOURCEPATHINVALID => "EVIDENCE_SOURCE_PATH_INVALID"
  | EVIDENCESOURCESYMLINK => "EVIDENCE_SOURCE_SYMLINK"
  | EVIDENCESTOREIO => "EVIDENCE_STORE_IO"
  | EVIDENCESUBJECTSTALE => "EVIDENCE_SUBJECT_STALE"
  | EVIDENCESUPERSESSIONINVALID => "EVIDENCE_SUPERSESSION_INVALID"
  | EVIDENCETASKBINDINGCONFLICT => "EVIDENCE_TASK_BINDING_CONFLICT"
  | EVIDENCETERMINALNOTCOMPLETED => "EVIDENCE_TERMINAL_NOT_COMPLETED"
  | EVIDENCEUNDECLAREDINPUT => "EVIDENCE_UNDECLARED_INPUT"
  end.
#[global] Instance Serialize_EvidenceErrorCode : Serialize EvidenceErrorCode := λ x, VString (error_code_name x).

Record AutopilotContentRef := {
  cr_schema_version : string;
  cr_kind : EvidenceContentKind;
  cr_path : string;
  cr_byte_length : string;
  cr_sha256 : string;
}.
#[global] Instance Serialize_AutopilotContentRef : Serialize AutopilotContentRef := λ x, object
  (member "schema_version" (cr_schema_version x) ++
   member "kind" (cr_kind x) ++
   member "path" (cr_path x) ++
   member "byte_length" (cr_byte_length x) ++
   member "sha256" (cr_sha256 x)).

Record AutopilotEventRef := {
  er_schema_version : string;
  er_sequence : Z;
  er_kind : string;
  er_row_sha256 : string;
}.
#[global] Instance Serialize_AutopilotEventRef : Serialize AutopilotEventRef := λ x, object
  (member "schema_version" (er_schema_version x) ++
   member "sequence" (er_sequence x) ++
   member "kind" (er_kind x) ++
   member "row_sha256" (er_row_sha256 x)).

Record AutopilotEvidenceConflictPolicy := {
  po_schema_version : string;
  po_distinct_from_receipt_refs : list AutopilotContentRef;
  po_forbid_same_assignment : bool;
  po_forbid_same_action : bool;
  po_forbid_same_session : bool;
  po_require_subject_current : bool;
  po_policy_sha256 : string;
}.
#[global] Instance Serialize_AutopilotEvidenceConflictPolicy : Serialize AutopilotEvidenceConflictPolicy := λ x, object
  (member "schema_version" (po_schema_version x) ++
   member "distinct_from_receipt_refs" (po_distinct_from_receipt_refs x) ++
   member "forbid_same_assignment" (po_forbid_same_assignment x) ++
   member "forbid_same_action" (po_forbid_same_action x) ++
   member "forbid_same_session" (po_forbid_same_session x) ++
   member "require_subject_current" (po_require_subject_current x) ++
   member "policy_sha256" (po_policy_sha256 x)).

Record AutopilotEvidenceConflictCheck := {
  cc_schema_version : string;
  cc_compared_receipt_refs : list AutopilotContentRef;
  cc_assignment_conflicts : list string;
  cc_action_conflicts : list string;
  cc_session_conflicts : list string;
  cc_subject_conflicts : list string;
  cc_provider_channel_conflicts : list string;
  cc_status : string;
  cc_check_sha256 : string;
}.
#[global] Instance Serialize_AutopilotEvidenceConflictCheck : Serialize AutopilotEvidenceConflictCheck := λ x, object
  (member "schema_version" (cc_schema_version x) ++
   member "compared_receipt_refs" (cc_compared_receipt_refs x) ++
   member "assignment_conflicts" (cc_assignment_conflicts x) ++
   member "action_conflicts" (cc_action_conflicts x) ++
   member "session_conflicts" (cc_session_conflicts x) ++
   member "subject_conflicts" (cc_subject_conflicts x) ++
   member "provider_channel_conflicts" (cc_provider_channel_conflicts x) ++
   member "status" (cc_status x) ++
   member "check_sha256" (cc_check_sha256 x)).

Record Phase2PiConsumerBinding := {
  cb_schema_version : string;
  cb_consumer : string;
  cb_run_id : string;
  cb_repo_key : string;
  cb_workstream : string;
  cb_purpose_id : string;
  cb_action_id : string;
  cb_assignment_id : string;
  cb_assignment_revision : Z;
  cb_run_revision : Z;
  cb_boundary_id : string;
  cb_subject_digest : string;
  cb_binding_sha256 : string;
}.
#[global] Instance Serialize_Phase2PiConsumerBinding : Serialize Phase2PiConsumerBinding := λ x, object
  (member "schema_version" (cb_schema_version x) ++
   member "consumer" (cb_consumer x) ++
   member "run_id" (cb_run_id x) ++
   member "repo_key" (cb_repo_key x) ++
   member "workstream" (cb_workstream x) ++
   member "purpose_id" (cb_purpose_id x) ++
   member "action_id" (cb_action_id x) ++
   member "assignment_id" (cb_assignment_id x) ++
   member "assignment_revision" (cb_assignment_revision x) ++
   member "run_revision" (cb_run_revision x) ++
   member "boundary_id" (cb_boundary_id x) ++
   member "subject_digest" (cb_subject_digest x) ++
   member "binding_sha256" (cb_binding_sha256 x)).

Record Phase2PiAttestedRunRequest := {
  rq_schema_version : string;
  rq_name : string;
  rq_provider : string;
  rq_model : string;
  rq_thinking : string;
  rq_system_prompt_utf8 : string;
  rq_prompt_utf8 : string;
  rq_report_path : string;
  rq_timeout_seconds : Z;
  rq_idempotency_key : string;
  rq_consumer_binding : Phase2PiConsumerBinding;
  rq_request_sha256 : string;
}.
#[global] Instance Serialize_Phase2PiAttestedRunRequest : Serialize Phase2PiAttestedRunRequest := λ x, object
  (member "schema_version" (rq_schema_version x) ++
   member "name" (rq_name x) ++
   member "provider" (rq_provider x) ++
   member "model" (rq_model x) ++
   member "thinking" (rq_thinking x) ++
   member "system_prompt_utf8" (rq_system_prompt_utf8 x) ++
   member "prompt_utf8" (rq_prompt_utf8 x) ++
   member "report_path" (rq_report_path x) ++
   member "timeout_seconds" (rq_timeout_seconds x) ++
   member "idempotency_key" (rq_idempotency_key x) ++
   member "consumer_binding" (rq_consumer_binding x) ++
   member "request_sha256" (rq_request_sha256 x)).

Record AutopilotAttestedAssignment := {
  at_schema_version : string;
  at_run_id : string;
  at_repo_key : string;
  at_workstream : string;
  at_purpose_id : string;
  at_assignment_id : string;
  at_assignment_revision : Z;
  at_run_revision : Z;
  at_action_id : string;
  at_issue_idempotency_key : string;
  at_import_idempotency_key : string;
  at_subject_digest : string;
  at_boundary_id : string;
  at_provider : string;
  at_model : string;
  at_thinking : string;
  at_required_channel : string;
  at_prompt_ref : AutopilotContentRef;
  at_system_prompt_sha256 : string;
  at_report_staging_path : string;
  at_producer_request_sha256 : string;
  at_conflict_policy : AutopilotEvidenceConflictPolicy;
  at_issued_at_unix_ms : string;
  at_supersedes_assignment_id : option string;
  at_assignment_sha256 : string;
}.
#[global] Instance Serialize_AutopilotAttestedAssignment : Serialize AutopilotAttestedAssignment := λ x, object
  (member "schema_version" (at_schema_version x) ++
   member "run_id" (at_run_id x) ++
   member "repo_key" (at_repo_key x) ++
   member "workstream" (at_workstream x) ++
   member "purpose_id" (at_purpose_id x) ++
   member "assignment_id" (at_assignment_id x) ++
   member "assignment_revision" (at_assignment_revision x) ++
   member "run_revision" (at_run_revision x) ++
   member "action_id" (at_action_id x) ++
   member "issue_idempotency_key" (at_issue_idempotency_key x) ++
   member "import_idempotency_key" (at_import_idempotency_key x) ++
   member "subject_digest" (at_subject_digest x) ++
   member "boundary_id" (at_boundary_id x) ++
   member "provider" (at_provider x) ++
   member "model" (at_model x) ++
   member "thinking" (at_thinking x) ++
   member "required_channel" (at_required_channel x) ++
   member "prompt_ref" (at_prompt_ref x) ++
   member "system_prompt_sha256" (at_system_prompt_sha256 x) ++
   member "report_staging_path" (at_report_staging_path x) ++
   member "producer_request_sha256" (at_producer_request_sha256 x) ++
   member "conflict_policy" (at_conflict_policy x) ++
   member "issued_at_unix_ms" (at_issued_at_unix_ms x) ++
   optional_member "supersedes_assignment_id" (at_supersedes_assignment_id x) ++
   member "assignment_sha256" (at_assignment_sha256 x)).

Record AutopilotAttestedAction := {
  ac_schema_version : string;
  ac_action_id : string;
  ac_assignment_id : string;
  ac_assignment_revision : Z;
  ac_run_revision : Z;
  ac_assignment_ref : AutopilotContentRef;
  ac_producer_request : Phase2PiAttestedRunRequest;
  ac_expires_at_unix_ms : string;
  ac_supersession_state : string;
  ac_action_sha256 : string;
}.
#[global] Instance Serialize_AutopilotAttestedAction : Serialize AutopilotAttestedAction := λ x, object
  (member "schema_version" (ac_schema_version x) ++
   member "action_id" (ac_action_id x) ++
   member "assignment_id" (ac_assignment_id x) ++
   member "assignment_revision" (ac_assignment_revision x) ++
   member "run_revision" (ac_run_revision x) ++
   member "assignment_ref" (ac_assignment_ref x) ++
   member "producer_request" (ac_producer_request x) ++
   member "expires_at_unix_ms" (ac_expires_at_unix_ms x) ++
   member "supersession_state" (ac_supersession_state x) ++
   member "action_sha256" (ac_action_sha256 x)).

Record AutopilotProducerBinding := {
  pb_schema_version : string;
  pb_run_id : string;
  pb_workstream : string;
  pb_action_id : string;
  pb_assignment_id : string;
  pb_assignment_revision : Z;
  pb_run_revision : Z;
  pb_assignment_ref : AutopilotContentRef;
  pb_action_ref : AutopilotContentRef;
  pb_producer_task_id : string;
  pb_producer_request_sha256 : string;
  pb_report_source_path : string;
  pb_sidecar_source_path : string;
  pb_bound_at_unix_ms : string;
  pb_binding_sha256 : string;
}.
#[global] Instance Serialize_AutopilotProducerBinding : Serialize AutopilotProducerBinding := λ x, object
  (member "schema_version" (pb_schema_version x) ++
   member "run_id" (pb_run_id x) ++
   member "workstream" (pb_workstream x) ++
   member "action_id" (pb_action_id x) ++
   member "assignment_id" (pb_assignment_id x) ++
   member "assignment_revision" (pb_assignment_revision x) ++
   member "run_revision" (pb_run_revision x) ++
   member "assignment_ref" (pb_assignment_ref x) ++
   member "action_ref" (pb_action_ref x) ++
   member "producer_task_id" (pb_producer_task_id x) ++
   member "producer_request_sha256" (pb_producer_request_sha256 x) ++
   member "report_source_path" (pb_report_source_path x) ++
   member "sidecar_source_path" (pb_sidecar_source_path x) ++
   member "bound_at_unix_ms" (pb_bound_at_unix_ms x) ++
   member "binding_sha256" (pb_binding_sha256 x)).

Record AutopilotEvidenceAcceptanceReceipt := {
  ar_schema_version : string;
  ar_receipt_id : string;
  ar_run_id : string;
  ar_repo_key : string;
  ar_workstream : string;
  ar_purpose_id : string;
  ar_assignment_id : string;
  ar_action_id : string;
  ar_assignment_revision : Z;
  ar_run_revision : Z;
  ar_subject_digest : string;
  ar_boundary_id : string;
  ar_assignment_ref : AutopilotContentRef;
  ar_action_ref : AutopilotContentRef;
  ar_producer_binding_ref : AutopilotContentRef;
  ar_report_ref : AutopilotContentRef;
  ar_producer_sidecar_ref : AutopilotContentRef;
  ar_producer_task_id : string;
  ar_producer_request_sha256 : string;
  ar_prompt_sha256 : string;
  ar_system_prompt_sha256 : string;
  ar_payload_sha256 : string;
  ar_provider : string;
  ar_model : string;
  ar_channel : string;
  ar_auth_class : string;
  ar_credential_kind : string;
  ar_direct_api_key : bool;
  ar_pi_session_id : string;
  ar_conflict_check : AutopilotEvidenceConflictCheck;
  ar_issue_idempotency_key : string;
  ar_import_idempotency_key : string;
  ar_issue_event_ref : AutopilotEventRef;
  ar_binding_event_ref : AutopilotEventRef;
  ar_supersession_state_at_acceptance : string;
  ar_accepted_at_unix_ms : string;
  ar_receipt_sha256 : string;
}.
#[global] Instance Serialize_AutopilotEvidenceAcceptanceReceipt : Serialize AutopilotEvidenceAcceptanceReceipt := λ x, object
  (member "schema_version" (ar_schema_version x) ++
   member "receipt_id" (ar_receipt_id x) ++
   member "run_id" (ar_run_id x) ++
   member "repo_key" (ar_repo_key x) ++
   member "workstream" (ar_workstream x) ++
   member "purpose_id" (ar_purpose_id x) ++
   member "assignment_id" (ar_assignment_id x) ++
   member "action_id" (ar_action_id x) ++
   member "assignment_revision" (ar_assignment_revision x) ++
   member "run_revision" (ar_run_revision x) ++
   member "subject_digest" (ar_subject_digest x) ++
   member "boundary_id" (ar_boundary_id x) ++
   member "assignment_ref" (ar_assignment_ref x) ++
   member "action_ref" (ar_action_ref x) ++
   member "producer_binding_ref" (ar_producer_binding_ref x) ++
   member "report_ref" (ar_report_ref x) ++
   member "producer_sidecar_ref" (ar_producer_sidecar_ref x) ++
   member "producer_task_id" (ar_producer_task_id x) ++
   member "producer_request_sha256" (ar_producer_request_sha256 x) ++
   member "prompt_sha256" (ar_prompt_sha256 x) ++
   member "system_prompt_sha256" (ar_system_prompt_sha256 x) ++
   member "payload_sha256" (ar_payload_sha256 x) ++
   member "provider" (ar_provider x) ++
   member "model" (ar_model x) ++
   member "channel" (ar_channel x) ++
   member "auth_class" (ar_auth_class x) ++
   member "credential_kind" (ar_credential_kind x) ++
   member "direct_api_key" (ar_direct_api_key x) ++
   member "pi_session_id" (ar_pi_session_id x) ++
   member "conflict_check" (ar_conflict_check x) ++
   member "issue_idempotency_key" (ar_issue_idempotency_key x) ++
   member "import_idempotency_key" (ar_import_idempotency_key x) ++
   member "issue_event_ref" (ar_issue_event_ref x) ++
   member "binding_event_ref" (ar_binding_event_ref x) ++
   member "supersession_state_at_acceptance" (ar_supersession_state_at_acceptance x) ++
   member "accepted_at_unix_ms" (ar_accepted_at_unix_ms x) ++
   member "receipt_sha256" (ar_receipt_sha256 x)).

Record AutopilotEvidenceEnvelopeManifest := {
  em_schema_version : string;
  em_manifest_id : string;
  em_run_id : string;
  em_repo_key : string;
  em_workstream : string;
  em_scope : string;
  em_manifest_revision : Z;
  em_subject_digest : string;
  em_previous_manifest_ref : option AutopilotContentRef;
  em_closed_through_event_sequence : Z;
  em_event_prefix_sha256 : string;
  em_members : list AutopilotContentRef;
  em_active_acceptance_receipt_refs : list AutopilotContentRef;
  em_supersession_receipt_refs : list AutopilotContentRef;
  em_failure_receipt_refs : list AutopilotContentRef;
  em_excluded_self : bool;
  em_closed_at_unix_ms : string;
  em_manifest_sha256 : string;
}.
#[global] Instance Serialize_AutopilotEvidenceEnvelopeManifest : Serialize AutopilotEvidenceEnvelopeManifest := λ x, object
  (member "schema_version" (em_schema_version x) ++
   member "manifest_id" (em_manifest_id x) ++
   member "run_id" (em_run_id x) ++
   member "repo_key" (em_repo_key x) ++
   member "workstream" (em_workstream x) ++
   member "scope" (em_scope x) ++
   member "manifest_revision" (em_manifest_revision x) ++
   member "subject_digest" (em_subject_digest x) ++
   optional_member "previous_manifest_ref" (em_previous_manifest_ref x) ++
   member "closed_through_event_sequence" (em_closed_through_event_sequence x) ++
   member "event_prefix_sha256" (em_event_prefix_sha256 x) ++
   member "members" (em_members x) ++
   member "active_acceptance_receipt_refs" (em_active_acceptance_receipt_refs x) ++
   member "supersession_receipt_refs" (em_supersession_receipt_refs x) ++
   member "failure_receipt_refs" (em_failure_receipt_refs x) ++
   member "excluded_self" (em_excluded_self x) ++
   member "closed_at_unix_ms" (em_closed_at_unix_ms x) ++
   member "manifest_sha256" (em_manifest_sha256 x)).

Record AutopilotEvidenceFailureReceipt := {
  fr_schema_version : string;
  fr_run_id : string;
  fr_workstream : string;
  fr_purpose_id : string;
  fr_assignment_id : string;
  fr_action_id : string;
  fr_assignment_revision : Z;
  fr_run_revision : Z;
  fr_state : string;
  fr_code : EvidenceErrorCode;
  fr_expected_refs : list AutopilotContentRef;
  fr_observed_hashes : list string;
  fr_occurred_at_unix_ms : string;
  fr_failure_sha256 : string;
}.
#[global] Instance Serialize_AutopilotEvidenceFailureReceipt : Serialize AutopilotEvidenceFailureReceipt := λ x, object
  (member "schema_version" (fr_schema_version x) ++
   member "run_id" (fr_run_id x) ++
   member "workstream" (fr_workstream x) ++
   member "purpose_id" (fr_purpose_id x) ++
   member "assignment_id" (fr_assignment_id x) ++
   member "action_id" (fr_action_id x) ++
   member "assignment_revision" (fr_assignment_revision x) ++
   member "run_revision" (fr_run_revision x) ++
   member "state" (fr_state x) ++
   member "code" (fr_code x) ++
   member "expected_refs" (fr_expected_refs x) ++
   member "observed_hashes" (fr_observed_hashes x) ++
   member "occurred_at_unix_ms" (fr_occurred_at_unix_ms x) ++
   member "failure_sha256" (fr_failure_sha256 x)).

Record HostToCoreAttestedTaskObservationPayload := {
  ob_action_id : string;
  ob_assignment_id : string;
  ob_assignment_revision : Z;
  ob_run_revision : Z;
  ob_producer_task_id : string;
  ob_producer_request_sha256 : string;
  ob_status : string;
  ob_report_source_path : string;
  ob_sidecar_source_path : string;
}.

Record Phase2ReportConsumerBinding := {
  rb_schema_version : string;
  rb_consumer : string;
  rb_run_id : string;
  rb_repo_key : string;
  rb_workstream : string;
  rb_purpose_id : string;
  rb_action_id : string;
  rb_assignment_id : string;
  rb_assignment_revision : Z;
  rb_run_revision : Z;
  rb_boundary_id : string;
  rb_subject_digest : string;
  rb_binding_sha256 : string;
}.
#[global] Instance Serialize_Phase2ReportConsumerBinding : Serialize Phase2ReportConsumerBinding := λ x, object
  (member "schema_version" (rb_schema_version x) ++
   member "consumer" (rb_consumer x) ++
   member "run_id" (rb_run_id x) ++
   member "repo_key" (rb_repo_key x) ++
   member "workstream" (rb_workstream x) ++
   member "purpose_id" (rb_purpose_id x) ++
   member "action_id" (rb_action_id x) ++
   member "assignment_id" (rb_assignment_id x) ++
   member "assignment_revision" (rb_assignment_revision x) ++
   member "run_revision" (rb_run_revision x) ++
   member "boundary_id" (rb_boundary_id x) ++
   member "subject_digest" (rb_subject_digest x) ++
   member "binding_sha256" (rb_binding_sha256 x)).

Record Phase2PiTaskReportV1 := {
  rp_schema_version : string;
  rp_consumer_binding : Phase2ReportConsumerBinding;
  rp_producer_task_id : string;
  rp_payload_utf8 : string;
  rp_payload_sha256 : string;
  rp_report_sha256 : string;
}.
#[global] Instance Serialize_Phase2PiTaskReportV1 : Serialize Phase2PiTaskReportV1 := λ x, object
  (member "schema_version" (rp_schema_version x) ++
   member "consumer_binding" (rp_consumer_binding x) ++
   member "producer_task_id" (rp_producer_task_id x) ++
   member "payload_utf8" (rp_payload_utf8 x) ++
   member "payload_sha256" (rp_payload_sha256 x) ++
   member "report_sha256" (rp_report_sha256 x)).

Record Phase2Locator := {
  lo_session_dir : string;
  lo_task_id : string;
  lo_metadata_ref : string;
  lo_output_ref : string;
  lo_events_ref : string;
  lo_stderr_ref : string;
  lo_wrapper_ref : string;
  lo_report_ref : string;
}.
#[global] Instance Serialize_Phase2Locator : Serialize Phase2Locator := λ x, object
  (member "session_dir" (lo_session_dir x) ++
   member "task_id" (lo_task_id x) ++
   member "metadata_ref" (lo_metadata_ref x) ++
   member "output_ref" (lo_output_ref x) ++
   member "events_ref" (lo_events_ref x) ++
   member "stderr_ref" (lo_stderr_ref x) ++
   member "wrapper_ref" (lo_wrapper_ref x) ++
   member "report_ref" (lo_report_ref x)).

Record Phase2SourceHashes := {
  sh_metadata_sha256 : string;
  sh_output_sha256 : string;
  sh_events_sha256 : string;
  sh_stderr_sha256 : string;
  sh_wrapper_sha256 : string;
  sh_report_sha256 : string;
}.
#[global] Instance Serialize_Phase2SourceHashes : Serialize Phase2SourceHashes := λ x, object
  (member "metadata_sha256" (sh_metadata_sha256 x) ++
   member "output_sha256" (sh_output_sha256 x) ++
   member "events_sha256" (sh_events_sha256 x) ++
   member "stderr_sha256" (sh_stderr_sha256 x) ++
   member "wrapper_sha256" (sh_wrapper_sha256 x) ++
   member "report_sha256" (sh_report_sha256 x)).

Record Phase2Lifecycle := {
  li_status : string;
  li_is_agent : bool;
  li_start_time_ms : Z;
  li_end_time_ms : Z;
  li_exit_code : Z;
  li_signal : string;
  li_bytes_written : Z;
}.
#[global] Instance Serialize_Phase2Lifecycle : Serialize Phase2Lifecycle := λ x, object
  (member "status" (li_status x) ++
   member "is_agent" (li_is_agent x) ++
   member "start_time_ms" (li_start_time_ms x) ++
   member "end_time_ms" (li_end_time_ms x) ++
   member "exit_code" (li_exit_code x) ++
   member "signal" (li_signal x) ++
   member "bytes_written" (li_bytes_written x)).

Record Phase2Invocation := {
  iv_pi_session_id : string;
  iv_argv : list string;
  iv_cwd_realpath : string;
  iv_provider : string;
  iv_model_id : string;
  iv_provider_scoped_model_id : string;
  iv_api_identity : string;
  iv_auth_class : string;
  iv_credential_kind : string;
  iv_route_class : string;
  iv_channel : string;
  iv_direct_api_key : bool;
  iv_final_stop_reason : string;
}.
#[global] Instance Serialize_Phase2Invocation : Serialize Phase2Invocation := λ x, object
  (member "pi_session_id" (iv_pi_session_id x) ++
   member "argv" (iv_argv x) ++
   member "cwd_realpath" (iv_cwd_realpath x) ++
   member "provider" (iv_provider x) ++
   member "model_id" (iv_model_id x) ++
   member "provider_scoped_model_id" (iv_provider_scoped_model_id x) ++
   member "api_identity" (iv_api_identity x) ++
   member "auth_class" (iv_auth_class x) ++
   member "credential_kind" (iv_credential_kind x) ++
   member "route_class" (iv_route_class x) ++
   member "channel" (iv_channel x) ++
   member "direct_api_key" (iv_direct_api_key x) ++
   member "final_stop_reason" (iv_final_stop_reason x)).

Record Phase2Authority := {
  au_repo_root_realpath : string;
  au_start_commit_oid : string;
  au_start_tree_oid : string;
  au_finish_commit_oid : string;
  au_finish_tree_oid : string;
  au_start_status_byte_length : Z;
  au_start_status_sha256 : string;
  au_finish_status_byte_length : Z;
  au_finish_status_sha256 : string;
  au_status_unchanged : bool;
}.
#[global] Instance Serialize_Phase2Authority : Serialize Phase2Authority := λ x, object
  (member "repo_root_realpath" (au_repo_root_realpath x) ++
   member "start_commit_oid" (au_start_commit_oid x) ++
   member "start_tree_oid" (au_start_tree_oid x) ++
   member "finish_commit_oid" (au_finish_commit_oid x) ++
   member "finish_tree_oid" (au_finish_tree_oid x) ++
   member "start_status_byte_length" (au_start_status_byte_length x) ++
   member "start_status_sha256" (au_start_status_sha256 x) ++
   member "finish_status_byte_length" (au_finish_status_byte_length x) ++
   member "finish_status_sha256" (au_finish_status_sha256 x) ++
   member "status_unchanged" (au_status_unchanged x)).

Record Phase2ArtifactBytes := {
  ab_byte_length : Z;
  ab_sha256 : string;
}.
#[global] Instance Serialize_Phase2ArtifactBytes : Serialize Phase2ArtifactBytes := λ x, object
  (member "byte_length" (ab_byte_length x) ++
   member "sha256" (ab_sha256 x)).

Record Phase2ReportArtifact := {
  ra_ref : string;
  ra_byte_length : Z;
  ra_sha256 : string;
}.
#[global] Instance Serialize_Phase2ReportArtifact : Serialize Phase2ReportArtifact := λ x, object
  (member "ref" (ra_ref x) ++
   member "byte_length" (ra_byte_length x) ++
   member "sha256" (ra_sha256 x)).

Record Phase2Artifacts := {
  af_prompt : Phase2ArtifactBytes;
  af_system_prompt : Phase2ArtifactBytes;
  af_task_output : Phase2ArtifactBytes;
  af_stderr : Phase2ArtifactBytes;
  af_transcript : Phase2ArtifactBytes;
  af_report : Phase2ReportArtifact;
}.
#[global] Instance Serialize_Phase2Artifacts : Serialize Phase2Artifacts := λ x, object
  (member "prompt" (af_prompt x) ++
   member "system_prompt" (af_system_prompt x) ++
   member "task_output" (af_task_output x) ++
   member "stderr" (af_stderr x) ++
   member "transcript" (af_transcript x) ++
   member "report" (af_report x)).

Record Phase2Usage := {
  us_input : option Z;
  us_output : option Z;
  us_cache_read : option Z;
  us_cache_write : option Z;
  us_total_tokens : option Z;
  us_cost_total_microusd : option Z;
}.
#[global] Instance Serialize_Phase2Usage : Serialize Phase2Usage := λ x, object
  (member "input" (us_input x) ++
   member "output" (us_output x) ++
   member "cache_read" (us_cache_read x) ++
   member "cache_write" (us_cache_write x) ++
   member "total_tokens" (us_total_tokens x) ++
   member "cost_total_microusd" (us_cost_total_microusd x)).

Record Phase2PiTaskAttestationV2 := {
  sc_schema_version : string;
  sc_producer_request_sha256 : string;
  sc_consumer_binding : Phase2ReportConsumerBinding;
  sc_locator : Phase2Locator;
  sc_source_hashes : Phase2SourceHashes;
  sc_lifecycle : Phase2Lifecycle;
  sc_invocation : Phase2Invocation;
  sc_authority : Phase2Authority;
  sc_artifacts : Phase2Artifacts;
  sc_usage : option Phase2Usage;
  sc_attestation_sha256 : string;
}.
#[global] Instance Serialize_Phase2PiTaskAttestationV2 : Serialize Phase2PiTaskAttestationV2 := λ x, object
  (member "schema_version" (sc_schema_version x) ++
   member "producer_request_sha256" (sc_producer_request_sha256 x) ++
   member "consumer_binding" (sc_consumer_binding x) ++
   member "locator" (sc_locator x) ++
   member "source_hashes" (sc_source_hashes x) ++
   member "lifecycle" (sc_lifecycle x) ++
   member "invocation" (sc_invocation x) ++
   member "authority" (sc_authority x) ++
   member "artifacts" (sc_artifacts x) ++
   optional_member "usage" (sc_usage x) ++
   member "attestation_sha256" (sc_attestation_sha256 x)).

#[global] Instance Phase2ReportConsumerBinding_eq_dec : EqDecision Phase2ReportConsumerBinding.
Proof. solve_decision. Defined.
