(* ===== verification/Evidence.v ===== *)
(** * Attested evidence

    [drivers/src/evidence/mod.rs]: the review of a plan is issued as an attested
    assignment, its producer's report and sidecar are imported once they match
    the assignment, and an envelope closes over the receipts.  Records go to
    disk in a canonical JSON form and carry the hash of themselves without
    their own hash.  File operations are programs of requests.  Parameters are
    SHA-256, the decoders of serde, the text of a JSON string, the lossy
    decoding of bytes and the debug texts of errors. *)

From S2P Require Import Prelude RustColl RustStr Paths Os Failure Boundary Roles StateRoot Json EvidenceTypes.

Definition BOUNDARY_ID : string := "evidence.ingress.v1".
Definition PURPOSE_PLANNING_REVIEW : string := "planning.plan-review".
Definition SYSTEM_PROMPT : string :=
  "You are an attested, no-tools Autopilot planning reviewer. Return exactly the requested plan-review verdict text; do not claim tool, file, provider, session, or payment facts.".
Definition ASSIGNMENT_SCHEMA : string := "autopilot.attested_assignment.v1".
Definition ACTION_SCHEMA : string := "autopilot.attested_action.v1".
Definition CONTENT_REF_SCHEMA : string := "autopilot.content_ref.v1".
Definition REQUEST_SCHEMA : string := "phase2.pi_attested_run_request.v2".
Definition CONSUMER_BINDING_SCHEMA : string := "phase2.pi_consumer_binding.v1".
Definition PROVIDER : string := "openai-codex".
Definition CHANNEL : string := "subscription-codex".
Definition AUTH_CLASS : string := "pi-codex-oauth".
Definition CREDENTIAL_KIND : string := "oauth".
Definition ROUTE_CLASS : string := "subscription-agent".
Definition DIRECT_API_KEY : bool := false.
Definition TIMEOUT_SECONDS : Z := 3600.
Definition REPORT_LIMIT : Z := 4 * 1024 * 1024.
Definition SIDECAR_LIMIT : Z := 1024 * 1024.

Record EvidenceIdentity := { ei_repo_key : string; ei_run_id : string; ei_workstream : string; ei_run_root : path }.

Record PlanningReviewIssue := {
  pi_action : AutopilotAttestedAction;
  pi_assignment : AutopilotAttestedAssignment;
  pi_prompt_ref : AutopilotContentRef;
  pi_assignment_ref : AutopilotContentRef;
  pi_action_ref : AutopilotContentRef;
}.

Record AcceptedEvidence := {
  ae_receipt : AutopilotEvidenceAcceptanceReceipt;
  ae_receipt_ref : AutopilotContentRef;
  ae_report : Phase2PiTaskReportV1;
  ae_sidecar : Phase2PiTaskAttestationV2;
  ae_envelope : option (AutopilotEvidenceEnvelopeManifest * AutopilotContentRef);
}.

Inductive EvidenceError :=
| Store (value : string)
| MissingAssignment
| BindingConflict
| TerminalNotCompleted (value : string)
| SourcePath
| SourceRead (value : string)
| Schema (value : string)
| Hash (value : string)
| RequestMismatch (value : string)
| ProviderMismatch (value : string)
| ModelMismatch (value : string)
| ChannelForbidden (value : string)
| MeteredUsage
| SubjectStale
| BoundaryRejected (value : string)
| Envelope (value : string).

(** A path keeps the text it was made from. *)
Record SourcePair := { sp_report_path : string; sp_sidecar_path : string }.

(** The identity file of a workstream. *)
Record DiskIdentity := { di_repo_key : string; di_run_id : string; di_workstream : string }.
#[global] Instance Serialize_DiskIdentity : Serialize DiskIdentity := λ x, object
  (member "repo_key" (di_repo_key x) ++ member "run_id" (di_run_id x) ++ member "workstream" (di_workstream x)).

Record Subject := {
  su_schema_version : string;
  su_authority_set_id : string;
  su_planning_manifest_sha256 : string;
  su_work_map_sha256 : string;
}.
#[global] Instance Serialize_Subject : Serialize Subject := λ x, object
  (member "schema_version" (su_schema_version x) ++ member "authority_set_id" (su_authority_set_id x) ++
   member "planning_manifest_sha256" (su_planning_manifest_sha256 x) ++
   member "work_map_sha256" (su_work_map_sha256 x)).

(** ** Names of kinds and codes *)

Definition evidence_kind_str (kind : EvidenceContentKind) : string :=
  match kind with
  | AcceptanceReceipt => "acceptance-receipt"
  | ActionContent => "action"
  | AssignmentContent => "assignment"
  | EnvelopeManifest => "envelope-manifest"
  | FailureReceipt => "failure-receipt"
  | ProducerBinding => "producer-binding"
  | ProducerSidecar => "producer-sidecar"
  | PromptContent => "prompt"
  | ReportContent => "report"
  | SupersessionReceipt => "supersession-receipt"
  | Transcript => "transcript"
  end.

Definition evidence_code_str (code : EvidenceErrorCode) : string :=
  match code with
  | EVIDENCEACTIONEXPIRED => "EVIDENCE_ACTION_EXPIRED"
  | EVIDENCEACTIONNOTISSUED => "EVIDENCE_ACTION_NOT_ISSUED"
  | EVIDENCEACTIONSUPERSEDED => "EVIDENCE_ACTION_SUPERSEDED"
  | EVIDENCEASSIGNMENTCONFLICT => "EVIDENCE_ASSIGNMENT_CONFLICT"
  | EVIDENCEBOUNDARYREJECTED => "EVIDENCE_BOUNDARY_REJECTED"
  | EVIDENCECHANNELFORBIDDEN => "EVIDENCE_CHANNEL_FORBIDDEN"
  | EVIDENCEENVELOPEMEMBERMISMATCH => "EVIDENCE_ENVELOPE_MEMBER_MISMATCH"
  | EVIDENCEENVELOPEOPEN => "EVIDENCE_ENVELOPE_OPEN"
  | EVIDENCEEVENTLOGCORRUPT => "EVIDENCE_EVENT_LOG_CORRUPT"
  | EVIDENCEHASHMISMATCH => "EVIDENCE_HASH_MISMATCH"
  | EVIDENCEIDEMPOTENCYCONFLICT => "EVIDENCE_IDEMPOTENCY_CONFLICT"
  | EVIDENCEMETEREDUSAGEOBSERVED => "EVIDENCE_METERED_USAGE_OBSERVED"
  | EVIDENCEMODELMISMATCH => "EVIDENCE_MODEL_MISMATCH"
  | EVIDENCEPRODUCERREQUESTMISMATCH => "EVIDENCE_PRODUCER_REQUEST_MISMATCH"
  | EVIDENCEPRODUCERUNAVAILABLE => "EVIDENCE_PRODUCER_UNAVAILABLE"
  | EVIDENCEPROSENOTCONTRACT => "EVIDENCE_PROSE_NOT_CONTRACT"
  | EVIDENCEPROVIDERMISMATCH => "EVIDENCE_PROVIDER_MISMATCH"
  | EVIDENCESCHEMAUNSUPPORTED => "EVIDENCE_SCHEMA_UNSUPPORTED"
  | EVIDENCESESSIONCONFLICT => "EVIDENCE_SESSION_CONFLICT"
  | EVIDENCESOURCEMISSING => "EVIDENCE_SOURCE_MISSING"
  | EVIDENCESOURCENOTREGULAR => "EVIDENCE_SOURCE_NOT_REGULAR"
  | EVIDENCESOURCEPATHINVALID => "EVIDENCE_SOURCE_PATH_INVALID"
  | EVIDENCESOURCESYMLINK => "EVIDENCE_SOURCE_SYMLINK"
  | EVIDENCESTOREIO => "EVIDENCE_STORE_IO"
  | EVIDENCESUBJECTSTALE => "EVIDENCE_SUBJECT_STALE"
  | EVIDENCESUPERSESSIONINVALID => "EVIDENCE_SUPERSESSION_INVALID"
  | EVIDENCETASKBINDINGCONFLICT => "EVIDENCE_TASK_BINDING_CONFLICT"
  | EVIDENCETERMINALNOTCOMPLETED => "EVIDENCE_TERMINAL_NOT_COMPLETED"
  | EVIDENCEUNDECLAREDINPUT => "EVIDENCE_UNDECLARED_INPUT"
  end.

Definition error_codes : list EvidenceErrorCode :=
  [EVIDENCEACTIONEXPIRED; EVIDENCEACTIONNOTISSUED; EVIDENCEACTIONSUPERSEDED; EVIDENCEASSIGNMENTCONFLICT; EVIDENCEBOUNDARYREJECTED; EVIDENCECHANNELFORBIDDEN; EVIDENCEENVELOPEMEMBERMISMATCH; EVIDENCEENVELOPEOPEN; EVIDENCEEVENTLOGCORRUPT; EVIDENCEHASHMISMATCH; EVIDENCEIDEMPOTENCYCONFLICT; EVIDENCEMETEREDUSAGEOBSERVED; EVIDENCEMODELMISMATCH; EVIDENCEPRODUCERREQUESTMISMATCH; EVIDENCEPRODUCERUNAVAILABLE; EVIDENCEPROSENOTCONTRACT; EVIDENCEPROVIDERMISMATCH; EVIDENCESCHEMAUNSUPPORTED; EVIDENCESESSIONCONFLICT; EVIDENCESOURCEMISSING; EVIDENCESOURCENOTREGULAR; EVIDENCESOURCEPATHINVALID; EVIDENCESOURCESYMLINK; EVIDENCESTOREIO; EVIDENCESUBJECTSTALE; EVIDENCESUPERSESSIONINVALID; EVIDENCETASKBINDINGCONFLICT; EVIDENCETERMINALNOTCOMPLETED; EVIDENCEUNDECLAREDINPUT].

(** The serde name decides the constructor; [None] is the panic of [expect]. *)
Definition evidence_code_from (value : string) : option EvidenceErrorCode :=
  find_first (λ code, error_code_name code =s value) error_codes.

Definition bound_detail (value : string) : string :=
  let normalized := join " " (split_whitespace value) in
  if chars_count normalized <=? 160 then normalized
  else chars_take (Z.to_nat (160 - 1)) normalized +:+ "…".

(** [EvidenceError::code] *)
Definition error_code (e : EvidenceError) : option EvidenceErrorCode :=
  evidence_code_from
    match e with
    | MissingAssignment => "EVIDENCE_ACTION_NOT_ISSUED"
    | BindingConflict => "EVIDENCE_TASK_BINDING_CONFLICT"
    | TerminalNotCompleted _ => "EVIDENCE_TERMINAL_NOT_COMPLETED"
    | SourcePath => "EVIDENCE_SOURCE_PATH_INVALID"
    | SourceRead _ => "EVIDENCE_SOURCE_MISSING"
    | Schema _ => "EVIDENCE_SCHEMA_UNSUPPORTED"
    | Hash _ => "EVIDENCE_HASH_MISMATCH"
    | RequestMismatch _ => "EVIDENCE_PRODUCER_REQUEST_MISMATCH"
    | ProviderMismatch _ => "EVIDENCE_PROVIDER_MISMATCH"
    | ModelMismatch _ => "EVIDENCE_MODEL_MISMATCH"
    | ChannelForbidden _ => "EVIDENCE_CHANNEL_FORBIDDEN"
    | MeteredUsage => "EVIDENCE_METERED_USAGE_OBSERVED"
    | SubjectStale => "EVIDENCE_SUBJECT_STALE"
    | BoundaryRejected _ => "EVIDENCE_BOUNDARY_REJECTED"
    | Envelope _ => "EVIDENCE_ENVELOPE_MEMBER_MISMATCH"
    | Store _ => "EVIDENCE_STORE_IO"
    end.

(** [impl Display] *)
Definition error_display (e : EvidenceError) : string :=
  match e with
  | Store value | SourceRead value | Schema value | Hash value | RequestMismatch value | ProviderMismatch value
  | ModelMismatch value | ChannelForbidden value | BoundaryRejected value | Envelope value
  | TerminalNotCompleted value => value
  | MissingAssignment => "assignment/action not issued"
  | BindingConflict => "producer task binding conflict"
  | SourcePath => "source path is invalid"
  | MeteredUsage => "metered usage observed"
  | SubjectStale => "subject digest is stale"
  end.

(** [EvidenceError::status] *)
Definition error_status (e : EvidenceError) : option string :=
  code ← error_code e;
  Some ("rejection:evidence.ingress.v1:" +:+ evidence_code_str code +:+ ":" +:+ bound_detail (error_display e)).

(** ** The file system *)

Definition store_io (e : io_error) : EvidenceError := Store (io_message e).
Definition read_io (e : io_error) : EvidenceError := SourceRead (io_message e).

Definition private_dir (p : path) : prog EvidenceError unit :=
  _ ← create_dir_all store_io p;
  Call (SetMode p 448 (* 0o700 *)) (λ a, Ret (map_err store_io a)).
Definition private_handle (file : nat) : prog EvidenceError unit :=
  Call (SetHandleMode file 384 (* 0o600 *)) (λ a, Ret (map_err store_io a)).
Definition sync_dir (p : path) : prog EvidenceError unit :=
  Call (SyncDir p) (λ a, Ret (map_err store_io a)).

(** [if let Some(parent) = path.parent() { f(parent)?; }] *)
Definition on_parent (f : path → prog EvidenceError unit) (p : path) : prog EvidenceError unit :=
  match parent p with Some up => f up | None => Ret (Ok tt) end.

Definition create_once_bytes (p : path) (bytes : string) : prog EvidenceError unit :=
  _ ← on_parent private_dir p;
  Call (CreateNew p) (λ a,
    match a with
    | Ok file =>
        _ ← private_handle file;
        _ ← Call (WriteHandle file bytes) (λ a, Ret (map_err store_io a));
        _ ← Call (SyncHandle file) (λ a, Ret (map_err store_io a));
        on_parent sync_dir p
    | Err error =>
        if io_kind error =s AlreadyExists
        then Ret (Err (Store ("create-once conflict: " +:+ to_os p)))
        else Ret (Err (store_io error))
    end).

(** The text of a clock before the epoch is the standard library's. *)
Definition now_ms : prog EvidenceError Z :=
  Call Now (λ a, Ret (
    ms ← ok_or a (Store "second time provided was later than self");
    ok_or (if ms <=? u64_max then Some ms else None) (Store "time overflow"))).

Definition random10 : prog EvidenceError (list Z) :=
  file ← Call (OpenRead (components "/dev/urandom")) (λ a, Ret (map_err store_io a));
  bytes ← Call (ReadExact file 10) (λ a, Ret (map_err store_io a));
  Ret (Ok (as_bytes bytes)).

Definition run_root_for (repo_key run_id : string) : prog EvidenceError path :=
  Call (EnvVar "HOME") (λ a, Ret (
    home ← ok_or a (Store "HOME missing");
    Ok (path_join (path_join (path_join (components home) (components ".pi/agent/autopilot/v2/runs"))
          (components repo_key)) (components run_id)))).

Definition validate_relative_path (relative : string) : result EvidenceError unit :=
  if is_empty relative || starts_with "/" relative || contains "\" relative || contains (String (chr 0) "") relative
  then Err SourcePath
  else for_each (λ part, if is_empty part || (part =s ".") || (part =s "..") then Err SourcePath else Ok tt)
         (split_char SLASH relative).

Definition reject_path_components (p : path) : result EvidenceError unit :=
  for_each (λ component,
    match component with
    | ParentDir | CurDir => Err SourcePath
    | Normal part => if contains (String (chr 0) "") part then Err SourcePath else Ok tt
    | RootDir => Ok tt
    end) p.

(** The loop of [reject_existing_link_ancestors]; [current] is the path so far. *)
Fixpoint link_ancestors_from (current : path) (p : path) : prog EvidenceError unit :=
  match p with
  | [] => Ret (Ok tt)
  | component :: rest =>
      let current := push current component in
      Call (SymlinkMeta current) (λ a,
        match a with
        | Ok metadata => if md_symlink metadata then Ret (Err SourcePath) else link_ancestors_from current rest
        | Err error =>
            if io_kind error =s NotFound then link_ancestors_from current rest else Ret (Err (read_io error))
        end)
  end.
Definition reject_existing_link_ancestors (p : path) : prog EvidenceError unit := link_ancestors_from [] p.

Definition read_bound_source (display : string) (limit : Z) : prog EvidenceError string :=
  let p := components display in
  if is_absolute p then Ret (Err SourcePath)
  else
    _ ← Ret (reject_path_components p);
    if negb (starts_with ".pi/tasks/" display || starts_with ".pi/autopilot/" display) then Ret (Err SourcePath)
    else
      _ ← reject_existing_link_ancestors p;
      metadata ← Call (SymlinkMeta p) (λ a, Ret (map_err read_io a));
      if md_symlink metadata then Ret (Err SourcePath)
      else if negb (md_file metadata) then Ret (Err SourcePath)
      else if negb (md_nlink metadata =? 1) then Ret (Err SourcePath)
      else if limit <? md_len metadata then Ret (Err (SourceRead "source too large"))
      else
        file ← Call (OpenRead p) (λ a, Ret (map_err read_io a));
        bytes ← Call (ReadToEnd file) (λ a, Ret (map_err read_io a));
        after ← Call (HandleMeta file) (λ a, Ret (map_err read_io a));
        if negb (md_len after =? md_len metadata) then Ret (Err (SourceRead "source size drift"))
        else if u64_max <? str_len bytes then Ret (Err (SourceRead "source too large"))
        else if negb (str_len bytes =? md_len metadata) then Ret (Err (SourceRead "source size drift"))
        else Ret (Ok bytes).

(** ** Digests *)

Definition hex (nibble : Z) : ascii := chr (if nibble <? 10 then 48 + nibble else 97 + (nibble - 10)).
Definition hex_byte (byte : Z) : list ascii := [hex (Z.shiftr byte 4); hex (Z.land byte 15)].

Definition NUL : string := String (chr 0) "".

Section Evidence.
Context (sha256 : list Z → list Z).
Context (json_text : string → result string string).
Context (from_utf8 : string → result string string) (utf8_lossy : string → string).
Context (roster_debug : RosterError → string) (failure_debug : Failure → string).
Context `{Deserialize DiskIdentity, Deserialize AutopilotAttestedAssignment, Deserialize AutopilotAttestedAction,
          Deserialize Phase2PiTaskReportV1, Deserialize Phase2PiTaskAttestationV2}.

Definition digest_hex (bytes : string) : string :=
  String.string_of_list_ascii (concat (map hex_byte (sha256 (as_bytes bytes)))).
Definition sha256_tag (bytes : string) : string := "sha256:" +:+ digest_hex bytes.

Definition canonical_json {T} `{Serialize T} (value : T) : result EvidenceError string :=
  map_err Store (write_canonical json_text (value_of value)).

Definition canonical_sha256_self {T} `{Serialize T} (value : T) (self_field : string) : result EvidenceError string :=
  out ← map_err Store (write_canonical json_text (remove_member self_field (value_of value)));
  Ok (sha256_tag out).

(** ** Publishing *)

Definition publish_ref (root : path) (relative bytes : string) (kind : EvidenceContentKind)
  : prog EvidenceError AutopilotContentRef :=
  _ ← Ret (validate_relative_path relative);
  _ ← create_once_bytes (path_join root (components relative)) bytes;
  Ret (Ok {| cr_schema_version := CONTENT_REF_SCHEMA; cr_kind := kind; cr_path := relative;
             cr_byte_length := show_uint (str_len bytes); cr_sha256 := sha256_tag bytes |}).

Definition publish_json_ref {T} `{Serialize T} (root : path) (relative : string) (value : T)
    (kind : EvidenceContentKind) : prog EvidenceError AutopilotContentRef :=
  bytes ← Ret (canonical_json value);
  publish_ref root relative bytes kind.

Definition action_content_ref (action : AutopilotAttestedAction) : result EvidenceError AutopilotContentRef :=
  bytes ← canonical_json action;
  Ok {| cr_schema_version := CONTENT_REF_SCHEMA; cr_kind := ActionContent;
        cr_path := "evidence/actions/" +:+ ac_action_id action +:+ ".json";
        cr_byte_length := show_uint (str_len bytes); cr_sha256 := sha256_tag bytes |}.

(** ** Identity *)

Definition identity_path (workstream : string) : path :=
  path_join (path_join (components ".pi/autopilot") (components workstream)) (components "run-identity.json").

(** [EvidenceIdentity::for_workstream] *)
Definition for_workstream (workstream : string) : prog EvidenceError EvidenceIdentity :=
  cwd ← Call CurrentDir (λ a, Ret (map_err store_io a));
  repo_key ← prog_map_err (λ e, Store (error_text e)) (StateRoot.repo_key sha256 cwd);
  let manifest_path := identity_path workstream in
  present ← os (PathExists manifest_path);
  if (present : bool) then
    text ← Call (ReadFile manifest_path) (λ a, Ret (map_err store_io a));
    disk ← Ret (map_err Store (from_text (T := DiskIdentity) text));
    if negb (di_repo_key disk =s repo_key) || negb (di_workstream disk =s workstream)
    then Ret (Err (Store "run identity mismatch"))
    else
      run_root ← run_root_for repo_key (di_run_id disk);
      Ret (Ok {| ei_repo_key := repo_key; ei_run_id := di_run_id disk; ei_workstream := workstream;
                 ei_run_root := run_root |})
  else
    millis ← now_ms;
    random ← random10;
    let run_id := run_id_from_parts millis random in
    run_root ← run_root_for repo_key run_id;
    _ ← private_dir run_root;
    _ ← on_parent (create_dir_all store_io) manifest_path;
    bytes ← Ret (canonical_json {| di_repo_key := repo_key; di_run_id := run_id; di_workstream := workstream |});
    _ ← create_once_bytes manifest_path bytes;
    Ret (Ok {| ei_repo_key := repo_key; ei_run_id := run_id; ei_workstream := workstream; ei_run_root := run_root |}).

(** The identity an action carries. *)
Definition action_identity (action : AutopilotAttestedAction) : prog EvidenceError EvidenceIdentity :=
  let binding := rq_consumer_binding (ac_producer_request action) in
  run_root ← run_root_for (cb_repo_key binding) (cb_run_id binding);
  Ret (Ok {| ei_repo_key := cb_repo_key binding; ei_run_id := cb_run_id binding;
             ei_workstream := cb_workstream binding; ei_run_root := run_root |}).

(** One directory entry of [next_assignment_revision]: [path.extension()] *)
Definition file_name (p : path) : option string :=
  match last p with Some (Normal name) => Some name | _ => None end.
Definition extension_of (name : string) : option string :=
  let pieces := split_char (chr 46) name in
  match reverse pieces with
  | ext :: before :: rest => if (before =s "") && (rest =s []) then None else Some ext
  | _ => None
  end.
Definition extension (p : path) : option string := name ← file_name p; extension_of name.

Definition scan_assignment (purpose : string) (max_rev : Z) (entry : result io_error path) : prog EvidenceError Z :=
  p ← Ret (map_err store_io entry);
  if negb (extension p =s Some "json") then Ret (Ok max_rev)
  else
    text ← Call (ReadFile p) (λ a, Ret (map_err (λ error,
             Store ("assignment read:" +:+ to_os p +:+ ":" +:+ bound_detail (io_message error))) a));
    assignment ← Ret (map_err (λ error,
             Schema ("assignment parse:" +:+ to_os p +:+ ":" +:+ bound_detail error))
             (from_text (T := AutopilotAttestedAssignment) text));
    Ret (Ok (if at_purpose_id assignment =s purpose
             then Z.max max_rev (at_assignment_revision assignment) else max_rev)).

Fixpoint scan_assignments (purpose : string) (max_rev : Z) (entries : list (result io_error path))
  : prog EvidenceError Z :=
  match entries with
  | [] => Ret (Ok max_rev)
  | entry :: rest => max_rev ← scan_assignment purpose max_rev entry; scan_assignments purpose max_rev rest
  end.

Definition next_assignment_revision (identity : EvidenceIdentity) (purpose : string) : prog EvidenceError Z :=
  let dir := path_join (ei_run_root identity) (components "evidence/assignments") in
  present ← os (PathExists dir);
  if negb (present : bool) then Ret (Ok 1)
  else
    entries ← Call (ReadDir dir) (λ a, Ret (map_err store_io a));
    max_rev ← scan_assignments purpose 0 entries;
    Ret (ok_or (checked_add u32_max max_rev 1)
           (Store ("assignment revision overflow:" +:+ to_os dir +:+ ":" +:+ show_uint max_rev))).

(** ** Sealed records: each carries the hash of itself without that hash *)

Definition conflict_policy (distinct : list AutopilotContentRef) : result EvidenceError AutopilotEvidenceConflictPolicy :=
  let draft hash := {|
    po_schema_version := "autopilot.evidence_conflict_policy.v1";
    po_distinct_from_receipt_refs := distinct;
    po_forbid_same_assignment := true; po_forbid_same_action := true; po_forbid_same_session := true;
    po_require_subject_current := true; po_policy_sha256 := hash |} in
  hash ← canonical_sha256_self (draft "") "policy_sha256";
  Ok (draft hash).

Definition conflict_check (compared : list AutopilotContentRef) : result EvidenceError AutopilotEvidenceConflictCheck :=
  let draft hash := {|
    cc_schema_version := "autopilot.evidence_conflict_check.v1";
    cc_compared_receipt_refs := compared; cc_assignment_conflicts := []; cc_action_conflicts := [];
    cc_session_conflicts := []; cc_subject_conflicts := []; cc_provider_channel_conflicts := [];
    cc_status := "clear"; cc_check_sha256 := hash |} in
  hash ← canonical_sha256_self (draft "") "check_sha256";
  Ok (draft hash).

Record ConsumerBindingDraft := {
  cd_purpose_id : string; cd_action_id : string; cd_assignment_id : string; cd_assignment_revision : Z;
  cd_run_revision : Z; cd_boundary_id : string; cd_subject_digest : string }.

(** With the hash it is given, none at first. *)
Definition consumer_binding_hashed (identity : EvidenceIdentity) (draft : ConsumerBindingDraft) (hash : string)
  : Phase2PiConsumerBinding := {|
  cb_schema_version := CONSUMER_BINDING_SCHEMA; cb_consumer := "pi-autopilot";
  cb_run_id := ei_run_id identity; cb_repo_key := ei_repo_key identity; cb_workstream := ei_workstream identity;
  cb_purpose_id := cd_purpose_id draft; cb_action_id := cd_action_id draft;
  cb_assignment_id := cd_assignment_id draft; cb_assignment_revision := cd_assignment_revision draft;
  cb_run_revision := cd_run_revision draft; cb_boundary_id := cd_boundary_id draft;
  cb_subject_digest := cd_subject_digest draft; cb_binding_sha256 := hash |}.
Definition consumer_binding_without_hash (identity : EvidenceIdentity) (draft : ConsumerBindingDraft)
  : Phase2PiConsumerBinding := consumer_binding_hashed identity draft "".

Definition with_binding_hash (b : Phase2PiConsumerBinding) : result EvidenceError Phase2PiConsumerBinding :=
  hash ← canonical_sha256_self b "binding_sha256";
  Ok {| cb_schema_version := cb_schema_version b; cb_consumer := cb_consumer b; cb_run_id := cb_run_id b;
        cb_repo_key := cb_repo_key b; cb_workstream := cb_workstream b; cb_purpose_id := cb_purpose_id b;
        cb_action_id := cb_action_id b; cb_assignment_id := cb_assignment_id b;
        cb_assignment_revision := cb_assignment_revision b; cb_run_revision := cb_run_revision b;
        cb_boundary_id := cb_boundary_id b; cb_subject_digest := cb_subject_digest b; cb_binding_sha256 := hash |}.

Definition planning_subject_digest (planning_manifest_bytes work_map_bytes : string) : result EvidenceError string :=
  text ← canonical_json {| su_schema_version := "autopilot.planning_review_subject.v1";
                           su_authority_set_id := "planning-authority";
                           su_planning_manifest_sha256 := sha256_tag planning_manifest_bytes;
                           su_work_map_sha256 := sha256_tag work_map_bytes |};
  Ok (sha256_tag text).

Definition NL : string := String LF "".

Definition planning_review_prompt (workstream planning_manifest_bytes work_map_bytes : string) : string :=
  "Review the Autopilot plan for workstream `" +:+ workstream +:+ "`." +:+ NL +:+ NL +:+
  "Planning manifest SHA-256: " +:+ sha256_tag planning_manifest_bytes +:+ NL +:+
  "Work map SHA-256: " +:+ sha256_tag work_map_bytes +:+ NL +:+ NL +:+
  "Return a planning.plan-review.v1 verdict. Overall PASS is required for approval; FAIL, BLOCKED, NEEDS_FIX, advisory-only prose, or unclassified output is not approval."
  +:+ NL +:+ NL +:+ "--- planning manifest ---" +:+ NL +:+ utf8_lossy planning_manifest_bytes +:+ NL +:+ NL +:+
  "--- work map ---" +:+ NL +:+ utf8_lossy work_map_bytes +:+ NL.

(** ** Issuing *)

Definition issue_planning_review (workstream : string) (run_revision : Z)
    (planning_manifest_bytes work_map_bytes : string) : prog EvidenceError PlanningReviewIssue :=
  identity ← for_workstream workstream;
  roster ← Ret (map_err (λ error, Store ("roster:" +:+ roster_debug error)) roster_package);
  slot ← Ret (ok_or (find_first (λ slot, any (λ role, role =s "plan-reviewer") (sl_roles slot))
                       (btree_values (rs_slots roster)))
                (Store "roster missing plan-reviewer"));
  let route := slot_route slot in
  _ ← Ret (map_err (λ error, Store ("roster:" +:+ failure_debug error)) (guard_route route));
  if negb (sl_provider slot =s PROVIDER) || negb (sl_route slot =s "subscription")
  then Ret (Err (ChannelForbidden (sl_provider slot +:+ " via " +:+ sl_route slot)))
  else
  subject_digest ← Ret (planning_subject_digest planning_manifest_bytes work_map_bytes);
  assignment_revision ← next_assignment_revision identity PURPOSE_PLANNING_REVIEW;
  let assignment_id :=
    "evi-" +:+ digest_hex ("autopilot.evidence-assignment-key.v1" +:+ NUL +:+ ei_run_id identity +:+ NUL +:+
      PURPOSE_PLANNING_REVIEW +:+ NUL +:+ show_uint assignment_revision +:+ NUL +:+ subject_digest) in
  let action_id := "eva-" +:+ digest_hex ("autopilot.evidence-action-key.v1" +:+ NUL +:+ assignment_id) in
  let issue_idempotency_key := "evidence-issue:v1:" +:+ assignment_id in
  let import_idempotency_key := "evidence-import:v1:" +:+ assignment_id in
  let prompt := planning_review_prompt workstream planning_manifest_bytes work_map_bytes in
  let prompt_path := "prompts/evidence/" +:+ assignment_id +:+ ".md" in
  prompt_ref ← publish_ref (ei_run_root identity) prompt_path prompt PromptContent;
  let system_prompt_sha256 := sha256_tag SYSTEM_PROMPT in
  let report_staging_path :=
    ".pi/autopilot/" +:+ workstream +:+ "/evidence-staging/" +:+ assignment_id +:+ ".report.v1.json" in
  let consumer_binding := consumer_binding_without_hash identity
    {| cd_purpose_id := PURPOSE_PLANNING_REVIEW; cd_action_id := action_id; cd_assignment_id := assignment_id;
       cd_assignment_revision := assignment_revision; cd_run_revision := run_revision;
       cd_boundary_id := "planning.plan-review.v1"; cd_subject_digest := subject_digest |} in
  consumer_binding ← Ret (with_binding_hash consumer_binding);
  let request hash := {|
    rq_schema_version := REQUEST_SCHEMA; rq_name := "Autopilot plan review " +:+ workstream;
    rq_provider := PROVIDER; rq_model := rt_model route; rq_thinking := rt_thinking route;
    rq_system_prompt_utf8 := SYSTEM_PROMPT; rq_prompt_utf8 := prompt; rq_report_path := report_staging_path;
    rq_timeout_seconds := TIMEOUT_SECONDS; rq_idempotency_key := issue_idempotency_key;
    rq_consumer_binding := consumer_binding; rq_request_sha256 := hash |} in
  request_sha256 ← Ret (canonical_sha256_self (request "") "request_sha256");
  policy ← Ret (conflict_policy []);
  issued_at ← now_ms;
  let assignment hash := {|
    at_schema_version := ASSIGNMENT_SCHEMA; at_run_id := ei_run_id identity; at_repo_key := ei_repo_key identity;
    at_workstream := ei_workstream identity; at_purpose_id := PURPOSE_PLANNING_REVIEW;
    at_assignment_id := assignment_id; at_assignment_revision := assignment_revision;
    at_run_revision := run_revision; at_action_id := action_id;
    at_issue_idempotency_key := issue_idempotency_key; at_import_idempotency_key := import_idempotency_key;
    at_subject_digest := subject_digest; at_boundary_id := "planning.plan-review.v1";
    at_provider := PROVIDER; at_model := rt_model route; at_thinking := rt_thinking route;
    at_required_channel := CHANNEL; at_prompt_ref := prompt_ref; at_system_prompt_sha256 := system_prompt_sha256;
    at_report_staging_path := report_staging_path; at_producer_request_sha256 := request_sha256;
    at_conflict_policy := policy; at_issued_at_unix_ms := show_uint issued_at;
    at_supersedes_assignment_id := None; at_assignment_sha256 := hash |} in
  assignment_sha256 ← Ret (canonical_sha256_self (assignment "") "assignment_sha256");
  let assignment := assignment assignment_sha256 in
  assignment_ref ← publish_json_ref (ei_run_root identity) ("evidence/assignments/" +:+ assignment_id +:+ ".json")
                     assignment AssignmentContent;
  now ← now_ms;
  let action hash := {|
    ac_schema_version := ACTION_SCHEMA; ac_action_id := action_id; ac_assignment_id := assignment_id;
    ac_assignment_revision := assignment_revision; ac_run_revision := run_revision;
    ac_assignment_ref := assignment_ref; ac_producer_request := request request_sha256;
    ac_expires_at_unix_ms := show_uint (wrapping_add u64_max (wrapping_add u64_max now (TIMEOUT_SECONDS * 1000)) 60000);
    ac_supersession_state := "live"; ac_action_sha256 := hash |} in
  action_sha256 ← Ret (canonical_sha256_self (action "") "action_sha256");
  let action := action action_sha256 in
  action_ref ← publish_json_ref (ei_run_root identity) ("evidence/actions/" +:+ action_id +:+ ".json")
                 action ActionContent;
  Ret (Ok {| pi_action := action; pi_assignment := assignment; pi_prompt_ref := prompt_ref;
             pi_assignment_ref := assignment_ref; pi_action_ref := action_ref |}).

(** ** References in events *)

Definition attested_action_ref (action : AutopilotAttestedAction) : string :=
  "attested-action:" +:+ ac_action_id action +:+ ":" +:+ ac_assignment_id action +:+ ":" +:+
  show_uint (ac_run_revision action).

Definition content_ref_event (reference : AutopilotContentRef) : string :=
  "evidence-ref:" +:+ evidence_kind_str (cr_kind reference) +:+ ":" +:+ cr_path reference +:+ ":" +:+
  cr_sha256 reference.

Definition issue_event_refs (issue : PlanningReviewIssue) : list string :=
  [content_ref_event (pi_prompt_ref issue); content_ref_event (pi_assignment_ref issue);
   content_ref_event (pi_action_ref issue); attested_action_ref (pi_action issue)].

Definition decode_attested_action_ref (reference : string) : option AutopilotAttestedAction :=
  rest ← strip_prefix "attested-action-json:" reference;
  match from_text (T := AutopilotAttestedAction) rest with Ok action => Some action | Err _ => None end.

Definition attested_action_json_ref (action : AutopilotAttestedAction) : result EvidenceError string :=
  bytes ← canonical_json action;
  text ← map_err Store (from_utf8 bytes);
  Ok ("attested-action-json:" +:+ text).

(** One reference of the loop of [find_action_from_refs] *)
Definition find_action_step (action_id assignment_id : string) (found : option AutopilotAttestedAction)
    (reference : string) : result EvidenceError (option AutopilotAttestedAction) :=
  match decode_attested_action_ref reference with
  | Some action =>
      if (ac_action_id action =s action_id) && (ac_assignment_id action =s assignment_id)
      then match found with Some _ => Err BindingConflict | None => Ok (Some action) end
      else Ok found
  | None => Ok found
  end.
Definition find_action_from_refs (refs : list string) (action_id assignment_id : string)
  : result EvidenceError AutopilotAttestedAction :=
  found ← fold_res (find_action_step action_id assignment_id) None refs;
  ok_or found MissingAssignment.

(** ** Validation *)

Definition validate_report_binding (action : AutopilotAttestedAction) (binding : Phase2ReportConsumerBinding)
  : result EvidenceError unit :=
  let expected := rq_consumer_binding (ac_producer_request action) in
  if negb (rb_schema_version binding =s CONSUMER_BINDING_SCHEMA)
     || negb (rb_consumer binding =s "pi-autopilot")
     || negb (rb_run_id binding =s cb_run_id expected)
     || negb (rb_repo_key binding =s cb_repo_key expected)
     || negb (rb_workstream binding =s cb_workstream expected)
     || negb (rb_purpose_id binding =s cb_purpose_id expected)
     || negb (rb_action_id binding =s cb_action_id expected)
     || negb (rb_assignment_id binding =s cb_assignment_id expected)
     || negb (rb_assignment_revision binding =? cb_assignment_revision expected)
     || negb (rb_run_revision binding =? cb_run_revision expected)
     || negb (rb_boundary_id binding =s cb_boundary_id expected)
     || negb (rb_subject_digest binding =s cb_subject_digest expected)
     || negb (rb_binding_sha256 binding =s cb_binding_sha256 expected)
  then Err (RequestMismatch "consumer binding mismatch")
  else Ok tt.

Definition validate_report (action : AutopilotAttestedAction) (observation : HostToCoreAttestedTaskObservationPayload)
    (report : Phase2PiTaskReportV1) (bytes : string) : result EvidenceError unit :=
  if negb (rp_schema_version report =s "phase2.pi_task_report.v1") then Err (Schema (rp_schema_version report))
  else if negb (rp_producer_task_id report =s ob_producer_task_id observation)
  then Err (RequestMismatch "report task id drift")
  else if is_empty (rp_payload_utf8 report) then Err (Schema "empty payload")
  else if negb (rp_payload_sha256 report =s sha256_tag (rp_payload_utf8 report))
  then Err (Hash "payload hash mismatch")
  else
    self ← canonical_sha256_self report "report_sha256";
    if negb (rp_report_sha256 report =s self) then Err (Hash "report self hash mismatch")
    else
      (* [a != b && c != d?]: the second hash is taken only when the first differs *)
      _ ← (if negb (rp_report_sha256 report =s sha256_tag bytes) then
             self ← canonical_sha256_self report "report_sha256";
             if negb (rp_report_sha256 report =s self) then Err (Hash "report hash mismatch") else Ok tt
           else Ok tt);
      validate_report_binding action (rp_consumer_binding report).

Definition validate_sidecar (action : AutopilotAttestedAction) (observation : HostToCoreAttestedTaskObservationPayload)
    (report : Phase2PiTaskReportV1) (sidecar : Phase2PiTaskAttestationV2) (bytes : string)
  : result EvidenceError unit :=
  let request := ac_producer_request action in
  let invocation := sc_invocation sidecar in
  let authority := sc_authority sidecar in
  let prompt := ab_sha256 (af_prompt (sc_artifacts sidecar)) in
  if negb (sc_schema_version sidecar =s "phase2.pi_task_attestation.v2") then Err (Schema (sc_schema_version sidecar))
  else if negb (sc_producer_request_sha256 sidecar =s rq_request_sha256 request)
  then Err (RequestMismatch "sidecar request hash drift")
  else if negb (lo_task_id (sc_locator sidecar) =s ob_producer_task_id observation)
       || negb (lo_task_id (sc_locator sidecar) =s rp_producer_task_id report)
  then Err (RequestMismatch "sidecar task id drift")
  else if negb (sh_report_sha256 (sc_source_hashes sidecar) =s rp_report_sha256 report)
       || negb (ra_sha256 (af_report (sc_artifacts sidecar)) =s rp_report_sha256 report)
  then Err (Hash "sidecar/report hash mismatch")
  else
    self ← canonical_sha256_self sidecar "attestation_sha256";
    if negb (sc_attestation_sha256 sidecar =s self) && negb (sc_attestation_sha256 sidecar =s sha256_tag bytes)
    then Err (Hash "sidecar self hash mismatch")
    else
      _ ← validate_report_binding action (sc_consumer_binding sidecar);
      if negb (sc_consumer_binding sidecar =s rp_consumer_binding report)
      then Err (RequestMismatch "report/sidecar consumer binding drift")
      else if negb (li_status (sc_lifecycle sidecar) =s "completed")
           || negb (li_is_agent (sc_lifecycle sidecar))
           || negb (li_exit_code (sc_lifecycle sidecar) =? 0)
           || negb (li_signal (sc_lifecycle sidecar) =s "none")
      then Err (TerminalNotCompleted "sidecar lifecycle")
      else if negb (iv_provider invocation =s PROVIDER) then Err (ProviderMismatch (iv_provider invocation))
      else if negb (iv_model_id invocation =s rq_model request) then Err (ModelMismatch (iv_model_id invocation))
      else if negb (iv_auth_class invocation =s AUTH_CLASS)
           || negb (iv_credential_kind invocation =s CREDENTIAL_KIND)
           || negb (iv_route_class invocation =s ROUTE_CLASS)
           || negb (iv_channel invocation =s CHANNEL)
           || negb (iv_direct_api_key invocation =s DIRECT_API_KEY)
      then Err (ChannelForbidden (iv_auth_class invocation +:+ "/" +:+ iv_credential_kind invocation +:+ "/" +:+
                                  iv_route_class invocation +:+ "/" +:+ iv_channel invocation))
      else if negb (iv_final_stop_reason invocation =s "stop")
      then Err (TerminalNotCompleted "non-stop final reason")
      else if negb (au_status_unchanged authority)
           || negb (au_start_commit_oid authority =s au_finish_commit_oid authority)
           || negb (au_start_tree_oid authority =s au_finish_tree_oid authority)
           || negb (au_start_status_sha256 authority =s au_finish_status_sha256 authority)
      then Err SubjectStale
      else if negb (prompt =s cr_sha256 (ac_assignment_ref action))
           && negb (prompt =s cb_subject_digest (rq_consumer_binding request))
           && negb (prompt =s sha256_tag (rq_prompt_utf8 request))
      then Err (Hash "prompt hash mismatch")
      else if negb (ab_sha256 (af_system_prompt (sc_artifacts sidecar)) =s sha256_tag (rq_system_prompt_utf8 request))
      then Err (Hash "system prompt hash mismatch")
      else match sc_usage sidecar with
           | Some usage => if negb (default 0 (us_cost_total_microusd usage) =? 0) then Err MeteredUsage else Ok tt
           | None => Ok tt
           end.

(** ** Receipts *)

(** [path_string]: a source path comes from a string, so its text is UTF-8. *)
Definition path_string (p : string) : result EvidenceError string := Ok p.

Definition producer_binding (identity : EvidenceIdentity) (action : AutopilotAttestedAction)
    (observation : HostToCoreAttestedTaskObservationPayload) (source : SourcePair)
  : prog EvidenceError AutopilotProducerBinding :=
  action_ref ← Ret (action_content_ref action);
  report_source_path ← Ret (path_string (sp_report_path source));
  sidecar_source_path ← Ret (path_string (sp_sidecar_path source));
  bound_at ← now_ms;
  let draft hash := {|
    pb_schema_version := "autopilot.producer_binding.v1"; pb_run_id := ei_run_id identity;
    pb_workstream := ei_workstream identity; pb_action_id := ac_action_id action;
    pb_assignment_id := ac_assignment_id action; pb_assignment_revision := ac_assignment_revision action;
    pb_run_revision := ac_run_revision action; pb_assignment_ref := ac_assignment_ref action;
    pb_action_ref := action_ref; pb_producer_task_id := ob_producer_task_id observation;
    pb_producer_request_sha256 := rq_request_sha256 (ac_producer_request action);
    pb_report_source_path := report_source_path; pb_sidecar_source_path := sidecar_source_path;
    pb_bound_at_unix_ms := show_uint bound_at; pb_binding_sha256 := hash |} in
  hash ← Ret (canonical_sha256_self (draft "") "binding_sha256");
  Ret (Ok (draft hash)).

Record AcceptanceReceiptRefs := {
  rr_producer_binding : AutopilotContentRef; rr_report : AutopilotContentRef; rr_sidecar : AutopilotContentRef }.
Record AcceptanceReceiptArtifacts := { ra_report : Phase2PiTaskReportV1; ra_sidecar : Phase2PiTaskAttestationV2 }.
Record AcceptanceReceiptGate := {
  rg_issue_event_ref : AutopilotEventRef; rg_binding_event_ref : AutopilotEventRef;
  rg_conflict_check : AutopilotEvidenceConflictCheck }.

Definition acceptance_receipt (identity : EvidenceIdentity) (action : AutopilotAttestedAction)
    (refs : AcceptanceReceiptRefs) (artifacts : AcceptanceReceiptArtifacts) (gate : AcceptanceReceiptGate)
  : result EvidenceError AutopilotEvidenceAcceptanceReceipt :=
  let request := ac_producer_request action in
  let binding := rq_consumer_binding request in
  let receipt_id := "ear-" +:+ digest_hex ("autopilot.evidence-acceptance.v1" +:+ NUL +:+ ac_assignment_id action
                      +:+ NUL +:+ rq_request_sha256 request) in
  action_ref ← action_content_ref action;
  let draft hash := {|
    ar_schema_version := "autopilot.evidence_acceptance_receipt.v1"; ar_receipt_id := receipt_id;
    ar_run_id := ei_run_id identity; ar_repo_key := ei_repo_key identity; ar_workstream := ei_workstream identity;
    ar_purpose_id := cb_purpose_id binding; ar_assignment_id := ac_assignment_id action;
    ar_action_id := ac_action_id action; ar_assignment_revision := ac_assignment_revision action;
    ar_run_revision := ac_run_revision action; ar_subject_digest := cb_subject_digest binding;
    ar_boundary_id := cb_boundary_id binding; ar_assignment_ref := ac_assignment_ref action;
    ar_action_ref := action_ref; ar_producer_binding_ref := rr_producer_binding refs;
    ar_report_ref := rr_report refs; ar_producer_sidecar_ref := rr_sidecar refs;
    ar_producer_task_id := rp_producer_task_id (ra_report artifacts);
    ar_producer_request_sha256 := rq_request_sha256 request;
    ar_prompt_sha256 := sha256_tag (rq_prompt_utf8 request);
    ar_system_prompt_sha256 := sha256_tag (rq_system_prompt_utf8 request);
    ar_payload_sha256 := rp_payload_sha256 (ra_report artifacts);
    ar_provider := PROVIDER; ar_model := rq_model request; ar_channel := CHANNEL; ar_auth_class := AUTH_CLASS;
    ar_credential_kind := CREDENTIAL_KIND; ar_direct_api_key := DIRECT_API_KEY;
    ar_pi_session_id := iv_pi_session_id (sc_invocation (ra_sidecar artifacts));
    ar_conflict_check := rg_conflict_check gate; ar_issue_idempotency_key := rq_idempotency_key request;
    ar_import_idempotency_key := "evidence-import:v1:" +:+ ac_assignment_id action;
    ar_issue_event_ref := rg_issue_event_ref gate; ar_binding_event_ref := rg_binding_event_ref gate;
    ar_supersession_state_at_acceptance := "active";
    ar_accepted_at_unix_ms := show_uint (li_end_time_ms (sc_lifecycle (ra_sidecar artifacts)));
    ar_receipt_sha256 := hash |} in
  hash ← canonical_sha256_self (draft "") "receipt_sha256";
  Ok (draft hash).

(** ** Ingress *)

Definition accept_attested_observation_inner (action : AutopilotAttestedAction)
    (issue_event_ref binding_event_ref : AutopilotEventRef)
    (observation : HostToCoreAttestedTaskObservationPayload) : prog EvidenceError AcceptedEvidence :=
  if negb (ob_status observation =s "completed") then Ret (Err (TerminalNotCompleted (ob_status observation)))
  else if negb (ob_action_id observation =s ac_action_id action)
       || negb (ob_assignment_id observation =s ac_assignment_id action)
       || negb (ob_assignment_revision observation =? ac_assignment_revision action)
       || negb (ob_run_revision observation =? ac_run_revision action)
       || negb (ob_producer_request_sha256 observation =s rq_request_sha256 (ac_producer_request action))
  then Ret (Err (RequestMismatch "observation/action identity drift"))
  else
    let source := {| sp_report_path := ob_report_source_path observation;
                     sp_sidecar_path := ob_sidecar_source_path observation |} in
    report_bytes ← read_bound_source (sp_report_path source) REPORT_LIMIT;
    sidecar_bytes ← read_bound_source (sp_sidecar_path source) SIDECAR_LIMIT;
    report ← Ret (map_err (λ error, Schema ("report:" +:+ error)) (from_text (T := Phase2PiTaskReportV1) report_bytes));
    sidecar ← Ret (map_err (λ error, Schema ("sidecar:" +:+ error))
                     (from_text (T := Phase2PiTaskAttestationV2) sidecar_bytes));
    _ ← Ret (validate_report action observation report report_bytes);
    _ ← Ret (validate_sidecar action observation report sidecar sidecar_bytes);
    identity ← action_identity action;
    binding ← producer_binding identity action observation source;
    let root := ei_run_root identity in
    let id := ac_assignment_id action in
    binding_ref ← publish_json_ref root ("evidence/bindings/" +:+ id +:+ ".json") binding ProducerBinding;
    report_ref ← publish_ref root ("evidence/imports/" +:+ id +:+ "/report.v1.json") report_bytes ReportContent;
    sidecar_ref ← publish_ref root ("evidence/imports/" +:+ id +:+ "/producer-attestation.v2.json")
                    sidecar_bytes ProducerSidecar;
    check ← Ret (conflict_check []);
    receipt ← Ret (acceptance_receipt identity action
                     {| rr_producer_binding := binding_ref; rr_report := report_ref; rr_sidecar := sidecar_ref |}
                     {| ra_report := report; ra_sidecar := sidecar |}
                     {| rg_issue_event_ref := issue_event_ref; rg_binding_event_ref := binding_event_ref;
                        rg_conflict_check := check |});
    receipt_ref ← publish_json_ref root ("evidence/receipts/" +:+ id +:+ ".acceptance.v1.json") receipt
                    AcceptanceReceipt;
    Ret (Ok {| ae_receipt := receipt; ae_receipt_ref := receipt_ref; ae_report := report; ae_sidecar := sidecar;
               ae_envelope := None |}).

Definition ingress_boundary : BoundaryDescriptor :=
  {| bd_id := BOUNDARY_ID; bd_producer := PBackgroundTask;
     bd_admits := "Only a terminal observation for a Core-issued attested action may import a phase2.pi_task_report.v1 report and phase2.pi_task_attestation.v2 sidecar. Provider/channel must be openai-codex subscription OAuth; v1 sidecars, prose, caller-selected files, and metered/API-key routes are rejected.";
     bd_mode := Enforce |}.

(** An error of [None] is a panic: an unknown code, or a boundary that does
    not reject. *)
Definition accept_attested_observation (action : AutopilotAttestedAction)
    (issue_event_ref binding_event_ref : AutopilotEventRef)
    (observation : HostToCoreAttestedTaskObservationPayload) : prog (option Rejection) AcceptedEvidence :=
  prog_match (accept_attested_observation_inner action issue_event_ref binding_event_ref observation) (λ r,
    match r with
    | Ok value => Ret (Ok value)
    | Err error =>
        match error_status error with
        | None => Ret (Err None)
        | Some status =>
            match reject_declared ingress_boundary status with
            | Err rejection => Ret (Err (Some rejection))
            | Ok _ => Ret (Err None)
            end
        end
    end).

(** ** Closing and failing *)

Definition member_order : AutopilotContentRef → AutopilotContentRef → comparison :=
  cmp_then (cmp_on (λ r, evidence_kind_str (cr_kind r)) String.compare)
    (cmp_then (cmp_on cr_path String.compare) (cmp_on cr_sha256 String.compare)).

Definition close_planning_envelope (action : AutopilotAttestedAction) (receipt_ref : AutopilotContentRef)
    (through_sequence : Z) (event_prefix_bytes : string)
  : prog EvidenceError (AutopilotEvidenceEnvelopeManifest * AutopilotContentRef) :=
  identity ← action_identity action;
  let members := sort_by member_order [ac_assignment_ref action; receipt_ref] in
  now ← now_ms;
  let draft hash := {|
    em_schema_version := "autopilot.evidence_envelope_manifest.v1";
    em_manifest_id := "eem-planning-" +:+ ac_assignment_id action; em_run_id := ei_run_id identity;
    em_repo_key := ei_repo_key identity; em_workstream := ei_workstream identity; em_scope := "planning";
    em_manifest_revision := 1;
    em_subject_digest := cb_subject_digest (rq_consumer_binding (ac_producer_request action));
    em_previous_manifest_ref := None; em_closed_through_event_sequence := through_sequence;
    em_event_prefix_sha256 := sha256_tag event_prefix_bytes; em_members := members;
    em_active_acceptance_receipt_refs := [receipt_ref]; em_supersession_receipt_refs := [];
    em_failure_receipt_refs := []; em_excluded_self := true; em_closed_at_unix_ms := show_uint now;
    em_manifest_sha256 := hash |} in
  hash ← Ret (canonical_sha256_self (draft "") "manifest_sha256");
  manifest_ref ← publish_json_ref (ei_run_root identity) "evidence/envelopes/planning.revision-1.manifest.v1.json"
                   (draft hash) EnvelopeManifest;
  Ret (Ok (draft hash, manifest_ref)).

Definition failure_receipt (action : AutopilotAttestedAction) (state : string) (code : EvidenceErrorCode)
  : prog EvidenceError (AutopilotEvidenceFailureReceipt * AutopilotContentRef) :=
  identity ← action_identity action;
  now ← now_ms;
  let draft hash := {|
    fr_schema_version := "autopilot.evidence_failure_receipt.v1"; fr_run_id := ei_run_id identity;
    fr_workstream := ei_workstream identity; fr_purpose_id := PURPOSE_PLANNING_REVIEW;
    fr_assignment_id := ac_assignment_id action; fr_action_id := ac_action_id action;
    fr_assignment_revision := ac_assignment_revision action; fr_run_revision := ac_run_revision action;
    fr_state := state; fr_code := code; fr_expected_refs := [ac_assignment_ref action];
    fr_observed_hashes := []; fr_occurred_at_unix_ms := show_uint now; fr_failure_sha256 := hash |} in
  hash ← Ret (canonical_sha256_self (draft "") "failure_sha256");
  reference ← publish_json_ref (ei_run_root identity)
                ("evidence/failures/" +:+ ac_assignment_id action +:+ "." +:+ evidence_code_str code +:+ ".v1.json")
                (draft hash) FailureReceipt;
  Ret (Ok (draft hash, reference)).
End Evidence.
