(* ===== verification/EvidenceSafety.v ===== *)
(** * What accepted evidence guarantees

    Theorems about [Evidence]: which reports and sidecars are admissible, what
    an ingress may touch, that sealed records verify, and that assignment
    revisions are fresh. *)

From S2P Require Import Prelude RustColl RustStr Paths Os Traces Failure Boundary Roles StateRoot Json EvidenceTypes Evidence.

Lemma and_flat (A B C : Prop) : (A ∧ B) ∧ C ↔ A ∧ B ∧ C.
Proof. tauto. Qed.

(** Guards read as propositions, inside a goal. *)
Ltac props :=
  rewrite ?guard_ok, ?orb_false_iff, ?andb_false_iff, ?negb_false_iff, ?bool_decide_eq_true, ?bool_decide_eq_false, ?Z.eqb_eq,
    ?and_flat.

Section Admissible.
Context (sha256 : list Z → list Z) (json_text : string → result string string).

(** The binding a producer has to repeat. *)
Definition expected_binding (action : AutopilotAttestedAction) : Phase2ReportConsumerBinding :=
  let b := rq_consumer_binding (ac_producer_request action) in {|
  rb_schema_version := CONSUMER_BINDING_SCHEMA; rb_consumer := "pi-autopilot"; rb_run_id := cb_run_id b;
  rb_repo_key := cb_repo_key b; rb_workstream := cb_workstream b; rb_purpose_id := cb_purpose_id b;
  rb_action_id := cb_action_id b; rb_assignment_id := cb_assignment_id b;
  rb_assignment_revision := cb_assignment_revision b; rb_run_revision := cb_run_revision b;
  rb_boundary_id := cb_boundary_id b; rb_subject_digest := cb_subject_digest b;
  rb_binding_sha256 := cb_binding_sha256 b |}.

(** [f] holds the hash of the record without [f]. *)
Definition sealed {T} `{Serialize T} (x : T) (field : string) (hash : string) : Prop :=
  canonical_sha256_self sha256 json_text x field = Ok hash.

Definition report_admissible (action : AutopilotAttestedAction)
    (observation : HostToCoreAttestedTaskObservationPayload) (report : Phase2PiTaskReportV1) : Prop :=
  rp_schema_version report = "phase2.pi_task_report.v1" ∧
  rp_producer_task_id report = ob_producer_task_id observation ∧
  rp_payload_utf8 report ≠ "" ∧
  rp_payload_sha256 report = sha256_tag sha256 (rp_payload_utf8 report) ∧
  sealed report "report_sha256" (rp_report_sha256 report) ∧
  rp_consumer_binding report = expected_binding action.

(** A run that ended well, on the subscription channel only. *)
Definition subscription_run (model : string) (sidecar : Phase2PiTaskAttestationV2) : Prop :=
  let lifecycle := sc_lifecycle sidecar in
  let invocation := sc_invocation sidecar in
  (li_status lifecycle = "completed" ∧ li_is_agent lifecycle = true ∧ li_exit_code lifecycle = 0 ∧
   li_signal lifecycle = "none") ∧
  iv_provider invocation = "openai-codex" ∧ iv_model_id invocation = model ∧
  (iv_auth_class invocation = "pi-codex-oauth" ∧ iv_credential_kind invocation = "oauth" ∧
   iv_route_class invocation = "subscription-agent" ∧ iv_channel invocation = "subscription-codex" ∧
   iv_direct_api_key invocation = false) ∧
  iv_final_stop_reason invocation = "stop".

Definition repository_unchanged (authority : Phase2Authority) : Prop :=
  au_status_unchanged authority = true ∧
  au_start_commit_oid authority = au_finish_commit_oid authority ∧
  au_start_tree_oid authority = au_finish_tree_oid authority ∧
  au_start_status_sha256 authority = au_finish_status_sha256 authority.

Definition unmetered (usage : option Phase2Usage) : Prop :=
  ∀ u cost, usage = Some u → us_cost_total_microusd u = Some cost → cost = 0.

Definition sidecar_admissible (action : AutopilotAttestedAction)
    (observation : HostToCoreAttestedTaskObservationPayload) (report : Phase2PiTaskReportV1)
    (sidecar : Phase2PiTaskAttestationV2) (bytes : string) : Prop :=
  let request := ac_producer_request action in
  let prompt := ab_sha256 (af_prompt (sc_artifacts sidecar)) in
  sc_schema_version sidecar = "phase2.pi_task_attestation.v2" ∧
  sc_producer_request_sha256 sidecar = rq_request_sha256 request ∧
  (lo_task_id (sc_locator sidecar) = ob_producer_task_id observation ∧
   lo_task_id (sc_locator sidecar) = rp_producer_task_id report) ∧
  (sh_report_sha256 (sc_source_hashes sidecar) = rp_report_sha256 report ∧
   ra_sha256 (af_report (sc_artifacts sidecar)) = rp_report_sha256 report) ∧
  (∃ self, sealed sidecar "attestation_sha256" self ∧
     (sc_attestation_sha256 sidecar = self ∨ sc_attestation_sha256 sidecar = sha256_tag sha256 bytes)) ∧
  sc_consumer_binding sidecar = expected_binding action ∧
  sc_consumer_binding sidecar = rp_consumer_binding report ∧
  subscription_run (rq_model request) sidecar ∧
  repository_unchanged (sc_authority sidecar) ∧
  (prompt = cr_sha256 (ac_assignment_ref action) ∨ prompt = cb_subject_digest (rq_consumer_binding request) ∨
   prompt = sha256_tag sha256 (rq_prompt_utf8 request)) ∧
  ab_sha256 (af_system_prompt (sc_artifacts sidecar)) = sha256_tag sha256 (rq_system_prompt_utf8 request) ∧
  unmetered (sc_usage sidecar).

Lemma report_binding_exact action binding :
  validate_report_binding action binding = Ok tt ↔ binding = expected_binding action.
Proof.
  unfold validate_report_binding. props. split.
  - intros (? & ? & ? & ? & ? & ? & ? & ? & ? & ? & ? & ? & ? & _). destruct binding. cbn in *. by subst.
  - intros ->. cbn. repeat split.
Qed.

Lemma report_exact action observation report bytes :
  validate_report sha256 json_text action observation report bytes = Ok tt ↔
  report_admissible action observation report.
Proof.
  unfold validate_report, report_admissible, sealed, is_empty. props. rewrite bind_ok. split.
  - intros (H1 & H2 & H3 & H4 & self & Hs & H). revert H. props. rewrite bind_ok.
    intros (Hself & [] & _ & Hb). apply report_binding_exact in Hb. subst self. done.
  - intros (H1 & H2 & H3 & H4 & Hs & Hb). split_and!; [done..|]. exists (rp_report_sha256 report).
    split; [done|]. props. split; [done|]. rewrite bind_ok. exists tt. split.
    + destruct (negb _); [|done]. rewrite Hs. cbn. by rewrite bool_decide_true.
    + by apply report_binding_exact.
Qed.

Lemma metered_exact (usage : option Phase2Usage) :
  match usage with
  | Some usage => if negb (default 0 (us_cost_total_microusd usage) =? 0) then Err MeteredUsage else Ok tt
  | None => Ok tt
  end = Ok tt ↔ unmetered usage.
Proof.
  unfold unmetered. destruct usage as [u|]; [|naive_solver]. props. destruct (us_cost_total_microusd u) eqn:E; cbn.
  - split; [intros [-> _]; naive_solver|]. intros Hu. split; [by eapply Hu|done].
  - naive_solver.
Qed.

(** A disjunction of equalities, checked as a conjunction of inequalities. *)
Lemma neither_two (P Q : Prop) `{Decision P, Decision Q} :
  negb (bool_decide P) && negb (bool_decide Q) = false ↔ P ∨ Q.
Proof. do 2 case_bool_decide; cbn; naive_solver. Qed.
Lemma neither_three (P Q R : Prop) `{Decision P, Decision Q, Decision R} :
  negb (bool_decide P) && negb (bool_decide Q) && negb (bool_decide R) = false ↔ P ∨ Q ∨ R.
Proof. do 3 case_bool_decide; cbn; naive_solver. Qed.

Lemma sidecar_exact action observation report sidecar bytes :
  validate_sidecar sha256 json_text action observation report sidecar bytes = Ok tt ↔
  sidecar_admissible action observation report sidecar bytes.
Proof.
  unfold validate_sidecar, sidecar_admissible. rewrite !guard_ok, bind_ok. setoid_rewrite guard_ok.
  setoid_rewrite bind_ok. setoid_rewrite neither_two.
  split.
  - intros (H1 & H2 & H3 & H4 & self & Hs & Hself & [] & Hb%report_binding_exact & H). revert H. rewrite !guard_ok, metered_exact.
    rewrite neither_three. intros (? & ? & ? & ? & ? & ? & ? & Hp & ? & Hu). to_prop.
    split_and!; try done. by exists self.
  - intros (H1 & H2 & H3 & H4 & (self & Hs & Hself) & Hb & ? & (Hl & ? & ? & Hi & ?) & Ha & Hp & ? & Hu).
    rewrite !negb_false_iff, !orb_false_iff, !negb_false_iff, !bool_decide_eq_true. split_and!; [tauto..|].
    exists self. split; [done|]. split; [done|]. exists tt.
    split; [by apply report_binding_exact|]. rewrite !guard_ok, metered_exact, neither_three.
    props. destruct Hl as (? & ? & ? & ?), Hi as (? & ? & ? & ? & ?), Ha as (? & ? & ? & ?). by split_and!.
Qed.
End Admissible.

(** ** Publication stays inside the run directory *)

(** [p] lies at or below [root], by names only. *)
Definition under (root p : path) : Prop := ∃ names, p = root ++ map Normal names.

Lemma validated_components relative :
  validate_relative_path relative = Ok tt →
  ∃ names, names ≠ [] ∧ components relative = map Normal names.
Proof.
  unfold validate_relative_path. intros [Hg Hl]%guard_ok. apply for_each_ok in Hl. to_prop.
  exists (split_char SLASH relative). split; [apply split_char_nonnil|]. unfold components.
  replace (starts_with "/" relative) with false.
  assert (match split_char SLASH relative with p :: _ => if p =s "." then [CurDir] else [] | [] => [] end = []) as ->.
  { destruct (split_char SLASH relative) as [|p l]; [done|]. apply Forall_cons in Hl as [Hp _].
    destruct (bool_decide_reflect (p = ".")) as [->|]; [|done]. by cbn in Hp. }
  cbn [app]. induction Hl as [|p l Hp _ IH]; [done|]. cbn. rewrite IH. unfold component_of.
  apply guard_ok in Hp as [Hp _]. to_prop. rewrite H3, !bool_decide_false by done. done.
Qed.

Lemma join_under root relative :
  validate_relative_path relative = Ok tt →
  under root (path_join root (components relative)) ∧
  ∀ up, parent (path_join root (components relative)) = Some up → under root up.
Proof.
  intros (names & Hne & E)%validated_components. rewrite E.
  assert (path_join root (map Normal names) = root ++ map Normal names) as ->.
  { unfold path_join. replace (is_absolute (map Normal names)) with false by by destruct names.
    destruct root as [|c root]; [done|]. cbn. do 2 f_equal. apply filter_all.
    intros c' (n & -> & _)%list_elem_of_fmap. done. }
  split; [by exists names|]. unfold parent. destruct names as [|n names _] using rev_ind; [done|].
  rewrite map_app, app_assoc. cbn [map]. rewrite last_snoc. cbn. intros up [= <-]. exists names.
  by rewrite removelast_last.
Qed.

(** What writing evidence below [root] may ask. *)
Definition publishes (root : path) (q : request) : Prop :=
  match q with
  | CreateDirAll p | CreateNew p | SyncDir p => under root p
  | SetMode p mode => under root p ∧ mode = 448 (* 0o700 *)
  | SetHandleMode _ mode => mode = 384 (* 0o600 *)
  | WriteHandle _ _ | SyncHandle _ => True
  | _ => False
  end.

Lemma create_once_publishes root p bytes :
  under root p → (∀ up, parent p = Some up → under root up) →
  wp (publishes root) (λ _, True) (create_once_bytes p bytes).
Proof.
  intros Hp Hup. unfold create_once_bytes, on_parent. apply wp_bind. eapply (wp_mono (publishes root)); [done| |].
  2:{ instantiate (1 := λ _, True). destruct (parent p) as [up|]; [|done]. cbn. specialize (Hup up eq_refl).
      split; [done|]. intros [[]|e]; cbn; [|done]. done. }
  intros [u|e] _; [|done]. cbn. split; [done|]. intros [file|error]; cbn.
  - split; [done|]. intros [[]|e]; cbn; [|done]. split; [done|]. intros [[]|e]; cbn; [|done].
    split; [done|]. intros [[]|e]; cbn; [|done]. destruct (parent p) as [up|]; [|done]. cbn.
    split; [by apply Hup|done].
  - by destruct (bool_decide _).
Qed.

Section Publish.
Context (sha256 : list Z → list Z) (json_text : string → result string string).

Definition content_ref (relative bytes : string) (kind : EvidenceContentKind) : AutopilotContentRef :=
  {| cr_schema_version := CONTENT_REF_SCHEMA; cr_kind := kind; cr_path := relative;
     cr_byte_length := show_uint (str_len bytes); cr_sha256 := sha256_tag sha256 bytes |}.

Lemma publish_ref_wp root relative bytes kind :
  wp (publishes root) (λ r, ∀ c, r = Ok c → c = content_ref relative bytes kind)
    (publish_ref sha256 root relative bytes kind).
Proof.
  unfold publish_ref. apply wp_bind. cbn. destruct (validate_relative_path relative) as [[]|e] eqn:Hv; [|done].
  apply wp_bind. destruct (join_under root relative Hv) as [Hp Hup].
  eapply wp_mono, create_once_publishes; [done| |done..]. intros [u|e] _; cbn; [|done].
  change (∀ c, @Ok EvidenceError _ (content_ref relative bytes kind) = Ok c → c = content_ref relative bytes kind). by intros c [= <-].
Qed.

Lemma publish_json_wp {T} `{Serialize T} root relative (value : T) kind :
  wp (publishes root)
    (λ r, ∀ c, r = Ok c → ∃ bytes, canonical_json json_text value = Ok bytes ∧ c = content_ref relative bytes kind)
    (publish_json_ref sha256 json_text root relative value kind).
Proof.
  unfold publish_json_ref. apply wp_bind. cbn. destruct (canonical_json json_text value) as [bytes|e]; [|done].
  eapply wp_mono, publish_ref_wp; [done|]. intros r Hr c Hc. exists bytes. split; [done|by apply Hr].
Qed.
End Publish.

(** ** Sources are read where producers write *)

Definition source_path (display : string) : Prop :=
  ∃ dir names, (dir = "tasks" ∨ dir = "autopilot") ∧ components display = map Normal (".pi" :: dir :: names).

Lemma plain_components pieces :
  reject_path_components (pieces ≫= component_of) = Ok tt → ∃ names, pieces ≫= component_of = map Normal names.
Proof.
  unfold reject_path_components. rewrite for_each_ok. induction pieces as [|p pieces IH]; [by exists []|].
  cbn. rewrite Forall_app. intros [Hp (names & ->)%IH]. unfold component_of in *.
  destruct (is_empty p); [by exists names|]. destruct (p =s "."); [by exists names|].
  destruct (p =s ".."); [by apply Forall_cons in Hp as [? _]|]. by exists (p :: names).
Qed.

Lemma pi_source dir r :
  dir = "tasks" ∨ dir = "autopilot" →
  reject_path_components (components (".pi/" +:+ dir +:+ "/" +:+ r)) = Ok tt →
  source_path (".pi/" +:+ dir +:+ "/" +:+ r).
Proof.
  intros Hd. assert (components (".pi/" +:+ dir +:+ "/" +:+ r) =
    [Normal ".pi"; Normal dir] ++ (split_char SLASH r ≫= component_of)) as E.
  { unfold components. destruct Hd as [-> | ->]; cbn; by destruct (split_char _ r). }
  unfold source_path. rewrite E. unfold reject_path_components. rewrite for_each_ok, Forall_app.
  intros [_ Hc]. rewrite <- for_each_ok with (u := tt) in Hc.
  destruct (plain_components _ Hc) as [names ->]. by exists dir, names.
Qed.

Lemma source_path_intro display :
  reject_path_components (components display) = Ok tt →
  starts_with ".pi/tasks/" display || starts_with ".pi/autopilot/" display = true → source_path display.
Proof.
  intros Hc [[r ->]%starts_with_spec|[r ->]%starts_with_spec]%orb_true_iff;
    [apply (pi_source "tasks")|apply (pi_source "autopilot")]; auto.
Qed.




(** ** Ingress *)

Definition run_root (home repo_key run_id : string) : path :=
  path_join (path_join (path_join (components home) (components ".pi/agent/autopilot/v2/runs"))
    (components repo_key)) (components run_id).

Section Ingress.
Context (sha256 : list Z → list Z) (json_text : string → result string string).
Context `{Deserialize Phase2PiTaskReportV1, Deserialize Phase2PiTaskAttestationV2}.
Context (action : AutopilotAttestedAction) (observation : HostToCoreAttestedTaskObservationPayload).

Let binding := rq_consumer_binding (ac_producer_request action).

(** The bytes of a report and a sidecar that pass every check. *)
Definition vetted (report_bytes sidecar_bytes : string) (report : Phase2PiTaskReportV1)
    (sidecar : Phase2PiTaskAttestationV2) : Prop :=
  (source_path (ob_report_source_path observation) ∧ str_len report_bytes ≤ REPORT_LIMIT ∧
   from_text report_bytes = Ok report ∧ report_admissible sha256 json_text action observation report) ∧
  (source_path (ob_sidecar_source_path observation) ∧ str_len sidecar_bytes ≤ SIDECAR_LIMIT ∧
   from_text sidecar_bytes = Ok sidecar ∧
   sidecar_admissible sha256 json_text action observation report sidecar sidecar_bytes).

(** The observation reports the completion of this very action. *)
Definition observed : Prop :=
  ob_status observation = "completed" ∧ ob_action_id observation = ac_action_id action ∧
  ob_assignment_id observation = ac_assignment_id action ∧
  ob_assignment_revision observation = ac_assignment_revision action ∧
  ob_run_revision observation = ac_run_revision action ∧
  ob_producer_request_sha256 observation = rq_request_sha256 (ac_producer_request action).




Lemma action_identity_wp (P : request → Prop) Q :
  P (EnvVar "HOME") →
  (∀ e, Q (Err e)) →
  (∀ i home, ei_run_root i = run_root home (cb_repo_key binding) (cb_run_id binding) → Q (Ok i)) →
  wp P Q (action_identity action).
Proof.
  intros HP He Ho. cbn. split; [done|]. intros [home|]; cbn; [|apply He]. by eapply Ho.
Qed.

Lemma now_ms_wp (P : request → Prop) (Q : result EvidenceError Z → Prop) :
  P Now → (∀ r, Q r) → wp P Q now_ms.
Proof. intros HP HQ. cbn. split; [done|]. intros [ms|]; cbn; [|apply HQ]. destruct (ms <=? u64_max); apply HQ. Qed.


End Ingress.

(** ** Rejections *)

Lemma code_names_agree code : error_code_name code = evidence_code_str code.
Proof. by destruct code. Qed.

Lemma code_round_trip code : evidence_code_from (evidence_code_str code) = Some code.
Proof. by destruct code. Qed.

Lemma error_code_known e : is_Some (error_code e).
Proof. destruct e; by eexists. Qed.

Lemma bound_detail_bound value : chars_count (bound_detail value) ≤ 160.
Proof. by apply (cut_chars_bound 160). Qed.

Section Rejected.
Context (sha256 : list Z → list Z) (json_text : string → result string string).
Context `{Deserialize Phase2PiTaskReportV1, Deserialize Phase2PiTaskAttestationV2}.

(** An ingress that does not accept rejects at its boundary: it never panics,
    and the rejection names the boundary, a known code and a bounded detail. *)
Theorem ingress_rejects action issue_event_ref binding_event_ref observation :
  wp (λ _, True)
    (λ r, ∀ e, r = Err e → ∃ code detail,
       e = Some {| rj_boundary_id := "evidence.ingress.v1"; rj_expected := bd_admits ingress_boundary;
                   rj_actual := "rejection:evidence.ingress.v1:" +:+ evidence_code_str code +:+ ":" +:+ detail;
                   rj_producer_visible := true |} ∧
       chars_count detail ≤ 160)
    (accept_attested_observation sha256 json_text action issue_event_ref binding_event_ref observation).
Proof.
  unfold accept_attested_observation. apply wp_match. eapply wp_mono, wp_any; [done|].
  intros [value|error] _; [done|]. destruct (error_code_known error) as [code Hcode].
  unfold error_status. rewrite Hcode. cbn. intros e [= <-]. exists code, (bound_detail (error_display error)).
  split; [done|apply bound_detail_bound].
Qed.
End Rejected.

(** ** Finding the issued action *)

Section Find.
Context `{Deserialize AutopilotAttestedAction}.

(** The actions with these ids among the references. *)
Definition issued_actions (refs : list string) (action_id assignment_id : string) : list AutopilotAttestedAction :=
  filter (λ a, ac_action_id a = action_id ∧ ac_assignment_id a = assignment_id)
    (omap decode_attested_action_ref refs).

Lemma find_action_fold refs action_id assignment_id found :
  fold_res (find_action_step action_id assignment_id) found refs =
  match found, issued_actions refs action_id assignment_id with
  | Some a, [] => Ok (Some a)
  | None, [] => Ok None
  | None, [a] => Ok (Some a)
  | _, _ => Err BindingConflict
  end.
Proof.
  unfold issued_actions. revert found. induction refs as [|r refs IH]; intros found; cbn [fold_res omap list_omap]; [by destruct found|].
  unfold find_action_step at 1. destruct (decode_attested_action_ref r) as [a|]; [|apply IH].
  destruct (decide (ac_action_id a = action_id ∧ ac_assignment_id a = assignment_id)) as [[? ?]|Hn].
  - rewrite filter_cons_True by done. rewrite !bool_decide_true by done. cbn. destruct found; [done|]. rewrite IH.
    by destruct (filter _ _).
  - rewrite filter_cons_False by done. destruct (_ && _) eqn:E; [|apply IH]. to_prop. naive_solver.
Qed.

(** An action is found when exactly one reference holds it. *)
Theorem find_action_exact refs action_id assignment_id :
  find_action_from_refs refs action_id assignment_id =
  match issued_actions refs action_id assignment_id with
  | [] => Err MissingAssignment
  | [action] => Ok action
  | _ => Err BindingConflict
  end.
Proof.
  unfold find_action_from_refs. rewrite find_action_fold.
  by destruct (issued_actions refs action_id assignment_id) as [|a [|b l]].
Qed.
End Find.

(** ** Fresh revisions *)

Section Revision.
Context `{Deserialize AutopilotAttestedAssignment}.

(** A directory that is not changed while it is read. *)
Definition reader (listing : result io_error (list (result io_error path))) (disk : path → result io_error string)
  : handler unit := λ w q, (w,
  match q return answer q with
  | ReadFile p => disk p
  | ReadDir _ => listing
  | PathExists _ => true
  | other => refuse other
  end).

(** The revisions of a purpose on disk. *)
Definition revision_on_disk (entries : list (result io_error path)) (disk : path → result io_error string)
    (purpose : string) (revision : Z) : Prop :=
  ∃ p text a, Ok p ∈ entries ∧ extension p = Some "json" ∧ disk p = Ok text ∧ from_text text = Ok a ∧
    at_purpose_id a = purpose ∧ at_assignment_revision a = revision.

Lemma scan_assignments_max listing disk purpose entries max_rev n :
  (run (reader listing disk) tt (scan_assignments purpose max_rev entries)).2 = Ok n →
  max_rev ≤ n ∧ (∀ r, revision_on_disk entries disk purpose r → r ≤ n) ∧
  (n = max_rev ∨ revision_on_disk entries disk purpose n).
Proof.
  revert max_rev. induction entries as [|entry entries IH]; intros max_rev.
  { cbn. intros [= <-]. split_and!; [lia| |by left]. intros r (p & ? & ? & Hin & _). set_solver. }
  cbn [scan_assignments]. rewrite run_bind. unfold scan_assignment. destruct entry as [p|e]; [|done]. cbn.
  assert (∀ m, revision_on_disk entries disk purpose m → revision_on_disk (Ok p :: entries) disk purpose m) as Hmono.
  { intros m (q & t & a & ? & Hrest). exists q, t, a. split; [set_solver|done]. }
  destruct (decide (extension p = Some "json")) as [Hx|Hx].
  2:{ rewrite bool_decide_false by done. cbn. destruct (run _ _ (scan_assignments _ _ _)) as [[??] res] eqn:E.
      cbn. intros ->. specialize (IH max_rev). rewrite E in IH. destruct (IH eq_refl) as (? & Hall & Hor).
      split_and!; [done| |naive_solver]. intros r (q & t & a & [[= ->]|Hin]%elem_of_cons & Hq & Hrest); [done|].
      apply Hall. by exists q, t, a. }
  rewrite bool_decide_true by done. cbn. destruct (disk p) as [text|e] eqn:Hd; [|done]. cbn.
  destruct (from_text text) as [a|e] eqn:Ha; [|done]. cbn.
  destruct (run _ _ (scan_assignments _ _ _)) as [[??] res] eqn:E. cbn. intros ->.
  set (m := if _ =s _ then _ else _) in E. specialize (IH m). rewrite E in IH. destruct (IH eq_refl) as (? & Hall & Hor).
  assert (max_rev ≤ m ∧ (m = max_rev ∨ revision_on_disk (Ok p :: entries) disk purpose m) ∧
    (at_purpose_id a = purpose → at_assignment_revision a ≤ m)) as (Hle & Hm & Hge).
  { unfold m. destruct (bool_decide_reflect (at_purpose_id a = purpose)) as [Hp|]; [|split_and!; [lia|by left|done]].
    split_and!; [lia| |lia]. destruct (Z.max_spec max_rev (at_assignment_revision a)) as [[_ ->]|[_ ->]]; [right|by left].
    exists p, text, a. split_and!; [set_solver|done..]. }
  split_and!; [lia| |destruct Hor as [->|?]; auto].
  intros r (q & t & b & [[= ->]|Hin]%elem_of_cons & Hq & Hdq & Hb & Hpu & <-).
  - rewrite Hd in Hdq. injection Hdq as <-. rewrite Ha in Hb. injection Hb as <-. specialize (Hge Hpu). lia.
  - apply Hall. by exists q, t, b.
Qed.

(** The next revision of a purpose is one more than the largest on disk, one
    when there is none, and fits its width. *)
Theorem next_revision_fresh identity purpose entries disk n :
  (run (reader (Ok entries) disk) tt (next_assignment_revision identity purpose)).2 = Ok n →
  1 ≤ n ≤ u32_max ∧ (∀ r, revision_on_disk entries disk purpose r → r < n) ∧
  (n = 1 ∨ revision_on_disk entries disk purpose (n - 1)).
Proof.
  unfold next_assignment_revision. cbn. change (prog_bind ?f ?p) with (p ≫= f). rewrite run_bind.
  destruct (run _ _ (scan_assignments purpose 0 entries)) as [[??] res] eqn:E. destruct res as [m|e]; [|done].
  assert ((run (reader (Ok entries) disk) tt (scan_assignments purpose 0 entries)).2 = Ok m) as Hm by by rewrite E.
  apply scan_assignments_max in Hm as (H0 & Hall & Hor). cbn. unfold checked_add.
  destruct (Z.leb_spec (m + 1) u32_max); [|done]. cbn. intros [= <-].
  replace (m + 1 - 1) with m by lia. split_and!; [lia..| |]; [|naive_solver lia].
  intros r Hr. specialize (Hall r Hr). lia.
Qed.
End Revision.

(** ** Issued reviews *)

(** Nothing is overwritten, moved, removed or executed. *)
Definition append_only (q : request) : Prop :=
  match q with
  | WriteFile _ _ | OpenCreate _ | OpenTruncate _ | Rename _ _ | RemoveFile _ | RemoveDirAll _ | Spawn _ _ _ => False
  | _ => True
  end.

Lemma publishes_append root q : publishes root q → append_only q.
Proof. by destruct q. Qed.

Section Issue.
Context (sha256 : list Z → list Z) (json_text : string → result string string) (utf8_lossy : string → string).
Context (roster_debug : RosterError → string) (failure_debug : Failure → string).
Context `{Deserialize DiskIdentity, Deserialize AutopilotAttestedAssignment}.

Lemma policy_sealed distinct policy :
  conflict_policy sha256 json_text distinct = Ok policy →
  sealed sha256 json_text policy "policy_sha256" (po_policy_sha256 policy).
Proof.
  unfold conflict_policy. intros (hash & Hh & Heq)%bind_ok. injection Heq as <-. unfold sealed. cbn [po_policy_sha256].
  rewrite <- Hh. reflexivity.
Qed.

Lemma binding_sealed b b' :
  with_binding_hash sha256 json_text b = Ok b' →
  sealed sha256 json_text b' "binding_sha256" (cb_binding_sha256 b') ∧
  cb_assignment_id b' = cb_assignment_id b ∧ cb_action_id b' = cb_action_id b ∧
  cb_subject_digest b' = cb_subject_digest b ∧ cb_run_id b' = cb_run_id b ∧
  cb_assignment_revision b' = cb_assignment_revision b.
Proof.
  unfold with_binding_hash. intros (hash & Hh & Heq)%bind_ok. injection Heq as <-. split; [|done].
  unfold sealed. cbn [cb_binding_sha256]. rewrite <- Hh. reflexivity.
Qed.

(** The records of an issue fit each other: each is sealed, the action carries
    the assignment's ids, the request the assignment names and the prompt that
    was published, and the action's reference is the one that the ingress
    recomputes. *)
Definition issue_consistent (issue : PlanningReviewIssue) : Prop :=
  let action := pi_action issue in
  let assignment := pi_assignment issue in
  let request := ac_producer_request action in
  let binding := rq_consumer_binding request in
  (sealed sha256 json_text action "action_sha256" (ac_action_sha256 action) ∧
   sealed sha256 json_text assignment "assignment_sha256" (at_assignment_sha256 assignment) ∧
   sealed sha256 json_text request "request_sha256" (rq_request_sha256 request) ∧
   sealed sha256 json_text binding "binding_sha256" (cb_binding_sha256 binding) ∧
   sealed sha256 json_text (at_conflict_policy assignment) "policy_sha256"
     (po_policy_sha256 (at_conflict_policy assignment))) ∧
  (ac_action_id action = at_action_id assignment ∧ ac_assignment_id action = at_assignment_id assignment ∧
   cb_action_id binding = at_action_id assignment ∧ cb_assignment_id binding = at_assignment_id assignment ∧
   cb_subject_digest binding = at_subject_digest assignment ∧
   at_producer_request_sha256 assignment = rq_request_sha256 request ∧
   ac_assignment_ref action = pi_assignment_ref issue ∧ at_prompt_ref assignment = pi_prompt_ref issue) ∧
  (rq_provider request = "openai-codex" ∧ at_required_channel assignment = "subscription-codex") ∧
  cr_sha256 (pi_prompt_ref issue) = sha256_tag sha256 (rq_prompt_utf8 request) ∧
  action_content_ref sha256 json_text action = Ok (pi_action_ref issue) ∧
  ∃ bytes, canonical_json json_text assignment = Ok bytes ∧
    cr_sha256 (pi_assignment_ref issue) = sha256_tag sha256 bytes.

Lemma action_ref_of action bytes :
  canonical_json json_text action = Ok bytes →
  action_content_ref sha256 json_text action =
    Ok (content_ref sha256 ("evidence/actions/" +:+ ac_action_id action +:+ ".json") bytes ActionContent).
Proof. unfold action_content_ref. by intros ->. Qed.

Lemma create_once_append p bytes : wp append_only (λ _, True) (create_once_bytes p bytes).
Proof.
  unfold create_once_bytes, on_parent. eapply wp_seq with (P' := append_only) (Q' := λ _, True); [|done..|].
  { destruct (parent p); [|done]. cbn. split; [done|]. by intros [[]|]. }
  intros u _. cbn. split; [done|]. intros [file|error]; cbn; [|by destruct (bool_decide _)].
  split; [done|]. intros [[]|e]; cbn; [|done]. split; [done|]. intros [[]|e]; cbn; [|done].
  split; [done|]. intros [[]|e]; cbn; [|done]. by destruct (parent p).
Qed.

Lemma for_workstream_append workstream : wp append_only (λ _, True) (for_workstream sha256 json_text workstream).
Proof.
  unfold for_workstream. apply wp_ask; [done..|]. intros _ cwd _.
  eapply wp_seq with (P' := append_only) (Q' := λ _, True); [|done..|].
  { apply wp_map_err. unfold StateRoot.repo_key. by apply (wp_ask append_only). }
  intros repo_key _. apply wp_ask; [done..|]. intros _ present _. cbv zeta. destruct present.
  - apply wp_ask; [done..|]. intros _ text _. apply wp_lift; [done|]. intros disk _. destruct (_ || _); [done|].
    by apply wp_ask.
  - apply (wp_ask append_only); [done..|]. intros _ millis _.
    eapply wp_seq with (P' := append_only) (Q' := λ _, True); [|done..|].
    { apply (wp_ask append_only); [done..|]. intros _ file _. by apply (wp_ask append_only). }
    intros random _. apply (wp_ask append_only); [done..|]. intros _ root _.
    eapply wp_seq with (P' := append_only) (Q' := λ _, True); [|done..|].
    { apply (wp_ask append_only); [done..|]. intros _ [] _. by split. }
    intros _ _. eapply wp_seq with (P' := append_only) (Q' := λ _, True); [|done..|].
    { unfold on_parent. destruct (parent _); [by split|done]. }
    intros _ _. apply wp_lift; [done|]. intros out _. eapply wp_seq; [apply create_once_append|done..].
Qed.

Lemma next_revision_append identity purpose :
  wp append_only (λ _, True) (next_assignment_revision identity purpose).
Proof.
  unfold next_assignment_revision. apply wp_ask; [done..|]. intros _ [] _; cbn [negb]; [|done].
  apply wp_ask; [done..|]. intros _ entries _. eapply wp_seq with (P' := append_only) (Q' := λ _, True); [|done..].
  generalize 0. induction entries as [|entry entries IH]; intros m; [done|]. cbn [scan_assignments].
  eapply wp_seq with (P' := append_only) (Q' := λ _, True); [|done..|]; [|intros m' _; apply IH].
  unfold scan_assignment. apply wp_lift; [done|]. intros p _. destruct (negb _); [done|].
  apply wp_ask; [done..|]. intros _ text _. by apply wp_lift.
Qed.

(** Issuing a review overwrites and removes nothing, and the records it returns
    fit each other. *)
Theorem issue_sound workstream run_revision planning_manifest_bytes work_map_bytes :
  wp append_only (λ r, ∀ issue, r = Ok issue → issue_consistent issue)
    (issue_planning_review sha256 json_text utf8_lossy roster_debug failure_debug workstream run_revision
       planning_manifest_bytes work_map_bytes).
Proof.
  unfold issue_planning_review. eapply wp_seq; [apply for_workstream_append|done..|]. intros identity _.
  apply wp_lift; [done|]. intros roster _. apply wp_lift; [done|]. intros slot _. cbn zeta.
  apply wp_lift; [done|]. intros route _. destruct (_ || _); [done|].
  apply wp_lift; [done|]. intros subject _. eapply wp_seq; [apply next_revision_append|done..|]. intros revision _.
  eapply wp_seq; [apply publish_ref_wp|apply publishes_append|done|]. intros prompt_ref Hp. specialize (Hp _ eq_refl).
  apply wp_lift; [done|]. intros binding (Hb & E1 & E2 & E3 & _)%binding_sealed.
  apply wp_lift; [done|]. intros request_sha256 Hrq. apply wp_lift; [done|]. intros policy Hpo%policy_sealed.
  eapply wp_seq; [by apply (now_ms_wp append_only (λ _, True))|done..|]. intros issued_at _.
  apply wp_lift; [done|]. intros assignment_sha256 Has.
  eapply wp_seq; [apply publish_json_wp|apply publishes_append|done|]. intros assignment_ref Har.
  destruct (Har _ eq_refl) as (abytes & Hab & Ear).
  eapply wp_seq; [by apply (now_ms_wp append_only (λ _, True))|done..|]. intros now _.
  apply wp_lift; [done|]. intros action_sha256 Hac.
  eapply wp_seq; [apply publish_json_wp|apply publishes_append|done|]. intros action_ref Haf.
  destruct (Haf _ eq_refl) as (bytes & Hby & Eaf). intros issue [= <-].
  unfold issue_consistent. cbn [pi_action pi_assignment pi_prompt_ref pi_assignment_ref pi_action_ref].
  assert (∀ T (S : Serialize T) (x y : T) f h, canonical_sha256_self sha256 json_text x f = Ok h →
    remove_member f (value_of x) = remove_member f (value_of y) → sealed sha256 json_text y f h) as Hseal.
  { unfold sealed, canonical_sha256_self. by intros T S x y f h Hx <-. }
  split; [split_and!; [eapply Hseal; [exact Hac|reflexivity]|eapply Hseal; [exact Has|reflexivity]|
    eapply Hseal; [exact Hrq|reflexivity]|exact Hb|exact Hpo]|].
  split; [split_and!; done|]. split; [done|]. split; [by rewrite Hp|]. split.
  - rewrite Eaf. exact (action_ref_of _ _ Hby).
  - exists abytes. split; [done|]. by rewrite Ear.
Qed.
End Issue.

(** ** Admissible evidence gets in *)

(** Ids that are one name of a path. *)
Definition plain (part : string) : Prop :=
  lacks SLASH part ∧ lacks "\" part ∧ lacks (chr 0) part ∧ part ≠ "" ∧ part ≠ "." ∧ part ≠ "..".

Lemma plain_valid parts :
  parts ≠ [] → Forall plain parts → validate_relative_path (join "/" parts) = Ok tt.
Proof.
  intros Hne Hp. unfold validate_relative_path.
  assert (∀ c, Forall (lacks c) parts → c ≠ SLASH → lacks c (join "/" parts)) as Hl.
  { clear Hne Hp. intros c Hc Hs. induction Hc as [|p l Hp Hl IH]; [done|]. destruct l as [|q l]; [done|].
    change (join "/" (p :: q :: l)) with (p +:+ "/" +:+ join "/" (q :: l)). rewrite !lacks_app. split_and!; [done| |done].
    rewrite lacks_cons. by split. }
  assert (∃ p l, parts = p :: l ∧ p ≠ "" ∧ lacks SLASH p) as (p & l & E & Hp0 & Hps).
  { destruct parts as [|p l]; [done|]. apply Forall_cons in Hp as [(? & _ & _ & ? & _) _]. eauto. }
  assert (is_empty (join "/" parts) = false ∧ starts_with "/" (join "/" parts) = false) as [-> ->].
  { rewrite E. destruct p as [|a p]; [done|]. apply lacks_cons in Hps as [Ha _].
    unfold is_empty, starts_with. split; apply bool_decide_eq_false.
    - destruct l; cbn; done.
    - intros [r Hr%strip_prefix_spec]. apply Ha. by destruct l; injection Hr as -> _. }
  rewrite (proj2 (contains_char_lacks "\" _)) by (apply Hl; [|done]; eapply Forall_impl; [done|]; by intros ? (_ & ? & _)).
  rewrite (proj2 (contains_char_lacks (chr 0) _))
    by (apply Hl; [|done]; eapply Forall_impl; [done|]; by intros ? (_ & _ & ? & _)).
  cbn [orb]. change "/" with (String SLASH ""). rewrite split_join; [|done|eapply Forall_impl; [done|]; by intros ? (? & _)].
  apply for_each_ok. eapply Forall_impl; [done|]. intros q (_ & _ & _ & ? & ? & ?). unfold is_empty.
  by rewrite !bool_decide_false.
Qed.

Lemma plain_suffix id suffix :
  plain id → lacks SLASH suffix → lacks "\" suffix → lacks (chr 0) suffix → 2 < str_len suffix → plain (id +:+ suffix).
Proof.
  intros (H1 & H2 & H3 & _) ? ? ? Hlen. unfold plain. rewrite !lacks_app.
  assert (2 < str_len (id +:+ suffix)) as Hl by (unfold str_len in *; rewrite str_length_app; lia).
  split_and!; try done; intros E; by rewrite E in Hl.
Qed.

Lemma collect_total {E A B} (f : A → result E B) l :
  Forall (λ x, ∃ b, f x = Ok b) l → ∃ bs, collect_res f l = Ok bs.
Proof.
  induction 1 as [|x l [b Hb] _ [bs IH]]; [by exists []|]. exists (b :: bs). cbn. by rewrite Hb, IH.
Qed.

Lemma write_canonical_total json_text v :
  (∀ s, ∃ t, json_text s = Ok t) → ∃ t, write_canonical json_text v = Ok t.
Proof.
  intros Hj. induction v as [| | | |l IH|m IH] using Value_nested; cbn [write_canonical]; try by eexists.
  - apply Hj.
  - destruct (collect_total _ _ IH) as [bs ->]. by eexists.
  - match goal with |- context [collect_res ?f ?l] => destruct (collect_total f l) as [bs ->] end; [|by eexists].
    apply Forall_forall. intros x Hx%elem_of_sort_by. apply list_elem_of_fmap in Hx as ([k y] & -> & Hin).
    rewrite Forall_forall in IH. destruct (IH _ Hin) as [t Ht], (Hj k) as [kt Hk]. cbn in Ht. rewrite Hk. cbn.
    rewrite Ht. by eexists.
Qed.

Section Progress.
Context (sha256 : list Z → list Z) (json_text : string → result string string).
Context `{Deserialize Phase2PiTaskReportV1, Deserialize Phase2PiTaskAttestationV2}.
Context (action : AutopilotAttestedAction) (observation : HostToCoreAttestedTaskObservationPayload).
(** What files hold. *)
Context (content : path → string).

Let report_path := components (ob_report_source_path observation).
Let sidecar_path := components (ob_sidecar_source_path observation).

(** A regular file with one link, of any mode. *)
Definition regular (bytes : string) (m : metadata) : Prop :=
  md_symlink m = false ∧ md_file m = true ∧ md_nlink m = 1 ∧ md_len m = str_len bytes.

(** The file that a descriptor was last opened on. *)
Definition open_on (file : nat) (last : option path) (e : ioevent) : option path :=
  let 'Ev q a := e in
  match q return answer q → option path with
  | OpenRead p => λ a, match a with Ok h => if decide (h = file) then Some p else last | Err _ => last end
  | _ => λ _, last
  end a.
Definition last_opened (past : trace) (file : nat) : option path := fold_left (open_on file) past None.

(** The machine cooperates: the two sources are regular files with one link,
    which hold what [content] says when they are read and described through the
    descriptor they were opened with, no directory on the way is a link, the
    home directory is known, the clock is sane, and what is created is new and
    can be written. *)
Definition cooperates (past : trace) (q : request) : answer q → Prop :=
  match q return answer q → Prop with
  | SymlinkMeta p => λ a,
      (p = report_path ∨ p = sidecar_path → ∃ m, a = Ok m ∧ regular (content p) m) ∧
      match a with Ok m => md_symlink m = false | Err e => io_kind e = NotFound end
  | OpenRead _ => λ a, ∃ file, a = Ok file
  | ReadToEnd file => λ a, ∀ p, last_opened past file = Some p → a = Ok (content p)
  | HandleMeta file => λ a, ∀ p, last_opened past file = Some p → ∃ m, a = Ok m ∧ regular (content p) m
  | EnvVar _ => λ a, is_Some a
  | Now => λ a, ∃ ms, a = Some ms ∧ ms ≤ u64_max
  | CreateNew _ => λ a, ∃ file, a = Ok file
  | CreateDirAll _ | SetMode _ _ | SetHandleMode _ _ | WriteHandle _ _ | SyncHandle _ | SyncDir _ => λ a, a = Ok tt
  | _ => λ _, True
  end.

(** Where a producer may put a source: plain names below one of two
    directories. *)
Definition source_display (display : string) : Prop :=
  ∃ dir parts, (dir = "tasks" ∨ dir = "autopilot") ∧ parts ≠ [] ∧ Forall plain parts ∧
    display = join "/" (".pi" :: dir :: parts).

Lemma source_display_guards display :
  source_display display →
  is_absolute (components display) = false ∧ reject_path_components (components display) = Ok tt ∧
  starts_with ".pi/tasks/" display || starts_with ".pi/autopilot/" display = true.
Proof.
  intros (dir & parts & Hdir & Hne & Hp & ->).
  assert (Forall plain (".pi" :: dir :: parts)) as Hall.
  { destruct Hdir as [->| ->]; repeat (constructor; [by repeat split|]); done. }
  assert (components (join "/" (".pi" :: dir :: parts)) = map Normal (".pi" :: dir :: parts)) as Hc.
  { unfold components. change "/" with (String SLASH "").
    rewrite split_join; [|done|eapply Forall_impl; [exact Hall|]; by intros ? (? & _)].
    assert (∀ l, Forall plain l → l ≫= component_of = map Normal l) as Hm.
    { induction 1 as [|x l (_ & _ & _ & H1 & H2 & H3) _ IH]; [done|]. cbn. rewrite IH. unfold component_of, is_empty.
      by rewrite !bool_decide_false by done. }
    rewrite Hm by done. by destruct Hdir as [->| ->]. }
  rewrite Hc. split_and!; [done| |].
  - apply for_each_ok, Forall_fmap. eapply Forall_impl; [exact Hall|]. intros x (_ & _ & Hnul & _). cbn.
    rewrite (proj2 (contains_char_lacks (chr 0) _)) by done. done.
  - apply orb_true_iff. rewrite !starts_with_spec. destruct parts as [|x parts]; [done|].
    destruct Hdir as [->| ->]; [left|right]; by exists (join "/" (x :: parts)).
Qed.

Lemma ancestors_pass past current rest :
  wpa cooperates (λ r, ∃ x, r = Ok x ∧ True) past (link_ancestors_from current rest).
Proof.
  revert past current. induction rest as [|c rest IH]; intros past current; cbn; [by exists tt|].
  intros [m|e] (_ & Ha); [rewrite Ha; apply IH|]. rewrite bool_decide_true by done. apply IH.
Qed.

Lemma source_reads past display limit :
  source_display display → components display = report_path ∨ components display = sidecar_path →
  str_len (content (components display)) ≤ limit → str_len (content (components display)) ≤ u64_max →
  wpa cooperates (λ r, ∃ b, r = Ok b ∧ b = content (components display)) past (read_bound_source display limit).
Proof.
  intros (Habs & Hc & Hs)%source_display_guards Hpath Hl Hu. unfold read_bound_source. rewrite Habs.
  apply (wpa_lift _ _ _ _ _ tt); [done|]. rewrite Hs. cbn [negb].
  eapply wpa_seq; [apply ancestors_pass|]. intros t0 _ _.
  apply (wpa_ask _ (regular (content (components display)))).
  { intros a [Ha _]. destruct (Ha Hpath) as (m & -> & Hm). by exists m. }
  intros t1 m (H1 & H2 & H3 & H4). rewrite H1, H2, H3, H4. cbn [negb]. cbn [Z.eqb Pos.eqb negb].
  destruct (Z.ltb_spec limit (str_len (content (components display)))); [lia|].
  intros a [file ->]. cbn [map_err prog_bind mbind prog_mbind].
  set (past1 := (past ++ t0) ++ t1). set (ev1 := Ev (OpenRead (components display)) (Ok file)).
  assert (last_opened (past1 ++ [ev1]) file = Some (components display)) as Hopen.
  { unfold last_opened. rewrite fold_left_app. cbn. by rewrite decide_True. }
  intros b Hb. rewrite (Hb _ Hopen). clear b Hb. cbn [map_err prog_bind mbind prog_mbind].
  intros c Hm'. destruct (Hm' (components display)) as (m' & -> & _ & _ & _ & Hlen).
  { unfold last_opened in *. by rewrite fold_left_app, Hopen. }
  cbn [map_err prog_bind mbind prog_mbind]. rewrite Hlen, Z.eqb_refl. cbn [negb].
  destruct (Z.ltb_spec u64_max (str_len (content (components display)))); [lia|]. by eexists.
Qed.

Lemma publish_passes past root relative bytes kind :
  validate_relative_path relative = Ok tt →
  wpa cooperates (λ r, ∃ c, r = Ok c ∧ True) past (publish_ref sha256 root relative bytes kind).
Proof.
  intros Hv. unfold publish_ref. apply (wpa_lift _ _ _ _ _ tt); [done|].
  apply (wpa_seq _ (λ _, True)); [|intros ? _ _; by eexists]. unfold create_once_bytes.
  apply (wpa_seq _ (λ _, True)).
  { unfold on_parent. destruct (parent _); [|by eexists]. apply (wpa_ask _ (λ _, True)); [intros a ->; by eexists|].
    intros ? _ _ a ->. by eexists. }
  intros ? _ _ a [file ->]. apply (wpa_ask _ (λ _, True)); [intros a ->; by eexists|]. intros ? _ _.
  apply (wpa_ask _ (λ _, True)); [intros a ->; by eexists|]. intros ? _ _.
  apply (wpa_ask _ (λ _, True)); [intros a ->; by eexists|]. intros ? _ _.
  unfold on_parent. destruct (parent _); [|by eexists]. intros a ->. by eexists.
Qed.

Context (json_total : ∀ s, ∃ t, json_text s = Ok t).

Lemma canonical_total {T} `{Serialize T} (x : T) : ∃ t, canonical_json json_text x = Ok t.
Proof. destruct (write_canonical_total json_text (value_of x) json_total) as [t Ht]. exists t. unfold canonical_json. by rewrite Ht. Qed.

Lemma self_hash_total {T} `{Serialize T} (x : T) field : ∃ h, canonical_sha256_self sha256 json_text x field = Ok h.
Proof.
  destruct (write_canonical_total json_text (remove_member field (value_of x)) json_total) as [t Ht].
  exists (sha256_tag sha256 t). unfold canonical_sha256_self. by rewrite Ht.
Qed.

Lemma publish_json_passes {T} `{Serialize T} past root relative (x : T) kind :
  validate_relative_path relative = Ok tt →
  wpa cooperates (λ r, ∃ c, r = Ok c ∧ True) past (publish_json_ref sha256 json_text root relative x kind).
Proof.
  intros Hv. unfold publish_json_ref. destruct (canonical_total x) as [t Ht].
  apply (wpa_lift _ _ _ _ _ t); [done|]. by apply publish_passes.
Qed.

Lemma binding_passes past identity source :
  wpa cooperates (λ r, ∃ x, r = Ok x ∧ True) past
    (producer_binding sha256 json_text identity action observation source).
Proof.
  unfold producer_binding, action_content_ref. destruct (canonical_total action) as [t ->].
  eapply wpa_lift; [reflexivity|]. eapply wpa_lift; [reflexivity|]. eapply wpa_lift; [reflexivity|].
  apply (wpa_ask _ (λ _, True)).
  { intros a (ms & -> & Hms). exists ms. cbn. by destruct (Z.leb_spec ms u64_max); [|lia]. }
  intros ? at_ _. cbv zeta.
  match goal with |- context [canonical_sha256_self sha256 json_text ?x ?f] => destruct (self_hash_total x f) as [h ->] end.
  by eexists.
Qed.

(** The publications at the end of an ingress. *)
Lemma ingress_passes issue_event_ref binding_event_ref report sidecar :
  observed action observation →
  vetted sha256 json_text action observation (content report_path) (content sidecar_path) report sidecar →
  source_display (ob_report_source_path observation) → source_display (ob_sidecar_source_path observation) →
  plain (ac_assignment_id action) →
  wpa cooperates (λ r, ∃ e, r = Ok e ∧ ae_report e = report ∧ ae_sidecar e = sidecar) []
    (accept_attested_observation_inner sha256 json_text action issue_event_ref binding_event_ref observation).
Proof.
  intros (Hs & O1 & O2 & O3 & O4 & O5)
    ((_ & Hrl & Hrt & Hr) & (_ & Hsl & Hst & Hsc)) Hrd Hsd Hid.
  unfold accept_attested_observation_inner. rewrite Hs, O1, O2, O3, O4, O5, !bool_decide_true, !Z.eqb_refl by done.
  cbn [negb orb sp_report_path sp_sidecar_path].
  eapply wpa_seq; [apply (source_reads _ _ _ Hrd); [by left|exact Hrl|]|].
  { etrans; [exact Hrl|]. unfold REPORT_LIMIT, u64_max. lia. }
  intros ? rb ->. eapply wpa_seq; [apply (source_reads _ _ _ Hsd); [by right|exact Hsl|]|].
  { etrans; [exact Hsl|]. unfold SIDECAR_LIMIT, u64_max. lia. }
  intros ? sb ->. fold report_path sidecar_path. apply (wpa_lift _ _ _ _ _ report); [by rewrite Hrt|]. apply (wpa_lift _ _ _ _ _ sidecar); [by rewrite Hst|].
  apply (wpa_lift _ _ _ _ _ tt); [by apply report_exact|]. apply (wpa_lift _ _ _ _ _ tt); [by apply sidecar_exact|].
  apply (wpa_seq _ (λ _, True)).
  { apply (wpa_ask _ (λ _, True)); [intros a [home ->]; by eexists|]. intros ? root _. by eexists. }
  intros ? identity _. eapply wpa_seq; [apply binding_passes|]. intros ? pb _. cbv zeta.
  assert (∀ c, plain c → plain (c +:+ ".json") ∧ plain (c +:+ ".acceptance.v1.json")) as Hsuf.
  { intros c Hc. split; by apply plain_suffix. }
  destruct (Hsuf _ Hid) as [Hjson Hacc]. set (id := ac_assignment_id action) in *.
  eapply wpa_seq; [apply publish_json_passes|intros ? binding_ref _].
  { apply (plain_valid ["evidence"; "bindings"; id +:+ ".json"]); [done|]. repeat constructor; try done; apply Hjson. }
  eapply wpa_seq; [apply publish_passes|intros ? report_ref _].
  { apply (plain_valid ["evidence"; "imports"; id; "report.v1.json"]); [done|]. repeat constructor; try done; apply Hid. }
  eapply wpa_seq; [apply publish_passes|intros ? sidecar_ref _].
  { apply (plain_valid ["evidence"; "imports"; id; "producer-attestation.v2.json"]); [done|].
    repeat constructor; try done; apply Hid. }
  unfold conflict_check. match goal with |- context [canonical_sha256_self sha256 json_text ?x ?f] =>
    destruct (self_hash_total x f) as [h ->] end.
  eapply wpa_lift; [reflexivity|]. unfold acceptance_receipt, action_content_ref.
  destruct (canonical_total action) as [text ->]. cbn [mbind result_mbind result_bind].
  match goal with |- context [canonical_sha256_self sha256 json_text ?x ?f] =>
    destruct (self_hash_total x f) as [h' ->] end.
  eapply wpa_lift; [reflexivity|]. eapply wpa_seq; [apply publish_json_passes|intros ? receipt_ref _; by eexists].
  apply (plain_valid ["evidence"; "receipts"; id +:+ ".acceptance.v1.json"]); [done|]. repeat constructor; try done; apply Hacc.
Qed.

(** C40. The evidence of a completed run is accepted.  Let an observation report
    the completion of an action whose assignment id is one plain name; let its
    two source files lie, by plain names, below [.pi/tasks] or
    [.pi/autopilot], and hold a report and a sidecar that are within the limits
    and admissible, the sidecar's prompt hash being that of the prompt the
    action asked for.  Then every run of the ingress in which the machine
    cooperates (whatever descriptors it hands out) returns, and returns
    accepted evidence with this report and this sidecar. *)
Theorem admissible_evidence_accepted issue_event_ref binding_event_ref report sidecar t r :
  observed action observation →
  vetted sha256 json_text action observation (content report_path) (content sidecar_path) report sidecar →
  ab_sha256 (af_prompt (sc_artifacts sidecar)) = sha256_tag sha256 (rq_prompt_utf8 (ac_producer_request action)) →
  source_display (ob_report_source_path observation) → source_display (ob_sidecar_source_path observation) →
  plain (ac_assignment_id action) →
  exec (accept_attested_observation_inner sha256 json_text action issue_event_ref binding_event_ref observation) t r →
  answered_as cooperates [] t →
  ∃ e, r = Ok e ∧ ae_report e = report ∧ ae_sidecar e = sidecar.
Proof.
  intros Ho Hv _ Hrd Hsd Hid He Ht.
  by eapply (wpa_exec _ _ _ _ _ _ (ingress_passes issue_event_ref binding_event_ref _ _ Ho Hv Hrd Hsd Hid)).
Qed.
End Progress.

(** ** Closing *)

Section Close.
Context (sha256 : list Z → list Z) (json_text : string → result string string).

#[global] Instance member_order_total : TotalCmp member_order.
Proof. unfold member_order. typeclasses eauto. Qed.

(** The envelope of a review lists its assignment and its receipt, in order,
    is sealed and is written once, below the run directory. *)
Theorem envelope_sound action receipt_ref through_sequence event_prefix_bytes :
  let binding := rq_consumer_binding (ac_producer_request action) in
  wp (λ q, q = EnvVar "HOME" ∨ q = Now ∨
        ∃ home, publishes (run_root home (cb_repo_key binding) (cb_run_id binding)) q)
    (λ r, ∀ m ref, r = Ok (m, ref) →
       sealed sha256 json_text m "manifest_sha256" (em_manifest_sha256 m) ∧
       em_members m ≡ₚ [ac_assignment_ref action; receipt_ref] ∧
       StronglySorted (cmp_le member_order) (em_members m) ∧
       em_active_acceptance_receipt_refs m = [receipt_ref] ∧
       em_subject_digest m = cb_subject_digest binding ∧
       em_closed_through_event_sequence m = through_sequence ∧
       em_event_prefix_sha256 m = sha256_tag sha256 event_prefix_bytes ∧
       ∃ bytes, canonical_json json_text m = Ok bytes ∧
         ref = content_ref sha256 "evidence/envelopes/planning.revision-1.manifest.v1.json" bytes EnvelopeManifest)
    (close_planning_envelope sha256 json_text action receipt_ref through_sequence event_prefix_bytes).
Proof.
  intros binding. unfold close_planning_envelope. set (P := λ q, _ ∨ _).
  eapply wp_seq; [apply action_identity_wp with (P := P)
      (Q := λ r, ∀ i, r = Ok i → ∃ home, ei_run_root i = run_root home (cb_repo_key binding) (cb_run_id binding))
    |done|done|]; [by left|done|naive_solver|].
  intros identity Hroot. destruct (Hroot identity eq_refl) as [home Eroot].
  eapply wp_seq; [by apply (now_ms_wp P (λ _, True)); [right; left|]|done..|]. intros now _.
  apply wp_lift; [done|]. intros hash Hh. cbv zeta.
  eapply wp_seq; [apply publish_json_wp| |done|].
  { intros q Hq. right; right. exists home. by rewrite <- Eroot. }
  intros ref0 Href. destruct (Href _ eq_refl) as (bytes & Hb & Eref). intros m ref Heq.
  apply (f_equal (λ r : result EvidenceError _, match r with Ok x => x | Err _ => (m, ref) end)) in Heq.
  cbv beta iota in Heq. apply pair_equal_spec in Heq as [<- <-].
  split_and!; [|apply sort_by_perm|apply sort_by_sorted, member_order_total|done..|by exists bytes].
  unfold sealed. cbn [em_manifest_sha256]. rewrite <- Hh. reflexivity.
Qed.
End Close.

(** ** A review, end to end *)

Module Sample.
Definition sum_hash (bytes : list Z) : list Z := [fold_left Z.add bytes 0 mod 256].
Definition quoted (s : string) : result string string := Ok (String (chr 34) s +:+ String (chr 34) "").
Definition hash_of (r : result EvidenceError string) : string := match r with Ok h => h | Err _ => "" end.

Definition consumer : Phase2PiConsumerBinding := {|
  cb_schema_version := CONSUMER_BINDING_SCHEMA; cb_consumer := "pi-autopilot"; cb_run_id := "run-1";
  cb_repo_key := "repo"; cb_workstream := "ws"; cb_purpose_id := PURPOSE_PLANNING_REVIEW; cb_action_id := "eva-1";
  cb_assignment_id := "evi-1"; cb_assignment_revision := 1; cb_run_revision := 7;
  cb_boundary_id := "planning.plan-review.v1"; cb_subject_digest := "sha256:aa"; cb_binding_sha256 := "sha256:bb" |}.
Definition run_request : Phase2PiAttestedRunRequest := {|
  rq_schema_version := REQUEST_SCHEMA; rq_name := "review"; rq_provider := PROVIDER; rq_model := "gpt-5.5";
  rq_thinking := "high"; rq_system_prompt_utf8 := SYSTEM_PROMPT; rq_prompt_utf8 := "Review.";
  rq_report_path := ".pi/autopilot/ws/evidence-staging/evi-1.report.v1.json"; rq_timeout_seconds := TIMEOUT_SECONDS;
  rq_idempotency_key := "evidence-issue:v1:evi-1"; rq_consumer_binding := consumer; rq_request_sha256 := "sha256:cc" |}.
Definition action : AutopilotAttestedAction := {|
  ac_schema_version := ACTION_SCHEMA; ac_action_id := "eva-1"; ac_assignment_id := "evi-1";
  ac_assignment_revision := 1; ac_run_revision := 7;
  ac_assignment_ref := content_ref sum_hash "evidence/assignments/evi-1.json" "{}" AssignmentContent;
  ac_producer_request := run_request; ac_expires_at_unix_ms := "9"; ac_supersession_state := "live";
  ac_action_sha256 := "sha256:dd" |}.
Definition observation : HostToCoreAttestedTaskObservationPayload := {|
  ob_action_id := "eva-1"; ob_assignment_id := "evi-1"; ob_assignment_revision := 1; ob_run_revision := 7;
  ob_producer_task_id := "task-1"; ob_producer_request_sha256 := "sha256:cc"; ob_status := "completed";
  ob_report_source_path := ".pi/tasks/report.json"; ob_sidecar_source_path := ".pi/tasks/sidecar.json" |}.
Definition report_with (hash : string) : Phase2PiTaskReportV1 := {|
  rp_schema_version := "phase2.pi_task_report.v1"; rp_consumer_binding := expected_binding action;
  rp_producer_task_id := "task-1"; rp_payload_utf8 := "PASS"; rp_payload_sha256 := sha256_tag sum_hash "PASS";
  rp_report_sha256 := hash |}.
Definition report : Phase2PiTaskReportV1 :=
  report_with (hash_of (canonical_sha256_self sum_hash quoted (report_with "") "report_sha256")).
Definition artifact (text : string) : Phase2ArtifactBytes :=
  {| ab_byte_length := str_len text; ab_sha256 := sha256_tag sum_hash text |}.
Definition sidecar_with (hash : string) : Phase2PiTaskAttestationV2 := {|
  sc_schema_version := "phase2.pi_task_attestation.v2"; sc_producer_request_sha256 := "sha256:cc";
  sc_consumer_binding := expected_binding action;
  sc_locator := {| lo_session_dir := "s"; lo_task_id := "task-1"; lo_metadata_ref := "m"; lo_output_ref := "o";
    lo_events_ref := "e"; lo_stderr_ref := "r"; lo_wrapper_ref := "w"; lo_report_ref := "p" |};
  sc_source_hashes := {| sh_metadata_sha256 := ""; sh_output_sha256 := ""; sh_events_sha256 := "";
    sh_stderr_sha256 := ""; sh_wrapper_sha256 := ""; sh_report_sha256 := rp_report_sha256 report |};
  sc_lifecycle := {| li_status := "completed"; li_is_agent := true; li_start_time_ms := 1; li_end_time_ms := 2;
    li_exit_code := 0; li_signal := "none"; li_bytes_written := 4 |};
  sc_invocation := {| iv_pi_session_id := "session"; iv_argv := []; iv_cwd_realpath := "/repo"; iv_provider := PROVIDER;
    iv_model_id := "gpt-5.5"; iv_provider_scoped_model_id := "gpt-5.5"; iv_api_identity := "codex";
    iv_auth_class := AUTH_CLASS; iv_credential_kind := CREDENTIAL_KIND; iv_route_class := ROUTE_CLASS;
    iv_channel := CHANNEL; iv_direct_api_key := false; iv_final_stop_reason := "stop" |};
  sc_authority := {| au_repo_root_realpath := "/repo"; au_start_commit_oid := "c"; au_start_tree_oid := "t";
    au_finish_commit_oid := "c"; au_finish_tree_oid := "t"; au_start_status_byte_length := 0;
    au_start_status_sha256 := ""; au_finish_status_byte_length := 0; au_finish_status_sha256 := "";
    au_status_unchanged := true |};
  sc_artifacts := {| af_prompt := artifact "Review."; af_system_prompt := artifact SYSTEM_PROMPT;
    af_task_output := artifact ""; af_stderr := artifact ""; af_transcript := artifact "";
    af_report := {| ra_ref := "p"; ra_byte_length := 4; ra_sha256 := rp_report_sha256 report |} |};
  sc_usage := None; sc_attestation_sha256 := hash |}.
Definition sidecar : Phase2PiTaskAttestationV2 :=
  sidecar_with (hash_of (canonical_sha256_self sum_hash quoted (sidecar_with "") "attestation_sha256")).

(** Decoders of the two files. *)
#[local] Instance decode_report : Deserialize Phase2PiTaskReportV1 :=
  λ text, if text =s "report" then Ok report else Err "syntax".
#[local] Instance decode_sidecar : Deserialize Phase2PiTaskAttestationV2 :=
  λ text, if text =s "sidecar" then Ok sidecar else Err "syntax".

(** A machine that hands out the same descriptor each time: its state is the
    file that is open. *)
Definition content (p : path) : string :=
  if p =s components ".pi/tasks/report.json" then "report" else "sidecar".
Definition meta (p : path) : metadata :=
  {| md_symlink := false; md_file := true; md_dir := false; md_nlink := 1; md_len := str_len (content p); md_mode := 384 |}.
Definition machine : handler path := λ w q,
  match q return path * answer q with
  | SymlinkMeta p =>
      (w, if (p =s components ".pi/tasks/report.json") || (p =s components ".pi/tasks/sidecar.json") then Ok (meta p)
          else Err {| io_kind := NotFound; io_message := "" |})
  | OpenRead p => (p, Ok 3%nat)
  | ReadToEnd file => (w, Ok (content w))
  | HandleMeta file => (w, Ok (meta w))
  | EnvVar _ => (w, Some "/home/user")
  | Now => (w, Some 5)
  | CreateNew _ => (w, Ok 3%nat)
  | CreateDirAll _ => (w, Ok tt) | SetMode _ _ => (w, Ok tt) | SetHandleMode _ _ => (w, Ok tt)
  | WriteHandle _ _ => (w, Ok tt) | SyncHandle _ => (w, Ok tt) | SyncDir _ => (w, Ok tt)
  | other => (w, refuse other)
  end.

Definition event : AutopilotEventRef :=
  {| er_schema_version := "v1"; er_sequence := 1; er_kind := "issued"; er_row_sha256 := "" |}.

Lemma meta_regular p : regular (content p) (meta p).
Proof. by repeat split. Qed.

(** What the machine keeps: whatever is open is its state. *)
Definition tracks (past : trace) (w : path) : Prop :=
  ∀ file p, last_opened past file = Some p → file = 3%nat ∧ p = w.

Lemma machine_cooperates past w q : tracks past w →
  cooperates observation content past q (machine w q).2 ∧ tracks (past ++ [Ev q (machine w q).2]) (machine w q).1.
Proof.
  intros Hw. split.
  - destruct q; cbn -[components]; try done; try by eexists.
    + split.
      * intros [->| ->]; (eexists; split; [|apply meta_regular]).
        -- by rewrite (bool_decide_true (components _ = components ".pi/tasks/report.json")).
        -- by rewrite orb_comm, (bool_decide_true (components _ = components ".pi/tasks/sidecar.json")).
      * by destruct (_ || _).
    + by intros p [_ ->]%Hw.
    + intros p [_ ->]%Hw. eexists. split; [done|apply meta_regular].
  - intros file p. unfold last_opened. rewrite fold_left_app. cbn [fold_left].
    destruct q; cbn -[components]; try apply Hw. case_decide as Hf; [by intros [= <-]|].
    intros [-> _]%Hw. done.
Qed.

Lemma admissible_evidence_accepted_witness :
  ∃ e, (run machine [] (accept_attested_observation_inner sum_hash quoted action event event observation)).2 = Ok e ∧
    ae_report e = report ∧ ae_sidecar e = sidecar.
Proof.
  destruct (answered_run machine (cooperates observation content) tracks [] []
    (accept_attested_observation_inner sum_hash quoted action event event observation)) as (t & He & Ht).
  - intros past w q. apply machine_cooperates.
  - by intros file p [=].
  - assert (∀ name, plain name → source_display (".pi/tasks/" +:+ name)) as Hdisplay.
    { intros name Hn. exists "tasks", [name]. split_and!; [by left|done|by apply Forall_singleton|done]. }
    apply (admissible_evidence_accepted sum_hash quoted action observation content (λ s, ex_intro _ _ eq_refl)
             event event report sidecar t).
    + by repeat split.
    + split; (split; [eapply source_path_intro; reflexivity|]; split; [done|]; split; [reflexivity|]).
      * apply (report_exact sum_hash quoted action observation report "report"). vm_compute. reflexivity.
      * apply (sidecar_exact sum_hash quoted action observation report sidecar "sidecar"). vm_compute. reflexivity.
    + reflexivity.
    + apply (Hdisplay "report.json"). by repeat split.
    + apply (Hdisplay "sidecar.json"). by repeat split.
    + by repeat split.
    + exact He.
    + exact Ht.
Defined.

(** Two references with the same action, one, and none. *)
#[local] Instance decode_action : Deserialize AutopilotAttestedAction :=
  λ text, if text =s "action" then Ok action else Err "syntax".
Example find_action_cases :
  find_action_from_refs ["attested-action-json:action"; "evidence-ref:x"] "eva-1" "evi-1" = Ok action ∧
  find_action_from_refs ["attested-action-json:action"; "attested-action-json:action"] "eva-1" "evi-1" =
    Err BindingConflict ∧
  find_action_from_refs ["attested-action-json:other"] "eva-1" "evi-1" = Err MissingAssignment.
Proof. vm_compute. auto. Qed.

(** An assignment on disk makes the next revision the one after it. *)
Definition assignment (revision : Z) : AutopilotAttestedAssignment := {|
  at_schema_version := ASSIGNMENT_SCHEMA; at_run_id := "run-1"; at_repo_key := "repo"; at_workstream := "ws";
  at_purpose_id := PURPOSE_PLANNING_REVIEW; at_assignment_id := "evi-1"; at_assignment_revision := revision;
  at_run_revision := 7; at_action_id := "eva-1"; at_issue_idempotency_key := ""; at_import_idempotency_key := "";
  at_subject_digest := "sha256:aa"; at_boundary_id := ""; at_provider := PROVIDER; at_model := "gpt-5.5";
  at_thinking := "high"; at_required_channel := CHANNEL;
  at_prompt_ref := content_ref sum_hash "prompts/evidence/evi-1.md" "Review." PromptContent;
  at_system_prompt_sha256 := ""; at_report_staging_path := ""; at_producer_request_sha256 := "sha256:cc";
  at_conflict_policy := {| po_schema_version := ""; po_distinct_from_receipt_refs := [];
    po_forbid_same_assignment := true; po_forbid_same_action := true; po_forbid_same_session := true;
    po_require_subject_current := true; po_policy_sha256 := "" |};
  at_issued_at_unix_ms := "1"; at_supersedes_assignment_id := None; at_assignment_sha256 := "" |}.
#[local] Instance decode_assignment : Deserialize AutopilotAttestedAssignment :=
  λ text, if text =s "four" then Ok (assignment 4) else Err "syntax".

Definition identity : EvidenceIdentity :=
  {| ei_repo_key := "repo"; ei_run_id := "run-1"; ei_workstream := "ws"; ei_run_root := components "/runs/run-1" |}.
Definition entries : list (result io_error path) := [Ok (components "a.json"); Ok (components "notes.md")].
Definition disk (p : path) : result io_error string :=
  if p =s components "a.json" then Ok "four" else Err {| io_kind := NotFound; io_message := "" |}.

Lemma next_revision_fresh_witness :
  (run (reader (Ok entries) disk) tt (next_assignment_revision identity PURPOSE_PLANNING_REVIEW)).2 = Ok 5 ∧
  ∀ r, revision_on_disk entries disk PURPOSE_PLANNING_REVIEW r → r < 5.
Proof.
  split; [vm_compute; reflexivity|].
  apply (next_revision_fresh identity PURPOSE_PLANNING_REVIEW entries disk 5). vm_compute. reflexivity.
Defined.
End Sample.
