(* ===== verification/Transcript.v ===== *)
(** * Transcripts

    [drivers/src/transcript/mod.rs]: the modes of boundaries, and recorded
    outputs of models per boundary, kept in one file below the store's root.
    What serde writes and reads of a set of records is a parameter. *)

From S2P Require Import Prelude RustColl RustStr Paths Os Failure Boundary Control Roles.

Inductive TranscriptError :=
| BadMode (what : string)
| MissingMode (id : string)
| Regression (id : string)
| BadId (id : string)
| TrIo (what : string)
| TrJson (what : string)
| BadProvenance (id : string).

Record BoundaryModeTable := { rows : list (string * BoundaryMode) }.

Definition check_id (id : string) : result TranscriptError unit :=
  if negb (blank id) && str_all (λ ch, is_ascii_alphanumeric ch || (ch =s "."%char) || (ch =s "-"%char) || (ch =s "_"%char)) id
  then Ok tt else Err (BadId id).

Definition parse_mode (id attrs : string) : result TranscriptError BoundaryMode :=
  match attr attrs "mode=" with
  | Some mode =>
      if mode =s "record" then Ok Record_
      else if mode =s "enforce" then Ok Enforce
      else Err (BadMode (id +:+ ":" +:+ mode))
  | None => Err (MissingMode id)
  end.

(** One line of [BoundaryModeTable::parse] *)
Definition mode_row (acc : list (string * BoundaryMode)) (line : string)
  : result TranscriptError (list (string * BoundaryMode)) :=
  let trimmed := trim line in
  match strip_prefix ("boundary " +:+ String DQUOTE "") trimmed with
  | None => Ok acc
  | Some after =>
      match split_once (String DQUOTE "") after with
      | None => Err (BadId trimmed)
      | Some (id, attrs) =>
          _ ← check_id id;
          mode ← parse_mode id attrs;
          Ok (acc ++ [(id, mode)])
      end
  end.
Definition parse_modes (text : string) : result TranscriptError BoundaryModeTable :=
  rs ← fold_res mode_row [] (lines text); Ok {| rows := rs |}.

(** [BoundaryModeTable::mode] *)
Definition table_mode (t : BoundaryModeTable) (id : string) : result TranscriptError BoundaryMode :=
  ok_or (snd <$> find_first (λ row, row.1 =s id) (rows t)) (MissingMode id).

Definition assert_one_way (t next : BoundaryModeTable) : result TranscriptError unit :=
  for_each (λ '(id, mode),
    if mode =s Enforce then
      m ← table_mode next id;
      if m =s Record_ then Err (Regression id) else Ok tt
    else Ok tt) (rows t).

Record TranscriptProvenance := { tp_provider : string; tp_model : string; tp_thinking : string; tp_session_id : string }.
Record TranscriptRecord := {
  tr_schema : string; tr_boundary_id : string; tr_raw_output : string; tr_provenance : option TranscriptProvenance }.

(** [TranscriptRecord::real] *)
Definition real_record (boundary_id raw_output : string) (provenance : TranscriptProvenance) : TranscriptRecord :=
  {| tr_schema := "autopilot.transcript.v1"; tr_boundary_id := boundary_id; tr_raw_output := raw_output;
     tr_provenance := Some provenance |}.

Definition validate_real (r : TranscriptRecord) : result TranscriptError unit :=
  match tr_provenance r with
  | None => Err (BadProvenance (tr_boundary_id r))
  | Some p =>
      if (tr_schema r =s "autopilot.transcript.v1") && negb (blank (tp_provider p)) && negb (blank (tp_model p))
         && negb (blank (tp_thinking p)) && negb (blank (tp_session_id p))
      then Ok tt else Err (BadProvenance (tr_boundary_id r))
  end.

Definition replay_record (r : TranscriptRecord) : result TranscriptError string :=
  _ ← validate_real r; Ok (tr_raw_output r).

Record TranscriptSet := { records : list TranscriptRecord }.
Record TranscriptStore := { ts_root : path }.

Definition map_io (e : io_error) : TranscriptError := TrIo (io_message e).

Section Store.
(** [serde_json::from_str] and [to_vec_pretty] of a set *)
Context (set_from_text : string → result string TranscriptSet) (set_to_text : TranscriptSet → result string string).

Definition boundary_dir (self : TranscriptStore) (boundary_id : string) : result TranscriptError path :=
  _ ← check_id boundary_id; Ok (path_join (ts_root self) (components boundary_id)).

Definition set_file (dir : path) : path := path_join dir (components "transcripts.json").

Definition read_set (dir : path) : prog TranscriptError TranscriptSet :=
  Call (ReadFile (set_file dir)) (λ a, Ret
    match a with
    | Ok text => map_err TrJson (set_from_text text)
    | Err error => if io_kind error =s NotFound then Ok {| records := [] |} else Err (map_io error)
    end).

Definition record (self : TranscriptStore) (r : TranscriptRecord) : prog TranscriptError unit :=
  _ ← Ret (validate_real r);
  _ ← Ret (check_id (tr_boundary_id r));
  _ ← Ret (match tr_provenance r with Some p => check_id (tp_session_id p) | None => Ok tt end);
  dir ← Ret (boundary_dir self (tr_boundary_id r));
  _ ← create_dir_all map_io dir;
  set ← read_set dir;
  bytes ← Ret (map_err TrJson (set_to_text {| records := records set ++ [r] |}));
  write_file map_io (set_file dir) bytes.

Definition load_boundary (self : TranscriptStore) (boundary_id : string)
  : prog TranscriptError (list TranscriptRecord) :=
  _ ← Ret (check_id boundary_id);
  dir ← Ret (boundary_dir self boundary_id);
  set ← read_set dir;
  _ ← Ret (for_each (λ r,
        if negb (tr_boundary_id r =s boundary_id) then Err (BadProvenance (tr_boundary_id r))
        else validate_real r) (records set));
  Ret (Ok (records set)).
End Store.

(** ** One way *)

(** Both tables name a boundary once when parsed from a file that does. *)
Definition mode_of (t : BoundaryModeTable) (id : string) : option BoundaryMode :=
  snd <$> find_first (λ row, row.1 =s id) (rows t).

(** A table may follow another just when every row that enforces is still there
    and still enforces; the modes of two successive steps compose when each
    boundary has one row. *)
Theorem one_way_exact t next u :
  assert_one_way t next = Ok u ↔ ∀ id, (id, Enforce) ∈ rows t → mode_of next id = Some Enforce.
Proof.
  unfold assert_one_way. rewrite for_each_ok, Forall_forall. split.
  - intros H id Hin. specialize (H _ Hin). cbn in H. unfold table_mode in H. unfold mode_of.
    destruct (snd <$> find_first _ (rows next)) as [[]|]; by cbn in H.
  - intros H [id mode] Hin. cbn. case_bool_decide as E; [|done]. subst mode. specialize (H id Hin). unfold table_mode.
    unfold mode_of in H. by rewrite H.
Qed.

(** ** Where transcripts go *)

Lemma check_id_plain id :
  check_id id = Ok tt → lacks SLASH id ∧ id ≠ "".
Proof.
  unfold check_id. destruct (_ && _) eqn:E; [|done]. intros _. to_prop. split.
  - unfold lacks, str_all in *. rewrite forallb_forall in *. intros a Ha. specialize (H0 a Ha).
    apply negb_true_iff, bool_decide_eq_false. intros ->. by vm_compute in H0.
  - intros ->. by vm_compute in H.
Qed.

(** A record goes to the file of its boundary, directly below the root, for
    every id but the two that name directories already: ["."] gives the root
    itself and [".."] the directory above it. *)
Theorem record_confined root id dir :
  is_absolute root = true → boundary_dir {| ts_root := root |} id = Ok dir →
  (id ≠ "." ∧ id ≠ ".." → dir = root ++ [Normal id]) ∧ (id = "." → dir = root) ∧ (id = ".." → dir = root ++ [ParentDir]).
Proof.
  unfold boundary_dir. intros Hroot ([] & Hid & Heq)%bind_ok. injection Heq as <-.
  apply check_id_plain in Hid as [Hl Hne]. cbn. destruct root as [|[] root]; try done. split_and!.
  - intros [H1 H2]. unfold components. rewrite (split_char_no_sep SLASH id Hl). cbn. rewrite bool_decide_false by done.
    unfold component_of, is_empty. rewrite !bool_decide_false by done.
    replace (starts_with "/" id) with false; [done|]. symmetry. apply not_true_is_false.
    intros [r ->]%starts_with_spec. by apply lacks_cons in Hl as [? _].
  - intros ->. change (components ".") with [CurDir]. unfold path_join. cbn [is_absolute].
    rewrite filter_cons_False by naive_solver. by rewrite filter_nil, app_nil_r.
  - by intros ->.
Qed.

(** The id [".."] passes every check of [record], which then writes outside
    the store. *)
Theorem record_escapes set_from_text set_to_text provider text :
  let r := real_record ".." text {| tp_provider := provider; tp_model := "m"; tp_thinking := "t"; tp_session_id := "s" |} in
  blank provider = false →
  (∀ s, ∃ bytes, set_to_text s = Ok bytes) →
  ∃ p bytes, WriteFile p bytes ∈
    (run (λ (w : unit) q, (w, match q return answer q with
                              | CreateDirAll _ => Ok tt
                              | WriteFile _ _ => Ok tt
                              | ReadFile _ => Err {| io_kind := NotFound; io_message := "" |}
                              | other => refuse other
                              end)) tt
       (record set_from_text set_to_text {| ts_root := components "/store/transcripts" |} r)).1.2 ∧
    resolve p = ["store"; "transcripts.json"].
Proof.
  intros r Hp Htext. destruct (Htext {| records := [r] |}) as [bytes Hb]. unfold record.
  assert (validate_real r = Ok tt) as -> by (unfold validate_real, r; cbn -[blank]; by rewrite Hp).
  assert (check_id (tr_boundary_id r) = Ok tt) as -> by by vm_compute.
  assert (match tr_provenance r with Some p => check_id (tp_session_id p) | None => Ok tt end = Ok tt) as ->
    by by vm_compute.
  assert (boundary_dir {| ts_root := components "/store/transcripts" |} (tr_boundary_id r) =
    Ok (components "/store/transcripts/..")) as -> by by vm_compute.
  subst r. cbn -[components path_join resolve real_record] in *.
  rewrite bool_decide_true by done. cbn -[components path_join resolve real_record]. rewrite Hb.
  cbn -[components path_join resolve]. eexists (set_file (components "/store/transcripts/..")), bytes.
  split; [|by vm_compute]. do 2 apply list_elem_of_further. apply list_elem_of_here.
Qed.

Lemma record_escapes_witness :
  ∃ p bytes, WriteFile p bytes ∈
    (run (λ (w : unit) q, (w, match q return answer q with
                              | CreateDirAll _ => Ok tt
                              | WriteFile _ _ => Ok tt
                              | ReadFile _ => Err {| io_kind := NotFound; io_message := "" |}
                              | other => refuse other
                              end)) tt
       (record (λ _, Err "syntax") (λ _, Ok "{}") {| ts_root := components "/store/transcripts" |}
          (real_record ".." "out" {| tp_provider := "p"; tp_model := "m"; tp_thinking := "t"; tp_session_id := "s" |}))).1.2 ∧
    resolve p = ["store"; "transcripts.json"].
Proof.
  apply (record_escapes (λ _, Err "syntax") (λ _, Ok "{}") "p" "out"); [vm_compute; reflexivity|].
  intros s. by exists "{}".
Defined.
