(* ===== verification/Planning.v ===== *)
(** * Planning: policy, waves and assignments

    [drivers/src/planning/mod.rs], the first half: the policy of the package is
    read from its data, gives every role its numbered assignments, and orders
    them in waves; [next_planning_wave] decides from the recorded references
    what to launch next.  The texts of errors that the standard library or
    [{:?}] write are parameters. *)

From S2P Require Import Prelude RustColl RustStr Paths Failure Boundary Control Graph Roles.

(** Shipped data; the double quote is written as a back quote. *)
Definition PLANNING_KDL : string := kdl
"schema `autopilot.planning.v1`
version 1

assignment_cap default=27 reserved_resolution=3 scout_compiler_first_pass=10
planning_wave_cap default=7
planning_launch_attempts max=1
assignment_role `task-extractor` count=7 mode=`inventory` boundary=`planning.task-atoms.v1` atom_namespace=`TE`
assignment_role `repository-scout` count=5 mode=`initial-grounding` boundary=`planning.scout-dossier.v1`
assignment_role `plan-compiler` count=5 mode=`initial-plan` boundary=`planning.work-map.v2`
assignment_role `context-curator` count=1 mode=`planning-context` boundary=`planning.scout-dossier.v1`
assignment_role `plan-synthesizer` count=2 mode=`initial-plan` boundary=`planning.work-map.v2`
assignment_role `plan-reviewer` count=2 mode=`full-review` boundary=`planning.plan-review.v1`
assignment_role `recovery-engineer` count=1 mode=`planning-repair` boundary=`planning.work-map.v2`
assignment_role `contradiction-resolver` count=3 mode=`fact-resolution` boundary=`planning.questions.v1`
planning_wave `P1.extract` role=`task-extractor`
planning_wave `P2.scout` role=`repository-scout` depends=`P1.extract`
planning_wave `P2.curate` role=`context-curator` depends=`P2.scout`
planning_wave `P3.resolve` role=`contradiction-resolver` depends=`P2.curate` activation_ref=`planning-resolution-required`
planning_wave `P4.compile` role=`plan-compiler` depends=`P1.extract,P2.curate,P3.resolve`
planning_wave `P4.synth-1` role=`plan-synthesizer` ordinals=`1` depends=`P4.compile`
planning_wave `P4.synth-2` role=`plan-synthesizer` ordinals=`2` depends=`P4.compile,P4.synth-1` canonical_output=#true
planning_wave `P5.review` role=`plan-reviewer` ordinals=`1` depends=`P4.synth-2`
planning_wave `P5.repair` role=`recovery-engineer` depends=`P5.review` activation_ref=`planning-recovery-required` canonical_output=#true
planning_wave `P5.rereview` role=`plan-reviewer` ordinals=`2` depends=`P5.repair` activation_ref=`planning-rereview-required`
review full_passes=2 delta_passes=0 wording_style=`advisory`

question_gate {
  class `invalidated-decision-premise`
  class `material-underdetermination`
  class `unresolved-task-contradiction`
  class `mission-dod-scope-hole`
  class `safety-or-irreversibility`
}

phase `P1` question=`What exactly did the operator task say?` repository_source=#false {
  artifact `source-manifest`
  artifact `atoms`
  artifact `inventory-coverage`
  boundary `planning.task-atoms.v1`
}

phase `P2` question=`What is true in the repository now?` repository_source=#true {
  artifact `scout-reports`
  artifact `findings`
  artifact `dossier`
  artifact `resolutions`
  boundary `planning.scout-dossier.v1`
}

phase `P3` question=`Which material issues cannot be resolved from evidence?` repository_source=#false {
  artifact `question-nominations`
  artifact `checkpoint`
  artifact `operator-answers`
  boundary `planning.questions.v1`
}

phase `P4` question=`What complete work map and proof system implements it?` repository_source=#false {
  artifact `compiler-reports`
  artifact `plan`
  artifact `assumptions`
  artifact `deviations`
  artifact `dispositions`
  boundary `planning.work-map.v2`
}

phase `P5` question=`Does literal execution imply mission delivery?` repository_source=#false {
  artifact `trace-audit`
  artifact `plan-review`
  boundary `planning.plan-review.v1`
}

phase `P6` question=`Conversational approval to ready-to-execute` repository_source=#false {
  artifact `approval-packet`
  artifact `ready-to-execute-transition`
}
".

(** ** Types *)

Inductive AtomKind := Work | Decision_ | Constraint_ | Acceptance | Premise | Question | Reference.
Inductive Backlink := BacklinkAtom (id : string) | VerifiedFact (fact : string).
Record Disposition := { dp_kind : string; dp_backlink : Backlink }.
Record Atom := { atom_id : string; atom_kind : AtomKind; atom_statement : string; atom_disposition : option Disposition }.
Record MaterialPlanElement := { el_id : string; el_backlinks : list Backlink }.
Inductive QuestionClass :=
  InvalidatedDecision | MissingMaterialDecision | MaterialUnderdetermination | DodHole | UnsafeIrreversible.
Definition D72_QUESTION_CLASS_VALUES : list QuestionClass :=
  [InvalidatedDecision; MissingMaterialDecision; MaterialUnderdetermination; DodHole; UnsafeIrreversible].
Record QuestionNomination := { qn_class : QuestionClass; qn_material_consequence : string }.

Inductive PlanningError :=
| NoTaskAuthority
| NoRepositoryEvidence
| ImmaterialQuestion
| RejectedQuestionClass (value : string)
| MissingDisposition (id : string)
| MissingBacklink (id : string)
| AssignmentCap (total cap : Z)
| BadDeclaration (what : string)
| ContextGap (what : string)
| TaskPath (what : string)
| TaskHeader (what : string)
| TaskInputOrder (what : string)
| TaskInputInvariant (what : string)
| DuplicateTaskPath (p : path)
| TaskAuthoritySetMismatch (what : string)
| HistoricalTaskInput (what : string)
| IndexTaskInput (what : string).

Record AssignmentPlan := {
  task_extractors : Z; scout_and_compiler_first_pass : Z; context_curator : Z; synthesizers : Z; reviewer : Z;
  reserved_resolution : Z }.

Definition d72_default : AssignmentPlan :=
  {| task_extractors := 7; scout_and_compiler_first_pass := 10; context_curator := 1; synthesizers := 2;
     reviewer := 1; reserved_resolution := 3 |}.
(** Six [u8]s are added; the sum wraps, as it does in a release build (a build
    with overflow checks panics instead). *)
Definition plan_total (p : AssignmentPlan) : Z :=
  fold_left (wrapping_add u8_max)
    [scout_and_compiler_first_pass p; context_curator p; synthesizers p; reviewer p; reserved_resolution p]
    (task_extractors p).
Definition plan_validate (p : AssignmentPlan) (cap : Z) : result PlanningError unit :=
  if cap <? plan_total p then Err (AssignmentCap (plan_total p) cap) else Ok tt.

Record PlanningAssignmentRole := {
  ar_role : string; ar_count : Z; ar_mode : string; ar_boundary_id : string; ar_atom_namespace : option string }.

Record PlanningWaveDeclaration := {
  wv_id : string; wv_role : string; wv_dependencies : list string; wv_ordinals : option (list Z);
  wv_activation_ref : option string; wv_canonical_output : bool }.

Record PlanningPolicy := {
  pp_assignment_cap : Z; pp_planning_wave_cap : Z; pp_planning_max_attempts : Z;
  pp_roles : list PlanningAssignmentRole; pp_waves : list PlanningWaveDeclaration }.

Record TerminalRoute := {
  tr_version : string; tr_profile_id : string; tr_tool_name : string; tr_boundary_id : string;
  tr_result_contract : string; tr_schema_digest : string }.

Record PlanningAgentAssignment := {
  pa_assignment_id : string; pa_role : string; pa_mode : string; pa_boundary_id : option string;
  pa_terminal_route : option TerminalRoute; pa_ordinal : Z; pa_atom_id_prefix : option string }.

Record PlanningManifest := {
  pm_workstream : string; pm_planning_wave_cap : Z; pm_planning_max_attempts : Z;
  pm_assignments : list PlanningAgentAssignment; pm_waves : list PlanningWaveDeclaration }.

Record PlanningIssuedRef := { is_assignment_id : string; is_action_id : string; is_run_revision : Z }.
Record PlanningAcceptedRef := { ap_assignment_id : string; ap_action_id : string; ap_run_revision : Z }.
Record PlanningLaunchAckRef := {
  la_assignment_id : string; la_action_id : string; la_run_revision : Z; la_task_id : string }.
Record PlanningActiveRef := {
  av_assignment_id : string; av_action_id : string; av_run_revision : Z; av_launch_acknowledged : bool }.
Record PlanningTerminalFailureRef := {
  tf_assignment_id : string; tf_action_id : string; tf_run_revision : Z; tf_status : string }.

#[global] Instance PlanningAcceptedRef_eq_dec : EqDecision PlanningAcceptedRef.
Proof. solve_decision. Defined.

(** A [BTreeSet] is its elements, in its order. *)
Record PlanningRefs := {
  rf_issued : list PlanningIssuedRef; rf_launch_acks : list PlanningLaunchAckRef;
  rf_accepted : list PlanningAcceptedRef; rf_terminal_failures : list PlanningTerminalFailureRef;
  rf_activation_refs : list string }.

Inductive PlanningBarrierStatus :=
| BarrierComplete
| BarrierRunning (active : list PlanningActiveRef) (unissued : list string)
| BarrierBlocked (failures : list PlanningTerminalFailureRef).

Record PlanningWaveBlocked := {
  wb_wave_id : string; wb_failed_assignments : list string; wb_attempts : list (string * Z);
  wb_completed_assignments : list string }.

Inductive PlanningWaveOutcome :=
| Launch (wave_id : string) (assignments : list PlanningAgentAssignment)
| WaitingOnInFlight (wave_id : string) (active : list PlanningActiveRef)
| Complete
| WaveBlocked (b : PlanningWaveBlocked)
| CapacityUnknown (error : string).

Record TerminalProfile := {
  pr_id : string; pr_tool : string; pr_boundary : string; pr_contract : string; pr_digest : string }.
Definition profile (id tool boundary contract digest : string) : TerminalProfile :=
  {| pr_id := id; pr_tool := tool; pr_boundary := boundary; pr_contract := contract; pr_digest := digest |}.

(** [kernel::generated::TERMINAL_PROFILES] *)
Definition TERMINAL_PROFILES : list TerminalProfile :=
  [profile "delivery-status.v2" "autopilot_emit_status" "autopilot.delivery_submission.v2"
     "autopilot.delivery_result.v2" "3ee75a8d7294cddd2f22261dedccc7a59f2403df9b0de761a6cdcd39ef986ab8";
   profile "planning.plan-review.v1:autopilot_submit_review" "autopilot_submit_review" "planning.plan-review.v1"
     "planning.plan-review.v1" "60409306bbe13fcc510a6fb00450a50f71dbae44f4924dbfc5bd2eddf96810ed";
   profile "planning.questions.v1:autopilot_submit_resolution" "autopilot_submit_resolution" "planning.questions.v1"
     "planning.questions.v1" "d1e73a08666c761604e71b81b58116ba057b0e3fe3103c3080b2b2a78a4b71dd";
   profile "planning.scout-dossier.v1:autopilot_submit_context" "autopilot_submit_context" "planning.scout-dossier.v1"
     "planning.scout-dossier.v1" "2ee4052fac867c671c6c972066aad7bfa8ab3fee07292de62c09c4bc0c4d41e2";
   profile "planning.scout-dossier.v1:autopilot_submit_scout_report" "autopilot_submit_scout_report" "planning.scout-dossier.v1"
     "planning.scout-dossier.v1" "2ee4052fac867c671c6c972066aad7bfa8ab3fee07292de62c09c4bc0c4d41e2";
   profile "planning.task-atoms.v1:autopilot_submit_atoms" "autopilot_submit_atoms" "planning.task-atoms.v1"
     "planning.task-atoms.v1" "afea4f1dae10430432387da2f42545976e435850d19dd2026667d139b5950e37";
   profile "planning.work-map.v1:autopilot_submit_plan_cluster" "autopilot_submit_plan_cluster" "planning.work-map.v1"
     "planning.work-map.v1" "f687b98000113e794d38368ebb55d903214d2cc25b3f4f5d3b0e578c6118e0b7";
   profile "planning.work-map.v1:autopilot_submit_synthesis" "autopilot_submit_synthesis" "planning.work-map.v1"
     "planning.work-map.v1" "f687b98000113e794d38368ebb55d903214d2cc25b3f4f5d3b0e578c6118e0b7";
   profile "planning.work-map.v2:autopilot_submit_plan_cluster" "autopilot_submit_plan_cluster" "planning.work-map.v2"
     "planning.work-map.v2" "4f341cc4aade90ac13c4584898f29b42d054d4ea4b5c126117841550e680ae75";
   profile "planning.work-map.v2:autopilot_submit_synthesis" "autopilot_submit_synthesis" "planning.work-map.v2"
     "planning.work-map.v2" "4f341cc4aade90ac13c4584898f29b42d054d4ea4b5c126117841550e680ae75";
   profile "recovery-work-map.v1" "autopilot_emit_status" "planning.work-map.v1"
     "planning.work-map.v1" "b6b5f80aedcf8382f840f311bac4fdf1a6db5d83e0cf25eb46840e90043f8493";
   profile "recovery-work-map.v2" "autopilot_emit_status" "planning.work-map.v2"
     "planning.work-map.v2" "4b254caa4e21953efdc3102cb86c35c3238dfadc57b83fb083f5cbb49065857c";
   profile "validation-status.v2" "autopilot_emit_status" "autopilot.validation_submission.v2"
     "autopilot.validation_result.v2" "0eb7655083ed7e8c707965ecb094134c1241f0d4355c271750fdde0300899674";
   profile "validation-status.v3" "autopilot_emit_status" "autopilot.validation_submission.v3"
     "autopilot.validation_result.v3" "86052745eff30b746b44366bd1a9dc54aeee74aba63c1d6be80a187efc691545"].

Record PhaseDeclaration := { ph_id : string; ph_question : string }.
Record PlanningDeclarations := { pd_assignment_cap : Z; pd_phases : list PhaseDeclaration }.

(** ** Reading declarations *)

Definition QUOTE : string := String DQUOTE "".

Definition split_csv (raw : string) : list string :=
  filter (λ value, value ≠ "") (map trim (split_char "," raw)).

Definition parse_attr (attrs name : string) : result PlanningError string :=
  ok_or (attr attrs name) (BadDeclaration name).

(** The [?] on an optional reading: [Option::transpose] *)
Definition transpose {E A} (o : option (result E A)) : result E (option A) :=
  match o with Some (Ok a) => Ok (Some a) | Some (Err e) => Err e | None => Ok None end.

(** [{:02}] *)
Definition show_02 (v : Z) : string := (if v <? 10 then "0" else "") +:+ show_uint v.

Definition planning_terminal_tool (role : string) : result PlanningError string :=
  if role =s "task-extractor" then Ok "autopilot_submit_atoms"
  else if role =s "repository-scout" then Ok "autopilot_submit_scout_report"
  else if role =s "context-curator" then Ok "autopilot_submit_context"
  else if role =s "contradiction-resolver" then Ok "autopilot_submit_resolution"
  else if role =s "plan-compiler" then Ok "autopilot_submit_plan_cluster"
  else if role =s "plan-synthesizer" then Ok "autopilot_submit_synthesis"
  else if role =s "plan-reviewer" then Ok "autopilot_submit_review"
  else if role =s "recovery-engineer" then Ok "autopilot_emit_status"
  else Err (BadDeclaration ("planning role " +:+ role +:+ " has no terminal tool")).

Definition planning_terminal_route (role boundary : string) : result PlanningError TerminalRoute :=
  tool ← planning_terminal_tool role;
  match filter (λ row, pr_tool row = tool ∧ pr_boundary row = boundary ∧ pr_contract row = boundary)
          TERMINAL_PROFILES with
  | [profile] =>
      Ok {| tr_version := if boundary =s "planning.work-map.v2" then "v2" else "v1-legacy";
            tr_profile_id := pr_id profile; tr_tool_name := pr_tool profile; tr_boundary_id := pr_boundary profile;
            tr_result_contract := pr_contract profile; tr_schema_digest := pr_digest profile |}
  | matches =>
      Err (BadDeclaration ("planning role " +:+ role +:+ " has " +:+ show_uint (zlen matches) +:+
                           " exact terminal rows for " +:+ boundary))
  end.

Section Policy.
(** [to_string] of the error of [parse::<u8>] *)
Context (int_error : string → string).

Definition parse_u8 (raw : string) : result PlanningError Z :=
  ok_or (parse_uint u8_max raw) (BadDeclaration (int_error raw)).

Definition parse_cap (attrs : string) : result PlanningError Z :=
  raw ← parse_attr attrs "default="; parse_u8 raw.

Fixpoint top_level_u8 (prefix attr_name : string) (ls : list string) : result PlanningError Z :=
  match ls with
  | [] => Err (BadDeclaration ("missing " +:+ trim prefix))
  | line :: ls' =>
      match strip_prefix prefix (trim line) with
      | Some attrs => raw ← parse_attr attrs attr_name; parse_u8 raw
      | None => top_level_u8 prefix attr_name ls'
      end
  end.
Definition parse_top_level_u8 (text prefix attr_name : string) : result PlanningError Z :=
  top_level_u8 prefix attr_name (lines text).

Definition parse_ordinals (raw : string) : result PlanningError (list Z) :=
  ordinals ← collect_res parse_u8 (split_csv raw);
  if ordinals =s [] then Err (BadDeclaration "empty ordinals") else Ok ordinals.

(** One line of [PlanningDeclarations::parse] *)
Definition declaration_line (acc : option Z * list PhaseDeclaration) (line : string)
  : result PlanningError (option Z * list PhaseDeclaration) :=
  let '(cap, phases) := acc in
  let trimmed := trim line in
  cap ← match strip_prefix "assignment_cap " trimmed with
        | Some after => c ← parse_cap after; Ok (Some c)
        | None => Ok cap
        end;
  phases ← match strip_prefix ("phase " +:+ QUOTE) trimmed with
           | Some after =>
               match split_once QUOTE after with
               | None => Err (BadDeclaration trimmed)
               | Some (id, attrs) =>
                   question ← parse_attr attrs "question=";
                   Ok (phases ++ [{| ph_id := id; ph_question := question |}])
               end
           | None => Ok phases
           end;
  Ok (cap, phases).
Definition parse_declarations (text : string) : result PlanningError PlanningDeclarations :=
  acc ← fold_res declaration_line (None, []) (split_char LF text);
  match acc.1 with
  | None => Err (BadDeclaration "missing assignment_cap")
  | Some assignment_cap => Ok {| pd_assignment_cap := assignment_cap; pd_phases := acc.2 |}
  end.

(** The loop over [zip] in [validate_p1_to_p6] *)
Definition validate_p1_to_p6 (d : PlanningDeclarations) : result PlanningError unit :=
  let expected := ["P1"; "P2"; "P3"; "P4"; "P5"; "P6"] in
  if negb (bool_decide (length (pd_phases d) = length expected)) then Err (BadDeclaration "wrong phase count")
  else
    _ ← for_each (λ '(phase, expected_id),
          if negb (ph_id phase =s expected_id) then Err (BadDeclaration (ph_id phase)) else Ok tt)
          (zip (pd_phases d) expected);
    plan_validate d72_default (pd_assignment_cap d).

(** A row [key "id" attrs]: the id and the attributes. *)
Definition row_of (key trimmed : string) : result PlanningError (string * string) :=
  after ← ok_or (strip_prefix (key +:+ QUOTE) trimmed) (BadDeclaration trimmed);
  ok_or (split_once QUOTE after) (BadDeclaration trimmed).

Definition role_line (acc : list PlanningAssignmentRole) (line : string)
  : result PlanningError (list PlanningAssignmentRole) :=
  let trimmed := trim line in
  if negb (starts_with "assignment_role " trimmed) then Ok acc
  else
    row ← row_of "assignment_role " trimmed;
    let '(role, attrs) := row in
    raw ← parse_attr attrs "count=";
    count ← parse_u8 raw;
    if count =? 0 then Err (BadDeclaration ("zero count for " +:+ role))
    else
      mode ← parse_attr attrs "mode=";
      boundary_id ← parse_attr attrs "boundary=";
      Ok (acc ++ [{| ar_role := role; ar_count := count; ar_mode := mode; ar_boundary_id := boundary_id;
                     ar_atom_namespace := attr attrs "atom_namespace=" |}]).
Definition parse_planning_assignment_roles (text : string) : result PlanningError (list PlanningAssignmentRole) :=
  roles ← fold_res role_line [] (lines text);
  match roles with [] => Err (BadDeclaration "missing assignment_role rows") | _ => Ok roles end.

Definition wave_line (acc : list PlanningWaveDeclaration) (line : string)
  : result PlanningError (list PlanningWaveDeclaration) :=
  let trimmed := trim line in
  if negb (starts_with "planning_wave " trimmed) then Ok acc
  else
    row ← row_of "planning_wave " trimmed;
    let '(id, attrs) := row in
    let dependencies := match attr attrs "depends=" with Some value => split_csv value | None => [] end in
    ordinals ← transpose (parse_ordinals <$> attr attrs "ordinals=");
    canonical_output ← match attr attrs "canonical_output=" with
                       | None => Ok false
                       | Some value =>
                           if (value =s "#true") || (value =s "true") then Ok true
                           else if (value =s "#false") || (value =s "false") then Ok false
                           else Err (BadDeclaration ("bad canonical_output for " +:+ id +:+ ": " +:+ value))
                       end;
    role ← parse_attr attrs "role=";
    Ok (acc ++ [{| wv_id := id; wv_role := role; wv_dependencies := dependencies; wv_ordinals := ordinals;
                   wv_activation_ref := attr attrs "activation_ref="; wv_canonical_output := canonical_output |}]).
Definition parse_planning_waves (text : string) : result PlanningError (list PlanningWaveDeclaration) :=
  waves ← fold_res wave_line [] (lines text);
  match waves with [] => Err (BadDeclaration "missing planning_wave rows") | _ => Ok waves end.
End Policy.

(** ** Waves *)

Record WaveVisit := { vs_visiting : gset string; vs_visited : gset string; vs_stack : list string }.

Fixpoint position {A} (p : A → bool) (l : list A) : option nat :=
  match l with [] => None | x :: l' => if p x then Some O else S <$> position p l' end.

Definition cycle_error (stack : list string) (wave_id : string) : PlanningError :=
  let start := default O (position (λ stacked, stacked =s wave_id) stack) in
  BadDeclaration ("planning_wave dependency cycle: " +:+ join " -> " (drop start stack ++ [wave_id])).

(** The loop over the dependencies and what follows it. *)
Fixpoint visit_children (rec : string → WaveVisit → option (result PlanningError WaveVisit)) (wave_id : string)
    (dependencies : list string) (st : WaveVisit) : option (result PlanningError WaveVisit) :=
  match dependencies with
  | [] => Some (Ok {| vs_visiting := vs_visiting st ∖ {[wave_id]}; vs_visited := {[wave_id]} ∪ vs_visited st;
                      vs_stack := removelast (vs_stack st) |})
  | dependency :: rest =>
      match rec dependency st with
      | Some (Ok st') => visit_children rec wave_id rest st'
      | other => other
      end
  end.

(** [None]: a wave that is not in the map (a panic), or no fuel. *)
Fixpoint visit_planning_wave_dependency (fuel : nat) (dependencies_by_wave : gmap string (list string))
    (wave_id : string) (st : WaveVisit) : option (result PlanningError WaveVisit) :=
  match fuel with
  | O => None
  | S fuel' =>
      if bool_decide (wave_id ∈ vs_visited st) then Some (Ok st)
      else if bool_decide (wave_id ∈ vs_visiting st) then Some (Err (cycle_error (vs_stack st) wave_id))
      else match dependencies_by_wave !! wave_id with
           | None => None
           | Some dependencies =>
               visit_children (visit_planning_wave_dependency fuel' dependencies_by_wave) wave_id dependencies
                 {| vs_visiting := {[wave_id]} ∪ vs_visiting st; vs_visited := vs_visited st;
                    vs_stack := vs_stack st ++ [wave_id] |}
           end
  end.

Fixpoint visit_all (fuel : nat) (deps : gmap string (list string)) (ids : list string) (st : WaveVisit)
  : option (result PlanningError WaveVisit) :=
  match ids with
  | [] => Some (Ok st)
  | id :: ids' =>
      match visit_planning_wave_dependency fuel deps id st with
      | Some (Ok st') => visit_all fuel deps ids' st'
      | other => other
      end
  end.

Definition dependency_map (waves : list PlanningWaveDeclaration) : gmap string (list string) :=
  foldl (λ m wave, <[wv_id wave := wv_dependencies wave]> m) ∅ waves.

(** Two more than the number of waves is fuel enough ([Graph.dfs_all_spec]). *)
Definition validate_planning_wave_acyclic (waves : list PlanningWaveDeclaration) : option (result PlanningError unit) :=
  let deps := dependency_map waves in
  match visit_all (S (S (size (dom deps)))) deps (map wv_id waves)
          {| vs_visiting := ∅; vs_visited := ∅; vs_stack := [] |} with
  | Some (Ok _) => Some (Ok tt)
  | Some (Err e) => Some (Err e)
  | None => None
  end.

(** The first loop of [validate_planning_waves]: the names so far. *)
Definition name_wave (role_names : list string) (names : gset string) (wave : PlanningWaveDeclaration)
  : result PlanningError (gset string) :=
  if negb (bool_decide (wv_role wave ∈ role_names))
  then Err (BadDeclaration ("wave " +:+ wv_id wave +:+ " references unknown role " +:+ wv_role wave))
  else if bool_decide (wv_id wave ∈ names) then Err (BadDeclaration ("duplicate planning_wave " +:+ wv_id wave))
  else Ok ({[wv_id wave]} ∪ names).

Definition check_dependency (names : gset string) (wave : PlanningWaveDeclaration) (dependency : string)
  : result PlanningError unit :=
  if dependency =s wv_id wave then Err (BadDeclaration ("wave " +:+ wv_id wave +:+ " depends on itself"))
  else if negb (bool_decide (dependency ∈ names))
  then Err (BadDeclaration ("wave " +:+ wv_id wave +:+ " references unknown dependency " +:+ dependency))
  else Ok tt.

Definition check_wave_names (roles : list PlanningAssignmentRole) (waves : list PlanningWaveDeclaration)
  : result PlanningError unit :=
  names ← fold_res (name_wave (map ar_role roles)) ∅ waves;
  for_each (λ wave, for_each (check_dependency names wave) (wv_dependencies wave)) waves.

Definition validate_planning_waves (roles : list PlanningAssignmentRole) (waves : list PlanningWaveDeclaration)
  : option (result PlanningError unit) :=
  match check_wave_names roles waves with
  | Err e => Some (Err e)
  | Ok _ => validate_planning_wave_acyclic waves
  end.

(** [PlanningPolicy::parse]; [None] is a panic. *)
Definition parse_policy (int_error : string → string) (text : string) : option (result PlanningError PlanningPolicy) :=
  match
    declarations ← parse_declarations int_error text;
    roles ← parse_planning_assignment_roles int_error text;
    planning_wave_cap ← parse_top_level_u8 int_error text "planning_wave_cap " "default=";
    if planning_wave_cap =? 0 then Err (BadDeclaration "zero planning_wave_cap")
    else
      planning_max_attempts ← parse_top_level_u8 int_error text "planning_launch_attempts " "max=";
      if planning_max_attempts =? 0 then Err (BadDeclaration "zero planning_launch_attempts")
      else
        waves ← parse_planning_waves int_error text;
        Ok {| pp_assignment_cap := pd_assignment_cap declarations; pp_planning_wave_cap := planning_wave_cap;
              pp_planning_max_attempts := planning_max_attempts; pp_roles := roles; pp_waves := waves |}
  with
  | Err e => Some (Err e)
  | Ok policy =>
      match validate_planning_waves (pp_roles policy) (pp_waves policy) with
      | None => None
      | Some (Err e) => Some (Err e)
      | Some (Ok _) => Some (Ok policy)
      end
  end.

(** ** Assignments *)

Definition wave_includes_ordinal (wave : PlanningWaveDeclaration) (ordinal : Z) : bool :=
  match wv_ordinals wave with None => true | Some ordinals => bool_decide (ordinal ∈ ordinals) end.

(** The assignments of one role. *)
Definition role_assignments (workstream : string) (row : PlanningAssignmentRole)
  : result PlanningError (list PlanningAgentAssignment) :=
  collect_res (λ index,
    route ← planning_terminal_route (ar_role row) (ar_boundary_id row);
    Ok {| pa_assignment_id := "planning-" +:+ workstream +:+ "-" +:+ ar_role row +:+ "-" +:+ show_02 index;
          pa_role := ar_role row; pa_mode := ar_mode row; pa_boundary_id := Some (ar_boundary_id row);
          pa_terminal_route := Some route; pa_ordinal := index;
          pa_atom_id_prefix := (λ namespace, namespace +:+ show_02 index +:+ "-") <$> ar_atom_namespace row |})
    (seqZ 1 (ar_count row)).

Definition assign_role (workstream : string) (by_role : gmap string (list PlanningAgentAssignment))
    (row : PlanningAssignmentRole) : result PlanningError (gmap string (list PlanningAgentAssignment)) :=
  assignments ← role_assignments workstream row;
  Ok (<[ar_role row := assignments]> by_role).

Definition emit_assignment (acc : gset string * list PlanningAgentAssignment) (a : PlanningAgentAssignment)
  : result PlanningError (gset string * list PlanningAgentAssignment) :=
  let '(emitted, out) := acc in
  if bool_decide (pa_assignment_id a ∈ emitted)
  then Err (BadDeclaration ("assignment " +:+ pa_assignment_id a +:+ " appears in multiple waves"))
  else Ok ({[pa_assignment_id a]} ∪ emitted, out ++ [a]).

Definition emit_wave (by_role : gmap string (list PlanningAgentAssignment))
    (acc : gset string * list PlanningAgentAssignment) (wave : PlanningWaveDeclaration)
  : result PlanningError (gset string * list PlanningAgentAssignment) :=
  assignments ← ok_or (by_role !! wv_role wave) (BadDeclaration ("missing role " +:+ wv_role wave));
  fold_res emit_assignment acc (filter (λ a, wave_includes_ordinal wave (pa_ordinal a) = true) assignments).

Definition assignments_for_policy (workstream : string) (policy : PlanningPolicy)
  : result PlanningError (list PlanningAgentAssignment) :=
  by_role ← fold_res (assign_role workstream) ∅ (pp_roles policy);
  acc ← fold_res (emit_wave by_role) (∅, []) (pp_waves policy);
  let out := acc.2 in
  let declared_total := foldr Z.add 0 (map ar_count (pp_roles policy)) in
  if negb (zlen out =? declared_total)
  then Err (BadDeclaration ("planning waves cover " +:+ show_uint (zlen out) +:+ " assignments, roles declare " +:+
                            show_uint declared_total))
  else if pp_assignment_cap policy <? zlen out
  then Err (AssignmentCap (Z.min u8_max (zlen out)) (pp_assignment_cap policy))
  else Ok out.

(** [PlanningManifest::from_policy] *)
Definition from_policy (workstream : string) (policy : PlanningPolicy) : result PlanningError PlanningManifest :=
  assignments ← assignments_for_policy workstream policy;
  Ok {| pm_workstream := workstream; pm_planning_wave_cap := pp_planning_wave_cap policy;
        pm_planning_max_attempts := pp_planning_max_attempts policy; pm_assignments := assignments;
        pm_waves := pp_waves policy |}.

(** ** What is accepted, active or failed *)

Definition same_action (a1 b1 : string) (r1 : Z) (a2 b2 : string) (r2 : Z) : bool :=
  (a1 =s a2) && (b1 =s b2) && (r1 =? r2).

Definition assignment_is_accepted (assignment_id : string) (refs : PlanningRefs) : bool :=
  any (λ accepted, (ap_assignment_id accepted =s assignment_id) &&
    any (λ issued, same_action (is_assignment_id issued) (is_action_id issued) (is_run_revision issued)
                     (ap_assignment_id accepted) (ap_action_id accepted) (ap_run_revision accepted))
      (rf_issued refs)) (rf_accepted refs).

Definition accepted_exact (issued : PlanningIssuedRef) (refs : PlanningRefs) : bool :=
  bool_decide ({| ap_assignment_id := is_assignment_id issued; ap_action_id := is_action_id issued;
                  ap_run_revision := is_run_revision issued |} ∈ rf_accepted refs).

Definition terminal_failure_exact (issued : PlanningIssuedRef) (refs : PlanningRefs) : bool :=
  any (λ failure, same_action (tf_assignment_id failure) (tf_action_id failure) (tf_run_revision failure)
                    (is_assignment_id issued) (is_action_id issued) (is_run_revision issued))
    (rf_terminal_failures refs).

Definition launch_ack_task_id (issued : PlanningIssuedRef) (refs : PlanningRefs) : option string :=
  la_task_id <$> find_first (λ ack, same_action (la_assignment_id ack) (la_action_id ack) (la_run_revision ack)
                              (is_assignment_id issued) (is_action_id issued) (is_run_revision issued))
                   (rf_launch_acks refs).

(** An issued reference of the assignment that is neither accepted nor failed *)
Definition is_active (assignment_id : string) (refs : PlanningRefs) (issued : PlanningIssuedRef) : bool :=
  (is_assignment_id issued =s assignment_id) && negb (accepted_exact issued refs)
  && negb (terminal_failure_exact issued refs).

Definition active_refs_for_assignment (assignment_id : string) (refs : PlanningRefs) : list PlanningActiveRef :=
  map (λ issued, {| av_assignment_id := is_assignment_id issued; av_action_id := is_action_id issued;
                    av_run_revision := is_run_revision issued;
                    av_launch_acknowledged := bool_decide (is_Some (launch_ack_task_id issued refs)) |})
    (filter (λ issued, is_active assignment_id refs issued = true) (rf_issued refs)).

Definition assignment_is_active (assignment_id : string) (refs : PlanningRefs) : bool :=
  match active_refs_for_assignment assignment_id refs with [] => false | _ => true end.

Definition assignment_failures (assignment_id : string) (refs : PlanningRefs) : list PlanningTerminalFailureRef :=
  filter (λ failure,
    (tf_assignment_id failure =s assignment_id) &&
    any (λ issued, same_action (is_assignment_id issued) (is_action_id issued) (is_run_revision issued)
                     (tf_assignment_id failure) (tf_action_id failure) (tf_run_revision failure)) (rf_issued refs) &&
    negb (any (λ accepted, same_action (ap_assignment_id accepted) (ap_action_id accepted) (ap_run_revision accepted)
                     (tf_assignment_id failure) (tf_action_id failure) (tf_run_revision failure)) (rf_accepted refs))
    = true) (rf_terminal_failures refs).

(** ** Barriers and the next wave *)

Definition wave_is_inactive (wave : PlanningWaveDeclaration) (refs : PlanningRefs) : bool :=
  match wv_activation_ref wave with
  | Some activation_ref => negb (bool_decide (activation_ref ∈ rf_activation_refs refs))
  | None => false
  end.

Definition wave_assignments (manifest : PlanningManifest) (wave : PlanningWaveDeclaration)
  : list PlanningAgentAssignment :=
  filter (λ a, (pa_role a =s wv_role wave) && wave_includes_ordinal wave (pa_ordinal a) = true)
    (pm_assignments manifest).

Definition unissued_of (assignments : list PlanningAgentAssignment) (refs : PlanningRefs) : list string :=
  map pa_assignment_id (filter (λ a,
    negb (assignment_is_accepted (pa_assignment_id a) refs) && negb (assignment_is_active (pa_assignment_id a) refs)
    && match assignment_failures (pa_assignment_id a) refs with [] => true | _ => false end = true) assignments).

Definition barrier_status (manifest : PlanningManifest) (wave : PlanningWaveDeclaration) (refs : PlanningRefs)
  : PlanningBarrierStatus :=
  if wave_is_inactive wave refs then BarrierComplete
  else
    let assignments := wave_assignments manifest wave in
    let completed := length (filter (λ a, assignment_is_accepted (pa_assignment_id a) refs = true) assignments) in
    if bool_decide (completed = length assignments) then BarrierComplete
    else
      let active := concat (map (λ a, active_refs_for_assignment (pa_assignment_id a) refs) assignments) in
      let failures := concat (map (λ a, assignment_failures (pa_assignment_id a) refs) assignments) in
      match failures, active with
      | _ :: _, [] => BarrierBlocked failures
      | [], _ => BarrierRunning active (unissued_of assignments refs)
      | _, _ => BarrierRunning active []
      end.

Definition is_complete (s : PlanningBarrierStatus) : bool := match s with BarrierComplete => true | _ => false end.

Definition planning_wave_dependencies_complete (manifest : PlanningManifest) (wave : PlanningWaveDeclaration)
    (refs : PlanningRefs) : bool :=
  all (λ dependency,
    match find_first (λ candidate, wv_id candidate =s dependency) (pm_waves manifest) with
    | Some dependency_wave => is_complete (barrier_status manifest dependency_wave refs)
    | None => false
    end) (wv_dependencies wave).

Definition blocked_wave (manifest : PlanningManifest) (wave : PlanningWaveDeclaration) (refs : PlanningRefs)
    (failures : list PlanningTerminalFailureRef) : PlanningWaveBlocked :=
  let failed_assignments := btree_set (list_to_set (map tf_assignment_id failures)) in
  {| wb_wave_id := wv_id wave; wb_failed_assignments := failed_assignments;
     wb_attempts := map (λ id, (id, zlen (filter (λ issued, is_assignment_id issued = id) (rf_issued refs))))
                      failed_assignments;
     wb_completed_assignments :=
       map pa_assignment_id (filter (λ a, assignment_is_accepted (pa_assignment_id a) refs = true)
                               (wave_assignments manifest wave)) |}.

Section Next.
(** [{:?}] of a roster error *)
Context (roster_debug : RosterError → string).

Definition wave_pool_capacity (role : string) : result string Z :=
  roster ← map_err (λ error, "roster unavailable for wave capacity: " +:+ roster_debug error) roster_package;
  map_err (λ error, "no concurrency declared for role " +:+ role +:+ ": " +:+ roster_debug error)
    (concurrency_for_role roster role).

(** A wave that runs: what it launches now. *)
Definition run_wave (manifest : PlanningManifest) (cap : Z) (wave : PlanningWaveDeclaration)
    (active : list PlanningActiveRef) (unissued : list string) : PlanningWaveOutcome :=
  match wave_pool_capacity (wv_role wave) with
  | Err error => CapacityUnknown error
  | Ok pool_cap =>
      let effective_cap := Z.min (Z.min cap (pm_planning_wave_cap manifest)) pool_cap in
      let open_slots := saturating_sub effective_cap (zlen active) in
      let selected_ids := take (Z.to_nat open_slots) unissued in
      match filter (λ a, pa_assignment_id a ∈ selected_ids) (pm_assignments manifest) with
      | [] => WaitingOnInFlight (wv_id wave) active
      | selected => Launch (wv_id wave) selected
      end
  end.

Fixpoint next_wave_from (manifest : PlanningManifest) (refs : PlanningRefs) (cap : Z)
    (waves : list PlanningWaveDeclaration) : PlanningWaveOutcome :=
  match waves with
  | [] => Complete
  | wave :: waves' =>
      if negb (planning_wave_dependencies_complete manifest wave refs) then next_wave_from manifest refs cap waves'
      else match barrier_status manifest wave refs with
           | BarrierComplete => next_wave_from manifest refs cap waves'
           | BarrierBlocked failures => WaveBlocked (blocked_wave manifest wave refs failures)
           | BarrierRunning active unissued => run_wave manifest cap wave active unissued
           end
  end.
Definition next_planning_wave (manifest : PlanningManifest) (refs : PlanningRefs) (cap : Z) : PlanningWaveOutcome :=
  next_wave_from manifest refs cap (pm_waves manifest).
End Next.
