(* ===== verification/PlanningSafety.v ===== *)
(** * Planning waves: what the scheduler guarantees

    Theorems about [Planning]: which policies are accepted, that the outcome is
    complete only when every wave is, what may be launched, and that every run
    of planning ends. *)

From S2P Require Import Prelude RustColl RustStr Paths Failure Boundary Control Graph Roles Planning.

(** ** Acyclic waves *)

Definition wave_succ (deps : gmap string (list string)) (id : string) : result unit (list string) :=
  Ok (default [] (deps !! id)).

(** What the search does but for the stack and the text of the error. *)
Definition erase (r : option (result PlanningError WaveVisit)) : option (result unit (gset string * gset string)) :=
  match r with
  | Some (Ok st) => Some (Ok (vs_visiting st, vs_visited st))
  | Some (Err _) => Some (Err tt)
  | None => None
  end.

Section Erase.
Context (deps : gmap string (list string)).
Context (closed : ∀ id l, deps !! id = Some l → ∀ d, d ∈ l → is_Some (deps !! d)).

Lemma children_erase fuel id rest st :
  (∀ d s, d ∈ rest → erase (visit_planning_wave_dependency fuel deps d s) =
     dfs (λ _, tt) (wave_succ deps) fuel d (vs_visiting s, vs_visited s)) →
  erase (visit_children (visit_planning_wave_dependency fuel deps) id rest st) =
  dfs_children (dfs (λ _, tt) (wave_succ deps) fuel) id rest (vs_visiting st, vs_visited st).
Proof.
  revert st. induction rest as [|d rest IH]; intros st Hd; cbn; [done|]. rewrite <- Hd by set_solver.
  destruct (visit_planning_wave_dependency fuel deps d st) as [[s|e]|]; cbn; [|done..]. apply IH. set_solver.
Qed.

Lemma visit_erase fuel id st :
  is_Some (deps !! id) →
  erase (visit_planning_wave_dependency fuel deps id st) =
  dfs (λ _, tt) (wave_succ deps) fuel id (vs_visiting st, vs_visited st).
Proof.
  revert id st. induction fuel as [|fuel IH]; intros id st [l Hl]; [done|]. cbn.
  case_bool_decide; [done|]. case_bool_decide; [done|]. unfold wave_succ at 1. rewrite Hl. cbn [default].
  rewrite children_erase; [done|]. intros d s Hd. apply IH. by eapply closed.
Qed.

Lemma visit_all_erase fuel ids st :
  (∀ id, id ∈ ids → is_Some (deps !! id)) →
  erase (visit_all fuel deps ids st) = dfs_all (λ _, tt) (wave_succ deps) fuel ids (vs_visiting st, vs_visited st).
Proof.
  revert st. induction ids as [|id ids IH]; intros st Hin; cbn; [done|]. rewrite <- visit_erase by (apply Hin; set_solver).
  destruct (visit_planning_wave_dependency fuel deps id st) as [[s|e]|]; cbn; [|done..]. apply IH. set_solver.
Qed.
End Erase.

(** A wave depends on a wave. *)
Definition depends (waves : list PlanningWaveDeclaration) (a b : string) : Prop :=
  ∃ wave, wave ∈ waves ∧ wv_id wave = a ∧ b ∈ wv_dependencies wave.

Lemma dependency_map_app waves wave :
  dependency_map (waves ++ [wave]) = <[wv_id wave := wv_dependencies wave]> (dependency_map waves).
Proof. unfold dependency_map. by rewrite foldl_app. Qed.

Lemma dependency_map_spec waves id l :
  NoDup (map wv_id waves) →
  dependency_map waves !! id = Some l ↔ ∃ wave, wave ∈ waves ∧ wv_id wave = id ∧ wv_dependencies wave = l.
Proof.
  induction waves as [|wave waves IH] using rev_ind; intros Hnd.
  { split; [done|]. intros (w & Hw & _). set_solver. }
  rewrite dependency_map_app, lookup_insert_Some. rewrite map_app in Hnd. apply NoDup_app in Hnd as (Hnd & Hdis & _).
  specialize (IH Hnd). cbn in Hdis. split.
  - intros [[<- <-]|[Hne (w & Hw & Hl)%IH]]; [exists wave; set_solver|exists w; set_solver].
  - intros (w & [Hw| ->%list_elem_of_singleton]%elem_of_app & Hid & Hl); [right|left; done].
    split; [|apply IH; eauto]. intros E. apply (Hdis id); [|set_solver]. apply list_elem_of_fmap. exists w. by rewrite Hid.
Qed.

Lemma wave_edge waves a b :
  NoDup (map wv_id waves) → edge (wave_succ (dependency_map waves)) a b ↔ depends waves a b.
Proof.
  intros Hnd. unfold edge, wave_succ, depends. split.
  - intros (next & [= <-] & Hb). destruct (dependency_map waves !! a) as [l|] eqn:Hl; [|by apply elem_of_nil in Hb].
    apply dependency_map_spec in Hl as (w & Hw & Hid & <-); [|done]. eauto.
  - intros (w & Hw & Hid & Hb). exists (wv_dependencies w). split; [|done].
    assert (dependency_map waves !! a = Some (wv_dependencies w)) as -> by (apply dependency_map_spec; eauto). done.
Qed.

(** What a checked list of waves has. *)
Record waves_sound (roles : list string) (waves : list PlanningWaveDeclaration) : Prop := {
  ws_distinct : NoDup (map wv_id waves);
  ws_roles : ∀ w, w ∈ waves → wv_role w ∈ roles;
  ws_known : ∀ w d, w ∈ waves → d ∈ wv_dependencies w → d ∈ map wv_id waves;
  ws_acyclic : ∀ a, ¬ tc (depends waves) a a;
}.

Lemma name_waves_spec role_names names waves names' :
  fold_res (name_wave role_names) names waves = Ok names' ↔
  (∀ w, w ∈ waves → wv_role w ∈ role_names ∧ wv_id w ∉ names) ∧ NoDup (map wv_id waves) ∧
  names' = list_to_set (map wv_id waves) ∪ names.
Proof.
  revert names. induction waves as [|w waves IH]; intros names; cbn.
  { split; [intros [= <-]; split_and!; [set_solver|constructor|set_solver]|intros (_ & _ & ->); f_equal; set_solver]. }
  unfold name_wave at 1. destruct (bool_decide (wv_role w ∈ role_names)) eqn:Hr; cbn;
    [|to_prop; split; [done|]; intros (H & _); destruct (H w); set_solver].
  destruct (bool_decide (wv_id w ∈ names)) eqn:Hn; cbn;
    [to_prop; split; [done|]; intros (H & _); destruct (H w); set_solver|]. to_prop.
  rewrite IH, NoDup_cons. split.
  - intros (H & Hnd & ->). split_and!; [|intros Hin|done|set_solver].
    + intros v [->|Hv]%elem_of_cons; [done|]. destruct (H v Hv). set_solver.
    + apply list_elem_of_fmap in Hin as (v & E & Hv). destruct (H v Hv). set_solver.
  - intros (H & [Hw Hnd] & ->). split_and!; [|done|set_solver]. intros v Hv. destruct (H v) as [? ?]; [set_solver|].
    split; [done|]. intros [E%elem_of_singleton|?]%elem_of_union; [|done]. apply Hw. rewrite <- E. by apply list_elem_of_fmap_2.
Qed.

Lemma names_checked roles waves :
  check_wave_names roles waves = Ok tt ↔
  NoDup (map wv_id waves) ∧ (∀ w, w ∈ waves → wv_role w ∈ map ar_role roles) ∧
  ∀ w d, w ∈ waves → d ∈ wv_dependencies w → d ≠ wv_id w ∧ d ∈ map wv_id waves.
Proof.
  unfold check_wave_names. rewrite bind_ok. setoid_rewrite for_each_ok. setoid_rewrite Forall_forall.
  setoid_rewrite name_waves_spec. setoid_rewrite for_each_ok. setoid_rewrite Forall_forall.
  assert (∀ names w d, check_dependency names w d = Ok tt ↔ d ≠ wv_id w ∧ d ∈ names) as Hcheck.
  { intros names w d. unfold check_dependency.
    destruct (d =s wv_id w) eqn:E1; [to_prop; naive_solver|].
    destruct (bool_decide (d ∈ names)) eqn:E2; cbn; to_prop; naive_solver. }
  setoid_rewrite Hcheck. split.
  - intros (names & (H & Hnd & ->) & Hall). split_and!; [done|intros w Hw; by apply H|].
    intros w d Hw Hd. destruct (Hall w Hw d Hd). set_solver.
  - intros (Hnd & Hr & Hd). eexists. split_and!; [|done|done|]; [set_solver|].
    intros w Hw d Hin. destruct (Hd w d Hw Hin). set_solver.
Qed.

(** The search over the named waves: it ends, and succeeds without a cycle. *)
Lemma acyclic_checked waves :
  NoDup (map wv_id waves) → (∀ w d, w ∈ waves → d ∈ wv_dependencies w → d ∈ map wv_id waves) →
  ∃ r, validate_planning_wave_acyclic waves = Some r ∧ (r = Ok tt ↔ ∀ a, ¬ tc (depends waves) a a).
Proof.
  intros Hnd Hknown. set (deps := dependency_map waves).
  assert (∀ id, is_Some (deps !! id) ↔ id ∈ map wv_id waves) as Hkeys.
  { intros id. split.
    - intros [l Hl]. apply dependency_map_spec in Hl as (w & Hw & <- & _); [|done]. by apply list_elem_of_fmap_2.
    - intros (w & -> & Hw)%list_elem_of_fmap. exists (wv_dependencies w). apply dependency_map_spec; eauto. }
  assert (∀ id l, deps !! id = Some l → ∀ d, d ∈ l → is_Some (deps !! d)) as Hclosed.
  { intros id l Hl d Hd. apply dependency_map_spec in Hl as (w & Hw & _ & <-); [|done]. apply Hkeys. eauto. }
  assert (∀ a b, edge (wave_succ deps) a b → a ∈ dom deps) as Hedge.
  { intros a b (n & [= <-] & Hb). destruct (deps !! a) eqn:Ha; [by eapply elem_of_dom_2|by apply elem_of_nil in Hb]. }
  pose proof (dfs_all_spec (λ _, tt) (wave_succ deps) (dom deps) Hedge (map wv_id waves) ∅ (finished_empty _)) as Hdfs.
  assert (∀ a, tc (edge (wave_succ deps)) a a ↔ tc (depends waves) a a) as Hcycle.
  { intros a. split; apply (tc_congruence (λ x, x)); intros ? ?; by apply wave_edge. }
  unfold validate_planning_wave_acyclic. fold deps.
  epose proof (visit_all_erase deps Hclosed (S (S (size (dom deps)))) (map wv_id waves)
    {| vs_visiting := ∅; vs_visited := ∅; vs_stack := [] |} (λ id, proj2 (Hkeys id))) as He. cbn in He.
  unfold dfs_fuel in Hdfs. rewrite <- He in Hdfs. clear He.
  destruct (visit_all _ _ _ _) as [[st|e]|]; cbn in Hdfs; [| |done].
  - destruct Hdfs as (_ & [_ Hac] & Hin). eexists. split; [done|]. split; [|done]. intros _ a Ha.
    apply (Hac a); [|by apply Hcycle]. apply Hin, Hkeys. apply Hcycle in Ha.
    apply elem_of_dom. inversion Ha; eauto.
  - eexists. split; [done|]. split; [done|]. intros Hno. exfalso. destruct Hdfs as [(a & _ & Ha)|(a & Ha)]; [|done].
    by apply (Hno a), Hcycle.
Qed.

Lemma validate_waves_spec roles waves :
  ∃ r, validate_planning_waves roles waves = Some r ∧ (r = Ok tt ↔ waves_sound (map ar_role roles) waves).
Proof.
  unfold validate_planning_waves. pose proof (names_checked roles waves) as Hn.
  destruct (check_wave_names roles waves) as [[]|e].
  - destruct Hn as [(Hnd & Hr & Hd) _]; [done|].
    destruct (acyclic_checked waves Hnd) as (r & Hr' & Hiff); [intros w d Hw Hin; by apply (Hd w d)|].
    exists r. split; [done|]. rewrite Hiff. split; [|by intros []]. intros Hac. split; [done..| |done].
    intros w d Hw Hin. by apply (Hd w d).
  - eexists. split; [done|]. split; [done|]. intros [Hnd Hr Hk Hac]. exfalso.
    destruct Hn as [_ Hn]. discriminate Hn. split_and!; [done..|]. intros w d Hw Hd. split; [|eauto].
    intros ->. apply (Hac (wv_id w)). apply tc_once. exists w. done.
Qed.

(** A finite set in which every element has a successor has a cycle. *)
Lemma walk_closes (R : string → string → Prop) (X : gset string) :
  (∀ x, x ∈ X → ∃ y, y ∈ X ∧ R x y) → ∀ x, x ∈ X → ∃ a, tc R a a.
Proof.
  intros Hsucc. assert (∀ n seen x, (size (X ∖ seen) ≤ n)%nat → x ∈ X → (∀ v, v ∈ seen → tc R v x) → ∃ a, tc R a a)
    as H; [|intros x Hx; apply (H _ ∅ x (Nat.le_refl _)); set_solver].
  induction n as [|n IH]; intros seen x Hn Hx Hseen; (destruct (decide (x ∈ seen)) as [Hin|Hin]; [by eauto|]).
  - apply Nat.le_0_r, size_empty_inv in Hn. set_solver.
  - destruct (Hsucc x Hx) as (y & Hy & Hxy). apply (IH ({[x]} ∪ seen) y); [|done|].
    + assert (X ∖ ({[x]} ∪ seen) ⊂ X ∖ seen) as Hlt%subset_size.
      { split; [set_solver|]. intros Hs. specialize (Hs x). set_solver. }
      lia.
    + intros v [->%elem_of_singleton|Hv]%elem_of_union; [by apply tc_once|]. eapply tc_r; eauto.
Qed.

(** ** What a manifest promises *)

Record manifest_sound (m : PlanningManifest) : Prop := {
  ms_waves : ∃ roles, waves_sound roles (pm_waves m);
  ms_cap : 0 < pm_planning_wave_cap m;
  ms_distinct : NoDup (map pa_assignment_id (pm_assignments m));
}.

Definition complete (m : PlanningManifest) (refs : PlanningRefs) (w : PlanningWaveDeclaration) : Prop :=
  barrier_status m w refs = BarrierComplete.

Lemma is_complete_spec s : is_complete s = true ↔ s = BarrierComplete.
Proof. by destruct s. Qed.

Lemma NoDup_map_inj {A B} (f : A → B) l x y : NoDup (map f l) → x ∈ l → y ∈ l → f x = f y → x = y.
Proof.
  intros Hnd [i Hi]%list_elem_of_lookup [j Hj]%list_elem_of_lookup E.
  assert (i = j) as ->; [|congruence].
  apply (NoDup_lookup _ i j (f x) Hnd); rewrite list_lookup_fmap; [by rewrite Hi|by rewrite Hj, E].
Qed.

Lemma find_wave waves w :
  NoDup (map wv_id waves) → w ∈ waves → find_first (λ c, wv_id c =s wv_id w) waves = Some w.
Proof.
  intros Hnd Hw. destruct (find_first _ waves) as [v|] eqn:Hf.
  - apply find_first_some in Hf as [Hv Heq]. to_prop. f_equal. by eapply (NoDup_map_inj _ _ _ _ Hnd).
  - rewrite find_first_none in Hf. specialize (Hf w Hw). cbn in Hf. to_prop. done.
Qed.

Section Outcome.
Context (dbg : RosterError → string) (m : PlanningManifest) (Hm : manifest_sound m).

(** The dependencies of a wave, met or not. *)
Lemma dependencies_spec refs w :
  w ∈ pm_waves m →
  planning_wave_dependencies_complete m w refs = true ↔
  ∀ v, v ∈ pm_waves m → wv_id v ∈ wv_dependencies w → complete m refs v.
Proof.
  intros Hw. destruct (ms_waves m Hm) as (roles & [Hnd _ Hk _]). unfold planning_wave_dependencies_complete.
  rewrite all_spec. split.
  - intros H v Hv Hd. specialize (H _ Hd). cbn in H. rewrite find_wave in H by done. by apply is_complete_spec.
  - intros H d Hd. destruct (list_elem_of_fmap_1 _ _ _ (Hk _ _ Hw Hd)) as (v & -> & Hv).
    rewrite find_wave by done. apply is_complete_spec. by apply H.
Qed.

Lemma next_wave_some refs cap waves o :
  next_wave_from dbg m refs cap waves = o →
  o = Complete ∧ (∀ w, w ∈ waves → planning_wave_dependencies_complete m w refs = true → complete m refs w) ∨
  ∃ w, w ∈ waves ∧ planning_wave_dependencies_complete m w refs = true ∧
    ((∃ failures, barrier_status m w refs = BarrierBlocked failures ∧ o = WaveBlocked (blocked_wave m w refs failures)) ∨
     (∃ active unissued, barrier_status m w refs = BarrierRunning active unissued ∧ o = run_wave dbg m cap w active unissued)).
Proof.
  induction waves as [|w waves IH]; cbn; [intros <-; left; split; [done|set_solver]|].
  assert (∀ w', w' ∈ waves → w' ∈ w :: waves) as Hin by set_solver.
  destruct (planning_wave_dependencies_complete m w refs) eqn:Hd; cbn.
  - destruct (barrier_status m w refs) as [|active unissued|failures] eqn:Hb; intros Ho.
    + destruct (IH Ho) as [[? H]|(v & Hv & H)]; [left|right; exists v; auto]. split; [done|].
      intros v [->|Hv]%elem_of_cons; [done|by apply H].
    + right. exists w. split_and!; [set_solver|done|]. right. eauto.
    + right. exists w. split_and!; [set_solver|done|]. left. eauto.
  - intros Ho. destruct (IH Ho) as [[? H]|(v & Hv & H)]; [left|right; exists v; auto]. split; [done|].
    intros v [->|Hv]%elem_of_cons Hc; [congruence|by apply H].
Qed.

Lemma run_wave_not_complete cap w active unissued : run_wave dbg m cap w active unissued ≠ Complete.
Proof. unfold run_wave. destruct (wave_pool_capacity _ _); [|done]. by destruct (filter _ _). Qed.

(** Nothing is left to do only when every wave is complete. *)
Lemma next_complete_iff refs cap :
  next_planning_wave dbg m refs cap = Complete ↔ ∀ w, w ∈ pm_waves m → complete m refs w.
Proof.
  destruct (ms_waves m Hm) as (roles & [Hnd _ Hk Hac]). split.
  - intros H. apply next_wave_some in H as [[_ H]|(w & _ & _ & [(f & _ & ?)|(a & u & _ & E)])];
      [|done|by destruct (run_wave_not_complete cap w a u)].
    intros w Hw. destruct (decide (is_complete (barrier_status m w refs) = true)) as [Hc|Hc];
      [by apply is_complete_spec|]. exfalso.
    destruct (walk_closes (depends (pm_waves m)) (list_to_set (map wv_id (filter (λ v,
      is_complete (barrier_status m v refs) ≠ true) (pm_waves m))))) with (x := wv_id w) as (a & Ha);
      [| |by apply (Hac a)].
    + intros x. rewrite elem_of_list_to_set, list_elem_of_fmap. intros (v & -> & Hv). apply list_elem_of_filter in Hv as [Hi Hv].
      destruct (planning_wave_dependencies_complete m v refs) eqn:Hd.
      { destruct Hi. apply is_complete_spec. by apply H. }
      unfold planning_wave_dependencies_complete in Hd. apply not_true_iff_false in Hd. rewrite all_spec in Hd.
      destruct (any (λ d, negb (is_complete (default BarrierComplete ((λ u, barrier_status m u refs) <$>
        find_first (λ c, wv_id c =s d) (pm_waves m))))) (wv_dependencies v)) eqn:Hany.
      * apply any_spec in Hany as (d & Hd' & Hn). destruct (list_elem_of_fmap_1 _ _ _ (Hk _ _ Hv Hd')) as (u & -> & Hu).
        rewrite find_wave in Hn by done. cbn in Hn. apply negb_true_iff in Hn. exists (wv_id u). split; [|by exists v].
        apply elem_of_list_to_set, list_elem_of_fmap. exists u. split; [done|]. apply list_elem_of_filter.
        split; [congruence|done].
      * exfalso. apply Hd. intros d Hd'. rewrite any_false in Hany. specialize (Hany d Hd').
        destruct (list_elem_of_fmap_1 _ _ _ (Hk _ _ Hv Hd')) as (u & -> & Hu). rewrite find_wave in * by done. cbn in Hany.
        by apply negb_false_iff in Hany.
    + apply elem_of_list_to_set, list_elem_of_fmap. exists w. split; [done|]. by apply list_elem_of_filter.
  - intros H. destruct (next_planning_wave dbg m refs cap) eqn:E; try done; exfalso;
      apply next_wave_some in E as [[? _]|(v & Hv & _ & [(f & Hf & _)|(a & u & Hf & _)])]; try done;
      specialize (H v Hv); unfold complete in H; congruence.
Qed.
End Outcome.

(** ** Issued, accepted and failed *)

Lemma same_action_spec a1 b1 r1 a2 b2 r2 : same_action a1 b1 r1 a2 b2 r2 = true ↔ a1 = a2 ∧ b1 = b2 ∧ r1 = r2.
Proof. unfold same_action. rewrite !andb_true_iff, !bool_decide_eq_true, Z.eqb_eq. naive_solver. Qed.

(** The action an issued reference names: its assignment, action and revision. *)
Definition action_of (i : PlanningIssuedRef) : string * string * Z :=
  (is_assignment_id i, is_action_id i, is_run_revision i).
Definition accepted_action (a : PlanningAcceptedRef) : string * string * Z :=
  (ap_assignment_id a, ap_action_id a, ap_run_revision a).
Definition failed_action (f : PlanningTerminalFailureRef) : string * string * Z :=
  (tf_assignment_id f, tf_action_id f, tf_run_revision f).

Definition is_issued (refs : PlanningRefs) (id : string) : Prop := id ∈ map is_assignment_id (rf_issued refs).
Definition accepted_ref (refs : PlanningRefs) (i : PlanningIssuedRef) : Prop :=
  action_of i ∈ map accepted_action (rf_accepted refs).
Definition failed_ref (refs : PlanningRefs) (i : PlanningIssuedRef) : Prop :=
  action_of i ∈ map failed_action (rf_terminal_failures refs).

Lemma action_of_inj : Inj (=) (=) action_of.
Proof. intros [] [] [=]. by subst. Qed.

Lemma accepted_exact_spec i refs : accepted_exact i refs = true ↔ accepted_ref refs i.
Proof.
  unfold accepted_exact, accepted_ref. rewrite bool_decide_eq_true, list_elem_of_fmap. split.
  - intros H. eexists. split; [|exact H]. done.
  - intros ([a b r] & E & H). injection E as -> -> ->. done.
Qed.

Lemma terminal_failure_exact_spec i refs : terminal_failure_exact i refs = true ↔ failed_ref refs i.
Proof.
  unfold terminal_failure_exact, failed_ref. rewrite any_spec, list_elem_of_fmap.
  setoid_rewrite same_action_spec. unfold action_of, failed_action. split.
  - intros (f & Hf & E1 & E2 & E3). exists f. split; [congruence|done].
  - intros (f & [= E1 E2 E3] & Hf). exists f. done.
Qed.

Lemma is_active_spec id refs i :
  is_active id refs i = true ↔ is_assignment_id i = id ∧ ¬ accepted_ref refs i ∧ ¬ failed_ref refs i.
Proof.
  unfold is_active. rewrite !andb_true_iff, bool_decide_eq_true, !negb_true_iff, <- !not_true_iff_false,
    accepted_exact_spec, terminal_failure_exact_spec. naive_solver.
Qed.

Lemma assignment_is_accepted_spec id refs :
  assignment_is_accepted id refs = true ↔ ∃ i, i ∈ rf_issued refs ∧ is_assignment_id i = id ∧ accepted_ref refs i.
Proof.
  unfold assignment_is_accepted, accepted_ref. rewrite any_spec. setoid_rewrite andb_true_iff.
  setoid_rewrite any_spec. setoid_rewrite same_action_spec. setoid_rewrite bool_decide_eq_true.
  setoid_rewrite list_elem_of_fmap. unfold action_of, accepted_action. split.
  - intros (a & Ha & <- & i & Hi & E1 & E2 & E3). exists i. split_and!; [done..|]. exists a. split; [congruence|done].
  - intros (i & Hi & <- & a & [= E1 E2 E3] & Ha). exists a. split_and!; [done..|]. exists i. done.
Qed.

Lemma elem_active_refs v id refs :
  v ∈ active_refs_for_assignment id refs →
  ∃ i, i ∈ rf_issued refs ∧ is_active id refs i = true ∧ av_assignment_id v = id.
Proof.
  unfold active_refs_for_assignment. rewrite list_elem_of_fmap. intros (i & -> & [H Hi]%list_elem_of_filter).
  exists i. split_and!; [done..|]. cbn. by apply is_active_spec in H as [? _].
Qed.

Lemma active_refs_empty id refs :
  active_refs_for_assignment id refs = [] ↔ ∀ i, i ∈ rf_issued refs → is_active id refs i = false.
Proof.
  unfold active_refs_for_assignment. split.
  - intros E i Hi. apply not_true_iff_false. intros H. apply map_eq_nil in E.
    assert (i ∈ filter (λ i, is_active id refs i = true) (rf_issued refs)) as Hin by by apply list_elem_of_filter.
    rewrite E in Hin. by apply elem_of_nil in Hin.
  - intros H. destruct (filter _ _) as [|i l] eqn:E; [done|]. exfalso.
    assert (i ∈ filter (λ i, is_active id refs i = true) (rf_issued refs)) as [Ha Hi]%list_elem_of_filter
      by (rewrite E; set_solver). rewrite H in Ha; done.
Qed.

Lemma elem_failures f id refs :
  f ∈ assignment_failures id refs ↔
  f ∈ rf_terminal_failures refs ∧ tf_assignment_id f = id ∧
  ∃ i, i ∈ rf_issued refs ∧ action_of i = failed_action f ∧ ¬ accepted_ref refs i.
Proof.
  unfold assignment_failures, accepted_ref. rewrite list_elem_of_filter, !andb_true_iff, negb_true_iff, any_false, any_spec,
    bool_decide_eq_true. setoid_rewrite <- not_true_iff_false. setoid_rewrite same_action_spec.
  setoid_rewrite list_elem_of_fmap. unfold action_of, failed_action, accepted_action. split.
  - intros [[[<- (i & Hi & E1 & E2 & E3)] Hn] Hf]. split_and!; [done..|]. exists i. split_and!; [done|congruence|].
    intros (a & [= A1 A2 A3] & Ha). apply (Hn a Ha). split_and!; congruence.
  - intros (Hf & <- & i & Hi & [= E1 E2 E3] & Hn). split_and!; [done|eauto| |done].
    intros a Ha (A1 & A2 & A3). apply Hn. exists a. split; [congruence|done].
Qed.

(** What is not accepted, active or failed was never issued. *)
Lemma unissued_spec assignments refs id :
  id ∈ unissued_of assignments refs ↔ id ∈ map pa_assignment_id assignments ∧ ¬ is_issued refs id.
Proof.
  unfold unissued_of, is_issued. rewrite !list_elem_of_fmap. setoid_rewrite list_elem_of_filter.
  setoid_rewrite andb_true_iff. setoid_rewrite andb_true_iff. setoid_rewrite negb_true_iff.
  setoid_rewrite <- not_true_iff_false. split.
  - intros (a & -> & [[Hacc Hact] Hfail] & Ha). split; [by eauto|]. intros (i & E & Hi).
    destruct (accepted_exact i refs) eqn:Hx.
    { apply accepted_exact_spec in Hx. apply Hacc, assignment_is_accepted_spec. eauto. }
    apply not_true_iff_false in Hx. rewrite accepted_exact_spec in Hx.
    destruct (terminal_failure_exact i refs) eqn:Hy.
    + apply terminal_failure_exact_spec, list_elem_of_fmap in Hy as (f & Ef & Hf).
      assert (f ∈ assignment_failures (pa_assignment_id a) refs) as Hin.
      { apply elem_failures. split_and!; [done| |by exists i]. injection Ef as E1 _ _. congruence. }
      destruct (assignment_failures _ refs); [by apply elem_of_nil in Hin|done].
    + apply not_true_iff_false in Hy. rewrite terminal_failure_exact_spec in Hy. apply Hact. unfold assignment_is_active.
      destruct (active_refs_for_assignment _ refs) eqn:Hr; [|done]. rewrite active_refs_empty in Hr.
      specialize (Hr i Hi). apply not_true_iff_false in Hr. rewrite is_active_spec in Hr. naive_solver.
  - intros [(a & -> & Ha) Hno]. exists a.
    assert (∀ i, i ∈ rf_issued refs → is_assignment_id i ≠ pa_assignment_id a) as Hne by naive_solver.
    split_and!; [done|..|done].
    + rewrite assignment_is_accepted_spec. intros (i & Hi & E & _). by apply (Hne i).
    + unfold assignment_is_active. destruct (active_refs_for_assignment _ refs) as [|v l] eqn:Hr; [done|].
      destruct (elem_active_refs v (pa_assignment_id a) refs) as (i & Hi & [E _]%is_active_spec & _); [rewrite Hr; set_solver|].
      by destruct (Hne i).
    + destruct (assignment_failures _ refs) as [|f l] eqn:Hr; [done|].
      assert (f ∈ assignment_failures (pa_assignment_id a) refs) as (_ & E & i & Hi & [= E1 E2 E3] & _)%elem_failures
        by (rewrite Hr; set_solver).
      destruct (Hne i Hi). congruence.
Qed.

(** ** What the next outcome says *)

Definition wave_active (m : PlanningManifest) (w : PlanningWaveDeclaration) (refs : PlanningRefs) : list PlanningActiveRef :=
  concat (map (λ a, active_refs_for_assignment (pa_assignment_id a) refs) (wave_assignments m w)).
Definition wave_failures (m : PlanningManifest) (w : PlanningWaveDeclaration) (refs : PlanningRefs)
  : list PlanningTerminalFailureRef :=
  concat (map (λ a, assignment_failures (pa_assignment_id a) refs) (wave_assignments m w)).

Lemma elem_concat_map {A B} (f : A → list B) l y : y ∈ concat (map f l) ↔ ∃ x, x ∈ l ∧ y ∈ f x.
Proof. rewrite list_elem_of_In, in_concat. setoid_rewrite in_map_iff. setoid_rewrite list_elem_of_In. naive_solver. Qed.

Lemma not_all_filtered {A} (p : A → bool) l :
  length (filter (λ x, p x = true) l) ≠ length l → ∃ x, x ∈ l ∧ p x = false.
Proof.
  induction l as [|x l IH]; [done|]. destruct (p x) eqn:Hp.
  - rewrite filter_cons_True by done. cbn. intros H. destruct IH as (y & Hy & Hpy); [lia|]. exists y. set_solver.
  - intros _. exists x. set_solver.
Qed.

Lemma barrier_running m w refs active unissued :
  barrier_status m w refs = BarrierRunning active unissued →
  wave_is_inactive w refs = false ∧ active = wave_active m w refs ∧
  (unissued = [] ∧ active ≠ [] ∨
   unissued = unissued_of (wave_assignments m w) refs ∧ (active = [] → unissued ≠ [])).
Proof.
  unfold barrier_status. destruct (wave_is_inactive w refs); [done|].
  case_bool_decide as Hc; [done|]. fold (wave_active m w refs) (wave_failures m w refs).
  destruct (wave_failures m w refs) as [|f fs] eqn:Hf.
  - intros [= <- <-]. split_and!; [done..|]. right. split; [done|]. intros Ha Hu.
    apply not_all_filtered in Hc as (a & Hin & Hacc).
    assert (pa_assignment_id a ∈ unissued_of (wave_assignments m w) refs) as Hi; [|rewrite Hu in Hi; by apply elem_of_nil in Hi].
    unfold unissued_of. apply list_elem_of_fmap_2, list_elem_of_filter. split; [|done]. rewrite Hacc. cbn.
    assert (∀ v, v ∉ wave_active m w refs) as Hna by (rewrite Ha; set_solver).
    assert (∀ f, f ∉ wave_failures m w refs) as Hnf by (rewrite Hf; set_solver).
    unfold assignment_is_active. unfold wave_active in Hna. unfold wave_failures in Hnf.
    setoid_rewrite elem_concat_map in Hna. setoid_rewrite elem_concat_map in Hnf.
    destruct (active_refs_for_assignment _ refs) as [|v l] eqn:E1; [|destruct (Hna v); exists a; rewrite E1; set_solver].
    destruct (assignment_failures _ refs) as [|f l] eqn:E2; [done|]. destruct (Hnf f). exists a. rewrite E2. set_solver.
  - destruct (wave_active m w refs) as [|v l]; [done|]. intros [= <- <-]. split_and!; [done..|]. by left.
Qed.

Lemma barrier_blocked m w refs failures :
  barrier_status m w refs = BarrierBlocked failures →
  failures = wave_failures m w refs ∧ failures ≠ [] ∧ wave_active m w refs = [].
Proof.
  unfold barrier_status. destruct (wave_is_inactive w refs); [done|]. case_bool_decide; [done|].
  fold (wave_active m w refs) (wave_failures m w refs).
  destruct (wave_failures m w refs), (wave_active m w refs); try done. by intros [= <-].
Qed.

Lemma roster_pools text r k max : parse_roster text = Ok r → rs_concurrency r !! k = Some max → 0 < max.
Proof.
  unfold parse_roster. intros H. apply bind_ok in H as (bs & _ & H). apply bind_ok in H as (slots & _ & H).
  apply guard_ok in H as [_ H]. apply bind_ok in H as (ps & _ & H). apply bind_ok in H as (pools & Hp & H).
  apply bind_ok in H as (? & _ & H). injection H as <-. cbn. by apply (pools_positive ps).
Qed.

Lemma pool_positive dbg role n : wave_pool_capacity dbg role = Ok n → 0 < n.
Proof.
  unfold wave_pool_capacity. intros (r & Hr & Hn)%bind_ok. apply map_err_ok in Hr, Hn.
  unfold concurrency_for_role in Hn. apply bind_ok in Hn as (s & _ & Hn). unfold concurrency_for in Hn.
  apply ok_or_ok in Hn. by apply (roster_pools ROSTER_KDL r _ n Hr) in Hn.
Qed.

#[local] Opaque wave_pool_capacity.

Section Outcomes.
Context (dbg : RosterError → string) (m : PlanningManifest) (Hm : manifest_sound m).

Lemma run_wave_launch cap w active unissued id sel :
  (∀ i, i ∈ unissued → i ∈ map pa_assignment_id (wave_assignments m w)) →
  run_wave dbg m cap w active unissued = Launch id sel →
  id = wv_id w ∧ sel ≠ [] ∧ NoDup (map pa_assignment_id sel) ∧
  (∀ a, a ∈ sel → a ∈ wave_assignments m w ∧ pa_assignment_id a ∈ unissued) ∧
  ∃ pool, wave_pool_capacity dbg (wv_role w) = Ok pool ∧
    zlen active + zlen sel ≤ Z.min (Z.min cap (pm_planning_wave_cap m)) pool.
Proof.
  intros Hu. unfold run_wave. destruct (wave_pool_capacity dbg (wv_role w)) as [pool|]; [|done].
  set (eff := Z.min _ pool). set (ids := take _ unissued).
  set (P := λ a, pa_assignment_id a ∈ ids). destruct (filter _ (pm_assignments m)) as [|a0 l] eqn:Hs; [done|].
  intros [= <- <-]. fold P in Hs.
  assert (NoDup (map pa_assignment_id (filter P (pm_assignments m)))) as Hnd.
  { eapply sublist_NoDup; [apply (ms_distinct m Hm)|]. apply fmap_sublist, sublist_filter. }
  assert (length (filter P (pm_assignments m)) ≤ length ids)%nat as Hlen.
  { rewrite <- (length_map pa_assignment_id). apply submseteq_length, NoDup_submseteq; [done|].
    intros i (a & -> & [Ha _]%list_elem_of_filter)%list_elem_of_fmap. done. }
  rewrite Hs in Hnd, Hlen. split_and!; [done..| |].
  - intros a Ha. rewrite <- Hs in Ha. apply list_elem_of_filter in Ha as [Ha Hin]. assert (pa_assignment_id a ∈ unissued) as Hau by (by apply elem_of_take in Ha as (j & Hj & _); apply list_elem_of_lookup; exists j).
    split; [|done]. destruct (list_elem_of_fmap_1 _ _ _ (Hu _ Hau)) as (b & E & Hb).
    assert (a = b) as ->; [|done]. apply (NoDup_map_inj _ _ _ _ (ms_distinct m Hm)); [done| |done].
    by apply list_elem_of_filter in Hb as [_ ?].
  - exists pool. split; [done|]. fold eff.
    unfold ids in Hlen. rewrite length_take in Hlen. unfold zlen, saturating_sub in *. cbn [length] in *. clearbody eff. lia.
Qed.

(** Something is active or something is launched. *)
Lemma run_wave_waiting cap w active unissued id act :
  0 < cap → (∀ i, i ∈ unissued → i ∈ map pa_assignment_id (wave_assignments m w)) → (active = [] → unissued ≠ []) →
  run_wave dbg m cap w active unissued = WaitingOnInFlight id act → id = wv_id w ∧ act = active ∧ active ≠ [].
Proof.
  intros Hcap Hu Hne. unfold run_wave. destruct (wave_pool_capacity dbg (wv_role w)) as [pool|] eqn:Hp; [|done].
  apply pool_positive in Hp. destruct (filter _ (pm_assignments m)) as [|a0 l] eqn:Hs; [|done].
  intros [= <- <-]. split_and!; [done..|]. intros ->. destruct unissued as [|i rest]; [by apply Hne|].
  pose proof (ms_cap m Hm) as Hwc. unfold saturating_sub, zlen in Hs. cbn [length] in Hs.
  destruct (list_elem_of_fmap_1 _ _ _ (Hu i ltac:(set_solver))) as (b & -> & Hb).
  apply list_elem_of_filter in Hb as [_ Hb].
  destruct (Z.to_nat (Z.max 0 _)) as [|n] eqn:Hn; [lia|]. cbn in Hs.
  assert (b ∈ filter (λ a, pa_assignment_id a ∈ pa_assignment_id b :: take n rest) (pm_assignments m)) as Hin
    by (apply list_elem_of_filter; set_solver).
  rewrite Hs in Hin. by apply elem_of_nil in Hin.
Qed.

(** A wave may run: it is declared and what it depends on is complete. *)
Definition ready (refs : PlanningRefs) (w : PlanningWaveDeclaration) : Prop :=
  w ∈ pm_waves m ∧ ∀ v, v ∈ pm_waves m → wv_id v ∈ wv_dependencies w → complete m refs v.

Definition outcome_sound (refs : PlanningRefs) (cap : Z) (o : PlanningWaveOutcome) : Prop :=
  match o with
  | Complete => ∀ w, w ∈ pm_waves m → complete m refs w
  | Launch id sel =>
      ∃ w, ready refs w ∧ wave_is_inactive w refs = false ∧ id = wv_id w ∧ sel ≠ [] ∧ NoDup (map pa_assignment_id sel) ∧
        (∀ a, a ∈ sel → a ∈ wave_assignments m w ∧ ¬ is_issued refs (pa_assignment_id a)) ∧
        ∃ pool, wave_pool_capacity dbg (wv_role w) = Ok pool ∧
          zlen (wave_active m w refs) + zlen sel ≤ Z.min (Z.min cap (pm_planning_wave_cap m)) pool
  | WaitingOnInFlight id active => ∃ w, ready refs w ∧ id = wv_id w ∧ active = wave_active m w refs ∧ active ≠ []
  | WaveBlocked b =>
      ∃ w, ready refs w ∧ wave_failures m w refs ≠ [] ∧ wave_active m w refs = [] ∧
        b = blocked_wave m w refs (wave_failures m w refs)
  | CapacityUnknown e => ∃ w, ready refs w ∧ wave_pool_capacity dbg (wv_role w) = Err e
  end.

Lemma next_sound refs cap : 0 < cap → outcome_sound refs cap (next_planning_wave dbg m refs cap).
Proof.
  intros Hcap. destruct (next_wave_some dbg m Hm refs cap (pm_waves m) _ eq_refl)
    as [[E _]|(w & Hw & Hd & H)]; [unfold next_planning_wave; rewrite E; cbn; by apply (next_complete_iff dbg m Hm refs cap)|].
  assert (ready refs w) as Hready by (split; [done|]; by apply dependencies_spec).
  unfold next_planning_wave. destruct H as [(f & Hf & ->)|(act & un & Hb & ->)].
  { apply barrier_blocked in Hf as (-> & Hne & Ha). by exists w. }
  apply barrier_running in Hb as (Hin & -> & Hu).
  assert (∀ i, i ∈ un → i ∈ map pa_assignment_id (wave_assignments m w) ∧ ¬ is_issued refs i) as Hun.
  { intros i Hi. destruct Hu as [[-> _]|[-> _]]; [by apply elem_of_nil in Hi|by apply unissued_spec]. }
  assert (wave_active m w refs = [] → un ≠ []) as Hne by naive_solver.
  destruct (run_wave dbg m cap w _ un) as [id sel|id a| |b|e] eqn:E; cbn.
  - apply run_wave_launch in E as (-> & ? & ? & Hsel & ?); [|intros i Hi; by apply Hun]. exists w. split_and!; [done..| |done].
    intros a Ha. destruct (Hsel a Ha). split; [done|by apply Hun].
  - apply run_wave_waiting in E as (-> & -> & ?); [|done|intros i Hi; by apply Hun|done]. by exists w.
  - by apply run_wave_not_complete in E.
  - unfold run_wave in E. destruct (wave_pool_capacity _ _); [|done]. by destruct (filter _ _).
  - exists w. split; [done|]. unfold run_wave in E. destruct (wave_pool_capacity _ _); [by destruct (filter _ _)|].
    congruence.
Qed.
End Outcomes.

(** ** The manifest of a policy *)

Lemma role_assignments_role ws row l a : role_assignments ws row = Ok l → a ∈ l → pa_role a = ar_role row.
Proof.
  unfold role_assignments. intros H%collect_res_ok Ha. apply list_elem_of_lookup in Ha as [i Hi].
  destruct (Forall2_lookup_r _ _ _ _ _ H Hi) as (x & _ & Hx). apply bind_ok in Hx as (route & _ & [= <-]). done.
Qed.

Lemma by_role_roles ws rows by_role :
  fold_res (assign_role ws) ∅ rows = Ok by_role → ∀ role l a, by_role !! role = Some l → a ∈ l → pa_role a = role.
Proof.
  apply (fold_res_inv _ (λ _ by_role, ∀ role l a, by_role !! role = Some l → a ∈ l → pa_role a = role)); [done|].
  intros _ row s s' IH _ H role l a. unfold assign_role in H. apply bind_ok in H as (l' & Hl & [= <-]).
  intros [[<- <-]|[_ Hs]]%lookup_insert_Some; [by eapply role_assignments_role|by eapply IH].
Qed.

(** What a wave takes of the assignments of its role. *)
Definition wave_share (by_role : gmap string (list PlanningAgentAssignment)) (w : PlanningWaveDeclaration)
  : list PlanningAgentAssignment :=
  filter (λ a, wave_includes_ordinal w (pa_ordinal a) = true) (default [] (by_role !! wv_role w)).

Definition emitted_ok (acc : gset string * list PlanningAgentAssignment) : Prop :=
  acc.1 = list_to_set (map pa_assignment_id acc.2) ∧ NoDup (map pa_assignment_id acc.2).

Lemma emit_assignments_ok acc l acc' :
  emitted_ok acc → fold_res emit_assignment acc l = Ok acc' → emitted_ok acc' ∧ acc'.2 = acc.2 ++ l.
Proof.
  intros Hacc. apply (fold_res_inv _ (λ done acc', emitted_ok acc' ∧ acc'.2 = acc.2 ++ done)).
  { by rewrite app_nil_r. }
  intros done x [em out] s' [[E Hnd] Hout] _ H. cbn in *. apply guard_ok in H as [Hn [= <-]]. to_prop. cbn.
  rewrite app_assoc, <- Hout. split; [|reflexivity]. split; cbn; rewrite map_app; cbn; [set_solver|].
  apply NoDup_app. split_and!; [assumption| |apply NoDup_singleton]. set_solver.
Qed.

Lemma emit_waves_ok by_role waves acc :
  fold_res (emit_wave by_role) (∅, []) waves = Ok acc →
  NoDup (map pa_assignment_id acc.2) ∧ acc.2 = concat (map (wave_share by_role) waves).
Proof.
  intros H. cut (emitted_ok acc ∧ acc.2 = concat (map (wave_share by_role) waves)); [intros [[_ ?] ?]; done|].
  revert H. apply (fold_res_inv _ (λ done acc, emitted_ok acc ∧ acc.2 = concat (map (wave_share by_role) done))).
  { split; [|done]. split; [done|constructor]. }
  intros done w s s' [Hok Hs] _ H. unfold emit_wave in H. apply bind_ok in H as (l & Hl & H). apply ok_or_ok in Hl.
  destruct (emit_assignments_ok _ _ _ Hok H) as [Hok' ->]. split; [assumption|].
  rewrite map_app, concat_app, Hs. cbn. rewrite app_nil_r. unfold wave_share. rewrite Hl. reflexivity.
Qed.

Lemma in_two_shares {A B} (f : A → list B) l i j x y b :
  NoDup (concat (map f l)) → l !! i = Some x → l !! j = Some y → b ∈ f x → b ∈ f y → i = j.
Proof.
  revert i j. induction l as [|z l IH]; intros i j Hnd Hi Hj Hx Hy; [done|]. cbn in Hnd.
  apply NoDup_app in Hnd as (Hz & Hdis & Hnd).
  assert (∀ k u, l !! k = Some u → b ∈ f u → b ∈ concat (map f l)) as Hin.
  { intros k u Hk Hb. apply elem_concat_map. exists u. split; [by eapply list_elem_of_lookup_2|done]. }
  destruct i as [|i], j as [|j]; cbn in *; simplify_eq; [done|by destruct (Hdis b); eauto..|]. f_equal. by apply IH.
Qed.

Record policy_manifest (policy : PlanningPolicy) (m : PlanningManifest) : Prop := {
  pm_sound : manifest_sound m;
  (** as many assignments as the roles declare, within the cap *)
  pm_total : zlen (pm_assignments m) = foldr Z.add 0 (map ar_count (pp_roles policy));
  pm_capped : zlen (pm_assignments m) ≤ pp_assignment_cap policy;
  (** every assignment is in one wave, and in no other *)
  pm_one_wave : ∀ a, a ∈ pm_assignments m → ∃ w, w ∈ pm_waves m ∧ a ∈ wave_assignments m w ∧
    ∀ v, v ∈ pm_waves m → a ∈ wave_assignments m v → v = w;
}.

Lemma top_level_u8_range ie prefix name ls v : top_level_u8 ie prefix name ls = Ok v → 0 ≤ v ≤ u8_max.
Proof.
  induction ls as [|l ls IH]; cbn [top_level_u8]; [done|]. destruct (strip_prefix prefix (trim l)); [|done].
  intros (raw & _ & H)%bind_ok. apply ok_or_ok in H. by apply parse_uint_range in H.
Qed.

Lemma parse_policy_ok ie text policy :
  parse_policy ie text = Some (Ok policy) →
  0 < pp_planning_wave_cap policy ∧ waves_sound (map ar_role (pp_roles policy)) (pp_waves policy).
Proof.
  unfold parse_policy. intros H. match type of H with (match ?x with _ => _ end) = _ => destruct x as [p|e] eqn:Hp end; [|done].
  destruct (validate_waves_spec (pp_roles p) (pp_waves p)) as (r & Hr & Hiff). rewrite Hr in H.
  destruct r as [[]|]; [|done]. injection H as <-. split; [|by apply Hiff].
  apply bind_ok in Hp as (d & _ & Hp). apply bind_ok in Hp as (roles & _ & Hp). apply bind_ok in Hp as (cap & Hcap & Hp).
  apply guard_ok in Hp as [Hz Hp]. apply bind_ok in Hp as (att & _ & Hp). apply guard_ok in Hp as [_ Hp].
  apply bind_ok in Hp as (waves & _ & [= <-]). cbn. apply Z.eqb_neq in Hz.
  apply top_level_u8_range in Hcap. lia.
Qed.

Lemma manifest_of_policy ie text ws policy m :
  parse_policy ie text = Some (Ok policy) → from_policy ws policy = Ok m → policy_manifest policy m.
Proof.
  intros [Hcap Hw]%parse_policy_ok Hf. unfold from_policy in Hf. apply bind_ok in Hf as (out & Ha & [= <-]).
  unfold assignments_for_policy in Ha. apply bind_ok in Ha as (by_role & Hby & Ha).
  apply bind_ok in Ha as (acc & Hacc & Ha). apply guard_ok in Ha as [Ht Ha]. apply guard_ok in Ha as [Hc [= <-]].
  destruct (emit_waves_ok _ _ _ Hacc) as [Hnd Hout]. pose proof (by_role_roles _ _ _ Hby) as Hroles.
  set (m := {| pm_workstream := ws; pm_planning_wave_cap := pp_planning_wave_cap policy;
    pm_planning_max_attempts := pp_planning_max_attempts policy; pm_assignments := acc.2; pm_waves := pp_waves policy |}).
  assert (∀ a w, a ∈ wave_share by_role w → pa_role a = wv_role w ∧ wave_includes_ordinal w (pa_ordinal a) = true) as Hsh.
  { intros a w [Ho Hin]%list_elem_of_filter. split; [|done].
    destruct (by_role !! wv_role w) eqn:Hl; cbn in Hin; [by eapply Hroles|by apply elem_of_nil in Hin]. }
  assert (∀ a, a ∈ acc.2 → ∃ w, w ∈ pp_waves policy ∧ a ∈ wave_share by_role w) as Hsome.
  { intros a Hin. rewrite Hout in Hin. by apply elem_concat_map in Hin. }
  assert (∀ a w, a ∈ wave_assignments m w → a ∈ wave_share by_role w) as Hback.
  { intros a w [Hp Hin]%list_elem_of_filter. destruct (Hsome a Hin) as (v & Hv & Hav). to_prop.
    destruct (Hsh a v Hav) as [Er _]. apply list_elem_of_filter in Hav as [_ Hav]. apply list_elem_of_filter.
    split; [done|]. replace (wv_role w) with (wv_role v) by congruence. done. }
  split; [split; [by eexists|done|done]| | |]; cbn.
  - apply negb_false_iff, Z.eqb_eq in Ht. done.
  - apply Z.ltb_ge in Hc. done.
  - intros a Hin. destruct (Hsome a Hin) as (w & Hww & Haw). exists w. split_and!; [done| |].
    + destruct (Hsh a w Haw) as [Er Eo]. apply list_elem_of_filter. split; [|done]. rewrite Eo, andb_true_r.
      by apply bool_decide_eq_true.
    + intros v Hv Hav%Hback. apply list_elem_of_lookup in Hww as [i Hi], Hv as [j Hj].
      assert (j = i) as ->; [|congruence]. apply NoDup_fmap_1 in Hnd. rewrite Hout in Hnd. by eapply in_two_shares.
Qed.

(** ** Runs of planning *)

(** What may be recorded: a launch of what was selected (under actions with no
    result yet), the acknowledgement of a launch, the acceptance or failure of
    an active action, and an activation. *)
Inductive planning_step (dbg : RosterError → string) (m : PlanningManifest) (cap : Z) (refs : PlanningRefs)
  : PlanningRefs → Prop :=
| step_launch id sel news issued :
    next_planning_wave dbg m refs cap = Launch id sel →
    map is_assignment_id news = map pa_assignment_id sel →
    (∀ i, i ∈ news → ¬ accepted_ref refs i ∧ ¬ failed_ref refs i) →
    issued ≡ₚ news ++ rf_issued refs →
    planning_step dbg m cap refs
      {| rf_issued := issued; rf_launch_acks := rf_launch_acks refs; rf_accepted := rf_accepted refs;
         rf_terminal_failures := rf_terminal_failures refs; rf_activation_refs := rf_activation_refs refs |}
| step_acknowledge i ack acks :
    i ∈ rf_issued refs → is_active (is_assignment_id i) refs i = true → launch_ack_task_id i refs = None →
    (la_assignment_id ack, la_action_id ack, la_run_revision ack) = action_of i →
    acks ≡ₚ ack :: rf_launch_acks refs →
    planning_step dbg m cap refs
      {| rf_issued := rf_issued refs; rf_launch_acks := acks; rf_accepted := rf_accepted refs;
         rf_terminal_failures := rf_terminal_failures refs; rf_activation_refs := rf_activation_refs refs |}
| step_accept i a accepted :
    i ∈ rf_issued refs → is_active (is_assignment_id i) refs i = true → accepted_action a = action_of i →
    accepted ≡ₚ a :: rf_accepted refs →
    planning_step dbg m cap refs
      {| rf_issued := rf_issued refs; rf_launch_acks := rf_launch_acks refs; rf_accepted := accepted;
         rf_terminal_failures := rf_terminal_failures refs; rf_activation_refs := rf_activation_refs refs |}
| step_fail i f failures :
    i ∈ rf_issued refs → is_active (is_assignment_id i) refs i = true → failed_action f = action_of i →
    failures ≡ₚ f :: rf_terminal_failures refs →
    planning_step dbg m cap refs
      {| rf_issued := rf_issued refs; rf_launch_acks := rf_launch_acks refs; rf_accepted := rf_accepted refs;
         rf_terminal_failures := failures; rf_activation_refs := rf_activation_refs refs |}
| step_activate w r activations :
    w ∈ pm_waves m → wv_activation_ref w = Some r → r ∉ rf_activation_refs refs →
    activations ≡ₚ r :: rf_activation_refs refs →
    planning_step dbg m cap refs
      {| rf_issued := rf_issued refs; rf_launch_acks := rf_launch_acks refs; rf_accepted := rf_accepted refs;
         rf_terminal_failures := rf_terminal_failures refs; rf_activation_refs := activations |}.

(** What is left to do: the assignments never issued, the actions under way and
    the waves not activated. *)
Definition action_work (refs : PlanningRefs) (i : PlanningIssuedRef) : nat :=
  if is_active (is_assignment_id i) refs i
  then match launch_ack_task_id i refs with Some _ => 1 | None => 2 end else O.
Definition never_issued (m : PlanningManifest) (refs : PlanningRefs) : list PlanningAgentAssignment :=
  filter (λ a, pa_assignment_id a ∉ map is_assignment_id (rf_issued refs)) (pm_assignments m).
Definition work_left (m : PlanningManifest) (refs : PlanningRefs) : nat :=
  (3 * length (never_issued m refs) + sum_list_with (action_work refs) (rf_issued refs)
   + length (filter (λ w, wave_is_inactive w refs = true) (pm_waves m)))%nat.

Lemma sum_list_with_le {A} (f g : A → nat) l :
  (∀ x, x ∈ l → f x ≤ g x)%nat → (sum_list_with f l ≤ sum_list_with g l)%nat.
Proof. induction l as [|x l IH]; cbn; intros H; [done|]. pose proof (H x). specialize (IH ltac:(set_solver)). set_solver by lia. Qed.

Lemma sum_list_with_lt {A} (f g : A → nat) l :
  (∀ x, x ∈ l → f x ≤ g x)%nat → (∃ x, x ∈ l ∧ f x < g x)%nat → (sum_list_with f l < sum_list_with g l)%nat.
Proof.
  intros Hle (y & Hy & Hlt). apply list_elem_of_split in Hy as (l1 & l2 & ->).
  rewrite !sum_list_with_app. cbn.
  pose proof (sum_list_with_le f g l1 ltac:(set_solver)). pose proof (sum_list_with_le f g l2 ltac:(set_solver)). lia.
Qed.

Lemma sum_list_with_bound {A} (f : A → nat) n l :
  (∀ x, x ∈ l → f x ≤ n)%nat → (sum_list_with f l ≤ n * length l)%nat.
Proof. induction l as [|x l IH]; cbn; intros H; [lia|]. pose proof (H x ltac:(set_solver)). specialize (IH ltac:(set_solver)). lia. Qed.

Lemma filter_length_le {A} (P Q : A → Prop) `{∀ x, Decision (P x), ∀ x, Decision (Q x)} l :
  (∀ x, x ∈ l → P x → Q x) → (length (filter P l) ≤ length (filter Q l))%nat.
Proof.
  induction l as [|x l IH]; intros Hi; [done|]. specialize (IH ltac:(set_solver)).
  destruct (decide (P x)) as [Hp|Hp].
  - rewrite !filter_cons_True by set_solver. cbn. lia.
  - rewrite (filter_cons_False P) by done. destruct (decide (Q x)); [rewrite filter_cons_True by done; cbn; lia|].
    by rewrite (filter_cons_False Q).
Qed.

Lemma filter_length_lt {A} (P Q : A → Prop) `{∀ x, Decision (P x), ∀ x, Decision (Q x)} l :
  (∀ x, x ∈ l → P x → Q x) → (∃ x, x ∈ l ∧ ¬ P x ∧ Q x) → (length (filter P l) < length (filter Q l))%nat.
Proof.
  intros Hi (y & Hy & Hp & Hq). apply list_elem_of_split in Hy as (l1 & l2 & ->).
  rewrite !filter_app, !length_app, (filter_cons_False P), (filter_cons_True Q) by done. cbn.
  pose proof (filter_length_le P Q l1 ltac:(set_solver)). pose proof (filter_length_le P Q l2 ltac:(set_solver)). lia.
Qed.

Lemma action_work_bound refs i : (action_work refs i ≤ 2)%nat.
Proof. unfold action_work. destruct (is_active _ _ _); [|lia]. destruct (launch_ack_task_id _ _); lia. Qed.

Lemma action_work_positive refs i : is_active (is_assignment_id i) refs i = true → (0 < action_work refs i)%nat.
Proof. unfold action_work. intros ->. destruct (launch_ack_task_id _ _); lia. Qed.

(** More results leave less work, and none for an action with a result. *)
Lemma action_work_mono refs refs' i :
  (∀ j, accepted_ref refs j → accepted_ref refs' j) → (∀ j, failed_ref refs j → failed_ref refs' j) →
  (∀ j, is_Some (launch_ack_task_id j refs) → is_Some (launch_ack_task_id j refs')) →
  (action_work refs' i ≤ action_work refs i)%nat.
Proof.
  intros Ha Hf Hk. unfold action_work. destruct (is_active _ refs' i) eqn:E; [|lia]. apply is_active_spec in E as (_ & E1 & E2).
  assert (is_active (is_assignment_id i) refs i = true) as -> by (apply is_active_spec; naive_solver).
  specialize (Hk i). destruct (launch_ack_task_id i refs); [|destruct (launch_ack_task_id i refs'); lia].
  destruct Hk as [t ->]; [by eauto|lia].
Qed.

Lemma action_work_done refs i : accepted_ref refs i ∨ failed_ref refs i → action_work refs i = O.
Proof.
  intros H. unfold action_work. destruct (is_active _ refs i) eqn:E; [|done]. apply is_active_spec in E. naive_solver.
Qed.

Lemma launch_ack_spec i refs :
  is_Some (launch_ack_task_id i refs) ↔
  action_of i ∈ map (λ k, (la_assignment_id k, la_action_id k, la_run_revision k)) (rf_launch_acks refs).
Proof.
  unfold launch_ack_task_id. rewrite fmap_is_Some, list_elem_of_fmap. split.
  - intros [k Hk]. apply find_first_some in Hk as [Hin H]. apply same_action_spec in H as (E1 & E2 & E3).
    exists k. split; [|done]. unfold action_of. congruence.
  - intros (k & [= E1 E2 E3] & Hk). destruct (find_first _ _) eqn:E; [by eauto|]. exfalso.
    rewrite find_first_none in E. specialize (E k Hk). cbn in E. apply not_true_iff_false in E. apply E.
    by apply same_action_spec.
Qed.

(** A result or an acknowledgement for an action. *)
Lemma result_less m refs refs' i :
  rf_issued refs' = rf_issued refs → rf_activation_refs refs' = rf_activation_refs refs →
  (∀ j, accepted_ref refs j → accepted_ref refs' j) → (∀ j, failed_ref refs j → failed_ref refs' j) →
  (∀ j, is_Some (launch_ack_task_id j refs) → is_Some (launch_ack_task_id j refs')) →
  i ∈ rf_issued refs → (action_work refs' i < action_work refs i)%nat →
  (work_left m refs' < work_left m refs)%nat.
Proof.
  intros Hi Ha H1 H2 H3 Hin Hlt. unfold work_left, never_issued, wave_is_inactive. rewrite Hi, Ha.
  assert (sum_list_with (action_work refs') (rf_issued refs) < sum_list_with (action_work refs) (rf_issued refs))%nat; [|lia].
  apply sum_list_with_lt; [|by eauto]. intros j _. by apply action_work_mono.
Qed.

Section Runs.
Context (dbg : RosterError → string) (m : PlanningManifest) (Hm : manifest_sound m) (cap : Z) (Hcap : 0 < cap).

Lemma launch_selects refs id sel :
  next_planning_wave dbg m refs cap = Launch id sel →
  sel ≠ [] ∧ NoDup (map pa_assignment_id sel) ∧
  ∀ a, a ∈ sel → a ∈ pm_assignments m ∧ ¬ is_issued refs (pa_assignment_id a).
Proof.
  intros H. pose proof (next_sound dbg m Hm refs cap Hcap) as Hs. rewrite H in Hs.
  destruct Hs as (w & _ & _ & _ & Hne & Hnd & Hsel & _). split_and!; [done..|]. intros a Ha.
  destruct (Hsel a Ha) as [Hw Hi]. by apply list_elem_of_filter in Hw as [_ ?].
Qed.

Lemma launch_never_issued refs refs' sel news :
  rf_issued refs' ≡ₚ news ++ rf_issued refs → map is_assignment_id news = map pa_assignment_id sel →
  NoDup (map pa_assignment_id sel) → (∀ a, a ∈ sel → a ∈ pm_assignments m ∧ ¬ is_issued refs (pa_assignment_id a)) →
  (length (never_issued m refs') + length sel ≤ length (never_issued m refs))%nat.
Proof.
  intros Hp Hids Hnd Hsel. rewrite <- length_app. apply submseteq_length, NoDup_submseteq.
  - apply NoDup_app. split_and!.
    + apply NoDup_filter. eapply NoDup_fmap_1, (ms_distinct m Hm).
    + intros a [Hn _]%list_elem_of_filter Ha. apply Hn. rewrite Hp, map_app, Hids. apply elem_of_app. left.
      by apply list_elem_of_fmap_2.
    + by eapply NoDup_fmap_1.
  - intros a [Ha|Ha]%elem_of_app; apply list_elem_of_filter; [|by destruct (Hsel a Ha)].
    apply list_elem_of_filter in Ha as [Hn Ha]. split; [|done]. intros Hin. apply Hn. rewrite Hp, map_app. set_solver.
Qed.

Lemma step_less refs refs' : planning_step dbg m cap refs refs' → (work_left m refs' < work_left m refs)%nat.
Proof.
  intros H. unfold work_left. destruct H as [id sel news issued Hn Hids Hfresh Hp|i k acks Hi Hact Hk Ek Hp|
    i a accepted Hi Hact Ea Hp|i f failures Hi Hact Ef Hp|w r activations Hw Hr Hnot Hp].
  - destruct (launch_selects refs id sel Hn) as (Hne & Hnd & Hsel). cbn [rf_issued].
    pose proof (launch_never_issued refs {| rf_issued := issued; rf_launch_acks := rf_launch_acks refs;
      rf_accepted := rf_accepted refs; rf_terminal_failures := rf_terminal_failures refs;
      rf_activation_refs := rf_activation_refs refs |} sel news Hp Hids Hnd Hsel) as Hlen.
    rewrite (sum_list_with_perm _ _ _ Hp), sum_list_with_app.
    change (action_work {| rf_issued := issued; rf_launch_acks := _; rf_accepted := _; rf_terminal_failures := _;
      rf_activation_refs := _ |}) with (action_work refs).
    pose proof (sum_list_with_bound (action_work refs) 2 news (λ i _, action_work_bound refs i)) as Hb.
    assert (length news = length sel) as El by (rewrite <- (length_map is_assignment_id), Hids; apply length_map).
    destruct sel as [|a0 sel]; [done|]. cbn [length] in *. unfold wave_is_inactive in *. cbn [rf_activation_refs] in *. lia.
  - apply (result_less m refs _ i); cbn [rf_issued rf_activation_refs]; [done..| |done|].
    + intros j. rewrite !launch_ack_spec. cbn [rf_launch_acks]. rewrite Hp. set_solver.
    + unfold action_work. change (is_active _ _ i) with (is_active (is_assignment_id i) refs i) at 1. rewrite Hact, Hk.
      assert (is_Some (launch_ack_task_id i {| rf_issued := rf_issued refs; rf_launch_acks := acks;
        rf_accepted := rf_accepted refs; rf_terminal_failures := rf_terminal_failures refs;
        rf_activation_refs := rf_activation_refs refs |})) as [t ->]; [|lia].
      apply launch_ack_spec. cbn [rf_launch_acks]. rewrite Hp, <- Ek. set_solver.
  - apply (result_less m refs _ i); cbn [rf_issued rf_activation_refs]; [done..| |done|done|done|].
    + intros j. unfold accepted_ref. cbn [rf_accepted]. rewrite Hp. set_solver.
    + rewrite action_work_done; [by apply action_work_positive|]. left. unfold accepted_ref. cbn [rf_accepted].
      rewrite Hp, <- Ea. set_solver.
  - apply (result_less m refs _ i); cbn [rf_issued rf_activation_refs]; [done..| |done|done|].
    + intros j. unfold failed_ref. cbn [rf_terminal_failures]. rewrite Hp. set_solver.
    + rewrite action_work_done; [by apply action_work_positive|]. right. unfold failed_ref. cbn [rf_terminal_failures].
      rewrite Hp, <- Ef. set_solver.
  - change (action_work {| rf_issued := rf_issued refs; rf_launch_acks := _; rf_accepted := _; rf_terminal_failures := _;
      rf_activation_refs := _ |}) with (action_work refs). cbn [rf_issued].
    change (never_issued m {| rf_issued := _; rf_launch_acks := _; rf_accepted := _; rf_terminal_failures := _;
      rf_activation_refs := _ |}) with (never_issued m refs).
    apply Nat.add_lt_mono_l. apply filter_length_lt; unfold wave_is_inactive; cbn [rf_activation_refs].
    + intros v _. destruct (wv_activation_ref v) as [q|]; [|done]. rewrite !negb_true_iff, !bool_decide_eq_false, Hp.
      set_solver.
    + exists w. rewrite Hr, !negb_true_iff, !bool_decide_eq_false, Hp. set_solver.
Qed.

(** While something is launched or awaited, planning can go on. *)
Lemma planning_progress refs :
  match next_planning_wave dbg m refs cap with
  | Launch _ _ | WaitingOnInFlight _ _ => ∃ refs', planning_step dbg m cap refs refs'
  | _ => True
  end.
Proof.
  pose proof (next_sound dbg m Hm refs cap Hcap) as Hs.
  destruct (next_planning_wave dbg m refs cap) as [id sel|id active| | |] eqn:E; [| |done..].
  - set (r := fresh (map ap_run_revision (rf_accepted refs) ++ map tf_run_revision (rf_terminal_failures refs))).
    pose proof (infinite_is_fresh (map ap_run_revision (rf_accepted refs) ++ map tf_run_revision (rf_terminal_failures refs)))
      as Hr. fold r in Hr. rewrite elem_of_app in Hr.
    eexists. eapply (step_launch _ _ _ _ id sel
      (map (λ a, {| is_assignment_id := pa_assignment_id a; is_action_id := ""; is_run_revision := r |}) sel) _ E);
      [by rewrite map_map| |done].
    intros i (a & -> & _)%list_elem_of_fmap. unfold accepted_ref, failed_ref. split; intros (x & Ex & Hx)%list_elem_of_fmap;
      injection Ex as _ _ ->; apply Hr; [left|right]; by apply list_elem_of_fmap_2.
  - destruct Hs as (w & _ & _ & -> & Hne). destruct (wave_active m w refs) as [|v l] eqn:Ha; [done|].
    assert (v ∈ wave_active m w refs) as (a & _ & Hv)%elem_concat_map by (rewrite Ha; set_solver).
    apply elem_active_refs in Hv as (i & Hi & Hact & _). assert (is_active (is_assignment_id i) refs i = true) as Hact'.
    { apply is_active_spec in Hact. apply is_active_spec. naive_solver. }
    eexists. by eapply (step_accept _ _ _ _ i {| ap_assignment_id := is_assignment_id i; ap_action_id := is_action_id i;
      ap_run_revision := is_run_revision i |} _ Hi Hact').
Qed.

Lemma steps_bounded n refs refs' : nsteps (planning_step dbg m cap) n refs refs' → (n + work_left m refs' ≤ work_left m refs)%nat.
Proof. induction 1 as [|n x y z Hxy _ IH]; [done|]. apply step_less in Hxy. lia. Qed.

(** Planning has an outcome that nothing more is awaited for. *)
Definition settled (refs : PlanningRefs) : Prop :=
  match next_planning_wave dbg m refs cap with Launch _ _ | WaitingOnInFlight _ _ => False | _ => True end.

Lemma planning_settles refs : ∃ refs', rtc (planning_step dbg m cap) refs refs' ∧ settled refs'.
Proof.
  remember (work_left m refs) as n eqn:Hn. revert refs Hn. induction n as [n IH] using lt_wf_ind. intros refs ->.
  pose proof (planning_progress refs) as Hp. unfold settled.
  destruct (next_planning_wave dbg m refs cap) as [id sel|id active| | |] eqn:E;
    [destruct Hp as [next Hnext]..|exists refs; by rewrite E|exists refs; by rewrite E|exists refs; by rewrite E];
    destruct (IH _ (step_less _ _ Hnext) next eq_refl) as (refs' & Hr & Hs); exists refs'; split; try done; by eapply rtc_l.
Qed.

(** No assignment is issued twice. *)
Lemma issued_once refs refs' :
  rtc (planning_step dbg m cap) refs refs' →
  NoDup (map is_assignment_id (rf_issued refs)) → NoDup (map is_assignment_id (rf_issued refs')).
Proof.
  induction 1 as [|x y z Hxy _ IH]; [done|]. intros Hnd. apply IH.
  destruct Hxy as [id sel news issued Hn Hids _ Hp| | | |]; cbn [rf_issued]; [|done..].
  destruct (launch_selects x id sel Hn) as (_ & Hsel & Hun). rewrite Hp, map_app, Hids. apply NoDup_app.
  split_and!; [done| |done]. intros i (a & -> & Ha)%list_elem_of_fmap. by destruct (Hun a Ha).
Qed.
End Runs.

(** ** The theorems *)

(** C30. The check of the waves always ends, and accepts exactly the waves that have
    distinct names, known roles and known dependencies, and no cycle. *)
Theorem planning_waves_exact (roles : list PlanningAssignmentRole) (waves : list PlanningWaveDeclaration) :
  ∃ r, validate_planning_waves roles waves = Some r ∧ (r = Ok tt ↔ waves_sound (map ar_role roles) waves).
Proof. apply validate_waves_spec. Qed.

(** A manifest made of a policy that was read has as many assignments as the
    roles declare, distinct and within the cap, and each of them in exactly one
    wave. *)
Theorem policy_partition (ie : string → string) (text ws : string) (policy : PlanningPolicy) (m : PlanningManifest) :
  parse_policy ie text = Some (Ok policy) → from_policy ws policy = Ok m → policy_manifest policy m.
Proof. apply manifest_of_policy. Qed.

(** C17. What [next_planning_wave] answers is so: planning is complete only when
    every wave is; a launch is of assignments of one wave whose dependencies are
    complete, never issued before and within the caps; it waits only while
    something is in flight; it blocks only on a failure with nothing in flight. *)
Theorem next_wave_sound (dbg : RosterError → string) (ie : string → string) (text ws : string)
    (policy : PlanningPolicy) (m : PlanningManifest) (refs : PlanningRefs) (cap : Z) :
  parse_policy ie text = Some (Ok policy) → from_policy ws policy = Ok m → 0 < cap →
  outcome_sound dbg m refs cap (next_planning_wave dbg m refs cap).
Proof. intros Hp Hf. apply next_sound, (manifest_of_policy ie text ws policy); done. Qed.

(** C11. Planning ends: however launches, results and activations come, there are at
    most [work_left] of them; until the outcome is settled (complete, blocked, or
    a role without a pool) another can come; and no assignment is issued twice. *)
Theorem planning_ends (dbg : RosterError → string) (ie : string → string) (text ws : string)
    (policy : PlanningPolicy) (m : PlanningManifest) (refs : PlanningRefs) (cap : Z) :
  parse_policy ie text = Some (Ok policy) → from_policy ws policy = Ok m → 0 < cap →
  (∀ n refs', nsteps (planning_step dbg m cap) n refs refs' → (n ≤ work_left m refs)%nat) ∧
  (∀ refs', settled dbg m cap refs' ∨ ∃ next, planning_step dbg m cap refs' next) ∧
  (∃ refs', rtc (planning_step dbg m cap) refs refs' ∧ settled dbg m cap refs') ∧
  (NoDup (map is_assignment_id (rf_issued refs)) → ∀ refs', rtc (planning_step dbg m cap) refs refs' →
   NoDup (map is_assignment_id (rf_issued refs'))).
Proof.
  intros Hp Hf Hcap. pose proof (pm_sound _ _ (manifest_of_policy ie text ws policy m Hp Hf)) as Hm. split_and!.
  - intros n refs' H%steps_bounded; [lia|done..].
  - intros refs'. pose proof (planning_progress dbg m Hm cap Hcap refs') as Hpr. unfold settled.
    destruct (next_planning_wave dbg m refs' cap); auto.
  - by apply planning_settles.
  - intros Hnd refs' Hr. by eapply issued_once.
Qed.

(** ** The policy that is shipped *)

Module Shipped.
Definition no_error (raw : string) : string := raw.
Definition no_debug (e : RosterError) : string := "".
Definition policy_or (r : option (result PlanningError PlanningPolicy)) : PlanningPolicy :=
  match r with
  | Some (Ok p) => p
  | _ => {| pp_assignment_cap := 0; pp_planning_wave_cap := 0; pp_planning_max_attempts := 0; pp_roles := []; pp_waves := [] |}
  end.
Definition manifest_or (r : result PlanningError PlanningManifest) : PlanningManifest :=
  match r with
  | Ok m => m
  | Err _ => {| pm_workstream := ""; pm_planning_wave_cap := 0; pm_planning_max_attempts := 0; pm_assignments := []; pm_waves := [] |}
  end.
Definition policy : PlanningPolicy := Eval vm_compute in policy_or (parse_policy no_error PLANNING_KDL).
Definition manifest : PlanningManifest := Eval vm_compute in manifest_or (from_policy "ws" policy).
Definition fresh_refs : PlanningRefs :=
  {| rf_issued := []; rf_launch_acks := []; rf_accepted := []; rf_terminal_failures := []; rf_activation_refs := [] |}.

Lemma policy_read : parse_policy no_error PLANNING_KDL = Some (Ok policy).
Proof. vm_compute. reflexivity. Qed.
Lemma manifest_read : from_policy "ws" policy = Ok manifest.
Proof. vm_compute. reflexivity. Qed.

Lemma policy_partition_witness : policy_manifest policy manifest.
Proof. exact (policy_partition no_error PLANNING_KDL "ws" policy manifest policy_read manifest_read). Defined.

Lemma next_wave_sound_witness :
  outcome_sound no_debug manifest fresh_refs 7 (next_planning_wave no_debug manifest fresh_refs 7).
Proof. apply (next_wave_sound no_debug no_error PLANNING_KDL "ws" policy); [apply policy_read|apply manifest_read|lia]. Defined.

Lemma planning_ends_witness : ∃ refs', rtc (planning_step no_debug manifest 7) fresh_refs refs' ∧ settled no_debug manifest 7 refs'.
Proof.
  destruct (planning_ends no_debug no_error PLANNING_KDL "ws" policy manifest fresh_refs 7) as (_ & _ & H & _);
    [apply policy_read|apply manifest_read|lia|exact H].
Defined.

(** From nothing, the first wave of the shipped policy launches its seven task
    extractors. *)
Example first_launch :
  match next_planning_wave no_debug manifest fresh_refs 7 with
  | Launch id sel => (id, zlen sel) = ("P1.extract", 7)
  | _ => False
  end.
Proof. vm_compute. reflexivity. Qed.
End Shipped.
