(* ===== verification/TaskInput.v ===== *)
(** * Task documents

    [drivers/src/planning/mod.rs]: the documents an operator gives to planning
    are read from the repository, classified by their header and put together
    to an input set; the inventory, the questions and the backlinks of the
    first phases.  Bytes and texts are strings of bytes; SHA-256 and
    [to_string_lossy] are parameters. *)

From S2P Require Import Prelude RustColl RustStr Paths Os Failure Boundary Control Roles Prompt Planning.
Import Contracts.

Inductive TaskDocumentClass :=
  Authority | ContextNonAuthority | HistoricalNonAuthority | IndexNonAuthority | InlineTask.
#[global] Instance TaskDocumentClass_eq_dec : EqDecision TaskDocumentClass.
Proof. solve_decision. Defined.

Record TaskDocument := {
  td_id : string; td_path : string; td_class : TaskDocumentClass; td_authority_set_id : string; td_body : string;
  td_digest : string }.
Record TaskInputSet := {
  ti_authority_set_id : string; ti_authority_documents : list TaskDocument; ti_context_documents : list TaskDocument }.
Record Inventory := { in_atoms : list Atom }.
Record Dossier := { do_verified_facts : list string }.

(** ** UTF-8 *)

Definition byte_in (low high : Z) (a : ascii) : bool := (low <=? code a) && (code a <=? high).

(** [std::str::from_utf8(..).is_ok()]: no overlong forms, surrogates or code
    points above 10FFFF. *)
Fixpoint valid_utf8 (s : string) : bool :=
  match s with
  | "" => true
  | String a s1 =>
      if code a <? 128 then valid_utf8 s1
      else match s1 with
      | "" => false
      | String b s2 =>
          if byte_in 194 223 a then byte_in 128 191 b && valid_utf8 s2
          else match s2 with
          | "" => false
          | String c s3 =>
              if byte_in 224 239 a
              then byte_in (if code a =? 224 then 160 else 128) (if code a =? 237 then 159 else 191) b
                   && byte_in 128 191 c && valid_utf8 s3
              else match s3 with
              | "" => false
              | String d s4 =>
                  byte_in 240 244 a
                  && byte_in (if code a =? 240 then 144 else 128) (if code a =? 244 then 143 else 191) b
                  && byte_in 128 191 c && byte_in 128 191 d && valid_utf8 s4
              end
          end
      end
  end.

(** ** Boundaries *)

Definition header_boundary : BoundaryDescriptor :=
  {| bd_id := "planning.task-document-header.v1"; bd_producer := POperator;
     bd_admits := "Task files must begin byte-exactly with one recognized marker line, line 2 authority_set_id: <non-empty-id>, and an empty line 3; BOM, CRLF, unknown markers, and empty bodies are rejected.";
     bd_mode := Enforce |}.

Definition admit_task_document_header (document : TaskDocument) : result Rejection TaskDocument :=
  _ ← (if is_empty (trim (td_authority_set_id document)) || is_empty (trim (td_body document))
       then reject_declared header_boundary "empty authority_set_id or body" else Ok tt);
  Ok document.

Definition admit_task_file_pack_shape (raw_paths : list string) : result Rejection (list string) := Ok raw_paths.

Section Documents.
Context (sha256 : list Z → list Z) (to_string_lossy : string → string).


(** ** One document *)

Definition BOM : string := String (chr 239) (String (chr 187) (String (chr 191) "")).

Definition marker_class (marker : string) : option TaskDocumentClass :=
  if marker =s "[authority]" then Some Authority
  else if marker =s "[context/non-authority]" then Some ContextNonAuthority
  else if marker =s "[historical/non-authority]" then Some HistoricalNonAuthority
  else if marker =s "[index/non-authority]" then Some IndexNonAuthority
  else None.

(** [lines.next()] of the iterator of [split]: what is left, and an item. *)
Definition next_line (e : PlanningError) (lines : list string) : result PlanningError (string * list string) :=
  match lines with [] => Err e | line :: rest => Ok (line, rest) end.

Definition classify_task_document (rel : path) (bytes : string) : result PlanningError TaskDocument :=
  let display := to_os rel in
  let bad what := TaskHeader (what +:+ ":" +:+ display) in
  if starts_with BOM bytes then Err (bad "bom")
  else if contains (String CR "") bytes then Err (bad "crlf")
  else if negb (valid_utf8 bytes) then Err (bad "non-utf8")
  else if is_empty bytes then Err (bad "missing-marker")
  else
    l1 ← next_line (bad "missing-marker") (split_char LF bytes);
    class ← ok_or (marker_class l1.1) (TaskHeader ("unknown-marker:" +:+ display +:+ ":" +:+ l1.1));
    l2 ← next_line (bad "missing-authority-set") l1.2;
    authority_set_id ← ok_or (strip_prefix "authority_set_id: " l2.1) (bad "bad-authority-line");
    if is_empty authority_set_id || negb (trim authority_set_id =s authority_set_id) then Err (bad "bad-authority-id")
    else
      l3 ← next_line (bad "missing-empty-line") l2.2;
      if negb (is_empty l3.1) then Err (bad "line3-not-empty")
      else
        let body := join (String LF "") l3.2 in
        if is_empty (trim body) then Err (bad "empty-body")
        else
          let document := {| td_id := display; td_path := display; td_class := class;
                             td_authority_set_id := authority_set_id; td_body := body;
                             td_digest := sha256_hex sha256 bytes |} in
          _ ← map_err (λ error, TaskHeader (rj_actual error)) (admit_task_document_header document);
          Ok document.

(** ** The input set *)

Definition forbid_class (document : TaskDocument) : result PlanningError unit :=
  match td_class document with
  | HistoricalNonAuthority =>
      Err (HistoricalTaskInput ("forbidden [historical/non-authority] input: " +:+ td_path document))
  | IndexNonAuthority => Err (IndexTaskInput ("forbidden [index/non-authority] input: " +:+ td_path document))
  | Authority | ContextNonAuthority | InlineTask => Ok tt
  end.

Definition same_set (first document : TaskDocument) : result PlanningError unit :=
  if negb (td_authority_set_id document =s td_authority_set_id first)
  then Err (TaskAuthoritySetMismatch ("authority_set_id mismatch: " +:+ td_path first +:+ "=" +:+
              td_authority_set_id first +:+ " " +:+ td_path document +:+ "=" +:+ td_authority_set_id document))
  else Ok tt.

(** The partition of the documents; [None] is [unreachable!]. *)
Fixpoint partition (documents : list TaskDocument) : option (list TaskDocument * list TaskDocument) :=
  match documents with
  | [] => Some ([], [])
  | document :: rest =>
      match td_class document with
      | Authority | InlineTask => (λ ac, (document :: ac.1, ac.2)) <$> partition rest
      | ContextNonAuthority => (λ ac, (ac.1, document :: ac.2)) <$> partition rest
      | HistoricalNonAuthority | IndexNonAuthority => None
      end
  end.

Definition validate_task_input_set (documents : list TaskDocument) : option (result PlanningError TaskInputSet) :=
  match
    _ ← for_each forbid_class documents;
    match documents with [] => Ok tt | first :: rest => for_each (same_set first) rest end
  with
  | Err e => Some (Err e)
  | Ok _ =>
      match partition documents with
      | None => None
      | Some (authority_documents, context_documents) => Some
          match authority_documents with
          | [] => Err (TaskInputInvariant "no [authority] document supplied")
          | first :: _ =>
              if bool_decide (length context_documents = O) then Err (TaskInputInvariant "no [context/non-authority] document supplied")
              else Ok {| ti_authority_set_id := td_authority_set_id first;
                         ti_authority_documents := authority_documents; ti_context_documents := context_documents |}
          end
      end
  end.

Definition inline_task_input (body : string) : result PlanningError TaskInputSet :=
  if is_empty (trim body) then Err NoTaskAuthority
  else Ok {| ti_authority_set_id := "inline-task";
             ti_authority_documents :=
               [{| td_id := "operator-request"; td_path := "operator-request"; td_class := InlineTask;
                   td_authority_set_id := "inline-task"; td_body := body; td_digest := sha256_hex sha256 body |}];
             ti_context_documents := [] |}.

(** ** Reading the pack *)

(** [raw_path] as its bytes *)
Definition validate_repo_relative_path (raw : string) : result PlanningError path :=
  if starts_with "/" raw then Err (TaskPath ("absolute:" +:+ to_string_lossy raw))
  else if negb (valid_utf8 raw) then Err (TaskPath "non-utf8-path")
  else if contains (String (chr 92) "") raw then Err (TaskPath ("backslash:" +:+ raw))
  else
    out ← fold_res (λ out component,
            match component with
            | Normal part => Ok (push out component)
            | CurDir | ParentDir | RootDir => Err (TaskPath ("unsafe-component:" +:+ raw))
            end) [] (components raw);
    match out with [] => Err (TaskPath "empty-path") | _ => Ok out end.

Definition reject_link_path (p : path) (label : string) : prog PlanningError unit :=
  Call (SymlinkMeta p) (λ a, Ret
    match a with
    | Ok metadata => if md_symlink metadata then Err (TaskPath ("symlink:" +:+ label)) else Ok tt
    | Err error =>
        if io_kind error =s NotFound then Ok tt
        else Err (TaskPath ("inspect:" +:+ label +:+ ":" +:+ io_message error))
    end).

(** The loops of [reject_link_components] and [reject_link_ancestors]; [probe]
    is the path so far. *)
Fixpoint reject_links_from (probe : path) (rest : path) (label : string) : prog PlanningError unit :=
  match rest with
  | [] => Ret (Ok tt)
  | component :: rest' =>
      let probe := push probe component in
      prog_bind (λ _, reject_links_from probe rest' label) (reject_link_path probe label)
  end.
Definition reject_link_components (root rel : path) : prog PlanningError unit := reject_links_from root rel (to_os rel).
Definition reject_link_ancestors (p : path) (label : string) : prog PlanningError unit := reject_links_from [] p label.

Definition require_regular_file (p rel : path) : prog PlanningError unit :=
  Call (SymlinkMeta p) (λ a, Ret
    match a with
    | Err error => Err (TaskPath ("metadata:" +:+ to_os rel +:+ ":" +:+ io_message error))
    | Ok metadata => if negb (md_file metadata) then Err (TaskPath ("not-regular-file:" +:+ to_os rel)) else Ok tt
    end).

(** The loop of [classify_task_file_pack]: the paths seen and the documents. *)
Fixpoint read_pack (canonical_root : path) (seen : list path) (documents : list TaskDocument) (raw_paths : list string)
  : prog PlanningError (list TaskDocument) :=
  match raw_paths with
  | [] => Ret (Ok documents)
  | raw_path :: raw_paths' =>
      rel ← Ret (validate_repo_relative_path raw_path);
      if bool_decide (rel ∈ seen) then Ret (Err (DuplicateTaskPath rel))
      else
        _ ← reject_link_components canonical_root rel;
        canonical_full ← canonicalize (λ error, TaskPath (to_os rel +:+ ":" +:+ io_message error))
                           (path_join canonical_root rel);
        _ ← Ret (ok_or (strip_path_prefix canonical_root canonical_full) (TaskPath ("escape:" +:+ to_os rel)));
        _ ← require_regular_file canonical_full rel;
        bytes ← Call (ReadFile canonical_full) (λ a, Ret (map_err (λ error,
                  TaskPath ("read:" +:+ to_os rel +:+ ":" +:+ io_message error)) a));
        document ← Ret (classify_task_document rel bytes);
        read_pack canonical_root (rel :: seen) (documents ++ [document]) raw_paths'
  end.

(** An error of [None] is a panic. *)
Definition classify_task_file_pack (repo_root : path) (raw_paths : list string) : prog (option PlanningError) TaskInputSet :=
  documents ← prog_map_err Some (
    _ ← Ret (map_err (λ error, TaskInputOrder (rj_actual error)) (admit_task_file_pack_shape raw_paths));
    _ ← reject_link_ancestors repo_root "repo-root";
    canonical_root ← canonicalize (λ error, TaskPath ("repo-root:" +:+ io_message error)) repo_root;
    read_pack canonical_root [] [] raw_paths);
  match validate_task_input_set documents with
  | None => Ret (Err None)
  | Some r => Ret (map_err Some r)
  end.
End Documents.

(** ** The first phases *)

Definition p1_atom (index : Z) (document : TaskDocument) : result PlanningError Atom :=
  if is_empty (trim (td_body document)) then Err NoTaskAuthority
  else Ok {| atom_id := "A" +:+ show_uint (index + 1); atom_kind := Work; atom_statement := td_body document;
             atom_disposition := None |}.
Fixpoint p1_atoms (index : Z) (documents : list TaskDocument) : result PlanningError (list Atom) :=
  match documents with
  | [] => Ok []
  | document :: rest => atom ← p1_atom index document; atoms ← p1_atoms (index + 1) rest; Ok (atom :: atoms)
  end.
Definition p1_inventory_from_input_set (input_set : TaskInputSet) : result PlanningError Inventory :=
  match ti_authority_documents input_set with
  | [] => Err NoTaskAuthority
  | documents => atoms ← p1_atoms 0 documents; Ok {| in_atoms := atoms |}
  end.

(** [TaskAuthority] and [RepositoryEvidence] are traits: an argument is what the
    method of the implementation answers. *)
Definition p1_inventory (input_set : result PlanningError TaskInputSet) : result PlanningError Inventory :=
  input_set ← input_set; p1_inventory_from_input_set input_set.

Definition p2_ground (facts_for_atoms : list Atom → result PlanningError (list string)) (inventory : Inventory)
  : result PlanningError Dossier :=
  verified_facts ← facts_for_atoms (in_atoms inventory);
  match verified_facts with [] => Err NoRepositoryEvidence | _ => Ok {| do_verified_facts := verified_facts |} end.

Definition admit_question (nomination : QuestionNomination) : result PlanningError QuestionNomination :=
  if is_empty (trim (qn_material_consequence nomination)) then Err ImmaterialQuestion else Ok nomination.

Definition question_class_from_d72 (value : string) : result PlanningError QuestionClass :=
  classes ← map_err BadDeclaration (table_values DRIVER_TABLES_KDL "planning.d72-question-classes" "values");
  if negb (bool_decide (length classes = length D72_QUESTION_CLASS_VALUES))
  then Err (BadDeclaration "planning.d72-question-classes")
  else match find_first (λ rc, rc.1 =s value) (zip classes D72_QUESTION_CLASS_VALUES) with
       | Some (_, class) => Ok class
       | None => Err (RejectedQuestionClass value)
       end.

Definition require_total_dispositions (atoms : list Atom) : result PlanningError unit :=
  for_each (λ atom, match atom_disposition atom with None => Err (MissingDisposition (atom_id atom)) | Some _ => Ok tt end)
    atoms.
Definition require_material_backlinks (elements : list MaterialPlanElement) : result PlanningError unit :=
  for_each (λ element, match el_backlinks element with [] => Err (MissingBacklink (el_id element)) | _ => Ok tt end)
    elements.

(** ** What a document must look like *)

Definition class_marker (class : TaskDocumentClass) : string :=
  match class with
  | Authority => "[authority]"
  | ContextNonAuthority => "[context/non-authority]"
  | HistoricalNonAuthority => "[historical/non-authority]"
  | IndexNonAuthority => "[index/non-authority]"
  | InlineTask => ""
  end.

Definition NL : string := String LF "".

(** The text of a document: three header lines and the body. *)
Definition document_text (class : TaskDocumentClass) (authority_set_id body : string) : string :=
  class_marker class +:+ NL +:+ "authority_set_id: " +:+ authority_set_id +:+ NL +:+ NL +:+ body.

Record document_fields (class : TaskDocumentClass) (authority_set_id body : string) : Prop := {
  df_class : class ≠ InlineTask;
  df_id : authority_set_id ≠ "";
  df_trimmed : trim authority_set_id = authority_set_id;
  df_line : lacks LF authority_set_id;
  df_body : trim body ≠ "";
  df_utf8 : valid_utf8 (document_text class authority_set_id body) = true;
  df_no_cr : lacks CR (document_text class authority_set_id body);
}.

Lemma marker_class_spec marker class :
  marker_class marker = Some class ↔ class ≠ InlineTask ∧ marker = class_marker class.
Proof.
  split.
  - unfold marker_class. repeat case_bool_decide; intros [= <-]; by subst.
  - intros [Hc ->]. by destruct class.
Qed.

Lemma marker_lacks class : lacks LF (class_marker class).
Proof. by destruct class. Qed.

Lemma empty_spec s : is_empty s = true ↔ s = "".
Proof. apply bool_decide_eq_true. Qed.
Lemma nonempty_spec s : is_empty s = false ↔ s ≠ "".
Proof. apply bool_decide_eq_false. Qed.

Section Exact.
Context (sha256 : list Z → list Z).

Definition document_of (rel : path) (class : TaskDocumentClass) (authority_set_id body : string) : TaskDocument :=
  {| td_id := to_os rel; td_path := to_os rel; td_class := class; td_authority_set_id := authority_set_id;
     td_body := body; td_digest := sha256_hex sha256 (document_text class authority_set_id body) |}.

Lemma document_lines class id body :
  lacks LF id →
  split_char LF (document_text class id body) =
  class_marker class :: ("authority_set_id: " +:+ id) :: "" :: split_char LF body.
Proof.
  intros Hid. unfold document_text, NL. change (String LF "" +:+ ?s) with (String LF s).
  rewrite split_char_app by apply marker_lacks. f_equal. rewrite <- str_app_assoc.
  change (String LF "" +:+ ?s) with (String LF s). rewrite split_char_app; [done|].
  apply lacks_app. split; [done|exact Hid].
Qed.

Lemma lines_document bytes marker line2 rest :
  split_char LF bytes = marker :: line2 :: "" :: rest → rest ≠ [] →
  bytes = marker +:+ NL +:+ line2 +:+ NL +:+ NL +:+ join NL rest.
Proof.
  intros H Hne. rewrite <- (join_split_char LF bytes), H. fold NL. destruct rest as [|r rest]; [done|].
  change (join NL (marker :: line2 :: "" :: r :: rest)) with
    (marker +:+ NL +:+ line2 +:+ NL +:+ "" +:+ NL +:+ join NL (r :: rest)). done.
Qed.

(** A document is read exactly from a text with its header. *)
Lemma classify_spec rel bytes d :
  classify_task_document sha256 rel bytes = Ok d ↔
  ∃ class id body, bytes = document_text class id body ∧ document_fields class id body ∧
    d = document_of rel class id body.
Proof.
  unfold classify_task_document. split.
  - intros H. apply guard_ok in H as [_ H]. apply guard_ok in H as [Hcr H]. apply guard_ok in H as [Hutf H].
    apply guard_ok in H as [_ H]. apply bind_ok in H as ([l1 r1] & H1 & H). apply bind_ok in H as (class & Hc & H).
    apply bind_ok in H as ([l2 r2] & H2 & H). apply bind_ok in H as (id & Hid & H). apply guard_ok in H as [Hi H].
    apply bind_ok in H as ([l3 r3] & H3 & H). apply guard_ok in H as [Hl3 H]. apply guard_ok in H as [Hb H].
    apply bind_ok in H as (admitted & _ & [= <-]). cbn [fst snd] in *.
    apply ok_or_ok, marker_class_spec in Hc as [Hcl ->]. apply ok_or_ok, strip_prefix_spec in Hid as ->.
    apply negb_false_iff, empty_spec in Hl3 as ->. apply orb_false_iff in Hi as [Hi1 Hi2].
    destruct (split_char LF bytes) as [|x1 xs] eqn:Hs; [done|]. injection H1 as -> ->. destruct r1 as [|x2 ys]; [done|].
    injection H2 as -> ->. destruct r2 as [|x3 zs]; [done|]. injection H3 as -> ->.
    assert (r3 ≠ []) as Hne by (intros ->; by apply nonempty_spec in Hb).
    pose proof (lines_document _ _ _ _ Hs Hne) as Hbytes. pose proof (split_char_lacks LF bytes) as Hl. rewrite Hs in Hl.
    assert (bytes = document_text class id (join NL r3)) as -> by (rewrite Hbytes; reflexivity).
    exists class, id, (join NL r3). split_and!; [done| |done]. apply negb_false_iff in Hutf, Hi2.
    apply contains_char_lacks in Hcr. apply bool_decide_eq_true in Hi2. apply nonempty_spec in Hi1, Hb.
    split; [done..| |done|done|done]. rewrite !Forall_cons in Hl. destruct Hl as (_ & Hl & _).
    by apply (lacks_app LF "authority_set_id: " id) in Hl as [_ ?].
  - intros (class & id & body & -> & [Hcl Hid Htrim Hline Hbody Hutf Hcr] & ->).
    assert (starts_with BOM (document_text class id body) = false) as -> by by destruct class.
    apply contains_char_lacks in Hcr as ->. rewrite Hutf. cbn [negb].
    assert (is_empty (document_text class id body) = false) as -> by by destruct class.
    rewrite document_lines by done. cbn [next_line mbind result_mbind result_bind fst snd].
    rewrite (proj2 (marker_class_spec _ class)) by done. cbn [ok_or mbind result_mbind result_bind].
    rewrite strip_prefix_app. cbn [ok_or mbind result_mbind result_bind fst snd].
    rewrite (proj2 (nonempty_spec id)) by done. rewrite (bool_decide_true (trim id = id)) by done. cbn [orb negb].
    cbn [next_line mbind result_mbind result_bind fst snd]. change (is_empty "") with true. cbn [negb].
    rewrite join_split_char, (proj2 (nonempty_spec (trim body))) by done.
    unfold admit_task_document_header. cbn [td_authority_set_id td_body].
    rewrite Htrim, (proj2 (nonempty_spec id)), (proj2 (nonempty_spec (trim body))) by done. done.
Qed.
End Exact.

(** ** What an input set is *)

Definition is_authority (d : TaskDocument) : bool := match td_class d with Authority | InlineTask => true | _ => false end.
Definition is_context (d : TaskDocument) : bool := match td_class d with ContextNonAuthority => true | _ => false end.

(** The documents may be given together, and this is their set. *)
Record input_set_of (documents : list TaskDocument) (s : TaskInputSet) : Prop := {
  is_classes : ∀ d, d ∈ documents → is_authority d = true ∨ is_context d = true;
  is_one_set : ∀ d, d ∈ documents → td_authority_set_id d = ti_authority_set_id s;
  is_authorities : ti_authority_documents s = filter (λ d, is_authority d = true) documents;
  is_contexts : ti_context_documents s = filter (λ d, is_context d = true) documents;
  is_some_authority : ti_authority_documents s ≠ [];
  is_some_context : ti_context_documents s ≠ [];
}.

Lemma forbid_class_ok d : forbid_class d = Ok tt ↔ is_authority d = true ∨ is_context d = true.
Proof. unfold forbid_class, is_authority, is_context. destruct (td_class d); naive_solver. Qed.

Lemma same_set_ok f d : same_set f d = Ok tt ↔ td_authority_set_id d = td_authority_set_id f.
Proof. unfold same_set. destruct (td_authority_set_id d =s td_authority_set_id f) eqn:E; cbn; to_prop; naive_solver. Qed.

Lemma partition_spec documents :
  (∀ d, d ∈ documents → is_authority d = true ∨ is_context d = true) →
  partition documents = Some (filter (λ d, is_authority d = true) documents, filter (λ d, is_context d = true) documents).
Proof.
  induction documents as [|d ds IH]; intros H; [done|]. cbn [partition]. rewrite IH by set_solver.
  destruct (H d ltac:(set_solver)) as [Hd|Hd]; unfold is_authority, is_context in *;
    destruct (td_class d) eqn:E; try discriminate;
    rewrite !filter_cons; rewrite E; by repeat (destruct (decide _); try discriminate; try congruence).
Qed.

Lemma validate_set_spec documents :
  ∃ r, validate_task_input_set documents = Some r ∧ ∀ s, r = Ok s ↔ input_set_of documents s.
Proof.
  unfold validate_task_input_set.
  set (checks := for_each forbid_class documents ≫= _).
  assert (checks = Ok tt ↔ (∀ d, d ∈ documents → is_authority d = true ∨ is_context d = true) ∧
    ∀ f, head documents = Some f → ∀ d, d ∈ documents → td_authority_set_id d = td_authority_set_id f) as Hc.
  { subst checks. rewrite bind_ok. setoid_rewrite for_each_ok. setoid_rewrite Forall_forall. setoid_rewrite forbid_class_ok.
    destruct documents as [|f rest]; [set_solver|]. setoid_rewrite for_each_ok. setoid_rewrite Forall_forall.
    setoid_rewrite same_set_ok. cbn [head]. split.
    - intros (_ & H & Hs). split; [done|]. intros g [= <-] d [->|Hd]%elem_of_cons; auto.
    - intros [H Hs]. exists tt. split; [done|]. intros d Hd. apply Hs; set_solver. }
  destruct checks as [[]|e].
  - destruct Hc as [[H1 H2] _]; [done|]. rewrite partition_spec by done. eexists. split; [done|]. intros s.
    remember (filter (λ d, is_authority d = true) documents) as au eqn:Eau.
    remember (filter (λ d, is_context d = true) documents) as co eqn:Eco.
    destruct au as [|a au']; [split; [done|]; intros [_ _ E _ Hne _]; congruence|].
    case_bool_decide as Hco; [split; [done|]; intros [_ _ _ E _ Hne]; destruct co; [congruence|done]|].
    assert (∀ d, d ∈ documents → td_authority_set_id d = td_authority_set_id a) as Hone.
    { assert (a ∈ documents) as Ha.
      { assert (a ∈ a :: au') as Ha by set_solver. rewrite Eau in Ha. by apply list_elem_of_filter in Ha as [_ ?]. }
      destruct documents as [|f rest]; [by apply elem_of_nil in Ha|]. intros d Hd.
      rewrite (H2 f eq_refl d Hd). symmetry. by apply (H2 f). }
    split.
    + intros [= <-]. split; cbn; [done..|by intros E; rewrite E in Hco].
    + intros [_ Hid E1 E2 _ _]. destruct s as [sid sa sc]. cbn in *. rewrite E1, E2, <- Eau, <- Eco. f_equal. f_equal.
      symmetry. rewrite <- (Hid a); [done|]. assert (a ∈ a :: au') as Ha by set_solver. rewrite Eau in Ha.
      by apply list_elem_of_filter in Ha as [_ ?].
  - eexists. split; [done|]. intros s. split; [done|]. intros [H1 H2 _ _ _ _]. exfalso. destruct Hc as [_ Hc].
    discriminate Hc. split; [done|]. intros f Hf d Hd. rewrite (H2 d Hd). symmetry. apply H2.
    destruct documents; [done|]. injection Hf as ->. set_solver.
Qed.

(** ** What reading a pack does *)

(** Nothing is written, and file contents are read below the root only. *)
Definition reads_below (root : path) (q : request) : Prop :=
  match q with
  | ReadFile p => ∃ rest, p = root ++ rest
  | SymlinkMeta _ | Canonicalize _ => True
  | _ => False
  end.

Definition plain (c : Component) : Prop := ∃ name, c = Normal name.

Section Pack.
Context (sha256 : list Z → list Z) (to_string_lossy : string → string).

Lemma relative_path_ok raw rel :
  validate_repo_relative_path to_string_lossy raw = Ok rel → rel = components raw ∧ rel ≠ [] ∧ Forall plain rel.
Proof.
  unfold validate_repo_relative_path. intros H. apply guard_ok in H as [_ H]. apply guard_ok in H as [_ H].
  apply guard_ok in H as [_ H]. apply bind_ok in H as (out & Hf & H). destruct out as [|c out]; [done|]. injection H as <-.
  apply (fold_res_inv _ (λ done out, out = done ∧ Forall plain out)) in Hf as [E Hp]; [by split_and!|split; [done|constructor]|].
  intros done x s s' [-> Hp] _ Hx. destruct x; try discriminate. injection Hx as <-. cbn. split; [done|].
  apply Forall_app. split; [done|]. repeat constructor. by eexists.
Qed.

Lemma reject_links_wp root probe rest label :
  wp (reads_below root) (λ _, True) (reject_links_from probe rest label).
Proof.
  revert probe. induction rest as [|c rest IH]; intros probe; cbn [reject_links_from]; [done|].
  apply wp_ask; [done..|]. intros a b _. apply IH.
Qed.

(** The documents of a pack: one for each path, of distinct files. *)
Definition pack_of (raw_paths : list string) (rels : list path) (documents : list TaskDocument) : Prop :=
  Forall2 (λ raw rel, validate_repo_relative_path to_string_lossy raw = Ok rel) raw_paths rels ∧ NoDup rels ∧
  Forall2 (λ rel d, ∃ bytes, classify_task_document sha256 rel bytes = Ok d) rels documents.

Lemma read_pack_wp root done seen documents raw_paths :
  pack_of done (rev seen) documents →
  wp (reads_below root) (λ r, match r with
      | Ok documents => ∃ rels, pack_of (done ++ raw_paths) rels documents
      | Err _ => True
      end) (read_pack sha256 to_string_lossy root seen documents raw_paths).
Proof.
  revert done seen documents. induction raw_paths as [|raw raw_paths IH]; intros done seen documents (Hr & Hnd & Hd);
    cbn [read_pack].
  { cbn. rewrite app_nil_r. by exists (rev seen). }
  apply wp_lift; [done|]. intros rel Hrel. case_bool_decide as Hseen; [done|].
  eapply wp_seq; [apply reject_links_wp|done..|]. intros _ _.
  apply wp_ask; [done..|]. intros a canonical_full _. apply wp_lift; [done|]. intros rest Hin.
  apply ok_or_ok, strip_path_prefix_spec in Hin.
  apply wp_ask; [done..|]. intros a' _ _. apply wp_ask; [by exists rest|done|]. intros a'' bytes _.
  apply wp_lift; [done|]. intros d Hcl. replace (done ++ raw :: raw_paths) with ((done ++ [raw]) ++ raw_paths)
    by by rewrite <- app_assoc. apply IH. cbn [rev]. split_and!.
  - apply Forall2_app; [done|]. by repeat constructor.
  - apply NoDup_app. split_and!; [done| |apply NoDup_singleton]. intros x Hx Hx'%list_elem_of_singleton. subst x.
    apply Hseen. apply list_elem_of_In, in_rev in Hx. by apply list_elem_of_In.
  - apply Forall2_app; [done|]. repeat constructor. by exists bytes.
Qed.
End Pack.

(** ** The theorems *)

(** C33. A document is accepted exactly when its bytes are a known marker line, an
    authority set line, an empty line and a body that is not blank, in UTF-8 and
    without carriage returns; the document then has the class, the set and the
    body that were written, and the digest of the bytes. *)
Theorem task_document_exact (sha256 : list Z → list Z) (rel : path) (bytes : string) (d : TaskDocument) :
  classify_task_document sha256 rel bytes = Ok d ↔
  ∃ class id body, bytes = document_text class id body ∧ document_fields class id body ∧
    d = document_of sha256 rel class id body.
Proof. apply classify_spec. Qed.

(** Reading a pack writes nothing and never panics, reads contents below the
    canonical root only, and gives an input set exactly of the documents of the
    given paths, which are distinct plain relative paths: at least one authority
    and one context document of one authority set, and no other. *)
Theorem task_pack_sound (sha256 : list Z → list Z) (to_string_lossy : string → string) :
  (∀ repo_root raw_paths,
     wp (λ q, match q with ReadFile _ | SymlinkMeta _ | Canonicalize _ => True | _ => False end)
       (λ r, match r with
        | Ok s => ∃ rels documents, pack_of sha256 to_string_lossy raw_paths rels documents ∧
                    Forall (Forall plain) rels ∧ input_set_of documents s
        | Err None => False
        | Err (Some _) => True
        end) (classify_task_file_pack sha256 to_string_lossy repo_root raw_paths)) ∧
  (∀ root raw_paths, wp (reads_below root) (λ _, True) (read_pack sha256 to_string_lossy root [] [] raw_paths)).
Proof.
  assert (∀ root raw_paths, wp (reads_below root) (λ r, match r with
      | Ok documents => ∃ rels, pack_of sha256 to_string_lossy raw_paths rels documents | Err _ => True end)
      (read_pack sha256 to_string_lossy root [] [] raw_paths)) as Hpack.
  { intros root raw_paths. apply (read_pack_wp sha256 to_string_lossy root [] []). repeat split; constructor. }
  split; [|intros root raw_paths; by eapply wp_mono, Hpack].
  intros repo_root raw_paths. apply wp_bind, wp_map_err. cbn [prog_bind mbind prog_mbind].
  eapply wp_seq; [apply (reject_links_wp [])|by intros []|done|]. intros _ _.
  apply wp_ask; [done|done|]. intros a root _. eapply wp_mono, Hpack; [by intros []|].
  intros [documents|e]; [|done]. intros (rels & Hp). cbn.
  destruct (validate_set_spec documents) as (r & -> & Hr). destruct r as [s|e]; [|done]. cbn.
  exists rels, documents. split_and!; [done| |by apply Hr]. destruct Hp as (Hp & _ & _).
  apply Forall_forall. intros rel [i Hi]%list_elem_of_lookup. destruct (Forall2_lookup_r _ _ _ _ _ Hp Hi) as (raw & _ & H).
  by apply relative_path_ok in H as (_ & _ & ?).
Qed.

(** The five question classes are known by their names in the package table,
    and by no other. *)
Theorem question_class_exact (value : string) (class : QuestionClass) :
  question_class_from_d72 value = Ok class ↔
  (value, class) ∈ [("invalidated-decision", InvalidatedDecision); ("missing-material-decision", MissingMaterialDecision);
                    ("material-underdetermination", MaterialUnderdetermination); ("dod-hole", DodHole);
                    ("unsafe-irreversible", UnsafeIrreversible)].
Proof.
  unfold question_class_from_d72.
  assert (table_values DRIVER_TABLES_KDL "planning.d72-question-classes" "values" =
    Ok ["invalidated-decision"; "missing-material-decision"; "material-underdetermination"; "dod-hole"; "unsafe-irreversible"])
    as -> by (vm_compute; reflexivity).
  cbn [map_err mbind result_mbind result_bind]. rewrite bool_decide_true by done. cbn [negb D72_QUESTION_CLASS_VALUES zip_with].
  unfold find_first. cbn [List.find fst]. rewrite !elem_of_cons, elem_of_nil.
  repeat (case_bool_decide; [subst value; split; [intros [= <-]; tauto|intros [Hv|[Hv|[Hv|[Hv|[Hv|[]]]]]]; congruence]|]).
  split; [done|]. intros [Hv|[Hv|[Hv|[Hv|[Hv|[]]]]]]; congruence.
Qed.
