(* ===== verification/TaskAnchors.v ===== *)
(** * Task anchors

    [drivers/src/planning/mod.rs]: the anchors of task documents that a task
    atom may cite, from the paths and digests of the documents and the headings
    and markers of their bodies, and the manifest of the canonical ones.  The
    Unicode tables for characters above ASCII and the JSON form of a string are
    parameters. *)

From S2P Require Import Prelude RustColl RustStr Paths Os Failure Boundary Control Roles Prompt Planning Json TaskInput.

(** ** Characters *)

(** [chars]: a character is its bytes. *)
Definition continues (s : string) : bool := match s with String b _ => continuation b | "" => false end.
Fixpoint chars (s : string) : list string :=
  match s with
  | "" => []
  | String a s' =>
      match chars s' with
      | c :: cs => if continues s' then String a c :: cs else String a "" :: c :: cs
      | [] => [String a ""]
      end
  end.

(** [char::is_whitespace] *)
Definition char_is_whitespace (c : string) : bool := bool_decide (strip_ws c = Some "").

Definition strip_suffix (p s : string) : option string := str_rev <$> strip_prefix (str_rev p) (str_rev s).

(** [trim_end_matches('#')] *)
Fixpoint strip_hashes (s : string) : string :=
  match s with String a s' => if ascii_dec a "#" then strip_hashes s' else s | "" => "" end.
Definition trim_end_hashes (s : string) : string := str_rev (strip_hashes (str_rev s)).

(** ** Headings and markers *)

Record TaskSectionAnchor := { sa_anchor : string; sa_section_number : option string }.
Inductive ExplicitSectionAnchor := Start (token : string) | End_ (token : string) | Point (token : string).

Fixpoint leading_hashes (s : string) : nat * string :=
  match s with
  | String a s' => if ascii_dec a "#" then let '(n, rest) := leading_hashes s' in (S n, rest) else (O, s)
  | "" => (O, "")
  end.

Definition markdown_heading_title (line : string) : option string :=
  let '(marker_count, after_markers) := leading_hashes (trim_start line) in
  if negb ((1 <=? marker_count)%nat && (marker_count <=? 6)%nat) then None
  else if negb (bool_decide (is_Some (strip_ws after_markers))) then None
  else Some (trim_end (trim_end_hashes (trim after_markers))).

Section Unicode.
(** [char::to_lowercase] and [char::is_alphanumeric] of characters above ASCII *)
Context (unicode_lowercase : string → list string) (unicode_alphanumeric : string → bool).

Definition to_lowercase (c : string) : list string :=
  match c with String a "" => if code a <? 128 then [String (lower_byte a) ""] else unicode_lowercase c
             | _ => unicode_lowercase c end.
Definition is_alphanumeric (c : string) : bool :=
  match c with String a "" => if code a <? 128 then is_ascii_alphanumeric a else unicode_alphanumeric c
             | _ => unicode_alphanumeric c end.

(** The loop of [markdown_heading_slug] *)
Fixpoint slug_loop (cs : list string) (slug : string) (pending_dash : bool) : string :=
  match cs with
  | [] => slug
  | ch :: cs' =>
      if is_alphanumeric ch
      then slug_loop cs' ((if pending_dash && negb (is_empty slug) then slug +:+ "-" else slug) +:+ ch) false
      else if char_is_whitespace ch || (ch =s "-") then slug_loop cs' slug true
      else slug_loop cs' slug pending_dash
  end.
Definition markdown_heading_slug (title : string) : string := slug_loop (chars title ≫= to_lowercase) "" false.

(** The count is a [usize] far above the number of lines of a document. *)
Definition unique_heading_anchor (slug : string) (heading_counts : gmap string Z) : string * gmap string Z :=
  let count := default 0 (heading_counts !! slug) in
  (if count =? 0 then slug else slug +:+ "-" +:+ show_uint count, <[slug := count + 1]> heading_counts).

Fixpoint take_digits (s : string) : string * string :=
  match s with
  | String a s' => if is_ascii_digit a then let '(d, rest) := take_digits s' in (String a d, rest) else ("", s)
  | "" => ("", "")
  end.

(** The loop over [.digits]; every turn removes two bytes at least. *)
Fixpoint number_groups (fuel : nat) (number s : string) : string * string :=
  match fuel with
  | O => (number, s)
  | S fuel' =>
      match s with
      | String "." (String d s') =>
          if is_ascii_digit d
          then let '(digits, rest) := take_digits (String d s') in number_groups fuel' (number +:+ "." +:+ digits) rest
          else (number, s)
      | _ => (number, s)
      end
  end.

Definition heading_section_number (title : string) : option string :=
  let text := trim_start title in
  match take_digits text with
  | ("", _) => None
  | (first, rest) =>
      let '(number, rest) := number_groups (String.length rest) first rest in
      let rest := match rest with String "." rest' => rest' | _ => rest end in
      match rest with
      | "" => Some number
      | String a _ =>
          if bool_decide (is_Some (strip_ws rest)) || bool_decide (a = "-"%char) || bool_decide (a = ":"%char)
             || bool_decide (a = ")"%char)
          then Some number else None
      end
  end.

Definition token_char (a : ascii) : bool :=
  is_ascii_alphanumeric a || bool_decide (a = "-"%char) || bool_decide (a = "_"%char) || bool_decide (a = "."%char).

Definition explicit_html_section_anchor (line : string) : option ExplicitSectionAnchor :=
  after ← strip_prefix "<!--" (trim line);
  inner ← strip_suffix "-->" after;
  let inner := trim inner in
  let '(token, marker) :=
    match split_once ":" inner with
    | Some (before, after) => (trim before, Some (trim after))
    | None => (inner, None)
    end in
  if is_empty token || negb (str_all token_char token) then None
  else match marker with
       | None => Some (Point token)
       | Some m => if m =s "start" then Some (Start token) else if m =s "end" then Some (End_ token) else None
       end.

(** The state of the loop of [task_document_section_anchors] *)
Record Sections := {
  se_anchors : list TaskSectionAnchor; se_heading_counts : gmap string Z; se_active : gset string }.

Definition explicit_step (st : Sections) (line : string) : Sections :=
  match explicit_html_section_anchor line with
  | None => st
  | Some (Start anchor) =>
      {| se_anchors := se_anchors st ++ [{| sa_anchor := anchor; sa_section_number := None |}];
         se_heading_counts := se_heading_counts st; se_active := {[anchor]} ∪ se_active st |}
  | Some (End_ anchor) =>
      {| se_anchors := se_anchors st; se_heading_counts := se_heading_counts st; se_active := se_active st ∖ {[anchor]} |}
  | Some (Point anchor) =>
      {| se_anchors := se_anchors st ++ [{| sa_anchor := anchor; sa_section_number := None |}];
         se_heading_counts := se_heading_counts st; se_active := se_active st |}
  end.

Definition heading_step (st : Sections) (line : string) : Sections :=
  match markdown_heading_title line with
  | None => st
  | Some title =>
      let section_number := heading_section_number title in
      let slug := markdown_heading_slug title in
      let st :=
        if is_empty slug then st
        else let '(anchor, counts) := unique_heading_anchor slug (se_heading_counts st) in
             {| se_anchors := se_anchors st ++ [{| sa_anchor := anchor; sa_section_number := section_number |}];
                se_heading_counts := counts; se_active := se_active st |} in
      match section_number with
      | None => st
      | Some number =>
          {| se_anchors := se_anchors st ++
               map (λ anchor, {| sa_anchor := anchor; sa_section_number := Some number |}) (btree_set (se_active st));
             se_heading_counts := se_heading_counts st; se_active := se_active st |}
      end
  end.

Definition section_step (st : Sections) (line : string) : Sections := heading_step (explicit_step st line) line.
Definition task_document_section_anchors (body : string) : list TaskSectionAnchor :=
  se_anchors (fold_left section_step (lines body) {| se_anchors := []; se_heading_counts := ∅; se_active := ∅ |}).

(** ** The registry *)

Record CanonicalTaskSource := { cs_class : string; cs_path : string; cs_digest : string; cs_source : string }.
#[global] Instance CanonicalTaskSource_eq_dec : EqDecision CanonicalTaskSource.
Proof. solve_decision. Defined.

(** The derived order *)
Definition source_order : CanonicalTaskSource → CanonicalTaskSource → comparison :=
  cmp_then (cmp_on cs_class String.compare) (cmp_then (cmp_on cs_path String.compare)
    (cmp_then (cmp_on cs_digest String.compare) (cmp_on cs_source String.compare))).

#[global] Instance source_order_total : TotalCmp source_order.
Proof. unfold source_order. apply _. Qed.

Record TaskAnchorRegistry := {
  ta_anchors : gset string; ta_canonical_sources : list CanonicalTaskSource;
  ta_canonical_source_manifest_json : string; ta_canonical_source_manifest : string }.

Definition task_document_class_name (class : TaskDocumentClass) : string :=
  match class with
  | Authority => "authority"
  | ContextNonAuthority => "context/non-authority"
  | HistoricalNonAuthority => "historical/non-authority"
  | IndexNonAuthority => "index/non-authority"
  | InlineTask => "inline-task"
  end.

Definition canonical_task_source (document : TaskDocument) : CanonicalTaskSource :=
  {| cs_class := task_document_class_name (td_class document); cs_path := td_path document; cs_digest := td_digest document;
     cs_source := "task://" +:+ td_digest document +:+ "/" +:+ td_path document +:+ "#whole-file" |}.

(** The sets of the loop: identities, and digest and class by path. *)
Definition reject_identity (acc : gset (string * string * string) * gmap string (string * string)) (document : TaskDocument)
  : result PlanningError (gset (string * string * string) * gmap string (string * string)) :=
  let '(identities, by_path) := acc in
  let class := task_document_class_name (td_class document) in
  let identity := (td_path document, td_digest document, class) in
  if bool_decide (identity ∈ identities)
  then Err (TaskInputInvariant ("duplicate task document identity: class=" +:+ class +:+ " path=" +:+ td_path document +:+
              " digest=" +:+ td_digest document))
  else
    let ok := Ok ({[identity]} ∪ identities, <[td_path document := (td_digest document, class)]> by_path) in
    match by_path !! td_path document with
    | None => ok
    | Some (seen_digest, seen_class) =>
        if negb ((seen_digest, seen_class) =s (td_digest document, class))
        then Err (TaskInputInvariant ("conflicting task document path identity: path=" +:+ td_path document +:+
               " first_class=" +:+ seen_class +:+ " first_digest=" +:+ seen_digest +:+ " second_class=" +:+ class +:+
               " second_digest=" +:+ td_digest document))
        else ok
    end.
Definition reject_conflicting_task_document_identities (documents : list TaskDocument) : result PlanningError unit :=
  _ ← fold_res reject_identity (∅, ∅) documents; Ok tt.

Definition task_document_basename (p : string) : option string :=
  match last (components p) with Some (Normal name) => if is_empty name then None else Some name | _ => None end.

Definition task_document_basename_counts (documents : list TaskDocument) : gmap string Z :=
  fold_left (λ counts document,
    match task_document_basename (td_path document) with
    | Some basename => <[basename := default 0 (counts !! basename) + 1]> counts
    | None => counts
    end) documents ∅.

(** The section sign, U+00A7 *)
Definition SECTION_SIGN : string := String (chr 194) (String (chr 167) "").

Definition insert_task_document_anchor_forms (anchors : gset string) (base : string)
    (section_anchors : list TaskSectionAnchor) : gset string :=
  fold_left (λ anchors section,
    let anchors := {[base +:+ "#" +:+ sa_anchor section]} ∪ anchors in
    match sa_section_number section with
    | None => anchors
    | Some number =>
        {[base +:+ "#" +:+ sa_anchor section +:+ " " +:+ SECTION_SIGN +:+ number]} ∪
        ({[base +:+ " " +:+ SECTION_SIGN +:+ number]} ∪ anchors)
    end) section_anchors ({[base +:+ "#whole-file"]} ∪ ({[base]} ∪ anchors)).

(** The selectors of a document, a [BTreeSet] *)
Definition selectors (basename_counts : gmap string Z) (document : TaskDocument) : gset string :=
  let base := {[td_digest document +:+ "/" +:+ td_path document]} ∪ {[td_path document]} in
  match task_document_basename (td_path document) with
  | Some basename => if bool_decide (basename_counts !! basename = Some 1) then {[basename]} ∪ base else base
  | None => base
  end.

Definition insert_document (basename_counts : gmap string Z) (anchors : gset string) (document : TaskDocument) : gset string :=
  let section_anchors := task_document_section_anchors (td_body document) in
  let anchors :=
    fold_left (λ anchors selector,
      insert_task_document_anchor_forms
        (insert_task_document_anchor_forms anchors ("task://" +:+ selector) section_anchors) selector section_anchors)
      (btree_set (selectors basename_counts document)) anchors in
  {[cs_source (canonical_task_source document)]} ∪ anchors.

(** ** The manifest of the sources *)

Section Manifest.
Context (json_text : string → result string string).

Fixpoint indent (n : nat) : string := match n with O => "" | S n' => "  " +:+ indent n' end.

(** [serde_json::to_vec_pretty]: a block of items, one on a line *)
Definition pretty_block (open close : string) (depth : nat) (items : list string) : string :=
  match items with
  | [] => open +:+ close
  | _ => open +:+ NL +:+ join ("," +:+ NL) (map (λ item, indent (S depth) +:+ item) items) +:+ NL +:+ indent depth +:+ close
  end.

Fixpoint write_pretty (depth : nat) (v : Value) : result string string :=
  match v with
  | VNull => Ok "null"
  | VBool b => Ok (if b then "true" else "false")
  | VNumber text => Ok text
  | VString text => json_text text
  | VArray items => texts ← collect_res (write_pretty (S depth)) items; Ok (pretty_block "[" "]" depth texts)
  | VObject members =>
      texts ← collect_res (λ '(key, item), name ← json_text key; text ← item; Ok (name +:+ ": " +:+ text))
                (map (λ '(key, item), (key, write_pretty (S depth) item)) members);
      Ok (pretty_block "{" "}" depth texts)
  end.

(** A struct is written in the order of its fields. *)
Definition source_value (s : CanonicalTaskSource) : Value :=
  VObject [("class", VString (cs_class s)); ("path", VString (cs_path s)); ("digest", VString (cs_digest s));
           ("source", VString (cs_source s))].
Definition manifest_value (sources : list CanonicalTaskSource) : Value :=
  VObject
    [("schema", VString "autopilot.task_source_manifest.v1");
     ("boundary_id", VString "planning.task-atoms.v1");
     ("source_semantics", VString "New model submissions must copy the decoded JSON sources[].source string exactly into atoms[].sources; do not copy JSON escape syntax literally.");
     ("compatibility", VString "Package-derived legacy aliases may be accepted by the validator for compatibility only; arbitrary values and prefix matches are never accepted.");
     ("sources", VArray (map source_value sources))].
Definition canonical_task_source_manifest_json (sources : list CanonicalTaskSource) : result PlanningError string :=
  map_err (λ error, TaskInputInvariant ("task source manifest json: " +:+ error)) (write_pretty 0 (manifest_value sources)).

Definition JSON_BEGIN : string := "BEGIN_CANONICAL_TASK_SOURCE_MANIFEST_JSON".
Definition JSON_END : string := "END_CANONICAL_TASK_SOURCE_MANIFEST_JSON".

(** What [serde_json] writes is UTF-8. *)
Definition render_canonical_task_source_manifest (json : string) : result PlanningError string :=
  Ok ("## Package-authoritative source manifest for planning.task-atoms.v1" +:+ NL +:+ NL +:+
      "New model submissions must copy the decoded JSON `sources[].source` string exactly into `atoms[].sources`; do not copy JSON escape syntax literally. These are the only canonical task:// source atoms for the bound package documents." +:+ NL +:+
      "Layer-5 `json://...#/body` Context Manifest addresses are context-read addresses, not legal atoms[].sources values. Do not use json:// values, path:line values, task://...#L line fragments, or task://...#/body as atoms[].sources." +:+ NL +:+ NL +:+
      JSON_BEGIN +:+ NL +:+ json +:+ NL +:+ JSON_END +:+ NL).

Definition input_documents (s : TaskInputSet) : list TaskDocument := ti_authority_documents s ++ ti_context_documents s.

(** [TaskAnchorRegistry::from_input_set] *)
Definition from_input_set (input_set : TaskInputSet) : result PlanningError TaskAnchorRegistry :=
  let documents := input_documents input_set in
  _ ← reject_conflicting_task_document_identities documents;
  let basename_counts := task_document_basename_counts documents in
  let anchors := fold_left (insert_document basename_counts) documents ∅ in
  let canonical_sources := sort_by source_order (remove_dups (map canonical_task_source documents)) in
  json ← canonical_task_source_manifest_json canonical_sources;
  manifest ← render_canonical_task_source_manifest json;
  Ok {| ta_anchors := anchors; ta_canonical_sources := canonical_sources; ta_canonical_source_manifest_json := json;
        ta_canonical_source_manifest := manifest |}.
End Manifest.
End Unicode.

Definition has (r : TaskAnchorRegistry) (source : string) : bool := bool_decide (source ∈ ta_anchors r).

(** ** What the registry knows *)

(** The forms of an anchor below a base: the base, its whole file, its sections. *)
Inductive anchor_form (base : string) (sections : list TaskSectionAnchor) : string → Prop :=
| form_base : anchor_form base sections base
| form_whole : anchor_form base sections (base +:+ "#whole-file")
| form_section s : s ∈ sections → anchor_form base sections (base +:+ "#" +:+ sa_anchor s)
| form_number s n : s ∈ sections → sa_section_number s = Some n →
    anchor_form base sections (base +:+ " " +:+ SECTION_SIGN +:+ n)
| form_section_number s n : s ∈ sections → sa_section_number s = Some n →
    anchor_form base sections (base +:+ "#" +:+ sa_anchor s +:+ " " +:+ SECTION_SIGN +:+ n).

(** A loop that inserts. *)
Lemma fold_left_union {A} (step : gset string → A → gset string) (F : A → string → Prop) :
  (∀ S a x, x ∈ step S a ↔ F a x ∨ x ∈ S) →
  ∀ l S x, x ∈ fold_left step l S ↔ (∃ a, a ∈ l ∧ F a x) ∨ x ∈ S.
Proof.
  intros Hstep l. induction l as [|a l IH]; intros S x; cbn; [set_solver|]. rewrite IH, Hstep. set_solver.
Qed.

Lemma elem_anchor_forms anchors base sections x :
  x ∈ insert_task_document_anchor_forms anchors base sections ↔ anchor_form base sections x ∨ x ∈ anchors.
Proof.
  unfold insert_task_document_anchor_forms.
  rewrite (fold_left_union _ (λ s x, x = base +:+ "#" +:+ sa_anchor s ∨ ∃ n, sa_section_number s = Some n ∧
    (x = base +:+ " " +:+ SECTION_SIGN +:+ n ∨ x = base +:+ "#" +:+ sa_anchor s +:+ " " +:+ SECTION_SIGN +:+ n))).
  - rewrite !elem_of_union, !elem_of_singleton. split.
    + intros [(s & Hs & [->|(n & Hn & [->| ->])])|[->|[->|?]]]; eauto using anchor_form.
    + intros [[| |s Hs|s n Hs Hn|s n Hs Hn]|H]; eauto 10.
  - intros S s y. destruct (sa_section_number s) as [n|]; rewrite !elem_of_union, !elem_of_singleton; naive_solver.
Qed.

Section Known.
Context (lower : string → list string) (alnum : string → bool).

Abbreviation sections_of d := (task_document_section_anchors lower alnum (td_body d)).

(** The anchors of one document under the selectors it has. *)
Definition document_anchor (counts : gmap string Z) (d : TaskDocument) (x : string) : Prop :=
  x = cs_source (canonical_task_source d) ∨
  ∃ selector, selector ∈ selectors counts d ∧
    (anchor_form ("task://" +:+ selector) (sections_of d) x ∨ anchor_form selector (sections_of d) x).

Lemma elem_insert_document counts anchors d x :
  x ∈ insert_document lower alnum counts anchors d ↔ document_anchor counts d x ∨ x ∈ anchors.
Proof.
  unfold insert_document, document_anchor. rewrite elem_of_union, elem_of_singleton,
    (fold_left_union _ (λ selector x, anchor_form ("task://" +:+ selector) (sections_of d) x ∨ anchor_form selector (sections_of d) x)).
  - setoid_rewrite elem_of_btree_set. naive_solver.
  - intros S selector y. rewrite !elem_anchor_forms. naive_solver.
Qed.

Lemma elem_anchors counts documents x :
  x ∈ fold_left (insert_document lower alnum counts) documents ∅ ↔ ∃ d, d ∈ documents ∧ document_anchor counts d x.
Proof. rewrite (fold_left_union _ (document_anchor counts)); [set_solver|]. apply elem_insert_document. Qed.
End Known.

(** ** Names of documents *)

Lemma basename_counts_spec documents name :
  default 0 (task_document_basename_counts documents !! name) =
  zlen (filter (λ d, task_document_basename (td_path d) = Some name) documents).
Proof.
  unfold task_document_basename_counts. rewrite <- (rev_involutive documents).
  induction (rev documents) as [|d ds IH]; [done|]. cbn [rev]. rewrite fold_left_app, filter_app. cbn [fold_left].
  unfold zlen in *. rewrite length_app, Nat2Z.inj_add, <- IH. rewrite filter_cons, filter_nil.
  destruct (task_document_basename (td_path d)) as [b|] eqn:Hb; [|rewrite decide_False by done; cbn; lia].
  destruct (decide (b = name)) as [->|Hne].
  - rewrite lookup_insert_eq, decide_True by done. cbn. lia.
  - rewrite lookup_insert_ne, decide_False by congruence. cbn. lia.
Qed.

(** Documents are told apart: a path has one digest and class, and occurs once. *)
Lemma identities_ok documents :
  reject_conflicting_task_document_identities documents = Ok tt → NoDup (map td_path documents).
Proof.
  unfold reject_conflicting_task_document_identities. intros ([ids by_path] & H & _)%bind_ok. revert H.
  set (identity := λ d, (td_path d, td_digest d, task_document_class_name (td_class d))).
  intros H. cut ((∀ p dc, by_path !! p = Some dc → (p, dc.1, dc.2) ∈ ids) ∧
    (∀ p, p ∈ map td_path documents → is_Some (by_path !! p)) ∧ NoDup (map td_path documents)); [tauto|]. revert H.
  apply (fold_res_inv _ (λ done acc, (∀ p dc, acc.2 !! p = Some dc → (p, dc.1, dc.2) ∈ acc.1) ∧
    (∀ p, p ∈ map td_path done → is_Some (acc.2 !! p)) ∧ NoDup (map td_path done))).
  { split_and!; [set_solver|set_solver|constructor]. }
  intros done d [ids0 by0] acc' (H1 & H2 & H3) _ H. cbn in H1, H2. unfold reject_identity in H.
  apply guard_ok in H as [Hid H]. to_prop.
  destruct (by0 !! td_path d) as [[sd sc]|] eqn:Hl.
  - exfalso. destruct (negb _) eqn:E in H; [done|]. to_prop. apply Hid. specialize (H1 _ _ Hl). cbn in H1.
    by injection E as -> ->.
  - injection H as <-. cbn. split_and!.
    + intros p dc [[<- <-]|[_ Hp]]%lookup_insert_Some; [set_solver|]. specialize (H1 _ _ Hp). set_solver.
    + intros p. rewrite map_app. intros [Hp|Hp]%elem_of_app.
      * destruct (decide (p = td_path d)) as [->|]; [rewrite lookup_insert_eq; by eexists|].
        rewrite lookup_insert_ne by done. auto.
      * apply list_elem_of_singleton in Hp as ->. rewrite lookup_insert_eq. by eexists.
    + rewrite map_app. apply NoDup_app. split_and!; [done| |apply NoDup_singleton].
      intros p Hp ->%list_elem_of_singleton. destruct (H2 _ Hp) as [? ?]. congruence.
Qed.

(** ** The theorem *)

(** How a document may be named: by digest and path, by its path, or by a file
    name no other document of the set has. *)
Inductive selector_of (documents : list TaskDocument) (d : TaskDocument) : string → Prop :=
| by_digest : selector_of documents d (td_digest d +:+ "/" +:+ td_path d)
| by_path : selector_of documents d (td_path d)
| by_name name : task_document_basename (td_path d) = Some name →
    (∀ d', d' ∈ documents → task_document_basename (td_path d') = Some name → d' = d) → selector_of documents d name.

Lemma unique_in_filter {A} (P : A → Prop) `{∀ x, Decision (P x)} l x :
  NoDup l → x ∈ l → P x → zlen (filter P l) = 1 ↔ ∀ y, y ∈ l → P y → y = x.
Proof.
  intros Hnd Hx HP. assert (x ∈ filter P l) as Hf by by apply list_elem_of_filter. unfold zlen. split.
  - intros Hlen y Hy HPy. assert (y ∈ filter P l) as Hf' by by apply list_elem_of_filter.
    destruct (filter P l) as [|z [|]]; cbn in Hlen; try lia. set_solver.
  - intros Hall. assert (filter P l ≡ₚ [x]) as ->; [|done]. apply NoDup_Permutation; [by apply NoDup_filter|apply NoDup_singleton|].
    intros y. rewrite list_elem_of_filter, list_elem_of_singleton. naive_solver.
Qed.

Lemma elem_selectors documents d selector :
  NoDup documents → d ∈ documents →
  selector ∈ selectors (task_document_basename_counts documents) d ↔ selector_of documents d selector.
Proof.
  intros Hnd Hd. unfold selectors.
  assert (∀ b, task_document_basename (td_path d) = Some b →
    (task_document_basename_counts documents !! b = Some 1 ↔
     ∀ d', d' ∈ documents → task_document_basename (td_path d') = Some b → d' = d)) as Hcount.
  { intros b Hb. rewrite <- (unique_in_filter (λ d, task_document_basename (td_path d) = Some b)) by done.
    rewrite <- basename_counts_spec. destruct (task_document_basename_counts documents !! b); cbn; naive_solver. }
  destruct (task_document_basename (td_path d)) as [b|] eqn:Hb.
  - case_bool_decide as Hc; rewrite !elem_of_union, !elem_of_singleton.
    + split; [intros [->|[->| ->]]; [apply by_name; [done|by apply Hcount]|constructor..]|].
      intros []; [auto..|left; congruence].
    + split; [intros [->| ->]; constructor|]. intros [| |name Hn Hu]; [auto..|]. exfalso. apply Hc.
      rewrite Hb in Hn. injection Hn as <-. by apply Hcount.
  - rewrite !elem_of_union, !elem_of_singleton. split; [intros [->| ->]; constructor|].
    intros [| |name Hn Hu]; [auto..|congruence].
Qed.

(** The registry of an input set knows exactly the anchors of its documents:
    the bare selector or its [task://] form, the whole file, and the sections
    found in the body; no other text, and no prefix of one.  Documents have
    distinct paths, and the manifest lists each of them once, in order. *)
Theorem task_anchors_exact (lower : string → list string) (alnum : string → bool)
    (json_text : string → result string string) (s : TaskInputSet) (r : TaskAnchorRegistry) :
  from_input_set lower alnum json_text s = Ok r →
  NoDup (map td_path (input_documents s)) ∧
  (∀ source, has r source = true ↔ ∃ d selector, d ∈ input_documents s ∧ selector_of (input_documents s) d selector ∧
     (anchor_form ("task://" +:+ selector) (task_document_section_anchors lower alnum (td_body d)) source ∨
      anchor_form selector (task_document_section_anchors lower alnum (td_body d)) source)) ∧
  ta_canonical_sources r ≡ₚ map canonical_task_source (input_documents s) ∧
  StronglySorted (cmp_le source_order) (ta_canonical_sources r).
Proof.
  unfold from_input_set. intros ([] & Hid & H)%bind_ok. apply bind_ok in H as (json & _ & H).
  apply bind_ok in H as (manifest & _ & [= <-]). apply identities_ok in Hid. split; [done|]. cbn.
  pose proof (NoDup_fmap_1 _ _ Hid) as Hnd. split_and!.
  - intros source. unfold has. cbn. rewrite bool_decide_eq_true, elem_anchors. unfold document_anchor. split.
    + intros (d & Hd & [->|(selector & Hs & Hf)]).
      * exists d, (td_digest d +:+ "/" +:+ td_path d). split_and!; [done|constructor|]. left.
        change (cs_source (canonical_task_source d)) with
          ("task://" +:+ td_digest d +:+ "/" +:+ td_path d +:+ "#whole-file").
        replace ("task://" +:+ td_digest d +:+ "/" +:+ td_path d +:+ "#whole-file") with
          (("task://" +:+ td_digest d +:+ "/" +:+ td_path d) +:+ "#whole-file") by by rewrite !str_app_assoc.
        constructor.
      * apply elem_selectors in Hs; [by exists d, selector|done..].
    + intros (d & selector & Hd & Hs & Hf). exists d. split; [done|]. right. exists selector. split; [|done].
      by apply elem_selectors.
  - rewrite sort_by_perm. apply NoDup_Permutation; [apply NoDup_remove_dups| |intros x; apply elem_of_remove_dups].
    apply (NoDup_fmap_1 cs_path). change (cs_path <$> ?l) with (map cs_path l). by rewrite map_map.
  - apply sort_by_sorted, source_order_total.
Qed.

(** ** An input set *)

Module AnchorSample.
Definition no_lower (c : string) : list string := [c].
Definition no_alnum (c : string) : bool := false.
Definition quoted (s : string) : result string string := Ok (QUOTE +:+ s +:+ QUOTE).
Definition authority : TaskDocument :=
  {| td_id := "docs/Task.md"; td_path := "docs/Task.md"; td_class := Authority; td_authority_set_id := "set-1";
     td_body := "# 1. Build the Thing" +:+ NL +:+ "<!-- scope:start -->" +:+ NL +:+ "## 1.2 Two-step, Proof" +:+ NL +:+ "<!-- scope:end -->";
     td_digest := "d1" |}.
Definition context : TaskDocument :=
  {| td_id := "notes/Task.md"; td_path := "notes/Task.md"; td_class := ContextNonAuthority; td_authority_set_id := "set-1";
     td_body := "Background."; td_digest := "d2" |}.
Definition input : TaskInputSet :=
  {| ti_authority_set_id := "set-1"; ti_authority_documents := [authority]; ti_context_documents := [context] |}.
Definition registry_or (r : result PlanningError TaskAnchorRegistry) : TaskAnchorRegistry :=
  match r with
  | Ok r => r
  | Err _ => {| ta_anchors := ∅; ta_canonical_sources := []; ta_canonical_source_manifest_json := ""; ta_canonical_source_manifest := "" |}
  end.
Definition registry : TaskAnchorRegistry := registry_or (from_input_set no_lower no_alnum quoted input).

Example sections_found :
  map sa_anchor (task_document_section_anchors no_lower no_alnum (td_body authority)) =
  ["1-build-the-thing"; "scope"; "12-two-step-proof"; "scope"].
Proof. vm_compute. reflexivity. Qed.

(** A heading, a numbered section and the path are known; a file name that two
    documents share, and a line of a file, are not. *)
Example anchors_known :
  map (has registry) ["docs/Task.md#1-build-the-thing"; "task://d1/docs/Task.md " +:+ SECTION_SIGN +:+ "1.2"; "notes/Task.md";
                      "Task.md"; "task://d1/docs/Task.md#L3"] = [true; true; true; false; false].
Proof. vm_compute. reflexivity. Qed.

Lemma task_anchors_exact_witness :
  has registry "docs/Task.md#scope" = true ∧ NoDup (map td_path (input_documents input)).
Proof.
  destruct (task_anchors_exact no_lower no_alnum quoted input registry) as (Hnd & Hhas & _); [vm_compute; reflexivity|].
  split; [|exact Hnd]. apply Hhas. exists authority, "docs/Task.md". split_and!; [apply list_elem_of_here|constructor|].
  right. apply (form_section "docs/Task.md" _ {| sa_anchor := "scope"; sa_section_number := None |}).
  apply list_elem_of_In. vm_compute. right. left. reflexivity.
Defined.
End AnchorSample.
