(* ===== verification/ModelBoundary.v ===== *)
(** * Model boundaries of planning

    [drivers/src/planning/mod.rs]: what models submit during planning (task
    atoms, scout reports, questions, work maps and plan reviews) is checked at
    enforcing boundaries, and accepted as the text it was.  Decoding JSON is a
    parameter ([Deserialize]), as are the texts that [{:?}] writes. *)

From S2P Require Import Prelude RustColl RustStr Paths Os Generated Failure Boundary Control Authority Roles Prompt Planning Json TaskInput TaskAnchors.

(** ** Payloads *)

Inductive PlanningAtomKind := AkAcceptance | AkConstraint | AkDecision | AkPremise | AkQuestion | AkReference | AkWork.
Record TaskAtom := { ta_id : Id; ta_kind : PlanningAtomKind; ta_text : string; ta_sources : list Ref }.
Record TaskAtoms := { tas_atoms : list TaskAtom }.

Record ScoutFinding := { sf_path : Path; sf_observation : string; sf_evidence_ref : Ref }.
Record ScoutDossier := { sd_findings : list ScoutFinding }.

Inductive PlanningQuestionClass :=
  QcDodHole | QcInvalidatedDecision | QcMaterialUnderdetermination | QcMissingMaterialDecision | QcUnsafeIrreversible.
Record PlanningQuestion := { pq_class : PlanningQuestionClass; pq_evidence : string; pq_consequence : string }.
Record Questions := { qs_questions : list PlanningQuestion }.

Inductive PlanUnitKind := Implementation.
Record PlanUnit := {
  pu_id : Id; pu_kind : PlanUnitKind; pu_objective : string; pu_criteria : list string; pu_depends_on : list Id;
  pu_files : list Path; pu_commands : list PlanUnitCommand; pu_package_checks : list PlanUnitPackageCheck;
  pu_links : list Id }.
Inductive RecoveryDisposition := InfrastructureBlocked | NoDefect | Repaired | RequiresNewAuthority | UnsafeBlocked.
Record WorkMapRecovery := {
  wr_disposition : RecoveryDisposition; wr_diagnosis_refs : list Ref; wr_root_cause : string;
  wr_affected_unit_ids : list Id; wr_actions : list string; wr_preserved_authority : list string;
  wr_repair_evidence_refs : list Ref }.
Record WorkMap := { wm_units : list PlanUnit; wm_recovery : option WorkMapRecovery }.

Inductive PlanningReviewVerdict := RvAdvisory | RvBlocked | RvBlocker | RvFail | RvNeedsFix | RvPass.
Record PlanReviewVerdict := { rv_criterion_id : Id; rv_verdict : PlanningReviewVerdict; rv_finding : option string }.
Record PlanReview := { pr_verdicts : list PlanReviewVerdict }.

Record PlanningAtomRegistryAtom := {
  ra_id : Id; ra_producer_assignment_id : Id; ra_kind : PlanningAtomKind; ra_text : string; ra_sources : list Ref }.
Record PlanningAtomRegistry := {
  rg_schema : string; rg_workstream : Id; rg_authority_set_id : string; rg_producer_assignment_ids : list Id;
  rg_atoms : list PlanningAtomRegistryAtom }.

Definition REQUIRED_PLAN_REVIEW_CRITERIA : list string :=
  ["review.mandatory-input-accounting"; "review.authority-fidelity"; "review.completeness-and-traceability";
   "review.internal-consistency-and-scheduling"; "review.context-sufficiency"; "review.verification-strength";
   "review.forward-validation"].

(** ** Rejections *)

Section Runtime.
Context (runtime : BoundaryRuntime).

(** [None] is the panic of a boundary that does not enforce. *)
Definition force_rejection (boundary_id field expected got hint : string) : option Rejection :=
  match reject runtime ("boundary_id=" +:+ boundary_id +:+ "; field=" +:+ field +:+ "; expected=" +:+ expected +:+
                        "; got=" +:+ got +:+ "; hint=" +:+ hint) with
  | Err rejection => Some rejection
  | Ok _ => None
  end.
Definition reject_value {T} (boundary_id field expected got hint : string) : result (option Rejection) T :=
  Err (force_rejection boundary_id field expected got hint).

(** [if bad { reject_value(..)?; }] *)
Definition reject_if (bad : bool) (boundary_id field expected got hint : string) : result (option Rejection) unit :=
  if bad then reject_value boundary_id field expected got hint else Ok tt.

Definition is_blank (value : string) : bool := all char_is_whitespace (chars value).

Definition parse_model_payload {T} `{Deserialize T} (raw boundary_id : string) : result (option Rejection) T :=
  map_err (λ error, force_rejection boundary_id "payload" "JSON matching the generated terminating-tool schema"
             ("json:" +:+ error) "Call the declared autopilot_submit_* tool; do not return prose as the carrier.")
    (from_text raw).

(** ** Task atoms, scout reports and questions *)

Definition validate_task_atoms_shape (atoms : TaskAtoms) : result (option Rejection) unit :=
  for_each (λ atom,
    _ ← reject_if (is_blank (ta_id atom)) "planning.task-atoms.v1" "atoms.id" "non-empty atom id" (ta_id atom)
          "Use the stable atom id supplied or derived for this task atom.";
    _ ← reject_if (is_blank (ta_text atom)) "planning.task-atoms.v1" "atoms.text" "non-empty task-authority text"
          (ta_text atom) "Summarize the operator-task statement instead of leaving the atom blank.";
    reject_if (match ta_sources atom with [] => true | _ => false end) "planning.task-atoms.v1" "atoms.sources"
      "at least one task-document anchor" "[]" "Attach the source anchor that supports the atom.") (tas_atoms atoms).

Definition validate_scout_dossier_shape (dossier : ScoutDossier) : result (option Rejection) unit :=
  for_each (λ finding,
    _ ← reject_if (is_blank (sf_path finding)) "planning.scout-dossier.v1" "findings.path"
          "non-empty repository-relative path" (sf_path finding) "Cite the repository path that supports this finding.";
    _ ← reject_if (is_blank (sf_observation finding)) "planning.scout-dossier.v1" "findings.observation"
          "non-empty repository observation" (sf_observation finding) "State the fact observed in the repository.";
    reject_if (is_blank (sf_evidence_ref finding)) "planning.scout-dossier.v1" "findings.evidence_ref"
      "non-empty evidence ref" (sf_evidence_ref finding) "Attach the evidence reference produced by the scout read.")
    (sd_findings dossier).

Definition validate_questions_shape (questions : Questions) : result (option Rejection) unit :=
  for_each (λ question,
    _ ← reject_if (is_blank (pq_evidence question)) "planning.questions.v1" "questions.evidence"
          "non-empty evidence summary" (pq_evidence question)
          "Name the evidence gap or contradiction that makes the question material.";
    reject_if (is_blank (pq_consequence question)) "planning.questions.v1" "questions.consequence"
      "non-empty material consequence" (pq_consequence question)
      "Explain what cannot safely be planned without the answer.") (qs_questions questions).

(** ** Plan reviews *)

(** The loop over the verdicts: the criteria seen *)
Definition review_step (required : gset string) (seen : gset string) (verdict : PlanReviewVerdict)
  : result (option Rejection) (gset string) :=
  let criterion := rv_criterion_id verdict in
  if negb (bool_decide (criterion ∈ required)) || bool_decide (criterion ∈ seen)
  then reject_value "planning.plan-review.v1" "verdicts.criterion_id" "each exact required review criterion exactly once"
         criterion
         "Use only the seven package-declared review criterion ids without omissions or duplicates."
  else Ok ({[criterion]} ∪ seen).

Definition validate_plan_review_shape (review : PlanReview) : result (option Rejection) unit :=
  let required : gset string := list_to_set REQUIRED_PLAN_REVIEW_CRITERIA in
  seen ← fold_res (review_step required) ∅ (pr_verdicts review);
  let missing := btree_set (required ∖ seen) in
  reject_if (match missing with [] => false | _ => true end) "planning.plan-review.v1" "verdicts"
    "the complete exact required review criterion set" ("missing=" +:+ join "," missing)
    "Verdict all seven package-declared review criteria in one submission.".

(** ** Work maps *)

(** [{:?}] of the lists and commands in the texts *)
Context (debug_strings : list string → string) (debug_command : PlanUnitCommand → string).

Definition rejected_by (r : result string unit) (boundary_id field expected : string) (got : string → string)
    (hint : string) : result (option Rejection) unit :=
  match r with Err error => reject_value boundary_id field expected (got error) hint | Ok _ => Ok tt end.

Definition validate_unit_shape (unit_ : PlanUnit) : result (option Rejection) unit :=
  let B := "planning.work-map.v1" in
  _ ← reject_if (is_blank (pu_id unit_)) B "units.id" "non-empty unit id" (pu_id unit_)
        "Use a stable id for each plan unit.";
  _ ← reject_if (is_blank (pu_objective unit_)) B "units.objective" "non-empty unit objective" (pu_objective unit_)
        "State the unit objective.";
  _ ← reject_if (match pu_criteria unit_ with [] => true | _ => false end) B "units.criteria"
        "one or more acceptance criteria" "[]" "Attach criteria that make the unit verifiable.";
  _ ← rejected_by (validate_exact_unit_file_authority (pu_files unit_)) B "units.files"
        "one or more unique exact repository-relative regular-file destinations"
        (λ error, "files=" +:+ debug_strings (pu_files unit_) +:+ "; " +:+ error)
        ("Enumerate every leaf file. Remove directory, ancestor/prefix, wildcard-pattern, " +:+
         "reserved, absolute, parent, current-directory, empty, or duplicate authority.");
  _ ← reject_if (match pu_commands unit_ with [] => true | _ => false end) B "units.commands"
        "one or more focused verification commands" "[]"
        "Fold verification into command obligations on the implementation unit.";
  _ ← for_each (λ command,
        rejected_by (validate_plan_unit_command_effect_authority command) B "units.commands"
          "non-empty command/expected/scope authority with valid closed effect, generated_paths, and handling"
          (λ error, debug_command command +:+ "; " +:+ error)
          "Declare exact command-effect authority without inferring from the command string.") (pu_commands unit_);
  _ ← rejected_by (validate_plan_unit_package_checks (pu_package_checks unit_) (zlen (pu_criteria unit_))) B
        "units.package_checks" "unique closed Core-owned package checks with nonempty expectations" (λ error, error)
        "Use clean-exact-package-tip for committed-tip criteria and never encode package state as child shell.";
  reject_if (match pu_links unit_ with [] => true | _ => false end) B "units.links" "one or more atom links" "[]"
    "Link the unit to accepted atom ids.".

Definition validate_work_map_shape (work_map : WorkMap) : result (option Rejection) unit :=
  let B := "planning.work-map.v1" in
  let units := wm_units work_map in
  _ ← reject_if (match units with [] => true | _ => false end) B "units" "one or more plan units" "[]"
        "Submit at least one executable plan unit.";
  _ ← for_each validate_unit_shape units;
  _ ← rejected_by (validate_exact_plan_file_union (units ≫= pu_files)) B "units.files"
        "a plan-wide union of non-overlapping exact regular-file destinations" (λ error, error)
        "Remove every directory/ancestor entry and retain only its explicitly enumerated leaf files.";
  rejected_by (validate_package_check_closure_authority (map (λ u, (pu_id u, pu_files u,
                 match pu_package_checks u with [] => false | _ => true end)) units)) B "units.files"
    "each package-check closure unit owns the complete work-map file union" (λ error, error)
    "Put every declared plan path in the closure unit so final repair never needs new authority.".

Definition validate_work_map_links (work_map : WorkMap) (atom_ids : gset string) (registry_digest : string)
  : result (option Rejection) unit :=
  let unknown := btree_set (list_to_set (filter (λ link, link ∉ atom_ids) (wm_units work_map ≫= pu_links))) in
  reject_if (match unknown with [] => false | _ => true end) "planning.work-map.v1" "units.links"
    ("exact ids from atom registry " +:+ registry_digest +:+ "; allowed=[" +:+ join "," (btree_set atom_ids) +:+ "]")
    ("unknown ids " +:+ debug_strings unknown) "Replace placeholders with ids from the bound atom registry.".

(** ** Atoms of an assignment *)

(** The state of the loop: the ids seen, bad ids and duplicates *)
Definition atom_step (prefix : string) (anchors : TaskAnchorRegistry) (acc : gset string * list string * list string)
    (atom : TaskAtom) : result (option Rejection) (gset string * list string * list string) :=
  let '(seen, bad_prefix, duplicates) := acc in
  let id := ta_id atom in
  let bad_prefix := match strip_prefix prefix id with
                    | Some local => if is_empty local then bad_prefix ++ [id] else bad_prefix
                    | None => bad_prefix ++ [id]
                    end in
  let duplicates := if bool_decide (id ∈ seen) then duplicates ++ [id] else duplicates in
  _ ← for_each (λ source, reject_if (negb (has anchors source)) "planning.task-atoms.v1" "atoms.sources"
          "a real task-document anchor supplied by package authority" source
          "Use only task:// anchors from the task authority manifest.") (ta_sources atom);
  Ok ({[id]} ∪ seen, bad_prefix, duplicates).

Definition validate_task_atom_assignment (atoms : TaskAtoms) (prefix : string) (anchors : TaskAnchorRegistry)
  : result (option Rejection) unit :=
  _ ← reject_if (is_empty prefix) "planning.task-atoms.v1" "atoms.id" "non-empty runner-issued atom id prefix" "missing"
        "The runner must bind the assignment prefix before asking for atoms.";
  acc ← fold_res (atom_step prefix anchors) (∅, [], []) (tas_atoms atoms);
  let '(_, bad_prefix, duplicates) := acc in
  _ ← reject_if (match bad_prefix with [] => false | _ => true end) "planning.task-atoms.v1" "atoms.id"
        ("exact prefix " +:+ prefix +:+ " plus a non-empty local id") ("offending ids " +:+ debug_strings bad_prefix)
        "Keep the local suffix you intend, but emit it under the runner-issued prefix.";
  reject_if (match duplicates with [] => false | _ => true end) "planning.task-atoms.v1" "atoms.id"
    ("unique full ids under expected prefix " +:+ prefix) ("duplicate ids " +:+ debug_strings duplicates)
    "Emit each task atom id at most once in this submission.".

(** ** Acceptance: the text that was submitted *)

Section Accept.
Context `{Deserialize TaskAtoms, Deserialize ScoutDossier, Deserialize Questions, Deserialize WorkMap,
  Deserialize PlanReview}.

Definition accept_task_atoms (raw : string) : result (option Rejection) string :=
  atoms ← parse_model_payload raw "planning.task-atoms.v1"; _ ← validate_task_atoms_shape atoms; Ok raw.
Definition accept_scout_dossier (raw : string) : result (option Rejection) string :=
  dossier ← parse_model_payload raw "planning.scout-dossier.v1"; _ ← validate_scout_dossier_shape dossier; Ok raw.
Definition accept_questions (raw : string) : result (option Rejection) string :=
  questions ← parse_model_payload raw "planning.questions.v1"; _ ← validate_questions_shape questions; Ok raw.
Definition accept_work_map (raw : string) : result (option Rejection) string :=
  work_map ← parse_model_payload raw "planning.work-map.v1"; _ ← validate_work_map_shape work_map; Ok raw.
Definition accept_plan_review (raw : string) : result (option Rejection) string :=
  review ← parse_model_payload raw "planning.plan-review.v1"; _ ← validate_plan_review_shape review; Ok raw.
Definition accept_task_atoms_for_assignment (raw prefix : string) (anchors : TaskAnchorRegistry)
  : result (option Rejection) string :=
  atoms ← parse_model_payload raw "planning.task-atoms.v1";
  _ ← validate_task_atoms_shape atoms;
  _ ← validate_task_atom_assignment atoms prefix anchors;
  Ok raw.
Definition accept_work_map_for_atoms (raw : string) (atom_ids : gset string) (registry_digest : string)
  : result (option Rejection) string :=
  work_map ← parse_model_payload raw "planning.work-map.v1";
  _ ← validate_work_map_shape work_map;
  _ ← validate_work_map_links work_map atom_ids registry_digest;
  Ok raw.
End Accept.
End Runtime.

(** ** Payloads that were decoded *)

Section Payloads.
Context (BOUNDARIES : list StaticRef).

Definition with_runtime {T} (id : string) (f : BoundaryRuntime → result (option Rejection) T) : result (option Rejection) T :=
  match boundary_runtime BOUNDARIES id with None => Err None | Some runtime => f runtime end.

Definition accept_task_atoms_payload (atoms : TaskAtoms) : result (option Rejection) TaskAtoms :=
  with_runtime "planning.task-atoms.v1" (λ runtime, _ ← validate_task_atoms_shape runtime atoms; Ok atoms).
Definition accept_scout_dossier_payload (dossier : ScoutDossier) : result (option Rejection) ScoutDossier :=
  with_runtime "planning.scout-dossier.v1" (λ runtime, _ ← validate_scout_dossier_shape runtime dossier; Ok dossier).
Definition accept_questions_payload (questions : Questions) : result (option Rejection) Questions :=
  with_runtime "planning.questions.v1" (λ runtime, _ ← validate_questions_shape runtime questions; Ok questions).
Definition accept_plan_review_payload (review : PlanReview) : result (option Rejection) PlanReview :=
  with_runtime "planning.plan-review.v1" (λ runtime, _ ← validate_plan_review_shape runtime review; Ok review).
Definition validate_task_atoms_for_assignment (debug_strings : list string → string) (atoms : TaskAtoms)
    (prefix : string) (anchors : TaskAnchorRegistry) : result (option Rejection) unit :=
  with_runtime "planning.task-atoms.v1" (λ runtime,
    _ ← validate_task_atoms_shape runtime atoms;
    validate_task_atom_assignment runtime debug_strings atoms prefix anchors).
End Payloads.

(** ** The atom registry *)

Definition ATOM_REGISTRY_MAX_BYTES : Z := 256 * 1024.

Definition is_hex_digit (a : ascii) : bool :=
  is_ascii_digit a || ((97 <=? code a) && (code a <=? 102)) || ((65 <=? code a) && (code a <=? 70)).
Definition is_sha256_hex (value : string) : bool := (str_len value =? 64) && str_all is_hex_digit value.

(** The bytes that [take(n)] lets through *)
Fixpoint str_take (n : nat) (s : string) : string :=
  match n, s with S n', String a s' => String a (str_take n' s') | _, _ => "" end.

Section Registry.
Context (sha256 : list Z → list Z) `{Deserialize PlanningAtomRegistry}.

(** The loop of [reject_link_components_for_absolute] *)
Fixpoint registry_links_from (probe rest : path) : prog string unit :=
  match rest with
  | [] => Ret (Ok tt)
  | component :: rest' =>
      let probe := push probe component in
      Call (SymlinkMeta probe) (λ a,
        match a with
        | Ok metadata => if md_symlink metadata then Ret (Err ("symlink component: " +:+ to_os probe))
                         else registry_links_from probe rest'
        | Err error => if io_kind error =s NotFound then registry_links_from probe rest'
                       else Ret (Err ("inspect " +:+ to_os probe +:+ ": " +:+ io_message error))
        end)
  end.
Definition reject_link_components_for_absolute (p : path) : prog string unit :=
  if negb (is_absolute p) then Ret (Err ("path is not absolute: " +:+ to_os p)) else registry_links_from [] p.

Definition registry_id_step (ids : gset string) (atom : PlanningAtomRegistryAtom) : result PlanningError (gset string) :=
  if is_empty (trim (ra_id atom)) then Err (ContextGap "atom-registry-empty-id")
  else if bool_decide (ra_id atom ∈ ids) then Err (ContextGap ("atom-registry-duplicate:" +:+ ra_id atom))
  else Ok ({[ra_id atom]} ∪ ids).

Definition gap (what : string) (error : io_error) : PlanningError := ContextGap (what +:+ io_message error).

(** What is checked of the bytes. *)
Definition decode_atom_registry (expected_digest bytes : string) : result PlanningError PlanningAtomRegistry :=
  if ATOM_REGISTRY_MAX_BYTES <? str_len bytes
  then Err (ContextGap ("atom-registry-over-budget:max=" +:+ show_uint ATOM_REGISTRY_MAX_BYTES +:+ ":got=" +:+
                        show_uint (str_len bytes)))
  else
    let actual := Contracts.sha256_hex sha256 bytes in
    if negb (actual =s expected_digest)
    then Err (ContextGap ("atom-registry-digest:expected=" +:+ expected_digest +:+ ":got=" +:+ actual))
    else
      registry ← map_err (λ error, ContextGap ("atom-registry-json:" +:+ error)) (from_text bytes);
      if negb (rg_schema registry =s "autopilot.planning_atom_registry.v1")
      then Err (ContextGap ("atom-registry-schema:" +:+ rg_schema registry))
      else _ ← fold_res registry_id_step ∅ (rg_atoms registry); Ok registry.

Definition load_atom_registry (p : path) (expected_digest : string) : prog PlanningError PlanningAtomRegistry :=
  if negb (is_sha256_hex expected_digest)
  then Ret (Err (ContextGap ("atom-registry-expected-digest-malformed:" +:+ expected_digest)))
  else
    _ ← prog_map_err (λ error, ContextGap ("atom-registry-path:" +:+ error)) (reject_link_components_for_absolute p);
    metadata ← Call (SymlinkMeta p) (λ a, Ret (map_err (gap "atom-registry-metadata:") a));
    if negb (md_file metadata) then Ret (Err (ContextGap "atom-registry-not-regular-file"))
    else
      file ← Call (OpenRead p) (λ a, Ret (map_err (gap "atom-registry-open:") a));
      rest ← Call (ReadToEnd file) (λ a, Ret (map_err (gap "atom-registry-read:") a));
      let bytes := str_take (Z.to_nat (ATOM_REGISTRY_MAX_BYTES + 1)) rest in
      Ret (decode_atom_registry expected_digest bytes).

Definition load_atom_registry_ids (p : path) (expected_digest : string) : prog PlanningError (gset string) :=
  registry ← load_atom_registry p expected_digest; Ret (Ok (list_to_set (map ra_id (rg_atoms registry)))).

Definition atom_link_manifest_for_boundary (p : path) (expected_digest boundary_id : string)
  : prog PlanningError string :=
  if negb ((boundary_id =s "planning.work-map.v1") || (boundary_id =s "planning.work-map.v2"))
  then Ret (Err (ContextGap ("atom-link-manifest unsupported boundary " +:+ boundary_id)))
  else
    registry ← load_atom_registry p expected_digest;
    let allowed := join ", " (sort_by String.compare (map ra_id (rg_atoms registry))) in
    Ret (Ok ("Package-authoritative atom-link manifest for " +:+ boundary_id +:+ NL +:+
      "atom_registry_path: " +:+ to_os p +:+ NL +:+ "atom_registry_digest: " +:+ expected_digest +:+ NL +:+
      "allowed_ids_sorted: [" +:+ allowed +:+ "]" +:+ NL +:+ "rules:" +:+ NL +:+
      "- Each units[].links array item MUST equal exactly one atoms[].id listed above, byte-for-byte." +:+ NL +:+
      "- Put only one atom id in each links[] array item." +:+ NL +:+
      "- Do not use an `atoms:` prefix." +:+ NL +:+
      "- Do not use ranges (for example TE01-001..TE01-003)." +:+ NL +:+
      "- Do not use comma groups (for example TE01-001,TE01-002)." +:+ NL +:+
      "- Do not use task/source/scout/context/artifact references or task heading refs." +:+ NL +:+
      "- Do not use placeholders, empty artifact refs, or inferred expansion." +:+ NL +:+
      "- The package will not rewrite, expand, or infer pseudo-links; non-exact links are rejected.")).
Definition atom_link_manifest_for_registry (p : path) (expected_digest : string) : prog PlanningError string :=
  atom_link_manifest_for_boundary p expected_digest "planning.work-map.v1".
End Registry.

(** ** Collecting the atoms *)

Record KeyedAtom := { ka_assignment : Z; ka_carrier : Z; ka_order : Z; ka_atom : PlanningAtomRegistryAtom }.

Definition keyed_order : KeyedAtom → KeyedAtom → comparison :=
  cmp_then (cmp_on ka_assignment Z.compare) (cmp_then (cmp_on ka_carrier Z.compare)
    (cmp_then (cmp_on ka_order Z.compare) (cmp_on (λ k, ra_id (ka_atom k)) String.compare))).

Definition registry_atom (producer : Id) (atom : TaskAtom) : PlanningAtomRegistryAtom :=
  {| ra_id := ta_id atom; ra_producer_assignment_id := producer; ra_kind := ta_kind atom; ra_text := ta_text atom;
     ra_sources := ta_sources atom |}.

(** The inner loop: the producer of every id so far, and the keyed atoms. *)
Fixpoint collect_atoms (assignment carrier : Z) (producer : Id) (order : Z) (atoms : list TaskAtom)
    (acc : gmap string Id * list KeyedAtom) : result PlanningError (gmap string Id * list KeyedAtom) :=
  match atoms with
  | [] => Ok acc
  | atom :: atoms' =>
      match acc.1 !! ta_id atom with
      | Some previous =>
          Err (ContextGap ("atom-registry-duplicate:" +:+ ta_id atom +:+ ":" +:+ previous +:+ ":" +:+ producer))
      | None =>
          collect_atoms assignment carrier producer (order + 1) atoms'
            (<[ta_id atom := producer]> acc.1,
             acc.2 ++ [{| ka_assignment := assignment; ka_carrier := carrier; ka_order := order;
                          ka_atom := registry_atom producer atom |}])
      end
  end.
Definition collect_record (acc : gmap string Id * list KeyedAtom) (record : Z * Z * Id * TaskAtoms)
  : result PlanningError (gmap string Id * list KeyedAtom) :=
  let '(assignment, carrier, producer, atoms) := record in
  collect_atoms assignment carrier producer 0 (tas_atoms atoms) acc.
Definition sorted_registry_atoms (records : list (Z * Z * Id * TaskAtoms))
  : result PlanningError (list PlanningAtomRegistryAtom) :=
  acc ← fold_res collect_record (∅, []) records;
  Ok (map ka_atom (sort_by keyed_order acc.2)).

(** The JSON text of a registry, when the serializer writes it *)
Definition atom_registry_bytes (to_pretty : PlanningAtomRegistry → result string string) (workstream authority_set_id : string)
    (producer_assignment_ids : list Id) (atoms : list PlanningAtomRegistryAtom) : result PlanningError string :=
  map_err (λ error, ContextGap ("atom registry json:" +:+ error))
    (to_pretty {| rg_schema := "autopilot.planning_atom_registry.v1"; rg_workstream := workstream;
                  rg_authority_set_id := authority_set_id; rg_producer_assignment_ids := producer_assignment_ids;
                  rg_atoms := atoms |}).

(** ** A boundary that enforces *)

Section Enforced.
Context (runtime : BoundaryRuntime) (Hmode : br_mode runtime = Enforce).

(** No panic: an error is a rejection at this boundary. *)
Definition enforced {A} (r : result (option Rejection) A) : Prop :=
  match r with
  | Ok _ => True
  | Err None => False
  | Err (Some rejection) => rj_boundary_id rejection = runtime_id runtime
  end.

Lemma force_rejection_some boundary_id field expected got hint :
  ∃ rejection, force_rejection runtime boundary_id field expected got hint = Some rejection ∧
    rj_boundary_id rejection = runtime_id runtime.
Proof. unfold force_rejection, reject. rewrite Hmode. by eexists. Qed.

Lemma enforced_value {A} b f e g h : enforced (reject_value runtime (T := A) b f e g h).
Proof. destruct (force_rejection_some b f e g h) as (rj & E & ?). unfold enforced, reject_value. by rewrite E. Qed.

Lemma enforced_if bad b f e g h : enforced (reject_if runtime bad b f e g h).
Proof. unfold reject_if. destruct bad; [apply enforced_value|done]. Qed.

Lemma enforced_by r b f e g h : enforced (rejected_by runtime r b f e g h).
Proof. unfold rejected_by. destruct r; [done|apply enforced_value]. Qed.

Lemma enforced_bind {A B} (r : result (option Rejection) A) (k : A → result (option Rejection) B) :
  enforced r → (∀ a, enforced (k a)) → enforced (r ≫= k).
Proof. destruct r as [a|[rj|]]; cbn; auto. Qed.

Lemma enforced_each {A} (f : A → result (option Rejection) unit) l : (∀ x, enforced (f x)) → enforced (for_each f l).
Proof. intros H. induction l as [|x l IH]; cbn; [done|]. by apply enforced_bind. Qed.

Lemma enforced_fold {A S} (f : S → A → result (option Rejection) S) s l :
  (∀ s x, enforced (f s x)) → enforced (fold_res f s l).
Proof. intros H. revert s. induction l as [|x l IH]; intros s; cbn; [done|]. by apply enforced_bind. Qed.

Lemma enforced_parse {T} `{Deserialize T} raw b : enforced (parse_model_payload (T := T) runtime raw b).
Proof. unfold parse_model_payload. destruct (from_text raw); cbn; [done|]. apply (enforced_value (A := unit)). Qed.
End Enforced.

Create HintDb enforced.
#[export] Hint Resolve enforced_value enforced_if enforced_by enforced_parse : enforced.

(** Every step of a check rejects at its boundary or goes on. *)
Ltac enforce :=
  repeat first [done | solve [auto with enforced] | apply enforced_bind; [|intros ?] | apply enforced_each; intros ?
               | apply enforced_fold; intros ? ?].

(** The checks of a boundary *)
Section Checks.
Context (runtime : BoundaryRuntime).

Lemma reject_if_ok bad b f e g h u : reject_if runtime bad b f e g h = Ok u ↔ bad = false.
Proof. destruct u, bad; cbn; naive_solver. Qed.

Lemma rejected_by_ok r b f e g h u : rejected_by runtime r b f e g h = Ok u ↔ r = Ok tt.
Proof. destruct u, r as [[]|]; cbn; naive_solver. Qed.

Lemma is_nil_false {A} (l : list A) : match l with [] => true | _ => false end = false ↔ l ≠ [].
Proof. by destruct l. Qed.
Lemma not_nil_false {A} (l : list A) : match l with [] => false | _ => true end = false ↔ l = [].
Proof. by destruct l. Qed.

Lemma then_ok {E A} (r : result E unit) (k : result E A) a : (r ≫= λ _, k) = Ok a ↔ r = Ok tt ∧ k = Ok a.
Proof. rewrite bind_ok. split; [intros ([] & ? & ?); done|]. intros [? ?]. by exists tt. Qed.

(** A payload that is decoded, checked and passed on as its text. *)
Lemma accept_ok {E T} (r : result E T) (check : T → result E unit) (raw out : string) :
  (r ≫= λ m, check m ≫= λ _, Ok raw) = Ok out ↔ out = raw ∧ ∃ m, r = Ok m ∧ check m = Ok tt.
Proof.
  rewrite bind_ok. setoid_rewrite then_ok. split; [intros (m & ? & ? & [= <-]); eauto|]. intros (-> & m & ? & ?). eauto.
Qed.
Lemma accept2_ok {E T} (r : result E T) (check1 check2 : T → result E unit) (raw out : string) :
  (r ≫= λ m, check1 m ≫= λ _, check2 m ≫= λ _, Ok raw) = Ok out ↔
  out = raw ∧ ∃ m, r = Ok m ∧ check1 m = Ok tt ∧ check2 m = Ok tt.
Proof.
  rewrite bind_ok. setoid_rewrite then_ok. setoid_rewrite then_ok. split; [intros (m & ? & ? & ? & [= <-]); eauto|].
  intros (-> & m & ? & ? & ?). eauto 10.
Qed.
Lemma parse_ok {T} `{Deserialize T} raw b m : parse_model_payload (T := T) runtime raw b = Ok m ↔ from_text raw = Ok m.
Proof. apply map_err_ok. Qed.
End Checks.

Ltac checks :=
  repeat first [setoid_rewrite then_ok | setoid_rewrite reject_if_ok | setoid_rewrite rejected_by_ok
               | setoid_rewrite for_each_ok | setoid_rewrite Forall_forall | setoid_rewrite is_nil_false].

(** ** What is accepted *)

Definition atom_shape (a : TaskAtom) : Prop :=
  is_blank (ta_id a) = false ∧ is_blank (ta_text a) = false ∧ ta_sources a ≠ [].

Lemma task_atoms_shape_ok runtime atoms :
  validate_task_atoms_shape runtime atoms = Ok tt ↔ ∀ a, a ∈ tas_atoms atoms → atom_shape a.
Proof. unfold validate_task_atoms_shape, atom_shape. by checks. Qed.

Lemma scout_dossier_shape_ok runtime dossier :
  validate_scout_dossier_shape runtime dossier = Ok tt ↔ ∀ f, f ∈ sd_findings dossier →
    is_blank (sf_path f) = false ∧ is_blank (sf_observation f) = false ∧ is_blank (sf_evidence_ref f) = false.
Proof. unfold validate_scout_dossier_shape. by checks. Qed.

Lemma questions_shape_ok runtime questions :
  validate_questions_shape runtime questions = Ok tt ↔ ∀ q, q ∈ qs_questions questions →
    is_blank (pq_evidence q) = false ∧ is_blank (pq_consequence q) = false.
Proof. unfold validate_questions_shape. by checks. Qed.

(** The verdicts seen: known criteria, each once. *)
Lemma review_steps_ok runtime required seen verdicts out :
  fold_res (review_step runtime required) seen verdicts = Ok out ↔
  NoDup (map rv_criterion_id verdicts) ∧
  (∀ v, v ∈ verdicts → rv_criterion_id v ∈ required ∧ rv_criterion_id v ∉ seen) ∧
  out = list_to_set (map rv_criterion_id verdicts) ∪ seen.
Proof.
  revert seen. induction verdicts as [|v vs IH]; intros seen; cbn.
  { split; [intros [= <-]; split_and!; [constructor|set_solver|set_solver]|]. intros (_ & _ & ->). f_equal. set_solver. }
  unfold review_step at 1. destruct (negb _ || _) eqn:E.
  - cbn. split; [done|]. intros (_ & H & _). destruct (H v) as [H1 H2]; [set_solver|]. exfalso.
    apply orb_true_iff in E as [E|E]; to_prop; done.
  - apply orb_false_iff in E as [E1 E2]. to_prop. cbn. rewrite IH, NoDup_cons. split.
    + intros (Hnd & H & ->). split_and!; [|done| |set_solver].
      * intros (w & Ew & Hw)%list_elem_of_fmap. destruct (H w Hw) as [_ Hn]. rewrite <- Ew in Hn. set_solver.
      * intros w [->|Hw]%elem_of_cons; [done|]. destruct (H w Hw). set_solver.
    + intros ([Hv Hnd] & H & ->). split_and!; [done| |set_solver]. intros w Hw. destruct (H w) as [? ?]; [set_solver|].
      split; [done|]. intros [Hs%elem_of_singleton|?]%elem_of_union; [|done]. apply Hv. rewrite <- Hs. by apply list_elem_of_fmap_2.
Qed.

Lemma required_criteria_distinct : NoDup REQUIRED_PLAN_REVIEW_CRITERIA.
Proof. by apply (bool_decide_unpack _). Qed.

Lemma plan_review_shape_ok runtime review :
  validate_plan_review_shape runtime review = Ok tt ↔
  map rv_criterion_id (pr_verdicts review) ≡ₚ REQUIRED_PLAN_REVIEW_CRITERIA.
Proof.
  unfold validate_plan_review_shape. rewrite bind_ok. setoid_rewrite review_steps_ok. setoid_rewrite reject_if_ok.
  setoid_rewrite not_nil_false. set (ids := map rv_criterion_id (pr_verdicts review)). split.
  - intros (seen & (Hnd & H & ->) & Hm). apply NoDup_Permutation; [done|apply required_criteria_distinct|]. intros x. split.
    + intros (v & -> & Hv)%list_elem_of_fmap. destruct (H v Hv). set_solver.
    + intros Hx. apply dec_stable. intros Hn.
      assert (x ∈ btree_set ((list_to_set REQUIRED_PLAN_REVIEW_CRITERIA : gset string) ∖ (list_to_set ids ∪ ∅))) as Hin
        by (apply elem_of_btree_set; set_solver). rewrite Hm in Hin. by apply elem_of_nil in Hin.
  - intros Hp. exists (list_to_set ids ∪ ∅). split_and!; [|intros v Hv|done|].
    + rewrite Hp. apply required_criteria_distinct.
    + assert (rv_criterion_id v ∈ ids) as Hv' by by apply list_elem_of_fmap_2. rewrite Hp in Hv'. set_solver.
    + destruct (btree_set _) as [|x l] eqn:Hb; [done|]. exfalso.
      assert (x ∈ btree_set ((list_to_set REQUIRED_PLAN_REVIEW_CRITERIA : gset string) ∖ (list_to_set ids ∪ ∅)))
        as Hx%elem_of_btree_set by (rewrite Hb; set_solver).
      assert (x ∉ ids) as Hn by set_solver. apply Hn. rewrite Hp. set_solver.
Qed.

(** *** Work maps *)

Record check_sound (criteria : Z) (c : PlanUnitPackageCheck) : Prop := {
  ck_id : blank (pck_check_id c) = false;
  ck_expected : blank (pck_expected c) = false;
  ck_some : pck_criterion_ordinals c ≠ [];
  ck_distinct : NoDup (pck_criterion_ordinals c);
  ck_range : ∀ o, o ∈ pck_criterion_ordinals c → o ≠ 0 ∧ o ≤ criteria;
}.

Lemma size_NoDup {A} `{Countable A} (l : list A) :
  Z.of_nat (size (list_to_set l : gset A)) = zlen l ↔ NoDup l.
Proof.
  unfold zlen. split.
  - induction l as [|x l IH]; [constructor|]. cbn [list_to_set length]. intros Hs.
    assert (size (list_to_set l : gset A) ≤ length l)%nat as Hle.
    { clear. induction l as [|y l IH]; cbn; [done|]. rewrite size_union_alt, size_singleton.
      pose proof (subseteq_size (list_to_set l ∖ {[y]}) (list_to_set l : gset A) ltac:(set_solver)). lia. }
    destruct (decide (x ∈ l)) as [Hin|Hin].
    + rewrite (subseteq_union_1_L {[x]} (list_to_set l)) in Hs by set_solver. lia.
    + rewrite size_union, size_singleton in Hs by set_solver. constructor; [done|]. apply IH. lia.
  - intros Hnd. by rewrite size_list_to_set.
Qed.

Lemma package_check_step_ok n ids c out :
  package_check_step n ids c = Ok out ↔
  check_sound n c ∧ pck_check_id c ∉ ids ∧ out = {[pck_check_id c]} ∪ ids.
Proof.
  unfold package_check_step.
  match goal with |- context [if ?b then _ else _] => assert (b = false ↔ check_sound n c ∧ pck_check_id c ∉ ids) as Hb end.
  { rewrite !orb_false_iff, !bool_decide_eq_false, negb_false_iff, Z.eqb_eq, size_NoDup, any_false.
    setoid_rewrite elem_of_elements. setoid_rewrite elem_of_list_to_set. setoid_rewrite orb_false_iff.
    setoid_rewrite Z.eqb_neq. setoid_rewrite Z.ltb_ge.
    split; [intros [[[[[? ?] ?] ?] ?] ?]; split; [split; [done..| |done|done]|done]|intros [[] ?]; split_and!; try done].
    - intros E. rewrite E in *. done.
    - intros E. destruct (pck_criterion_ordinals c); [done|]. set_solver. }
  destruct (_ || _) eqn:E; cbn.
  - split; [done|]. intros (? & ? & _). assert (true = false) by (by apply Hb). done.
  - split; [intros [= <-]; by destruct (proj1 Hb eq_refl)|]. by intros (_ & _ & ->).
Qed.

Lemma package_checks_ok n checks :
  validate_plan_unit_package_checks checks n = Ok tt ↔
  NoDup (map pck_check_id checks) ∧ ∀ c, c ∈ checks → check_sound n c.
Proof.
  unfold validate_plan_unit_package_checks. rewrite bind_ok.
  assert (∀ ids, (∃ out, fold_res (package_check_step n) ids checks = Ok out) ↔
    NoDup (map pck_check_id checks) ∧ ∀ c, c ∈ checks → check_sound n c ∧ pck_check_id c ∉ ids) as H.
  { induction checks as [|c cs IH]; intros ids; cbn; [split; [|eauto]; intros _; split; [constructor|set_solver]|].
    destruct (package_check_step n ids c) as [out|e] eqn:Hc.
    - apply package_check_step_ok in Hc as (Hs & Hn & ->). cbn. rewrite IH, NoDup_cons. split.
      + intros [Hnd Hall]. split_and!; [|done|].
        * intros (d & Ed & Hd)%list_elem_of_fmap. destruct (Hall d Hd) as [_ Hd']. rewrite <- Ed in Hd'. set_solver.
        * intros d [->|Hd]%elem_of_cons; [done|]. destruct (Hall d Hd). set_solver.
      + intros [[Hcn Hnd] Hall]. split; [done|]. intros d Hd. destruct (Hall d) as [? ?]; [set_solver|]. split; [done|].
        intros [Hs'%elem_of_singleton|?]%elem_of_union; [|done]. apply Hcn. rewrite <- Hs'. by apply list_elem_of_fmap_2.
    - split; [by intros [? ?]|]. intros [_ Hall]. destruct (Hall c) as [? ?]; [set_solver|].
      assert (package_check_step n ids c = Ok ({[pck_check_id c]} ∪ ids)) as Hok by by apply package_check_step_ok. congruence. }
  specialize (H ∅). transitivity (∃ out, fold_res (package_check_step n) ∅ checks = Ok out); [naive_solver|].
  rewrite H. set_solver.
Qed.

Record command_sound (c : PlanUnitCommand) : Prop := {
  cm_command : blank (puc_command c) = false;
  cm_expected : blank (puc_expected c) = false;
  cm_scope : blank (puc_scope_preservation c) = false;
  cm_paths : exact_files (puc_generated_paths c);
  cm_effect : effect_admitted (puc_effect c) (puc_handling c) (puc_generated_paths c);
}.

Record unit_sound (u : PlanUnit) : Prop := {
  us_id : is_blank (pu_id u) = false;
  us_objective : is_blank (pu_objective u) = false;
  us_criteria : pu_criteria u ≠ [];
  us_files : pu_files u ≠ [] ∧ exact_files (pu_files u);
  us_some_command : pu_commands u ≠ [];
  us_commands : ∀ c, c ∈ pu_commands u → command_sound c;
  us_checks : NoDup (map pck_check_id (pu_package_checks u)) ∧
    ∀ c, c ∈ pu_package_checks u → check_sound (zlen (pu_criteria u)) c;
  us_links : pu_links u ≠ [];
}.

(** All files of a map, none above another; a unit with a package check owns
    all of them. *)
Record work_map_sound (m : WorkMap) : Prop := {
  wm_some : wm_units m ≠ [];
  wm_each : ∀ u, u ∈ wm_units m → unit_sound u;
  wm_apart : ∀ p q, p ∈ (wm_units m ≫= pu_files) → q ∈ (wm_units m ≫= pu_files) → p ≠ q → path_authority_collides p q = false;
  wm_closure : ∀ u p, u ∈ wm_units m → pu_package_checks u ≠ [] → p ∈ (wm_units m ≫= pu_files) → p ∈ pu_files u;
}.

Lemma unit_shape_ok runtime ds dc u : validate_unit_shape runtime ds dc u = Ok tt ↔ unit_sound u.
Proof.
  unfold validate_unit_shape. checks. rewrite unit_file_authority_ok, package_checks_ok.
  assert (∀ c, validate_plan_unit_command_effect_authority c = Ok tt ↔ command_sound c) as Hc.
  { intros c. unfold validate_plan_unit_command_effect_authority. rewrite command_effect_exact. split; [by intros (?&?&?&?&?)|by intros []]. }
  setoid_rewrite Hc. split; [intros (?&?&?&?&?&?&?&?); by split|intros []; split_and!; try done; try naive_solver].
Qed.

Lemma closure_files units :
  (map (λ u, (pu_id u, pu_files u, match pu_package_checks u with [] => false | _ => true end)) units ≫= λ '(_, files, _), files)
  = units ≫= pu_files.
Proof. induction units as [|u us IH]; [done|]. cbn. by rewrite <- IH. Qed.

Lemma work_map_shape_ok runtime ds dc m : validate_work_map_shape runtime ds dc m = Ok tt ↔ work_map_sound m.
Proof.
  unfold validate_work_map_shape. rewrite !then_ok, reject_if_ok, is_nil_false, for_each_ok, Forall_forall, !rejected_by_ok.
  setoid_rewrite unit_shape_ok. rewrite plan_file_union_ok, package_check_closure_exact.
  rewrite closure_files, plan_file_union_ok. split.
  - intros (Hne & Hu & [_ Hapart] & _ & _ & Hcl). split; [done..|]. intros u p Hin Hck Hp.
    apply (Hcl (pu_id u)); [|done]. apply list_elem_of_fmap. exists u. split; [|done]. by destruct (pu_package_checks u).
  - intros [Hne Hu Hapart Hcl].
    assert (wm_units m ≫= pu_files ≠ []) as Hfiles.
    { destruct (wm_units m) as [|u us]; [done|]. destruct (us_files u (Hu u ltac:(set_solver))) as [Hf _].
      cbn. by destruct (pu_files u). }
    split_and!; try done.
    + intros id files own (u & [= -> -> _] & Hin)%list_elem_of_fmap. by apply us_files, Hu.
    + intros id files (u & [= -> -> Ho] & Hin)%list_elem_of_fmap p Hp. apply Hcl; [done| |done]. intros E. by rewrite E in Ho.
Qed.

Lemma work_map_links_ok runtime ds m atom_ids digest :
  validate_work_map_links runtime ds m atom_ids digest = Ok tt ↔ ∀ link, link ∈ (wm_units m ≫= pu_links) → link ∈ atom_ids.
Proof.
  unfold validate_work_map_links. rewrite reject_if_ok, not_nil_false. split.
  - intros H link Hl. apply dec_stable. intros Hn.
    assert (link ∈ btree_set (list_to_set (filter (λ link, link ∉ atom_ids) (wm_units m ≫= pu_links)))) as Hin.
    { apply elem_of_btree_set, elem_of_list_to_set, list_elem_of_filter. done. }
    rewrite H in Hin. by apply elem_of_nil in Hin.
  - intros H. destruct (btree_set _) as [|x l] eqn:E; [done|]. exfalso.
    assert (x ∈ btree_set (list_to_set (filter (λ link, link ∉ atom_ids) (wm_units m ≫= pu_links)))) as Hin by (rewrite E; set_solver).
    apply elem_of_btree_set, elem_of_list_to_set, list_elem_of_filter in Hin as [Hn Hin]. auto.
Qed.

(** *** Atoms of an assignment *)

Definition local_id (prefix id : string) : Prop := ∃ local, id = prefix +:+ local ∧ local ≠ "".

Lemma bad_prefix_nil prefix id bad :
  match strip_prefix prefix id with
  | Some local => if is_empty local then bad ++ [id] else bad
  | None => bad ++ [id]
  end = [] ↔ bad = [] ∧ local_id prefix id.
Proof.
  unfold local_id. destruct (strip_prefix prefix id) as [local|] eqn:E.
  - apply strip_prefix_spec in E as ->. destruct (is_empty local) eqn:El.
    + apply empty_spec in El as ->. split; [by destruct bad|]. intros (_ & l & El & Hl). rewrite str_app_nil in El.
      apply (f_equal String.length) in El. rewrite str_length_app in El. destruct l; [done|]. cbn in El. lia.
    + apply nonempty_spec in El. naive_solver.
  - split; [by destruct bad|]. intros (_ & l & -> & _). by rewrite strip_prefix_app in E.
Qed.

Lemma atom_steps_ok runtime prefix anchors atoms seen bad dup out :
  fold_res (atom_step runtime prefix anchors) (seen, bad, dup) atoms = Ok out →
  (∀ a s, a ∈ atoms → s ∈ ta_sources a → has anchors s = true) ∧
  (out.1.2 = [] ↔ bad = [] ∧ ∀ a, a ∈ atoms → local_id prefix (ta_id a)) ∧
  (out.2 = [] ↔ dup = [] ∧ NoDup (map ta_id atoms) ∧ ∀ a, a ∈ atoms → ta_id a ∉ seen).
Proof.
  revert seen bad dup. induction atoms as [|a atoms IH]; intros seen bad dup; cbn.
  { intros [= <-]. cbn. split_and!; [set_solver|set_solver|]. split; [|tauto]. intros ->. split_and!; [done|constructor|set_solver]. }
  intros H. apply bind_ok in H as ([[seen' bad'] dup'] & Ha & H). unfold atom_step in Ha. apply then_ok in Ha as [Hs [= <- <- <-]].
  rewrite for_each_ok, Forall_forall in Hs. setoid_rewrite reject_if_ok in Hs. setoid_rewrite negb_false_iff in Hs.
  destruct (IH _ _ _ H) as (H1 & H2 & H3). split_and!.
  - intros b s [->|Hb]%elem_of_cons; eauto.
  - rewrite H2, bad_prefix_nil. set_solver.
  - rewrite H3, NoDup_cons. case_bool_decide as Hin.
    + split; [intros (E & _); by destruct dup|]. intros (_ & _ & Hn). exfalso. apply (Hn a); set_solver.
    + split.
      * intros (-> & Hnd & Hn). split_and!; [done| |done|].
        -- intros (b & Eb & Hb)%list_elem_of_fmap. specialize (Hn b Hb). rewrite <- Eb in Hn. set_solver.
        -- intros b [->|Hb]%elem_of_cons; [done|]. specialize (Hn b Hb). set_solver.
      * intros (-> & [Ha Hnd] & Hn). split_and!; [done..|]. intros b Hb [Eb%elem_of_singleton|Hs']%elem_of_union.
        -- apply Ha. rewrite <- Eb. by apply list_elem_of_fmap_2.
        -- apply (Hn b); set_solver.
Qed.

Lemma atom_steps_anchored runtime prefix anchors atoms acc :
  (∀ a s, a ∈ atoms → s ∈ ta_sources a → has anchors s = true) →
  ∃ out, fold_res (atom_step runtime prefix anchors) acc atoms = Ok out.
Proof.
  revert acc. induction atoms as [|a atoms IH]; intros [[seen bad] dup] H; cbn; [by eexists|].
  rewrite (proj2 (for_each_ok _ _ tt)).
  - cbn. apply IH. set_solver.
  - apply Forall_forall. intros s Hs. apply reject_if_ok, negb_false_iff. set_solver.
Qed.

Record assignment_atoms (prefix : string) (anchors : TaskAnchorRegistry) (atoms : list TaskAtom) : Prop := {
  aa_prefix : prefix ≠ "";
  aa_local : ∀ a, a ∈ atoms → local_id prefix (ta_id a);
  aa_distinct : NoDup (map ta_id atoms);
  aa_anchored : ∀ a s, a ∈ atoms → s ∈ ta_sources a → has anchors s = true;
}.

Lemma atom_assignment_ok runtime ds atoms prefix anchors :
  validate_task_atom_assignment runtime ds atoms prefix anchors = Ok tt ↔
  assignment_atoms prefix anchors (tas_atoms atoms).
Proof.
  unfold validate_task_atom_assignment. rewrite then_ok, reject_if_ok, nonempty_spec. rewrite bind_ok. split.
  - intros (Hp & [[seen bad] dup] & Hf & H). apply atom_steps_ok in Hf as (H1 & H2 & H3).
    rewrite then_ok, !reject_if_ok, !not_nil_false in H. destruct H as [-> ->]. cbn in *.
    split; [done|by apply H2|by apply H3|done].
  - intros [Hp Hl Hnd Hs]. split; [done|].
    destruct (atom_steps_anchored runtime prefix anchors (tas_atoms atoms) (∅, [], []) Hs) as ([[seen bad] dup] & Hf).
    exists (seen, bad, dup). split; [done|]. apply atom_steps_ok in Hf as (_ & H2 & H3). cbn in *.
    rewrite then_ok, !reject_if_ok, !not_nil_false. split; [by apply H2|]. apply H3. split_and!; [done..|set_solver].
Qed.

(** *** The registry of atoms *)

Definition record_atoms (record : Z * Z * Id * TaskAtoms) : list TaskAtom := tas_atoms record.2.

(** The keyed atoms of one record, numbered from [order]. *)
Fixpoint keyed_from (assignment carrier : Z) (producer : Id) (order : Z) (atoms : list TaskAtom) : list KeyedAtom :=
  match atoms with
  | [] => []
  | atom :: rest =>
      {| ka_assignment := assignment; ka_carrier := carrier; ka_order := order; ka_atom := registry_atom producer atom |}
      :: keyed_from assignment carrier producer (order + 1) rest
  end.
Definition keyed_of (record : Z * Z * Id * TaskAtoms) : list KeyedAtom :=
  let '(assignment, carrier, producer, atoms) := record in keyed_from assignment carrier producer 0 (tas_atoms atoms).

Lemma keyed_ids a c p o atoms : map (λ k, ra_id (ka_atom k)) (keyed_from a c p o atoms) = map ta_id atoms.
Proof. revert o. induction atoms as [|x atoms IH]; intros o; cbn; [done|]. by rewrite IH. Qed.

(** What the loops keep: the map has the ids of the keyed atoms. *)
Definition collected (acc : gmap string Id * list KeyedAtom) : Prop :=
  (∀ id, is_Some (acc.1 !! id) ↔ id ∈ map (λ k, ra_id (ka_atom k)) acc.2).

Lemma collect_atoms_spec a c p o atoms acc :
  collected acc →
  match collect_atoms a c p o atoms acc with
  | Ok out => collected out ∧ out.2 = acc.2 ++ keyed_from a c p o atoms ∧ NoDup (map ta_id atoms) ∧
      ∀ x, x ∈ atoms → ta_id x ∉ map (λ k, ra_id (ka_atom k)) acc.2
  | Err _ => ¬ (NoDup (map ta_id atoms) ∧ ∀ x, x ∈ atoms → ta_id x ∉ map (λ k, ra_id (ka_atom k)) acc.2)
  end.
Proof.
  revert o acc. induction atoms as [|x atoms IH]; intros o acc Hacc; cbn [collect_atoms keyed_from].
  { rewrite app_nil_r. split_and!; [done..|constructor|set_solver]. }
  unfold collected in Hacc. destruct (acc.1 !! ta_id x) as [prev|] eqn:Hl.
  - intros [_ Hn]. apply (Hn x); [set_solver|]. apply Hacc. by eexists.
  - assert (ta_id x ∉ map (λ k, ra_id (ka_atom k)) acc.2) as Hx by (rewrite <- Hacc, Hl; by intros []).
    match goal with |- context [collect_atoms _ _ _ _ atoms ?acc'] => set (acc2 := acc'); specialize (IH (o + 1) acc2) end.
    assert (map (λ k, ra_id (ka_atom k)) acc2.2 = map (λ k, ra_id (ka_atom k)) acc.2 ++ [ta_id x]) as Hids by (subst acc2; cbn; by rewrite map_app).
    assert (collected acc2) as Hc2.
    { intros id. rewrite Hids, elem_of_app, list_elem_of_singleton, <- Hacc. subst acc2. cbn.
      destruct (decide (id = ta_id x)) as [->|Hne]; [rewrite lookup_insert_eq|rewrite lookup_insert_ne by done]; naive_solver. }
    specialize (IH Hc2). rewrite Hids in IH. destruct (collect_atoms _ _ _ _ atoms acc2) as [out|e].
    + destruct IH as (Hc & E & Hnd & Hn). split_and!; [done| | |].
      * rewrite E. subst acc2. cbn. by rewrite <- app_assoc.
      * cbn. constructor; [|done]. intros (y & Ey & Hy)%list_elem_of_fmap. apply (Hn y Hy). rewrite <- Ey. set_solver.
      * intros y [->|Hy]%elem_of_cons; [done|]. specialize (Hn y Hy). set_solver.
    + intros [Hnd Hn]. apply IH. cbn in Hnd. apply NoDup_cons in Hnd as [Hxn Hnd]. split; [done|]. intros y Hy Hin.
      rewrite elem_of_app, list_elem_of_singleton in Hin. destruct Hin as [Hin|Hin]; [by apply (Hn y); [set_solver|]|].
      apply Hxn. rewrite <- Hin. by apply list_elem_of_fmap_2.
Qed.

(** The registry is built exactly when no two atoms share an id. *)
Lemma collect_records_spec records acc :
  collected acc → NoDup (map (λ k, ra_id (ka_atom k)) acc.2) →
  match fold_res collect_record acc records with
  | Ok out => out.2 = acc.2 ++ (records ≫= keyed_of) ∧ NoDup (map (λ k, ra_id (ka_atom k)) out.2)
  | Err _ => ¬ NoDup (map (λ k, ra_id (ka_atom k)) acc.2 ++ (records ≫= λ r, map ta_id (record_atoms r)))
  end.
Proof.
  revert acc. induction records as [|[[[a c] p] atoms] records IH]; intros acc Hacc Hnd; cbn [fold_res].
  { cbn. by rewrite app_nil_r. }
  unfold collect_record at 1. pose proof (collect_atoms_spec a c p 0 (tas_atoms atoms) acc Hacc) as Hstep.
  destruct (collect_atoms a c p 0 (tas_atoms atoms) acc) as [acc'|e]; cbn [mbind result_mbind result_bind].
  - destruct Hstep as (Hc & E & Hnd' & Hn).
    assert (map (λ k, ra_id (ka_atom k)) acc'.2 = map (λ k, ra_id (ka_atom k)) acc.2 ++ map ta_id (tas_atoms atoms)) as Hids
      by (by rewrite E, map_app, keyed_ids).
    assert (NoDup (map (λ k, ra_id (ka_atom k)) acc'.2)) as Hnd2.
    { rewrite Hids. apply NoDup_app. split_and!; [done| |done]. intros id Hid (x & -> & Hx)%list_elem_of_fmap. by apply (Hn x). }
    specialize (IH acc' Hc Hnd2). destruct (fold_res collect_record acc' records) as [out|e].
    + destruct IH as [-> IH]. split; [|done]. rewrite E. cbn. by rewrite <- app_assoc.
    + rewrite Hids, <- app_assoc in IH. exact IH.
  - intros Hall. apply Hstep. cbn in Hall. rewrite app_assoc in Hall. apply NoDup_app in Hall as (Hall & _ & _).
    apply NoDup_app in Hall as (_ & Hdis & Hx). split; [done|]. intros x Hx' Hin. apply (Hdis _ Hin). by apply list_elem_of_fmap_2.
Qed.

#[global] Instance keyed_order_total : TotalCmp keyed_order.
Proof. unfold keyed_order. apply _. Qed.

(** *** Loading a registry *)

Record registry_sound (sha256 : list Z → list Z) `{Deserialize PlanningAtomRegistry} (digest : string)
    (registry : PlanningAtomRegistry) : Prop := {
  rs_bytes : ∃ bytes, Contracts.sha256_hex sha256 bytes = digest ∧ from_text bytes = Ok registry ∧
    str_len bytes ≤ ATOM_REGISTRY_MAX_BYTES;
  rs_schema : rg_schema registry = "autopilot.planning_atom_registry.v1";
  rs_named : ∀ a, a ∈ rg_atoms registry → trim (ra_id a) ≠ "";
  rs_distinct : NoDup (map ra_id (rg_atoms registry));
}.

Lemma registry_ids_ok atoms ids :
  fold_res registry_id_step ∅ atoms = Ok ids →
  (∀ a, a ∈ atoms → trim (ra_id a) ≠ "") ∧ NoDup (map ra_id atoms).
Proof.
  intros H. cut (ids = list_to_set (map ra_id atoms) ∧ (∀ a, a ∈ atoms → trim (ra_id a) ≠ "") ∧ NoDup (map ra_id atoms)); [tauto|].
  revert H. apply (fold_res_inv _ (λ done ids, ids = list_to_set (map ra_id done) ∧
    (∀ a, a ∈ done → trim (ra_id a) ≠ "") ∧ NoDup (map ra_id done))).
  { split_and!; [done|set_solver|constructor]. }
  intros done a s s' (-> & Hb & Hnd) _ H. unfold registry_id_step in H. apply guard_ok in H as [H1 H].
  apply guard_ok in H as [H2 [= <-]]. to_prop. apply nonempty_spec in H1. rewrite map_app. split_and!.
  - rewrite list_to_set_app_L. cbn. set_solver.
  - intros b [Hb'|Hb'%list_elem_of_singleton]%elem_of_app; [auto|by subst].
  - apply NoDup_app. split_and!; [done| |apply NoDup_singleton]. cbn. set_solver.
Qed.

Lemma decode_registry_ok sha256 `{Deserialize PlanningAtomRegistry} digest bytes registry :
  decode_atom_registry sha256 digest bytes = Ok registry → registry_sound sha256 digest registry.
Proof.
  unfold decode_atom_registry. intros H0. apply guard_ok in H0 as [Hl H0]. apply guard_ok in H0 as [Hd H0].
  apply bind_ok in H0 as (r & Hr & H0). apply guard_ok in H0 as [Hs H0]. apply bind_ok in H0 as (ids & Hids & [= <-]).
  apply map_err_ok in Hr. apply Z.ltb_ge in Hl. to_prop. apply registry_ids_ok in Hids as [? ?].
  split; [by exists bytes|done..].
Qed.

(** What loading may ask of the system: to look and to read. *)
Definition only_reads (q : request) : Prop :=
  match q with SymlinkMeta _ | OpenRead _ | ReadToEnd _ => True | _ => False end.

Lemma registry_links_wp probe rest : wp only_reads (λ _, True) (registry_links_from probe rest).
Proof.
  revert probe. induction rest as [|c rest IH]; intros probe; cbn [registry_links_from]; [done|]. split; [done|].
  intros [md|e]; [destruct (md_symlink md); [done|apply IH]|]. destruct (io_kind e =s NotFound); [apply IH|done].
Qed.

(** ** The theorems *)

Section Theorems.
Context (runtime : BoundaryRuntime) (debug_strings : list string → string) (debug_command : PlanUnitCommand → string).
Context `{Deserialize TaskAtoms, Deserialize WorkMap, Deserialize PlanReview}.

(** C18. At an enforcing boundary a work map is accepted exactly when it decodes to
    a sound map whose links are atoms of the registry: units with exact files,
    admitted commands, package checks of their criteria, files apart from each
    other and all of them owned by a unit with a package check.  What is
    accepted is the text that was submitted; anything else is a rejection at
    that boundary, never a panic. *)
Theorem work_map_exact (raw : string) (atom_ids : gset string) (registry_digest : string) :
  br_mode runtime = Enforce →
  let r := accept_work_map_for_atoms runtime debug_strings debug_command raw atom_ids registry_digest in
  enforced runtime r ∧
  ∀ out, r = Ok out ↔ out = raw ∧ ∃ m, from_text raw = Ok m ∧ work_map_sound m ∧
    ∀ link, link ∈ (wm_units m ≫= pu_links) → link ∈ atom_ids.
Proof.
  intros Hmode r. split.
  - unfold r, accept_work_map_for_atoms, validate_work_map_shape, validate_unit_shape, validate_work_map_links.
    enforce.
  - intros out. unfold r, accept_work_map_for_atoms. rewrite accept2_ok. setoid_rewrite parse_ok.
    setoid_rewrite work_map_shape_ok. by setoid_rewrite work_map_links_ok.
Qed.

(** At an enforcing boundary the atoms of an assignment are accepted exactly
    when each has an id under the prefix of the assignment, used once, a text,
    and sources that are anchors of the task documents. *)
Theorem assignment_atoms_exact (raw prefix : string) (anchors : TaskAnchorRegistry) :
  br_mode runtime = Enforce →
  let r := accept_task_atoms_for_assignment runtime debug_strings raw prefix anchors in
  enforced runtime r ∧
  ∀ out, r = Ok out ↔ out = raw ∧ ∃ atoms, from_text raw = Ok atoms ∧
    (∀ a, a ∈ tas_atoms atoms → atom_shape a) ∧ assignment_atoms prefix anchors (tas_atoms atoms).
Proof.
  intros Hmode r. split.
  - unfold r, accept_task_atoms_for_assignment, validate_task_atoms_shape, validate_task_atom_assignment.
    enforce; repeat match goal with acc : _ * _ |- _ => destruct acc end; unfold atom_step; enforce.
  - intros out. unfold r, accept_task_atoms_for_assignment. rewrite accept2_ok. setoid_rewrite parse_ok.
    setoid_rewrite task_atoms_shape_ok. by setoid_rewrite atom_assignment_ok.
Qed.

(** At an enforcing boundary a plan review is accepted exactly when it gives
    one verdict for each of the seven criteria, in any order, and no other. *)
Theorem plan_review_exact (raw : string) :
  br_mode runtime = Enforce →
  let r := accept_plan_review runtime raw in
  enforced runtime r ∧
  ∀ out, r = Ok out ↔ out = raw ∧ ∃ review, from_text raw = Ok review ∧
    map rv_criterion_id (pr_verdicts review) ≡ₚ REQUIRED_PLAN_REVIEW_CRITERIA.
Proof.
  intros Hmode r. split.
  - unfold r, accept_plan_review, validate_plan_review_shape. enforce.
    unfold review_step. destruct (_ || _); enforce.
  - intros out. unfold r, accept_plan_review. rewrite accept_ok. setoid_rewrite parse_ok.
    by setoid_rewrite plan_review_shape_ok.
Qed.
End Theorems.

(** The atoms of the planning records become a registry exactly when no two of
    them share an id; the registry then has them all, under their producers, in
    the order of assignment, carrier and place. *)
Theorem registry_atoms_exact (records : list (Z * Z * Id * TaskAtoms)) :
  match sorted_registry_atoms records with
  | Ok atoms => ∃ keyed, atoms = map ka_atom keyed ∧ keyed ≡ₚ (records ≫= keyed_of) ∧
      StronglySorted (cmp_le keyed_order) keyed ∧ NoDup (map ra_id atoms)
  | Err _ => ¬ NoDup (records ≫= λ r, map ta_id (record_atoms r))
  end.
Proof.
  unfold sorted_registry_atoms. pose proof (collect_records_spec records (∅, [])) as H.
  destruct (fold_res collect_record (∅, []) records) as [acc|e]; cbn.
  - destruct H as [E Hnd]; [intros id; cbn; rewrite lookup_empty; split; [by intros []|set_solver]|constructor|].
    exists (sort_by keyed_order acc.2). split_and!; [done| | |].
    + rewrite sort_by_perm, E. done.
    + apply sort_by_sorted, _.
    + rewrite map_map, sort_by_perm. done.
  - apply H; [intros id; cbn; rewrite lookup_empty; split; [by intros []|set_solver]|constructor].
Qed.

(** Loading a registry only looks and reads, and gives a registry of the bytes
    that have the expected digest, within the budget, with distinct ids that are
    not blank. *)
Theorem load_registry_sound (sha256 : list Z → list Z) `{Deserialize PlanningAtomRegistry} (p : path) (digest : string) :
  wp only_reads (λ r, match r with Ok registry => registry_sound sha256 digest registry | Err _ => True end)
    (load_atom_registry sha256 p digest).
Proof.
  unfold load_atom_registry. destruct (is_sha256_hex digest); cbn [negb]; [|done].
  apply wp_bind, wp_map_err. eapply wp_mono; [| |].
  3:{ unfold reject_link_components_for_absolute. destruct (is_absolute p); cbn [negb]; [apply registry_links_wp|done]. }
  { done. }
  intros [[]|e] _; cbn [map_err]; [|done]. apply wp_ask; [done..|]. intros a md _.
  destruct (md_file md); cbn [negb]; [|done]. apply wp_ask; [done..|]. intros a' file _.
  apply wp_ask; [done..|]. intros a'' rest _. cbn. destruct (decode_atom_registry _ _ _) eqn:E; [|done].
  by apply decode_registry_ok in E.
Qed.

(** ** Samples *)

Module BoundarySample.
Definition runtime_of (id : string) : BoundaryRuntime :=
  {| br_descriptor := {| sr_addr := 1; sr_descriptor := {| bd_id := id; bd_producer := PModel; bd_admits := "";
       bd_mode := Enforce |} |}; br_mode := Enforce |}.
Definition no_strings (l : list string) : string := "".
Definition no_command (c : PlanUnitCommand) : string := "".

Definition command : PlanUnitCommand :=
  {| puc_command := "cargo test"; puc_expected := "passes"; puc_effect := NoEffect; puc_generated_paths := [];
     puc_handling := HandlingNone; puc_scope_preservation := "writes nothing" |}.
Definition unit_ (id : string) (files : list Path) (checks : list PlanUnitPackageCheck) : PlanUnit :=
  {| pu_id := id; pu_kind := Implementation; pu_objective := "do it"; pu_criteria := ["it works"]; pu_depends_on := [];
     pu_files := files; pu_commands := [command]; pu_package_checks := checks; pu_links := ["TE01-1"] |}.
Definition check : PlanUnitPackageCheck :=
  {| pck_check_id := "tip"; pck_kind := CleanExactPackageTip; pck_criterion_ordinals := [1]; pck_expected := "clean" |}.
Definition map_sample : WorkMap :=
  {| wm_units := [unit_ "u1" ["src/a.rs"] []; unit_ "u2" ["src/a.rs"; "src/b.rs"] [check]]; wm_recovery := None |}.
#[local] Instance read_map : Deserialize WorkMap := λ _, Ok map_sample.

Definition anchors_sample : TaskAnchorRegistry :=
  {| ta_anchors := {["task://d1/task.md#whole-file"]}; ta_canonical_sources := []; ta_canonical_source_manifest_json := "";
     ta_canonical_source_manifest := "" |}.
Definition atoms_sample : TaskAtoms :=
  {| tas_atoms := [{| ta_id := "TE01-1"; ta_kind := AkWork; ta_text := "build"; ta_sources := ["task://d1/task.md#whole-file"] |}] |}.
#[local] Instance read_atoms : Deserialize TaskAtoms := λ _, Ok atoms_sample.

Definition review_sample : PlanReview :=
  {| pr_verdicts := map (λ c, {| rv_criterion_id := c; rv_verdict := RvPass; rv_finding := None |})
                      (reverse REQUIRED_PLAN_REVIEW_CRITERIA) |}.
#[local] Instance read_review : Deserialize PlanReview := λ _, Ok review_sample.

Lemma work_map_exact_witness : ∃ m, from_text "map" = Ok m ∧ work_map_sound m.
Proof.
  destruct (work_map_exact (runtime_of "planning.work-map.v1") no_strings no_command "map" {["TE01-1"]} "digest" eq_refl)
    as [_ H].
  destruct (proj1 (H "map")) as (_ & m & Hm & Hs & _); [vm_compute; reflexivity|]. by exists m.
Defined.

Lemma assignment_atoms_exact_witness : assignment_atoms "TE01-" anchors_sample (tas_atoms atoms_sample).
Proof.
  destruct (assignment_atoms_exact (runtime_of "planning.task-atoms.v1") no_strings "atoms" "TE01-" anchors_sample eq_refl)
    as [_ H].
  destruct (proj1 (H "atoms")) as (_ & m & Hm & _ & Hs); [vm_compute; reflexivity|]. injection Hm as <-. exact Hs.
Defined.

Lemma plan_review_exact_witness : map rv_criterion_id (pr_verdicts review_sample) ≡ₚ REQUIRED_PLAN_REVIEW_CRITERIA.
Proof.
  destruct (plan_review_exact (runtime_of "planning.plan-review.v1") "review" eq_refl) as [_ H].
  destruct (proj1 (H "review")) as (_ & m & Hm & Hs); [vm_compute; reflexivity|]. injection Hm as <-. exact Hs.
Defined.
End BoundarySample.
