(* ===== verification/AuthorityFiles.v ===== *)
(** * Authority files

    [drivers/src/runner/mod.rs]: the primitive that every durable authority
    document of versions 2 and 4 is read and written with (Unix).  A path is
    opened one component at a time from the root, relative to the directory
    opened before and never through a symbolic link; a file is written to a
    private name, made durable and then linked to its final name, which the
    operating system refuses when the name is taken. *)

From S2P Require Import Prelude RustStr Paths Os.

(** ** The code *)

Inductive RunnerError :=
| MissingTransport (value : string)
| InvalidTransport (value : string)
| Io (value : string)
| Roster (value : string)
| Route
| StaleCarrier (value : string)
| InvalidSpec (value : string)
| ContextGap (assignment_id tier category_id reason : string).

Definition io_error_of (error : io_error) : RunnerError := Io (io_message error).

Definition is_normal (c : Component) : bool := match c with Normal _ => true | _ => false end.
Definition file_name (p : path) : option string := match last p with Some (Normal name) => Some name | _ => None end.

(** [metadata.permissions().mode() & 0o7777] *)
Definition permission_bits (mode : Z) : Z := Z.land mode 4095.

Definition AUTHORITY_CREATE_ONCE_TEMP_ATTEMPTS : nat := 16.

Section AuthorityFiles.
(** [path.display()], the process id *)
Context (display : path → string) (pid : Z).

Definition validate_authority_path (p : path) (label : string) : result RunnerError unit :=
  let rooted := match p with RootDir :: _ => true | _ => false end in
  if negb rooted || any (λ component, negb (is_normal component)) (tail p)
     || negb (match last p with Some (Normal _) => true | _ => false end)
  then Err (InvalidTransport (label +:+
         " authority path is not an absolute Unix root/normal-component file path: " +:+ display p))
  else Ok tt.

(** The body of the loop of [authority_open_parent] *)
Definition open_component (p : path) (create : bool) (current : nat) (name : string) : prog RunnerError nat :=
  let refused := InvalidTransport ("authority path component refused symlink/no-follow traversal: " +:+ display p) in
  next ← Call (OpenDirAt current name) (λ opened,
    match opened with
    | Ok fd => Ret (Ok fd)
    | Err error =>
        match en_code error with
        | ENOENT =>
            if create then
              Call (MakeDirAt current name 448) (λ made,
                let reopen := Call (OpenDirAt current name) (λ again,
                  Ret (map_err (λ error, Io (en_message error)) again)) in
                match made with
                | Ok _ => reopen
                | Err error => if bool_decide (en_code error = EEXIST) then reopen else Ret (Err (Io (en_message error)))
                end)
            else Ret (Err (Io (en_message error)))
        | ELOOP | ENOTDIR => Ret (Err refused)
        | _ => Ret (Err (Io (en_message error)))
        end
    end);
  metadata ← Call (HandleMeta next) (λ m, Ret (map_err io_error_of m));
  if negb (md_dir metadata)
  then Ret (Err (InvalidTransport ("authority path component is not a directory: " +:+ display p)))
  else Ret (Ok next).

Fixpoint open_components (p : path) (create : bool) (current : nat) (parents : path) : prog RunnerError nat :=
  match parents with
  | [] => Ret (Ok current)
  | Normal name :: rest => next ← open_component p create current name; open_components p create next rest
  | _ :: rest => open_components p create current rest
  end.

(** A path with a file name has a parent. *)
Definition authority_open_parent (p : path) (create : bool) : prog RunnerError (nat * string) :=
  match file_name p with
  | None => Ret (Err (InvalidTransport ("authority path has no final component: " +:+ display p)))
  | Some final_name =>
      root ← Call OpenRoot (λ r, Ret (map_err io_error_of r));
      current ← open_components p create root (from_option id [] (parent p));
      Ret (Ok (current, final_name))
  end.

(** Reading from a descriptor that was checked to be a regular file *)
Definition read_descriptor (fd : nat) (metadata : metadata) (max_bytes : Z) : prog RunnerError string :=
  let len := md_len metadata in
  if max_bytes <? len
  then Ret (Err (InvalidSpec ("authority read oversized: " +:+ show_uint len +:+ " bytes exceeds " +:+ show_uint max_bytes)))
  else
    match checked_add u64_max max_bytes 1 with
    | None => Ret (Err (InvalidSpec "authority read limit overflow"))
    | Some read_limit =>
        bytes ← Call (ReadTake fd read_limit) (λ r, Ret (map_err io_error_of r));
        if max_bytes <? str_len bytes
        then Ret (Err (InvalidSpec ("authority read oversized after read: more than " +:+ show_uint max_bytes +:+ " bytes")))
        else Ret (Ok bytes)
    end.

Definition open_leaf (parent : nat) (name : string) : prog RunnerError nat :=
  Call (OpenFileAt parent name) (λ r, Ret (map_err (λ error,
    match en_code error with
    | ELOOP => InvalidTransport "authority read refused symlink/no-follow final component"
    | _ => Io (en_message error)
    end) r)).

Definition authority_read_from_parent_with_mode (parent : nat) (name : string) (max_bytes : Z)
    (expected_mode : option Z) : prog RunnerError string :=
  fd ← open_leaf parent name;
  metadata ← Call (HandleMeta fd) (λ m, Ret (map_err io_error_of m));
  if negb (md_file metadata) then Ret (Err (InvalidSpec "authority read refused non-regular descriptor"))
  else if match expected_mode with
          | Some expected_mode => negb (permission_bits (md_mode metadata) =? expected_mode)
          | None => false
          end
  then Ret (Err (InvalidSpec "authority read exact mode drift"))
  else read_descriptor fd metadata max_bytes.

Definition authority_read (p : path) (max_bytes : Z) : prog RunnerError string :=
  opened ← authority_open_parent p false;
  authority_read_from_parent_with_mode opened.1 opened.2 max_bytes None.

Definition read_bounded_authority_file (p : path) (max_bytes : Z) : prog RunnerError string :=
  match validate_authority_path p "authority read" with
  | Err error => Ret (Err error)
  | Ok _ => authority_read p max_bytes
  end.

Definition git_mode (mode : Z) : bool := (mode =? 420) || (mode =? 493).

Definition read_binary_leaf_exact_mode (p : path) (max_bytes mode : Z) : prog RunnerError string :=
  if negb (git_mode mode) then Ret (Err (InvalidSpec "binary authority leaf mode is malformed"))
  else
    match validate_authority_path p "binary authority leaf read" with
    | Err error => Ret (Err error)
    | Ok _ =>
        opened ← authority_open_parent p false;
        authority_read_from_parent_with_mode opened.1 opened.2 max_bytes (Some mode)
    end.

Definition read_binary_leaf_with_allowed_mode (p : path) (max_bytes : Z) : prog RunnerError (string * string) :=
  match validate_authority_path p "binary authority leaf read" with
  | Err error => Ret (Err error)
  | Ok _ =>
      opened ← authority_open_parent p false;
      fd ← open_leaf opened.1 opened.2;
      metadata ← Call (HandleMeta fd) (λ m, Ret (map_err io_error_of m));
      let mode := permission_bits (md_mode metadata) in
      if negb (git_mode mode) then Ret (Err (InvalidSpec "authority read exact mode drift"))
      else if negb (md_file metadata) then Ret (Err (InvalidSpec "authority read refused non-regular descriptor"))
      else
        bytes ← read_descriptor fd metadata max_bytes;
        Ret (Ok (bytes, if mode =? 420 then "100644" else "100755"))
  end.

(** ** Create once *)

Definition STAGE_PREFIX : string := ".autopilot-v2-stage-".
Definition authority_private_temp_name (next : Z) : string :=
  STAGE_PREFIX +:+ show_uint pid +:+ "-" +:+ show_uint next.

Definition check_mode (file : nat) (exact_mode : bool) (mode : Z) : prog RunnerError unit :=
  if exact_mode then
    metadata ← Call (HandleMeta file) (λ m, Ret (map_err io_error_of m));
    if negb (permission_bits (md_mode metadata) =? mode)
    then Ret (Err (InvalidSpec "create-once staged authority exact mode drift"))
    else Ret (Ok tt)
  else Ret (Ok tt).

(** The closure [staged]: fill the private leaf and publish it. *)
Definition link_stage (p : path) (parent : nat) (temporary name data : string) (max_bytes mode : Z)
    (exact_mode : bool) : prog RunnerError unit :=
  Call (LinkAt parent temporary parent name) (λ linked,
    match linked with
    | Ok _ => Call (SyncHandle parent) (λ r, Ret (map_err io_error_of r))
    | Err error =>
        if bool_decide (en_code error = EEXIST) then
          existing ← authority_read_from_parent_with_mode parent name max_bytes
                       (if exact_mode then Some mode else None);
          if existing =s data then Ret (Ok tt)
          else Ret (Err (InvalidSpec ("create-once artifact collision at " +:+ display p)))
        else Ret (Err (Io (en_message error)))
    end).

Definition fill_stage (file : nat) (data : string) (mode : Z) (exact_mode : bool) : prog RunnerError unit :=
  _ ← (if exact_mode then Call (SetHandleMode file mode) (λ r, Ret (map_err io_error_of r)) else Ret (Ok tt));
  _ ← check_mode file exact_mode mode;
  _ ← Call (WriteHandle file data) (λ r, Ret (map_err io_error_of r));
  _ ← Call (SyncHandle file) (λ r, Ret (map_err io_error_of r));
  check_mode file exact_mode mode.

Definition publish_stage (p : path) (parent file : nat) (temporary name data : string) (max_bytes mode : Z)
    (exact_mode : bool) : prog RunnerError unit :=
  metadata ← Call (HandleMeta file) (λ m, Ret (map_err io_error_of m));
  if negb (md_file metadata)
  then Ret (Err (InvalidTransport "create-once staged authority descriptor is not regular"))
  else
    _ ← fill_stage file data mode exact_mode;
    link_stage p parent temporary name data max_bytes mode exact_mode.

Fixpoint create_attempts (attempts : nat) (p : path) (parent : nat) (name data : string) (max_bytes mode : Z)
    (exact_mode : bool) : prog RunnerError unit :=
  match attempts with
  | O => Ret (Err (InvalidSpec ("create-once private staging-name collision retries exhausted after " +:+
           show_uint (Z.of_nat AUTHORITY_CREATE_ONCE_TEMP_ATTEMPTS) +:+ " attempts at " +:+ display p)))
  | S attempts =>
      Call FetchAdd (λ next,
        let temporary := authority_private_temp_name next in
        Call (CreateFileAt parent temporary mode) (λ stage,
          match stage with
          | Err error =>
              if bool_decide (en_code error = EEXIST)
              then create_attempts attempts p parent name data max_bytes mode exact_mode
              else Ret (Err (Io (en_message error)))
          | Ok file =>
              prog_match (publish_stage p parent file temporary name data max_bytes mode exact_mode) (λ staged,
                Call (UnlinkAt parent temporary) (λ cleanup,
                  match staged, cleanup with
                  | Ok _, Ok _ => Call (SyncHandle parent) (λ r, Ret (map_err io_error_of r))
                  | Ok _, Err error => Ret (Err (Io (en_message error)))
                  | Err error, _ => Ret (Err error)
                  end))
          end))
  end.

Definition authority_create_once_inner (p : path) (data : string) (max_bytes mode : Z) (exact_mode : bool)
  : prog RunnerError unit :=
  opened ← authority_open_parent p true;
  create_attempts AUTHORITY_CREATE_ONCE_TEMP_ATTEMPTS p opened.1 opened.2 data max_bytes mode exact_mode.

Definition authority_create_once (p : path) (data : string) (max_bytes : Z) : prog RunnerError unit :=
  authority_create_once_inner p data max_bytes 384 false.
Definition authority_create_once_with_mode (p : path) (data : string) (max_bytes mode : Z) : prog RunnerError unit :=
  authority_create_once_inner p data max_bytes mode true.

Definition write_bounded_file_create_once (p : path) (data : string) (max_bytes : Z) : prog RunnerError unit :=
  match validate_authority_path p "create-once" with
  | Err error => Ret (Err error)
  | Ok _ =>
      if max_bytes <? str_len data
      then Ret (Err (InvalidSpec ("create-once authority bytes exceed " +:+ show_uint max_bytes +:+ " at " +:+ display p)))
      else authority_create_once p data max_bytes
  end.

Definition write_binary_leaf_create_once_exact_mode (p : path) (data : string) (mode max_bytes : Z)
  : prog RunnerError unit :=
  if negb (git_mode mode) then Ret (Err (InvalidSpec "binary authority leaf mode must be exact 100644 or 100755"))
  else
    match validate_authority_path p "binary create-once" with
    | Err error => Ret (Err error)
    | Ok _ =>
        if max_bytes <? str_len data
        then Ret (Err (InvalidSpec ("binary authority leaf bytes exceed " +:+ show_uint max_bytes +:+ " at " +:+ display p)))
        else authority_create_once_with_mode p data max_bytes mode
    end.
End AuthorityFiles.
