(* ===== verification/AuthoritySafety.v ===== *)
(** * Authority files under interference

    A file system with directories, regular files, symbolic links and open
    descriptors, in which any request may fail and other processes act between
    any two requests.  What they may do is a rely relation, what the code of
    [AuthorityFiles] does is a guarantee; a guarantee of one writer is in the
    rely relation of every other. *)

From S2P Require Import Prelude RustStr Paths Os AuthorityFiles.

(** ** The file system *)

Inductive node :=
| Directory (entries : gmap string nat)
| Regular (content : string) (mode : Z) (synced : bool)
| SymLink (target : string)
| Special.

Abbreviation nodes := (gmap nat node).
Definition ROOT : nat := 0.

Definition child (ns : nodes) (d : nat) (n : string) : option nat :=
  match ns !! d with Some (Directory entries) => entries !! n | _ => None end.

Definition set_entry (ns : nodes) (d : nat) (f : gmap string nat → gmap string nat) : nodes :=
  alter (λ nd, match nd with Directory entries => Directory (f entries) | _ => nd end) d ns.
Definition add_entry (ns : nodes) (d : nat) (n : string) (i : nat) : nodes := set_entry ns d (<[n := i]>).
Definition remove_entry (ns : nodes) (d : nat) (n : string) : nodes := set_entry ns d (delete n).

Definition same_kind (a b : node) : Prop :=
  match a, b with
  | Directory _, Directory _ | Regular _ _ _, Regular _ _ _ | SymLink _, SymLink _ | Special, Special => True
  | _, _ => False
  end.
Definition is_directory (ns : nodes) (d : nat) : Prop := ∃ entries, ns !! d = Some (Directory entries).

(** The descriptors of the process, each with the names it was reached by from
    the root, and the files the process created. *)
Record world := { w_nodes : nodes; w_handles : gmap nat (nat * list string); w_own : gset nat }.

Definition with_nodes (w : world) (ns : nodes) : world :=
  {| w_nodes := ns; w_handles := w_handles w; w_own := w_own w |}.
Definition opened (w : world) (h : nat) (x : nat * list string) (w' : world) : Prop :=
  w_handles w !! h = None ∧ w' = {| w_nodes := w_nodes w; w_handles := <[h := x]> (w_handles w); w_own := w_own w |}.

(** A new file: no file of that number, and no name for it. *)
Definition fresh_inode (ns : nodes) (i : nat) : Prop := ns !! i = None ∧ ∀ d n, child ns d n ≠ Some i.

Definition describes (m : metadata) (nd : node) : Prop :=
  match nd with
  | Directory _ => md_dir m = true ∧ md_file m = false
  | Regular content mode _ => md_dir m = false ∧ md_file m = true ∧ md_len m = str_len content ∧ md_mode m = mode
  | SymLink _ | Special => md_dir m = false ∧ md_file m = false
  end.

Definition on_success {E A} (P : A → Prop) (Q : Prop) (r : result E A) : Prop :=
  match r with Ok a => P a | Err _ => Q end.

(** What a request may do.  It may always fail, and then has no effect but a
    write that was begun; a read is atomic. *)
Definition step (w : world) (q : request) : answer q → world → Prop :=
  let ns := w_nodes w in
  match q return answer q → world → Prop with
  | OpenRoot => λ a w', on_success (λ h, opened w h (ROOT, []) w') (w' = w) a
  | OpenDirAt d n => λ a w', on_success (λ h, ∃ i names j,
      w_handles w !! d = Some (i, names) ∧ child ns i n = Some j ∧ is_directory ns j ∧
      opened w h (j, names ++ [n]) w') (w' = w) a
  | MakeDirAt d n _ => λ a w', on_success (λ _, ∃ i names j,
      w_handles w !! d = Some (i, names) ∧ is_directory ns i ∧ child ns i n = None ∧ fresh_inode ns j ∧
      w' = with_nodes w (add_entry (<[j := Directory ∅]> ns) i n j)) (w' = w) a
  | OpenFileAt d n => λ a w', on_success (λ h, ∃ i names j nd,
      w_handles w !! d = Some (i, names) ∧ child ns i n = Some j ∧ ns !! j = Some nd ∧
      (∀ target, nd ≠ SymLink target) ∧ opened w h (j, names ++ [n]) w') (w' = w) a
  | CreateFileAt d n _ => λ a w', on_success (λ h, ∃ i names j mode,
      w_handles w !! d = Some (i, names) ∧ is_directory ns i ∧ child ns i n = None ∧ fresh_inode ns j ∧
      w_handles w !! h = None ∧
      w' = {| w_nodes := add_entry (<[j := Regular "" mode false]> ns) i n j;
              w_handles := <[h := (j, names ++ [n])]> (w_handles w); w_own := {[j]} ∪ w_own w |}) (w' = w) a
  | LinkAt d n d' n' => λ a w', on_success (λ _, ∃ i names i' names' j,
      w_handles w !! d = Some (i, names) ∧ w_handles w !! d' = Some (i', names') ∧
      child ns i n = Some j ∧ ¬ is_directory ns j ∧ is_directory ns i' ∧ child ns i' n' = None ∧
      w' = with_nodes w (add_entry ns i' n' j)) (w' = w) a
  | UnlinkAt d n => λ a w', on_success (λ _, ∃ i names j,
      w_handles w !! d = Some (i, names) ∧ child ns i n = Some j ∧ ¬ is_directory ns j ∧
      w' = with_nodes w (remove_entry ns i n)) (w' = w) a
  | HandleMeta h => λ a w', w' = w ∧ on_success (λ m, ∃ i names nd,
      w_handles w !! h = Some (i, names) ∧ ns !! i = Some nd ∧ describes m nd) True a
  | SetHandleMode h mode => λ a w', on_success (λ _, ∃ i names content old synced,
      w_handles w !! h = Some (i, names) ∧ ns !! i = Some (Regular content old synced) ∧
      w' = with_nodes w (<[i := Regular content mode false]> ns)) (w' = w) a
  | WriteHandle h data => λ a w', ∃ written, on_success (λ _, written = data) (∃ rest, data = written +:+ rest) a ∧
      ((∃ i names content mode synced,
          w_handles w !! h = Some (i, names) ∧ ns !! i = Some (Regular content mode synced) ∧
          w' = with_nodes w (<[i := Regular (content +:+ written) mode false]> ns)) ∨
       (on_success (λ _, False) True a ∧ w' = w))
  | SyncHandle h => λ a w', on_success (λ _, ∃ i names nd,
      w_handles w !! h = Some (i, names) ∧ ns !! i = Some nd ∧
      w' = with_nodes w (match nd with
                         | Regular content mode _ => <[i := Regular content mode true]> ns
                         | _ => ns
                         end)) (w' = w) a
  | ReadTake h limit => λ a w', w' = w ∧ on_success (λ bytes, ∃ i names content mode synced rest,
      w_handles w !! h = Some (i, names) ∧ ns !! i = Some (Regular content mode synced) ∧
      content = bytes +:+ rest ∧ str_len bytes ≤ limit ∧ (str_len bytes = limit ∨ rest = "")) True a
  | FetchAdd => λ next w', w' = w ∧ 0 ≤ next
  | _ => λ _ _, True
  end.

(** ** Rely and guarantee *)

Definition is_stage (n : string) : Prop := ∃ rest, n = STAGE_PREFIX +:+ rest.

(** What other processes may do: everything but touch the files this process
    created, or replace or change a regular file of the name [name]; a file
    stays of its kind. *)
Record rely (own : gset nat) (name : string) (ns ns' : nodes) : Prop := {
  rl_kinds : ∀ i nd, ns !! i = Some nd → ∃ nd', ns' !! i = Some nd' ∧ same_kind nd nd';
  rl_own : ∀ i content mode synced, i ∈ own → ns !! i = Some (Regular content mode synced) →
    ns' !! i = Some (Regular content mode synced);
  rl_links : ∀ i d n, i ∈ own → child ns' d n = Some i ↔ child ns d n = Some i;
  rl_sealed : ∀ d i content mode synced, child ns d name = Some i → ns !! i = Some (Regular content mode synced) →
    child ns' d name = Some i ∧ ns' !! i = Some (Regular content mode synced);
}.

(** What a writer of [data] under [name] does to the file system: new
    directories, private leaves, and the final name once its file is complete
    and durable. *)
Inductive guar (own : gset nat) (name data : string) (mode_ok : Z → Prop) (ns : nodes) : gset nat → nodes → Prop :=
| GuarNone : guar own name data mode_ok ns own ns
| GuarMakeDir d n i : is_directory ns d → child ns d n = None → fresh_inode ns i →
    guar own name data mode_ok ns own (add_entry (<[i := Directory ∅]> ns) d n i)
| GuarStage d n i mode : is_stage n → is_directory ns d → child ns d n = None → fresh_inode ns i →
    guar own name data mode_ok ns ({[i]} ∪ own) (add_entry (<[i := Regular "" mode false]> ns) d n i)
| GuarFill i content mode synced content' mode' synced' : i ∈ own →
    ns !! i = Some (Regular content mode synced) → (∀ d n, child ns d n = Some i → is_stage n) →
    guar own name data mode_ok ns own (<[i := Regular content' mode' synced']> ns)
| GuarPublish d i mode : i ∈ own → ns !! i = Some (Regular data mode true) → mode_ok mode →
    is_directory ns d → child ns d name = None →
    guar own name data mode_ok ns own (add_entry ns d name i)
| GuarUnlink d n i : i ∈ own → is_stage n → child ns d n = Some i → ¬ is_directory ns i →
    guar own name data mode_ok ns own (remove_entry ns d n).

(** *** Facts about entries *)

Lemma lookup_set_entry ns d f j : set_entry ns d f !! j =
  if decide (d = j) then (λ nd, match nd with Directory entries => Directory (f entries) | _ => nd end) <$> ns !! j
  else ns !! j.
Proof. unfold set_entry. rewrite lookup_alter. destruct (decide (d = j)) as [<-|]; done. Qed.

Lemma set_entry_regular ns d f j c m s :
  set_entry ns d f !! j = Some (Regular c m s) ↔ ns !! j = Some (Regular c m s).
Proof. rewrite lookup_set_entry. case_decide; [|done]. destruct (ns !! j) as [[]|]; naive_solver. Qed.

Lemma set_entry_directory ns d f j : is_directory (set_entry ns d f) j ↔ is_directory ns j.
Proof.
  unfold is_directory. rewrite lookup_set_entry. case_decide; [|done].
  destruct (ns !! j) as [[]|]; naive_solver.
Qed.

Lemma child_add ns d n i d' n' : is_directory ns d →
  child (add_entry ns d n i) d' n' = if decide (d = d' ∧ n = n') then Some i else child ns d' n'.
Proof.
  intros [es Hes]. unfold child, add_entry. rewrite lookup_set_entry. destruct (decide (d = d')) as [<-|Hd].
  - rewrite Hes. cbn. destruct (decide (n = n')) as [<-|Hn].
    + by rewrite lookup_insert_eq, decide_True.
    + by rewrite lookup_insert_ne, decide_False by naive_solver.
  - by rewrite decide_False by naive_solver.
Qed.

Lemma child_remove ns d n d' n' :
  child (remove_entry ns d n) d' n' = if decide (d = d' ∧ n = n') then None else child ns d' n'.
Proof.
  unfold child, remove_entry. rewrite lookup_set_entry. destruct (decide (d = d')) as [<-|Hd].
  - destruct (decide (n = n')) as [<-|Hn].
    + rewrite decide_True by done. destruct (ns !! d) as [[]|]; cbn; try done. by rewrite lookup_delete_eq.
    + rewrite decide_False by naive_solver. destruct (ns !! d) as [[]|]; cbn; try done. by rewrite lookup_delete_ne.
  - by rewrite decide_False by naive_solver.
Qed.

(** A file that is no directory, or a new empty directory, has no entries. *)
Lemma child_insert ns i nd d n :
  ¬ is_directory ns i → (∀ es, nd = Directory es → es = ∅) → child (<[i := nd]> ns) d n = child ns d n.
Proof.
  intros Hi Hnd. unfold child. destruct (decide (i = d)) as [<-|Hne].
  - rewrite lookup_insert_eq. destruct nd as [es| | |].
    + rewrite (Hnd es eq_refl), lookup_empty. destruct (ns !! i) as [[]|] eqn:E; try done. destruct Hi. by eexists.
    + destruct (ns !! i) as [[]|] eqn:E; try done. destruct Hi. by eexists.
    + destruct (ns !! i) as [[]|] eqn:E; try done. destruct Hi. by eexists.
    + destruct (ns !! i) as [[]|] eqn:E; try done. destruct Hi. by eexists.
  - by rewrite lookup_insert_ne.
Qed.

Lemma same_kind_refl nd : same_kind nd nd.
Proof. by destruct nd. Qed.
Lemma set_entry_kinds ns d f i nd : ns !! i = Some nd → ∃ nd', set_entry ns d f !! i = Some nd' ∧ same_kind nd nd'.
Proof.
  intros H. rewrite lookup_set_entry, H. case_decide; cbn; eexists; (split; [done|]); by destruct nd.
Qed.

Lemma fresh_not_directory ns i : fresh_inode ns i → ¬ is_directory ns i.
Proof. intros [H _] [es Hes]. congruence. Qed.
Lemma regular_not_directory ns i c m s : ns !! i = Some (Regular c m s) → ¬ is_directory ns i.
Proof. intros H [es Hes]. congruence. Qed.
Lemma insert_directory ns i nd d : ¬ is_directory ns i → is_directory ns d → is_directory (<[i := nd]> ns) d.
Proof. intros Hi [es Hes]. exists es. rewrite lookup_insert_ne; [done|]. intros ->. apply Hi. by eexists. Qed.

Lemma rely_refl own name ns : rely own name ns ns.
Proof. constructor; [|naive_solver..]. intros i nd Hi. exists nd. split; [done|by destruct nd]. Qed.
Lemma rely_directory own name ns ns' d : rely own name ns ns' → is_directory ns d → is_directory ns' d.
Proof. intros [] [es Hes]. destruct (rl_kinds0 d _ Hes) as ([] & ? & []). by eexists. Qed.
Lemma rely_trans own name ns1 ns2 ns3 : rely own name ns1 ns2 → rely own name ns2 ns3 → rely own name ns1 ns3.
Proof.
  intros [] []. constructor; [|eauto| |].
  - intros i nd Hi. destruct (rl_kinds0 i nd Hi) as (nd1 & H1 & K1). destruct (rl_kinds1 i nd1 H1) as (nd2 & H2 & K2).
    exists nd2. split; [done|]. by destruct nd, nd1, nd2.
  - intros i d n Hi. by rewrite rl_links1, rl_links0.
  - intros d i c m s Hc Hn. destruct (rl_sealed0 d i c m s Hc Hn). eauto.
Qed.

Set Default Proof Using "Type".

Section Logic.
Context (name data : string) (mode_ok : Z → Prop).

Definition env (w w' : world) : Prop :=
  w_handles w' = w_handles w ∧ w_own w' = w_own w ∧ rely (w_own w) name (w_nodes w) (w_nodes w').

(** Every step the program takes, whatever happens between its steps, is in
    the guarantee, and every result is as [Q] says. *)
Fixpoint wpr {E A} (Q : world → result E A → Prop) (p : prog E A) (w : world) : Prop :=
  match p with
  | Ret r => ∀ w', env w w' → Q w' r
  | Call q k => ∀ w1 a w2, env w w1 → step w1 q a w2 →
      guar (w_own w1) name data mode_ok (w_nodes w1) (w_own w2) (w_nodes w2) ∧ wpr Q (k a) w2
  end.

Lemma env_refl w : env w w.
Proof. split_and!; [done|done|apply rely_refl]. Qed.
Lemma env_trans w1 w2 w3 : env w1 w2 → env w2 w3 → env w1 w3.
Proof.
  intros (H1 & H2 & H3) (H4 & H5 & H6). split_and!; [congruence|congruence|]. rewrite H2 in H6. by eapply rely_trans.
Qed.
#[local] Hint Resolve env_refl : core.

Lemma wpr_env {E A} (Q : world → result E A → Prop) p w w' : env w w' → wpr Q p w → wpr Q p w'.
Proof.
  destruct p as [r|q k]; cbn; intros He H.
  - intros w2 H2. apply H. by eapply env_trans.
  - intros w1 a w2 H1. apply H. by eapply env_trans.
Qed.

Lemma wpr_mono {E A} (Q Q' : world → result E A → Prop) p w :
  (∀ w r, Q w r → Q' w r) → wpr Q p w → wpr Q' p w.
Proof.
  intros HQ. revert w. induction p as [r|q k IH]; intros w; cbn; [eauto|].
  intros H w1 a w2 He Hs. destruct (H w1 a w2 He Hs). eauto.
Qed.

Lemma wpr_match {E F A B} (Q : world → result F B → Prop) (p : prog E A) f w :
  wpr (λ w r, wpr Q (f r) w) p w → wpr Q (prog_match p f) w.
Proof.
  revert w. induction p as [r|q k IH]; intros w; cbn.
  - intros H. by apply H.
  - intros H w1 a w2 He Hs. destruct (H w1 a w2 He Hs). eauto.
Qed.

Lemma wpr_bind {E A B} (Q : world → result E B → Prop) (p : prog E A) f w :
  wpr (λ w r, match r with Ok a => wpr Q (f a) w | Err e => Q w (Err e) end) p w → wpr Q (p ≫= f) w.
Proof.
  revert w. induction p as [[a|e]|q k IH]; intros w; cbn.
  - intros H. by apply H.
  - done.
  - intros H w1 a w2 He Hs. destruct (H w1 a w2 He Hs). eauto.
Qed.

(** *** Assertions that the others keep *)

Definition dir_at (w : world) (h d : nat) (names : list string) : Prop :=
  w_handles w !! h = Some (d, names) ∧ is_directory (w_nodes w) d.

(** A private leaf: created by this process, known under one name only. *)
Definition private_at (w : world) (d : nat) (t : string) (i : nat) (content : string) (mode : Z) (synced : bool) : Prop :=
  i ∈ w_own w ∧ w_nodes w !! i = Some (Regular content mode synced) ∧
  ∀ d' n, child (w_nodes w) d' n = Some i ↔ d' = d ∧ n = t.

Definition final_is (w : world) (d : nat) : Prop :=
  ∃ i mode synced, child (w_nodes w) d name = Some i ∧ w_nodes w !! i = Some (Regular data mode synced) ∧ mode_ok mode.

(** Others acted, and descriptors may have been opened. *)
Definition evolves (w w' : world) : Prop :=
  w_handles w ⊆ w_handles w' ∧ w_own w' = w_own w ∧ rely (w_own w) name (w_nodes w) (w_nodes w').

Lemma env_evolves w w' : env w w' → evolves w w'.
Proof. intros (Hh & Ho & H). split_and!; [by rewrite Hh|done|done]. Qed.
Lemma opened_evolves w h x w' : opened w h x w' → evolves w w'.
Proof. intros [H ->]. split_and!; [by apply insert_subseteq|done|apply rely_refl]. Qed.
Lemma evolves_trans w1 w2 w3 : evolves w1 w2 → evolves w2 w3 → evolves w1 w3.
Proof.
  intros (H1 & H2 & H3) (H4 & H5 & H6). split_and!; [by etrans|congruence|]. rewrite H2 in H6. by eapply rely_trans.
Qed.
Lemma evolves_handle w w' h x : evolves w w' → w_handles w !! h = Some x → w_handles w' !! h = Some x.
Proof. intros (H & _) Hx. by eapply lookup_weaken. Qed.
Lemma evolves_dir w w' h d names : evolves w w' → dir_at w h d names → dir_at w' h d names.
Proof. intros He [H1 H2]. split; [by eapply evolves_handle|]. destruct He as (_ & _ & He). by eapply rely_directory. Qed.
Lemma evolves_private w w' d t i c m s : evolves w w' → private_at w d t i c m s → private_at w' d t i c m s.
Proof.
  intros (_ & Ho & []) (H1 & H2 & H3). split_and!; [congruence|eauto|]. intros d' n. by rewrite rl_links0.
Qed.
Lemma evolves_final w w' d : evolves w w' → final_is w d → final_is w' d.
Proof.
  intros (_ & _ & []) (i & m & s & H1 & H2 & H3). exists i, m, s.
  destruct (rl_sealed0 d i _ m s H1 H2). done.
Qed.
End Logic.

(** *** One writer's guarantee is what every other relies on *)

Section Others.
Context (own' : gset nat) (name' : string) (ns : nodes).

Lemma rely_new nd d n i :
  (∀ i, i ∈ own' → is_Some (ns !! i)) → (∀ es, nd = Directory es → es = ∅) →
  is_directory ns d → child ns d n = None → fresh_inode ns i →
  rely own' name' ns (add_entry (<[i := nd]> ns) d n i).
Proof.
  intros Hown Hnd Hd Hn Hi. pose proof (fresh_not_directory _ _ Hi) as Hi'. destruct Hi as [Hi Hfresh].
  assert (∀ d' n', child (<[i:=nd]> ns) d' n' = child ns d' n') as Hch by (intros; by apply child_insert).
  constructor.
  - intros j nd' Hj. apply set_entry_kinds. rewrite lookup_insert_ne; [done|congruence].
  - intros j c m s Hj Hr. apply set_entry_regular. rewrite lookup_insert_ne; [done|congruence].
  - intros j d' n' Hj. rewrite child_add by by apply insert_directory. rewrite Hch. case_decide as E; [|done].
    destruct E as [<- <-]. destruct (Hown j Hj) as [nd' Hj']. naive_solver.
  - intros d' j c m s Hc Hr. rewrite child_add by by apply insert_directory. rewrite Hch. split.
    + rewrite decide_False; [done|]. intros [<- <-]. congruence.
    + apply set_entry_regular. rewrite lookup_insert_ne; [done|congruence].
Qed.

Lemma rely_fill i c m s c' m' s' :
  i ∉ own' → ¬ is_stage name' → ns !! i = Some (Regular c m s) → (∀ d n, child ns d n = Some i → is_stage n) →
  rely own' name' ns (<[i := Regular c' m' s']> ns).
Proof.
  intros Hi Hname Hr Hst. pose proof (regular_not_directory _ _ _ _ _ Hr) as Hnd.
  assert (∀ d' n', child (<[i:=Regular c' m' s']> ns) d' n' = child ns d' n') as Hch
    by (intros; apply child_insert; naive_solver).
  constructor.
  - intros j nd Hj. destruct (decide (i = j)) as [<-|Hne].
    + exists (Regular c' m' s'). rewrite lookup_insert_eq. split; [done|]. by simplify_eq.
    + exists nd. rewrite lookup_insert_ne by done. split; [done|apply same_kind_refl].
  - intros j c0 m0 s0 Hj Hr0. rewrite lookup_insert_ne; [done|]. set_solver.
  - intros j d' n' Hj. by rewrite Hch.
  - intros d' j c0 m0 s0 Hc Hr0. rewrite Hch. split; [done|]. rewrite lookup_insert_ne; [done|].
    intros ->. by apply Hname, (Hst d').
Qed.

Lemma rely_publish d n i : i ∉ own' → is_directory ns d → child ns d n = None → rely own' name' ns (add_entry ns d n i).
Proof.
  intros Hi Hd Hn. constructor.
  - intros j nd Hj. by apply set_entry_kinds.
  - intros j c m s Hj Hr0. by apply set_entry_regular.
  - intros j d' n' Hj. rewrite child_add by done. case_decide as E; [|done]. destruct E as [<- <-].
    rewrite Hn. assert (i ≠ j) by set_solver. naive_solver.
  - intros d' j c m s Hc Hr0. rewrite child_add by done. split; [|by apply set_entry_regular].
    rewrite decide_False; [done|]. intros [<- <-]. congruence.
Qed.

Lemma rely_unlink d n i :
  i ∉ own' → is_stage n → ¬ is_stage name' → child ns d n = Some i → rely own' name' ns (remove_entry ns d n).
Proof.
  intros Hi Hst Hname Hc. constructor.
  - intros j nd Hj. by apply set_entry_kinds.
  - intros j c m s Hj Hr0. by apply set_entry_regular.
  - intros j d' n' Hj. rewrite child_remove. case_decide as E; [|done]. destruct E as [<- <-].
    rewrite Hc. assert (i ≠ j) by set_solver. naive_solver.
  - intros d' j c m s Hc0 Hr0. rewrite child_remove. split; [|by apply set_entry_regular].
    rewrite decide_False; [done|]. by intros [<- <-].
Qed.

Lemma guar_rely own name data mode_ok own1 ns' :
  guar own name data mode_ok ns own1 ns' → ¬ is_stage name' → own ## own' → (∀ i, i ∈ own' → is_Some (ns !! i)) →
  rely own' name' ns ns'.
Proof.
  intros [] Hname Hdisj Hown.
  - apply rely_refl.
  - apply rely_new; naive_solver.
  - apply rely_new; naive_solver.
  - eapply rely_fill; [set_solver|done..].
  - apply rely_publish; [set_solver|done..].
  - eapply rely_unlink; [|done..]. set_solver.
Qed.
End Others.

(** ** The programs *)

Section Programs.
Context (display : path → string) (pid : Z) (name data : string) (mode_ok : Z → Prop).
#[local] Abbreviation env := (env name).
#[local] Abbreviation evolves := (evolves name).
#[local] Abbreviation wpr := (wpr name data mode_ok).
#[local] Abbreviation final_is := (final_is name data mode_ok).

(** Requests that change nothing *)

Lemma wpr_meta {A} (Q : world → result RunnerError A → Prop) h x f w :
  w_handles w !! h = Some x →
  (∀ w' e, evolves w w' → Q w' (Err e)) →
  (∀ w' m nd, evolves w w' → w_nodes w' !! x.1 = Some nd → describes m nd → wpr Q (f m) w') →
  wpr Q (Call (HandleMeta h) (λ m, Ret (map_err io_error_of m)) ≫= f) w.
Proof.
  intros Hh He Hk w1 a w2 H1 [-> Hs]. split; [apply GuarNone|]. apply env_evolves in H1. destruct a as [m|e]; cbn in *.
  - destruct Hs as (i & names & nd & Hi & Hnd & Hd). apply (evolves_handle _ _ _ _ _ H1) in Hh. simplify_eq.
    by apply (Hk w1 m nd).
  - intros w2 H2%env_evolves. apply He. by eapply evolves_trans.
Qed.

(** Reading the file of the name *)

Lemma wpr_read_descriptor fd d i names max_bytes m c mode s w :
  w_handles w !! fd = Some (i, names) → child (w_nodes w) d name = Some i →
  w_nodes w !! i = Some (Regular c mode s) →
  wpr (λ w' r, evolves w w' ∧ ∀ bytes, r = Ok bytes → bytes = c ∧ str_len bytes ≤ max_bytes)
    (read_descriptor fd m max_bytes) w.
Proof.
  intros Hfd Hc Hr. unfold read_descriptor.
  assert (∀ e : RunnerError, wpr (λ w' r, evolves w w' ∧ ∀ bytes, r = Ok bytes → bytes = c ∧ str_len bytes ≤ max_bytes)
    (Ret (Err e)) w) as Herr by (intros e w1 H1%env_evolves; done).
  case_match; [done|]. destruct (checked_add _ _ _) as [limit|] eqn:Hl; [|done].
  apply checked_add_some in Hl as [-> _]. intros w1 a w2 H1 [-> Hs]. split; [apply GuarNone|]. apply env_evolves in H1.
  assert (w_nodes w1 !! i = Some (Regular c mode s)) as Hr1.
  { destruct H1 as (_ & _ & []). by edestruct rl_sealed0. }
  destruct a as [bytes|e]; cbn in *.
  - destruct Hs as (i' & names' & c' & mode' & s' & rest & Hi & Hr' & -> & Hle & Hor).
    apply (evolves_handle _ _ _ _ _ H1) in Hfd. simplify_eq. case_match; intros w2 H2%env_evolves;
      (split; [by eapply evolves_trans|]); [done|]. to_prop.
    intros ? [= <-]. destruct Hor as [?| ->]; [lia|]. rewrite str_app_nil. split; [done|lia].
  - intros w2 H2%env_evolves. split; [by eapply evolves_trans|done].
Qed.

Definition mode_as (expected_mode : option Z) (mode : Z) : Prop :=
  match expected_mode with Some expected => permission_bits mode = expected | None => True end.

(** A file that the name has *)
Definition leaf_is (w : world) (d : nat) (bytes : string) (mode : Z) : Prop :=
  ∃ i synced, child (w_nodes w) d name = Some i ∧ w_nodes w !! i = Some (Regular bytes mode synced).

Lemma evolves_leaf w w' d bytes mode : evolves w w' → leaf_is w d bytes mode → leaf_is w' d bytes mode.
Proof.
  intros (_ & _ & []) (i & s & H1 & H2). exists i, s. by destruct (rl_sealed0 d i _ mode s H1 H2).
Qed.

Lemma wpr_open_leaf {A} (Q : world → result RunnerError A → Prop) parent d names f w :
  dir_at w parent d names →
  (∀ w' e, evolves w w' → Q w' (Err e)) →
  (∀ w' fd i, evolves w w' → w_handles w' !! fd = Some (i, names ++ [name]) → child (w_nodes w') d name = Some i →
     is_Some (w_nodes w' !! i) → wpr Q (f fd) w') →
  wpr Q (open_leaf parent name ≫= f) w.
Proof.
  intros Hd He Hk w1 a w2 H1 Hs. apply env_evolves in H1. pose proof (evolves_dir _ _ _ _ _ _ H1 Hd) as [Hh _].
  destruct a as [fd|e]; cbn in *.
  - destruct Hs as (i & names' & j & nd & Hi & Hc & Hnd & _ & Ho). simplify_eq.
    pose proof (opened_evolves name _ _ _ _ Ho) as H2. destruct Ho as [_ ->]. split; [apply GuarNone|].
    apply (Hk _ fd j); [by eapply evolves_trans|by apply lookup_insert_eq|done|by eexists].
  - subst w2. split; [apply GuarNone|]. intros w2 H2%env_evolves. apply He. by eapply evolves_trans.
Qed.

(** What is known of an opened leaf and its metadata *)
Definition leaf_opened (w : world) (d fd : nat) (m : metadata) : Prop :=
  ∃ i names c mode s, w_handles w !! fd = Some (i, names) ∧ child (w_nodes w) d name = Some i ∧
    w_nodes w !! i = Some (Regular c mode s) ∧ md_mode m = mode.

Lemma wpr_leaf {A} (Q : world → result RunnerError A → Prop) parent d names f w :
  dir_at w parent d names →
  (∀ w' e, evolves w w' → Q w' (Err e)) →
  (∀ w' fd m, evolves w w' → dir_at w' parent d names → (md_file m = true → leaf_opened w' d fd m) → wpr Q (f fd m) w') →
  wpr Q (fd ← open_leaf parent name; m ← Call (HandleMeta fd) (λ m, Ret (map_err io_error_of m)); f fd m) w.
Proof.
  intros Hd He Hk. eapply wpr_open_leaf; [done|done|]. intros w1 fd i H1 Hfd Hc [nd1 Hnd1].
  eapply wpr_meta; [done|intros w2 e H2; apply He; by eapply evolves_trans|].
  intros w2 m nd H2 Hnd Hdesc. cbn in Hnd. pose proof (evolves_trans _ _ _ _ H1 H2) as H3.
  apply Hk; [done|by eapply evolves_dir|]. intros Hf. pose proof (evolves_handle _ _ _ _ _ H2 Hfd) as Hfd2.
  destruct nd as [|c mode s| |]; cbn in Hdesc; try (destruct Hdesc; congruence).
  destruct H2 as (_ & _ & []). destruct (rl_kinds0 i nd1 Hnd1) as (nd' & Hnd' & Hkind).
  rewrite Hnd in Hnd'. injection Hnd' as <-. destruct nd1; try done.
  destruct (rl_sealed0 d i _ _ _ Hc Hnd1) as [Hc2 Hr2]. rewrite Hnd in Hr2. injection Hr2 as <- <- <-.
  exists i, (names ++ [name]), c, mode, s. by destruct Hdesc as (_ & _ & _ & ->).
Qed.

Lemma wpr_read_opened d fd m max_bytes w : leaf_opened w d fd m →
  wpr (λ w' r, evolves w w' ∧ ∀ bytes, r = Ok bytes → str_len bytes ≤ max_bytes ∧ leaf_is w' d bytes (md_mode m))
    (read_descriptor fd m max_bytes) w.
Proof.
  intros (i & names & c & mode & s & Hfd & Hc & Hr & Hm). eapply wpr_mono; [|by eapply (wpr_read_descriptor fd d)].
  intros w' r [H' Hb]. split; [done|]. intros bytes ->. destruct (Hb bytes eq_refl) as [-> ?]. split; [done|].
  eapply evolves_leaf; [done|]. rewrite Hm. by eexists _, _.
Qed.

Lemma wpr_read_leaf parent d names max_bytes expected_mode w :
  dir_at w parent d names →
  wpr (λ w' r, evolves w w' ∧ ∀ bytes, r = Ok bytes → str_len bytes ≤ max_bytes ∧
         ∃ mode, leaf_is w' d bytes mode ∧ mode_as expected_mode mode)
    (authority_read_from_parent_with_mode parent name max_bytes expected_mode) w.
Proof.
  intros Hd. unfold authority_read_from_parent_with_mode. eapply wpr_leaf; [done|done|]. intros w1 fd m E1 _ Hleaf.
  assert (∀ e : RunnerError, wpr (λ w' r, evolves w w' ∧ ∀ bytes, r = Ok bytes → str_len bytes ≤ max_bytes ∧
         ∃ mode, leaf_is w' d bytes mode ∧ mode_as expected_mode mode) (Ret (Err e)) w1) as Herr.
  { intros e w' H'%env_evolves. split; [by eapply evolves_trans|done]. }
  destruct (md_file m); [|apply Herr]. cbn [negb]. case_match eqn:Hm; [apply Herr|].
  eapply wpr_mono; [|by apply wpr_read_opened, Hleaf]. intros w' r [H' Hb]. split; [by eapply evolves_trans|].
  intros bytes ->. destruct (Hb bytes eq_refl) as [? ?]. split; [done|]. exists (md_mode m). split; [done|].
  destruct expected_mode; [|done]. cbn. by to_prop.
Qed.

(** The walk to the parent directory *)

Definition walked (own : gset nat) (names : list string) (w : world) (r : result RunnerError nat) : Prop :=
  ∀ h, r = Ok h → w_own w = own ∧ ∃ d, dir_at w h d names.

Lemma walked_env own names r w w' : env w w' → walked own names w r → walked own names w' r.
Proof.
  intros He H h ->. destruct (H h eq_refl) as [Ho [d Hd]]. split; [destruct He as (_ & -> & _); done|].
  exists d. eapply evolves_dir; [by apply env_evolves|done].
Qed.

Lemma wpr_ret_walked own names r w : walked own names w r → wpr (walked own names) (Ret r) w.
Proof. intros H w' He. by eapply walked_env. Qed.

Lemma wpr_open_dir own names n h d (k : result errno nat → prog RunnerError nat) w :
  w_own w = own → dir_at w h d names →
  (∀ w' h', walked own (names ++ [n]) w' (Ok h') → wpr (walked own (names ++ [n])) (k (Ok h')) w') →
  (∀ w' e, w_own w' = own → dir_at w' h d names → wpr (walked own (names ++ [n])) (k (Err e)) w') →
  wpr (walked own (names ++ [n])) (Call (OpenDirAt h n) k) w.
Proof.
  intros Ho Hd Hok Herr w1 a w2 H1 Hs. pose proof (evolves_dir _ _ _ _ _ _ (env_evolves _ _ _ H1) Hd) as Hd1.
  assert (w_own w1 = own) as Ho1 by (destruct H1 as (_ & -> & _); done).
  destruct a as [h'|e]; cbn in Hs.
  - destruct Hs as (i & names' & j & Hi & Hc & Hj & [_ ->]). destruct Hd1 as [Hh Hdir]. simplify_eq.
    split; [apply GuarNone|]. apply Hok. intros ? [= <-]. split; [done|]. exists j.
    split; [by apply lookup_insert_eq|done].
  - subst w2. split; [apply GuarNone|]. by apply Herr.
Qed.

Lemma wpr_open_component p create h d names n w own :
  w_own w = own → dir_at w h d names →
  wpr (walked own (names ++ [n])) (open_component display p create h n) w.
Proof.
  intros Ho Hd. unfold open_component. apply wpr_bind.
  eapply (wpr_mono _ _ _ (walked own (names ++ [n]))).
  { intros w1 [h'|e] Hw; [|intros ? [=]]. destruct (Hw h' eq_refl) as [Ho' [d' [Hh Hdir]]].
    eapply wpr_meta; [done|by intros ? ? _ ? [=]|]. intros w2 m nd H2 Hnd Hdesc.
    destruct (md_dir m); cbn [negb]; apply wpr_ret_walked; [|by intros ? [=]].
    intros ? [= <-]. split; [destruct H2 as (_ & -> & _); done|]. exists d'. by eapply evolves_dir. }
  assert (∀ w' (e : RunnerError), wpr (walked own (names ++ [n])) (Ret (Err e)) w') as Hret
    by (intros w' e; apply wpr_ret_walked; by intros ? [=]).
  assert (∀ w', w_own w' = own → dir_at w' h d names → wpr (walked own (names ++ [n]))
    (Call (OpenDirAt h n) (λ again, Ret (map_err (λ error, Io (en_message error)) again))) w') as Hagain.
  { intros w' Ho' Hd'. eapply wpr_open_dir; [done|done| |].
    - intros w1 h' Hw. by apply wpr_ret_walked.
    - intros w1 e _ _. apply Hret. }
  eapply wpr_open_dir; [done|done| |].
  - intros w' h' Hw. by apply wpr_ret_walked.
  - intros w' e Ho' Hd'. cbn. destruct (en_code e); try apply Hret. destruct create; [|apply Hret].
    intros w1 a w2 H1 Hs. pose proof (evolves_dir _ _ _ _ _ _ (env_evolves _ _ _ H1) Hd') as Hd1.
    assert (w_own w1 = own) as Ho1 by (destruct H1 as (_ & -> & _); done).
    destruct a as [[]|e']; cbn in Hs.
    + destruct Hs as (i & names' & j & Hi & Hdir & Hc & Hf & ->). split; [by constructor|].
      apply Hagain; [done|]. destruct Hd1 as [? ?]. split; [done|]. cbn. apply set_entry_directory.
      apply insert_directory; [by apply fresh_not_directory|done].
    + subst w2. split; [apply GuarNone|]. case_bool_decide; [by apply Hagain|apply Hret].
Qed.

Definition normal_names (p : path) : list string := omap (λ c, match c with Normal n => Some n | _ => None end) p.

Lemma wpr_open_components p create parents h d names w own :
  w_own w = own → dir_at w h d names →
  wpr (walked own (names ++ normal_names parents)) (open_components display p create h parents) w.
Proof.
  revert h d names w. induction parents as [|[| | |n] parents IH]; intros h d names w Ho Hd;
    cbn [open_components]; try by eapply IH.
  - cbn. rewrite app_nil_r. apply wpr_ret_walked. intros ? [= <-]. eauto.
  - apply wpr_bind. eapply wpr_mono; [|by eapply wpr_open_component].
    intros w1 [h'|e] Hw; [|by intros ? [=]]. destruct (Hw h' eq_refl) as [Ho' [d' Hd']].
    change (normal_names (Normal n :: parents)) with ([n] ++ normal_names parents). rewrite app_assoc. by eapply IH.
Qed.

(** The directory of a path was opened from the root, name by name. *)
Lemma wpr_open_parent {A} (Q : world → result RunnerError A → Prop) p create f w :
  (∀ w' e, Q w' (Err e)) → is_directory (w_nodes w) ROOT →
  (∀ w' h d, file_name p = Some name → w_own w' = w_own w → dir_at w' h d (normal_names (removelast p)) →
     wpr Q (f (h, name)) w') →
  file_name p = Some name →
  wpr Q (authority_open_parent display p create ≫= f) w.
Proof.
  intros He Hroot Hk Hname. unfold authority_open_parent. rewrite Hname. apply wpr_bind, wpr_bind.
  intros w1 a w2 H1 Hs. assert (is_directory (w_nodes w1) ROOT) as Hroot1
    by (destruct H1 as (_ & _ & H1); by eapply rely_directory).
  destruct a as [h|e]; cbn in Hs; [|subst w2; split; [apply GuarNone|intros w' _; apply He]].
  destruct Hs as [_ ->]. split; [apply GuarNone|]. intros w3 H3. apply wpr_bind.
  eapply wpr_mono; [|eapply (wpr_open_components p create _ h ROOT [] w3 (w_own w3))].
  - intros w4 [h'|e] Hw; [|done]. destruct (Hw h' eq_refl) as [Ho [d Hd]]. intros w5 H5.
    apply (Hk w5 h' d); [done| |].
    + destruct H1 as (_ & E1 & _), H3 as (_ & E3 & _), H5 as (_ & E5 & _). cbn in *. congruence.
    + eapply evolves_dir; [by apply env_evolves|]. unfold file_name, parent in *.
      destruct (last p) as [[]|] eqn:Hl; done.
  - done.
  - eapply evolves_dir; [by apply env_evolves|]. split; [by apply lookup_insert_eq|done].
Qed.
End Programs.

(** *** Publication *)

Section Publication.
Context (display : path → string) (pid : Z) (name data : string) (mode : Z) (exact_mode : bool).
Context (own0 : gset nat) (parent d : nat) (names : list string) (file i : nat) (t : string).
#[local] Abbreviation expected := (if exact_mode then Some mode else None).
#[local] Abbreviation mode_ok := (mode_as expected).
#[local] Abbreviation env := (env name).
#[local] Abbreviation evolves := (evolves name).
#[local] Abbreviation wpr := (wpr name data mode_ok).
#[local] Abbreviation final_is := (final_is name data mode_ok).

(** The leaf is private, *)
Definition in_stage (w : world) (content : string) (mode : Z) (synced : bool) : Prop :=
  dir_at w parent d names ∧ w_own w = {[i]} ∪ own0 ∧ (∃ path, w_handles w !! file = Some (i, path)) ∧
  private_at w d t i content mode synced.

(** or it may have its final name too. *)
Definition stage_left (w : world) : Prop :=
  dir_at w parent d names ∧ w_own w = {[i]} ∪ own0 ∧
  (∃ content mode synced, w_nodes w !! i = Some (Regular content mode synced)) ∧
  child (w_nodes w) d t = Some i ∧ ∀ d' n, child (w_nodes w) d' n = Some i → (d' = d ∧ n = t) ∨ n = name.

Definition published (w : world) (r : result RunnerError unit) : Prop :=
  stage_left w ∧ (r = Ok tt → final_is w d).

Lemma in_stage_left w c m s : in_stage w c m s → stage_left w.
Proof.
  intros (H1 & H2 & _ & _ & H3 & H4). split_and!; [done|done|eauto|by apply H4|]. intros d' n Hc. left. by apply H4.
Qed.

Lemma evolves_in_stage w w' c m s : evolves w w' → in_stage w c m s → in_stage w' c m s.
Proof.
  intros He (H1 & H2 & [q H3] & H4). split_and!; [by eapply evolves_dir| | |by eapply evolves_private].
  - destruct He as (_ & -> & _). done.
  - exists q. by eapply evolves_handle.
Qed.

Lemma evolves_stage_left w w' : evolves w w' → stage_left w → stage_left w'.
Proof.
  intros He (H1 & H2 & (c & m & s & H3) & H4 & H5). pose proof (evolves_dir _ _ _ _ _ _ He H1).
  destruct He as (_ & Ho & []). assert (i ∈ w_own w) as Hi by set_solver. split_and!; [done|congruence|eauto| |].
  - by apply rl_links0.
  - intros d' n Hc. by apply H5, rl_links0.
Qed.

Lemma wpr_published_err w e : stage_left w → wpr published (Ret (Err e)) w.
Proof. intros H w' He%env_evolves. split; [by eapply evolves_stage_left|done]. Qed.

Lemma stage_fill w c m s c' m' s' : is_stage t → in_stage w c m s →
  guar (w_own w) name data mode_ok (w_nodes w) (w_own w) (<[i := Regular c' m' s']> (w_nodes w)) ∧
  in_stage (with_nodes w (<[i := Regular c' m' s']> (w_nodes w))) c' m' s'.
Proof.
  intros Ht ([H1 H1'] & H2 & [q H3] & H4 & H5 & H6). pose proof (regular_not_directory _ _ _ _ _ H5) as Hnd. split.
  - eapply GuarFill; [done|done|]. intros d' n [_ ->]%H6. done.
  - split_and!; [split; [done|by apply insert_directory]|done|by exists q|]. split_and!; [done|by apply lookup_insert_eq|].
    intros d' n. cbn. rewrite child_insert by naive_solver. apply H6.
Qed.

(** What a filling request leaves: a private leaf, as [P] says when it
    succeeded. *)
Definition filled {X} (P : string → Z → bool → Prop) (w : world) (r : result RunnerError X) : Prop :=
  ∃ c m s, in_stage w c m s ∧ ∀ x, r = Ok x → P c m s.

Lemma wpr_ret_filled {X} P (r : result RunnerError X) w : filled P w r → wpr (filled P) (Ret r) w.
Proof.
  intros (c & m & s & H & HP) w' E%env_evolves. exists c, m, s. split; [by eapply evolves_in_stage|done].
Qed.

Lemma wpr_filled_bind {X Y} (P P' : string → Z → bool → Prop) (p : prog RunnerError X) (f : X → prog RunnerError Y) w :
  wpr (filled P) p w → (∀ w' x c m s, in_stage w' c m s → P c m s → wpr (filled P') (f x) w') →
  wpr (filled P') (p ≫= f) w.
Proof.
  intros Hp Hf. apply wpr_bind. eapply wpr_mono; [|exact Hp]. intros w' [x|e] (c & m & s & H & HP).
  - by eapply Hf, HP.
  - exists c, m, s. split; [done|by intros ? [=]].
Qed.

Lemma wpr_fill {X} (q : request) (g : answer q → result RunnerError X) c m s P w :
  in_stage w c m s →
  (∀ w1 a w2, in_stage w1 c m s → step w1 q a w2 →
     guar (w_own w1) name data mode_ok (w_nodes w1) (w_own w2) (w_nodes w2) ∧ filled P w2 (g a)) →
  wpr (filled P) (Call q (λ a, Ret (g a))) w.
Proof.
  intros Hw Hs w1 a w2 E1%env_evolves Hstep.
  destruct (Hs w1 a w2 (evolves_in_stage _ _ _ _ _ E1 Hw) Hstep) as [HG HF]. split; [done|]. by apply wpr_ret_filled.
Qed.

Lemma wpr_check_mode c m s w : in_stage w c m s →
  wpr (filled (λ c' m' s', c' = c ∧ s' = s ∧ mode_ok m')) (check_mode file exact_mode mode) w.
Proof.
  intros Hw. unfold check_mode. destruct exact_mode eqn:Hx.
  - pose proof Hw as (_ & _ & [q H3] & _). eapply wpr_meta; [done| |].
    { intros w' e E. exists c, m, s. split; [by eapply evolves_in_stage|by intros ? [=]]. }
    intros w1 md nd E1 Hnd Hdesc. cbn in Hnd. pose proof (evolves_in_stage _ _ _ _ _ E1 Hw) as H5.
    pose proof H5 as (_ & _ & _ & _ & Hi & _). rewrite Hi in Hnd. injection Hnd as <-. destruct Hdesc as (_ & _ & _ & ->).
    destruct (negb _) eqn:Hm; apply wpr_ret_filled; exists c, m, s; (split; [done|]); [by intros ? [=]|].
    intros x _. split_and!; [done|done|]. cbn. by to_prop.
  - apply wpr_ret_filled. exists c, m, s. done.
Qed.

Lemma wpr_set_mode c m s w : is_stage t → in_stage w c m s →
  wpr (filled (λ c' _ _, c' = c)) (Call (SetHandleMode file mode) (λ r, Ret (map_err io_error_of r))) w.
Proof.
  intros Ht Hw0. eapply wpr_fill; [done|]. intros w1 a w2 Hw Hs. pose proof Hw as (_ & _ & [q Hq] & _ & Hi & _).
  destruct a as [[]|e]; cbn in Hs.
  - destruct Hs as (j & names' & c1 & old & synced & Hj & Hr & ->). simplify_eq.
    destruct (stage_fill _ _ _ _ c1 mode false Ht Hw). split; [done|]. exists c1, mode, false. done.
  - subst w2. split; [apply GuarNone|]. exists c, m, s. done.
Qed.

Lemma wpr_write m s w : is_stage t → in_stage w "" m s →
  wpr (filled (λ c' _ _, c' = data)) (Call (WriteHandle file data) (λ r, Ret (map_err io_error_of r))) w.
Proof.
  intros Ht Hw0. eapply wpr_fill; [done|]. intros w1 a w2 Hw (written & Hd & Hs).
  pose proof Hw as (_ & _ & [q Hq] & _ & Hi & _). destruct Hs as [(j & names' & c1 & m1 & s1 & Hj & Hr & ->)|[Ha ->]].
  - simplify_eq. destruct (stage_fill _ _ _ _ written m1 false Ht Hw) as [HG Hst]. split; [done|].
    exists written, m1, false. split; [done|]. by destruct a as [[]|].
  - split; [apply GuarNone|]. exists "", m, s. split; [done|]. by destruct a as [[]|].
Qed.

Lemma wpr_sync c m s w : is_stage t → in_stage w c m s →
  wpr (filled (λ c' _ s', c' = c ∧ s' = true)) (Call (SyncHandle file) (λ r, Ret (map_err io_error_of r))) w.
Proof.
  intros Ht Hw0. eapply wpr_fill; [done|]. intros w1 a w2 Hw Hs. pose proof Hw as (_ & _ & [q Hq] & _ & Hi & _).
  destruct a as [[]|e]; cbn in Hs.
  - destruct Hs as (j & names' & nd & Hj & Hr & ->). simplify_eq.
    destruct (stage_fill _ _ _ _ c m true Ht Hw) as [HG Hst]. split; [done|]. exists c, m, true. done.
  - subst w2. split; [apply GuarNone|]. exists c, m, s. done.
Qed.

(** The leaf is complete and durable when filling succeeded. *)
Lemma wpr_fill_stage m s w : is_stage t → in_stage w "" m s →
  wpr (filled (λ c' m' s', c' = data ∧ s' = true ∧ mode_ok m')) (fill_stage file data mode exact_mode) w.
Proof.
  intros Ht Hw. unfold fill_stage. eapply (wpr_filled_bind (λ c _ _, c = "")).
  { assert (wpr (filled (λ c _ _, c = "")) (Ret (Ok tt)) w) by (apply wpr_ret_filled; by exists "", m, s).
    pose proof (wpr_set_mode _ _ _ _ Ht Hw). by destruct exact_mode. }
  intros w1 _ c1 m1 s1 H1 ->. eapply wpr_filled_bind; [by eapply wpr_check_mode|].
  intros w2 _ c2 m2 s2 H2 (-> & _ & _). eapply wpr_filled_bind; [by eapply wpr_write|].
  intros w3 _ c3 m3 s3 H3 ->. eapply wpr_filled_bind; [by eapply wpr_sync|].
  intros w4 _ c4 m4 s4 H4 [-> ->]. eapply wpr_mono; [|by eapply wpr_check_mode]. done.
Qed.

Lemma with_nodes_same w : with_nodes w (w_nodes w) = w.
Proof. by destruct w. Qed.

(** A directory is made durable: nothing changes. *)
Lemma wpr_sync_dir w h d' names' (Q : world → result RunnerError unit → Prop) :
  dir_at w h d' names' → (∀ w' r, evolves w w' → Q w' r) →
  wpr Q (Call (SyncHandle h) (λ r, Ret (map_err io_error_of r))) w.
Proof.
  intros Hd HQ w1 a w2 E1%env_evolves Hs. pose proof (evolves_dir _ _ _ _ _ _ E1 Hd) as [Hh [es Hes]].
  assert (w2 = w1) as ->.
  { destruct a as [[]|e]; cbn in Hs; [|done]. destruct Hs as (j & ns' & nd & Hj & Hnd & ->). simplify_eq.
    apply with_nodes_same. }
  split; [apply GuarNone|]. intros w2 E2%env_evolves. apply HQ. by eapply evolves_trans.
Qed.

Lemma link_published w m : ¬ is_stage name → is_stage t → in_stage w data m true → mode_ok m →
  child (w_nodes w) d name = None →
  guar (w_own w) name data mode_ok (w_nodes w) (w_own w) (add_entry (w_nodes w) d name i) ∧
  stage_left (with_nodes w (add_entry (w_nodes w) d name i)) ∧
  final_is (with_nodes w (add_entry (w_nodes w) d name i)) d.
Proof.
  intros Hn Ht ([H1 H1'] & H2 & _ & H4 & H5 & H6) Hm Hc. split_and!.
  - by eapply GuarPublish.
  - split_and!; cbn; [split; [done|by apply set_entry_directory]|done| | |].
    + exists data, m, true. by apply set_entry_regular.
    + rewrite child_add by done. rewrite decide_False by naive_solver. by apply H6.
    + intros d' n. rewrite child_add by done. case_decide as E; [naive_solver|]. rewrite H6. naive_solver.
  - exists i, m, true. cbn. rewrite child_add by done. rewrite decide_True by done.
    split_and!; [done|by apply set_entry_regular|done].
Qed.

Lemma wpr_link_stage p max_bytes m w :
  ¬ is_stage name → is_stage t → in_stage w data m true → mode_ok m →
  wpr published (link_stage display p parent t name data max_bytes mode exact_mode) w.
Proof.
  intros Hn Ht Hw0 Hm w1 a w2 E1%env_evolves Hs. pose proof (evolves_in_stage _ _ _ _ _ E1 Hw0) as Hw.
  pose proof Hw as ([Hh Hd] & _ & _ & _ & _ & Hlinks). destruct a as [[]|e]; cbn in Hs.
  - destruct Hs as (d1 & n1 & d2 & n2 & j & Hd1 & Hd2 & Hc & _ & _ & Hnone & ->). simplify_eq.
    assert (j = i) as ->. { assert (child (w_nodes w1) d t = Some i) by (by apply Hlinks). congruence. }
    destruct (link_published w1 m Hn Ht Hw Hm Hnone) as (HG & Hleft & Hfinal). split; [done|].
    eapply wpr_sync_dir; [by destruct Hleft|]. intros w' r E. split; [by eapply evolves_stage_left|].
    intros _. by eapply evolves_final.
  - subst w2. split; [apply GuarNone|]. case_bool_decide; [|by eapply wpr_published_err, in_stage_left].
    apply wpr_bind. eapply wpr_mono; [|eapply (wpr_read_leaf _ _ _ _ d); by split].
    intros w2 [bytes|e'] [E2 Hb]; [|split; [by eapply in_stage_left, evolves_in_stage|done]].
    pose proof (in_stage_left _ _ _ _ (evolves_in_stage _ _ _ _ _ E2 Hw)) as Hleft.
    destruct (bytes =s data) eqn:Hbd; [|by apply wpr_published_err]. to_prop. subst bytes.
    destruct (Hb data eq_refl) as (_ & m' & (k & s & Hk1 & Hk2) & Hm'). intros w3 E3%env_evolves.
    split; [by eapply evolves_stage_left|]. intros _. eapply evolves_final; [done|]. by exists k, m', s.
Qed.

Lemma wpr_publish_stage p max_bytes m s w :
  ¬ is_stage name → is_stage t → in_stage w "" m s →
  wpr published (publish_stage display p parent file t name data max_bytes mode exact_mode) w.
Proof.
  intros Hn Ht Hw. unfold publish_stage. pose proof Hw as (_ & _ & [q Hq] & _). eapply wpr_meta; [done| |].
  { intros w' e E. split; [by eapply in_stage_left, evolves_in_stage|done]. }
  intros w1 md nd E1 _ _. pose proof (evolves_in_stage _ _ _ _ _ E1 Hw) as H1.
  destruct (negb _); [by eapply wpr_published_err, in_stage_left|].
  apply wpr_bind. eapply wpr_mono; [|by eapply wpr_fill_stage].
  intros w2 [[]|e] (c & m' & s' & H2 & HP).
  - destruct (HP tt eq_refl) as (-> & -> & ?). by eapply wpr_link_stage.
  - split; [by eapply in_stage_left|done].
Qed.
End Publication.

(** *** Create once *)

Section CreateOnce.
Context (display : path → string) (pid : Z) (name data : string) (mode : Z) (exact_mode : bool).
#[local] Abbreviation mode_ok := (mode_as (if exact_mode then Some mode else None)).
#[local] Abbreviation env := (env name).
#[local] Abbreviation evolves := (evolves name).
#[local] Abbreviation wpr := (wpr name data mode_ok).
#[local] Abbreviation final_is := (final_is name data mode_ok).

(** The final name has the file, in the directory the path was opened to, and
    no private name is left. *)
Definition created (own0 : gset nat) (names : list string) (w : world) (r : result RunnerError unit) : Prop :=
  r = Ok tt → (∃ h d, dir_at w h d names ∧ final_is w d) ∧
    ∀ i d n, i ∈ w_own w → child (w_nodes w) d n = Some i → i ∈ own0 ∨ n = name.

Lemma evolves_created own0 names w w' r : evolves w w' → created own0 names w r → created own0 names w' r.
Proof.
  intros E H ->. destruct (H eq_refl) as [(h & d & Hd & Hf) Hl]. split.
  - exists h, d. split; [by eapply evolves_dir|by eapply evolves_final].
  - destruct E as (_ & Ho & []). intros i d' n Hi Hc. rewrite Ho in Hi. apply (Hl i d' n Hi). by apply rl_links0.
Qed.

Lemma stage_is_stage next : is_stage (authority_private_temp_name pid next).
Proof. by eexists. Qed.

Lemma create_file own0 parent d names t w1 w2 file : is_stage t → w_own w1 = own0 → dir_at w1 parent d names →
  step w1 (CreateFileAt parent t mode) (Ok file) w2 →
  guar (w_own w1) name data mode_ok (w_nodes w1) (w_own w2) (w_nodes w2) ∧
  ∃ i m, in_stage own0 parent d names file i t w2 "" m false.
Proof.
  intros Ht Ho [Hh Hd] (d' & names' & i & m & Hp & Hdir & Hnone & Hf & Hfile & ->). simplify_eq.
  split; [by apply GuarStage|]. exists i, m.
  pose proof (fresh_not_directory _ _ Hf) as Hnd. destruct Hf as [Hi Hlinks].
  assert (is_directory (<[i:=Regular "" m false]> (w_nodes w1)) d) as Hd' by by apply insert_directory.
  split_and!; cbn.
  - split; cbn; [rewrite lookup_insert_ne; [done|congruence]|by apply set_entry_directory].
  - done.
  - eexists. by apply lookup_insert_eq.
  - split_and!; cbn; [set_solver|apply set_entry_regular; by apply lookup_insert_eq|].
    intros d' n. rewrite child_add by done. rewrite child_insert by naive_solver. case_decide; [naive_solver|].
    split; [by intros ?%Hlinks|naive_solver].
Qed.

(** The private name is removed again. *)
Lemma wpr_cleanup own0 parent d names i t w staged :
  is_stage t → ¬ is_stage name → published name data mode exact_mode own0 parent d names i t w staged →
  wpr (created own0 names) (Call (UnlinkAt parent t) (λ cleanup,
    match staged, cleanup with
    | Ok _, Ok _ => Call (SyncHandle parent) (λ r, Ret (map_err io_error_of r))
    | Ok _, Err error => Ret (Err (Io (en_message error)))
    | Err error, _ => Ret (Err error)
    end)) w.
Proof.
  intros Ht Hn [Hleft0 Hfinal0] w1 a w2 E1%env_evolves Hs.
  pose proof (evolves_stage_left _ _ _ _ _ _ _ _ _ E1 Hleft0) as ([Hh Hd] & Ho & (c & m & s & Hi) & Hc & Hlinks).
  assert (∀ w (e : RunnerError), wpr (created own0 names) (Ret (Err e)) w) as Herr by (by intros w' e w'' _ [=]).
  destruct a as [[]|e]; cbn in Hs.
  - destruct Hs as (d' & names' & j & Hp & Hj & Hdir & ->). simplify_eq.
    split; [eapply (GuarUnlink _ _ _ _ _ _ _ j); [set_solver|done..]|]. destruct staged as [[]|e]; [|done].
    eapply wpr_sync_dir; [split; [done|by apply set_entry_directory]|]. intros w' r E. eapply evolves_created; [done|].
    intros _. split.
    + eexists parent, _. split; [split; [done|by apply set_entry_directory]|].
      destruct (evolves_final _ _ _ _ _ _ E1 (Hfinal0 eq_refl)) as (k & m' & s' & H1 & H2 & H3). exists k, m', s'.
      cbn. rewrite child_remove, decide_False by (by intros [_ <-]). split_and!; [done|by apply set_entry_regular|done].
    + cbn. rewrite Ho. intros k d1 n Hk. rewrite child_remove. case_decide as E'; [done|].
      intros Hck. apply elem_of_union in Hk as [Hk|Hk]; [|by left]. apply elem_of_singleton in Hk as ->.
      apply Hlinks in Hck as [[-> ->]|?]; [|by right]. naive_solver.
  - subst w2. split; [apply GuarNone|]. by destruct staged.
Qed.

Lemma wpr_create_attempts own0 attempts p parent d names max_bytes w :
  ¬ is_stage name → w_own w = own0 → dir_at w parent d names →
  wpr (created own0 names) (create_attempts display pid attempts p parent name data max_bytes mode exact_mode) w.
Proof.
  intros Hn. revert w. induction attempts as [|attempts IH]; intros w Ho Hd; [by intros w' _ [=]|].
  intros w1 next w2 E1 [-> _]. split; [apply GuarNone|]. intros w3 a w4 E3 Hs.
  pose proof (evolves_trans _ _ _ _ (env_evolves _ _ _ E1) (env_evolves _ _ _ E3)) as E.
  pose proof (evolves_dir _ _ _ _ _ _ E Hd) as Hd3. assert (w_own w3 = own0) as Ho3 by (destruct E as (_ & -> & _); done).
  destruct a as [file|e].
  - destruct (create_file own0 parent d names _ w3 w4 file (stage_is_stage next) Ho3 Hd3 Hs) as [HG (i & m & Hst)].
    split; [done|]. apply wpr_match. eapply wpr_mono; [|by eapply wpr_publish_stage, Hst; [|apply stage_is_stage]].
    intros w' staged Hp. eapply wpr_cleanup; [apply stage_is_stage|done|exact Hp].
  - cbn in Hs. subst w4. split; [apply GuarNone|]. cbn. case_bool_decide; [by apply IH|by intros w' _ [=]].
Qed.

Lemma wpr_create_once p max_bytes w :
  ¬ is_stage name → file_name p = Some name → is_directory (w_nodes w) ROOT →
  wpr (created (w_own w) (normal_names (removelast p)))
    (authority_create_once_inner display pid p data max_bytes mode exact_mode) w.
Proof.
  intros Hn Hp Hroot. unfold authority_create_once_inner. eapply wpr_open_parent; [by intros ? ? [=]|done| |done].
  intros w' h d _ Ho Hd. by eapply wpr_create_attempts.
Qed.
End CreateOnce.
