(* ===== verification/AuthorityWriters.v ===== *)
(** * Writers of authority files

    Any number of processes that create authority files at the same time, step
    by step in any order, each step allowed to fail: the closed system to which
    the rely and guarantee relations of [AuthoritySafety] add up. *)

From S2P Require Import Prelude RustStr Paths Os AuthorityFiles AuthoritySafety.

(** ** The requests of the programs *)

Definition at_request (q : request) : Prop :=
  match q with
  | OpenRoot | OpenDirAt _ _ | MakeDirAt _ _ _ | OpenFileAt _ _ | CreateFileAt _ _ _ | LinkAt _ _ _ _
  | UnlinkAt _ _ | HandleMeta _ | SetHandleMode _ _ | WriteHandle _ _ | SyncHandle _ | ReadTake _ _ | FetchAdd => True
  | _ => False
  end.

(** Those that change nothing *)
Definition read_request (q : request) : Prop :=
  match q with
  | OpenRoot | OpenDirAt _ _ | OpenFileAt _ _ | HandleMeta _ | ReadTake _ _ => True
  | _ => False
  end.

Section Requests.
Context (display : path → string).

Lemma wp_ask_any {A B} (P : request → Prop) q (g : answer q → result RunnerError A) (f : A → prog RunnerError B) :
  P q → (∀ a, wp P (λ _, True) (f a)) → wp P (λ _, True) (Call q (λ a, Ret (g a)) ≫= f).
Proof. intros Hq Hf. split; [done|]. intros a. cbn. by destruct (g a). Qed.

Lemma wp_next {A B} (P : request → Prop) (p : prog RunnerError A) (f : A → prog RunnerError B) :
  wp P (λ _, True) p → (∀ a, wp P (λ _, True) (f a)) → wp P (λ _, True) (p ≫= f).
Proof. intros Hp Hf. apply wp_bind. eapply wp_mono; [done| |exact Hp]. by intros [a|e] _. Qed.

Lemma open_parent_requests (P : request → Prop) p create :
  (∀ q, read_request q → P q) → (create = true → ∀ d n m, P (MakeDirAt d n m)) →
  wp P (λ _, True) (authority_open_parent display p create).
Proof.
  intros Hread Hmake. unfold authority_open_parent. destruct (file_name p) as [name|]; [|done].
  apply wp_ask_any; [by apply Hread|]. intros root. apply wp_next; [|done].
  generalize (from_option id [] (parent p)) as parents. intros parents. revert root.
  induction parents as [|[| | |n] parents IH]; intros root; cbn [open_components]; try done.
  apply wp_next; [|apply IH]. unfold open_component. apply wp_next.
  - split; [by apply Hread|]. intros [fd|e]; [done|]. destruct (en_code e), create; try done.
    split; [by apply Hmake|]. intros [u|e']; [|case_bool_decide; [|done]]; (split; [by apply Hread|done]).
  - intros fd. apply wp_ask_any; [by apply Hread|]. intros m. by destruct (negb _).
Qed.

Lemma read_descriptor_requests (P : request → Prop) fd m max_bytes :
  (∀ q, read_request q → P q) → wp P (λ _, True) (read_descriptor fd m max_bytes).
Proof.
  intros HP. unfold read_descriptor. destruct (_ <? _); [done|]. destruct (checked_add _ _ _); [|done].
  apply wp_ask_any; [by apply HP|]. intros bytes. by destruct (_ <? _).
Qed.

Lemma read_leaf_requests (P : request → Prop) parent name max_bytes mode :
  (∀ q, read_request q → P q) → wp P (λ _, True) (authority_read_from_parent_with_mode parent name max_bytes mode).
Proof.
  intros HP. unfold authority_read_from_parent_with_mode. apply wp_ask_any; [by apply HP|]. intros fd.
  apply wp_ask_any; [by apply HP|]. intros m. destruct (negb _); [done|]. case_match; [done|].
  by apply read_descriptor_requests.
Qed.

Lemma check_mode_requests file exact_mode mode : wp at_request (λ _, True) (check_mode file exact_mode mode).
Proof. unfold check_mode. destruct exact_mode; [|done]. apply wp_ask_any; [done|]. intros m. by destruct (negb _). Qed.

Lemma read_at q : read_request q → at_request q.
Proof. by destruct q. Qed.

Lemma publish_requests p parent file t name data max_bytes mode exact_mode :
  wp at_request (λ _, True) (publish_stage display p parent file t name data max_bytes mode exact_mode).
Proof.
  unfold publish_stage. apply wp_ask_any; [done|]. intros m. destruct (negb _); [done|]. apply wp_next.
  - unfold fill_stage. apply wp_next; [by destruct exact_mode|]. intros _.
    apply wp_next; [apply check_mode_requests|]. intros _. do 2 (apply wp_ask_any; [done|]; intros _).
    apply check_mode_requests.
  - intros _. split; [done|]. intros [u|e]; [done|]. case_bool_decide; [|done].
    apply wp_next; [apply read_leaf_requests, read_at|]. intros bytes. by destruct (bytes =s data).
Qed.

Lemma create_requests pid p data max_bytes mode exact_mode :
  wp at_request (λ _, True) (authority_create_once_inner display pid p data max_bytes mode exact_mode).
Proof.
  unfold authority_create_once_inner. apply wp_next; [by apply open_parent_requests; [apply read_at|]|].
  intros [parent name]. generalize AUTHORITY_CREATE_ONCE_TEMP_ATTEMPTS. intros attempts.
  induction attempts as [|attempts IH]; [done|]. split; [done|]. intros next. split; [done|]. intros [file|e].
  - apply wp_match. eapply wp_mono; [done| |apply publish_requests]. intros staged _. split; [done|].
    intros cleanup. by destruct staged, cleanup.
  - by case_bool_decide.
Qed.
End Requests.

(** ** The system *)

(** A call of [write_bounded_file_create_once], or of
    [write_binary_leaf_create_once_exact_mode] when a mode is given. *)
Record writer := { wr_pid : Z; wr_path : path; wr_data : string; wr_max : Z; wr_git_mode : option Z }.

(** A process: its descriptors, the files it created, what is left to do. *)
Record process := {
  pc_writer : writer;
  pc_handles : gmap nat (nat * list string);
  pc_own : gset nat;
  pc_rest : prog RunnerError unit;
}.

Record system := { sy_nodes : nodes; sy_processes : list process }.

Definition view (ns : nodes) (pc : process) : world :=
  {| w_nodes := ns; w_handles := pc_handles pc; w_own := pc_own pc |}.

Inductive system_step : system → system → Prop :=
| SystemStep ns ps k pc q rest a w :
    ps !! k = Some pc → pc_rest pc = Call q rest → step (view ns pc) q a w →
    system_step {| sy_nodes := ns; sy_processes := ps |}
      {| sy_nodes := w_nodes w;
         sy_processes := <[k := {| pc_writer := pc_writer pc; pc_handles := w_handles w; pc_own := w_own w;
                                   pc_rest := rest a |}]> ps |}.

Section System.
Context (display : path → string).

Definition writer_program (w : writer) : prog RunnerError unit :=
  match wr_git_mode w with
  | None => write_bounded_file_create_once display (wr_pid w) (wr_path w) (wr_data w) (wr_max w)
  | Some mode => write_binary_leaf_create_once_exact_mode display (wr_pid w) (wr_path w) (wr_data w) mode (wr_max w)
  end.
Definition start (w : writer) : process :=
  {| pc_writer := w; pc_handles := ∅; pc_own := ∅; pc_rest := writer_program w |}.

(** No final name is one of the private names. *)
Definition writer_ok (w : writer) : Prop := ∀ name, file_name (wr_path w) = Some name → ¬ is_stage name.

(** The file that a path leads to from the root, through directories only *)
Fixpoint resolve_names (ns : nodes) (d : nat) (names : list string) : option nat :=
  match names with
  | [] => Some d
  | n :: rest => match child ns d n with Some i => resolve_names ns i rest | None => None end
  end.

Definition final_name (w : writer) : string := from_option id "" (file_name (wr_path w)).
Definition mode_of (w : writer) : Z := from_option id 384 (wr_git_mode w).
Definition exact_of (w : writer) : bool := match wr_git_mode w with Some _ => true | None => false end.

(** *** Each process *)

Definition handles_ok (ns : nodes) (handles : gmap nat (nat * list string)) : Prop :=
  ∀ h d names, handles !! h = Some (d, names) →
    is_Some (ns !! d) ∧ (is_directory ns d → resolve_names ns ROOT names = Some d).

Definition writer_wpr (w : writer) : prog RunnerError unit → world → Prop :=
  wpr (final_name w) (wr_data w) (mode_as (if exact_of w then Some (mode_of w) else None))
    (created (final_name w) (wr_data w) (mode_of w) (exact_of w) ∅ (normal_names (removelast (wr_path w)))).

Record process_ok (ns : nodes) (pc : process) : Prop := {
  po_writer : writer_ok (pc_writer pc);
  po_named : is_Some (file_name (wr_path (pc_writer pc))) ∨ ∃ e, pc_rest pc = Ret (Err e);
  po_own : ∀ i, i ∈ pc_own pc → is_Some (ns !! i);
  po_handles : handles_ok ns (pc_handles pc);
  po_requests : wp at_request (λ _, True) (pc_rest pc);
  po_wpr : writer_wpr (pc_writer pc) (pc_rest pc) (view ns pc);
}.

Lemma validate_path_name p label u :
  validate_authority_path display p label = Ok u → ∃ name, file_name p = Some name.
Proof.
  unfold validate_authority_path, file_name. intros H. apply guard_ok in H as [H _].
  destruct (last p) as [[]|]; eauto; by rewrite orb_true_r in H.
Qed.

Lemma start_ok ns w : is_directory ns ROOT → writer_ok w → process_ok ns (start w).
Proof.
  intros Hroot Hok.
  assert ((is_Some (file_name (wr_path w)) ∨ ∃ e, writer_program w = Ret (Err e)) ∧
          wp at_request (λ _, True) (writer_program w) ∧ writer_wpr w (writer_program w) (view ns (start w)))
    as (H0 & H1 & H2).
  { assert (∀ e, writer_program w = Ret (Err e) → (is_Some (file_name (wr_path w)) ∨ ∃ e, writer_program w = Ret (Err e)) ∧
      wp at_request (λ _, True) (writer_program w) ∧ writer_wpr w (writer_program w) (view ns (start w))) as Herr.
    { intros e ->. split_and!; [by right; eexists|done|by intros ? _ [=]]. }
    revert Herr. unfold writer_program, writer_wpr, write_bounded_file_create_once, write_binary_leaf_create_once_exact_mode.
    unfold mode_of, exact_of, final_name, authority_create_once, authority_create_once_with_mode.
    destruct (wr_git_mode w) as [mode|]; cbn [from_option id]; intros Herr.
    - destruct (negb _); [by eapply Herr|].
      destruct (validate_authority_path _ _ _) as [u|e] eqn:Hv; [|by eapply Herr]. destruct (_ <? _); [by eapply Herr|].
      apply validate_path_name in Hv as [name Hname]. rewrite Hname. split_and!; [by left|apply create_requests|].
      apply (wpr_create_once display _ name _ mode true _ _ (view ns (start w))); [by apply Hok|done|done].
    - destruct (validate_authority_path _ _ _) as [u|e] eqn:Hv; [|by eapply Herr]. destruct (_ <? _); [by eapply Herr|].
      apply validate_path_name in Hv as [name Hname]. rewrite Hname. split_and!; [by left|apply create_requests|].
      apply (wpr_create_once display _ name _ 384 false _ _ (view ns (start w))); [by apply Hok|done|done]. }
  constructor; cbn; [done|done|set_solver| |done|done]. intros h d names. by rewrite lookup_empty.
Qed.

(** *** What a step keeps *)

Lemma not_stage_empty : ¬ is_stage "".
Proof. by intros [rest [=]]. Qed.
Lemma final_not_stage w : writer_ok w → ¬ is_stage (final_name w).
Proof. unfold final_name. intros H. destruct (file_name _) as [n|] eqn:E; [by apply H|apply not_stage_empty]. Qed.

Lemma child_directory ns d n i : child ns d n = Some i → is_directory ns d.
Proof. unfold child. destruct (ns !! d) as [[es| | |]|] eqn:E; try done. by eexists. Qed.

Lemma resolve_snoc ns d names n :
  resolve_names ns d (names ++ [n]) = match resolve_names ns d names with Some i => child ns i n | None => None end.
Proof.
  revert d. induction names as [|m names IH]; intros d; cbn; [by destruct (child ns d n)|].
  destruct (child ns d m); [apply IH|done].
Qed.

(** Directories keep their names. *)
Lemma guar_child_directory own name data mode_ok ns own1 ns' d n i : guar own name data mode_ok ns own1 ns' →
  child ns d n = Some i → is_directory ns i → child ns' d n = Some i.
Proof.
  intros HG Hc Hi. destruct HG as [|e m j He Hm Hj|e m j md Hst He Hm Hj|j c m s c' m' s' Ho Hr Hst
    |e j m Ho Hr Hm He Hn|e m j Ho Hst Hm Hnd].
  - done.
  - rewrite child_add by (apply insert_directory; [by apply fresh_not_directory|done]).
    rewrite child_insert by (try apply fresh_not_directory; naive_solver). case_decide as E; [|done].
    destruct E as [<- <-]. congruence.
  - rewrite child_add by (apply insert_directory; [by apply fresh_not_directory|done]).
    rewrite child_insert by (try apply fresh_not_directory; naive_solver). case_decide as E; [|done].
    destruct E as [<- <-]. congruence.
  - rewrite child_insert; [done| |naive_solver]. by eapply regular_not_directory.
  - rewrite child_add by done. case_decide as E; [|done]. destruct E as [<- <-]. congruence.
  - rewrite child_remove. case_decide as E; [|done]. destruct E as [<- <-]. congruence.
Qed.

Lemma guar_new own name data mode_ok ns own1 ns' i : guar own name data mode_ok ns own1 ns' →
  i ∈ own1 → i ∈ own ∨ (ns !! i = None ∧ is_Some (ns' !! i)).
Proof.
  intros HG Hi. destruct HG as [| |d n j m Hst Hd Hn [Hj Hf]| | |]; try by left.
  apply elem_of_union in Hi as [->%elem_of_singleton|Hi]; [|by left]. right. split; [done|].
  eexists. apply set_entry_regular. by apply lookup_insert_eq.
Qed.

Section Guarantee.
Context (own : gset nat) (name data : string) (mode_ok : Z → Prop) (ns : nodes) (own1 : gset nat) (ns' : nodes).
Context (HG : guar own name data mode_ok ns own1 ns').

Lemma guar_kinds i nd : ns !! i = Some nd → ∃ nd', ns' !! i = Some nd' ∧ same_kind nd nd'.
Proof using HG. apply (guar_rely ∅ "" ns _ _ _ _ _ _ HG not_stage_empty); set_solver. Qed.

Lemma guar_some i : is_Some (ns !! i) → is_Some (ns' !! i).
Proof using HG. intros [nd Hi]. destruct (guar_kinds i nd Hi) as (nd' & ? & _). by eexists. Qed.

Lemma guar_was_directory i : is_Some (ns !! i) → is_directory ns' i → is_directory ns i.
Proof using HG.
  intros [nd Hi] [es Hes]. destruct (guar_kinds i nd Hi) as (nd' & Hnd' & Hk). simplify_eq. destruct nd; try done. by eexists.
Qed.

Lemma guar_directory i : is_directory ns i → is_directory ns' i.
Proof using HG.
  intros [es Hi]. destruct (guar_kinds i _ Hi) as (nd' & Hnd' & Hk). destruct nd'; try done. by eexists.
Qed.

Lemma guar_resolve d names e : resolve_names ns d names = Some e → is_directory ns e → resolve_names ns' d names = Some e.
Proof using HG.
  revert d. induction names as [|n names IH]; intros d; cbn; [done|]. destruct (child ns d n) as [i|] eqn:Hc; [|done].
  intros Hr He. assert (is_directory ns i) as Hi.
  { destruct names as [|m names]; cbn in Hr; [by simplify_eq|].
    destruct (child ns i m) eqn:Hm; [|done]. by eapply child_directory. }
  rewrite (guar_child_directory _ _ _ _ _ _ _ d n i HG) by done. by apply IH.
Qed.

Lemma guar_handles handles : handles_ok ns handles → handles_ok ns' handles.
Proof using HG.
  intros H h d names Hh. destruct (H h d names Hh) as [Hd Hres]. split; [by apply guar_some|].
  intros Hdir. apply guar_was_directory in Hdir; [|done]. by apply guar_resolve; [apply Hres|].
Qed.
End Guarantee.

(** New descriptors come from old ones. *)
Lemma step_handles w q a w' h x : at_request q → step w q a w' → w_handles w' !! h = Some x →
  w_handles w !! h = Some x ∨ x = (ROOT, []) ∨
  ∃ h0 i names n j, w_handles w !! h0 = Some (i, names) ∧ child (w_nodes w') i n = Some j ∧
    is_Some (w_nodes w' !! j) ∧ x = (j, names ++ [n]).
Proof.
  assert (∀ w1 h1 y (P : Prop), (y = x → P) → <[h1 := y]> (w_handles w1) !! h = Some x → w_handles w1 !! h = Some x ∨ P)
    as Hins.
  { intros w1 h1 y P HP. destruct (decide (h1 = h)) as [->|Hne].
    - rewrite lookup_insert_eq. intros [= ->]. right. by apply HP.
    - rewrite lookup_insert_ne by done. by left. }
  destruct q; intros Hq Hs Hh; try done; cbn in Hs.
  all: try (destruct a as [a|e]; cbn in Hs; [|subst w'; by left]).
  all: try (destruct Hs as [-> _]; by left).
  all: try (destruct Hs as (written & _ & [(? & ? & ? & ? & ? & _ & _ & ->)|[_ ->]]); by left).
  all: try (repeat match type of Hs with ∃ _, _ => destruct Hs as [? Hs] | _ ∧ _ => destruct Hs as [? Hs] end;
            subst w'; by left).
  - destruct Hs as [_ ->]. eapply Hins, Hh. by left.
  - destruct Hs as (i & names & j & Hd & Hc & [es Hj] & [_ ->]). eapply Hins, Hh. intros <-. right.
    exists dir, i, names, name, j. split_and!; [done|done|by eexists|done].
  - destruct Hs as (i & names & j & nd & Hd & Hc & Hj & _ & [_ ->]). eapply Hins, Hh. intros <-. right.
    exists dir, i, names, name, j. split_and!; [done|done|by eexists|done].
  - destruct Hs as (i & names & j & m & Hd & Hdir & Hn & Hf & _ & ->). eapply Hins, Hh. intros <-. right.
    exists dir, i, names, name, j. cbn. rewrite child_add, decide_True
      by (try apply insert_directory; try apply fresh_not_directory; done).
    split_and!; [done|done| |done]. eexists. apply set_entry_regular. by apply lookup_insert_eq.
Qed.

Lemma step_handles_ok w q a w' own name data mode_ok own1 :
  at_request q → is_directory (w_nodes w) ROOT → step w q a w' →
  guar own name data mode_ok (w_nodes w) own1 (w_nodes w') →
  handles_ok (w_nodes w) (w_handles w) → handles_ok (w_nodes w') (w_handles w').
Proof.
  intros Hq Hroot Hs HG Hok h d names Hh. pose proof (guar_handles _ _ _ _ _ _ _ HG _ Hok) as Hok'.
  destruct (step_handles _ _ _ _ _ _ Hq Hs Hh) as [Hold|[[= -> ->]|(h0 & i & ns0 & n & j & H0 & Hc & Hj & [= -> ->])]].
  - by apply (Hok' h).
  - split; [|done]. apply (guar_some _ _ _ _ _ _ _ HG). destruct Hroot as [es Hes]. by eexists.
  - split; [done|]. intros _. destruct (Hok' h0 i ns0 H0) as [_ Hr]. rewrite resolve_snoc, Hr; [done|].
    by eapply child_directory.
Qed.

(** *** The invariant *)

(** What has a name other than a private one: what had it at the beginning, a
    directory, or a complete and durable file of a writer. *)
Definition names_ok (ns0 ns : nodes) (writers : list writer) : Prop :=
  ∀ d n i, child ns d n = Some i → ¬ is_stage n →
    (child ns0 d n = Some i ∧ ns !! i = ns0 !! i) ∨ is_directory ns i ∨
    ∃ w mode, w ∈ writers ∧ final_name w = n ∧ ns !! i = Some (Regular (wr_data w) mode true) ∧
      mode_as (wr_git_mode w) mode.

Record system_ok (ns0 : nodes) (s : system) : Prop := {
  so_root : is_directory (sy_nodes s) ROOT;
  so_processes : ∀ k pc, sy_processes s !! k = Some pc → process_ok (sy_nodes s) pc;
  so_disjoint : ∀ j k pj pk, j ≠ k → sy_processes s !! j = Some pj → sy_processes s !! k = Some pk →
    pc_own pj ## pc_own pk;
  so_names : names_ok ns0 (sy_nodes s) (map pc_writer (sy_processes s));
}.

Lemma mode_as_of w mode : mode_as (if exact_of w then Some (mode_of w) else None) mode ↔ mode_as (wr_git_mode w) mode.
Proof. unfold exact_of, mode_of. by destruct (wr_git_mode w). Qed.

Lemma set_entry_other ns d f i : ¬ is_directory ns i → set_entry ns d f !! i = ns !! i.
Proof.
  intros Hi. rewrite lookup_set_entry. case_decide; [|done]. destruct (ns !! i) as [[es| | |]|] eqn:E; try done.
  destruct Hi. by eexists.
Qed.

Lemma guar_names own name data mode_ok ns own1 ns' d n i :
  guar own name data mode_ok ns own1 ns' → child ns' d n = Some i → ¬ is_stage n →
  (child ns d n = Some i ∧ (¬ is_directory ns i → ns' !! i = ns !! i)) ∨ is_directory ns' i ∨
  (n = name ∧ ∃ mode, ns' !! i = Some (Regular data mode true) ∧ mode_ok mode).
Proof.
  intros HG Hc Hn. destruct HG as [|e m j He Hm Hj|e m j md Hst He Hm Hj|j c m s c' m' s' Ho Hr Hst
    |e j m Ho Hr Hm He Hnone|e m j Ho Hst Hm Hnd].
  - by left.
  - pose proof (fresh_not_directory _ _ Hj) as Hnd. rewrite child_add in Hc by by apply insert_directory.
    rewrite child_insert in Hc by naive_solver. case_decide as E.
    + injection Hc as <-. right. left. apply set_entry_directory. eexists. by apply lookup_insert_eq.
    + left. split; [done|]. intros Hi. assert (i ≠ j) by (intros ->; by apply (proj2 Hj) in Hc).
      unfold add_entry. rewrite set_entry_other; [by rewrite lookup_insert_ne|]. unfold is_directory. by rewrite lookup_insert_ne.
  - pose proof (fresh_not_directory _ _ Hj) as Hnd. rewrite child_add in Hc by by apply insert_directory.
    rewrite child_insert in Hc by naive_solver. case_decide as E; [by destruct E as [_ <-]|].
    left. split; [done|]. intros Hi. assert (i ≠ j) by (intros ->; by apply (proj2 Hj) in Hc).
    unfold add_entry. rewrite set_entry_other; [by rewrite lookup_insert_ne|]. unfold is_directory. by rewrite lookup_insert_ne.
  - rewrite child_insert in Hc by (try (by eapply regular_not_directory); naive_solver). left. split; [done|].
    intros _. rewrite lookup_insert_ne; [done|]. intros ->. by apply Hn, (Hst d).
  - rewrite child_add in Hc by done. case_decide as E.
    + injection Hc as <-. destruct E as [_ <-]. right. right. split; [done|]. exists m.
      split; [by apply set_entry_regular|done].
    + left. split; [done|]. apply set_entry_other.
  - rewrite child_remove in Hc. case_decide; [done|]. left. split; [done|]. apply set_entry_other.
Qed.

Lemma names_ok_step ns0 ns ns' own own1 w writers :
  guar own (final_name w) (wr_data w) (mode_as (if exact_of w then Some (mode_of w) else None)) ns own1 ns' →
  w ∈ writers → names_ok ns0 ns writers → names_ok ns0 ns' writers.
Proof.
  intros HG Hw Hok d n i Hc Hn.
  destruct (guar_names _ _ _ _ _ _ _ _ _ _ HG Hc Hn) as [[Hc0 Hsame]|[Hdir|[-> (mode & Hi & Hm)]]].
  - assert (is_directory ns i ∨ ¬ is_directory ns i) as [Hd|Hd].
    { unfold is_directory. destruct (ns !! i) as [[es| | |]|]; [left; by eexists|right; by intros [? ?]..]. }
    { right. left. by eapply guar_directory. }
    rewrite Hsame by done. destruct (Hok d n i Hc0 Hn) as [[? ?]|[?|?]]; [by left|by destruct Hd|right; right; done].
  - right. by left.
  - right. right. exists w, mode. split_and!; [done|done|done|by apply mode_as_of].
Qed.

(** What has a name other than a private one keeps it: a directory stays a
    directory, anything else stays as it is. *)
Definition keeps_names (ns ns' : nodes) : Prop :=
  ∀ d n i, child ns d n = Some i → ¬ is_stage n →
    child ns' d n = Some i ∧ (is_directory ns i → is_directory ns' i) ∧
    (¬ is_directory ns i → ns' !! i = ns !! i).

Lemma keeps_new ns d n i nd :
  is_directory ns d → child ns d n = None → fresh_inode ns i → (∀ es, nd = Directory es → es = ∅) →
  keeps_names ns (add_entry (<[i := nd]> ns) d n i).
Proof.
  intros Hd Hnone Hi Hnd d' n' j Hc _. pose proof (fresh_not_directory _ _ Hi) as Hni.
  assert (i ≠ j) by (intros ->; by apply (proj2 Hi) in Hc).
  rewrite child_add by by apply insert_directory. rewrite child_insert by done. split_and!.
  - rewrite decide_False; [done|]. intros [<- <-]. congruence.
  - intros [es Hes]. apply set_entry_directory. exists es. by rewrite lookup_insert_ne.
  - intros Hj. unfold add_entry. rewrite set_entry_other; [by rewrite lookup_insert_ne|].
    unfold is_directory. by rewrite lookup_insert_ne.
Qed.

Lemma guar_keeps own name data mode_ok ns own1 ns' :
  guar own name data mode_ok ns own1 ns' → keeps_names ns ns'.
Proof.
  intros HG. destruct HG as [|e m j He Hm Hj|e m j md Hst He Hm Hj|j c m s c' m' s' Ho Hr Hst
    |e j m Ho Hr Hm He Hnone|e m j Ho Hst Hm Hnd].
  - done.
  - apply keeps_new; naive_solver.
  - apply keeps_new; naive_solver.
  - pose proof (regular_not_directory _ _ _ _ _ Hr) as Hnd. intros d n i Hc Hn.
    rewrite child_insert by naive_solver. split_and!; [done|by apply insert_directory|].
    intros _. rewrite lookup_insert_ne; [done|]. intros ->. by apply Hn, (Hst d).
  - intros d n i Hc Hn. rewrite child_add by done.
    split_and!; [|by intros; apply set_entry_directory|apply set_entry_other].
    rewrite decide_False; [done|]. intros [<- <-]. congruence.
  - intros d n i Hc Hn. rewrite child_remove.
    split_and!; [|by intros; apply set_entry_directory|apply set_entry_other].
    rewrite decide_False; [done|]. intros [<- <-]. done.
Qed.

Lemma keeps_trans ns1 ns2 ns3 : keeps_names ns1 ns2 → keeps_names ns2 ns3 → keeps_names ns1 ns3.
Proof.
  intros H1 H2 d n i Hc Hn. destruct (H1 d n i Hc Hn) as (Hc2 & Hd2 & Hs2).
  destruct (H2 d n i Hc2 Hn) as (Hc3 & Hd3 & Hs3). split_and!; [done|auto|].
  intros Hd. rewrite Hs3; [auto|]. unfold is_directory. by rewrite Hs2.
Qed.

(** A step of one process, seen by another *)
Lemma other_process_ok ns ns' w own own1 pc :
  guar own (final_name w) (wr_data w) (mode_as (if exact_of w then Some (mode_of w) else None)) ns own1 ns' →
  own ## pc_own pc → process_ok ns pc → process_ok ns' pc.
Proof.
  intros HG Hdisj []. constructor; [done|done| | |done|].
  - intros i Hi. eapply guar_some; [done|]. by apply po_own0.
  - by eapply guar_handles.
  - eapply wpr_env; [|exact po_wpr0]. split_and!; [done|done|]. cbn. eapply guar_rely; [done| |done|done].
    by apply final_not_stage.
Qed.

(** and by itself *)
Lemma own_process_ok ns pc q rest a w : is_directory ns ROOT → process_ok ns pc → pc_rest pc = Call q rest →
  step (view ns pc) q a w →
  guar (pc_own pc) (final_name (pc_writer pc)) (wr_data (pc_writer pc))
    (mode_as (if exact_of (pc_writer pc) then Some (mode_of (pc_writer pc)) else None)) ns (w_own w) (w_nodes w) ∧
  process_ok (w_nodes w) {| pc_writer := pc_writer pc; pc_handles := w_handles w; pc_own := w_own w; pc_rest := rest a |}.
Proof.
  intros Hroot [] Hrest Hs. rewrite Hrest in po_wpr0, po_requests0. destruct po_requests0 as [Hq Hrest'].
  destruct (po_wpr0 (view ns pc) a w (env_refl _ _) Hs) as [HG Hw]. split; [done|]. constructor; cbn.
  - done.
  - left. destruct po_named0 as [?|[e ?]]; [done|congruence].
  - intros i Hi. destruct (guar_new _ _ _ _ _ _ _ _ HG Hi) as [Ho|[_ ?]]; [|done]. eapply guar_some; [done|]. by apply po_own0.
  - by eapply (step_handles_ok (view ns pc)).
  - apply Hrest'.
  - by destruct w.
Qed.

Lemma insert_writer ps k pc pc' : ps !! k = Some pc → pc_writer pc' = pc_writer pc →
  map pc_writer (<[k := pc']> ps) = map pc_writer ps.
Proof.
  intros Hk Hw. change (pc_writer <$> <[k := pc']> ps = pc_writer <$> ps). rewrite list_fmap_insert, Hw.
  apply list_insert_id. by rewrite list_lookup_fmap, Hk.
Qed.

Lemma step_keeps ns0 s s' : system_ok ns0 s → system_step s s' → keeps_names (sy_nodes s) (sy_nodes s').
Proof.
  intros [] Hstep. destruct Hstep as [ns ps k pc q rest a w Hk Hrest Hs]. cbn in *.
  destruct (own_process_ok ns pc q rest a w so_root0 (so_processes0 k pc Hk) Hrest Hs) as [HG _].
  by eapply guar_keeps.
Qed.

Lemma writers_step_ok ns0 s s' : system_ok ns0 s → system_step s s' → system_ok ns0 s'.
Proof.
  intros [] Hstep. destruct Hstep as [ns ps k pc q rest a w Hk Hrest Hs]. cbn in *.
  destruct (own_process_ok ns pc q rest a w so_root0 (so_processes0 k pc Hk) Hrest Hs) as [HG Hpc].
  constructor; cbn.
  - by eapply guar_directory.
  - intros j pj. destruct (decide (j = k)) as [->|Hne].
    + rewrite list_lookup_insert_eq by (by eapply lookup_lt_Some). by intros [= <-].
    + rewrite list_lookup_insert_ne by done. intros Hj. eapply other_process_ok; [done| |by eapply so_processes0].
      by eapply (so_disjoint0 k j).
  - assert (∀ j pj, j ≠ k → ps !! j = Some pj → w_own w ## pc_own pj) as Hnew.
    { intros j pj Hne Hj i Hi Hij. destruct (guar_new _ _ _ _ _ _ _ _ HG Hi) as [Ho|[Hnone _]].
      - by apply (so_disjoint0 k j pc pj (not_eq_sym Hne) Hk Hj i).
      - destruct (so_processes0 j pj Hj) as [_ _ Hown _ _ _]. destruct (Hown i Hij) as [? ?]. congruence. }
    intros j1 j2 p1 p2 Hne. destruct (decide (j1 = k)) as [->|H1], (decide (j2 = k)) as [->|H2]; [done|..].
    + rewrite list_lookup_insert_eq by (by eapply lookup_lt_Some). rewrite list_lookup_insert_ne by done.
      intros [= <-] Hj. by apply (Hnew j2).
    + rewrite list_lookup_insert_ne by done. rewrite list_lookup_insert_eq by (by eapply lookup_lt_Some).
      intros Hj [= <-]. symmetry. by apply (Hnew j1).
    + rewrite !list_lookup_insert_ne by done. by apply so_disjoint0.
  - rewrite (insert_writer ps k pc) by done. eapply names_ok_step; [exact HG| |done]. apply (list_elem_of_fmap_2 pc_writer ps pc). by eapply list_elem_of_lookup_2.
Qed.

(** ** The promise *)

Lemma initial_ok ns writers : is_directory ns ROOT → Forall writer_ok writers →
  system_ok ns {| sy_nodes := ns; sy_processes := map start writers |}.
Proof.
  intros Hroot Hok. rewrite Forall_forall in Hok. constructor; cbn; [done| | |].
  - intros k pc Hk. apply list_lookup_fmap_Some in Hk as (w & -> & Hw). apply start_ok; [done|].
    by eapply Hok, list_elem_of_lookup_2.
  - intros j k pj pk _ Hj _. apply list_lookup_fmap_Some in Hj as (w & -> & Hw). cbn. set_solver.
  - intros d n i Hc _. by left.
Qed.

Lemma reachable_ok ns0 s s' : system_ok ns0 s → rtc system_step s s' → system_ok ns0 s'.
Proof. intros H Hr. revert H. induction Hr as [|s1 s2 s3 Hs _ IH]; [done|]. intros H. by eapply IH, writers_step_ok. Qed.

Lemma reachable_keeps ns0 s s' : system_ok ns0 s → rtc system_step s s' → keeps_names (sy_nodes s) (sy_nodes s').
Proof.
  intros H Hr. revert H. induction Hr as [s|s1 s2 s3 Hs _ IH]; [done|]. intros H.
  eapply keeps_trans; [by eapply step_keeps|]. by eapply IH, writers_step_ok.
Qed.

Lemma normal_names_final p name : file_name p = Some name → normal_names p = normal_names (removelast p) ++ [name].
Proof.
  unfold file_name. intros H. destruct (last p) as [[| | |n]|] eqn:Hl; try done. injection H as ->.
  apply last_Some in Hl as [p' ->]. rewrite removelast_last. unfold normal_names. rewrite omap_app. done.
Qed.

Definition holds_file (s : system) (w : writer) : Prop :=
  ∃ i mode synced, resolve_names (sy_nodes s) ROOT (normal_names (wr_path w)) = Some i ∧
    sy_nodes s !! i = Some (Regular (wr_data w) mode synced) ∧ mode_as (wr_git_mode w) mode.

Lemma finished_holds ns0 s k pc : system_ok ns0 s → sy_processes s !! k = Some pc → pc_rest pc = Ret (Ok tt) →
  holds_file s (pc_writer pc).
Proof.
  intros [] Hk Hrest. destruct (so_processes0 k pc Hk). destruct po_named0 as [[name Hname]|[e ?]]; [|congruence]. rewrite Hrest in po_wpr0.
  destruct (po_wpr0 _ (env_refl _ _) eq_refl) as [(h & d & [Hh Hd] & (i & mode & synced & Hc & Hi & Hm)) _].
  destruct (po_handles0 h d _ Hh) as [_ Hr]. exists i, mode, synced. unfold final_name in Hc. rewrite Hname in Hc.
  split_and!; [|done|by apply mode_as_of]. rewrite (normal_names_final _ _ Hname), resolve_snoc, Hr by done. done.
Qed.

Lemma reachable_writers s s' : rtc system_step s s' → map pc_writer (sy_processes s') = map pc_writer (sy_processes s).
Proof.
  induction 1 as [|s1 s2 s3 Hs _ ->]; [done|]. destruct Hs as [ns ps k pc q rest a w Hk Hrest Hs]. cbn.
  by apply (insert_writer ps k pc).
Qed.

(** C5. Any number of processes create authority files at the same time, in any
    interleaving and with any failures.  A writer that succeeded finds exactly
    its bytes, with its mode, at its path; two that succeeded at one path wrote
    the same bytes; at every moment a name that is not a private one names what
    it named at the beginning, unchanged, a directory, or a complete and durable
    file of a writer of that name; and no such name is ever lost, replaced or
    its file changed: what it names at one moment it names, unchanged, at every
    later one.  (No path written ends in a private staging name.) *)
Theorem authority_writers (ns : nodes) (writers : list writer) (s : system) :
  is_directory ns ROOT → Forall writer_ok writers →
  rtc system_step {| sy_nodes := ns; sy_processes := map start writers |} s →
  (∀ pc, pc ∈ sy_processes s → pc_rest pc = Ret (Ok tt) → holds_file s (pc_writer pc)) ∧
  (∀ pc pc', pc ∈ sy_processes s → pc' ∈ sy_processes s → pc_rest pc = Ret (Ok tt) → pc_rest pc' = Ret (Ok tt) →
     wr_path (pc_writer pc) = wr_path (pc_writer pc') → wr_data (pc_writer pc) = wr_data (pc_writer pc')) ∧
  names_ok ns (sy_nodes s) writers ∧
  keeps_names ns (sy_nodes s) ∧
  (∀ s', rtc system_step s s' → keeps_names (sy_nodes s) (sy_nodes s')).
Proof.
  intros Hroot Hok Hr. pose proof (reachable_ok _ _ _ (initial_ok _ _ Hroot Hok) Hr) as Hs.
  assert (∀ pc, pc ∈ sy_processes s → pc_rest pc = Ret (Ok tt) → holds_file s (pc_writer pc)) as Hf.
  { intros pc [k Hk]%list_elem_of_lookup Hrest. by eapply finished_holds. }
  split_and!; [done| | | |].
  - intros pc pc' Hpc Hpc' H1 H2 Hp. destruct (Hf pc Hpc H1) as (i & m & sy & Hi & Hd & _).
    destruct (Hf pc' Hpc' H2) as (i' & m' & sy' & Hi' & Hd' & _). rewrite Hp in Hi. congruence.
  - pose proof (so_names _ _ Hs) as Hn. rewrite (reachable_writers _ _ Hr) in Hn. cbn in Hn.
    by rewrite map_map, map_id in Hn.
  - by apply (reachable_keeps _ _ _ (initial_ok _ _ Hroot Hok) Hr).
  - intros s' Hr'. by eapply reachable_keeps.
Qed.
End System.

(** ** A file system that runs *)

Module Sample.
Definition linked (ns : nodes) : list nat :=
  map_to_list ns ≫= λ x, match x.2 with Directory es => map snd (map_to_list es) | _ => [] end.
Definition numbers (ns : nodes) : list nat := map fst (map_to_list ns) ++ linked ns.
Definition new_inode (ns : nodes) : nat := S (max_list (numbers ns)).
Definition new_handle (w : world) : nat := S (max_list (map fst (map_to_list (w_handles w)))).

Definition open_as (w : world) (x : nat * list string) : world :=
  {| w_nodes := w_nodes w; w_handles := <[new_handle w := x]> (w_handles w); w_own := w_own w |}.
Definition errno_of (code : Errno) : errno := {| en_code := code; en_message := "" |}.
Definition meta_of (nd : node) : metadata :=
  match nd with
  | Directory _ => {| md_symlink := false; md_file := false; md_dir := true; md_nlink := 1; md_len := 0; md_mode := 493 |}
  | Regular c m _ => {| md_symlink := false; md_file := true; md_dir := false; md_nlink := 1; md_len := str_len c; md_mode := m |}
  | _ => {| md_symlink := false; md_file := false; md_dir := false; md_nlink := 1; md_len := 0; md_mode := 0 |}
  end.
Definition directory_of (w : world) (d : nat) : option (nat * list string) :=
  match w_handles w !! d with
  | Some (i, names) => match w_nodes w !! i with Some (Directory _) => Some (i, names) | _ => None end
  | None => None
  end.
Definition regular_of (w : world) (h : nat) : option (nat * (string * Z * bool)) :=
  match w_handles w !! h with
  | Some (i, _) => match w_nodes w !! i with Some (Regular c m s) => Some (i, (c, m, s)) | _ => None end
  | None => None
  end.

(** Every request that can succeed does. *)
Definition exec (w : world) (q : request) : answer q * world :=
  let ns := w_nodes w in
  match q return answer q * world with
  | OpenRoot => (Ok (new_handle w), open_as w (ROOT, []))
  | OpenDirAt d n =>
      match directory_of w d with
      | Some (i, names) =>
          match child ns i n with
          | Some j => match ns !! j with
                      | Some (Directory _) => (Ok (new_handle w), open_as w (j, names ++ [n]))
                      | _ => (Err (errno_of ENOTDIR), w)
                      end
          | None => (Err (errno_of ENOENT), w)
          end
      | None => (Err (errno_of EOther), w)
      end
  | MakeDirAt d n _ =>
      match directory_of w d with
      | Some (i, _) =>
          match child ns i n with
          | None => (Ok tt, with_nodes w (add_entry (<[new_inode ns := Directory ∅]> ns) i n (new_inode ns)))
          | Some _ => (Err (errno_of EEXIST), w)
          end
      | None => (Err (errno_of EOther), w)
      end
  | OpenFileAt d n =>
      match directory_of w d with
      | Some (i, names) =>
          match child ns i n with
          | Some j => match ns !! j with
                      | Some (SymLink _) => (Err (errno_of ELOOP), w)
                      | Some _ => (Ok (new_handle w), open_as w (j, names ++ [n]))
                      | None => (Err (errno_of ENOENT), w)
                      end
          | None => (Err (errno_of ENOENT), w)
          end
      | None => (Err (errno_of EOther), w)
      end
  | CreateFileAt d n mode =>
      match directory_of w d with
      | Some (i, names) =>
          match child ns i n with
          | None => (Ok (new_handle w),
              {| w_nodes := add_entry (<[new_inode ns := Regular "" mode false]> ns) i n (new_inode ns);
                 w_handles := <[new_handle w := (new_inode ns, names ++ [n])]> (w_handles w);
                 w_own := {[new_inode ns]} ∪ w_own w |})
          | Some _ => (Err (errno_of EEXIST), w)
          end
      | None => (Err (errno_of EOther), w)
      end
  | LinkAt d n d' n' =>
      match directory_of w d, directory_of w d' with
      | Some (i, _), Some (i', _) =>
          match child ns i n, child ns i' n' with
          | Some j, None => match ns !! j with
                            | Some (Regular _ _ _) => (Ok tt, with_nodes w (add_entry ns i' n' j))
                            | _ => (Err (errno_of EOther), w)
                            end
          | _, Some _ => (Err (errno_of EEXIST), w)
          | _, _ => (Err (errno_of ENOENT), w)
          end
      | _, _ => (Err (errno_of EOther), w)
      end
  | UnlinkAt d n =>
      match directory_of w d with
      | Some (i, _) =>
          match child ns i n with
          | Some j => match ns !! j with
                      | Some (Regular _ _ _) => (Ok tt, with_nodes w (remove_entry ns i n))
                      | _ => (Err (errno_of EOther), w)
                      end
          | None => (Err (errno_of ENOENT), w)
          end
      | None => (Err (errno_of EOther), w)
      end
  | HandleMeta h =>
      match w_handles w !! h with
      | Some (i, _) => match ns !! i with Some nd => (Ok (meta_of nd), w) | None => (refuse (HandleMeta h), w) end
      | None => (refuse (HandleMeta h), w)
      end
  | SetHandleMode h mode =>
      match regular_of w h with
      | Some (i, (c, _, _)) => (Ok tt, with_nodes w (<[i := Regular c mode false]> ns))
      | None => (refuse (SetHandleMode h mode), w)
      end
  | WriteHandle h data =>
      match regular_of w h with
      | Some (i, (c, m, _)) => (Ok tt, with_nodes w (<[i := Regular (c +:+ data) m false]> ns))
      | None => (refuse (WriteHandle h data), w)
      end
  | SyncHandle h =>
      match w_handles w !! h with
      | Some (i, _) =>
          match ns !! i with
          | Some (Regular c m _) => (Ok tt, with_nodes w (<[i := Regular c m true]> ns))
          | Some _ => (Ok tt, with_nodes w ns)
          | None => (refuse (SyncHandle h), w)
          end
      | None => (refuse (SyncHandle h), w)
      end
  | ReadTake h limit =>
      match regular_of w h with
      | Some (_, (c, _, _)) => if str_len c <=? limit then (Ok c, w) else (refuse (ReadTake h limit), w)
      | None => (refuse (ReadTake h limit), w)
      end
  | FetchAdd => (Z.of_nat (new_handle w), w)
  | q => (refuse q, w)
  end.

Lemma max_list_le (l : list nat) x : x ∈ l → (x ≤ max_list l)%nat.
Proof. apply max_list_elem_of_le. Qed.

Lemma new_handle_fresh w : w_handles w !! new_handle w = None.
Proof.
  destruct (w_handles w !! new_handle w) as [x|] eqn:E; [|done]. exfalso.
  apply elem_of_map_to_list in E.
  assert (new_handle w ∈ map fst (map_to_list (w_handles w))) as H%max_list_le
    by by apply (list_elem_of_fmap_2' fst _ (new_handle w, x)).
  unfold new_handle in H at 1. lia.
Qed.

Lemma new_inode_number ns : new_inode ns ∉ numbers ns.
Proof. intros H%max_list_le. unfold new_inode in H. lia. Qed.

Lemma new_inode_fresh ns : fresh_inode ns (new_inode ns).
Proof.
  split.
  - destruct (ns !! new_inode ns) as [x|] eqn:E; [|done]. exfalso. apply elem_of_map_to_list in E.
    apply (new_inode_number ns), elem_of_app. left. by apply (list_elem_of_fmap_2' fst _ (new_inode ns, x)).
  - intros d n Hc. unfold child in Hc. destruct (ns !! d) as [[es| | |]|] eqn:E; try done.
    apply (new_inode_number ns), elem_of_app. right. apply list_elem_of_bind. exists (d, Directory es).
    split; [|by apply elem_of_map_to_list]. cbn.
    apply (list_elem_of_fmap_2' snd _ (n, new_inode ns)); [by apply elem_of_map_to_list|done].
Qed.

Lemma directory_of_some w d i names : directory_of w d = Some (i, names) →
  w_handles w !! d = Some (i, names) ∧ is_directory (w_nodes w) i.
Proof.
  unfold directory_of. destruct (w_handles w !! d) as [[i' ns']|]; [|done].
  destruct (w_nodes w !! i') as [[]|] eqn:E; try done. intros [= <- <-]. split; [done|by eexists].
Qed.
Lemma regular_of_some w h i c m s : regular_of w h = Some (i, (c, m, s)) →
  ∃ names, w_handles w !! h = Some (i, names) ∧ w_nodes w !! i = Some (Regular c m s).
Proof.
  unfold regular_of. destruct (w_handles w !! h) as [[i' ns']|]; [|done].
  destruct (w_nodes w !! i') as [[]|] eqn:E; try done. intros [= <- <- <- <-]. eauto.
Qed.

#[local] Hint Resolve new_handle_fresh new_inode_fresh : core.

Lemma exec_step w q : step w q (exec w q).1 (exec w q).2.
Proof.
  destruct q; cbn; try done.
  all: repeat match goal with
    | |- context [match directory_of ?w ?d with _ => _ end] =>
        destruct (directory_of w d) as [[? ?]|] eqn:?; cbn; try done
    | |- context [match regular_of ?w ?h with _ => _ end] =>
        destruct (regular_of w h) as [[? [[? ?] ?]]|] eqn:?; cbn; try done
    | |- context [match child ?ns ?i ?n with _ => _ end] => destruct (child ns i n) eqn:?; cbn; try done
    | |- context [match w_nodes ?w !! ?j with _ => _ end] => destruct (w_nodes w !! j) as [[]|] eqn:?; cbn; try done
    | |- context [match w_handles ?w !! ?j with _ => _ end] => destruct (w_handles w !! j) as [[? ?]|] eqn:?; cbn; try done
    | |- context [if ?a <=? ?b then _ else _] => destruct (Z.leb_spec a b); cbn; try done
    end.
  all: repeat match goal with
    | H : directory_of _ _ = Some _ |- _ => apply directory_of_some in H as [? ?]
    | H : regular_of _ _ = Some _ |- _ => apply regular_of_some in H as (? & ? & ?)
    end.
  all: repeat match goal with |- ∃ _, _ => eexists | |- _ ∧ _ => split | |- opened _ _ _ _ => split end;
    try eassumption; try reflexivity; try (apply new_handle_fresh); try (apply new_inode_fresh);
    try (by eexists); try (by eapply regular_not_directory); try done.
  - left. eauto 10.
  - by instantiate (1 := content); instantiate (1 := "").
  - by right.
  - symmetry. apply str_app_nil.
  - by right.
Qed.

(** A schedule: which process takes the next step *)
Definition turn (s : system) (k : nat) : system :=
  match sy_processes s !! k with
  | Some pc =>
      match pc_rest pc with
      | Call q rest =>
          let r := exec (view (sy_nodes s) pc) q in
          {| sy_nodes := w_nodes r.2;
             sy_processes := <[k := {| pc_writer := pc_writer pc; pc_handles := w_handles r.2; pc_own := w_own r.2;
                                       pc_rest := rest r.1 |}]> (sy_processes s) |}
      | Ret _ => s
      end
  | None => s
  end.

Lemma turn_reachable s k : rtc system_step s (turn s k).
Proof.
  unfold turn. destruct (sy_processes s !! k) as [pc|] eqn:Hk; [|done]. destruct (pc_rest pc) as [r|q rest] eqn:Hr; [done|].
  destruct s as [ns ps]. cbn in *. apply rtc_once. by eapply (SystemStep ns ps k pc), exec_step.
Qed.
Lemma schedule_reachable s schedule : rtc system_step s (fold_left turn schedule s).
Proof.
  revert s. induction schedule as [|k schedule IH]; intros s; cbn; [done|]. etrans; [apply turn_reachable|apply IH].
Qed.

(** Two writers of one path, taking turns *)
Definition empty_disk : nodes := {[ROOT := Directory ∅]}.
Definition sample_path : path := [RootDir; Normal "run"; Normal "plan.json"].
Definition sample_writer (pid : Z) (data : string) : writer :=
  {| wr_pid := pid; wr_path := sample_path; wr_data := data; wr_max := 1024; wr_git_mode := None |}.
Definition sample_writers : list writer := [sample_writer 7 "first"; sample_writer 8 "second"].
Definition sample_end : system :=
  fold_left turn (concat (repeat [0; 1]%nat 40))
    {| sy_nodes := empty_disk; sy_processes := map (start to_os) sample_writers |}.

Example sample_results :
  map (λ pc, match pc_rest pc with Ret r => Some r | Call _ _ => None end) (sy_processes sample_end) =
  [Some (Ok tt); Some (Err (InvalidSpec "create-once artifact collision at /run/plan.json"))].
Proof. vm_compute. reflexivity. Qed.

(** The writers of the example: the first one has its file. *)
Lemma authority_writers_witness :
  holds_file sample_end (sample_writer 7 "first") ∧ names_ok empty_disk (sy_nodes sample_end) sample_writers.
Proof.
  destruct (authority_writers to_os empty_disk sample_writers sample_end) as (Hdone & _ & Hnames & _).
  - by eexists.
  - repeat constructor; intros name [= <-] [rest [=]].
  - apply schedule_reachable.
  - split; [|exact Hnames]. destruct (sy_processes sample_end) as [|pc rest] eqn:E.
    + exfalso. revert E. vm_compute. discriminate.
    + assert (pc_writer pc = sample_writer 7 "first" ∧ pc_rest pc = Ret (Ok tt)) as [<- Hr].
      { assert (match sy_processes sample_end with
          | pc :: _ => pc_writer pc = sample_writer 7 "first" ∧ pc_rest pc = Ret (Ok tt) | [] => False end) as H
          by (vm_compute; split; reflexivity).
        by rewrite E in H. }
      apply Hdone; [left|exact Hr].
Defined.
End Sample.
