(* ===== verification/AuthorityReaders.v ===== *)
(** * Readers of authority files

    Reading an authority file while other processes do whatever they like to
    the file system: names are moved, files replaced, grown or truncated
    between any two requests.  Only the descriptors of the reader are its own.
    A run is told by its moments: the file system a request met, the request
    and its answer. *)

From S2P Require Import Prelude RustStr Paths Os Traces AuthorityFiles AuthoritySafety AuthorityWriters.

Definition moment : Type := world * ioevent.

(** Others act: nothing is known of the file system afterwards. *)
Definition interferes (w w' : world) : Prop := w_handles w' = w_handles w.

(** [p], started in [w], can meet the moments [hist] and end in [w'] with [r]. *)
Fixpoint observed {E A} (p : prog E A) (w : world) (hist : list moment) (w' : world) (r : result E A) : Prop :=
  match p with
  | Ret r' => hist = [] ∧ w' = w ∧ r = r'
  | Call q k => ∃ w1 a w2 hist', interferes w w1 ∧ step w1 q a w2 ∧
      hist = (w1, Ev q a) :: hist' ∧ observed (k a) w2 hist' w' r
  end.

(** A directory opened from the root, name by name: each name was an entry of
    the directory before it, and a directory itself, when it was opened. *)
Inductive walk (hist : list moment) : nat → nat → list string → Prop :=
| WalkRoot w h : (w, Ev OpenRoot (Ok h)) ∈ hist → walk hist h ROOT []
| WalkName w h h' d d' names n : walk hist h d names →
    (w, Ev (OpenDirAt h n) (Ok h')) ∈ hist →
    child (w_nodes w) d n = Some d' → is_directory (w_nodes w) d' →
    walk hist h' d' (names ++ [n]).

(** What a successful read saw, at the end of its run: the last name of the
    path in the directory that was walked to; a regular file with a mode as
    [bits] says behind the descriptor; its whole content, within the limit. *)
Definition read_as (p : path) (max_bytes : Z) (bits : Z → Prop) (hist : list moment) (bytes : string) : Prop :=
  ∃ past w1 w2 w3 h fd m limit name d i content mode synced mode' synced',
    hist = past ++ [(w1, Ev (OpenFileAt h name) (Ok fd)); (w2, Ev (HandleMeta fd) (Ok m));
                    (w3, Ev (ReadTake fd limit) (Ok bytes))] ∧
    file_name p = Some name ∧
    walk past h d (normal_names (removelast p)) ∧
    child (w_nodes w1) d name = Some i ∧
    w_nodes w2 !! i = Some (Regular content mode synced) ∧ bits mode ∧
    w_nodes w3 !! i = Some (Regular bytes mode' synced') ∧ str_len bytes ≤ max_bytes.

(** ** Runs *)

Lemma observed_bind {E A B} (p : prog E A) (f : A → prog E B) w hist w' b :
  observed (p ≫= f) w hist w' (Ok b) →
  ∃ a h1 h2 w1, hist = h1 ++ h2 ∧ observed p w h1 w1 (Ok a) ∧ observed (f a) w1 h2 w' (Ok b).
Proof.
  revert w hist. induction p as [[a|e]|q k IH]; intros w hist; cbn.
  - intros H. by exists a, [], hist, w.
  - by intros (_ & _ & ?).
  - intros (w1 & a & w2 & hist' & Hi & Hs & -> & H). apply IH in H as (x & h1 & h2 & w3 & -> & H1 & H2).
    exists x, ((w1, Ev q a) :: h1), h2, w3. split_and!; [done| |done]. eauto 10.
Qed.

Lemma observed_ask {E A} q (g : answer q → result E A) w hist w' r :
  observed (Call q (λ a, Ret (g a))) w hist w' r →
  ∃ w1 a, interferes w w1 ∧ step w1 q a w' ∧ hist = [(w1, Ev q a)] ∧ r = g a.
Proof. intros (w1 & a & w2 & hist' & Hi & Hs & -> & -> & -> & ->). eauto 10. Qed.

Lemma observed_requests {E A} P (p : prog E A) w hist w' r :
  wp P (λ _, True) p → observed p w hist w' r → Forall (λ mo : moment, P (ev_request mo.2)) hist.
Proof.
  revert w hist. induction p as [r'|q k IH]; intros w hist; cbn.
  - by intros _ (-> & _ & _).
  - intros [Hq Hk] (w1 & a & w2 & hist' & Hi & Hs & -> & H). constructor; [done|]. by eapply IH.
Qed.

Lemma walk_later hist more h d names : walk hist h d names → walk (hist ++ more) h d names.
Proof.
  induction 1 as [w h Hin|w h h' d d' names n _ IH Hin Hc Hd]; [by eapply WalkRoot, elem_of_app; left|].
  eapply WalkName; [done| |done|done]. apply elem_of_app. by left.
Qed.

(** ** The programs *)

Section Programs.
Context (display : path → string).

(** One name of the walk. *)
Lemma observed_component p h n w hist w' h' d names past :
  observed (open_component display p false h n) w hist w' (Ok h') →
  w_handles w !! h = Some (d, names) → walk past h d names →
  ∃ d', w_handles w' !! h' = Some (d', names ++ [n]) ∧ walk (past ++ hist) h' d' (names ++ [n]).
Proof.
  intros H Hh Hw. unfold open_component in H. apply observed_bind in H as (x & h1 & h2 & w1 & -> & H1 & H).
  assert (∃ w0, interferes w w0 ∧ step w0 (OpenDirAt h n) (Ok x) w1 ∧ h1 = [(w0, Ev (OpenDirAt h n) (Ok x))])
    as (w0 & Hi0 & Hs0 & ->).
  { destruct H1 as (w0 & a & w2 & hist' & Hi & Hs & -> & H1). destruct a as [fd|e].
    - destruct H1 as (-> & -> & [= ->]). eauto.
    - destruct (en_code e); by destruct H1 as (_ & _ & ?). }
  apply observed_bind in H as (m & h3 & h4 & w2 & -> & H2 & H).
  apply observed_ask in H2 as (w3 & a & Hi3 & [-> _] & -> & Ha).
  destruct (negb _); destruct H as (-> & -> & [= ->]).
  destruct Hs0 as (i & names' & j & Hd & Hc & Hj & Ho). unfold interferes in *. rewrite Hi0, Hh in Hd.
  injection Hd as <- <-. destruct Ho as [_ ->]. cbn in Hi3. exists j. split; [by rewrite Hi3, lookup_insert_eq|].
  apply (WalkName _ w0 h x d); [by apply walk_later| |done|done]. apply elem_of_app. right. left.
Qed.

Lemma observed_components p parents h w hist w' h' d names past :
  observed (open_components display p false h parents) w hist w' (Ok h') →
  w_handles w !! h = Some (d, names) → walk past h d names →
  ∃ d', w_handles w' !! h' = Some (d', names ++ normal_names parents) ∧
    walk (past ++ hist) h' d' (names ++ normal_names parents).
Proof.
  revert h w hist d names past. induction parents as [|[| | |n] parents IH]; intros h w hist d names past;
    cbn [open_components]; try exact (IH h w hist d names past).
  - intros (-> & -> & [= ->]) Hh Hw. exists d. cbn. by rewrite !app_nil_r.
  - intros H Hh Hw. apply observed_bind in H as (x & h1 & h2 & w1 & -> & H1 & H).
    destruct (observed_component _ _ _ _ _ _ _ _ _ _ H1 Hh Hw) as (d1 & Hh1 & Hw1).
    destruct (IH _ _ _ _ _ _ H Hh1 Hw1) as (d' & ? & ?). exists d'. rewrite <- !app_assoc in *. done.
Qed.

Lemma observed_parent p w hist w' h name :
  observed (authority_open_parent display p false) w hist w' (Ok (h, name)) →
  file_name p = Some name ∧ ∃ d, w_handles w' !! h = Some (d, normal_names (removelast p)) ∧
    walk hist h d (normal_names (removelast p)).
Proof.
  unfold authority_open_parent. destruct (file_name p) as [n|] eqn:Hn; [|by intros (_ & _ & ?)].
  intros H. apply observed_bind in H as (root & h1 & h2 & w1 & -> & H1 & H).
  apply observed_ask in H1 as (w0 & a & Hi & Hs & -> & Ha). destruct a as [root'|]; [|done]. injection Ha as ->.
  apply observed_bind in H as (x & h3 & h4 & w2 & -> & H2 & (-> & -> & [= <- <-])).
  rewrite app_nil_r. split; [done|]. destruct Hs as [_ ->].
  assert (from_option id [] (parent p) = removelast p) as Hp.
  { unfold parent, file_name in *. by destruct (last p) as [[]|]. }
  rewrite Hp in H2. destruct (observed_components _ _ _ _ _ _ _ ROOT [] [(w0, Ev OpenRoot (Ok root'))] H2)
    as (d & Hh & Hw); [cbn; by rewrite lookup_insert_eq|eapply WalkRoot; left|].
  by exists d.
Qed.

(** The leaf: opened, described, read. *)
Lemma observed_leaf {A} parent name (f : nat → metadata → prog RunnerError A) w hist w' r d names :
  observed (fd ← open_leaf parent name; m ← Call (HandleMeta fd) (λ m, Ret (map_err io_error_of m)); f fd m)
    w hist w' (Ok r) →
  w_handles w !! parent = Some (d, names) →
  ∃ w1 w2 w3 fd m i rest, hist = (w1, Ev (OpenFileAt parent name) (Ok fd)) :: (w2, Ev (HandleMeta fd) (Ok m)) :: rest ∧
    child (w_nodes w1) d name = Some i ∧ (∃ nd, w_nodes w2 !! i = Some nd ∧ describes m nd) ∧
    (∃ q, w_handles w3 !! fd = Some (i, q)) ∧ observed (f fd m) w3 rest w' (Ok r).
Proof.
  intros H Hp. apply observed_bind in H as (fd & h1 & h2 & w1 & -> & H1 & H).
  apply observed_ask in H1 as (w0 & a & Hi & Hs & -> & Ha). destruct a as [fd'|]; [|done]. injection Ha as ->.
  destruct Hs as (i & names' & j & nd & Hd & Hc & _ & _ & [_ ->]). unfold interferes in *.
  rewrite Hi, Hp in Hd. injection Hd as <- <-.
  apply observed_bind in H as (m & h3 & h4 & w2 & -> & H2 & H).
  apply observed_ask in H2 as (w3 & a & Hi3 & [-> Hm] & -> & Ha). destruct a as [m'|]; [|done]. injection Ha as ->.
  unfold interferes in Hi3. cbn in Hi3. destruct Hm as (i' & q & nd' & Hfd & Hnd' & Hdesc). rewrite Hi3, lookup_insert_eq in Hfd.
  injection Hfd as <- <-. exists w0, w3, w3, fd', m', j, h4. split_and!; [done|done|eauto| |done].
  eexists. by rewrite Hi3, lookup_insert_eq.
Qed.

Lemma observed_descriptor fd m max_bytes w hist w' bytes i q :
  observed (read_descriptor fd m max_bytes) w hist w' (Ok bytes) →
  w_handles w !! fd = Some (i, q) →
  ∃ w1 limit mode synced, hist = [(w1, Ev (ReadTake fd limit) (Ok bytes))] ∧
    w_nodes w1 !! i = Some (Regular bytes mode synced) ∧ str_len bytes ≤ max_bytes.
Proof.
  unfold read_descriptor. intros H Hfd. destruct (_ <? _); [by destruct H as (_ & _ & ?)|].
  destruct (checked_add _ _ _) as [limit|] eqn:Hl; [|by destruct H as (_ & _ & ?)].
  apply checked_add_some in Hl as [-> _].
  apply observed_bind in H as (x & h1 & h2 & w1 & -> & H1 & H).
  apply observed_ask in H1 as (w0 & a & Hi & [-> Hs] & -> & Ha). destruct a as [b|]; [|done]. injection Ha as ->.
  destruct (_ <? str_len b) eqn:Hlen; destruct H as (-> & -> & [= ->]).
  destruct Hs as (i' & names & c & mode & synced & rest & Hh & Hr & -> & _ & Hor).
  unfold interferes in Hi. rewrite Hi, Hfd in Hh. injection Hh as <- <-. to_prop.
  destruct Hor as [?| ->]; [lia|]. rewrite str_app_nil in Hr. eauto 10.
Qed.

(** A read of the leaf of a path, after a check of its metadata. *)
Lemma observed_read {A} p max_bytes (bits : A → Z → Prop) (get : A → string)
    (f : nat → metadata → prog RunnerError A) w hist w' a :
  (∀ fd m w hist w', observed (f fd m) w hist w' (Ok a) →
     md_file m = true ∧ bits a (md_mode m) ∧ observed (read_descriptor fd m max_bytes) w hist w' (Ok (get a))) →
  observed (opened ← authority_open_parent display p false;
            fd ← open_leaf opened.1 opened.2;
            m ← Call (HandleMeta fd) (λ m, Ret (map_err io_error_of m)); f fd m) w hist w' (Ok a) →
  read_as p max_bytes (bits a) hist (get a).
Proof.
  intros Hf H. apply observed_bind in H as ([h name] & h1 & h2 & w1 & -> & H1 & H).
  apply observed_parent in H1 as (Hname & d & Hh & Hw). cbn [fst snd] in H.
  destruct (observed_leaf _ _ _ _ _ _ _ _ _ H Hh) as
    (w2 & w3 & w4 & fd & m & i & rest & -> & Hc & (nd & Hnd & Hdesc) & [q Hfd] & Hr).
  apply Hf in Hr as (Hfile & Hbits & Hr).
  destruct nd as [|content mode synced| |]; cbn in Hdesc; try (destruct Hdesc; congruence).
  destruct Hdesc as (_ & _ & _ & <-).
  destruct (observed_descriptor _ _ _ _ _ _ _ _ _ Hr Hfd) as (w5 & limit & mode' & synced' & -> & Hr' & Hlen).
  exists h1, w2, w3, w5, h, fd, m, limit, name, d, i, content, (md_mode m), synced, mode', synced'. done.
Qed.

Lemma observed_with_mode p max_bytes expected w hist w' bytes :
  observed (opened ← authority_open_parent display p false;
            authority_read_from_parent_with_mode opened.1 opened.2 max_bytes expected) w hist w' (Ok bytes) →
  read_as p max_bytes (mode_as expected) hist bytes.
Proof.
  apply (observed_read p max_bytes (λ _, mode_as expected) id). intros fd m w0 hist0 w0' H.
  destruct (md_file m); cbn [negb] in H; [|by destruct H as (_ & _ & ?)].
  destruct (match expected with Some _ => _ | None => _ end) eqn:Hm; [by destruct H as (_ & _ & ?)|].
  split_and!; [done| |done]. destruct expected; [|done]. cbn. by to_prop.
Qed.

Lemma observed_allowed p max_bytes w hist w' bytes text :
  observed (read_binary_leaf_with_allowed_mode display p max_bytes) w hist w' (Ok (bytes, text)) →
  read_as p max_bytes (λ mode, git_mode (permission_bits mode) = true ∧
    text = if permission_bits mode =? 420 then "100644" else "100755") hist bytes.
Proof.
  unfold read_binary_leaf_with_allowed_mode. destruct (validate_authority_path _ _ _); [|by intros (_ & _ & ?)].
  apply (observed_read p max_bytes (λ a mode, git_mode (permission_bits mode) = true ∧
    a.2 = if permission_bits mode =? 420 then "100644" else "100755") fst _ w hist w' (bytes, text)).
  intros fd m w0 hist0 w0' H. cbv zeta in H. destruct (git_mode _) eqn:Hg; [|by destruct H as (_ & _ & ?)].
  destruct (md_file m); cbn [negb] in H; [|by destruct H as (_ & _ & ?)].
  apply observed_bind in H as (b & h1 & h2 & w1 & -> & H1 & (-> & -> & [= -> ->])). rewrite app_nil_r. done.
Qed.
End Programs.

(** C39. Reading an authority file changes nothing, follows no link and returns
    a whole file, whatever other processes do to the file system between any
    two requests of the reader: it only opens, describes and reads; and bytes
    that are returned are, at the moment of the read (one step), the whole
    content of a regular file, within the limit, that was found under the last
    name of the path in a directory opened from the root name by name, each
    name being a directory when it was opened; a mode that is asked for or
    reported is the mode of that file when it was described. *)
Theorem authority_read_sound (display : path → string) (p : path) (max_bytes : Z) (w : world)
    (hist : list moment) (w' : world) :
  (∀ r, observed (read_bounded_authority_file display p max_bytes) w hist w' r →
     Forall (λ mo, read_request (ev_request mo.2)) hist ∧
     ∀ bytes, r = Ok bytes → read_as p max_bytes (λ _, True) hist bytes) ∧
  (∀ r, observed (read_binary_leaf_with_allowed_mode display p max_bytes) w hist w' r →
     Forall (λ mo, read_request (ev_request mo.2)) hist ∧
     ∀ bytes text, r = Ok (bytes, text) → read_as p max_bytes (λ mode, git_mode (permission_bits mode) = true ∧
       text = if permission_bits mode =? 420 then "100644" else "100755") hist bytes) ∧
  (∀ mode r, observed (read_binary_leaf_exact_mode display p max_bytes mode) w hist w' r →
     Forall (λ mo, read_request (ev_request mo.2)) hist ∧
     ∀ bytes, r = Ok bytes → read_as p max_bytes (λ m, permission_bits m = mode) hist bytes).
Proof.
  assert (∀ A (f : nat * string → prog RunnerError A), (∀ o, wp read_request (λ _, True) (f o)) →
    wp read_request (λ _, True) (authority_open_parent display p false ≫= f)) as Hopen.
  { intros A f Hf. apply wp_next; [|done]. by apply open_parent_requests. }
  split_and!.
  - intros r H. split.
    + eapply observed_requests, H. unfold read_bounded_authority_file.
      destruct (validate_authority_path _ _ _); [|done]. apply Hopen. intros o. by apply read_leaf_requests.
    + intros bytes ->. unfold read_bounded_authority_file in H.
      destruct (validate_authority_path _ _ _); [|by destruct H as (_ & _ & ?)].
      by apply (observed_with_mode display p max_bytes None) in H.
  - intros r H. split; [|by intros bytes text ->; eapply observed_allowed].
    eapply observed_requests, H. unfold read_binary_leaf_with_allowed_mode.
    destruct (validate_authority_path _ _ _); [|done]. apply Hopen. intros o. apply wp_ask_any; [done|]. intros fd.
    apply wp_ask_any; [done|]. intros m. destruct (negb _); [done|]. destruct (negb _); [done|].
    apply wp_next; [|done]. by apply read_descriptor_requests.
  - intros mode r H. unfold read_binary_leaf_exact_mode in H. split.
    + eapply observed_requests, H. destruct (negb _); [done|]. destruct (validate_authority_path _ _ _); [|done].
      apply Hopen. intros o. by apply read_leaf_requests.
    + intros bytes ->. destruct (negb _); [by destruct H as (_ & _ & ?)|].
      destruct (validate_authority_path _ _ _); [|by destruct H as (_ & _ & ?)].
      by apply (observed_with_mode display p max_bytes (Some mode)) in H.
Qed.

(** ** A read that runs *)

(** Nobody interferes, and every request that can succeed does. *)
Fixpoint sample_run {E A} (p : prog E A) (w : world) : world * list moment * result E A :=
  match p with
  | Ret r => (w, [], r)
  | Call q k =>
      let '(a, w2) := Sample.exec w q in
      let '(w', hist, r) := sample_run (k a) w2 in
      (w', (w, Ev q a) :: hist, r)
  end.

Lemma sample_observed {E A} (p : prog E A) w :
  let '(w', hist, r) := sample_run p w in observed p w hist w' r.
Proof.
  revert w. induction p as [r|q k IH]; intros w; cbn; [done|].
  pose proof (Sample.exec_step w q) as Hs. destruct (Sample.exec w q) as [a w2]. specialize (IH a w2).
  destruct (sample_run (k a) w2) as [[w' hist] r]. by exists w, a, w2, hist.
Qed.

(** The file that two writers raced to create, read back *)
Definition sample_world : world := {| w_nodes := sy_nodes Sample.sample_end; w_handles := ∅; w_own := ∅ |}.
Definition sample_read := sample_run (read_bounded_authority_file to_os Sample.sample_path 1024) sample_world.

Lemma authority_read_sound_witness :
  sample_read.2 = Ok "first" ∧ read_as Sample.sample_path 1024 (λ _, True) sample_read.1.2 "first".
Proof.
  assert (sample_read.2 = Ok "first") as Hr by (vm_compute; reflexivity).
  pose proof (sample_observed (read_bounded_authority_file to_os Sample.sample_path 1024) sample_world) as Ho.
  fold sample_read in Ho. destruct sample_read as [[w' hist] r]. cbn in Hr. subst r. split; [reflexivity|].
  destruct (authority_read_sound to_os Sample.sample_path 1024 sample_world hist w') as [H _].
  apply (H (Ok "first") Ho). reflexivity.
Defined.
