(* ===== verification/WorkMapV2.v ===== *)
(** * Work maps of version 2

    [drivers/src/planning/work_map_v2.rs]: the strict admission of a work map
    with vendored files.  A map that a planning agent submitted is decoded,
    checked in shape, ownership and dependencies, compared with the map it
    repairs, and converted to the approved authority that [Vendoring] checks. *)

From S2P Require Import Prelude RustColl RustStr Paths Os Generated Graph Prompt Json TaskInput ModelBoundary AuthorityFiles Authority Allocation Vendoring.

Definition WORK_MAP_V2_MAX_UNITS : Z := 256.
Definition WORK_MAP_V2_MAX_ITEM_BYTES : Z := 4096.
Definition WORK_MAP_V2_MAX_DERIVED_UNIT_ID_BYTES : Z := 242.
Definition WORK_MAP_V2_MAX_BYTES : Z := 1048576.

(** ** Maps *)

Record PlanUnitPackageProofV2 := {
  up_proof_id : Id; up_kind : PackageProofKindV2; up_criterion_ordinals : list Z; up_expected : string;
  up_vendor_binding_ids : list Id }.
Record PlanUnitVendorBindingV2 := { ub_binding_id : Id; ub_origin_path : Path; ub_destination : Path }.
Record PlanUnitV2 := {
  u2_id : Id; u2_kind : PlanUnitKind; u2_objective : string; u2_criteria : list string; u2_depends_on : list Id;
  u2_files : list Path; u2_package_scope_files : list Path; u2_commands : list PlanUnitCommand;
  u2_package_proofs : list PlanUnitPackageProofV2; u2_vendor_bindings : list PlanUnitVendorBindingV2;
  u2_provenance_manifest_destination : option Path; u2_links : list Id }.
Record WorkMapRecoveryV2 := {
  r2_disposition : RecoveryDisposition; r2_diagnosis_refs : list Ref; r2_root_cause : string;
  r2_affected_unit_ids : list Id; r2_actions : list string; r2_preserved_authority : list string;
  r2_repair_evidence_refs : list Ref }.
Record WorkMapV2 := { m2_schema : string; m2_units : list PlanUnitV2; m2_recovery : option WorkMapRecoveryV2 }.

#[global] Instance PlanUnitPackageProofV2_eq_dec : EqDecision PlanUnitPackageProofV2.
Proof. solve_decision. Defined.
#[global] Instance PlanUnitVendorBindingV2_eq_dec : EqDecision PlanUnitVendorBindingV2.
Proof. solve_decision. Defined.
#[global] Instance PlanUnitV2_eq_dec : EqDecision PlanUnitV2.
Proof. solve_decision. Defined.

(** ** Texts, ids and lists *)

Definition validate_work_map_v2_list (length minimum : Z) (label : string) : result string unit :=
  if (length <? minimum) || (WORK_MAP_V2_MAX_UNITS <? length)
  then Err (label +:+ " cardinality must be " +:+ show_uint minimum +:+ "..=" +:+ show_uint WORK_MAP_V2_MAX_UNITS +:+
            ", got " +:+ show_uint length)
  else Ok tt.

Definition validate_work_map_v2_authority_text (value : string) (max_bytes : Z) (label : string) : result string unit :=
  if blank value || (max_bytes <? str_len value) || negb (is_ascii value) || has_control value
  then Err (label +:+ " must be nonempty ASCII/control-free and at most " +:+ show_uint max_bytes +:+ " UTF-8 bytes")
  else Ok tt.
Definition validate_work_map_v2_id (value : Id) (label : string) : result string unit :=
  validate_work_map_v2_authority_text value 256 label.
Definition validate_work_map_v2_unit_id (value : Id) (label : string) : result string unit :=
  validate_work_map_v2_authority_text value WORK_MAP_V2_MAX_DERIVED_UNIT_ID_BYTES label.

Definition validate_work_map_v2_string (value : string) (max_bytes : Z) (label : string) : result string unit :=
  if blank value || (max_bytes <? str_len value)
  then Err (label +:+ " must be nonempty and at most " +:+ show_uint max_bytes +:+ " UTF-8 bytes")
  else Ok tt.

Definition validate_work_map_v2_path (value : Path) (label : string) : result string unit :=
  if (WORK_MAP_V2_MAX_ITEM_BYTES <? str_len value) || negb (is_ascii value) || has_control value
     || negb (approved_path_is_safe value)
  then Err (label +:+ " must be a byte-bounded exact normalized path")
  else Ok tt.

Definition validate_work_map_v2_tsv_path (value : Path) (label : string) : result string unit :=
  _ ← validate_work_map_v2_path value label;
  if contains (String (chr 9) "") value || contains (String CR "") value || contains (String LF "") value
  then Err (label +:+ " contains TAB, CR, or LF and cannot be emitted in canonical TSV")
  else Ok tt.

Definition validate_work_map_v2_command (command : PlanUnitCommand) : result string unit :=
  _ ← validate_work_map_v2_string (puc_command command) (16 * 1024) "command";
  _ ← validate_work_map_v2_string (puc_expected command) WORK_MAP_V2_MAX_ITEM_BYTES "command expected";
  _ ← validate_work_map_v2_string (puc_scope_preservation command) WORK_MAP_V2_MAX_ITEM_BYTES "command scope preservation";
  _ ← validate_work_map_v2_list (zlen (puc_generated_paths command)) 0 "command generated paths";
  for_each (λ path, validate_work_map_v2_path path "command generated path") (puc_generated_paths command).

Definition validate_work_map_v2_exact_paths (paths : list Path) (allow_empty : bool) (label : string)
  : result string unit :=
  if (paths =s []) && negb allow_empty then Err (label +:+ " authority is empty")
  else
    exact ← fold_res (collect_distinct (λ path, validate_work_map_v2_path path label)
                        (λ path, "duplicate " +:+ label +:+ " " +:+ path)) ∅ paths;
    for_each (λ path,
      for_each (λ ancestor,
        ensure (negb (bool_decide (ancestor ∈ exact)))
          (label +:+ " same-unit ancestor " +:+ ancestor +:+ " and " +:+ path))
        (ancestors path)) (btree_set exact).

(** ** Units *)

Definition v2_dependency_step (unit_id : Id) (seen : gset string) (dependency : Id) : result string (gset string) :=
  _ ← validate_work_map_v2_unit_id dependency "dependency id";
  if bool_decide (dependency ∈ seen) then Err ("unit " +:+ unit_id +:+ " has duplicate dependency " +:+ dependency)
  else Ok ({[dependency]} ∪ seen).

Definition v2_link_step (unit_id : Id) (atom_ids : gset string) (seen : gset string) (link : Id)
  : result string (gset string) :=
  _ ← validate_work_map_v2_id link "atom link";
  if bool_decide (link ∈ seen) then Err ("unit " +:+ unit_id +:+ " has duplicate atom link " +:+ link)
  else if negb (bool_decide (link ∈ atom_ids)) then Err ("unit " +:+ unit_id +:+ " links unknown atom id " +:+ link)
  else Ok ({[link]} ∪ seen).

Definition v2_proof_step (criteria : Z) (proof_ids : gset string) (proof : PlanUnitPackageProofV2)
  : result string (gset string) :=
  let id := up_proof_id proof in
  let ordinals := up_criterion_ordinals proof in
  let binding_ids := up_vendor_binding_ids proof in
  _ ← validate_work_map_v2_id id "package proof id";
  if bool_decide (id ∈ proof_ids) then Err ("duplicate package proof id " +:+ id)
  else
    _ ← validate_work_map_v2_string (up_expected proof) WORK_MAP_V2_MAX_ITEM_BYTES "package proof expected";
    _ ← validate_work_map_v2_list (zlen ordinals) 1 "proof criterion ordinals";
    if negb (Z.of_nat (size (list_to_set ordinals : gset Z)) =? zlen ordinals)
       || any (λ ordinal, (ordinal =? 0) || (criteria <? ordinal)) ordinals
    then Err ("proof " +:+ id +:+ " has duplicate, zero, or out-of-range criterion ordinal")
    else
      _ ← validate_work_map_v2_list (zlen binding_ids) 0 "proof binding ids";
      if APPROVED_VENDOR_BINDINGS_V2_MAX <? zlen binding_ids
      then Err ("proof " +:+ id +:+ " vendor binding ids exceeds " +:+ show_uint APPROVED_VENDOR_BINDINGS_V2_MAX)
      else if negb (Z.of_nat (size (list_to_set binding_ids : gset string)) =? zlen binding_ids)
      then Err ("proof " +:+ id +:+ " has duplicate vendor binding ids")
      else
        _ ← for_each (λ binding_id, validate_work_map_v2_id binding_id "proof binding id") binding_ids;
        if bool_decide (up_kind proof = CleanExactPackageTip) && negb (binding_ids =s [])
        then Err ("clean package proof " +:+ id +:+ " must have empty vendor binding ids")
        else Ok ({[id]} ∪ proof_ids).

(** What the loop over the units collects *)
Record ShapeState := {
  sh_unit_ids : gset string; sh_proof_ids : gset string; sh_binding_ids : gset string; sh_destinations : gset string;
  sh_manifests : gset string; sh_total_proofs : Z; sh_total_bindings : Z }.
Definition shape_start : ShapeState :=
  {| sh_unit_ids := ∅; sh_proof_ids := ∅; sh_binding_ids := ∅; sh_destinations := ∅; sh_manifests := ∅;
     sh_total_proofs := 0; sh_total_bindings := 0 |}.

(** The ids and destinations; the ids of the unit alone are among them. *)
Definition v2_binding_step (u : PlanUnitV2) (acc : gset string * gset string) (binding : PlanUnitVendorBindingV2)
  : result string (gset string * gset string) :=
  let '(binding_ids, destinations) := acc in
  let id := ub_binding_id binding in
  let destination := ub_destination binding in
  _ ← validate_work_map_v2_id id "vendor binding id";
  if bool_decide (id ∈ binding_ids) then Err ("duplicate vendor binding id " +:+ id)
  else
    _ ← validate_work_map_v2_tsv_path (ub_origin_path binding) "vendor origin path";
    _ ← validate_work_map_v2_tsv_path destination "vendor destination";
    if negb (bool_decide (destination ∈ u2_files u))
    then Err ("unit " +:+ u2_id u +:+ " vendor destination " +:+ destination +:+ " is not an exact unit file")
    else if bool_decide (destination ∈ destinations) then Err ("duplicate vendor destination " +:+ destination)
    else Ok ({[id]} ∪ binding_ids, {[destination]} ∪ destinations).

Definition v2_manifest (u : PlanUnitV2) (manifests : gset string) : result string (gset string) :=
  match u2_provenance_manifest_destination u with
  | None => Ok manifests
  | Some manifest =>
      _ ← validate_work_map_v2_tsv_path manifest "provenance manifest destination";
      if negb (bool_decide (manifest ∈ u2_files u))
      then Err ("unit " +:+ u2_id u +:+ " manifest destination " +:+ manifest +:+ " is not an exact unit file")
      else if bool_decide (manifest ∈ manifests)
      then Err ("duplicate provenance manifest destination " +:+ manifest)
      else Ok ({[manifest]} ∪ manifests)
  end.

(** The part of the loop before the proofs *)
Definition v2_unit_text (u : PlanUnitV2) (atom_ids : gset string) : result string unit :=
  _ ← validate_work_map_v2_string (u2_objective u) WORK_MAP_V2_MAX_ITEM_BYTES "unit objective";
  _ ← validate_work_map_v2_list (zlen (u2_criteria u)) 1 "criteria";
  _ ← for_each (λ criterion, validate_work_map_v2_string criterion WORK_MAP_V2_MAX_ITEM_BYTES "criterion") (u2_criteria u);
  _ ← validate_work_map_v2_list (zlen (u2_depends_on u)) 0 "dependencies";
  _ ← fold_res (v2_dependency_step (u2_id u)) ∅ (u2_depends_on u);
  _ ← validate_work_map_v2_list (zlen (u2_files u)) 1 "files";
  _ ← for_each (λ file, validate_work_map_v2_path file "unit file") (u2_files u);
  _ ← map_err (λ error, "unit " +:+ u2_id u +:+ " exact file authority: " +:+ error)
        (validate_exact_unit_file_authority (u2_files u));
  _ ← validate_work_map_v2_list (zlen (u2_package_scope_files u)) 0 "package scope files";
  _ ← validate_work_map_v2_exact_paths (u2_package_scope_files u) true "package scope file";
  _ ← validate_work_map_v2_list (zlen (u2_commands u)) 1 "commands";
  _ ← for_each (λ command,
        _ ← validate_work_map_v2_command command;
        map_err (λ error, "unit " +:+ u2_id u +:+ " command authority: " +:+ error)
          (validate_plan_unit_command_effect_authority command)) (u2_commands u);
  _ ← validate_work_map_v2_list (zlen (u2_links u)) 1 "links";
  _ ← fold_res (v2_link_step (u2_id u) atom_ids) ∅ (u2_links u);
  Ok tt.

Definition v2_unit_step (atom_ids : gset string) (s : ShapeState) (u : PlanUnitV2) : result string ShapeState :=
  _ ← validate_work_map_v2_unit_id (u2_id u) "unit id";
  if negb (bool_decide (u2_kind u = Implementation)) then Err ("unit " +:+ u2_id u +:+ " must have kind implementation")
  else if bool_decide (u2_id u ∈ sh_unit_ids s) then Err ("duplicate unit id " +:+ u2_id u)
  else
    _ ← v2_unit_text u atom_ids;
    _ ← validate_work_map_v2_list (zlen (u2_package_proofs u)) 0 "package proofs";
    total_proofs ← ok_or (checked_add usize_max (sh_total_proofs s) (zlen (u2_package_proofs u)))
                     "package proof count overflow";
    proof_ids ← fold_res (v2_proof_step (zlen (u2_criteria u))) (sh_proof_ids s) (u2_package_proofs u);
    _ ← validate_work_map_v2_list (zlen (u2_vendor_bindings u)) 0 "vendor bindings";
    if APPROVED_VENDOR_BINDINGS_V2_MAX <? zlen (u2_vendor_bindings u)
    then Err ("unit " +:+ u2_id u +:+ " vendor binding count exceeds " +:+ show_uint APPROVED_VENDOR_BINDINGS_V2_MAX)
    else
      total_bindings ← ok_or (checked_add usize_max (sh_total_bindings s) (zlen (u2_vendor_bindings u)))
                         "vendor binding count overflow";
      bindings ← fold_res (v2_binding_step u) (sh_binding_ids s, sh_destinations s) (u2_vendor_bindings u);
      manifests ← v2_manifest u (sh_manifests s);
      Ok {| sh_unit_ids := {[u2_id u]} ∪ sh_unit_ids s; sh_proof_ids := proof_ids; sh_binding_ids := bindings.1;
            sh_destinations := bindings.2; sh_manifests := manifests; sh_total_proofs := total_proofs;
            sh_total_bindings := total_bindings |}.

(** ** Ownership of files *)

Definition v2_core_owner (units : list PlanUnitV2) : gmap string Id :=
  fold_left (λ owner u,
    let owner := fold_left (λ m binding, <[ub_destination binding := u2_id u]> m) (u2_vendor_bindings u) owner in
    match u2_provenance_manifest_destination u with
    | Some manifest => <[manifest := u2_id u]> owner
    | None => owner
    end) units ∅.
Definition v2_destinations (units : list PlanUnitV2) : list owned_path :=
  units ≫= λ u, map (λ binding, (u2_id u, ub_destination binding)) (u2_vendor_bindings u).
Definition v2_origins (units : list PlanUnitV2) : list owned_path :=
  units ≫= λ u, map (λ binding, (u2_id u, ub_origin_path binding)) (u2_vendor_bindings u).
Definition v2_manifests (units : list PlanUnitV2) : list owned_path :=
  units ≫= λ u, match u2_provenance_manifest_destination u with Some manifest => [(u2_id u, manifest)] | None => [] end.
Definition v2_generated (units : list PlanUnitV2) : list owned_path :=
  units ≫= λ u, u2_commands u ≫= λ command, map (λ path, (u2_id u, path)) (puc_generated_paths command).

Definition owned_by_other (core_owner : gmap string Id) (u : PlanUnitV2) (file : Path) : option Id :=
  match core_owner !! file with
  | Some core => if core =s u2_id u then None else Some core
  | None => None
  end.
Definition core_owned_error (u : PlanUnitV2) (file : Path) (core : Id) : string :=
  "unit " +:+ u2_id u +:+ " claims Core-owned destination or manifest " +:+ file +:+ " owned by unit " +:+ core.

(** One file against the files before it *)
Definition claim_against (core_owner : gmap string Id) (u : PlanUnitV2) (file : Path) (entry : owned_path)
  : result string unit :=
  let '(owner, prior) := entry in
  if owner =s u2_id u then Ok tt
  else if file =s prior then
    match owned_by_other core_owner u file with
    | Some core => Err (core_owned_error u file core)
    | None => Err ("duplicate exact V2 file ownership " +:+ file +:+ " by units " +:+ owner +:+ " and " +:+ u2_id u)
    end
  else if path_authority_collides file prior
  then Err ("V2 file ownership ancestor collision " +:+ file +:+ " (unit " +:+ u2_id u +:+ ") and " +:+ prior +:+
            " (unit " +:+ owner +:+ ")")
  else Ok tt.

Definition claim_file (core_owner : gmap string Id) (u : PlanUnitV2) (files : list owned_path) (file : Path)
  : result string (list owned_path) :=
  _ ← for_each (claim_against core_owner u file) files;
  match owned_by_other core_owner u file with
  | Some core => Err (core_owned_error u file core)
  | None => Ok (files ++ [(u2_id u, file)])
  end.
Definition claim_unit (core_owner : gmap string Id) (files : list owned_path) (u : PlanUnitV2)
  : result string (list owned_path) := fold_res (claim_file core_owner u) files (u2_files u).

Definition check_destination (destinations origins manifests : list owned_path) (entry : owned_path)
  : result string unit :=
  let '(_, destination) := entry in
  _ ← reject_collisions destination origins
        (λ origin, "vendor destination " +:+ destination +:+ " collides with origin " +:+ origin);
  _ ← for_each (λ '(_, other),
        if negb (destination =s other) && path_authority_collides destination other
        then Err ("vendor destinations collide: " +:+ destination +:+ " and " +:+ other) else Ok tt) destinations;
  reject_collisions destination manifests
    (λ manifest, "vendor destination " +:+ destination +:+ " collides with provenance manifest " +:+ manifest).

Definition validate_work_map_v2_raw_ownership_and_topology (work_map : WorkMapV2) : result string unit :=
  let units := m2_units work_map in
  let destinations := v2_destinations units in
  let manifests := v2_manifests units in
  let origins := v2_origins units in
  let generated := v2_generated units in
  files ← fold_res (claim_unit (v2_core_owner units)) [] units;
  _ ← check_generated files generated;
  _ ← for_each (check_destination destinations origins manifests) destinations;
  _ ← for_each (λ '(_, manifest), reject_collisions manifest origins
        (λ origin, "provenance manifest " +:+ manifest +:+ " collides with origin " +:+ origin)) manifests;
  for_each (λ '(_, path), reject_collisions path (destinations ++ manifests ++ origins)
    (λ protected, "command generated path " +:+ path +:+ " overlaps Core-owned vendor, manifest, or origin path " +:+
                  protected)) generated.

(** ** Recovery *)

Definition validate_work_map_v2_recovery_shape (recovery : WorkMapRecoveryV2) : result string unit :=
  let M := WORK_MAP_V2_MAX_ITEM_BYTES in
  _ ← validate_work_map_v2_list (zlen (r2_diagnosis_refs recovery)) 0 "recovery diagnosis refs";
  _ ← validate_work_map_v2_string (r2_root_cause recovery) M "recovery root cause";
  _ ← validate_work_map_v2_list (zlen (r2_affected_unit_ids recovery)) 0 "recovery affected unit ids";
  _ ← validate_work_map_v2_list (zlen (r2_actions recovery)) 0 "recovery actions";
  _ ← validate_work_map_v2_list (zlen (r2_preserved_authority recovery)) 0 "recovery preserved authority";
  _ ← validate_work_map_v2_list (zlen (r2_repair_evidence_refs recovery)) 0 "recovery repair evidence refs";
  _ ← for_each (λ reference, validate_work_map_v2_string reference M "recovery evidence ref")
        (r2_diagnosis_refs recovery ++ r2_repair_evidence_refs recovery);
  _ ← for_each (λ unit_id, validate_work_map_v2_id unit_id "recovery affected unit id") (r2_affected_unit_ids recovery);
  _ ← for_each (λ action, validate_work_map_v2_string action M "recovery action") (r2_actions recovery);
  for_each (λ preserved, validate_work_map_v2_string preserved M "recovery preserved authority")
    (r2_preserved_authority recovery).

Definition with_objective (u : PlanUnitV2) (objective : string) : PlanUnitV2 :=
  {| u2_id := u2_id u; u2_kind := u2_kind u; u2_objective := objective; u2_criteria := u2_criteria u;
     u2_depends_on := u2_depends_on u; u2_files := u2_files u; u2_package_scope_files := u2_package_scope_files u;
     u2_commands := u2_commands u; u2_package_proofs := u2_package_proofs u;
     u2_vendor_bindings := u2_vendor_bindings u;
     u2_provenance_manifest_destination := u2_provenance_manifest_destination u; u2_links := u2_links u |}.

Definition recovery_step (changed : gset string) (pair : PlanUnitV2 * PlanUnitV2) : result string (gset string) :=
  let '(before, after) := pair in
  if negb (u2_id before =s u2_id after) then Err "recovery reordered or replaced V2 unit identity"
  else if bool_decide (before = after) then Ok changed
  else if negb (bool_decide (with_objective before (u2_objective after) = after))
  then Err ("recovery changed non-objective V2 authority for unit " +:+ u2_id before)
  else Ok ({[u2_id before]} ∪ changed).

Definition recovery_matches (disposition : RecoveryDisposition) (changed declared : gset string) : bool :=
  match disposition with
  | Repaired => negb (bool_decide (changed = ∅)) && bool_decide (changed = declared)
  | NoDefect | RequiresNewAuthority | InfrastructureBlocked | UnsafeBlocked =>
      bool_decide (changed = ∅) && bool_decide (declared = ∅)
  end.

Definition validate_work_map_v2_recovery (candidate original : WorkMapV2) : result string unit :=
  recovery ← ok_or (m2_recovery candidate) "recovery subject was supplied but candidate has no recovery evidence";
  if (r2_diagnosis_refs recovery =s []) || blank (r2_root_cause recovery) || (r2_actions recovery =s [])
     || any blank (r2_actions recovery) || (r2_preserved_authority recovery =s [])
     || any blank (r2_preserved_authority recovery) || (r2_repair_evidence_refs recovery =s [])
  then Err "recovery evidence has incomplete diagnosis/action/preservation fields"
  else if negb (zlen (m2_units candidate) =? zlen (m2_units original)) then Err "recovery changed the V2 unit count"
  else
    let declared : gset string := list_to_set (r2_affected_unit_ids recovery) in
    if negb (Z.of_nat (size declared) =? zlen (r2_affected_unit_ids recovery))
    then Err "recovery duplicates affected unit ids"
    else
      changed ← fold_res recovery_step ∅ (zip (m2_units original) (m2_units candidate));
      if recovery_matches (r2_disposition recovery) changed declared then Ok tt
      else Err "recovery disposition does not match exactly changed V2 units".

(** ** Dependencies *)

Definition units_by_id (units : list PlanUnitV2) : gmap string PlanUnitV2 :=
  fold_left (λ m u, <[u2_id u := u]> m) units ∅.

Definition v2_cycle_message (id : Id) : string := "work-map V2 dependency cycle at " +:+ id.
Definition v2_succ (units : list PlanUnitV2) (id : Id) : result string (list Id) :=
  match units_by_id units !! id with
  | Some u => Ok (u2_depends_on u)
  | None => Err ("unit " +:+ id +:+ " missing during V2 graph walk")
  end.

(** [visit] from every unit; [None] would be fuel. *)
Definition validate_work_map_v2_graph (work_map : WorkMapV2) (unit_ids : gset string) : option (result string unit) :=
  let units := m2_units work_map in
  match for_each (λ u, for_each (λ dependency,
          if dependency =s u2_id u then Err ("unit " +:+ u2_id u +:+ " depends on itself")
          else if negb (bool_decide (dependency ∈ unit_ids))
          then Err ("unit " +:+ u2_id u +:+ " depends on unknown unit " +:+ dependency)
          else Ok tt) (u2_depends_on u)) units with
  | Err e => Some (Err e)
  | Ok _ =>
      match dfs_all v2_cycle_message (v2_succ units) (dfs_fuel (dom (units_by_id units))) (map u2_id units) (∅, ∅) with
      | Some (Ok _) => Some (Ok tt)
      | Some (Err e) => Some (Err e)
      | None => None
      end
  end.

(** ** The shape of a map *)

(** What comes before the graph *)
Definition v2_shape_tables (work_map : WorkMapV2) (atom_ids : gset string) : result string ShapeState :=
  _ ← validate_work_map_v2_string (m2_schema work_map) 64 "schema";
  let count := zlen (m2_units work_map) in
  if negb ((1 <=? count) && (count <=? WORK_MAP_V2_MAX_UNITS))
  then Err ("units must contain 1..=" +:+ show_uint WORK_MAP_V2_MAX_UNITS +:+ " units, got " +:+ show_uint count)
  else
    s ← fold_res (v2_unit_step atom_ids) shape_start (m2_units work_map);
    if APPROVED_PACKAGE_PROOFS_V2_MAX <? sh_total_proofs s
    then Err ("total package proofs exceeds " +:+ show_uint APPROVED_PACKAGE_PROOFS_V2_MAX)
    else
      _ ← match m2_recovery work_map with
          | Some recovery => validate_work_map_v2_recovery_shape recovery
          | None => Ok tt
          end;
      if APPROVED_VENDOR_BINDINGS_V2_MAX <? sh_total_bindings s
      then Err ("total vendor bindings exceeds " +:+ show_uint APPROVED_VENDOR_BINDINGS_V2_MAX)
      else Ok s.

Definition validate_work_map_v2_shape (work_map : WorkMapV2) (atom_ids : gset string) : option (result string unit) :=
  match v2_shape_tables work_map atom_ids with
  | Err e => Some (Err e)
  | Ok s =>
      match validate_work_map_v2_graph work_map (sh_unit_ids s) with
      | None => None
      | Some (Err e) => Some (Err e)
      | Some (Ok _) => Some (validate_work_map_v2_raw_ownership_and_topology work_map)
      end
  end.

(** ** Conversion *)

Definition v2_approved_unit (entry : Z * PlanUnitV2) : result string ApprovedUnit :=
  let '(index, u) := entry in
  let criteria := map (λ e, criterion_id_of (u2_id u) (e.1 + 1)) (enumerate (u2_criteria u)) in
  _ ← for_each (λ criterion, validate_work_map_v2_id criterion "derived criterion id") criteria;
  let criterion_text := zip_with (λ id text, {| ac_id := id; ac_text := text |}) criteria (u2_criteria u) in
  let predecessor_forward_criteria := map (λ dependency, "unit-complete:" +:+ dependency) (u2_depends_on u) in
  let downstream_release_edges := ["unit:" +:+ u2_id u] in
  _ ← for_each (λ id, validate_work_map_v2_id id "derived V2 authority id")
        (predecessor_forward_criteria ++ downstream_release_edges);
  operator_order ← (if index + 1 <=? u32_max then Ok (index + 1) else Err "V2 operator order overflow");
  Ok {| au_id := u2_id u; au_kind := u2_kind u; au_objective := u2_objective u; au_operator_order := operator_order;
        au_decisions := u2_links u; au_criteria := criteria; au_criterion_text := criterion_text;
        au_dependencies := u2_depends_on u; au_predecessor_forward_criteria := predecessor_forward_criteria;
        au_downstream_release_edges := downstream_release_edges; au_files := u2_files u; au_commands := u2_commands u;
        au_package_checks := [] |}.
Definition approved_units_from_work_map_v2 (work_map : WorkMapV2) : result string (list ApprovedUnit) :=
  collect_res v2_approved_unit (enumerate (m2_units work_map)).

Definition binding_order : ApprovedVendorBindingV2 → ApprovedVendorBindingV2 → comparison :=
  cmp_then (cmp_on vb_destination String.compare)
    (cmp_then (cmp_on vb_origin_path String.compare) (cmp_on vb_binding_id String.compare)).
Definition v2_vendoring_row (u : PlanUnitV2) : ApprovedUnitVendoringV2 :=
  {| uv_unit_id := u2_id u; uv_provenance_manifest_destination := u2_provenance_manifest_destination u;
     uv_vendor_bindings := sort_by binding_order (map (λ binding,
       {| vb_binding_id := ub_binding_id binding; vb_origin_path := ub_origin_path binding;
          vb_destination := ub_destination binding |}) (u2_vendor_bindings u)) |}.
Definition vendoring_from_work_map_v2 (work_map : WorkMapV2) : list ApprovedUnitVendoringV2 :=
  map v2_vendoring_row (m2_units work_map).

Definition v2_package_row (u : PlanUnitV2) : ApprovedUnitPackageAuthorityV2 :=
  {| pa_unit_id := u2_id u;
     pa_package_scope_files := sort_by String.compare (u2_package_scope_files u);
     pa_package_proofs :=
       map (λ proof, {| pp_proof_id := pp_proof_id proof; pp_kind := pp_kind proof;
                        pp_criterion_ordinals := sort_by Z.compare (pp_criterion_ordinals proof);
                        pp_expected := pp_expected proof;
                        pp_vendor_binding_ids := sort_by String.compare (pp_vendor_binding_ids proof) |})
         (sort_by (cmp_on pp_proof_id String.compare)
            (map (λ proof, {| pp_proof_id := up_proof_id proof; pp_kind := up_kind proof;
                              pp_criterion_ordinals := up_criterion_ordinals proof; pp_expected := up_expected proof;
                              pp_vendor_binding_ids := up_vendor_binding_ids proof |}) (u2_package_proofs u))) |}.
Definition package_authority_from_work_map_v2 (work_map : WorkMapV2) : list ApprovedUnitPackageAuthorityV2 :=
  map v2_package_row (m2_units work_map).
