(* ===== verification/WorkMapSafety.v ===== *)
(** * What an admitted work map is

    The theorems about [WorkMapV2]: which repairs are accepted, that the graph
    walk ends and accepts exactly acyclic dependencies, that the derived ids of
    every map of good shape fit their limit, and what the shape means. *)

From S2P Require Import Prelude RustColl RustStr Paths Os Generated Graph Prompt Json TaskInput ModelBoundary AuthorityFiles Authority Allocation Vendoring WorkMapV2.

(** ** Repairs *)

(** The evidence a repair has to bring *)
Definition recovery_evidence (r : WorkMapRecoveryV2) : Prop :=
  r2_diagnosis_refs r ≠ [] ∧ blank (r2_root_cause r) = false ∧ r2_actions r ≠ [] ∧
  (∀ a, a ∈ r2_actions r → blank a = false) ∧ r2_preserved_authority r ≠ [] ∧
  (∀ a, a ∈ r2_preserved_authority r → blank a = false) ∧ r2_repair_evidence_refs r ≠ [].

(** Unit by unit the same but for objectives *)
Definition same_but_objective (before after : PlanUnitV2) : Prop := after = with_objective before (u2_objective after).

(** The ids of the units whose objective differs *)
Definition changed_ids (original candidate : WorkMapV2) (id : Id) : Prop :=
  ∃ before after, (before, after) ∈ zip (m2_units original) (m2_units candidate) ∧ u2_id before = id ∧ before ≠ after.

Definition recovery_spec (r : WorkMapRecoveryV2) (changed : Id → Prop) : Prop :=
  match r2_disposition r with
  | Repaired => (∃ id, changed id) ∧ ∀ id, changed id ↔ id ∈ r2_affected_unit_ids r
  | _ => (∀ id, ¬ changed id) ∧ r2_affected_unit_ids r = []
  end.

Lemma recovery_steps_ok pairs changed out :
  fold_res recovery_step changed pairs = Ok out ↔
  Forall (λ p, same_but_objective p.1 p.2) pairs ∧
  ∀ id, id ∈ out ↔ id ∈ changed ∨ ∃ before after, (before, after) ∈ pairs ∧ u2_id before = id ∧ before ≠ after.
Proof.
  revert changed. induction pairs as [|[before after] pairs IH]; intros changed; cbn [fold_res].
  { split; [intros [= <-]; split; [constructor|set_solver]|]. intros [_ H]. f_equal. apply set_eq. set_solver. }
  assert (∀ c', recovery_step changed (before, after) = Ok c' ↔ same_but_objective before after ∧
    ∀ id, id ∈ c' ↔ id ∈ changed ∨ (u2_id before = id ∧ before ≠ after)) as Hstep.
  { intros c'. unfold recovery_step, same_but_objective. destruct (u2_id before =s u2_id after) eqn:Hid; cbn; to_prop.
    2: { split; [done|]. intros [Heq _]. exfalso. apply Hid. rewrite Heq. done. }
    case_bool_decide as Hsame.
    - subst after. split.
      + intros [= <-]. split; [by destruct before|]. naive_solver.
      + intros [_ H]. f_equal. apply set_eq. naive_solver.
    - case_bool_decide as Hobj; cbn; [|split; [done|intros [Heq _]; congruence]]. split.
      + intros [= <-]. split; [done|]. set_solver.
      + intros [_ H]. f_equal. apply set_eq. intros id. rewrite H. set_solver. }
  rewrite Forall_cons. cbn [fst snd]. destruct (recovery_step changed (before, after)) as [c'|e] eqn:Hc.
  - destruct (proj1 (Hstep c') eq_refl) as [H1 H2]. rewrite IH. split.
    + intros [HF Ho]. split; [done|]. intros id. rewrite Ho, H2. setoid_rewrite elem_of_cons. naive_solver.
    + intros [[_ HF] Ho]. split; [done|]. intros id. rewrite Ho, H2. setoid_rewrite elem_of_cons. naive_solver.
  - split; [done|]. intros [[H1 _] _]. exfalso.
    destruct (decide (before = after)) as [->|Hne].
    + assert (Err e = Ok changed) by (apply Hstep; naive_solver). done.
    + assert (Err e = Ok ({[u2_id before]} ∪ changed)) by (apply Hstep; set_solver). done.
Qed.

Lemma size_of_list_to_set (l : list string) :
  Z.of_nat (size (list_to_set l : gset string)) = zlen l ↔ NoDup l.
Proof.
  unfold zlen. split.
  - intros H. apply size_list_to_set_NoDup. lia.
  - intros H. rewrite size_list_to_set by done. done.
Qed.

Lemma list_to_set_empty (l : list string) : (list_to_set l : gset string) = ∅ ↔ l = [].
Proof. destruct l; [done|]. split; [|done]. intros H. exfalso. cbn in H. set_solver. Qed.

Lemma evidence_ok r :
  (r2_diagnosis_refs r =s []) || blank (r2_root_cause r) || (r2_actions r =s [])
     || any blank (r2_actions r) || (r2_preserved_authority r =s [])
     || any blank (r2_preserved_authority r) || (r2_repair_evidence_refs r =s []) = false ↔ recovery_evidence r.
Proof.
  unfold recovery_evidence. rewrite !orb_false_iff, !bool_decide_eq_false, !any_false. tauto.
Qed.

Lemma recovery_matches_ok r changed original_candidate :
  (∀ id, id ∈ changed ↔ id ∈ (∅ : gset string) ∨ original_candidate id) →
  recovery_matches (r2_disposition r) changed (list_to_set (r2_affected_unit_ids r)) = true ↔
  recovery_spec r original_candidate.
Proof.
  intros Hc. unfold recovery_matches, recovery_spec.
  assert (changed = ∅ ↔ ∀ id, ¬ original_candidate id) as Hempty.
  { split; [intros -> id Hid; specialize (Hc id); set_solver|]. intros H. apply set_eq. intros id. rewrite Hc. set_solver. }
  assert (bool_decide (changed = ∅) && bool_decide ((list_to_set (r2_affected_unit_ids r) : gset string) = ∅) = true ↔
    (∀ id, ¬ original_candidate id) ∧ r2_affected_unit_ids r = []) as Hnone.
  { by rewrite andb_true_iff, !bool_decide_eq_true, Hempty, list_to_set_empty. }
  destruct (r2_disposition r); try done.
  rewrite andb_true_iff, negb_true_iff, bool_decide_eq_true, bool_decide_eq_false.
  assert (changed ≠ ∅ ↔ ∃ id, original_candidate id) as ->.
  { split.
    - intros [id Hid]%set_choose_L. exists id. specialize (Hc id). set_solver.
    - intros [id Hid] Hx. by apply (proj1 Hempty Hx id). }
  assert (changed = list_to_set (r2_affected_unit_ids r) ↔
    ∀ id, original_candidate id ↔ id ∈ r2_affected_unit_ids r) as ->; [|done].
  split.
  - intros -> id. specialize (Hc id). set_solver.
  - intros H. apply set_eq. intros id. rewrite Hc, H. set_solver.
Qed.

Lemma recovery_steps_total original candidate : Forall2 same_but_objective original candidate →
  ∃ changed, fold_res recovery_step ∅ (zip original candidate) = Ok changed.
Proof.
  generalize (∅ : gset string) as changed. intros changed HF. revert changed.
  induction HF as [|before after original candidate H _ IH]; intros changed; cbn; [by eexists|].
  unfold same_but_objective in H. assert (u2_id before = u2_id after) as -> by by rewrite H.
  rewrite bool_decide_true by done. cbn. case_bool_decide; [apply IH|]. rewrite bool_decide_true by done. cbn. apply IH.
Qed.

Lemma Forall2_same_length_zip (original candidate : list PlanUnitV2) : length candidate = length original →
  Forall (λ p, same_but_objective p.1 p.2) (zip original candidate) → Forall2 same_but_objective original candidate.
Proof.
  revert candidate. induction original as [|u original IH]; intros [|v candidate] Hlen HF; try done.
  cbn in *. apply Forall_cons in HF as [? ?]. constructor; [done|]. apply IH; [lia|done].
Qed.

(** C20. A map is accepted as a repair of another exactly when it brings evidence,
    has the same units in the same order with nothing changed but objectives,
    and declares exactly the units it changed, as its disposition says: a
    repair changes some unit, every other disposition changes none. *)
Theorem recovery_exact (candidate original : WorkMapV2) :
  validate_work_map_v2_recovery candidate original = Ok tt ↔
  ∃ r, m2_recovery candidate = Some r ∧ recovery_evidence r ∧
    length (m2_units candidate) = length (m2_units original) ∧
    Forall2 same_but_objective (m2_units original) (m2_units candidate) ∧
    NoDup (r2_affected_unit_ids r) ∧ recovery_spec r (changed_ids original candidate).
Proof.
  unfold validate_work_map_v2_recovery. destruct (m2_recovery candidate) as [r|]; cbn; [|naive_solver].
  transitivity (recovery_evidence r ∧ length (m2_units candidate) = length (m2_units original) ∧
    Forall2 same_but_objective (m2_units original) (m2_units candidate) ∧
    NoDup (r2_affected_unit_ids r) ∧ recovery_spec r (changed_ids original candidate)); [|naive_solver].
  rewrite guard_ok, evidence_ok, guard_ok, negb_false_iff, Z.eqb_eq, guard_ok, negb_false_iff, Z.eqb_eq, size_of_list_to_set, bind_ok.
  assert (zlen (m2_units candidate) = zlen (m2_units original) ↔ length (m2_units candidate) = length (m2_units original))
    as -> by (unfold zlen; lia).
  split.
  - intros (He & Hlen & Hn & changed & [HF Hc]%recovery_steps_ok & Hm).
    destruct (recovery_matches _ _ _) eqn:Hd; [|done].
    split_and!; [done|done|by apply Forall2_same_length_zip|done|]. by eapply recovery_matches_ok.
  - intros (He & Hlen & HF & Hn & Hs). split_and!; [done|done|done|].
    destruct (recovery_steps_total _ _ HF) as [changed Hc]. exists changed. split; [done|].
    apply recovery_steps_ok in Hc as [_ Hc]. by rewrite (proj2 (recovery_matches_ok r changed _ Hc)).
Qed.

(** ** Dependencies *)

(** A search sees only what it can reach. *)
Section SearchExt.
Context {E : Type} (on_cycle : string → E) (succ succ' : string → result E (list string)) (K : string → Prop).
Context (Hsucc : ∀ a, K a → succ a = succ' a ∧ ∀ next, succ a = Ok next → Forall K next).

Lemma dfs_ext fuel node acc : K node → dfs on_cycle succ fuel node acc = dfs on_cycle succ' fuel node acc.
Proof using Hsucc.
  revert node acc. induction fuel as [|fuel IH]; intros node [vis fin] HK; [done|]. cbn [dfs].
  destruct (bool_decide (node ∈ fin)); [done|]. destruct (bool_decide (node ∈ vis)); [done|].
  destruct (Hsucc node HK) as [<- Hnext]. destruct (succ node) as [next|e]; [|done].
  specialize (Hnext next eq_refl). generalize ({[node]} ∪ vis, fin) as acc. induction Hnext as [|c next Hc _ IHn]; intros acc; [done|].
  cbn [dfs_children]. rewrite IH by done. destruct (dfs on_cycle succ' fuel c acc) as [[acc'|]|]; [apply IHn|done|done].
Qed.

Lemma dfs_all_ext fuel nodes acc : Forall K nodes → dfs_all on_cycle succ fuel nodes acc = dfs_all on_cycle succ' fuel nodes acc.
Proof using Hsucc.
  intros HK. revert acc. induction HK as [|n nodes Hn _ IH]; intros acc; [done|]. cbn. rewrite dfs_ext by done.
  destruct (dfs on_cycle succ' fuel n acc) as [[acc'|]|]; [apply IH|done|done].
Qed.
End SearchExt.

Definition v2_depends (units : list PlanUnitV2) (a b : Id) : Prop :=
  ∃ u, u ∈ units ∧ u2_id u = a ∧ b ∈ u2_depends_on u.

Lemma units_by_id_elem units id u : units_by_id units !! id = Some u → u ∈ units ∧ u2_id u = id.
Proof.
  unfold units_by_id. induction units as [|v units IH] using rev_ind; [done|]. rewrite fold_left_app. cbn.
  intros [[<- <-]|[_ [? ?]%IH]]%lookup_insert_Some; set_solver.
Qed.
Lemma units_by_id_known units id : is_Some (units_by_id units !! id) ↔ id ∈ map u2_id units.
Proof.
  unfold units_by_id. induction units as [|v units IH] using rev_ind; cbn.
  { rewrite lookup_empty. split; [by intros [? ?]|set_solver]. }
  rewrite fold_left_app, map_app, elem_of_app. cbn. rewrite lookup_insert_is_Some, IH, list_elem_of_singleton.
  destruct (decide (u2_id v = id)) as [<-|?]; naive_solver.
Qed.
Lemma units_by_id_lookup units u : NoDup (map u2_id units) → u ∈ units → units_by_id units !! u2_id u = Some u.
Proof.
  intros Hn Hu. destruct (proj2 (units_by_id_known units (u2_id u))) as [v Hv]; [by apply list_elem_of_fmap_2|].
  rewrite Hv. f_equal. apply units_by_id_elem in Hv as [Hin Heq].
  apply list_elem_of_lookup in Hu as [i Hi], Hin as [j Hj].
  assert (i = j) as ->; [|congruence]. eapply (NoDup_lookup (map u2_id units)); [done|apply list_lookup_fmap_Some; eauto..].
Qed.

(** The successors without an error *)
Definition v2_succ_total (units : list PlanUnitV2) (id : Id) : result string (list Id) :=
  match units_by_id units !! id with Some u => Ok (u2_depends_on u) | None => Ok [] end.

Lemma v2_edge units a b : NoDup (map u2_id units) → Graph.edge (v2_succ_total units) a b ↔ v2_depends units a b.
Proof.
  intros Hn. unfold Graph.edge, v2_succ_total, v2_depends. split.
  - intros (next & Hnext & Hb). destruct (units_by_id units !! a) as [u|] eqn:Hu; injection Hnext as <-; [|set_solver].
    apply units_by_id_elem in Hu as [? ?]. eauto.
  - intros (u & Hu & <- & Hb). rewrite units_by_id_lookup by done. eauto.
Qed.

Lemma v2_known_ok units u :
  for_each (λ u, for_each (λ dependency,
    if dependency =s u2_id u then Err ("unit " +:+ u2_id u +:+ " depends on itself")
    else if negb (bool_decide (dependency ∈ (list_to_set (map u2_id units) : gset string)))
    then Err ("unit " +:+ u2_id u +:+ " depends on unknown unit " +:+ dependency)
    else Ok tt) (u2_depends_on u)) units = Ok u ↔
  ∀ a b, v2_depends units a b → b ≠ a ∧ b ∈ map u2_id units.
Proof.
  rewrite for_each_ok, Forall_forall. setoid_rewrite for_each_ok. setoid_rewrite Forall_forall. split.
  - intros H a b (v & Hv & <- & Hb). specialize (H v Hv b Hb). case_bool_decide as Hs; [done|].
    case_bool_decide as Hin; [|done]. set_solver.
  - intros H v Hv b Hb. destruct (H (u2_id v) b) as [Hne Hin]; [by exists v|].
    rewrite bool_decide_false by done. rewrite bool_decide_true by set_solver. done.
Qed.

(** The walk over known dependencies ends, and fails exactly on a cycle. *)
Lemma v2_walk_ok units :
  NoDup (map u2_id units) → (∀ a b, v2_depends units a b → b ∈ map u2_id units) →
  match dfs_all v2_cycle_message (v2_succ units) (dfs_fuel (dom (units_by_id units))) (map u2_id units) (∅, ∅) with
  | Some (Ok _) => ∀ id, ¬ tc (v2_depends units) id id
  | Some (Err _) => ∃ id, tc (v2_depends units) id id
  | None => False
  end.
Proof.
  intros Hn Hknown.
  assert (∀ a b, tc (Graph.edge (v2_succ_total units)) a b ↔ tc (v2_depends units) a b) as Htc.
  { intros a b. split; apply (tc_congruence (λ x, x)); intros ? ?; by apply v2_edge. }
  rewrite (dfs_all_ext _ (v2_succ units) (v2_succ_total units) (λ id, id ∈ map u2_id units)).
  2: { intros a Ha. unfold v2_succ, v2_succ_total. apply units_by_id_known in Ha as [u Hu]. rewrite Hu. split; [done|].
       intros next [= <-]. apply Forall_forall. intros b Hb. apply (Hknown a).
       apply units_by_id_elem in Hu as [? ?]. by exists u. }
  2: by apply Forall_forall.
  pose proof (dfs_all_spec v2_cycle_message (v2_succ_total units) (dom (units_by_id units))) as Hspec.
  specialize (Hspec ltac:(intros a b (next & Hx & Hb); unfold v2_succ_total in Hx; apply elem_of_dom;
    destruct (units_by_id units !! a); [eauto|injection Hx as <-; set_solver])).
  specialize (Hspec (map u2_id units) ∅ (finished_empty _)).
  destruct (dfs_all _ _ _ _ _) as [[[vis fin]|e]|]; [| |done].
  - intros id Hcyc. destruct Hspec as (_ & [_ Hac] & Hall). apply (Hac id); [|by apply Htc].
    apply Hall. inversion Hcyc as [? ? (u & ? & <- & _)|? ? ? (u & ? & <- & _)]; by apply list_elem_of_fmap_2.
  - destruct Hspec as [(a & _ & Hcyc)|(a & Ha)]; [exists a; by apply Htc|].
    unfold v2_succ_total in Ha. by destruct (units_by_id units !! a).
Qed.

(** The walk ends, and accepts exactly dependencies among the units without a
    cycle. *)
Lemma v2_graph_exact m : NoDup (map u2_id (m2_units m)) →
  ∃ r, validate_work_map_v2_graph m (list_to_set (map u2_id (m2_units m))) = Some r ∧
    (r = Ok tt ↔ (∀ a b, v2_depends (m2_units m) a b → b ∈ map u2_id (m2_units m)) ∧
                  ∀ id, ¬ tc (v2_depends (m2_units m)) id id).
Proof.
  intros Hn. unfold validate_work_map_v2_graph. set (units := m2_units m) in *.
  pose proof (v2_known_ok units tt) as Hcheck. destruct (for_each _ units) as [[]|e].
  - assert (∀ a b, v2_depends units a b → b ∈ map u2_id units) as Hknown by (intros; by eapply Hcheck).
    pose proof (v2_walk_ok units Hn Hknown) as Hwalk.
    destruct (dfs_all _ _ _ _ _) as [[?|e]|]; [| |done].
    + exists (Ok tt). naive_solver.
    + exists (Err e). split; [done|]. split; [done|]. intros [_ Hac]. destruct Hwalk as [id Hid]. by destruct (Hac id).
  - exists (Err e). split; [done|]. split; [done|]. intros [Hknown Hac]. apply Hcheck. intros a b Hab.
    split; [|by eapply Hknown]. intros ->. by apply (Hac a), tc_once.
Qed.

(** ** Derived ids *)

(** An id that is accepted under a limit *)
Definition id_ok (max_bytes : Z) (s : string) : Prop :=
  blank s = false ∧ str_len s ≤ max_bytes ∧ is_ascii s = true ∧ has_control s = false.

Lemma authority_text_ok s max_bytes label u : validate_work_map_v2_authority_text s max_bytes label = Ok u ↔ id_ok max_bytes s.
Proof.
  destruct u. unfold validate_work_map_v2_authority_text, id_ok. rewrite guard_ok. rewrite !orb_false_iff, negb_false_iff, Z.ltb_ge. tauto.
Qed.

(** Stripping from the end stops at such a character. *)
Lemma strip_ws_rev_keeps s s' l a : 33 ≤ code a ≤ 126 → strip_ws_rev s = Some s' →
  String.list_ascii_of_string s = l ++ [a] → ∃ l', String.list_ascii_of_string s' = l' ++ [a].
Proof.
  intros Ha Hs Hl. assert (last (String.list_ascii_of_string s) = Some a) as Hlast by (rewrite Hl; apply last_snoc).
  assert (last (String.list_ascii_of_string s') = Some a) as [l' ?]%last_Some; [|by eexists].
  destruct s as [|x [|y [|z s]]]; cbn in Hs; repeat case_match; simplify_eq; cbn in *; simplify_eq; try done.
  all: unfold ws1, ws2, ws3 in *; try lia.
  all: destruct s' as [|b s']; cbn in *; simplify_eq; [lia|done].
Qed.

Lemma strip_while_keeps fuel s l a : 33 ≤ code a ≤ 126 → String.list_ascii_of_string s = l ++ [a] →
  ∃ l', String.list_ascii_of_string (strip_while strip_ws_rev fuel s) = l' ++ [a].
Proof.
  intros Ha. revert s l. induction fuel as [|fuel IH]; intros s l Hl; cbn; [by eexists|].
  destruct (strip_ws_rev s) as [s'|] eqn:Hs; [|by eexists]. destruct (strip_ws_rev_keeps _ _ _ _ Ha Hs Hl). by eapply IH.
Qed.

Lemma letter_not_blank a s : 33 ≤ code a ≤ 126 → blank (String a s) = false.
Proof.
  intros Ha. assert (trim_start (String a s) = String a s) as Hts.
  { unfold trim_start. cbn. assert (ws1 (code a) = false) as -> by (unfold ws1; lia).
    assert (∀ b, ws2 (code a) b = false) as H2 by (intros; unfold ws2; lia).
    assert (∀ b c, ws3 (code a) b c = false) as H3 by (intros; unfold ws3; lia).
    destruct s as [|b [|c s]]; rewrite ?H2, ?H3; done. }
  unfold blank, trim. rewrite Hts. unfold trim_end.
  destruct (strip_while_keeps (String.length (String a s)) (str_rev (String a s)) (rev (String.list_ascii_of_string s)) a)
    as [l' Hl']; [done|by rewrite str_rev_list|].
  unfold is_empty. apply bool_decide_eq_false. intros Hr. apply (f_equal String.list_ascii_of_string) in Hr.
  rewrite str_rev_list, Hl', rev_app_distr in Hr. done.
Qed.

(** Printable ASCII *)
Definition printable (s : string) : bool := is_ascii s && negb (has_control s).

Lemma printable_app s t : printable (s +:+ t) = printable s && printable t.
Proof.
  unfold printable, is_ascii, has_control, str_all. rewrite !negb_involutive.
  assert (String.list_ascii_of_string (s +:+ t) = String.list_ascii_of_string s ++ String.list_ascii_of_string t) as ->.
  { induction s as [|a s IH]; cbn; [done|]. by rewrite IH. }
  rewrite !forallb_app. repeat match goal with |- context [forallb ?p ?l] => destruct (forallb p l) end; done.
Qed.

Lemma printable_digits s : str_all is_ascii_digit s = true → printable s = true.
Proof.
  unfold printable, is_ascii, has_control, str_all. rewrite negb_involutive. induction (String.list_ascii_of_string s) as [|a l IH]; [done|].
  cbn. rewrite andb_true_iff. intros [Ha Hl]. specialize (IH Hl). apply andb_true_iff in IH as [-> ->].
  rewrite !andb_true_r. unfold is_ascii_digit in Ha. unfold is_control. lia.
Qed.

Lemma small_number_length v : 0 ≤ v < 1000 → str_len (show_uint v) ≤ 3.
Proof.
  intros Hv. assert (v / 10 / 10 < 10) by (apply Z.div_lt_upper_bound; [lia|]; apply Z.div_lt_upper_bound; lia).
  unfold show_uint, str_len. cbn [digits_of]. destruct (v <? 10); [cbn; lia|]. destruct (v / 10 <? 10); [cbn; lia|].
  assert (v / 10 / 10 <? 10 = true) as -> by lia. cbn. lia.
Qed.

Lemma str_len_app s t : str_len (s +:+ t) = str_len s + str_len t.
Proof. unfold str_len. rewrite str_length_app. lia. Qed.

(** A printable prefix that does not begin with a space *)
Lemma prefixed_id_ok a p s max_bytes : 33 ≤ code a ≤ 126 → printable (String a p) = true → printable s = true →
  str_len (String a p) + str_len s ≤ max_bytes → id_ok max_bytes (String a p +:+ s).
Proof.
  intros Ha Hp Hs Hlen. split_and!; [by apply letter_not_blank|by rewrite str_len_app|..].
  all: pose proof (printable_app (String a p) s) as H; rewrite Hp, Hs in H;
    change (true && true) with true in H; unfold printable in H; by to_prop.
Qed.

Lemma id_ok_printable max_bytes s : id_ok max_bytes s → printable s = true.
Proof. intros (_ & _ & H1 & H2). unfold printable. by rewrite H1, H2. Qed.

(** Every id the conversion derives from a unit id of at most 242 bytes and at
    most 256 criteria fits 256 bytes. *)
Lemma derived_ids_ok id k : id_ok 242 id → 0 ≤ k ≤ 256 →
  id_ok 256 (criterion_id_of id k) ∧ id_ok 256 ("unit-complete:" +:+ id) ∧ id_ok 256 ("unit:" +:+ id).
Proof.
  intros Hid Hk. pose proof (id_ok_printable _ _ Hid) as Hp. destruct Hid as (_ & Hlen & _). split_and!.
  - unfold criterion_id_of. apply prefixed_id_ok; [vm_compute; done|done| |].
    + rewrite !printable_app, Hp, (printable_digits (show_uint k)) by (apply show_uint_digits; lia). done.
    + rewrite !str_len_app. pose proof (small_number_length k ltac:(lia)). change (str_len "AC-") with 3.
      change (str_len "-") with 1. lia.
  - apply prefixed_id_ok; [vm_compute; done|done|done|]. change (str_len "unit-complete:") with 14. lia.
  - apply prefixed_id_ok; [vm_compute; done|done|done|]. change (str_len "unit:") with 5. lia.
Qed.

(** ** The shape *)

Record proof_v2_sound (criteria : Z) (p : PlanUnitPackageProofV2) : Prop := {
  q2_ordinals : up_criterion_ordinals p ≠ [] ∧ NoDup (up_criterion_ordinals p) ∧
    ∀ o, o ∈ up_criterion_ordinals p → o ≠ 0 ∧ o ≤ criteria;
  q2_bindings : NoDup (up_vendor_binding_ids p) ∧ zlen (up_vendor_binding_ids p) ≤ 128;
  q2_clean : up_kind p = CleanExactPackageTip → up_vendor_binding_ids p = [];
}.

Record unit_v2_sound (atom_ids : gset string) (u : PlanUnitV2) : Prop := {
  v2_id : id_ok 242 (u2_id u);
  v2_criteria : 1 ≤ zlen (u2_criteria u) ≤ 256 ∧ ∀ c, c ∈ u2_criteria u → blank c = false;
  v2_dependencies : NoDup (u2_depends_on u) ∧ ∀ d, d ∈ u2_depends_on u → id_ok 242 d;
  v2_files : u2_files u ≠ [] ∧ exact_files (u2_files u);
  v2_scope : exact_files (u2_package_scope_files u);
  v2_commands : u2_commands u ≠ [] ∧ ∀ c, c ∈ u2_commands u → validate_plan_unit_command_effect_authority c = Ok tt;
  v2_links : u2_links u ≠ [] ∧ NoDup (u2_links u) ∧ ∀ l, l ∈ u2_links u → l ∈ atom_ids;
  v2_proofs : ∀ p, p ∈ u2_package_proofs u → proof_v2_sound (zlen (u2_criteria u)) p;
  v2_vendored : (∀ b, b ∈ u2_vendor_bindings u → ub_destination b ∈ u2_files u) ∧
    ∀ p, u2_provenance_manifest_destination u = Some p → p ∈ u2_files u;
}.

Lemma v2_list_ok n k label u : validate_work_map_v2_list n k label = Ok u ↔ k ≤ n ≤ 256.
Proof.
  destruct u. unfold validate_work_map_v2_list, WORK_MAP_V2_MAX_UNITS. rewrite guard_ok, orb_false_iff, !Z.ltb_ge. naive_solver.
Qed.
Lemma v2_string_ok s k label u : validate_work_map_v2_string s k label = Ok u ↔ blank s = false ∧ str_len s ≤ k.
Proof. destruct u. unfold validate_work_map_v2_string. rewrite guard_ok, orb_false_iff, Z.ltb_ge. naive_solver. Qed.
Lemma v2_path_safe p label u : validate_work_map_v2_path p label = Ok u → approved_path_is_safe p = true.
Proof. unfold validate_work_map_v2_path. intros H. apply guard_ok in H as [H _]. by to_prop. Qed.

Lemma zlen_nonempty {A} (l : list A) : 1 ≤ zlen l → l ≠ [].
Proof. intros H ->. unfold zlen in H. cbn in H. lia. Qed.

Lemma v2_exact_paths_ok paths allow_empty label u :
  validate_work_map_v2_exact_paths paths allow_empty label = Ok u → exact_files paths.
Proof.
  unfold validate_work_map_v2_exact_paths. destruct u. intros H. apply guard_ok in H as [_ H].
  apply bind_ok in H as (exact & Hx & H). apply collect_distinct_ok in Hx as (Hn & Hf & ->).
  assert (∀ a d, a ∈ paths → d ∈ paths → ¬ above a d) as Habove.
  { intros a d Ha Hd Hab. rewrite for_each_ok, Forall_forall in H.
    specialize (H d ltac:(apply elem_of_btree_set; set_solver)). rewrite for_each_ok, Forall_forall in H.
    specialize (H a (proj2 (elem_of_ancestors d a) Hab)). apply ensure_ok in H. to_prop. set_solver. }
  split_and!; [done| |].
  - eapply Forall_impl; [exact Hf|]. intros p [Hp _]. by eapply v2_path_safe.
  - apply (no_collision_above paths (list_to_set paths)); set_solver.
Qed.

Lemma v2_dependencies_ok id deps seen out : fold_res (v2_dependency_step id) seen deps = Ok out →
  NoDup deps ∧ ∀ d, d ∈ deps → id_ok 242 d ∧ d ∉ seen.
Proof.
  revert seen. induction deps as [|d deps IH]; intros seen; cbn; [split; [constructor|set_solver]|].
  destruct (v2_dependency_step id seen d) as [seen'|] eqn:Hd; [|done]. intros [Hn Hf]%IH.
  unfold v2_dependency_step in Hd. apply bind_ok in Hd as (u & Hid & Hd). apply guard_ok in Hd as [Hin Hd].
  injection Hd as <-. apply authority_text_ok in Hid. to_prop. split.
  - constructor; [|done]. intros Hx. destruct (Hf d Hx). set_solver.
  - intros d' [->|Hd']%elem_of_cons; [done|]. destruct (Hf d' Hd'). set_solver.
Qed.

Lemma v2_links_ok id atom_ids links seen out : fold_res (v2_link_step id atom_ids) seen links = Ok out →
  NoDup links ∧ ∀ l, l ∈ links → l ∈ atom_ids ∧ l ∉ seen.
Proof.
  revert seen. induction links as [|l links IH]; intros seen; cbn; [split; [constructor|set_solver]|].
  destruct (v2_link_step id atom_ids seen l) as [seen'|] eqn:Hd; [|done]. intros [Hn Hf]%IH.
  unfold v2_link_step in Hd. apply bind_ok in Hd as (u & _ & Hd). apply guard_ok in Hd as [Hin Hd].
  apply guard_ok in Hd as [Hatom Hd]. injection Hd as <-. to_prop. split.
  - constructor; [|done]. intros Hx. destruct (Hf l Hx). set_solver.
  - intros l' [->|Hl']%elem_of_cons; [done|]. destruct (Hf l' Hl'). set_solver.
Qed.

Lemma v2_proof_ok criteria seen p seen' : v2_proof_step criteria seen p = Ok seen' →
  proof_v2_sound criteria p ∧ up_proof_id p ∉ seen ∧ seen' = {[up_proof_id p]} ∪ seen.
Proof.
  unfold v2_proof_step. intros H. inv_ok.
  match goal with Hx : any _ _ = false |- _ => rewrite any_false in Hx; rename Hx into Hord end.
  repeat match goal with Hx : validate_work_map_v2_list _ _ _ = Ok _ |- _ => apply v2_list_ok in Hx end.
  split_and!; [|done|done]. constructor.
  - split_and!; [apply zlen_nonempty; lia|apply size_list_to_set_NoDup; unfold zlen in *; lia|].
    intros o Ho. specialize (Hord o Ho). cbn in Hord. by to_prop.
  - unfold APPROVED_VENDOR_BINDINGS_V2_MAX in *. split; [apply size_list_to_set_NoDup; unfold zlen in *; lia|lia].
  - intros Hk. rewrite bool_decide_true in * by done. cbn in *. by to_prop.
Qed.

Lemma v2_proofs_ok criteria seen proofs out : fold_res (v2_proof_step criteria) seen proofs = Ok out →
  (∀ p, p ∈ proofs → proof_v2_sound criteria p ∧ up_proof_id p ∉ seen) ∧ NoDup (map up_proof_id proofs) ∧
  out = list_to_set (map up_proof_id proofs) ∪ seen.
Proof.
  revert seen. induction proofs as [|p proofs IH]; intros seen; cbn [fold_res map].
  { intros [= <-]. split_and!; [set_solver|constructor|set_solver]. }
  destruct (v2_proof_step criteria seen p) as [seen'|] eqn:Hp; [|done]. intros (Hf & Hn & ->)%IH.
  apply v2_proof_ok in Hp as (Hs & Hnew & ->). split_and!.
  - intros q [->|Hq]%elem_of_cons; [done|]. destruct (Hf q Hq). set_solver.
  - constructor; [|done]. intros (q & Heq & Hq)%list_elem_of_fmap. destruct (Hf q Hq). set_solver.
  - cbn. set_solver.
Qed.

Lemma v2_bindings_ok u acc bindings out : fold_res (v2_binding_step u) acc bindings = Ok out →
  (∀ b, b ∈ bindings → ub_destination b ∈ u2_files u ∧ ub_binding_id b ∉ acc.1 ∧ ub_destination b ∉ acc.2) ∧
  NoDup (map ub_binding_id bindings) ∧ NoDup (map ub_destination bindings) ∧
  out = (list_to_set (map ub_binding_id bindings) ∪ acc.1, list_to_set (map ub_destination bindings) ∪ acc.2).
Proof.
  revert acc. induction bindings as [|b bindings IH]; intros [ids dests]; cbn [fold_res map].
  { intros [= <-]. split_and!; [set_solver|constructor|constructor|f_equal; set_solver]. }
  destruct (v2_binding_step u (ids, dests) b) as [acc'|] eqn:Hb; [|done]. intros (Hf & Hn1 & Hn2 & ->)%IH.
  unfold v2_binding_step in Hb. inv_ok. cbn [fst snd] in *. split_and!.
  - intros b' [->|Hb']%elem_of_cons; [done|]. destruct (Hf b' Hb') as (? & ? & ?). set_solver.
  - constructor; [|done]. intros (b' & Heq & Hb')%list_elem_of_fmap. destruct (Hf b' Hb') as (? & ? & ?). set_solver.
  - constructor; [|done]. intros (b' & Heq & Hb')%list_elem_of_fmap. destruct (Hf b' Hb') as (? & ? & ?). set_solver.
  - cbn. f_equal; set_solver.
Qed.

Lemma v2_manifest_ok u seen out : v2_manifest u seen = Ok out →
  match u2_provenance_manifest_destination u with
  | Some p => p ∈ u2_files u ∧ p ∉ seen ∧ out = {[p]} ∪ seen
  | None => out = seen
  end.
Proof. unfold v2_manifest. destruct (u2_provenance_manifest_destination u); intros H; inv_ok; done. Qed.

Lemma v2_unit_text_ok u atom_ids r : v2_unit_text u atom_ids = Ok r →
  (1 ≤ zlen (u2_criteria u) ≤ 256 ∧ ∀ c, c ∈ u2_criteria u → blank c = false) ∧
  (NoDup (u2_depends_on u) ∧ ∀ d, d ∈ u2_depends_on u → id_ok 242 d) ∧
  (u2_files u ≠ [] ∧ exact_files (u2_files u)) ∧ exact_files (u2_package_scope_files u) ∧
  (u2_commands u ≠ [] ∧ ∀ c, c ∈ u2_commands u → validate_plan_unit_command_effect_authority c = Ok tt) ∧
  (u2_links u ≠ [] ∧ NoDup (u2_links u) ∧ ∀ l, l ∈ u2_links u → l ∈ atom_ids).
Proof.
  unfold v2_unit_text. intros H.
  apply bind_ok in H as (? & _ & H). apply bind_ok in H as (? & Hcrit%v2_list_ok & H).
  apply bind_ok in H as (? & Htext & H). apply bind_ok in H as (? & _ & H). apply bind_ok in H as (? & Hdeps & H).
  apply bind_ok in H as (? & _ & H). apply bind_ok in H as (? & _ & H). apply bind_ok in H as ([] & Hfiles & H).
  apply bind_ok in H as (? & _ & H). apply bind_ok in H as (? & Hscope & H).
  apply bind_ok in H as (? & Hcom%v2_list_ok & H). apply bind_ok in H as (? & Hcoms & H).
  apply bind_ok in H as (? & Hlink%v2_list_ok & H). apply bind_ok in H as (? & Hlinks & H).
  rewrite for_each_ok, Forall_forall in Htext. rewrite for_each_ok, Forall_forall in Hcoms. apply v2_dependencies_ok in Hdeps as [Hdn Hd].
  apply map_err_ok, unit_file_authority_ok in Hfiles. apply v2_exact_paths_ok in Hscope.
  apply v2_links_ok in Hlinks as [Hln Hl]. split_and!; try done; try lia.
  - intros c Hc. by apply Htext, v2_string_ok in Hc as [? _].
  - intros d Hx. by destruct (Hd d Hx).
  - by destruct Hfiles.
  - by destruct Hfiles.
  - apply zlen_nonempty. lia.
  - intros c Hc. apply Hcoms in Hc. apply bind_ok in Hc as (? & _ & Hc). by apply map_err_ok in Hc.
  - apply zlen_nonempty. lia.
  - intros l Hx. by destruct (Hl l Hx).
Qed.

(** *** What the loop over the units collects *)

Definition map_proofs (units : list PlanUnitV2) : list PlanUnitPackageProofV2 := units ≫= u2_package_proofs.
Definition map_bindings (units : list PlanUnitV2) : list PlanUnitVendorBindingV2 := units ≫= u2_vendor_bindings.
Definition map_manifests (units : list PlanUnitV2) : list Path := omap u2_provenance_manifest_destination units.

Record shape_of (atom_ids : gset string) (units : list PlanUnitV2) (s : ShapeState) : Prop := {
  so_units : ∀ u, u ∈ units → unit_v2_sound atom_ids u;
  so_ids : sh_unit_ids s = list_to_set (map u2_id units) ∧ NoDup (map u2_id units);
  so_proofs : sh_proof_ids s = list_to_set (map up_proof_id (map_proofs units)) ∧ NoDup (map up_proof_id (map_proofs units)) ∧
    sh_total_proofs s = zlen (map_proofs units);
  so_bindings : sh_binding_ids s = list_to_set (map ub_binding_id (map_bindings units)) ∧
    NoDup (map ub_binding_id (map_bindings units)) ∧ sh_total_bindings s = zlen (map_bindings units);
  so_destinations : sh_destinations s = list_to_set (map ub_destination (map_bindings units)) ∧
    NoDup (map ub_destination (map_bindings units));
  so_manifests : sh_manifests s = list_to_set (map_manifests units) ∧ NoDup (map_manifests units);
}.

Lemma NoDup_app_fresh {A} `{Countable A} (l k : list A) (s : gset A) :
  s = list_to_set l → NoDup l → NoDup k → (∀ x, x ∈ k → x ∉ s) → NoDup (l ++ k).
Proof. intros -> Hl Hk Hx. apply NoDup_app. split_and!; [done| |done]. intros x Hin Hk'. apply (Hx x Hk'). set_solver. Qed.

Lemma v2_unit_step_ok atom_ids units s u s' :
  shape_of atom_ids units s → v2_unit_step atom_ids s u = Ok s' → shape_of atom_ids (units ++ [u]) s'.
Proof.
  intros [Hu [Hi1 Hi2] (Hp1 & Hp2 & Hp3) (Hb1 & Hb2 & Hb3) [Hd1 Hd2] [Hm1 Hm2]] H. unfold v2_unit_step in H.
  apply bind_ok in H as (? & Hid%authority_text_ok & H). apply guard_ok in H as [_ H]. apply guard_ok in H as [Hnew H].
  apply bind_ok in H as (? & Htext%v2_unit_text_ok & H). apply bind_ok in H as (? & _ & H).
  apply bind_ok in H as (tp & Htp%ok_or_ok & H). apply checked_add_some in Htp as [-> _].
  apply bind_ok in H as (pids & Hproofs%v2_proofs_ok & H). apply bind_ok in H as (? & _ & H). apply guard_ok in H as [_ H].
  apply bind_ok in H as (tb & Htb%ok_or_ok & H). apply checked_add_some in Htb as [-> _].
  apply bind_ok in H as (bs & Hbs%v2_bindings_ok & H). apply bind_ok in H as (ms & Hms%v2_manifest_ok & H). injection H as <-.
  destruct Hproofs as (Hps & Hpn & ->). destruct Hbs as (Hbf & Hbn & Hdn & ->). cbn [fst snd] in *. to_prop.
  assert (map_proofs (units ++ [u]) = map_proofs units ++ u2_package_proofs u) as Ep
    by (unfold map_proofs; rewrite bind_app; cbn; by rewrite app_nil_r).
  assert (map_bindings (units ++ [u]) = map_bindings units ++ u2_vendor_bindings u) as Eb
    by (unfold map_bindings; rewrite bind_app; cbn; by rewrite app_nil_r).
  assert (map_manifests (units ++ [u]) = map_manifests units ++
    match u2_provenance_manifest_destination u with Some p => [p] | None => [] end) as Em
    by (unfold map_manifests; rewrite omap_app; cbn; by destruct (u2_provenance_manifest_destination u)).
  constructor; rewrite ?Ep, ?Eb, ?Em, ?map_app; cbn [sh_unit_ids sh_proof_ids sh_binding_ids sh_destinations sh_manifests
    sh_total_proofs sh_total_bindings map].
  - intros v [Hv|Hv%list_elem_of_singleton]%elem_of_app; [by apply Hu|subst v].
    destruct Htext as (H1 & H2 & H3 & H4 & H5 & H6). constructor; try done.
    + intros p Hp. by apply Hps.
    + split; [intros b Hb; by apply Hbf|]. intros p Hp. rewrite Hp in Hms. by destruct Hms.
  - split; [rewrite list_to_set_app_L, Hi1; cbn; set_solver|].
    eapply NoDup_app_fresh; [done|done|by apply NoDup_singleton|]. set_solver.
  - split_and!; [rewrite list_to_set_app_L, Hp1; set_solver| |by rewrite zlen_app, Hp3].
    eapply NoDup_app_fresh; [done..|]. intros y (p & -> & Hp)%list_elem_of_fmap. by apply Hps.
  - split_and!; [rewrite list_to_set_app_L, Hb1; set_solver| |by rewrite zlen_app, Hb3].
    eapply NoDup_app_fresh; [done..|]. intros y (b & -> & Hb)%list_elem_of_fmap. by apply Hbf.
  - split; [rewrite list_to_set_app_L, Hd1; set_solver|].
    eapply NoDup_app_fresh; [done..|]. intros y (b & -> & Hb)%list_elem_of_fmap. by apply Hbf.
  - destruct (u2_provenance_manifest_destination u) as [p|]; [|by rewrite app_nil_r, Hms].
    destruct Hms as (_ & Hp & ->). split; [rewrite list_to_set_app_L, Hm1; cbn; set_solver|].
    eapply NoDup_app_fresh; [done|done|by apply NoDup_singleton|]. set_solver.
Qed.

Lemma v2_units_ok atom_ids units s : fold_res (v2_unit_step atom_ids) shape_start units = Ok s → shape_of atom_ids units s.
Proof.
  apply (fold_res_inv _ (shape_of atom_ids)).
  - constructor; cbn; repeat split; try done; try set_solver; constructor.
  - intros pre u s0 s1 Hs _ H. by eapply v2_unit_step_ok.
Qed.

(** *** Ownership *)

(** Files of different units do not collide. *)
Definition cross_apart (files : list owned_path) : Prop :=
  ∀ o p o' q, (o, p) ∈ files → (o', q) ∈ files → o ≠ o' → apart p q.

Lemma claim_file_ok core u files file out : claim_file core u files file = Ok out →
  out = files ++ [(u2_id u, file)] ∧ (cross_apart files → cross_apart out).
Proof.
  unfold claim_file. intros H. apply bind_ok in H as (? & Hall & H).
  destruct (owned_by_other core u file); [done|]. injection H as <-. split; [done|].
  rewrite for_each_ok, Forall_forall in Hall.
  assert (∀ o p, (o, p) ∈ files → o ≠ u2_id u → apart file p) as Hnew.
  { intros o p Hin Hne. specialize (Hall _ Hin). cbn in Hall. rewrite bool_decide_false in Hall by done.
    destruct (file =s p); [by destruct (owned_by_other core u file)|]. unfold apart. by destruct (path_authority_collides file p). }
  intros Hc o p o' q [H1|H1%list_elem_of_singleton]%elem_of_app [H2|H2%list_elem_of_singleton]%elem_of_app Hne; simplify_eq.
  - by eapply (Hc o p o' q).
  - apply apart_sym. by eapply Hnew.
  - by eapply Hnew.
Qed.

Lemma claim_files_ok core u l files out : fold_res (claim_file core u) files l = Ok out →
  out = files ++ map (λ file, (u2_id u, file)) l ∧ (cross_apart files → cross_apart out).
Proof.
  revert files. induction l as [|f l IH]; intros files; cbn [fold_res map].
  { intros [= <-]. by rewrite app_nil_r. }
  destruct (claim_file core u files f) as [files'|] eqn:Hf; [|done]. intros [-> Hout]%IH.
  apply claim_file_ok in Hf as [-> Hc]. rewrite <- app_assoc in *. split; [done|auto].
Qed.

Definition v2_owner_files (units : list PlanUnitV2) : list owned_path :=
  units ≫= λ u, map (λ file, (u2_id u, file)) (u2_files u).

Lemma claim_units_ok core units out : fold_res (claim_unit core) [] units = Ok out →
  out = v2_owner_files units ∧ cross_apart out.
Proof.
  apply (fold_res_inv _ (λ done acc, acc = v2_owner_files done ∧ cross_apart acc)).
  - split; [done|]. intros o p o' q H. set_solver.
  - intros pre u s s' [-> Hc] _ H. apply claim_files_ok in H as [-> H]. split; [|auto].
    unfold v2_owner_files. rewrite bind_app. cbn. by rewrite app_nil_r.
Qed.

(** The paths of a map are kept apart. *)
Record topology_sound (units : list PlanUnitV2) : Prop := {
  tp_owners : cross_apart (v2_owner_files units);
  tp_generated : all_apart (v2_generated units).*2;
  tp_generated_apart : ∀ g p, g ∈ (v2_generated units).*2 →
    p ∈ (v2_owner_files units ++ v2_destinations units ++ v2_manifests units ++ v2_origins units).*2 → apart g p;
  tp_destinations : ∀ d p, d ∈ (v2_destinations units).*2 → p ∈ (v2_origins units ++ v2_manifests units).*2 → apart d p;
  tp_destination_pair : ∀ d d', d ∈ (v2_destinations units).*2 → d' ∈ (v2_destinations units).*2 → d ≠ d' → apart d d';
  tp_manifests : ∀ p o, p ∈ (v2_manifests units).*2 → o ∈ (v2_origins units).*2 → apart p o;
}.

Lemma rejects_apart (l others : list owned_path) msg :
  Forall (λ x, (let '(_, p) := x in reject_collisions p others (msg p)) = Ok tt) l →
  ∀ p q, p ∈ l.*2 → q ∈ others.*2 → apart p q.
Proof.
  intros H p q ([o p'] & -> & Hp)%list_elem_of_fmap Hq. rewrite Forall_forall in H. specialize (H _ Hp). cbn in H.
  apply reject_collisions_ok in H. rewrite Forall_forall in H. by apply H.
Qed.

Lemma topology_ok m u : validate_work_map_v2_raw_ownership_and_topology m = Ok u → topology_sound (m2_units m).
Proof.
  unfold validate_work_map_v2_raw_ownership_and_topology. intros H.
  apply bind_ok in H as (files & Hf%claim_units_ok & H). destruct Hf as [-> Hc].
  apply bind_ok in H as (? & Hg%check_generated_ok & H). destruct Hg as [Hga Hgo].
  apply bind_ok in H as (? & Hd & H). apply bind_ok in H as (? & Hm & H). destruct u.
  rewrite for_each_ok in Hd. rewrite for_each_ok in Hm. rewrite for_each_ok in H.
  pose proof (rejects_apart _ _ (λ p protected, _) H) as Hprot. pose proof (rejects_apart _ _ (λ p origin, _) Hm) as Hman.
  rewrite Forall_forall in Hd.
  assert (∀ d, d ∈ (v2_destinations (m2_units m)).*2 → (∀ p, p ∈ (v2_origins (m2_units m) ++ v2_manifests (m2_units m)).*2 → apart d p) ∧
    ∀ d', d' ∈ (v2_destinations (m2_units m)).*2 → d ≠ d' → apart d d') as Hdest.
  { intros d ([o d1] & -> & Hin)%list_elem_of_fmap. specialize (Hd _ Hin). cbn in Hd.
    apply bind_ok in Hd as (? & H1%reject_collisions_ok & Hd). apply bind_ok in Hd as (? & H2 & H3%reject_collisions_ok).
    rewrite Forall_forall in H1, H3. rewrite for_each_ok, Forall_forall in H2. split.
    - intros p. rewrite fmap_app. intros [Hp|Hp]%elem_of_app; [by apply H1|by apply H3].
    - intros d' ([o' d2] & -> & Hin')%list_elem_of_fmap Hne. specialize (H2 _ Hin'). cbn in *.
      rewrite bool_decide_false in H2 by done. unfold apart. by destruct (path_authority_collides d1 d2). }
  constructor; [done|done| | | |done].
  - intros g p Hgen. rewrite fmap_app. intros [Hp|Hp]%elem_of_app; [by apply Hgo|by apply Hprot].
  - intros d p Hin. by apply Hdest.
  - intros d d' Hin. by apply Hdest.
Qed.

(** *** The whole *)

Record map_v2_sound (atom_ids : gset string) (m : WorkMapV2) : Prop := {
  ms_count : 1 ≤ zlen (m2_units m) ≤ 256;
  ms_units : ∀ u, u ∈ m2_units m → unit_v2_sound atom_ids u;
  ms_ids : NoDup (map u2_id (m2_units m));
  ms_proofs : NoDup (map up_proof_id (map_proofs (m2_units m))) ∧ zlen (map_proofs (m2_units m)) ≤ 256;
  ms_bindings : NoDup (map ub_binding_id (map_bindings (m2_units m))) ∧ zlen (map_bindings (m2_units m)) ≤ 128;
  ms_destinations : NoDup (map ub_destination (map_bindings (m2_units m)));
  ms_manifests : NoDup (map_manifests (m2_units m));
  ms_known : ∀ a b, v2_depends (m2_units m) a b → b ∈ map u2_id (m2_units m);
  ms_acyclic : ∀ id, ¬ tc (v2_depends (m2_units m)) id id;
  ms_topology : topology_sound (m2_units m);
}.

Lemma shape_tables_ok m atom_ids s : v2_shape_tables m atom_ids = Ok s →
  1 ≤ zlen (m2_units m) ≤ 256 ∧ shape_of atom_ids (m2_units m) s ∧ sh_total_proofs s ≤ 256 ∧ sh_total_bindings s ≤ 128.
Proof.
  unfold v2_shape_tables. intros H. apply bind_ok in H as (? & _ & H). apply guard_ok in H as [Hc H].
  apply bind_ok in H as (s' & Hs%v2_units_ok & H). apply guard_ok in H as [Hp H]. apply bind_ok in H as (? & _ & H).
  apply guard_ok in H as [Hb H]. injection H as <-. to_prop.
  unfold WORK_MAP_V2_MAX_UNITS, APPROVED_PACKAGE_PROOFS_V2_MAX, APPROVED_VENDOR_BINDINGS_V2_MAX in *. done.
Qed.

Lemma shape_ends m atom_ids : ∃ r, validate_work_map_v2_shape m atom_ids = Some r.
Proof.
  unfold validate_work_map_v2_shape. destruct (v2_shape_tables m atom_ids) as [s|e] eqn:Hs; [|by eexists].
  apply shape_tables_ok in Hs as (_ & [_ [-> Hn] _ _ _ _] & _).
  destruct (v2_graph_exact m Hn) as (r & -> & _). destruct r; by eexists.
Qed.

Lemma shape_ok m atom_ids : validate_work_map_v2_shape m atom_ids = Some (Ok tt) → map_v2_sound atom_ids m.
Proof.
  unfold validate_work_map_v2_shape. destruct (v2_shape_tables m atom_ids) as [s|e] eqn:Hs; [|done].
  apply shape_tables_ok in Hs as (Hc & [Hu [-> Hn] (_ & Hp & Htp) (_ & Hb & Htb) [_ Hd] [_ Hm]] & H1 & H2).
  destruct (v2_graph_exact m Hn) as (r & -> & Hr). destruct r as [[]|]; [|done]. destruct (proj1 Hr eq_refl) as [Hk Ha].
  intros [= Ht%topology_ok]. constructor; try done; split; congruence || lia || done.
Qed.

(** The check of the shape of a map always ends.  A map that passes has at most
    256 units with distinct ids whose dependencies are units and have no cycle;
    every unit owns exact files, declares commands with a closed effect, links
    to atoms of the registry and has proofs about its criteria; vendored
    destinations and manifests are files of their unit; and files of different
    units, generated paths, destinations, manifests and origins are apart. *)
Theorem shape_sound (m : WorkMapV2) (atom_ids : gset string) :
  (∃ r, validate_work_map_v2_shape m atom_ids = Some r) ∧
  (validate_work_map_v2_shape m atom_ids = Some (Ok tt) → map_v2_sound atom_ids m).
Proof. split; [apply shape_ends|apply shape_ok]. Qed.

(** ** Conversion *)

(** The approved unit of a unit *)
Definition approved_of (index : Z) (u : PlanUnitV2) : ApprovedUnit :=
  let criteria := map (λ e, criterion_id_of (u2_id u) (e.1 + 1)) (enumerate (u2_criteria u)) in
  {| au_id := u2_id u; au_kind := u2_kind u; au_objective := u2_objective u; au_operator_order := index + 1;
     au_decisions := u2_links u; au_criteria := criteria;
     au_criterion_text := zip_with (λ id text, {| ac_id := id; ac_text := text |}) criteria (u2_criteria u);
     au_dependencies := u2_depends_on u;
     au_predecessor_forward_criteria := map (λ dependency, "unit-complete:" +:+ dependency) (u2_depends_on u);
     au_downstream_release_edges := ["unit:" +:+ u2_id u]; au_files := u2_files u; au_commands := u2_commands u;
     au_package_checks := [] |}.

Lemma v2_approved_unit_ok atom_ids index u :
  unit_v2_sound atom_ids u → 0 ≤ index < 256 → v2_approved_unit (index, u) = Ok (approved_of index u).
Proof.
  intros [] Hi. unfold v2_approved_unit.
  assert (∀ l label, Forall (id_ok 256) l → for_each (λ id, validate_work_map_v2_id id label) l = Ok tt) as Hids.
  { intros l label Hl. apply for_each_ok. eapply Forall_impl; [exact Hl|]. intros id Hid. by apply authority_text_ok. }
  rewrite Hids; cbn [mbind result_mbind result_bind].
  - rewrite Hids; cbn [mbind result_mbind result_bind].
    + assert (index + 1 <=? u32_max = true) as -> by (unfold u32_max; lia). done.
    + apply Forall_fmap, Forall_forall. intros [k c] Hk. apply elem_of_enumerate in Hk as (j & -> & Hj). cbn.
      apply derived_ids_ok; [done|]. apply lookup_lt_Some in Hj. unfold zlen in *. lia.
  - apply Forall_app. split; [|constructor; [by apply (derived_ids_ok _ 0)|constructor]].
    apply Forall_fmap, Forall_forall. intros d Hd. apply (derived_ids_ok d 0); [by apply v2_dependencies0|lia].
Qed.

Lemma approved_units_ok atom_ids m : map_v2_sound atom_ids m →
  approved_units_from_work_map_v2 m = Ok (map (λ e, approved_of e.1 e.2) (enumerate (m2_units m))).
Proof.
  intros Hm. apply collect_res_ok, Forall2_fmap_r, Forall_Forall2_diag, Forall_forall. intros [i u] Hin.
  apply elem_of_enumerate in Hin as (k & -> & Hk). cbn. eapply v2_approved_unit_ok.
  - apply (ms_units _ _ Hm). by eapply list_elem_of_lookup_2.
  - apply lookup_lt_Some in Hk. pose proof (ms_count _ _ Hm). unfold zlen in *. lia.
Qed.

(** Sorting without duplicates gives the strict order that is checked. *)
Lemma sorted_windows {A} (cmp : A → A → comparison) (ge : A → A → bool) l :
  (∀ x y, cmp x y ≠ Gt → x ≠ y → ge x y = false) → NoDup l → StronglySorted (cmp_le cmp) l → windows_any ge l = false.
Proof.
  intros Hge. induction l as [|x l IH]; intros Hn Hs; [done|].
  apply NoDup_cons in Hn as [Hx Hn]. apply StronglySorted_inv in Hs as [Hs Hall].
  destruct l as [|y l]; [done|]. change (ge x y || windows_any ge (y :: l) = false). rewrite IH by done. rewrite orb_false_r.
  apply Hge; [by apply Forall_cons in Hall as [? _]|]. set_solver.
Qed.

Lemma bytes_ge_false x y : String.compare x y ≠ Gt → x ≠ y → bytes_ge x y = false.
Proof.
  intros Hle Hne. unfold bytes_ge. destruct (String.compare x y) eqn:E; [|done|done].
  apply String.compare_eq_iff in E. done.
Qed.

Lemma windows_any_map {A B} (g : A → B) (f : B → B → bool) l :
  windows_any (λ a b, f (g a) (g b)) l = windows_any f (map g l).
Proof.
  induction l as [|x l IH]; [done|]. destruct l as [|y l]; [done|].
  change (f (g x) (g y) || windows_any (λ a b, f (g a) (g b)) (y :: l) = f (g x) (g y) || windows_any f (map g (y :: l))).
  by rewrite IH.
Qed.

Lemma sorted_strings l : NoDup l → windows_any bytes_ge (sort_by String.compare l) = false.
Proof.
  intros Hn. eapply sorted_windows; [apply bytes_ge_false| |apply sort_by_sorted; apply _]. by rewrite sort_by_perm.
Qed.
Lemma sorted_ordinals l : NoDup l → windows_any (λ a b, b <=? a) (sort_by Z.compare l) = false.
Proof.
  intros Hn. eapply (sorted_windows Z.compare); [| |apply sort_by_sorted; apply _].
  - intros x y Hle Hne. apply Z.leb_gt. destruct (Z.compare_spec x y); [done|done|done].
  - by rewrite sort_by_perm.
Qed.

Lemma sorted_on_keys {A} (key : A → string) l :
  StronglySorted (cmp_le (cmp_on key String.compare)) l → StronglySorted (cmp_le String.compare) (map key l).
Proof. induction 1 as [|x l Hs IH Hall]; cbn; constructor; [done|]. by apply Forall_fmap. Qed.

Lemma sorted_keys {A} (key : A → string) l : NoDup (map key l) →
  windows_any (λ a b, bytes_ge (key a) (key b)) (sort_by (cmp_on key String.compare) l) = false.
Proof.
  intros Hn. rewrite windows_any_map. eapply sorted_windows; [apply bytes_ge_false| |].
  - assert (map key (sort_by (cmp_on key String.compare) l) ≡ₚ map key l) as -> by (apply Permutation_map, sort_by_perm). done.
  - apply sorted_on_keys, sort_by_sorted. apply _.
Qed.

Lemma NoDup_bind_part {A B} (f : A → list B) l x : NoDup (l ≫= f) → x ∈ l → NoDup (f x).
Proof.
  intros Hn Hx. apply list_elem_of_split in Hx as (l1 & l2 & ->). rewrite bind_app, bind_cons in Hn.
  apply NoDup_app in Hn as (_ & _ & Hn). by apply NoDup_app in Hn as (Hn & _ & _).
Qed.

(** The rows of a unit are in the order that the approved authority asks for. *)
Lemma package_row_canonical atom_ids u : unit_v2_sound atom_ids u → NoDup (map up_proof_id (u2_package_proofs u)) →
  validate_canonical_path_order (pa_package_scope_files (v2_package_row u)) "package scope files" = Ok tt ∧
  validate_canonical_proof_order (pa_package_proofs (v2_package_row u)) = Ok tt.
Proof.
  intros Hu Hn. split.
  - unfold validate_canonical_path_order. cbn. rewrite sorted_strings; [done|]. by apply (v2_scope _ _ Hu).
  - unfold validate_canonical_proof_order. cbn [v2_package_row pa_package_proofs].
    rewrite windows_any_map, map_map. cbn [pp_proof_id].
    rewrite <- (windows_any_map pp_proof_id bytes_ge), sorted_keys by by rewrite map_map.
    apply for_each_ok, Forall_forall. intros p (q & -> & Hq)%list_elem_of_fmap.
    apply elem_of_sort_by, list_elem_of_fmap in Hq as (r & -> & Hr).
    cbn [pp_proof_id pp_criterion_ordinals pp_vendor_binding_ids].
    destruct (v2_proofs _ _ Hu r Hr). by rewrite sorted_ordinals, sorted_strings by naive_solver.
Qed.

Lemma vendoring_row_canonical u : StronglySorted (λ a b, triple_gt a b = false) (uv_vendor_bindings (v2_vendoring_row u)).
Proof.
  assert (∀ a b, cmp_le binding_order a b → triple_gt a b = false) as Himp.
  { intros a b Hab. unfold triple_gt. unfold cmp_le, binding_order, cmp_then, cmp_on in Hab. by destruct (then_with _ _). }
  cbn [v2_vendoring_row uv_vendor_bindings].
  induction (sort_by_sorted binding_order (map (λ binding, {| vb_binding_id := ub_binding_id binding;
    vb_origin_path := ub_origin_path binding; vb_destination := ub_destination binding |}) (u2_vendor_bindings u)))
    as [|b l _ IH Hall]; constructor; [done|]. eapply Forall_impl; [exact Hall|]. intros c. apply Himp.
Qed.

(** C21. A map of good shape is always converted: every derived id fits its limit,
    each unit becomes the approved unit of its position, and the rows of
    vendored files and proofs come out in the canonical order that approved
    authority has to have. *)
Theorem conversion_total (atom_ids : gset string) (m : WorkMapV2) :
  validate_work_map_v2_shape m atom_ids = Some (Ok tt) →
  approved_units_from_work_map_v2 m = Ok (map (λ e, approved_of e.1 e.2) (enumerate (m2_units m))) ∧
  (∀ row, row ∈ package_authority_from_work_map_v2 m →
     validate_canonical_path_order (pa_package_scope_files row) "package scope files" = Ok tt ∧
     validate_canonical_proof_order (pa_package_proofs row) = Ok tt) ∧
  ∀ row, row ∈ vendoring_from_work_map_v2 m → StronglySorted (λ a b, triple_gt a b = false) (uv_vendor_bindings row).
Proof.
  intros Hm%shape_ok. split_and!; [by eapply approved_units_ok| |].
  - intros row (u & -> & Hu)%list_elem_of_fmap. eapply package_row_canonical; [by apply (ms_units _ _ Hm)|].
    destruct (ms_proofs _ _ Hm) as [Hn _].
    assert (map up_proof_id (map_proofs (m2_units m)) = m2_units m ≫= λ u, map up_proof_id (u2_package_proofs u)) as Heq.
    { unfold map_proofs. clear. induction (m2_units m) as [|u l IH]; [done|]. by rewrite !bind_cons, map_app, IH. }
    rewrite Heq in Hn. by eapply (NoDup_bind_part (λ u, map up_proof_id (u2_package_proofs u))).
  - intros row (u & -> & Hu)%list_elem_of_fmap. apply vendoring_row_canonical.
Qed.

(** ** A map *)

Module MapSample.

Definition sample_unit (id : Id) (depends_on : list Id) (files : list Path) (generated : list Path) : PlanUnitV2 :=
  {| u2_id := id; u2_kind := Implementation; u2_objective := "implement"; u2_criteria := ["it works"];
     u2_depends_on := depends_on; u2_files := files; u2_package_scope_files := []; u2_commands := [v2_command generated];
     u2_package_proofs := []; u2_vendor_bindings := []; u2_provenance_manifest_destination := None; u2_links := ["A1"] |}.

Definition vendor_unit : PlanUnitV2 :=
  {| u2_id := "U1"; u2_kind := Implementation; u2_objective := "vendor the parser"; u2_criteria := ["it is copied"];
     u2_depends_on := []; u2_files := ["vendor/a.c"; "vendor/PROVENANCE"]; u2_package_scope_files := [];
     u2_commands := [v2_command []]; u2_package_proofs := [];
     u2_vendor_bindings := [{| ub_binding_id := "B1"; ub_origin_path := "third_party/a.c"; ub_destination := "vendor/a.c" |}];
     u2_provenance_manifest_destination := Some "vendor/PROVENANCE"; u2_links := ["A1"] |}.

Definition closure_unit : PlanUnitV2 :=
  {| u2_id := "U2"; u2_kind := Implementation; u2_objective := "use the parser"; u2_criteria := ["it is used"];
     u2_depends_on := ["U1"]; u2_files := ["src/lib.rs"];
     u2_package_scope_files := ["vendor/a.c"; "src/lib.rs"; "vendor/PROVENANCE"]; u2_commands := [v2_command ["out/report"]];
     u2_package_proofs := [{| up_proof_id := "P1"; up_kind := VendoredBytesMatchOrigin; up_criterion_ordinals := [1];
                              up_expected := "bytes are equal"; up_vendor_binding_ids := ["B1"] |}];
     u2_vendor_bindings := []; u2_provenance_manifest_destination := None; u2_links := ["A1"] |}.

Definition sample_map : WorkMapV2 :=
  {| m2_schema := "planning.work-map.v2"; m2_units := [vendor_unit; closure_unit]; m2_recovery := None |}.

(** Two units that wait for each other are refused. *)
Example cycle_refused :
  validate_work_map_v2_shape
    {| m2_schema := m2_schema sample_map; m2_units := [sample_unit "U1" ["U2"] ["a"] []; sample_unit "U2" ["U1"] ["b"] []];
       m2_recovery := None |} {["A1"]} = Some (Err (v2_cycle_message "U1")).
Proof. vm_compute. reflexivity. Qed.

(** What is converted passes the checks of approved authority. *)
Example sample_approved :
  match approved_units_from_work_map_v2 sample_map with
  | Ok units => validate_approved_v2_authority units (vendoring_from_work_map_v2 sample_map)
                  (package_authority_from_work_map_v2 sample_map)
  | Err e => Some (Err e)
  end = Some (Ok tt).
Proof. vm_compute. reflexivity. Qed.

Lemma conversion_total_witness :
  validate_work_map_v2_shape sample_map {["A1"]} = Some (Ok tt) ∧ ∃ units, approved_units_from_work_map_v2 sample_map = Ok units.
Proof.
  split; [vm_compute; reflexivity|].
  destruct (conversion_total {["A1"]} sample_map) as [-> _]; [vm_compute; reflexivity|]. by eexists.
Defined.

End MapSample.
