(* ===== verification/AgentSpec.v ===== *)
(** * Specifications of agent runs

    The record a parent writes for a child agent ([kernel/src/generated/mod.rs]),
    in the two versions the program has, and the parts of
    [drivers/src/runner/mod.rs] and [runner/child.rs] that choose the terminal
    route of a role, derive the paths of an assignment and bind a carrier to
    its specification. *)

From S2P Require Import Prelude RustColl RustStr Paths Generated Roles ContextPolicy Prompt Planning AuthorityFiles.

(** ** Records *)

Inductive ValidationAssignmentKind := Delivery | PlanningReview | Validation.
Inductive SessionContinuity := Fresh | Resume.
Inductive AdmissionMode := ReceiptV1 | ReplayV0.
#[global] Instance ValidationAssignmentKind_eq_dec : EqDecision ValidationAssignmentKind.
Proof. solve_decision. Defined.
#[global] Instance SessionContinuity_eq_dec : EqDecision SessionContinuity.
Proof. solve_decision. Defined.
#[global] Instance TerminalRoute_eq_dec : EqDecision TerminalRoute.
Proof. solve_decision. Defined.

(** [TaskDocument] of the contracts *)
Record SpecDocument := {
  sd_path : Path; sd_class : string; sd_digest : string; sd_body_digest : string; sd_body : string }.

Record AgentRunSpec := {
  as_schema : string; as_assignment_kind : ValidationAssignmentKind; as_action_id : Id; as_assignment_id : Id;
  as_run_id : Id; as_run_revision : Z; as_workstream : Id; as_role_id : Id; as_mode : string; as_provider : string;
  as_model : string; as_thinking : string; as_route : string; as_cwd : Path; as_allowed_tools : list string;
  as_spec_path : Path; as_prompt_path : Path; as_prompt_digest : string; as_boundary_id : string;
  as_boundary_digest : string; as_result_contract : string; as_result_contract_digest : string;
  as_carrier_path : Path; as_session_id : Id; as_session_dir : Path; as_session_continuity : SessionContinuity;
  as_settings_digest : string; as_context_digest : string; as_skills_digest : string;
  as_subscription_digest : string; as_lane_id : option Id; as_attempt : option Z; as_base_commit : option string;
  as_worktree : option Path; as_required_focused_evidence : option Z; as_authority_set_id : option string;
  as_authority_documents : option (list SpecDocument); as_context_document : option SpecDocument;
  as_context_documents : option (list SpecDocument); as_assignment_path : option Path;
  as_assignment_digest : option string; as_context_manifest_path : option Path;
  as_context_manifest_digest : option string; as_runtime_extension_path : option Path;
  as_runtime_extension_digest : option string; as_terminal_profile_id : option string;
  as_terminal_route : option TerminalRoute; as_unavailable_tools : option (list string);
  as_producer_assignment_ids : option (list Id); as_validation_id : option Id; as_validation_attempt : option Z;
  as_semantic_round : option Z; as_model_submission_path : option Path; as_atom_id_prefix : option string;
  as_atom_registry_path : option Path; as_atom_registry_digest : option string;
  as_planning_inputs_path : option Path; as_planning_inputs_digest : option string }.

Record AgentRunSpecV5 := {
  v5_schema : string; v5_admission_mode : AdmissionMode; v5_required_pi_version : string;
  v5_child_control_socket_path : Path; v5_child_control_token : string; v5_child_control_token_digest : string;
  v5_assignment_kind : ValidationAssignmentKind; v5_action_id : Id; v5_assignment_id : Id; v5_run_id : Id;
  v5_run_revision : Z; v5_workstream : Id; v5_role_id : Id; v5_mode : string; v5_provider : string;
  v5_model : string; v5_thinking : string; v5_route : string; v5_cwd : Path; v5_allowed_tools : list string;
  v5_spec_path : Path; v5_prompt_path : Path; v5_prompt_digest : string; v5_boundary_id : string;
  v5_boundary_digest : string; v5_result_contract : string; v5_result_contract_digest : string;
  v5_carrier_path : Path; v5_session_id : Id; v5_session_dir : Path; v5_session_continuity : SessionContinuity;
  v5_settings_digest : string; v5_context_digest : string; v5_skills_digest : string;
  v5_subscription_digest : string; v5_lane_id : option Id; v5_attempt : option Z; v5_base_commit : option string;
  v5_worktree : option Path; v5_required_focused_evidence : option Z; v5_authority_set_id : option string;
  v5_authority_documents : option (list SpecDocument); v5_context_document : option SpecDocument;
  v5_context_documents : option (list SpecDocument); v5_assignment_path : option Path;
  v5_assignment_digest : option string; v5_context_manifest_path : option Path;
  v5_context_manifest_digest : option string; v5_runtime_extension_path : option Path;
  v5_runtime_extension_digest : option string; v5_terminal_profile_id : option string;
  v5_terminal_route : option TerminalRoute; v5_unavailable_tools : option (list string);
  v5_producer_assignment_ids : option (list Id); v5_validation_id : option Id; v5_validation_attempt : option Z;
  v5_semantic_round : option Z; v5_model_submission_path : option Path; v5_atom_id_prefix : option string;
  v5_atom_registry_path : option Path; v5_atom_registry_digest : option string;
  v5_planning_inputs_path : option Path; v5_planning_inputs_digest : option string }.

(** ** Version 5 as version 4 *)

Definition v5_shared_validator_facade (facade : AgentRunSpec) : AgentRunSpec :=
  match as_assignment_kind facade with
  | PlanningReview =>
  {| as_schema := as_schema facade; as_assignment_kind := as_assignment_kind facade;
     as_action_id := as_action_id facade; as_assignment_id := as_assignment_id facade;
     as_run_id := as_run_id facade; as_run_revision := as_run_revision facade;
     as_workstream := as_workstream facade; as_role_id := as_role_id facade; as_mode := as_mode facade;
     as_provider := as_provider facade; as_model := as_model facade; as_thinking := as_thinking facade;
     as_route := as_route facade; as_cwd := as_cwd facade; as_allowed_tools := as_allowed_tools facade;
     as_spec_path := as_spec_path facade; as_prompt_path := as_prompt_path facade;
     as_prompt_digest := as_prompt_digest facade; as_boundary_id := as_boundary_id facade;
     as_boundary_digest := as_boundary_digest facade; as_result_contract := as_result_contract facade;
     as_result_contract_digest := as_result_contract_digest facade; as_carrier_path := as_carrier_path facade;
     as_session_id := as_session_id facade; as_session_dir := as_session_dir facade;
     as_session_continuity := as_session_continuity facade; as_settings_digest := as_settings_digest facade;
     as_context_digest := as_context_digest facade; as_skills_digest := as_skills_digest facade;
     as_subscription_digest := as_subscription_digest facade; as_lane_id := as_lane_id facade; as_attempt := None;
     as_base_commit := as_base_commit facade; as_worktree := as_worktree facade;
     as_required_focused_evidence := as_required_focused_evidence facade;
     as_authority_set_id := as_authority_set_id facade; as_authority_documents := as_authority_documents facade;
     as_context_document := as_context_document facade; as_context_documents := as_context_documents facade;
     as_assignment_path := as_assignment_path facade; as_assignment_digest := as_assignment_digest facade;
     as_context_manifest_path := as_context_manifest_path facade;
     as_context_manifest_digest := as_context_manifest_digest facade;
     as_runtime_extension_path := as_runtime_extension_path facade;
     as_runtime_extension_digest := as_runtime_extension_digest facade;
     as_terminal_profile_id := as_terminal_profile_id facade; as_terminal_route := as_terminal_route facade;
     as_unavailable_tools := as_unavailable_tools facade;
     as_producer_assignment_ids := as_producer_assignment_ids facade; as_validation_id := as_validation_id facade;
     as_validation_attempt := as_validation_attempt facade; as_semantic_round := as_semantic_round facade;
     as_model_submission_path := as_model_submission_path facade; as_atom_id_prefix := as_atom_id_prefix facade;
     as_atom_registry_path := as_atom_registry_path facade;
     as_atom_registry_digest := as_atom_registry_digest facade;
     as_planning_inputs_path := as_planning_inputs_path facade;
     as_planning_inputs_digest := as_planning_inputs_digest facade |}
  | _ => facade
  end.

Definition project_v5_spec_for_shared_admission (spec : AgentRunSpecV5) : AgentRunSpec :=
  v5_shared_validator_facade
  {| as_schema := "autopilot.agent_run_spec.v4"; as_assignment_kind := v5_assignment_kind spec;
     as_action_id := v5_action_id spec; as_assignment_id := v5_assignment_id spec; as_run_id := v5_run_id spec;
     as_run_revision := v5_run_revision spec; as_workstream := v5_workstream spec; as_role_id := v5_role_id spec;
     as_mode := v5_mode spec; as_provider := v5_provider spec; as_model := v5_model spec;
     as_thinking := v5_thinking spec; as_route := v5_route spec; as_cwd := v5_cwd spec;
     as_allowed_tools := v5_allowed_tools spec; as_spec_path := v5_spec_path spec;
     as_prompt_path := v5_prompt_path spec; as_prompt_digest := v5_prompt_digest spec;
     as_boundary_id := v5_boundary_id spec; as_boundary_digest := v5_boundary_digest spec;
     as_result_contract := v5_result_contract spec; as_result_contract_digest := v5_result_contract_digest spec;
     as_carrier_path := v5_carrier_path spec; as_session_id := v5_session_id spec;
     as_session_dir := v5_session_dir spec; as_session_continuity := v5_session_continuity spec;
     as_settings_digest := v5_settings_digest spec; as_context_digest := v5_context_digest spec;
     as_skills_digest := v5_skills_digest spec; as_subscription_digest := v5_subscription_digest spec;
     as_lane_id := v5_lane_id spec; as_attempt := v5_attempt spec; as_base_commit := v5_base_commit spec;
     as_worktree := v5_worktree spec; as_required_focused_evidence := v5_required_focused_evidence spec;
     as_authority_set_id := v5_authority_set_id spec; as_authority_documents := v5_authority_documents spec;
     as_context_document := v5_context_document spec; as_context_documents := v5_context_documents spec;
     as_assignment_path := v5_assignment_path spec; as_assignment_digest := v5_assignment_digest spec;
     as_context_manifest_path := v5_context_manifest_path spec;
     as_context_manifest_digest := v5_context_manifest_digest spec;
     as_runtime_extension_path := v5_runtime_extension_path spec;
     as_runtime_extension_digest := v5_runtime_extension_digest spec;
     as_terminal_profile_id := v5_terminal_profile_id spec; as_terminal_route := v5_terminal_route spec;
     as_unavailable_tools := v5_unavailable_tools spec;
     as_producer_assignment_ids := v5_producer_assignment_ids spec; as_validation_id := v5_validation_id spec;
     as_validation_attempt := v5_validation_attempt spec; as_semantic_round := v5_semantic_round spec;
     as_model_submission_path := v5_model_submission_path spec; as_atom_id_prefix := v5_atom_id_prefix spec;
     as_atom_registry_path := v5_atom_registry_path spec; as_atom_registry_digest := v5_atom_registry_digest spec;
     as_planning_inputs_path := v5_planning_inputs_path spec;
     as_planning_inputs_digest := v5_planning_inputs_digest spec |}.

(** ** Errors of the runner *)

Definition show_runner_error (error : RunnerError) : string :=
  match error with
  | MissingTransport value => "missing runner transport fact " +:+ value
  | InvalidTransport value => "invalid runner transport fact: " +:+ value
  | Io value => "runner I/O error: " +:+ value
  | Roster value => "runner roster error: " +:+ value
  | AuthorityFiles.Route => "runner route rejected"
  | StaleCarrier value => "runner carrier refused: " +:+ value
  | InvalidSpec value => "runner spec refused: " +:+ value
  | ContextGap assignment_id tier category_id reason =>
      "runner context gap: assignment=" +:+ assignment_id +:+ "; tier=" +:+ tier +:+ "; category=" +:+ category_id +:+
      "; reason=" +:+ reason
  end.

(** ** Terminal routes *)

Definition profiles_of (tool boundary_id result_contract : string) : list TerminalProfile :=
  filter (λ row, pr_tool row = tool ∧ pr_boundary row = boundary_id ∧ pr_contract row = result_contract) TERMINAL_PROFILES.

Section Routes.
(** The [{:?}] texts of errors *)
Context (debug_policy : ContextPolicyError → string) (debug_role : RoleError → string).

Definition terminal_profile_for (role_id boundary_id result_contract : string) : result RunnerError TerminalProfile :=
  registry ← map_err (λ error, Roster (debug_role error))
               (role_package debug_policy DRIVER_TABLES_KDL ROLE_REGISTRY_KDL CONTEXT_POLICY_KDL);
  role ← map_err (λ error, Roster (debug_role error)) (role_get registry role_id);
  match profiles_of (ro_terminal_path role) boundary_id result_contract with
  | [profile] => Ok profile
  | matches =>
      Err (InvalidSpec ("role " +:+ role_id +:+ " terminal " +:+ ro_terminal_path role +:+ " resolved " +:+
                        show_uint (zlen matches) +:+ " profiles for " +:+ boundary_id +:+ "/" +:+ result_contract))
  end.

(** The three producers of version 2 work maps *)
Definition v2_producer (role_id profile_id : string) : bool :=
  ((role_id =s "plan-compiler") && (profile_id =s "planning.work-map.v2:autopilot_submit_plan_cluster")) ||
  ((role_id =s "plan-synthesizer") && (profile_id =s "planning.work-map.v2:autopilot_submit_synthesis")) ||
  ((role_id =s "recovery-engineer") && (profile_id =s "recovery-work-map.v2")).

Definition terminal_route_for (role_id boundary_id result_contract : string) : result RunnerError TerminalRoute :=
  profile ← terminal_profile_for role_id boundary_id result_contract;
  version ← (if v2_producer role_id (pr_id profile) then Ok "v2"
             else if boundary_id =s "planning.work-map.v2"
             then Err (InvalidSpec ("V2 work-map route has no exact role/profile row: " +:+ role_id +:+ "/" +:+ pr_id profile))
             else Ok "v1-legacy");
  Ok {| tr_version := version; tr_profile_id := pr_id profile; tr_tool_name := pr_tool profile;
        tr_boundary_id := pr_boundary profile; tr_result_contract := pr_contract profile;
        tr_schema_digest := pr_digest profile |}.
End Routes.

(** ** Paths of an assignment *)

Record RunnerPaths := { rp_prompt_path : path; rp_spec_path : path; rp_carrier_path : path }.

(** [Path::join] of a text *)
Definition join_text (base : path) (s : string) : path := path_join base (components s).

Definition planning_paths (cwd : path) (workstream : string) (assignment_id : Id) : RunnerPaths :=
  let base := join_text (join_text (join_text cwd ".pi/autopilot") workstream) "planning" in
  {| rp_prompt_path := join_text (join_text base "prompts") (assignment_id +:+ ".md");
     rp_spec_path := join_text (join_text base "specs") (assignment_id +:+ ".json");
     rp_carrier_path := join_text (join_text base "carriers") (assignment_id +:+ ".json") |}.

Definition delivery_paths (cwd : path) (assignment_id : Id) : RunnerPaths :=
  let base := join_text cwd ".pi/autopilot/runner" in
  {| rp_prompt_path := join_text (join_text base "prompts") (assignment_id +:+ ".md");
     rp_spec_path := join_text (join_text base "specs") (assignment_id +:+ ".json");
     rp_carrier_path := join_text (join_text base "carriers") (assignment_id +:+ ".json") |}.

Definition validation_paths (cwd : path) (workstream : string) (assignment_id : Id) : RunnerPaths :=
  let base := join_text (join_text (join_text (join_text cwd ".pi/autopilot") workstream) "validation") assignment_id in
  {| rp_prompt_path := join_text base "prompt.md"; rp_spec_path := join_text base "agent-run-spec.json";
     rp_carrier_path := join_text base "carrier.json" |}.

(** ** The binding of a carrier *)

Definition CHILD_ADDON_DIGEST : string := "e502d559b2ae7548f1de09f759bcbab9e3eea794729f38aa4a34a630fb741ab8".

Definition runtime_addon (spec : AgentRunSpec) : option (Path * string) :=
  match as_runtime_extension_path spec, as_runtime_extension_digest spec with
  | Some p, Some digest => Some (p, digest)
  | _, _ => None
  end.

Definition NUL : string := String (chr 0) "".

Definition carrier_binding (sha256 : list Z → list Z) (spec : AgentRunSpec) : string :=
  Contracts.sha256_hex sha256
    ("autopilot.tool-carrier.v2" +:+ NUL +:+ as_run_id spec +:+ NUL +:+ as_action_id spec +:+ NUL +:+
     as_assignment_id spec +:+ NUL +:+ show_uint (as_run_revision spec) +:+ NUL +:+ as_boundary_id spec +:+ NUL +:+
     as_result_contract spec +:+ NUL +:+ default "<missing>" (as_terminal_profile_id spec) +:+ NUL +:+
     from_option snd "<missing>" (runtime_addon spec) +:+ NUL +:+ as_prompt_digest spec).
