(* ===== verification/WorkMapCarrier.v ===== *)
(** * Carriers and admission of version 2 work maps

    [drivers/src/planning/work_map_v2.rs]: a work map arrives in a carrier, a
    JSON file that a child agent sealed.  The carrier is read through the
    authority files, compared with the specification of the run that made it,
    and its payload is admitted: decoded, checked in shape against the ids of
    the atom registry, compared with the map it repairs, and converted to
    approved authority.  What serde decodes is a parameter. *)

From S2P Require Import Prelude RustColl RustStr Paths Os Generated Graph Prompt Json TaskInput ModelBoundary Planning AuthorityFiles Authority Allocation Vendoring ContextPolicy Roles AgentSpec WorkMapV2.

(** ** UTF-8 *)

Definition between (a : ascii) (low high : Z) : bool := (low <=? code a) && (code a <=? high).
Definition continuation (a : ascii) : bool := between a 128 191.

Fixpoint utf8_valid (s : string) : bool :=
  match s with
  | "" => true
  | String a s1 =>
      if code a <? 128 then utf8_valid s1
      else
        match s1 with
        | "" => false
        | String b s2 =>
            if between a 194 223 then continuation b && utf8_valid s2
            else
              match s2 with
              | "" => false
              | String c s3 =>
                  if ((code a =? 224) && between b 160 191) || (between a 225 236 && continuation b)
                     || ((code a =? 237) && between b 128 159) || (between a 238 239 && continuation b)
                  then continuation c && utf8_valid s3
                  else
                    match s3 with
                    | "" => false
                    | String d s4 =>
                        (((code a =? 240) && between b 144 191) || (between a 241 243 && continuation b)
                         || ((code a =? 244) && between b 128 143))
                        && continuation c && continuation d && utf8_valid s4
                    end
              end
        end
  end.

(** ** Carriers *)

Definition WORK_MAP_V2_SOURCE_CARRIER_MAX_BYTES : Z := 2 * WORK_MAP_V2_MAX_BYTES + 64 * 1024.

Record WorkMapV2SourceCarrier := { sc_path : path; sc_bytes : string; sc_raw_work_map_payload : string }.

Record WorkMapV2SourceCarrierWire := {
  sw_schema : string; sw_boundary : string; sw_result_contract : string; sw_raw_work_map_payload : string }.

Record WorkMapV2ActualCarrierAuthority := {
  ca_action_id : string; ca_assignment_id : string; ca_run_revision : Z; ca_workstream : string; ca_role_id : string;
  ca_mode : string; ca_boundary_id : string; ca_result_contract : string; ca_prompt_path : string;
  ca_prompt_digest : string; ca_boundary_digest : string; ca_result_contract_digest : string;
  ca_settings_digest : string; ca_context_digest : string; ca_skills_digest : string; ca_subscription_digest : string;
  ca_runtime_extension_digest : string; ca_spec_path : string; ca_spec_digest : string; ca_carrier_path : string;
  ca_carrier_channel : string; ca_tool_name : string; ca_tool_schema_digest : string; ca_carrier_binding : string;
  ca_pi_version : string; ca_terminal_route : TerminalRoute; ca_atom_registry_path : string;
  ca_atom_registry_digest : string }.

Record VerifiedWorkMapV2ActualCarrier := {
  vc_source : WorkMapV2SourceCarrier; vc_authority : WorkMapV2ActualCarrierAuthority }.

(** The wire type has the fields of the authority, a schema and the payload. *)
Record WorkMapV2ActualCarrierWire := {
  cw_schema : string; cw_action_id : string; cw_assignment_id : string; cw_run_revision : Z; cw_workstream : string;
  cw_role_id : string; cw_mode : string; cw_boundary_id : string; cw_result_contract : string; cw_prompt_path : string;
  cw_prompt_digest : string; cw_boundary_digest : string; cw_result_contract_digest : string;
  cw_settings_digest : string; cw_context_digest : string; cw_skills_digest : string; cw_subscription_digest : string;
  cw_runtime_extension_digest : string; cw_spec_digest : string; cw_spec_path : string; cw_carrier_path : string;
  cw_carrier_channel : string; cw_tool_name : string; cw_tool_schema_digest : string; cw_carrier_binding : string;
  cw_pi_version : string; cw_terminal_route : TerminalRoute; cw_atom_registry_path : string;
  cw_atom_registry_digest : string; cw_raw_output : string }.

Definition authority_of_wire (wire : WorkMapV2ActualCarrierWire) : WorkMapV2ActualCarrierAuthority :=
  {| ca_action_id := cw_action_id wire; ca_assignment_id := cw_assignment_id wire;
     ca_run_revision := cw_run_revision wire; ca_workstream := cw_workstream wire; ca_role_id := cw_role_id wire;
     ca_mode := cw_mode wire; ca_boundary_id := cw_boundary_id wire; ca_result_contract := cw_result_contract wire;
     ca_prompt_path := cw_prompt_path wire; ca_prompt_digest := cw_prompt_digest wire;
     ca_boundary_digest := cw_boundary_digest wire; ca_result_contract_digest := cw_result_contract_digest wire;
     ca_settings_digest := cw_settings_digest wire; ca_context_digest := cw_context_digest wire;
     ca_skills_digest := cw_skills_digest wire; ca_subscription_digest := cw_subscription_digest wire;
     ca_runtime_extension_digest := cw_runtime_extension_digest wire; ca_spec_path := cw_spec_path wire;
     ca_spec_digest := cw_spec_digest wire; ca_carrier_path := cw_carrier_path wire;
     ca_carrier_channel := cw_carrier_channel wire; ca_tool_name := cw_tool_name wire;
     ca_tool_schema_digest := cw_tool_schema_digest wire; ca_carrier_binding := cw_carrier_binding wire;
     ca_pi_version := cw_pi_version wire; ca_terminal_route := cw_terminal_route wire;
     ca_atom_registry_path := cw_atom_registry_path wire; ca_atom_registry_digest := cw_atom_registry_digest wire |}.

(** ** Admission results *)

Record ApprovedWorkMapV2RecoverySubject := {
  rs_source_carrier_path : path; rs_source_carrier_sha256 : string; rs_source_raw_work_map_sha256 : string;
  rs_atom_registry_path : path; rs_atom_registry_digest : string;
  rs_source_actual_authority : option WorkMapV2ActualCarrierAuthority }.

Record ApprovedWorkMapV2 := {
  aw_admitted_source_map : WorkMapV2; aw_recovery_subject : option ApprovedWorkMapV2RecoverySubject;
  aw_source_carrier_path : path; aw_source_carrier_sha256 : string; aw_source_raw_work_map_sha256 : string;
  aw_source_actual_authority : option WorkMapV2ActualCarrierAuthority; aw_atom_registry_path : path;
  aw_atom_registry_digest : string; aw_units : list ApprovedUnit; aw_vendoring : list ApprovedUnitVendoringV2;
  aw_package_authority : list ApprovedUnitPackageAuthorityV2 }.

Record WorkMapV2AdmissionContext := {
  cx_atom_registry_path : path; cx_atom_registry_digest : string; cx_recovery_subject : option ApprovedWorkMapV2 }.

(** [approved.source_actual_authority = Some(authority)] *)
Definition set_actual_authority (a : ApprovedWorkMapV2) (authority : WorkMapV2ActualCarrierAuthority) : ApprovedWorkMapV2 :=
  {| aw_admitted_source_map := aw_admitted_source_map a; aw_recovery_subject := aw_recovery_subject a;
     aw_source_carrier_path := aw_source_carrier_path a; aw_source_carrier_sha256 := aw_source_carrier_sha256 a;
     aw_source_raw_work_map_sha256 := aw_source_raw_work_map_sha256 a; aw_source_actual_authority := Some authority;
     aw_atom_registry_path := aw_atom_registry_path a; aw_atom_registry_digest := aw_atom_registry_digest a;
     aw_units := aw_units a; aw_vendoring := aw_vendoring a; aw_package_authority := aw_package_authority a |}.

Definition recovery_disposition (a : ApprovedWorkMapV2) : option RecoveryDisposition :=
  r2_disposition <$> m2_recovery (aw_admitted_source_map a).

(** ** Paths and digests *)

Definition reject_artifact_path (p : path) (label : string) : result string unit :=
  if negb (is_absolute p) || any (λ component, match component with ParentDir | CurDir => true | _ => false end) p
  then Err ("work-map-v2 " +:+ label +:+ " path must be absolute and contain no parent/current component")
  else Ok tt.

(** [path.starts_with(root)] and different from it *)
Definition strictly_below (p root : path) : bool :=
  negb (bool_decide (p = root) || negb (bool_decide (is_Some (strip_path_prefix root p)))).

Definition validate_run_authority_path (p run_root : path) (label : string) : result string unit :=
  _ ← reject_artifact_path p label;
  _ ← reject_artifact_path run_root "run root";
  ensure (strictly_below p run_root) ("work-map-v2 " +:+ label +:+ " is outside the exact repository/run authority root").

(** The text of a path is that of its components: a path written with doubled
    separators has the text of the path without them. *)
Definition path_string (p : path) : result string string :=
  if utf8_valid (to_os p) then Ok (to_os p) else Err "work-map-v2 authority path is not UTF-8".

Definition lower_hex (a : ascii) : bool := is_ascii_digit a || between a 97 102.
Definition is_lower_sha256 (value : string) : bool := (str_len value =? 64) && str_all lower_hex value.

(** [path.parent().and_then(Path::parent).and_then(Path::parent)] *)
Definition grandparent (p : path) : option path := p1 ← parent p; p2 ← parent p1; parent p2.

(** [Value::get] of a key *)
Definition value_get (v : Value) (key : string) : option Value :=
  match v with VObject members => snd <$> List.find (λ m, m.1 =s key) members | _ => None end.

(** [serde_json::from_value] *)
Class FromValue (T : Type) := from_value : Value → result string T.

Section Carriers.
(** [path.display()], the digest, the texts of errors of the role registry and
    of UTF-8, and what serde makes of a text *)
Context (display : path → string) (sha256 : list Z → list Z) (debug_policy : ContextPolicyError → string)
  (debug_role : RoleError → string) (utf8_error : string → string).
Context `{Deserialize WorkMapV2SourceCarrierWire, Deserialize WorkMapV2ActualCarrierWire, Deserialize Value,
  FromValue AgentRunSpec, FromValue AgentRunSpecV5, Deserialize PlanningAtomRegistry, Deserialize WorkMapV2}.

Let sha256_hex : string → string := Contracts.sha256_hex sha256.
Let read_authority (what : string) (p : path) (max_bytes : Z) : prog string string :=
  prog_map_err (λ error, what +:+ show_runner_error error) (read_bounded_authority_file display p max_bytes).

(** ** Reading carriers *)

Definition read_work_map_v2_source_carrier (p : path) : prog string WorkMapV2SourceCarrier :=
  _ ← Ret (reject_artifact_path p "source carrier");
  bytes ← read_authority "work-map-v2 source carrier read: " p WORK_MAP_V2_SOURCE_CARRIER_MAX_BYTES;
  wire ← Ret (map_err (λ error, "work-map-v2 source carrier JSON: " +:+ error) (from_text bytes));
  if negb (sw_schema wire =s "autopilot.work_map_v2_source_carrier.v1")
     || negb (sw_boundary wire =s "planning.work-map.v2") || negb (sw_result_contract wire =s "planning.work-map.v2")
  then Ret (Err "work-map-v2 source carrier has wrong schema or route")
  else if WORK_MAP_V2_MAX_BYTES <? str_len (sw_raw_work_map_payload wire)
  then Ret (Err "work-map-v2 source carrier payload exceeds WorkMap V2 byte cap")
  else Ret (Ok {| sc_path := p; sc_bytes := bytes; sc_raw_work_map_payload := sw_raw_work_map_payload wire |}).

Definition exact_v2_terminal_route (role_id mode boundary_id result_contract : string) : result string TerminalRoute :=
  expected ← map_err (λ error, "work-map-v2 actual carrier terminal route: " +:+ show_runner_error error)
               (terminal_route_for debug_policy debug_role role_id boundary_id result_contract);
  let row r m profile := (role_id =s r) && (mode =s m) && (tr_profile_id expected =s profile) in
  if negb (row "plan-compiler" "initial-plan" "planning.work-map.v2:autopilot_submit_plan_cluster"
           || row "plan-synthesizer" "initial-plan" "planning.work-map.v2:autopilot_submit_synthesis"
           || row "recovery-engineer" "planning-repair" "recovery-work-map.v2")
  then Err "work-map-v2 actual carrier role/mode/route drift"
  else Ok expected.

Definition parse_work_map_v2_actual_carrier_bytes (p : path) (bytes : string)
  : result string (WorkMapV2SourceCarrier * WorkMapV2ActualCarrierAuthority) :=
  _ ← reject_artifact_path p "actual carrier";
  wire ← map_err (λ error, "work-map-v2 actual carrier JSON: " +:+ error) (from_text bytes);
  expected_route ← exact_v2_terminal_route (cw_role_id wire) (cw_mode wire) (cw_boundary_id wire) (cw_result_contract wire);
  if negb (cw_schema wire =s "autopilot.planning_carrier.v2")
     || negb (cw_carrier_channel wire =s "tool")
     || blank (cw_pi_version wire)
     || negb (bool_decide (cw_terminal_route wire = expected_route))
     || negb (cw_tool_name wire =s tr_tool_name expected_route)
     || negb (cw_tool_schema_digest wire =s tr_schema_digest expected_route)
     || (WORK_MAP_V2_MAX_BYTES <? str_len (cw_raw_output wire))
  then Err "work-map-v2 actual carrier route/tuple/size drift"
  else Ok ({| sc_path := p; sc_bytes := bytes; sc_raw_work_map_payload := cw_raw_output wire |}, authority_of_wire wire).

Definition read_work_map_v2_actual_carrier_authority (p : path)
  : prog string (WorkMapV2SourceCarrier * WorkMapV2ActualCarrierAuthority) :=
  _ ← Ret (reject_artifact_path p "actual carrier");
  bytes ← read_authority "work-map-v2 actual carrier read: " p WORK_MAP_V2_SOURCE_CARRIER_MAX_BYTES;
  Ret (parse_work_map_v2_actual_carrier_bytes p bytes).

(** The comparison of a specification with the authority of a carrier, which
    the two ways of admission share *)
Definition carrier_spec_drift (spec : AgentRunSpec) (a : WorkMapV2ActualCarrierAuthority) : bool :=
  negb (as_schema spec =s "autopilot.agent_run_spec.v4")
  || negb (bool_decide (as_assignment_kind spec = PlanningReview))
  || negb (as_action_id spec =s ca_action_id a)
  || negb (as_assignment_id spec =s ca_assignment_id a)
  || negb (as_run_revision spec =? ca_run_revision a)
  || negb (as_workstream spec =s ca_workstream a)
  || negb (as_role_id spec =s ca_role_id a)
  || negb (as_mode spec =s ca_mode a)
  || negb (as_boundary_id spec =s ca_boundary_id a)
  || negb (as_result_contract spec =s ca_result_contract a)
  || negb (as_prompt_path spec =s ca_prompt_path a)
  || negb (as_prompt_digest spec =s ca_prompt_digest a)
  || negb (as_boundary_digest spec =s ca_boundary_digest a)
  || negb (as_result_contract_digest spec =s ca_result_contract_digest a)
  || negb (as_settings_digest spec =s ca_settings_digest a)
  || negb (as_context_digest spec =s ca_context_digest a)
  || negb (as_skills_digest spec =s ca_skills_digest a)
  || negb (as_subscription_digest spec =s ca_subscription_digest a)
  || negb (bool_decide (as_runtime_extension_digest spec = Some (ca_runtime_extension_digest a)))
  || negb (bool_decide (as_runtime_extension_digest spec = Some CHILD_ADDON_DIGEST))
  || negb (as_spec_path spec =s ca_spec_path a)
  || negb (as_carrier_path spec =s ca_carrier_path a)
  || negb (bool_decide (as_terminal_route spec = Some (ca_terminal_route a)))
  || negb (bool_decide (as_terminal_profile_id spec = Some (tr_profile_id (ca_terminal_route a))))
  || negb (bool_decide (as_atom_registry_path spec = Some (ca_atom_registry_path a)))
  || negb (bool_decide (as_atom_registry_digest spec = Some (ca_atom_registry_digest a)))
  || negb (bool_decide (as_session_continuity spec = Fresh))
  || negb (ca_carrier_binding a =s carrier_binding sha256 spec).

(** A specification of version 4, or one of version 5 seen as one *)
Definition carrier_spec (bytes : string) : result string AgentRunSpec :=
  spec_value ← map_err (λ error, "work-map-v2 actual carrier spec JSON: " +:+ error) (from_text bytes);
  match value_get spec_value "admission_mode" with
  | None => map_err (λ error, "work-map-v2 legacy carrier spec JSON: " +:+ error) (from_value spec_value)
  | Some (VString mode) =>
      if mode =s "receipt_v1" then
        fresh ← map_err (λ error, "work-map-v2 receipt carrier spec JSON: " +:+ error) (from_value spec_value);
        Ok (project_v5_spec_for_shared_admission fresh)
      else Err "work-map-v2 actual carrier spec admission mode drift"
  | Some _ => Err "work-map-v2 actual carrier spec admission mode drift"
  end.

(** The paths of the specification are those of its assignment. *)
Definition check_generated_paths (run_root : path) (spec : AgentRunSpec) : result string unit :=
  let drift := Err "work-map-v2 actual carrier generated path authority drift" in
  expected_cwd ← ok_or (grandparent run_root) "work-map-v2 actual carrier run root has no repository parent";
  let expected := planning_paths expected_cwd (as_workstream spec) (as_assignment_id spec) in
  cwd ← path_string expected_cwd;
  if negb (as_cwd spec =s cwd) then drift else
  spec_path ← path_string (rp_spec_path expected);
  if negb (as_spec_path spec =s spec_path) then drift else
  prompt_path ← path_string (rp_prompt_path expected);
  if negb (as_prompt_path spec =s prompt_path) then drift else
  carrier_path ← path_string (rp_carrier_path expected);
  if negb (as_carrier_path spec =s carrier_path) then drift else Ok tt.

Definition check_carrier_paths (carrier_path expected_spec_path : path) (expected_spec_digest : string)
    (a : WorkMapV2ActualCarrierAuthority) : result string unit :=
  let drift := Err "work-map-v2 actual carrier path/spec authority drift" in
  carrier ← path_string carrier_path;
  if negb (ca_carrier_path a =s carrier) then drift else
  spec ← path_string expected_spec_path;
  if negb (ca_spec_path a =s spec) || negb (ca_spec_digest a =s expected_spec_digest) then drift else Ok tt.

Definition verify_work_map_v2_actual_carrier_authority (carrier_path run_root expected_spec_path : path)
    (expected_spec_digest : string) : prog string VerifiedWorkMapV2ActualCarrier :=
  _ ← Ret (validate_run_authority_path carrier_path run_root "actual carrier");
  _ ← Ret (validate_run_authority_path expected_spec_path run_root "actual carrier spec");
  _ ← Ret (ensure (is_lower_sha256 expected_spec_digest) "work-map-v2 actual carrier expected spec digest is malformed");
  read ← read_work_map_v2_actual_carrier_authority carrier_path;
  let '(source, authority) := read in
  _ ← Ret (check_carrier_paths carrier_path expected_spec_path expected_spec_digest authority);
  let named_spec_path := components (ca_spec_path authority) in
  _ ← Ret (validate_run_authority_path named_spec_path run_root "actual carrier named spec");
  spec_bytes ← read_authority "work-map-v2 actual carrier spec read: " named_spec_path (Z.shiftl 2 20);
  _ ← Ret (ensure (sha256_hex spec_bytes =s ca_spec_digest authority) "work-map-v2 actual carrier spec digest drift");
  spec ← Ret (carrier_spec spec_bytes);
  _ ← Ret (check_generated_paths run_root spec);
  if carrier_spec_drift spec authority then Ret (Err "work-map-v2 actual carrier/spec authority drift")
  else Ret (Ok {| vc_source := source; vc_authority := authority |}).

(** ** Admission *)

Definition validate_v2_artifact_confinement (source : WorkMapV2SourceCarrier) (context : WorkMapV2AdmissionContext)
  : result string unit :=
  run_root ← ok_or (grandparent (sc_path source)) "work-map-v2 source carrier lacks run root";
  for_each (λ e : path * string, let '(p, label) := e in
    ensure (strictly_below p run_root) ("work-map-v2 " +:+ label +:+ " is outside the exact run root"))
    [(sc_path source, "source carrier"); (cx_atom_registry_path context, "atom registry")].

Definition validate_work_map_v2_raw_size (raw : string) : result string unit :=
  if WORK_MAP_V2_MAX_BYTES <? str_len raw
  then Err ("work-map-v2:raw artifact exceeds " +:+ show_uint WORK_MAP_V2_MAX_BYTES +:+ " bytes: got " +:+ show_uint (str_len raw))
  else Ok tt.

Definition parse_work_map_v2_model_value (raw : string) : result string WorkMapV2 :=
  _ ← validate_work_map_v2_raw_size raw;
  text ← (if utf8_valid raw then Ok raw else Err ("work-map-v2:raw artifact is not UTF-8: " +:+ utf8_error raw));
  work_map ← map_err (λ error, "work-map-v2:strict JSON parse: " +:+ error) (from_text text);
  if negb (m2_schema work_map =s "planning.work-map.v2") then Err ("work-map-v2:wrong schema " +:+ m2_schema work_map)
  else Ok work_map.

Definition validate_work_map_v2_model_value (raw : string) (atom_ids : gset string) : option (result string unit) :=
  match parse_work_map_v2_model_value raw with
  | Err e => Some (Err e)
  | Ok work_map => validate_work_map_v2_shape work_map atom_ids
  end.

Definition v2_registry_id_step (ids : gset string) (atom : PlanningAtomRegistryAtom) : result string (gset string) :=
  _ ← validate_work_map_v2_id (ra_id atom) "atom registry id";
  if bool_decide (ra_id atom ∈ ids) then Err "work-map-v2 atom registry has duplicate atom id"
  else Ok ({[ra_id atom]} ∪ ids).

Definition load_v2_atom_registry_ids (p : path) (expected_digest : string) : prog string (gset string) :=
  _ ← Ret (reject_artifact_path p "atom registry");
  _ ← Ret (ensure (is_lower_sha256 expected_digest) "work-map-v2 atom registry digest is malformed");
  bytes ← read_authority "work-map-v2 atom registry read: " p ATOM_REGISTRY_MAX_BYTES;
  let actual := sha256_hex bytes in
  _ ← Ret (ensure (actual =s expected_digest)
        ("work-map-v2 atom registry digest drift: expected " +:+ expected_digest +:+ ", got " +:+ actual));
  registry ← Ret (map_err (λ error, "work-map-v2 atom registry JSON: " +:+ error) (from_text bytes));
  _ ← Ret (ensure (rg_schema registry =s "autopilot.planning_atom_registry.v1") "work-map-v2 atom registry schema drift");
  Ret (fold_res v2_registry_id_step ∅ (rg_atoms registry)).

Definition validate_authenticated_recovery_subject (subject : ApprovedWorkMapV2) (context : WorkMapV2AdmissionContext)
  : result string unit :=
  if bool_decide (is_Some (m2_recovery (aw_admitted_source_map subject))) || bool_decide (is_Some (aw_recovery_subject subject))
  then Err "work-map-v2:recovery subject must be an ordinary non-recovery admission"
  else if negb (bool_decide (aw_atom_registry_path subject = cx_atom_registry_path context))
          || negb (aw_atom_registry_digest subject =s cx_atom_registry_digest context)
  then Err "work-map-v2:recovery subject atom-registry authority differs from candidate"
  else Ok tt.

Definition admit_recovery (work_map : WorkMapV2) (context : WorkMapV2AdmissionContext)
  : result string (option ApprovedWorkMapV2RecoverySubject) :=
  match cx_recovery_subject context with
  | Some subject =>
      _ ← validate_authenticated_recovery_subject subject context;
      _ ← validate_work_map_v2_recovery work_map (aw_admitted_source_map subject);
      Ok (Some {| rs_source_carrier_path := aw_source_carrier_path subject;
                  rs_source_carrier_sha256 := aw_source_carrier_sha256 subject;
                  rs_source_raw_work_map_sha256 := aw_source_raw_work_map_sha256 subject;
                  rs_atom_registry_path := aw_atom_registry_path subject;
                  rs_atom_registry_digest := aw_atom_registry_digest subject;
                  rs_source_actual_authority := aw_source_actual_authority subject |})
  | None =>
      if bool_decide (is_Some (m2_recovery work_map))
      then Err "work-map-v2:recovery evidence requires an authenticated prior V2 subject"
      else Ok None
  end.

(** An error is a text; no text where a check runs out of fuel, which none does. *)
Definition say {A} (r : result string A) : prog (option string) A := Ret (map_err Some r).
Definition conclude {A} (label : string) (r : option (result string A)) : prog (option string) A :=
  match r with None => Ret (Err None) | Some r => Ret (map_err (λ e, Some (label +:+ e)) r) end.

Definition admit_work_map_v2 (raw : string) (source : WorkMapV2SourceCarrier) (context : WorkMapV2AdmissionContext)
  : prog (option string) ApprovedWorkMapV2 :=
  _ ← say (validate_v2_artifact_confinement source context);
  _ ← say (validate_work_map_v2_raw_size raw);
  _ ← say (ensure (raw =s sc_raw_work_map_payload source) "work-map-v2 raw payload does not exactly match source carrier");
  work_map ← say (parse_work_map_v2_model_value raw);
  atom_ids ← prog_map_err Some (load_v2_atom_registry_ids (cx_atom_registry_path context) (cx_atom_registry_digest context));
  _ ← conclude "" (validate_work_map_v2_shape work_map atom_ids);
  recovery_subject ← say (admit_recovery work_map context);
  units ← say (approved_units_from_work_map_v2 work_map);
  let vendoring := vendoring_from_work_map_v2 work_map in
  let package_authority := package_authority_from_work_map_v2 work_map in
  _ ← conclude "work-map-v2:package authority: " (validate_approved_v2_authority units vendoring package_authority);
  Ret (Ok {| aw_admitted_source_map := work_map; aw_recovery_subject := recovery_subject;
             aw_source_carrier_path := sc_path source; aw_source_carrier_sha256 := sha256_hex (sc_bytes source);
             aw_source_raw_work_map_sha256 := sha256_hex raw; aw_source_actual_authority := None;
             aw_atom_registry_path := cx_atom_registry_path context;
             aw_atom_registry_digest := cx_atom_registry_digest context; aw_units := units;
             aw_vendoring := vendoring; aw_package_authority := package_authority |}).

Definition admit_work_map_v2_verified_carrier (raw : string) (carrier_path : path) (carrier_bytes : string)
    (context : WorkMapV2AdmissionContext) : prog (option string) ApprovedWorkMapV2 :=
  read ← prog_map_err Some (read_work_map_v2_actual_carrier_authority carrier_path);
  let '(source, authority) := read in
  if negb (sc_bytes source =s carrier_bytes) || negb (sc_raw_work_map_payload source =s raw)
  then Ret (Err (Some "work-map-v2 actual carrier bytes/payload drift before admission"))
  else
    approved ← admit_work_map_v2 raw source context;
    Ret (Ok (set_actual_authority approved authority)).

Definition admit_work_map_v2_staged_carrier (carrier_path : path) (carrier_bytes : string) (spec : AgentRunSpec)
    (expected_spec_digest : string) (context : WorkMapV2AdmissionContext) : prog (option string) ApprovedWorkMapV2 :=
  parsed ← say (parse_work_map_v2_actual_carrier_bytes carrier_path carrier_bytes);
  let '(source, authority) := parsed in
  let drift := Ret (Err (Some "work-map-v2 staged carrier/spec authority drift")) in
  if negb (is_lower_sha256 expected_spec_digest) then drift else
  carrier ← say (path_string carrier_path);
  if negb (ca_carrier_path authority =s carrier)
     || negb (ca_spec_digest authority =s expected_spec_digest) || carrier_spec_drift spec authority
  then drift
  else
    approved ← admit_work_map_v2 (sc_raw_work_map_payload source) source context;
    Ret (Ok (set_actual_authority approved authority)).
End Carriers.
