(* ===== verification/WorkMapAdmission.v ===== *)
(** * Admission of version 2 work maps is sound

    Which terminal routes carry a version 2 map, what a verified carrier
    agrees with, and what an admitted map is. *)

From S2P Require Import Prelude RustColl RustStr Paths Os Traces Generated Graph Prompt Json TaskInput ModelBoundary Planning AuthorityFiles AuthorityWriters Authority Allocation Vendoring ContextPolicy Roles AgentSpec WorkMapV2 WorkMapSafety WorkMapCarrier.

(** ** Routes *)

Section Routes.
Context (debug_policy : ContextPolicyError → string) (debug_role : RoleError → string).

(** The terminal tool of each role of the package *)
Definition role_tools : gmap string string := Eval vm_compute in
  match role_package (λ _, "") DRIVER_TABLES_KDL ROLE_REGISTRY_KDL CONTEXT_POLICY_KDL with
  | Ok registry => ro_terminal_path <$> registry
  | Err _ => ∅
  end.

(** A computation that gives [Ok] of something with a decidable property *)
Lemma ok_with {E A} (r : result E A) (f : A → bool) :
  match r with Ok a => f a | Err _ => false end = true → ∃ a, r = Ok a ∧ f a = true.
Proof. destruct r as [a|e]; [by exists a|discriminate]. Qed.

Lemma package_tools : ∃ registry : RoleRegistry,
  role_package debug_policy DRIVER_TABLES_KDL ROLE_REGISTRY_KDL CONTEXT_POLICY_KDL = Ok registry ∧
  ro_terminal_path <$> registry = role_tools.
Proof.
  destruct (ok_with (parse_roles DRIVER_TABLES_KDL ROLE_REGISTRY_KDL)
    (λ registry, bool_decide (ro_terminal_path <$> registry = role_tools))) as (registry & Hr & Ht);
    [vm_compute; reflexivity|].
  destruct (ok_with (package DRIVER_TABLES_KDL ROLE_REGISTRY_KDL CONTEXT_POLICY_KDL) (λ _, true)) as (policies & Hp & _);
    [vm_compute; reflexivity|].
  exists registry. split; [|exact (bool_decide_eq_true_1 _ Ht)]. unfold role_package. rewrite Hr, Hp. reflexivity.
Qed.

Lemma profile_for_ok role_id boundary_id result_contract profile :
  terminal_profile_for debug_policy debug_role role_id boundary_id result_contract = Ok profile ↔
  ∃ tool, role_tools !! role_id = Some tool ∧ profiles_of tool boundary_id result_contract = [profile].
Proof.
  destruct package_tools as (registry & Hr & Htools). unfold terminal_profile_for. rewrite Hr. clear Hr.
  revert Htools. generalize role_tools. intros tools <-. rewrite lookup_fmap. unfold role_get.
  cbn [map_err mbind result_mbind result_bind].
  destruct (registry !! role_id) as [role|] eqn:Hrole; setoid_rewrite Hrole;
    cbn [ok_or map_err mbind result_mbind result_bind fmap option_fmap option_map].
  - transitivity (profiles_of (ro_terminal_path role) boundary_id result_contract = [profile]).
    + destruct (profiles_of _ _ _) as [|p [|q rows]]; split; intros H; try discriminate H; by injection H as ->.
    + split; [by exists (ro_terminal_path role)|]. intros (tool & Ht & H). injection Ht as <-. exact H.
  - split; [done|]. by intros (tool & [=] & Hp).
Qed.

Lemma profiles_of_elem tool boundary_id result_contract profile :
  profiles_of tool boundary_id result_contract = [profile] →
  profile ∈ TERMINAL_PROFILES ∧ pr_tool profile = tool ∧ pr_boundary profile = boundary_id ∧ pr_contract profile = result_contract.
Proof.
  intros H. assert (profile ∈ profiles_of tool boundary_id result_contract) as Hin by (rewrite H; constructor).
  apply list_elem_of_filter in Hin. naive_solver.
Qed.

Definition route_of (version : string) (profile : TerminalProfile) : TerminalRoute :=
  {| tr_version := version; tr_profile_id := pr_id profile; tr_tool_name := pr_tool profile;
     tr_boundary_id := pr_boundary profile; tr_result_contract := pr_contract profile;
     tr_schema_digest := pr_digest profile |}.

(** The version of a route *)
Definition route_version (role_id boundary_id : string) (profile : TerminalProfile) : option string :=
  if v2_producer role_id (pr_id profile) then Some "v2"
  else if boundary_id =s "planning.work-map.v2" then None else Some "v1-legacy".

Lemma route_for_ok role_id boundary_id result_contract route :
  terminal_route_for debug_policy debug_role role_id boundary_id result_contract = Ok route ↔
  ∃ tool profile version, role_tools !! role_id = Some tool ∧ profiles_of tool boundary_id result_contract = [profile] ∧
    route_version role_id boundary_id profile = Some version ∧ route = route_of version profile.
Proof.
  unfold terminal_route_for, route_version. rewrite bind_ok. setoid_rewrite profile_for_ok. split.
  - intros (profile & (tool & Ht & Hp) & H). exists tool, profile.
    destruct (v2_producer role_id (pr_id profile)); [injection H as <-; by eexists|].
    destruct (boundary_id =s _); [discriminate H|]. injection H as <-. by eexists.
  - intros (tool & profile & version & Ht & Hp & Hv & ->). exists profile. split; [by exists tool|].
    destruct (v2_producer role_id (pr_id profile)); [by injection Hv as <-|].
    destruct (boundary_id =s _); [discriminate Hv|]. by injection Hv as <-.
Qed.
End Routes.

(** The rows of the three producers *)
Definition v2_route (profile tool digest : string) : TerminalRoute :=
  {| tr_version := "v2"; tr_profile_id := profile; tr_tool_name := tool; tr_boundary_id := "planning.work-map.v2";
     tr_result_contract := "planning.work-map.v2"; tr_schema_digest := digest |}.
Definition v2_rows : list (string * string * TerminalRoute) :=
  [("plan-compiler", "initial-plan",
    v2_route "planning.work-map.v2:autopilot_submit_plan_cluster" "autopilot_submit_plan_cluster"
      "4f341cc4aade90ac13c4584898f29b42d054d4ea4b5c126117841550e680ae75");
   ("plan-synthesizer", "initial-plan",
    v2_route "planning.work-map.v2:autopilot_submit_synthesis" "autopilot_submit_synthesis"
      "4f341cc4aade90ac13c4584898f29b42d054d4ea4b5c126117841550e680ae75");
   ("recovery-engineer", "planning-repair",
    v2_route "recovery-work-map.v2" "autopilot_emit_status"
      "4b254caa4e21953efdc3102cb86c35c3238dfadc57b83fb083f5cbb49065857c")].

(** A profile is known by its id. *)
Lemma profile_by_id profile row : profile ∈ TERMINAL_PROFILES → List.find (λ r, pr_id r =s pr_id profile) TERMINAL_PROFILES = Some row →
  row = profile.
Proof.
  intros Hin Hf. apply list_elem_of_In in Hin. cbn in Hin.
  repeat (destruct Hin as [<-|Hin]; [vm_compute in Hf; by injection Hf|]). done.
Qed.

Definition V2_MAP : string := "planning.work-map.v2".

Section ExactRoute.
Context (debug_policy : ContextPolicyError → string) (debug_role : RoleError → string).
Abbreviation exact_route := (exact_v2_terminal_route debug_policy debug_role).

(** One of the rows of the route, read forward and backward *)
Lemma exact_row role mode id boundary contract route row :
  terminal_route_for debug_policy debug_role role boundary contract = Ok route → tr_profile_id route = id →
  v2_producer role id = true → List.find (λ r, pr_id r =s id) TERMINAL_PROFILES = Some row →
  pr_boundary row = V2_MAP → pr_contract row = V2_MAP → (role, mode, route_of "v2" row) ∈ v2_rows → (role, mode, route) ∈ v2_rows ∧ boundary = V2_MAP ∧ contract = V2_MAP.
Proof.
  intros (tool & profile & version & _ & Hp & Hv & ->)%route_for_ok <- Hprod Hf Hb Hc Hrow.
  apply profiles_of_elem in Hp as (Hin & _ & <- & <-). cbn in *. apply profile_by_id in Hf; [|done]. subst row.
  unfold route_version in Hv. rewrite Hprod in Hv. by injection Hv as <-.
Qed.

(** A version 2 map may come in exactly from the plan compiler and the plan
    synthesizer of an initial plan and from the recovery engineer of a
    planning repair, each over the one terminal tool and schema that the
    package declares for it. *)
Theorem v2_route_exact (role mode boundary contract : string) (route : TerminalRoute) :
  exact_route role mode boundary contract = Ok route ↔
  (role, mode, route) ∈ v2_rows ∧ boundary = V2_MAP ∧ contract = V2_MAP.
Proof.
  unfold exact_v2_terminal_route. rewrite bind_ok. split.
  - intros (expected & He%map_err_ok & H). apply guard_ok in H as [Hrow [= <-]]. apply negb_false_iff in Hrow.
    apply orb_true_iff in Hrow as [[Hrow|Hrow]%orb_true_iff|Hrow]; to_prop; subst role mode.
    all: eapply exact_row; [exact He|eassumption|reflexivity|vm_compute; reflexivity|reflexivity|reflexivity|].
    + by apply (list_elem_of_lookup_2 _ 0).
    + by apply (list_elem_of_lookup_2 _ 1).
    + by apply (list_elem_of_lookup_2 _ 2).
  - intros (Hrow & -> & ->). exists route.
    assert (terminal_route_for debug_policy debug_role role V2_MAP V2_MAP = Ok route) as ->.
    { apply route_for_ok. unfold v2_rows in Hrow. rewrite !elem_of_cons, elem_of_nil in Hrow.
      destruct Hrow as [[= -> -> ->]|[[= -> -> ->]|[[= -> -> ->]|[]]]];
        do 3 eexists; (split_and!; [vm_compute; reflexivity..]). }
    split; [done|]. unfold v2_rows in Hrow. rewrite !elem_of_cons, elem_of_nil in Hrow.
    by destruct Hrow as [[= -> -> ->]|[[= -> -> ->]|[[= -> -> ->]|[]]]].
Qed.
End ExactRoute.

(** ** The routes of planning *)

Lemma planning_tool_known role tool : planning_terminal_tool role = Ok tool → role_tools !! role = Some tool.
Proof.
  unfold planning_terminal_tool. intros H.
  repeat (match type of H with (if ?b then _ else _) = _ => destruct b eqn:Hr; [apply bool_decide_eq_true_1 in Hr; subst role;
    injection H as <-; vm_compute; reflexivity|clear Hr] end). discriminate H.
Qed.

Lemma boundary_by_id profile id row : profile ∈ TERMINAL_PROFILES → pr_id profile = id →
  List.find (λ r, pr_id r =s id) TERMINAL_PROFILES = Some row → pr_boundary row = V2_MAP → pr_boundary profile = V2_MAP.
Proof. intros Hin <- Hf Hb. apply profile_by_id in Hf; [|done]. by subst row. Qed.

Lemma v2_producer_boundary role profile : profile ∈ TERMINAL_PROFILES → v2_producer role (pr_id profile) = true →
  pr_boundary profile = V2_MAP.
Proof.
  intros Hin H. unfold v2_producer in H.
  apply orb_true_iff in H as [[H|H]%orb_true_iff|H]; to_prop.
  all: eapply boundary_by_id; [done|eassumption|vm_compute; reflexivity|reflexivity].
Qed.

Lemma planning_v2_producer role tool profile : planning_terminal_tool role = Ok tool →
  profiles_of tool V2_MAP V2_MAP = [profile] → v2_producer role (pr_id profile) = true.
Proof.
  unfold planning_terminal_tool. intros H Hp.
  repeat (match type of H with (if ?b then _ else _) = _ => destruct b eqn:Hr; [apply bool_decide_eq_true_1 in Hr; subst role;
    injection H as <-; vm_compute in Hp; first [discriminate Hp|injection Hp as <-; vm_compute; reflexivity]|clear Hr] end).
  discriminate H.
Qed.

Definition planning_version (boundary : string) : string := if boundary =s "planning.work-map.v2" then "v2" else "v1-legacy".

Lemma planning_route_version role tool boundary profile : planning_terminal_tool role = Ok tool →
  profiles_of tool boundary boundary = [profile] → route_version role boundary profile = Some (planning_version boundary).
Proof.
  intros Ht Hp. unfold route_version, planning_version. destruct (v2_producer role (pr_id profile)) eqn:Hv.
  - apply profiles_of_elem in Hp as (Hin & _ & <- & _). by rewrite (v2_producer_boundary role profile).
  - destruct (boundary =s "planning.work-map.v2") eqn:Hb; [|done]. to_prop. subst boundary.
    by rewrite (planning_v2_producer role tool profile) in Hv.
Qed.

(** The roles that plan *)
Definition planning_role (role : string) : Prop := ∃ tool, planning_terminal_tool role = Ok tool.

(** C36. The planner and the runner choose the terminal route of an assignment each
    in its own way, the planner from a list of roles and the runner from the
    role registry of the package; they choose the same. *)
Theorem routes_agree (debug_policy : ContextPolicyError → string) (debug_role : RoleError → string)
    (role boundary : string) (route : TerminalRoute) :
  planning_terminal_route role boundary = Ok route ↔
  planning_role role ∧ terminal_route_for debug_policy debug_role role boundary boundary = Ok route.
Proof.
  rewrite route_for_ok. unfold planning_terminal_route. rewrite bind_ok.
  transitivity (∃ tool profile, planning_terminal_tool role = Ok tool ∧ profiles_of tool boundary boundary = [profile] ∧
    route = route_of (planning_version boundary) profile).
  - split.
    + intros (tool & Ht & H). exists tool. fold (profiles_of tool boundary boundary) in H.
      destruct (profiles_of tool boundary boundary) as [|profile [|q rows]]; try discriminate H.
      injection H as <-. by exists profile.
    + intros (tool & profile & Ht & Hp & ->). exists tool. split; [done|].
      fold (profiles_of tool boundary boundary). by rewrite Hp.
  - split.
    + intros (tool & profile & Ht & Hp & ->). split; [by exists tool|]. exists tool, profile, (planning_version boundary).
      split_and!; [by apply planning_tool_known|done|by eapply planning_route_version|done].
    + intros ((tool & Ht) & tool' & profile & version & Hr & Hp & Hv & ->). exists tool, profile.
      rewrite (planning_tool_known role tool Ht) in Hr. injection Hr as <-.
      rewrite (planning_route_version role tool) in Hv by done. by injection Hv as <-.
Qed.

(** ** Reading *)

(** A bounded read asks for reads only and gives no more than the bound. *)
Lemma read_authority_wp display p max_bytes :
  wp read_request (λ r, ∀ bytes, r = Ok bytes → str_len bytes ≤ max_bytes) (read_bounded_authority_file display p max_bytes).
Proof.
  unfold read_bounded_authority_file. destruct (validate_authority_path _ _ _); [|done].
  unfold authority_read. eapply wp_seq; [by apply open_parent_requests|done|done|]. intros [parent name] _.
  unfold authority_read_from_parent_with_mode, open_leaf. apply wp_ask; [done|done|]. intros _ fd _.
  apply wp_ask; [done|done|]. intros _ m _. destruct (negb _); [done|]. cbn. unfold read_descriptor.
  destruct (_ <? _); [done|]. destruct (checked_add _ _ _); [|done]. apply wp_ask; [done|done|]. intros _ bytes _.
  destruct (max_bytes <? str_len bytes) eqn:Hl; [done|]. intros ? [= <-]. lia.
Qed.

(** A recovery that passes keeps the units up to their objectives. *)
Lemma recovery_units_kept candidate original : validate_work_map_v2_recovery candidate original = Ok tt →
  Forall2 same_but_objective (m2_units original) (m2_units candidate) ∧ is_Some (m2_recovery candidate).
Proof.
  unfold validate_work_map_v2_recovery. destruct (m2_recovery candidate) as [r|]; cbn; [|done]. intros Hr.
  apply guard_ok in Hr as [_ Hr]. apply guard_ok in Hr as [Hlen Hr]. apply guard_ok in Hr as [_ Hr].
  apply bind_ok in Hr as (changed & [HF _]%recovery_steps_ok & _). to_prop. split; [|done].
  apply Forall2_same_length_zip; [|done]. unfold zlen in Hlen. lia.
Qed.

(** ** Carriers *)

(** What a carrier that was accepted says of itself *)
Record carrier_sound `{Deserialize WorkMapV2ActualCarrierWire} (p : path) (bytes : string)
    (source : WorkMapV2SourceCarrier) (a : WorkMapV2ActualCarrierAuthority) : Prop := {
  cs_path : is_absolute p = true ∧ ParentDir ∉ p ∧ CurDir ∉ p;
  cs_source : sc_path source = p ∧ sc_bytes source = bytes ∧ str_len (sc_raw_work_map_payload source) ≤ WORK_MAP_V2_MAX_BYTES;
  cs_wire : ∃ wire, from_text bytes = Ok wire ∧ a = authority_of_wire wire ∧
    sc_raw_work_map_payload source = cw_raw_output wire ∧ cw_schema wire = "autopilot.planning_carrier.v2" ∧
    cw_carrier_channel wire = "tool" ∧ blank (cw_pi_version wire) = false;
  cs_route : (ca_role_id a, ca_mode a, ca_terminal_route a) ∈ v2_rows ∧ ca_boundary_id a = V2_MAP ∧
    ca_result_contract a = V2_MAP ∧ ca_tool_name a = tr_tool_name (ca_terminal_route a) ∧
    ca_tool_schema_digest a = tr_schema_digest (ca_terminal_route a);
}.

Lemma artifact_path_ok p label u :
  reject_artifact_path p label = Ok u ↔ is_absolute p = true ∧ ParentDir ∉ p ∧ CurDir ∉ p.
Proof.
  unfold reject_artifact_path. rewrite guard_ok, orb_false_iff, negb_false_iff.
  assert (any (λ component, match component with ParentDir | CurDir => true | _ => false end) p = false ↔
    ParentDir ∉ p ∧ CurDir ∉ p) as ->.
  { induction p as [|c p IH]; cbn; [set_solver|]. rewrite orb_false_iff, IH, !not_elem_of_cons. destruct c; naive_solver. }
  destruct u. naive_solver.
Qed.

Lemma strictly_below_ok p root : strictly_below p root = true ↔ p ≠ root ∧ is_Some (strip_path_prefix root p).
Proof.
  unfold strictly_below. rewrite negb_true_iff, orb_false_iff, negb_false_iff, bool_decide_eq_false, bool_decide_eq_true. done.
Qed.

Lemma run_path_ok p root label u : validate_run_authority_path p root label = Ok u →
  p ≠ root ∧ is_Some (strip_path_prefix root p).
Proof.
  unfold validate_run_authority_path. intros H. apply bind_ok in H as (? & _ & H). apply bind_ok in H as (? & _ & H).
  by apply ensure_ok, strictly_below_ok in H.
Qed.

Lemma path_string_ok p s : path_string p = Ok s → s = to_os p.
Proof. unfold path_string. destruct (utf8_valid _); naive_solver. Qed.

Section Admission.
Context (display : path → string) (sha256 : list Z → list Z) (debug_policy : ContextPolicyError → string)
  (debug_role : RoleError → string) (utf8_error : string → string).
Context `{Deserialize WorkMapV2SourceCarrierWire, Deserialize WorkMapV2ActualCarrierWire, Deserialize Value,
  FromValue AgentRunSpec, FromValue AgentRunSpecV5, Deserialize PlanningAtomRegistry, Deserialize WorkMapV2}.
Abbreviation parse_carrier := (parse_work_map_v2_actual_carrier_bytes debug_policy debug_role).

Lemma parse_carrier_ok p bytes source a :
  parse_carrier p bytes = Ok (source, a) → carrier_sound p bytes source a.
Proof.
  unfold parse_work_map_v2_actual_carrier_bytes. intros Hp.
  apply bind_ok in Hp as (? & Hpath%artifact_path_ok & Hp). apply bind_ok in Hp as (wire & Hw%map_err_ok & Hp).
  apply bind_ok in Hp as (route & (Hr & Hb & Hc)%v2_route_exact & Hp).
  apply guard_ok in Hp as [Hg [= <- <-]]. to_prop. subst route. constructor; cbn; [done| | |done].
  - split_and!; [done..|]. lia.
  - exists wire. split_and!; done.
Qed.

(** The specification and the carrier say the same. *)
Record spec_agrees (spec : AgentRunSpec) (a : WorkMapV2ActualCarrierAuthority) : Prop := {
  sg_kind : as_schema spec = "autopilot.agent_run_spec.v4" ∧ as_assignment_kind spec = PlanningReview ∧
    as_session_continuity spec = Fresh;
  sg_identity : as_action_id spec = ca_action_id a ∧ as_assignment_id spec = ca_assignment_id a ∧
    as_run_revision spec = ca_run_revision a ∧ as_workstream spec = ca_workstream a ∧ as_role_id spec = ca_role_id a ∧
    as_mode spec = ca_mode a ∧ as_boundary_id spec = ca_boundary_id a ∧ as_result_contract spec = ca_result_contract a;
  sg_paths : as_prompt_path spec = ca_prompt_path a ∧ as_spec_path spec = ca_spec_path a ∧
    as_carrier_path spec = ca_carrier_path a;
  sg_digests : as_prompt_digest spec = ca_prompt_digest a ∧ as_boundary_digest spec = ca_boundary_digest a ∧
    as_result_contract_digest spec = ca_result_contract_digest a ∧ as_settings_digest spec = ca_settings_digest a ∧
    as_context_digest spec = ca_context_digest a ∧ as_skills_digest spec = ca_skills_digest a ∧
    as_subscription_digest spec = ca_subscription_digest a;
  sg_addon : as_runtime_extension_digest spec = Some (ca_runtime_extension_digest a) ∧
    ca_runtime_extension_digest a = CHILD_ADDON_DIGEST;
  sg_route : as_terminal_route spec = Some (ca_terminal_route a) ∧
    as_terminal_profile_id spec = Some (tr_profile_id (ca_terminal_route a));
  sg_registry : as_atom_registry_path spec = Some (ca_atom_registry_path a) ∧
    as_atom_registry_digest spec = Some (ca_atom_registry_digest a);
  sg_binding : ca_carrier_binding a = carrier_binding sha256 spec;
}.

Lemma spec_drift_ok spec a : carrier_spec_drift sha256 spec a = false → spec_agrees spec a.
Proof. unfold carrier_spec_drift. intros Hd. to_prop. constructor; split_and?; congruence. Qed.

Abbreviation admit_map := (admit_work_map_v2 display sha256 utf8_error).
Abbreviation staged := (admit_work_map_v2_staged_carrier display sha256 debug_policy debug_role utf8_error).

(** The last step of both admissions: the payload, under the authority of its carrier *)
Definition admit_source (source : WorkMapV2SourceCarrier) (a : WorkMapV2ActualCarrierAuthority)
    (context : WorkMapV2AdmissionContext) : prog (option string) ApprovedWorkMapV2 :=
  approved ← admit_map (sc_raw_work_map_payload source) source context; Ret (Ok (set_actual_authority approved a)).

Lemma staged_admits carrier_path bytes spec digest source a context :
  parse_carrier carrier_path bytes = Ok (source, a) → is_lower_sha256 digest = true →
  path_string carrier_path = Ok (ca_carrier_path a) → ca_spec_digest a = digest → carrier_spec_drift sha256 spec a = false →
  staged carrier_path bytes spec digest context = admit_source source a context.
Proof.
  intros Hp Hd Hs <- Hspec. unfold admit_work_map_v2_staged_carrier, say. rewrite Hp. cbn [map_err]. cbn.
  rewrite Hd, Hs. cbn. rewrite !bool_decide_true, Hspec by done. done.
Qed.

Abbreviation read_carrier := (read_work_map_v2_actual_carrier_authority display debug_policy debug_role).
Abbreviation through_file := (admit_work_map_v2_verified_carrier display sha256 debug_policy debug_role utf8_error).

(** Admission through the file: the carrier is read again; a file that cannot
    be read or holds other bytes by now ends it, and otherwise it is the
    admission of the bytes in memory. *)
Definition same_admission (carrier_path : path) (source : WorkMapV2SourceCarrier) (spec : AgentRunSpec) (digest : string) : Prop :=
  ∀ context t r,
    exec (through_file (sc_raw_work_map_payload source) carrier_path (sc_bytes source) context) t r ↔
    (∃ e, exec (read_carrier carrier_path) t (Err e) ∧ r = Err (Some e)) ∨
    (∃ now t1 t2, t = t1 ++ t2 ∧ exec (read_carrier carrier_path) t1 (Ok now) ∧
       if bool_decide (sc_bytes now.1 = sc_bytes source)
       then exec (staged carrier_path (sc_bytes source) spec digest context) t2 r
       else t2 = [] ∧ r = Err (Some "work-map-v2 actual carrier bytes/payload drift before admission")).

(** What verification establishes: the carrier lies below the run root and
    names itself and its specification, the specification has the digest that
    was issued, is of the assignment whose paths the run root gives, and agrees
    with the carrier; and admission of the bytes from memory is what admission
    through the file comes to. *)
Record verified (carrier_path run_root spec_path : path) (digest : string) (v : VerifiedWorkMapV2ActualCarrier) : Prop := {
  vf_carrier : carrier_sound carrier_path (sc_bytes (vc_source v)) (vc_source v) (vc_authority v);
  vf_below : (carrier_path ≠ run_root ∧ is_Some (strip_path_prefix run_root carrier_path)) ∧
    (spec_path ≠ run_root ∧ is_Some (strip_path_prefix run_root spec_path));
  vf_names : ca_carrier_path (vc_authority v) = to_os carrier_path ∧ ca_spec_path (vc_authority v) = to_os spec_path ∧
    ca_spec_digest (vc_authority v) = digest;
  vf_spec : ∃ bytes spec cwd, Contracts.sha256_hex sha256 bytes = digest ∧ carrier_spec bytes = Ok spec ∧
    spec_agrees spec (vc_authority v) ∧ grandparent run_root = Some cwd ∧ as_cwd spec = to_os cwd ∧
    as_carrier_path spec = to_os (rp_carrier_path (planning_paths cwd (as_workstream spec) (as_assignment_id spec))) ∧
    as_prompt_path spec = to_os (rp_prompt_path (planning_paths cwd (as_workstream spec) (as_assignment_id spec))) ∧
    as_spec_path spec = to_os (rp_spec_path (planning_paths cwd (as_workstream spec) (as_assignment_id spec))) ∧
    (∀ context, staged carrier_path (sc_bytes (vc_source v)) spec digest context =
                admit_source (vc_source v) (vc_authority v) context) ∧
    same_admission carrier_path (vc_source v) spec digest;
}.

Lemma generated_paths_ok run_root spec u : check_generated_paths run_root spec = Ok u →
  ∃ cwd, grandparent run_root = Some cwd ∧ as_cwd spec = to_os cwd ∧
    as_carrier_path spec = to_os (rp_carrier_path (planning_paths cwd (as_workstream spec) (as_assignment_id spec))) ∧
    as_prompt_path spec = to_os (rp_prompt_path (planning_paths cwd (as_workstream spec) (as_assignment_id spec))) ∧
    as_spec_path spec = to_os (rp_spec_path (planning_paths cwd (as_workstream spec) (as_assignment_id spec))).
Proof.
  unfold check_generated_paths. intros Hg. apply bind_ok in Hg as (cwd & Hc%ok_or_ok & Hg). exists cwd.
  apply bind_ok in Hg as (s1 & ->%path_string_ok & Hg). apply guard_ok in Hg as [Hx1 Hg].
  apply bind_ok in Hg as (s2 & ->%path_string_ok & Hg). apply guard_ok in Hg as [Hx2 Hg].
  apply bind_ok in Hg as (s3 & ->%path_string_ok & Hg). apply guard_ok in Hg as [Hx3 Hg].
  apply bind_ok in Hg as (s4 & ->%path_string_ok & Hg). apply guard_ok in Hg as [Hx4 Hg]. by to_prop.
Qed.

Lemma carrier_paths_ok carrier_path spec_path digest a u : check_carrier_paths carrier_path spec_path digest a = Ok u →
  path_string carrier_path = Ok (ca_carrier_path a) ∧ ca_carrier_path a = to_os carrier_path ∧
  ca_spec_path a = to_os spec_path ∧ ca_spec_digest a = digest.
Proof.
  unfold check_carrier_paths. intros Hg. apply bind_ok in Hg as (s1 & Hs1 & Hg). apply guard_ok in Hg as [Hx1 Hg].
  apply bind_ok in Hg as (s2 & ->%path_string_ok & Hg). apply guard_ok in Hg as [Hx2 Hg].
  pose proof (path_string_ok _ _ Hs1). to_prop. subst s1. done.
Qed.

Definition ok_then {E A} (Q : A → Prop) (r : result E A) : Prop := match r with Ok a => Q a | Err _ => True end.

Lemma read_carrier_wp p :
  wp read_request (ok_then (λ r, parse_carrier p (sc_bytes r.1) = Ok r))
    (read_work_map_v2_actual_carrier_authority display debug_policy debug_role p).
Proof.
  unfold read_work_map_v2_actual_carrier_authority. apply wp_lift; [done|]. intros _ _.
  apply wp_bind, wp_map_err. eapply wp_mono; [done| |apply read_authority_wp]. intros [bytes|e] _; [|done]. cbn.
  destruct (parse_carrier p bytes) as [[source a]|e] eqn:Hp; [|done]. cbn.
  by rewrite (proj1 (proj2 (cs_source _ _ _ _ (parse_carrier_ok _ _ _ _ Hp)))).
Qed.

Lemma same_admission_ok carrier_path source a spec digest :
  parse_carrier carrier_path (sc_bytes source) = Ok (source, a) →
  (∀ context, staged carrier_path (sc_bytes source) spec digest context = admit_source source a context) →
  same_admission carrier_path source spec digest.
Proof.
  intros Hp Hs context t r. unfold admit_work_map_v2_verified_carrier. rewrite exec_bind. setoid_rewrite exec_map_err.
  assert (∀ now t, exec (read_carrier carrier_path) t (Ok now) → sc_bytes now.1 = sc_bytes source → now = (source, a)) as Hnow.
  { intros now u Hr He. destruct (wp_exec _ _ _ _ _ (read_carrier_wp carrier_path) Hr) as [_ Hq]. cbn in Hq.
    rewrite He, Hp in Hq. congruence. }
  assert (∀ now t1 t2, exec (read_carrier carrier_path) t1 (Ok now) →
    exec (let '(source', authority) := now in
          if negb (sc_bytes source' =s sc_bytes source) || negb (sc_raw_work_map_payload source' =s sc_raw_work_map_payload source)
          then Ret (Err (Some "work-map-v2 actual carrier bytes/payload drift before admission"))
          else approved ← admit_map (sc_raw_work_map_payload source) source' context;
               Ret (Ok (set_actual_authority approved authority))) t2 r ↔
    if bool_decide (sc_bytes now.1 = sc_bytes source)
    then exec (staged carrier_path (sc_bytes source) spec digest context) t2 r
    else t2 = [] ∧ r = Err (Some "work-map-v2 actual carrier bytes/payload drift before admission")) as Htail.
  { intros now t1 t2 Hr. case_bool_decide as He.
    - pose proof (Hnow _ _ Hr He) as ->. rewrite !bool_decide_true by done. by rewrite Hs.
    - destruct now as [source' a']. cbn in He. by rewrite bool_decide_false by done. }
  split.
  - intros [(e & ([now|e'] & Hr & [=->]) & ->)|(now & t1 & t2 & -> & ([now'|e'] & Hr & [=->]) & Hk)]; [by eauto|].
    right. exists now', t1, t2. split_and!; [done..|]. by apply (Htail _ t1).
  - intros [(e & Hr & ->)|(now & t1 & t2 & -> & Hr & Hk)]; [left; exists (Some e); split; [by exists (Err e)|done]|].
    right. exists now, t1, t2. split_and!; [done|by exists (Ok now)|]. by apply (Htail _ t1).
Qed.

(** C19. A carrier is verified with reads only, and a verified carrier comes from the
    issued specification of a producer of version 2 maps, at the paths the run
    root gives its assignment; admission through the file and admission of the
    bytes in memory agree on it. *)
Theorem verified_carrier_sound (carrier_path run_root spec_path : path) (digest : string) :
  wp read_request (ok_then (verified carrier_path run_root spec_path digest))
    (verify_work_map_v2_actual_carrier_authority display sha256 debug_policy debug_role carrier_path run_root spec_path digest).
Proof.
  unfold verify_work_map_v2_actual_carrier_authority.
  apply wp_lift; [done|]. intros _ Hb1%run_path_ok. apply wp_lift; [done|]. intros _ Hb2%run_path_ok.
  apply wp_lift; [done|]. intros _ Hd%ensure_ok. eapply wp_seq; [apply read_carrier_wp|done|done|]. intros [source a] Hp.
  cbn in Hp. apply wp_lift; [done|]. intros _ (Hs & Hn1 & Hn2 & Hn3)%carrier_paths_ok. apply wp_lift; [done|]. intros _ _.
  eapply wp_bind, wp_map_err, wp_mono, read_authority_wp; [done|]. intros [bytes|e] _; [|done]. cbn [map_err].
  apply wp_lift; [done|]. intros _ Hh%ensure_ok. apply wp_lift; [done|]. intros spec Hspec. apply wp_lift; [done|].
  intros _ (cwd & Hc1 & Hc2 & Hc3 & Hc4 & Hc5)%generated_paths_ok.
  destruct (carrier_spec_drift sha256 spec a) eqn:Hdrift; [done|]. to_prop.
  constructor; cbn; [by apply parse_carrier_ok|done|done|]. exists bytes, spec, cwd.
  assert (∀ context, staged carrier_path (sc_bytes source) spec digest context = admit_source source a context)
    by (intros context; by apply staged_admits).
  split_and!; [congruence|done|by apply spec_drift_ok|done..|by eapply same_admission_ok].
Qed.

(** *** Admission *)

(** The registry a map was checked against: what the digest names *)
Definition registry_ids (digest : string) (ids : gset string) : Prop :=
  ∃ bytes registry, Contracts.sha256_hex sha256 bytes = digest ∧ str_len bytes ≤ ATOM_REGISTRY_MAX_BYTES ∧
    from_text bytes = Ok registry ∧ rg_schema registry = "autopilot.planning_atom_registry.v1" ∧
    NoDup (map ra_id (rg_atoms registry)) ∧ ids = list_to_set (map ra_id (rg_atoms registry)).

Lemma v2_registry_ids_ok atoms ids : fold_res v2_registry_id_step ∅ atoms = Ok ids →
  NoDup (map ra_id atoms) ∧ ids = list_to_set (map ra_id atoms).
Proof.
  apply (fold_res_inv _ (λ done acc, NoDup (map ra_id done) ∧ acc = list_to_set (map ra_id done))); [by split; [constructor|]|].
  intros done atom acc acc' [Hn ->] _ Hs. unfold v2_registry_id_step in Hs. apply bind_ok in Hs as (? & _ & Hs).
  case_bool_decide as Hin; [done|]. injection Hs as <-. rewrite map_app. cbn. split.
  - apply NoDup_app. split_and!; [done| |by apply NoDup_singleton]. rewrite elem_of_list_to_set in Hin. set_solver.
  - rewrite list_to_set_app_L. cbn. set_solver.
Qed.

Lemma load_ids_wp p digest :
  wp read_request (ok_then (registry_ids digest)) (load_v2_atom_registry_ids display sha256 p digest).
Proof.
  unfold load_v2_atom_registry_ids. apply wp_lift; [done|]. intros _ _. apply wp_lift; [done|]. intros _ _.
  eapply wp_bind, wp_map_err, wp_mono, read_authority_wp; [done|]. intros [bytes|e] Hl; [|done]. cbn [map_err].
  apply wp_lift; [done|]. intros _ Hd%ensure_ok. apply wp_lift; [done|]. intros registry Hr%map_err_ok.
  apply wp_lift; [done|]. intros _ Hs%ensure_ok. cbn. destruct (fold_res _ _ _) as [ids|e] eqn:Hf; [|done].
  apply v2_registry_ids_ok in Hf as [Hn ->]. to_prop. exists bytes, registry. by split_and!; [|apply Hl|..].
Qed.

(** What a recovery needs: a subject that is itself no recovery, of the same
    registry, whose units it keeps up to declared objectives *)
Definition recovery_admitted (work_map : WorkMapV2) (context : WorkMapV2AdmissionContext)
    (recorded : option ApprovedWorkMapV2RecoverySubject) : Prop :=
  match cx_recovery_subject context with
  | None => m2_recovery work_map = None ∧ recorded = None
  | Some subject =>
      m2_recovery (aw_admitted_source_map subject) = None ∧ aw_recovery_subject subject = None ∧
      aw_atom_registry_path subject = cx_atom_registry_path context ∧
      aw_atom_registry_digest subject = cx_atom_registry_digest context ∧
      Forall2 same_but_objective (m2_units (aw_admitted_source_map subject)) (m2_units work_map) ∧
      is_Some (m2_recovery work_map) ∧
      ∃ r, recorded = Some r ∧ rs_source_raw_work_map_sha256 r = aw_source_raw_work_map_sha256 subject ∧
           rs_source_carrier_sha256 r = aw_source_carrier_sha256 subject
  end.

Lemma admit_recovery_ok work_map context recorded :
  admit_recovery work_map context = Ok recorded → recovery_admitted work_map context recorded.
Proof.
  unfold admit_recovery, recovery_admitted. destruct (cx_recovery_subject context) as [subject|]; intros Hr.
  - apply bind_ok in Hr as (? & Hs & Hr). apply bind_ok in Hr as ([] & Hv & Hr). injection Hr as <-.
    apply recovery_units_kept in Hv as [Hk Hsome]. unfold validate_authenticated_recovery_subject in Hs.
    apply guard_ok in Hs as [Hs1 Hs]. apply guard_ok in Hs as [Hs2 _]. to_prop.
    rewrite <- !eq_None_not_Some in *. split_and!; [done..|]. by eexists.
  - apply guard_ok in Hr as [Hn [= <-]]. to_prop. by rewrite <- eq_None_not_Some in Hn.
Qed.

(** What an admitted map is *)
Record admitted (raw : string) (source : WorkMapV2SourceCarrier) (context : WorkMapV2AdmissionContext)
    (a : ApprovedWorkMapV2) : Prop := {
  ad_payload : raw = sc_raw_work_map_payload source ∧ str_len raw ≤ WORK_MAP_V2_MAX_BYTES ∧ utf8_valid raw = true ∧
    from_text raw = Ok (aw_admitted_source_map a) ∧ m2_schema (aw_admitted_source_map a) = V2_MAP;
  ad_shape : ∃ ids, registry_ids (cx_atom_registry_digest context) ids ∧ map_v2_sound ids (aw_admitted_source_map a);
  ad_recovery : recovery_admitted (aw_admitted_source_map a) context (aw_recovery_subject a);
  ad_units : aw_units a = map (λ e, approved_of e.1 e.2) (enumerate (m2_units (aw_admitted_source_map a)));
  ad_authority : sound_authority (aw_units a) (aw_vendoring a) (aw_package_authority a);
  ad_provenance : aw_source_carrier_path a = sc_path source ∧
    aw_source_carrier_sha256 a = Contracts.sha256_hex sha256 (sc_bytes source) ∧
    aw_source_raw_work_map_sha256 a = Contracts.sha256_hex sha256 raw ∧
    aw_atom_registry_path a = cx_atom_registry_path context ∧ aw_atom_registry_digest a = cx_atom_registry_digest context;
  ad_below : ∃ root, grandparent (sc_path source) = Some root ∧ is_Some (strip_path_prefix root (cx_atom_registry_path context));
}.

(** The result of an admission: an error always has a text. *)
Definition admission_result (Q : ApprovedWorkMapV2 → Prop) (r : result (option string) ApprovedWorkMapV2) : Prop :=
  match r with Ok a => Q a | Err (Some _) => True | Err None => False end.

Lemma wp_say {A} Q (r : result string A) (f : A → prog (option string) ApprovedWorkMapV2) :
  (∀ a, r = Ok a → wp read_request (admission_result Q) (f a)) → wp read_request (admission_result Q) (say r ≫= f).
Proof. intros Hf. destruct r as [a|e]; cbn; [by apply Hf|done]. Qed.

Lemma wp_conclude {A} Q label (r : option (result string A)) (f : A → prog (option string) ApprovedWorkMapV2) :
  (∃ x, r = Some x) → (∀ a, r = Some (Ok a) → wp read_request (admission_result Q) (f a)) →
  wp read_request (admission_result Q) (conclude label r ≫= f).
Proof. intros [[a|e] ->] Hf; cbn; [by apply Hf|done]. Qed.

Lemma confinement_ok source context u : validate_v2_artifact_confinement source context = Ok u →
  ∃ root, grandparent (sc_path source) = Some root ∧ is_Some (strip_path_prefix root (cx_atom_registry_path context)).
Proof.
  unfold validate_v2_artifact_confinement. intros Hc. apply bind_ok in Hc as (root & Hr%ok_or_ok & Hc). exists root.
  split; [done|]. destruct u. apply for_each_ok in Hc. rewrite !Forall_cons in Hc.
  destruct Hc as (_ & Hb%ensure_ok & _). by apply strictly_below_ok in Hb as [_ ?].
Qed.

Lemma model_value_ok raw work_map : parse_work_map_v2_model_value utf8_error raw = Ok work_map →
  str_len raw ≤ WORK_MAP_V2_MAX_BYTES ∧ utf8_valid raw = true ∧ from_text raw = Ok work_map ∧ m2_schema work_map = V2_MAP.
Proof.
  unfold parse_work_map_v2_model_value, validate_work_map_v2_raw_size. intros Hp.
  apply bind_ok in Hp as (? & Hl & Hp). apply guard_ok in Hl as [Hl _]. apply bind_ok in Hp as (text & Ht & Hp).
  destruct (utf8_valid raw); [|done]. injection Ht as <-. apply bind_ok in Hp as (w & Hw%map_err_ok & Hp).
  apply guard_ok in Hp as [Hs [= <-]]. to_prop. done.
Qed.

Lemma admit_wp raw source context :
  wp read_request (admission_result (admitted raw source context)) (admit_map raw source context).
Proof.
  unfold admit_work_map_v2. apply wp_say. intros _ Hb%confinement_ok. apply wp_say. intros _ _.
  apply wp_say. intros _ Hraw%ensure_ok. apply wp_say. intros work_map Hp%model_value_ok.
  apply wp_bind, wp_map_err. eapply wp_mono, load_ids_wp; [done|]. intros [ids|e] Hids; [|done]. cbn [map_err].
  apply wp_conclude; [apply shape_ends|]. intros [] Hm%shape_ok. apply wp_say. intros recorded Hr%admit_recovery_ok.
  apply wp_say. intros units Hu. rewrite (approved_units_ok ids) in Hu by done. injection Hu as <-.
  apply wp_conclude; [apply authority_total|]. intros [] Ha%authority_ok. to_prop.
  constructor; cbn; [by destruct Hp as (? & ? & ? & ?)|by exists ids|done..].
Qed.

(** An admission that keeps the authority of the carrier *)
Definition admitted_from (carrier_path : path) (bytes raw : string) (context : WorkMapV2AdmissionContext)
    (a : ApprovedWorkMapV2) : Prop :=
  ∃ source authority, carrier_sound carrier_path bytes source authority ∧ admitted raw source context a ∧
    aw_source_actual_authority a = Some authority.

Lemma admit_source_wp carrier_path bytes source authority context :
  parse_carrier carrier_path bytes = Ok (source, authority) →
  wp read_request (admission_result (admitted_from carrier_path bytes (sc_raw_work_map_payload source) context))
    (admit_source source authority context).
Proof.
  intros Hp%parse_carrier_ok. apply wp_bind. eapply wp_mono, admit_wp; [done|]. intros [a|[e|]] Ha; [|done|done].
  exists source, authority. split_and!; [done| |done]. by destruct Ha; constructor.
Qed.

(** C8. Admission asks for reads only and always decides.  An admitted map is the
    payload of its carrier, decodes to a sound map over the ids of the registry
    that the digest names, repairs (if it does) a map that is itself no repair
    without changing more than objectives, and its units, vendored files and
    proofs are sound approved authority; the record says what it came from. *)
Theorem admission_sound (raw bytes : string) (carrier_path : path) (source : WorkMapV2SourceCarrier)
    (spec : AgentRunSpec) (digest : string) (context : WorkMapV2AdmissionContext) :
  wp read_request (admission_result (admitted raw source context)) (admit_map raw source context) ∧
  wp read_request (admission_result (admitted_from carrier_path bytes raw context))
    (admit_work_map_v2_verified_carrier display sha256 debug_policy debug_role utf8_error raw carrier_path bytes context) ∧
  wp read_request (admission_result (λ a, ∃ raw, admitted_from carrier_path bytes raw context a))
    (staged carrier_path bytes spec digest context).
Proof.
  split_and!; [apply admit_wp| |].
  - unfold admit_work_map_v2_verified_carrier. apply wp_bind, wp_map_err. eapply wp_mono, read_carrier_wp; [done|].
    intros [[source' authority]|e] Hp; [|done]. cbn in Hp. cbn [map_err].
    destruct (_ || _) eqn:Hg; [done|]. to_prop. subst raw bytes. by apply admit_source_wp.
  - unfold admit_work_map_v2_staged_carrier. apply wp_say. intros [source' authority] Hp. destruct (negb _); [done|].
    apply wp_say. intros text Ht. destruct (_ || _); [done|].
    eapply (wp_mono read_request), admit_source_wp, Hp; [done|]. intros [a|[e|]] Ha; [by eexists|done|done].
Qed.
End Admission.

(** ** A run *)

Module AdmissionSample.
Import MapSample.

Instance map_from_text : Deserialize WorkMapV2 := λ s, if s =s "map" then Ok sample_map else Err "not a map".
Instance registry_from_text : Deserialize PlanningAtomRegistry :=
  λ s, if s =s "registry"
       then Ok {| rg_schema := "autopilot.planning_atom_registry.v1"; rg_workstream := "ws"; rg_authority_set_id := "set";
                  rg_producer_assignment_ids := ["P1"];
                  rg_atoms := [{| ra_id := "A1"; ra_producer_assignment_id := "P1"; ra_kind := AkWork;
                                  ra_text := "build it"; ra_sources := [] |}] |}
       else Err "not a registry".

Definition plain (dir : bool) : metadata :=
  {| md_symlink := false; md_file := negb dir; md_dir := dir; md_nlink := 1; md_len := 8; md_mode := 384 |}.

(** Every directory is descriptor 0, the registry is descriptor 1. *)
Definition disk : handler unit := λ w q,
  (w, match q return answer q with
      | OpenRoot => Ok 0%nat
      | OpenDirAt _ _ => Ok 0%nat
      | OpenFileAt _ _ => Ok 1%nat
      | HandleMeta fd => Ok (plain (Nat.eqb fd 0))
      | ReadTake _ _ => Ok "registry"
      | q => refuse q
      end).

Definition zeros : string := "0000000000000000000000000000000000000000000000000000000000000000".
Definition sample_source : WorkMapV2SourceCarrier :=
  {| sc_path := components "/r/.pi/autopilot/ws/planning/carriers/c.json"; sc_bytes := "{}"; sc_raw_work_map_payload := "map" |}.
Definition sample_context : WorkMapV2AdmissionContext :=
  {| cx_atom_registry_path := components "/r/.pi/autopilot/ws/planning/atoms.json"; cx_atom_registry_digest := zeros;
     cx_recovery_subject := None |}.

Example admission_accepts :
  match (run disk tt (admit_work_map_v2 to_os (λ _, replicate 32 0) (λ _, "") "map" sample_source sample_context)).2 with
  | Ok a => map au_id (aw_units a)
  | Err _ => []
  end = ["U1"; "U2"].
Proof. vm_compute. reflexivity. Qed.
End AdmissionSample.
